(* ===== verification/_CoqProject ===== *)
-Q . S2P
Prelude.v
Foundation.v
Chrono.v
Values.v
Codec.v
Schema.v
Sha256.v
Models.v
PhysicalSql.v
Snapshot.v
Diff.v
SqlValidation.v
Literals.v
SchemaJson.v
Generation.v
Renames.v
Catalog.v
History.v
Session.v
State.v
Protocol.v
Journal.v
Recovery.v
Liveness.v
Preflight.v
TargetValues.v
Floats.v
TargetDomain.v
Runner.v
Rebuild.v
Identities.v
Execution.v
Scenarios.v
Runs.v
Dialect.v
QueryValue.v
Query.v
Emitter.v
Render.v
Direct.v
Statements.v
Erasure.v
Policies.v
Capabilities.v
Commands.v
Generators.v
Links.v
Database.v
Binding.v
Connection.v
Connections.v
Context.v
Contexts.v
Supported.v
Samples.v
Drivers.v
Tokens.v
Markers.v
Bound.v
LinkLocks.v
FileSystem.v
Disk.v
Project.v
Projects.v
ProjectLoading.v
ProjectFinal.v
ProjectSamples.v
Environment.v
CommandLine.v
CommandLines.v
CommandSamples.v
BindingSamples.v
ContextSamples.v
