(* ===== verification/Prelude.v ===== *)
(** orm-cxx: the schema-migration system of the library -- how it describes physical
    schemas, compares them, generates scripts, keeps them in a project on disk and applies
    them durably --, its query layer -- how specifications of queries become SQL with
    bound parameters -- and its database object -- what it checks, the protocol it
    follows with a driver, and how values and statements reach the drivers.

    The program.  Models are captured as snapshots of a physical schema
    (src/migrations/SchemaSnapshot.cpp); two snapshots are compared under decisions of
    the user (SchemaDiff.cpp); a difference becomes the scripts of a migration, one
    per backend (SchemaGeneration.cpp); a catalog is a chain of migrations with
    checksums (Catalog.cpp), read and written as JSON (SchemaJson.cpp); scripts are
    scanned for statements they must not hold (SqlValidation.cpp); the runner applies
    migrations and records them in the history table, with a journal on the backends
    that commit every statement (MigrationState.cpp, Runner.cpp).  Migrations live in a
    project directory that is drafted, finalized and loaded (MigrationProject.cpp) by a
    command line (CommandLine.cpp) that connects as the environment says
    (ConnectionEnvironment.cpp).

    At run time a query is a tree of predicates, compiled to a flat program of nodes
    and bindings (database/defaults/SqlRenderer.cpp) that one emitter renders
    (modules/orm/sql/emitter.cppm), either with the dialect of a backend (the four
    *Dialect.cpp) or, for queries known at compile time, with the static policy of its
    flavor.  The same dialects render DDL and INSERT (DefaultCommandGenerator.cpp) and
    the statements on relations (RelationStatements.cpp).  An application runs all of
    them through a database (Database.cpp), which checks models, schemas and queries
    against the capabilities of its backend, binds values (object_binding.cppm, the
    [bind] of each backend) and keeps the state of a session and its transaction.  The
    backend of MySQL and MariaDB splits statements at their bind markers and links rows
    under named locks (MysqlFamily.cpp).  All paths are under src/src/ and
    src/modules/orm/.

    How code becomes definitions.  Functions keep their names.  Exceptions are the
    [Err] values of [result] (below); code on a database is a computation in the
    monad [Session.M] of a session, with a counter of library calls, each of which may
    fail.  Bounded integers are [Z] with their ranges written out; texts are byte
    strings; ordered maps keyed by a backend are sorted association lists
    ([Foundation.BackendMap]).  Calls into third-party code are class parameters:
    [SchemaJson.JsonLibrary] and [Project.ProjectLibrary] for nlohmann::json,
    [Session.Engine] for the database behind SOCI as migrations use it,
    [Connection.Driver] for a driver as a database uses it, [LinkLocks.LinkServer] for
    the server that holds named locks.  Code on files is a computation in the monad
    [FileSystem.IO] of a disk -- a map from paths to files, directories and links -- and
    of the outcomes of the calls to come; code of the program is one in
    [CommandLine.Cmd], of a host, a session and what is printed.

    Files, in their order, with what they model:
    - Prelude: results, lists and strings that the other files share.
    - Foundation: backends, column types, [MigrationError] (modules/orm/foundation/types.cppm).
    - Chrono, Values, Codec: calendar, UUIDs and the text codec (foundation/Uuid.cpp, ValueCodec.cpp).
    - Schema, Models: records of modules/orm/migrations/schema.cppm and model/views.cppm.
    - Sha256, PhysicalSql, Snapshot: the digest, quoting, frozen types and DDL, capture,
      canonical order and validation of snapshots (Catalog.cpp, SchemaSnapshot.cpp).
    - Diff: the comparison (SchemaDiff.cpp).
    - SqlValidation, Literals, Generation, Renames: the script scan (SqlValidation.cpp),
      backfill constants and expressions, the SQLite rebuild and the native scripts,
      inverse decisions and [generate] (SchemaGeneration.cpp).
    - SchemaJson: encoding and decoding (SchemaJson.cpp).
    - Catalog: normalization, checksums, contexts, [makeCatalog] (Catalog.cpp).
    - History: [evaluate] and [makePlan] (MigrationState.cpp).
    - Session: the session and the monad, with the rules of [wp] for it.
    - State: every operation of MigrationState.cpp -- [Transaction], [MigrationLock] and
      [HistoryWrite] with their destructors, [apply], [baselineHistory] (the code's
      [baseline]) and [resolve] -- with the driver hooks they call (MysqlFamily.cpp,
      SqliteBackend.cpp).
    - Protocol, Journal, Recovery, Liveness: the theorems on State.
    - Preflight, TargetValues: the two checks around a script, [contextPreflight] and
      [validateTargetValues] (Runner.cpp), with the database's catalogs and stored
      values as the classes [Preflight.Introspection] and [TargetValues.StoredValues];
      Preflight also says what agreement is, in rows of the catalogs and by rules for
      the text of a SQLite table's statement.  TargetDomain: the cells of a column and
      which of them a C++ type can hold; Floats: the numbers that [float] keeps.
    - Runner: [SqliteRebuildSession] and the operations of [Runner] (Runner.cpp), with
      SQLite's sequences as the class [Runner.SqliteObjects].
    - Rebuild, Identities, Execution: the theorems on Runner.
    - Scenarios, Runs: engines to run State and Runner with, and those theorems at
      concrete sessions.
    - Dialect: [SqlDialect] as a record of operations, the four built-in dialects and
      their type translators.
    - QueryValue: the values that queries bind and the order of primary keys
      (query/value.cppm, QueryValue.cpp, ValueLimits.cpp).
    - Query: the trees of a query and their compilation (query/*.cppm, sql/program.cppm,
      SqlRenderer.cpp); Emitter: the emission of a program under a policy, a type class
      with the static and the run-time instance (sql/emitter.cppm); Render: the
      statements (SqlRenderer.cpp).
    - Direct, Statements, Erasure, Policies: the theorems on these; Direct also holds
      the reference rendering, by recursion on the trees.
    - Capabilities: what each backend declares, the translation of driver errors and
      affected rows (sql/contracts.cppm, the four backends).
    - Commands: DDL and INSERT through a dialect, relation statements and the factory of
      backends; Generators, Links: the theorems on Commands.
    - Database: what a database checks before an operation (Database.cpp); Supported:
      the theorems on it.
    - Connection: connecting, disconnecting, transactions and statements (Database.cpp)
      over a driver; Connections: the theorems on it.
    - Context: the operations on objects of [OrmContext] (database/context.cppm) and the
      reading of rows (database/result_storage.cppm), with what reflection generates as
      the class [Context.Objects]; Contexts: the theorems on it, applied in ContextSamples
      to a bookshop behind a driver that answers queries.
    - Samples, Drivers: a schema with statements on it, a scripted driver, and the
      theorems of these parts applied to them.
    - Tokens: [tokenizeStatement] and [isEmptyScript] (MysqlFamily.cpp); Markers: what it
      makes of the statements that the library renders.
    - Binding: [bindBoundValue], the [bind] of each backend and [bindModelParameters]
      (result_binding.cppm, object_binding.cppm, the backends, Database.cpp); Bound: the
      theorems on it.
    - LinkLocks: [SessionBackend], [LinkLockScope] and [executeInsertIfAbsent]
      (MysqlFamily.cpp), and the theorems on them.
    - FileSystem: the disk, the calls on it and the helpers of MigrationProject.cpp that
      make them; Disk: the rules of [wp] for such computations; Project: every operation
      of MigrationProject.cpp; Projects, ProjectLoading, ProjectFinal: the theorems on
      drafting, loading and finalizing; ProjectSamples: a project from its creation on.
    - Environment: configurations and the variables that spell them
      (ConnectionEnvironment.cpp, database/config.cppm), and the theorem on them.
    - CommandLine: the program (CommandLine.cpp); CommandLines: the theorems on it.
    - CommandSamples, BindingSamples: runs of the program, values, models and links, with
      these theorems applied to them.

    What the theorems show.
    - Durability (Protocol, Journal, Recovery, Liveness): on backends that roll back,
      [apply] is all or nothing; on the others it refines an abstract machine whose
      states are the recorded history, marker and objects, so that an interruption
      leaves a migration not begun, complete or recorded as incomplete; [resolve] takes
      at most one step of that machine; without failures [apply] completes.
    - Execution (Rebuild, Identities, Execution): [execute] carries out a plan one such
      step at a time, ends with the target when it returns, and leaves a session as it
      found it or closed; without failures it completes; a rebuild gives no identity
      out twice.
    - Checks (Preflight, TargetDomain): they change nothing and return only when the
      live tables agree with the snapshot -- definitions, columns, keys with their
      actions, indexes, constraints, options -- and nothing unmanaged depends on them;
      and when every cell of the target tables is a value of its C++ type.
    - History and plans: which histories are valid, what a plan holds, which error a
      bad target gets.
    - Generation: nothing unapproved is lost, there is a reverse script exactly when the
      reverse is sound, scripts are complete and validated, simultaneous renames, foreign-key closures, inverse decisions.
    - Comparison: exactness, recorded data loss, identifiers, safe type changes.
    - Catalog and JSON: chains, order, checksums, round trips, strict parsing.
    - Scanning and text: hidden control statements, quoting, literals, codec.

    - Queries (Direct, Statements, Erasure, Policies): compiling and emitting is the
      reference rendering; the text never depends on a bound value; parameters have
      names of their own; an UPDATE is restricted; aliases of subqueries are distinct;
      both policies agree.
    - Commands (Generators, Links): CREATE TABLE through a dialect is the frozen
      rendering of migrations, but for generated keys on PostgreSQL and keys with the
      words PRIMARY KEY in their name; INSERT names the columns that are not generated; relation
      statements bind the whole keys; the comparator of keys is a strict weak order.
    - Databases (Supported, Connections): the checks end on cyclic schemas and say
      exactly what they mean; the calls to a driver are a run of the session protocol,
      whatever fails; connecting is all or nothing, disconnecting always releases, a
      transaction ends, and no exception of a driver escapes untranslated.
    - Objects (Contexts): the same protocol under any sequence of operations on objects;
      an include asks for every owner once, in statements within the limit on bind
      parameters, and sets on each owner exactly the rows with its key.
    - Drivers (Markers, Bound, LinkLocks): an INSERT is split at exactly its markers, the
      parameters of a model are those of its INSERT, a value within the limits is bound
      and loses nothing; links of rows run under the lock of their table, and locks end
      with their transaction.
    - Projects (Projects, ProjectLoading, ProjectFinal): drafting and finalizing are all
      or nothing at every failing call, and only the last draft becomes ready, with the
      checksums of the scripts on disk; a lock excludes other writers; what is loaded is
      a chain whose finalized members are what was sealed.
    - The program (Environment, CommandLines): an environment says exactly what its
      configuration holds; generation is offline; an exit code says what was done.

    Fuel and bounds.  The scanner, the closure of detached tables and the codec run on
    fuel computed from their input; [SqlValidation.scan_terminates] and
    [Generation.nativeAffectedSources_closure] prove that it is enough.  The tokenizer's
    fuel is the length of the statement and the loop that releases locks has one step for
    each ([LinkLocks.transactions_end_without_locks]).  The emitter's
    fuel is the number of nodes of the program, whose children precede their parents;
    a query is assumed to have fewer nodes than [noSqlNode], the largest index.  Where
    C++ leaves the order of arguments open (the parts of [sqlConcat]) the model takes
    them from left to right: it decides only which of two exceptions is thrown.

    Assumptions.  The theorems on [apply] hold for every engine: whichever call fails,
    with or without the connection, and a failing commit may have taken effect.  A
    script on a backend without rollback is taken to leave the history and journal
    alone ([Journal.polite]); scripts do not end their transaction (the scan refuses
    the statements that would); beginning a transaction and taking its lock is one
    call; closing a session does not fail; the sequences of SQLite are rows that a
    statement reads and writes, and setting a sequence does not move rows.  Rename staging names are hashes; where a
    theorem needs two of them to differ it says so.

    A driver ([Connection.Driver]) may refuse every call; releasing a session throws
    nothing, whether it is connected does not change by asking, and a migration is
    marked active only on a connected database.  A call that the server of named locks
    refuses has no effect but, possibly, the loss of the connection, with which the
    server gives up the locks.  Any call to the file system may fail or stop half-way,
    with part of a file written or part of a tree removed; a rename is atomic; symbolic
    links are refused by the code, so what is behind them is not described; the order in
    which a directory is listed is a parameter; between the calls of one operation no
    other program writes to the project but as its lock allows.

    The check of stored values is told of the cells by the answers to its queries: a
    count is the number of cells that satisfy the condition, where integers are compared
    as integers and [typeof] tells SQLite's storage class ([TargetDomain.answers]).  What
    a cell of another class is when it is compared or read as a number or text is a
    parameter ([TargetDomain.CellReading]).

    An include assumes that a database answers the statement of a batch with the rows of
    the keys it binds, in any order ([Contexts.answers]), and that the owners have
    different keys, as rows of one table have.

    Not modelled, with the reason: the serialization of C++ objects and the typed query
    expressions, and plans prepared at compile time (templates over compile-time
    reflection, whose tables are generated); the
    native calls of the drivers and the construction of connection strings (SOCI and the
    client libraries are vendored code); reading the decisions file and the environment
    of the process, which are parameters of the program. *)

From stdpp Require Export base tactics list strings gmap sets sorting.
From Stdlib Require Export ZArith NArith Ascii Lia.
From Stdlib Require Import DecimalString DecimalN DecimalZ.

#[export] Set Default Goal Selector "!".
#[global] Arguments String.append !_ _ / : simpl nomatch.

Create HintDb orm discriminated.
Create Rewrite HintDb orm.

(** ** Fallible code

    C++ exceptions are the [Err] values of [result]; a thrown exception ends
    the computation, as [mbind] does. *)
Inductive result (E A : Type) : Type :=
| Ok (a : A)
| Err (e : E).
Arguments Ok {E A} a.
Arguments Err {E A} e.

#[export] Instance result_ret {E} : MRet (result E) := fun A a => Ok a.
#[export] Instance result_bind {E} : MBind (result E) :=
  fun A B k m => match m with Ok a => k a | Err e => Err e end.
#[export] Instance result_fmap {E} : FMap (result E) :=
  fun A B f m => match m with Ok a => Ok (f a) | Err e => Err e end.

(** [throw_if c e] is the statement [if (c) throw e;]. *)
Definition throw_if {E} (c : bool) (e : E) : result E unit :=
  if c then Err e else Ok tt.

(** The value of an optional, or an exception. *)
Definition or_throw {E A} (o : option A) (e : E) : result E A :=
  match o with Some a => Ok a | None => Err e end.

Definition is_ok {E A} (r : result E A) : bool :=
  match r with Ok _ => true | Err _ => false end.

(** A loop over a list whose body may throw, threading the loop's state. *)
Fixpoint foldM {E A S} (f : S -> A -> result E S) (s : S) (l : list A) : result E S :=
  match l with
  | [] => Ok s
  | x :: l => s' ← f s x; foldM f s' l
  end.

(** A loop over a list whose body may throw and changes nothing. *)
Fixpoint forM_ {E A} (l : list A) (f : A -> result E unit) : result E unit :=
  match l with
  | [] => Ok tt
  | x :: l => f x ;; forM_ l f
  end.

Section result_lemmas.
Context {E : Type}.

Lemma bind_Ok_iff {A B} (m : result E A) (k : A -> result E B) b :
  (m ≫= k) = Ok b <-> exists a, m = Ok a /\ k a = Ok b.
Proof.
  destruct m as [a|e]; simpl; split; [by eauto| |done|].
  - by intros (? & [= ->] & ?).
  - by intros (? & ? & ?).
Qed.

Lemma seq_Ok_iff {B} (m : result E unit) (k : result E B) b :
  (m ;; k) = Ok b <-> m = Ok tt /\ k = Ok b.
Proof. destruct m as [[]|e]; simpl; naive_solver. Qed.

Lemma Ok_inj {A} (a b : A) : @Ok E A a = Ok b -> a = b.
Proof. by intros [= ->]. Qed.

Lemma bind_Ok {A B} (a : A) (k : A -> result E B) : (Ok a ≫= k) = k a.
Proof. done. Qed.

Lemma bind_Err {A B} e (k : A -> result E B) : (Err e ≫= k) = Err e.
Proof. done. Qed.

Lemma throw_false (e : E) : throw_if false e = Ok tt.
Proof. done. Qed.

Lemma throw_true (e : E) : throw_if true e = Err e.
Proof. done. Qed.

Lemma throw_if_Ok_iff (c : bool) (e : E) u : throw_if c e = Ok u <-> c = false.
Proof. destruct c, u; naive_solver. Qed.

Lemma or_throw_Ok_iff {A} (o : option A) (e : E) a : or_throw o e = Ok a <-> o = Some a.
Proof. destruct o; naive_solver. Qed.

Lemma fmap_Ok_iff {A B} (f : A -> B) (m : result E A) b :
  f <$> m = Ok b <-> exists a, m = Ok a /\ b = f a.
Proof. destruct m; naive_solver. Qed.

Lemma forM__Ok_iff {A} (l : list A) (f : A -> result E unit) u :
  forM_ l f = Ok u <-> Forall (fun x => f x = Ok tt) l.
Proof.
  destruct u. induction l as [|x l IH]; simpl; [by split|].
  rewrite Forall_cons, <- IH. destruct (f x) as [[]|]; naive_solver.
Qed.

Lemma mapM_Ok_iff {A B} (f : A -> result E B) l k :
  mapM f l = Ok k <-> Forall2 (fun x y => f x = Ok y) l k.
Proof.
  split.
  - revert k. induction l as [|x l IH]; simpl; intros k H.
    + injection H as <-. constructor.
    + destruct (f x) eqn:Hx; simpl in H; [|done].
      destruct (mapM f l) eqn:Hl; simpl in H; [|done].
      injection H as <-. constructor; auto.
  - induction 1 as [|x y l k Hx _ IH]; simpl; [done|]. by rewrite Hx; simpl; rewrite IH.
Qed.

Lemma mapM_is_ok {A B} (f : A -> result E B) l :
  Forall (fun x => exists y, f x = Ok y) l -> exists k, mapM f l = Ok k.
Proof.
  induction 1 as [|x l [y Hy] _ [k IH]]; simpl; [by eexists|]. rewrite Hy. simpl.
  rewrite IH. by eexists.
Qed.

Lemma foldM_app {A S} (f : S -> A -> result E S) s l k :
  foldM f s (l ++ k)%list = (s' ← foldM f s l; foldM f s' k).
Proof. revert s. induction l as [|x l IH]; intros s; simpl; [done|]. by destruct (f s x); simpl. Qed.

Lemma foldM_is_ok {A S} (f : S -> A -> result E S) l :
  (forall s x, x ∈ l -> exists s', f s x = Ok s') -> forall s, exists s', foldM f s l = Ok s'.
Proof.
  induction l as [|x l IH]; intros H s; simpl; [by eexists|].
  destruct (H s x) as [s' ->]; [left|]. apply IH. intros t y Hy. apply H. by right.
Qed.

(** A loop that inserts the key of each element into a set, refusing one
    that is there, and checks the element. *)
Lemma foldM_insert_Ok_iff {A} `{Countable K} (f : gset K -> A -> result E (gset K))
    (proj : A -> K) (P : A -> Prop) l s r :
  (forall s x r, f s x = Ok r <-> (proj x ∉ s) /\ P x /\ r = {[proj x]} ∪ s) ->
  (foldM f s l = Ok r <->
   NoDup (proj <$> l) /\ (forall x, x ∈ l -> proj x ∉ s) /\ (forall x, x ∈ l -> P x) /\
   r = list_to_set (proj <$> l) ∪ s).
Proof.
  intros Hf. revert s. induction l as [|x l IH]; intros s; simpl.
  - split.
    + intros [= <-]. split; [constructor|]. split; [by intros ? ?%not_elem_of_nil|].
      split; [by intros ? ?%not_elem_of_nil|set_solver].
    + intros (_ & _ & _ & ->). f_equal. set_solver.
  - rewrite bind_Ok_iff. setoid_rewrite Hf. setoid_rewrite IH. split.
    + intros (t & (Hx & HP & ->) & Hnd & Hs & HPl & ->).
      split; [|split; [|split]].
      * constructor; [|done]. intros (y & Hy & Hin)%list_elem_of_fmap.
        apply (Hs y Hin). rewrite <- Hy. set_solver.
      * intros y [->|Hy]%elem_of_cons; [done|]. specialize (Hs y Hy). set_solver.
      * intros y [->|Hy]%elem_of_cons; auto.
      * set_solver.
    + intros (Hnd & Hs & HPl & ->). apply NoDup_cons in Hnd as [Hx Hnd].
      eexists. split; [split; [apply Hs; left|split; [apply HPl; left|reflexivity]]|].
      split; [done|]. split; [|split; [|set_solver]].
      * intros y Hy. assert (proj y ∉ s) by (apply Hs; by right).
        assert (proj y <> proj x) by (intros Heq; apply Hx; rewrite <- Heq; by apply list_elem_of_fmap_2).
        set_solver.
      * intros y Hy. apply HPl. by right.
Qed.

(** The invariant rule for a loop that may throw. *)
Lemma foldM_inv {A S} (P : S -> Prop) (f : S -> A -> result E S) l s s' :
  P s -> (forall t t' x, x ∈ l -> P t -> f t x = Ok t' -> P t') ->
  foldM f s l = Ok s' -> P s'.
Proof.
  revert s. induction l as [|x l IH]; simpl; intros s Hs Hstep H.
  - by injection H as <-.
  - apply bind_Ok_iff in H as (t & Hf & H).
    apply (IH t); [|clear H|done].
    + eapply (Hstep s); [apply list_elem_of_here|done|done].
    + intros u u' y Hy. apply Hstep. by apply list_elem_of_further.
Qed.
End result_lemmas.

(** Splits the equations that say that a computation returned normally. *)
Ltac result_inv :=
  repeat match goal with
  | H : (_ ≫= _) = Ok _ |- _ =>
      let a := fresh "a" in let Ha := fresh "Hok" in
      apply bind_Ok_iff in H as (a & Ha & H)
  | H : throw_if _ _ = Ok ?u |- _ => apply throw_if_Ok_iff in H; try clear u
  | H : or_throw _ _ = Ok _ |- _ => apply or_throw_Ok_iff in H
  | H : Ok _ = Ok _ |- _ => injection H as H
  | H : Err _ = Ok _ |- _ => discriminate H
  | H : mret _ = Ok _ |- _ => unfold mret, result_ret in H
  end.

(** Turns boolean tests into the propositions they decide. *)
Lemma bool_decide_false_ne {A} `{EqDecision A} (x y : A) :
  bool_decide (x = y) = false <-> x <> y.
Proof. apply bool_decide_eq_false. Qed.

(** Decides the equality tests between concrete constructors. *)
Ltac decide_tests :=
  repeat first
    [ rewrite bool_decide_true by reflexivity
    | rewrite bool_decide_false by discriminate ];
  cbn [negb andb orb].

Ltac bool_to_prop :=
  repeat match goal with
  | H : _ && _ = true |- _ => apply andb_true_iff in H as [? ?]
  | H : _ || _ = false |- _ => apply orb_false_iff in H as [? ?]
  | H : negb _ = true |- _ => apply negb_true_iff in H
  | H : negb _ = false |- _ => apply negb_false_iff in H
  | H : bool_decide _ = true |- _ => apply bool_decide_eq_true in H
  | H : bool_decide _ = false |- _ => apply bool_decide_eq_false in H
  | H : (_ <=? _)%Z = true |- _ => apply Z.leb_le in H
  | H : (_ <=? _)%Z = false |- _ => apply Z.leb_gt in H
  | H : (_ <? _)%Z = true |- _ => apply Z.ltb_lt in H
  | H : (_ <? _)%Z = false |- _ => apply Z.ltb_ge in H
  | H : (_ =? _)%Z = true |- _ => apply Z.eqb_eq in H
  | H : (_ =? _)%Z = false |- _ => apply Z.eqb_neq in H
  | H : (_ <=? _)%N = true |- _ => apply N.leb_le in H
  | H : (_ <=? _)%N = false |- _ => apply N.leb_gt in H
  | H : (_ <? _)%N = true |- _ => apply N.ltb_lt in H
  | H : (_ <? _)%N = false |- _ => apply N.ltb_ge in H
  | H : (_ =? _)%N = true |- _ => apply N.eqb_eq in H
  | H : (_ =? _)%N = false |- _ => apply N.eqb_neq in H
  end.

(** ** Byte strings

    A [std::string] is the list of its bytes; [string] holds them as [ascii]
    values.  [size] is the number of bytes. *)
Definition byte_of (c : ascii) : Z := Z.of_N (N_of_ascii c).
Definition char_of (n : Z) : ascii := ascii_of_N (Z.to_N (n mod 256)).

Definition NUL : ascii := ascii_of_nat 0.
Definition LF : ascii := ascii_of_nat 10.
Definition CR : ascii := ascii_of_nat 13.
Definition DQUOTE : ascii := ascii_of_nat 34.
Definition newline : string := String LF "".

Definition size (s : string) : N := N.of_nat (String.length s).

Fixpoint of_chars (l : list ascii) : string :=
  match l with [] => "" | c :: l => String c (of_chars l) end.
Fixpoint chars (s : string) : list ascii :=
  match s with "" => [] | String c s => c :: chars s end.

Fixpoint existsb_char (f : ascii -> bool) (s : string) : bool :=
  match s with "" => false | String c s => f c || existsb_char f s end.
Definition forallb_char (f : ascii -> bool) (s : string) : bool :=
  negb (existsb_char (fun c => negb (f c)) s).

(** [s.find(c) != npos]. *)
Definition contains_char (c : ascii) (s : string) : bool :=
  existsb_char (fun d => bool_decide (d = c)) s.

Fixpoint concat_map (f : ascii -> string) (s : string) : string :=
  match s with "" => "" | String c s => f c +:+ concat_map f s end.

Fixpoint map_char (f : ascii -> ascii) (s : string) : string :=
  match s with "" => "" | String c s => String (f c) (map_char f s) end.

(** [starts_with]. *)
Fixpoint starts_with (p s : string) : bool :=
  match p, s with
  | "", _ => true
  | String a p, String b s => bool_decide (a = b) && starts_with p s
  | _, "" => false
  end.

(** [s.substr(n)] for [n <= s.size()]. *)
Fixpoint drop_str (n : nat) (s : string) : string :=
  match n, s with
  | O, _ => s
  | S n, String _ s => drop_str n s
  | S _, "" => ""
  end.

(** [s.substr(0, n)]. *)
Fixpoint take_str (n : nat) (s : string) : string :=
  match n, s with
  | O, _ => ""
  | S n, String c s => String c (take_str n s)
  | S _, "" => ""
  end.

Fixpoint rev_onto (s acc : string) : string :=
  match s with "" => acc | String c s => rev_onto s (String c acc) end.
Definition rev_str (s : string) : string := rev_onto s "".

Definition ends_with (suffix s : string) : bool := starts_with (rev_str suffix) (rev_str s).

Definition concat_str (l : list string) : string := foldr String.append "" l.

(** Texts joined by a separator. *)
Definition join (sep : string) (l : list string) : string :=
  match l with
  | [] => ""
  | x :: l => fold_left (fun acc y => acc +:+ sep +:+ y) l x
  end.

Definition is_upper (c : ascii) : bool := (65 <=? byte_of c)%Z && (byte_of c <=? 90)%Z.
Definition is_lower (c : ascii) : bool := (97 <=? byte_of c)%Z && (byte_of c <=? 122)%Z.
Definition is_digit (c : ascii) : bool := (48 <=? byte_of c)%Z && (byte_of c <=? 57)%Z.
(** [static_cast<char>(c - 'a' + 'A')] on lower-case letters. *)
Definition to_upper (c : ascii) : ascii := if is_lower c then char_of (byte_of c - 32) else c.

Section string_lemmas.
Lemma byte_of_range c : (0 <= byte_of c < 256)%Z.
Proof. unfold byte_of. pose proof (N_ascii_bounded c). lia. Qed.

Lemma byte_of_char_of n : byte_of (char_of n) = (n mod 256)%Z.
Proof.
  unfold byte_of, char_of. pose proof (Z.mod_pos_bound n 256 ltac:(lia)).
  rewrite N_ascii_embedding by lia. lia.
Qed.

Lemma char_of_byte_of c : char_of (byte_of c) = c.
Proof.
  unfold char_of. rewrite Z.mod_small by apply byte_of_range.
  unfold byte_of. by rewrite N2Z.id, ascii_N_embedding.
Qed.

Lemma app_str_nil_r s : s +:+ "" = s.
Proof. induction s; simpl; congruence. Qed.

Lemma app_str_assoc s t u : (s +:+ t) +:+ u = s +:+ (t +:+ u).
Proof. induction s; simpl; congruence. Qed.

Lemma length_app_str s t : String.length (s +:+ t) = String.length s + String.length t.
Proof. induction s; simpl; congruence. Qed.

Lemma size_app s t : size (s +:+ t) = (size s + size t)%N.
Proof. unfold size. rewrite length_app_str. lia. Qed.

Lemma existsb_char_app f s t : existsb_char f (s +:+ t) = existsb_char f s || existsb_char f t.
Proof. induction s; simpl; [done|]. by rewrite IHs, orb_assoc. Qed.

Lemma contains_char_app c s t :
  contains_char c (s +:+ t) = contains_char c s || contains_char c t.
Proof. apply existsb_char_app. Qed.

Lemma forallb_char_cons f c s : forallb_char f (String c s) = f c && forallb_char f s.
Proof. unfold forallb_char. simpl. by rewrite negb_orb, negb_involutive. Qed.

Lemma forallb_char_app f s t :
  forallb_char f (s +:+ t) = forallb_char f s && forallb_char f t.
Proof. unfold forallb_char. by rewrite existsb_char_app, negb_orb. Qed.

Lemma drop_str_app s t : drop_str (String.length s) (s +:+ t) = t.
Proof. induction s; simpl; auto. Qed.

Lemma drop_str_add m n s : drop_str (m + n) s = drop_str n (drop_str m s).
Proof. revert s. induction m as [|m IH]; intros [|c s]; simpl; auto. by destruct n. Qed.

Lemma take_str_app s t : take_str (String.length s) (s +:+ t) = s.
Proof. induction s; simpl; congruence. Qed.

Lemma starts_with_app p s : starts_with p (p +:+ s) = true.
Proof. induction p; simpl; [done|]. by rewrite bool_decide_true. Qed.

Lemma starts_with_spec p s : starts_with p s = true <-> exists t, s = p +:+ t.
Proof.
  split; [|by intros [t ->]; apply starts_with_app].
  revert s. induction p as [|a p IH]; intros [|b s]; simpl; try (by eauto).
  intros H. bool_to_prop. subst. destruct (IH s) as [t ->]; [done|by exists t].
Qed.

(** Two texts that begin with the same one, or with prefixes of equal length, share
    both parts. *)
Lemma app_str_inj_l p s t : p +:+ s = p +:+ t -> s = t.
Proof. induction p; cbn [String.append]; [done|]. intros [= ?]. auto. Qed.

Lemma app_str_inj_length s t u v :
  String.length s = String.length t -> s +:+ u = t +:+ v -> s = t /\ u = v.
Proof.
  revert t. induction s as [|c s IH]; intros [|d t]; simpl; try done.
  intros [= Hl] [= -> H]. destruct (IH t) as [-> ->]; auto.
Qed.
End string_lemmas.

#[export] Hint Rewrite @bind_Ok @bind_Err @throw_false @throw_true : orm.
#[export] Hint Rewrite app_str_nil_r app_str_assoc length_app_str size_app : orm.

(** ** Decimal printing: [std::to_string] *)
Definition to_string (n : N) : string := NilEmpty.string_of_uint (N.to_uint n).
Definition to_string_Z (z : Z) : string := NilEmpty.string_of_int (Z.to_int z).

Section to_string_lemmas.
Lemma to_string_inj m n : to_string m = to_string n -> m = n.
Proof.
  unfold to_string. intros H%(f_equal NilEmpty.uint_of_string).
  rewrite !NilEmpty.usu in H. injection H as H.
  apply (f_equal N.of_uint) in H. by rewrite !DecimalN.Unsigned.of_to in H.
Qed.

Lemma string_of_uint_digits d : forallb_char is_digit (NilEmpty.string_of_uint d) = true.
Proof. induction d; simpl; rewrite ?forallb_char_cons, ?IHd; reflexivity. Qed.

Lemma to_string_digits n : forallb_char is_digit (to_string n) = true.
Proof. apply string_of_uint_digits. Qed.
End to_string_lemmas.

(** A text written as its length, a colon and its bytes can be read back, so a
    sequence of such tokens determines the texts: the framing of the hashed
    data in [checksum] and [constraintName]. *)
Definition sized (s : string) : string := to_string (size s) +:+ ":" +:+ s.

Lemma digits_colon_inj d e s t :
  forallb_char is_digit d = true -> forallb_char is_digit e = true ->
  d +:+ ":" +:+ s = e +:+ ":" +:+ t -> d = e /\ s = t.
Proof.
  revert e. induction d as [|c d IH]; intros [|c' e] Hd He; cbn [String.append]; intros H;
    rewrite ?forallb_char_cons in *.
  - by injection H as ->.
  - injection H as <- _. by vm_compute in He.
  - injection H as -> _. by vm_compute in Hd.
  - bool_to_prop. injection H as -> H. destruct (IH e) as [-> ->]; auto.
Qed.

Lemma sized_inj s t u v : sized s +:+ u = sized t +:+ v -> s = t /\ u = v.
Proof.
  unfold sized. rewrite !app_str_assoc. intros H.
  apply digits_colon_inj in H as [Hsize H]; [|apply to_string_digits..].
  apply to_string_inj in Hsize. apply app_str_inj_length in H; [done|].
  unfold size in Hsize. lia.
Qed.

(** ** Lists of named things *)

(** [std::ranges::find(values, name, &T::name)]. *)
Definition find_by {A K} `{EqDecision K} (proj : A -> K) (k : K) (l : list A) : option A :=
  List.find (fun x => bool_decide (proj x = k)) l.

(** [std::ranges::sort(values, {}, &T::name)]: the code sorts by a unique name. *)
Definition name_le {A} (proj : A -> string) (x y : A) : Prop := String.le (proj x) (proj y).

#[export] Instance name_le_dec {A} (proj : A -> string) x y : Decision (name_le proj x y).
Proof. unfold name_le. apply _. Defined.

#[export] Instance name_le_total {A} (proj : A -> string) : Total (name_le proj).
Proof. intros x y. apply (String.le_total (proj x) (proj y)). Qed.

#[export] Instance name_le_trans {A} (proj : A -> string) : Transitive (name_le proj).
Proof. intros x y z. unfold name_le. apply transitivity. Qed.

Definition sort_by {A} (proj : A -> string) (l : list A) : list A := merge_sort (name_le proj) l.

Section named_lemmas.
Context {A : Type}.

Lemma find_by_Some {K} `{EqDecision K} (proj : A -> K) k l x :
  find_by proj k l = Some x -> x ∈ l /\ proj x = k.
Proof.
  intros [Hx Hp]%List.find_some. rewrite list_elem_of_In. by apply bool_decide_eq_true in Hp.
Qed.

Lemma find_by_None {K} `{EqDecision K} (proj : A -> K) k l :
  find_by proj k l = None <-> forall x, x ∈ l -> proj x <> k.
Proof.
  split.
  - intros H x Hx Heq. apply list_elem_of_In in Hx.
    eapply List.find_none in H; [|exact Hx]. by rewrite bool_decide_false_ne in H.
  - intros H. unfold find_by. induction l as [|x l IH]; simpl; [done|].
    rewrite bool_decide_false by (apply H; left). apply IH. intros y Hy. apply H. by right.
Qed.

Lemma find_by_is_Some {K} `{EqDecision K} (proj : A -> K) k l :
  is_Some (find_by proj k l) <-> k ∈ proj <$> l.
Proof.
  rewrite list_elem_of_fmap. split.
  - intros [x Hx]. apply find_by_Some in Hx as [? ?]. eauto.
  - intros (x & -> & Hx). apply not_eq_None_Some. intros Hn.
    by eapply find_by_None in Hn; [|exact Hx].
Qed.

(** With unique names a lookup by name finds the element itself. *)
Lemma find_by_NoDup {K} `{EqDecision K} (proj : A -> K) l x :
  NoDup (proj <$> l) -> x ∈ l -> find_by proj (proj x) l = Some x.
Proof.
  unfold find_by. induction l as [|y l IH]; simpl; intros Hnd Hx; [by apply not_elem_of_nil in Hx|].
  apply NoDup_cons in Hnd as [Hy Hnd].
  apply elem_of_cons in Hx as [->|Hx]; [by rewrite bool_decide_true|].
  rewrite bool_decide_false; [auto|]. intros Heq. apply Hy. rewrite Heq.
  by apply list_elem_of_fmap_2.
Qed.

Lemma sort_by_Permutation (proj : A -> string) l : sort_by proj l ≡ₚ l.
Proof. apply merge_sort_Permutation. Qed.

Lemma sort_by_Sorted (proj : A -> string) l : StronglySorted (name_le proj) (sort_by proj l).
Proof. apply StronglySorted_merge_sort; apply _. Qed.

(** Two permutations sorted by a key that is unique are the same list. *)
Lemma sorted_unique (proj : A -> string) l k :
  NoDup (proj <$> l) -> l ≡ₚ k ->
  StronglySorted (name_le proj) l -> StronglySorted (name_le proj) k -> l = k.
Proof.
  revert k. induction l as [|x l IH]; intros k Hnd Hp Hl Hk.
  - by apply Permutation_nil_l in Hp.
  - destruct k as [|y k]; [by apply Permutation_nil_r in Hp|].
    apply StronglySorted_inv in Hl as [Hl Hx], Hk as [Hk Hy].
    assert (x = y) as ->.
    { assert (Hxk : x ∈ y :: k) by (rewrite <- Hp; left).
      assert (Hyl : y ∈ x :: l) by (rewrite Hp; left).
      apply elem_of_cons in Hxk as [->|Hxk]; [done|].
      apply elem_of_cons in Hyl as [->|Hyl]; [done|].
      rewrite Forall_forall in Hx, Hy. specialize (Hx y Hyl). specialize (Hy x Hxk).
      assert (proj x = proj y) as Heq by (by apply (anti_symm String.le)).
      apply NoDup_cons in Hnd as [Hn _]. destruct Hn. rewrite Heq.
      by apply list_elem_of_fmap_2. }
    f_equal. apply IH; [|by apply Permutation_cons_inv in Hp|done|done].
    by apply NoDup_cons in Hnd as [_ ?].
Qed.

Lemma sort_by_id (proj : A -> string) l :
  NoDup (proj <$> l) -> StronglySorted (name_le proj) l -> sort_by proj l = l.
Proof.
  intros Hnd Hl. symmetry. apply (sorted_unique proj); [done| |done|apply sort_by_Sorted].
  symmetry. apply sort_by_Permutation.
Qed.
End named_lemmas.

#[export] Hint Resolve sort_by_Permutation sort_by_Sorted : orm.
