(* ===== verification/Foundation.v ===== *)
(** Foundation: the enumerations of modules/orm/foundation/types.cppm with the
    total order their underlying integers give them, the exceptions the modelled
    code throws, and the ordered maps keyed by a backend that the schema and
    migration records hold. *)
From S2P Require Import Prelude.

(** ** Backends *)
Inductive BackendType :=
| Sqlite | Postgres | Mysql | Oracle | Firebird | Db2 | Odbc | Empty | Mariadb.

#[export] Instance BackendType_eq_dec : EqDecision BackendType.
Proof. solve_decision. Defined.

(** The enumerators' values, in the order declared. *)
Definition backend_number (b : BackendType) : Z :=
  match b with
  | Sqlite => 0 | Postgres => 1 | Mysql => 2 | Oracle => 3 | Firebird => 4
  | Db2 => 5 | Odbc => 6 | Empty => 7 | Mariadb => 8
  end.

Definition backend_of_number (n : Z) : option BackendType :=
  List.find (fun b => (backend_number b =? n)%Z)
    [Sqlite; Postgres; Mysql; Oracle; Firebird; Db2; Odbc; Empty; Mariadb].

Lemma backend_of_number_number b : backend_of_number (backend_number b) = Some b.
Proof. by destruct b. Qed.

Lemma backend_number_inj b c : backend_number b = backend_number c -> b = c.
Proof. intros H%(f_equal backend_of_number). rewrite !backend_of_number_number in H. congruence. Qed.

(** ** Logical column types *)
Module ColumnType.
Inductive t :=
| Bool | Char | UnsignedChar | Short | UnsignedShort | Int | UnsignedInt
| LongLong | UnsignedLongLong | Float | Double | String | Uuid | Date
| TimeOfDay | LocalDateTime | UtcTimestamp.

#[global] Instance eq_dec : EqDecision t.
Proof. solve_decision. Defined.

Definition all : list t :=
  [Bool; Char; UnsignedChar; Short; UnsignedShort; Int; UnsignedInt; LongLong;
   UnsignedLongLong; Float; Double; String; Uuid; Date; TimeOfDay; LocalDateTime;
   UtcTimestamp].

(** The enumerator's value, [static_cast<int>(type)]. *)
Definition number (c : t) : Z :=
  match c with
  | Bool => 0 | Char => 1 | UnsignedChar => 2 | Short => 3 | UnsignedShort => 4
  | Int => 5 | UnsignedInt => 6 | LongLong => 7 | UnsignedLongLong => 8 | Float => 9
  | Double => 10 | String => 11 | Uuid => 12 | Date => 13 | TimeOfDay => 14
  | LocalDateTime => 15 | UtcTimestamp => 16
  end.

Definition of_number (n : Z) : option t := List.find (fun c => (number c =? n)%Z) all.

Lemma of_number_number c : of_number (number c) = Some c.
Proof. by destruct c. Qed.

(** [orm::model::toString]. *)
Definition toString (c : t) : string :=
  match c with
  | Bool => "bool" | Char => "char" | UnsignedChar => "unsigned char"
  | Short => "short" | UnsignedShort => "unsigned short" | Int => "int"
  | UnsignedInt => "unsigned int" | LongLong => "long long"
  | UnsignedLongLong => "unsigned long long" | Float => "float" | Double => "double"
  | String => "std::string" | Uuid => "uuid" | Date => "date"
  | TimeOfDay => "time_of_day" | LocalDateTime => "local_date_time"
  | UtcTimestamp => "utc_timestamp"
  end.

Lemma elem_of_all c : c ∈ all.
Proof. destruct c; set_solver. Qed.
End ColumnType.
Abbreviation ColumnType := ColumnType.t.

(** ** Exceptions *)
Inductive ErrorCode :=
| InvalidCatalog | InvalidSql | NotConnected | ActiveTransaction | UnsupportedBackend
| InvalidHistory | ChecksumMismatch | InvalidTarget | MissingDown | BaselineBoundary
| LockUnavailable | HistoryChanged | Execution | CommitUncertain | IncompleteMigrationCode
| InvalidResolution | InvalidSchema | SessionRestoration.

#[export] Instance ErrorCode_eq_dec : EqDecision ErrorCode.
Proof. solve_decision. Defined.

Record GenerationDiagnostic := MkDiagnostic {
  diag_code : string;
  diag_message : string;
  diag_path : string;
  diag_backend : BackendType;
  diag_error : bool
}.

#[export] Instance GenerationDiagnostic_eq_dec : EqDecision GenerationDiagnostic.
Proof. solve_decision. Defined.

Inductive DatabaseErrorCode :=
| NotConnectedError | AlreadyConnected | UnsupportedBackendError | UnsupportedFeature | Connection | StatementError
| Constraint | TransactionError | Conversion | AffectedRowsUnavailable.

#[export] Instance DatabaseErrorCode_eq_dec : EqDecision DatabaseErrorCode.
Proof. solve_decision. Defined.

(** [std::invalid_argument], [GenerationError], [MigrationError], [DatabaseError],
    [ConversionError], the [std::out_of_range] of [map::at], [nlohmann::json::exception],
    [std::logic_error], [std::runtime_error] and [std::bad_optional_access].
    [Undefined] is no exception: the code does what the language leaves
    undefined, such as the dereference of a null pointer. *)
Inductive exn :=
| InvalidArgument (message : string)
| GenerationError (message : string) (diagnostics : list GenerationDiagnostic)
| MigrationError (code : ErrorCode) (message : string) (version : Z)
                 (backend : BackendType) (nativeCode : option string)
| DatabaseError (code : DatabaseErrorCode) (backend : BackendType) (operation message : string)
                (nativeCode : option string)
| ConversionError (message : string)
| OutOfRange
| JsonException
| LogicError (message : string)
| RuntimeError (message : string)
| BadOptionalAccess
| Undefined.

#[export] Instance exn_eq_dec : EqDecision exn.
Proof. solve_decision. Defined.

Abbreviation res := (result exn).

(** ** Ordered maps keyed by a backend

    [std::map<db::BackendType, V>] as the association list its iteration
    visits: keys strictly increasing in the enumerators' order. *)
Module BackendMap.
Abbreviation t V := (list (BackendType * V)).

Section ops.
Context {V : Type}.

Definition find (b : BackendType) (m : t V) : option V :=
  snd <$> List.find (fun kv => bool_decide (fst kv = b)) m.

Definition contains (b : BackendType) (m : t V) : bool := bool_decide (is_Some (find b m)).

(** [map::at]. *)
Definition at_ (m : t V) (b : BackendType) : res V := or_throw (find b m) OutOfRange.

(** [map::emplace]: no effect on a key that is present. *)
Fixpoint emplace (b : BackendType) (v : V) (m : t V) : t V :=
  match m with
  | [] => [(b, v)]
  | (c, w) :: m' =>
      if (backend_number b <? backend_number c)%Z then (b, v) :: m
      else if bool_decide (b = c) then m
      else (c, w) :: emplace b v m'
  end.

Definition sorted (m : t V) : Prop :=
  StronglySorted (fun x y : BackendType * V => (backend_number x.1 < backend_number y.1)%Z) m.

Lemma find_Some_elem b v m : find b m = Some v -> (b, v) ∈ m.
Proof.
  unfold find. intros ([c w] & H & ->)%fmap_Some.
  apply List.find_some in H as [Hin Hb]. apply list_elem_of_In.
  apply bool_decide_eq_true in Hb. simpl in *. by subst.
Qed.

Lemma elem_find_sorted b v m : sorted m -> (b, v) ∈ m -> find b m = Some v.
Proof.
  induction 1 as [|[c w] m Hm IH Hall]; intros Hin; [by apply not_elem_of_nil in Hin|].
  unfold find. simpl. apply elem_of_cons in Hin as [[= <- <-]|Hin].
  - by rewrite bool_decide_true.
  - rewrite Forall_forall in Hall. specialize (Hall _ Hin). simpl in Hall.
    rewrite bool_decide_false by (intros ->; lia). apply IH, Hin.
Qed.

Lemma find_None_elem b v m : find b m = None -> (b, v) ∉ m.
Proof.
  unfold find. intros H%fmap_None Hin. apply list_elem_of_In in Hin.
  eapply List.find_none in H; [|exact Hin]. simpl in H. by apply bool_decide_eq_false in H.
Qed.

Lemma contains_true b m : contains b m = true <-> is_Some (find b m).
Proof. unfold contains. by rewrite bool_decide_eq_true. Qed.

Lemma emplace_Permutation b v m : find b m = None -> emplace b v m ≡ₚ (b, v) :: m.
Proof.
  unfold find. induction m as [|[c w] m IH]; simpl; [done|].
  case_bool_decide as Hc; [done|]. intros Hn.
  destruct (_ <? _)%Z; [done|]. rewrite bool_decide_false by congruence.
  rewrite IH by done. constructor.
Qed.

Lemma emplace_sorted b v m : sorted m -> sorted (emplace b v m).
Proof.
  unfold sorted. induction 1 as [|[c w] m Hm IH Hall]; simpl; [by repeat constructor|].
  destruct (_ <? _)%Z eqn:Hlt.
  - apply Z.ltb_lt in Hlt. constructor; [by constructor|].
    constructor; [done|]. eapply Forall_impl; [exact Hall|]. intros x. simpl. lia.
  - case_bool_decide as Hbc; [by constructor|]. constructor; [done|].
    apply Z.ltb_ge in Hlt.
    assert (backend_number c < backend_number b)%Z as Hcb.
    { destruct (Z.eq_dec (backend_number c) (backend_number b)) as [H|]; [|lia].
      apply backend_number_inj in H. congruence. }
    clear IH Hm Hlt Hbc. induction Hall as [|[d u] m Hd Hm IHm]; simpl; [by constructor|].
    destruct (_ <? _)%Z; [by rewrite !Forall_cons|].
    case_bool_decide; by rewrite Forall_cons.
Qed.

Lemma at_Ok m b v : at_ m b = Ok v <-> find b m = Some v.
Proof. apply or_throw_Ok_iff. Qed.
End ops.
End BackendMap.
