(* ===== verification/Chrono.v ===== *)
(** Chrono: what the code uses of [std::chrono] -- the proleptic Gregorian
    calendar, day counts from 1970-01-01 and durations in microseconds. *)
From S2P Require Import Prelude.
Local Open Scope Z_scope.

#[local] Ltac Zify.zify_post_hook ::= Z.to_euclidean_division_equations.

Record year_month_day := YMD { year : Z; month : Z; day : Z }.

#[export] Instance year_month_day_eq_dec : EqDecision year_month_day.
Proof. solve_decision. Defined.

Definition is_leap (y : Z) : bool :=
  (y mod 4 =? 0) && (negb (y mod 100 =? 0) || (y mod 400 =? 0)).

(** Days of a year before the first day of a month; [m = 13] is the length of
    the year. *)
Definition cumulative_days (leap : bool) (m : Z) : Z :=
  match m with
  | 1 => 0 | 2 => 31 | 3 => 59 | 4 => 90 | 5 => 120 | 6 => 151 | 7 => 181
  | 8 => 212 | 9 => 243 | 10 => 273 | 11 => 304 | 12 => 334 | _ => 365
  end + (if (2 <? m) && leap then 1 else 0).

Definition days_before_month (y m : Z) : Z := cumulative_days (is_leap y) m.

Definition last_day (y m : Z) : Z := days_before_month y (m + 1) - days_before_month y m.

(** [year_month_day::ok]; every [std::chrono::year] of the code is ok. *)
Definition ymd_ok (d : year_month_day) : bool :=
  (1 <=? month d) && (month d <=? 12) && (1 <=? day d) && (day d <=? last_day (year d) (month d)).

(** Days from 0001-01-01 to the first day of year [y + 1]. *)
Definition days_of_years (y : Z) : Z := 365 * y + y / 4 - y / 100 + y / 400.

(** Days from 0001-01-01 to 1970-01-01. *)
Definition epoch_offset : Z := 719162.

(** [sys_days{date}] and [local_days{date}] of an ok date. *)
Definition days_from_civil (d : year_month_day) : Z :=
  days_of_years (year d - 1) + days_before_month (year d) (month d) + day d - 1 - epoch_offset.

(** The number of whole years in [n] days counted from 0001-01-01. *)
Definition years_of_days (n : Z) : Z :=
  let doe := n mod 146097 in
  400 * (n / 146097) + (doe - doe / 1460 + doe / 36524 - doe / 146096) / 365.

Definition month_of_day (y doy : Z) : Z :=
  1 + fold_right (fun m k => k + Z.b2z (days_before_month y m <=? doy)) 0
        [2; 3; 4; 5; 6; 7; 8; 9; 10; 11; 12].

(** [year_month_day{days}]. *)
Definition civil_from_days (z : Z) : year_month_day :=
  let n := z + epoch_offset in
  let y0 := years_of_days n in
  let doy := n - days_of_years y0 in
  let m := month_of_day (y0 + 1) doy in
  YMD (y0 + 1) m (doy - days_before_month (y0 + 1) m + 1).

(** Durations. *)
Definition us_per_second : Z := 1000000.
Definition us_per_minute : Z := 60 * us_per_second.
Definition us_per_hour : Z := 60 * us_per_minute.
Definition us_per_day : Z := 24 * us_per_hour.

(** [floor<days>(value)] of a time point in microseconds. *)
Definition floor_days (t : Z) : Z := t / us_per_day.

(** ** The calendar *)
Lemma days_of_years_leap y :
  days_of_years (y + 1) = days_of_years y + 365 + (if is_leap (y + 1) then 1 else 0).
Proof.
  unfold days_of_years, is_leap.
  destruct (Z.eqb_spec ((y + 1) mod 4) 0), (Z.eqb_spec ((y + 1) mod 100) 0),
    (Z.eqb_spec ((y + 1) mod 400) 0); cbn [andb orb negb]; lia.
Qed.

Lemma years_of_era_lower doe :
  0 <= doe <= 146096 ->
  days_of_years ((doe - doe / 1460 + doe / 36524 - doe / 146096) / 365) <= doe.
Proof. unfold days_of_years. lia. Qed.

Lemma years_of_era_upper doe :
  0 <= doe <= 146096 ->
  doe < days_of_years ((doe - doe / 1460 + doe / 36524 - doe / 146096) / 365 + 1).
Proof. unfold days_of_years. lia. Qed.

Lemma days_of_years_era e y : days_of_years (400 * e + y) = 146097 * e + days_of_years y.
Proof. unfold days_of_years. lia. Qed.

Lemma years_of_days_spec n :
  days_of_years (years_of_days n) <= n < days_of_years (years_of_days n + 1).
Proof.
  unfold years_of_days. set (doe := n mod 146097).
  assert (Hdoe : 0 <= doe <= 146096) by (subst doe; pose proof (Z.mod_pos_bound n 146097); lia).
  rewrite <- Z.add_assoc, !days_of_years_era.
  assert (Hn : n = 146097 * (n / 146097) + doe) by (subst doe; apply Z.div_mod; lia).
  pose proof (years_of_era_lower doe Hdoe). pose proof (years_of_era_upper doe Hdoe). lia.
Qed.

Lemma days_of_years_mono x y : x <= y -> days_of_years x <= days_of_years y.
Proof. unfold days_of_years. lia. Qed.

#[local] Ltac Zify.zify_post_hook ::= idtac.

Lemma years_of_days_unique n y :
  days_of_years y <= n < days_of_years (y + 1) -> years_of_days n = y.
Proof.
  intros Hy. pose proof (years_of_days_spec n) as Hn.
  destruct (Z.lt_trichotomy (years_of_days n) y) as [Hlt|[->|Hlt]]; [|done|].
  - pose proof (days_of_years_mono (years_of_days n + 1) y). lia.
  - pose proof (days_of_years_mono (y + 1) (years_of_days n)). lia.
Qed.

Lemma month_cases m :
  1 <= m <= 12 -> m = 1 \/ m = 2 \/ m = 3 \/ m = 4 \/ m = 5 \/ m = 6 \/ m = 7 \/ m = 8 \/
                  m = 9 \/ m = 10 \/ m = 11 \/ m = 12.
Proof. lia. Qed.

Ltac month_case m :=
  destruct (month_cases m) as [->|[->|[->|[->|[->|[->|[->|[->|[->|[->|[->| ->]]]]]]]]]]]; [lia|..].

(** Evaluates the month table on concrete arguments. *)
Ltac eval_months :=
  repeat match goal with
  | H : context [cumulative_days ?b ?m] |- _ =>
      let v := eval vm_compute in (cumulative_days b m) in
      lazymatch v with Z0 => idtac | Zpos _ => idtac end;
      change (cumulative_days b m) with v in H
  | |- context [cumulative_days ?b ?m] =>
      let v := eval vm_compute in (cumulative_days b m) in
      lazymatch v with Z0 => idtac | Zpos _ => idtac end;
      change (cumulative_days b m) with v
  end.

Ltac month_tests doy :=
  repeat match goal with
  | |- context [?a <=? doy] => destruct (Z.leb_spec a doy); try (exfalso; lia)
  end.

Lemma month_of_day_unique y m doy :
  1 <= m <= 12 -> days_before_month y m <= doy < days_before_month y (m + 1) ->
  month_of_day y doy = m.
Proof.
  intros Hm. unfold month_of_day, days_before_month. cbn [fold_right].
  month_case m; destruct (is_leap y); eval_months; intros Hd; month_tests doy; reflexivity.
Qed.

Lemma month_of_day_spec y doy :
  0 <= doy < days_before_month y 13 ->
  1 <= month_of_day y doy <= 12 /\
  days_before_month y (month_of_day y doy) <= doy < days_before_month y (month_of_day y doy + 1).
Proof.
  intros Hd. remember (month_of_day y doy) as m eqn:Hm.
  unfold month_of_day, days_before_month in *. cbn [fold_right] in Hm. revert Hm.
  destruct (is_leap y); eval_months; month_tests doy;
    cbn [Z.b2z]; intros ->; eval_months; lia.
Qed.

Lemma days_before_month_year y : days_before_month y 13 = 365 + (if is_leap y then 1 else 0).
Proof. unfold days_before_month. by destruct (is_leap y). Qed.

Lemma day_of_year_bounds y m d :
  1 <= m <= 12 -> 1 <= d <= last_day y m ->
  0 <= days_before_month y m + d - 1 < days_before_month y 13 /\
  days_before_month y m <= days_before_month y m + d - 1 < days_before_month y (m + 1).
Proof.
  intros Hm. unfold last_day.
  unfold days_before_month. month_case m; destruct (is_leap y); eval_months; lia.
Qed.

(** Converting a date to days and back is the identity on ok dates. *)
Lemma civil_from_days_from_civil d :
  ymd_ok d = true -> civil_from_days (days_from_civil d) = d.
Proof.
  destruct d as [y m d]. unfold ymd_ok; cbn [year month day]. intros H. bool_to_prop.
  destruct (day_of_year_bounds y m d) as [Hy Hmd]; [lia|lia|].
  unfold civil_from_days, days_from_civil; cbn [year month day].
  set (n := _ + epoch_offset).
  replace n with (days_of_years (y - 1) + (days_before_month y m + d - 1)) by (subst n; lia).
  clear n.
  assert (Hyears : years_of_days (days_of_years (y - 1) + (days_before_month y m + d - 1)) = y - 1).
  { apply years_of_days_unique. rewrite days_of_years_leap, <- Z.add_assoc, <- days_before_month_year.
    replace (y - 1 + 1) with y by lia. lia. }
  rewrite Hyears. replace (y - 1 + 1) with y by lia.
  replace (days_of_years (y - 1) + (days_before_month y m + d - 1) - days_of_years (y - 1))
    with (days_before_month y m + d - 1) by lia.
  rewrite (month_of_day_unique y m) by lia. f_equal. lia.
Qed.

(** Every day count is the day count of an ok date. *)
Lemma civil_from_days_spec z :
  ymd_ok (civil_from_days z) = true /\ days_from_civil (civil_from_days z) = z.
Proof.
  unfold civil_from_days. set (n := z + epoch_offset).
  pose proof (years_of_days_spec n) as Hn. set (y := years_of_days n) in *.
  rewrite days_of_years_leap, <- Z.add_assoc, <- days_before_month_year in Hn.
  destruct (month_of_day_spec (y + 1) (n - days_of_years y)) as [Hm Hd]; [lia|].
  set (m := month_of_day _ _) in *. split.
  - unfold ymd_ok, last_day; cbn [year month day].
    rewrite !andb_true_iff, !Z.leb_le. lia.
  - unfold days_from_civil; cbn [year month day]. replace (y + 1 - 1) with y by lia. lia.
Qed.

(** The years of a day range. *)
Lemma days_from_civil_year_bounds d lo hi :
  ymd_ok d = true ->
  days_from_civil (YMD lo 1 1) <= days_from_civil d < days_from_civil (YMD (hi + 1) 1 1) <->
  lo <= year d <= hi.
Proof.
  destruct d as [y m d]. unfold ymd_ok; cbn [year month day]. intros H. bool_to_prop.
  destruct (day_of_year_bounds y m d) as [Hy _]; [lia|lia|].
  rewrite days_before_month_year in Hy.
  pose proof (days_of_years_leap (y - 1)) as Hleap. replace (y - 1 + 1) with y in Hleap by lia.
  unfold days_from_civil; cbn [year month day].
  change (days_before_month lo 1) with 0. change (days_before_month (hi + 1) 1) with 0.
  split.
  - intros [Hlo Hhi]. split.
    + destruct (Z.lt_ge_cases y lo); [|lia].
      pose proof (days_of_years_mono y (lo - 1)). lia.
    + destruct (Z.lt_ge_cases hi y); [|lia].
      pose proof (days_of_years_mono (hi + 1 - 1) (y - 1)). lia.
  - intros Hr. pose proof (days_of_years_mono (lo - 1) (y - 1)).
    pose proof (days_of_years_mono y (hi + 1 - 1)). lia.
Qed.
