(* ===== verification/Values.v ===== *)
(** Values: the text codec and the backend domains of dates, times and UUIDs
    (src/foundation/Uuid.cpp, src/foundation/ValueCodec.cpp, with the value
    classes of modules/orm/foundation/values.cppm). *)
From S2P Require Import Prelude Foundation Chrono.
Local Open Scope Z_scope.

(** ** Text access *)

(** [text[n]]; the code reads only inside the text. *)
Definition at_char (s : string) (n : nat) : ascii := default NUL (String.get n s).

(** [text.substr(pos, n)]. *)
Definition substr (pos n : nat) (s : string) : string := take_str n (drop_str pos s).

Fixpoint find_index (f : ascii -> bool) (s : string) : option nat :=
  match s with
  | "" => None
  | String c s => if f c then Some O else S <$> find_index f s
  end.

(** [text.find_first_of(set, pos)]. *)
Definition find_first_of (f : ascii -> bool) (pos : nat) (s : string) : option nat :=
  (fun i => (pos + i)%nat) <$> find_index f (drop_str pos s).

Lemma at_char_app s t n k : String.length s = n -> at_char (s +:+ t) (n + k) = at_char t k.
Proof. intros <-. unfold at_char. by rewrite Nat.add_comm, <- String.append_correct2. Qed.

Lemma substr_prefix s t n : String.length s = n -> substr 0 n (s +:+ t) = s.
Proof. intros <-. apply take_str_app. Qed.

Lemma drop_prefix s t n : String.length s = n -> drop_str n (s +:+ t) = t.
Proof. intros <-. apply drop_str_app. Qed.

(** The decimal digits that [std::format("{:0w}", n)] prints for [0 <= n < 10^w]. *)
Definition digit_char (n : Z) : ascii := char_of (48 + n).
Fixpoint fixed (w : nat) (n : Z) : string :=
  match w with
  | O => ""
  | S w => fixed w (n / 10) +:+ String (digit_char (n mod 10)) ""
  end.
Definition zero_padded (w : nat) (n : Z) : string :=
  if (0 <=? n) && (n <? 10 ^ Z.of_nat w) then fixed w n else to_string_Z n.

(** ** Uuid *)
Module Uuid.
Record t := Mk { bytes : list ascii }.

#[global] Instance eq_dec : EqDecision t.
Proof. solve_decision. Defined.

(** [std::array<std::byte, 16>]. *)
Definition wf (u : t) : Prop := length (bytes u) = 16%nat.

Definition invalid : exn := InvalidArgument "UUID must use the 8-4-4-4-12 hexadecimal format".

Definition hexDigit (character : ascii) : res Z :=
  let c := byte_of character in
  if (48 <=? c) && (c <=? 57) then Ok (c - 48)
  else if (97 <=? c) && (c <=? 102) then Ok (c - 97 + 10)
  else if (65 <=? c) && (c <=? 70) then Ok (c - 65 + 10)
  else Err invalid.

Definition hyphen_position (p : nat) : bool := (p =? 8)%nat || (p =? 13)%nat || (p =? 18)%nat || (p =? 23)%nat.

(** The loop of [parse] over the bytes still to be read. *)
Fixpoint parse_bytes (remaining position : nat) (text : string) : res (list ascii) :=
  match remaining with
  | O => Ok []
  | S remaining =>
      throw_if (hyphen_position position && negb (bool_decide (at_char text position = "-"%char))) invalid ;;
      let position := if hyphen_position position then S position else position in
      high ← hexDigit (at_char text position);
      low ← hexDigit (at_char text (S position));
      rest ← parse_bytes remaining (S (S position)) text;
      Ok (char_of (Z.lor (Z.shiftl high 4) low) :: rest)
  end.

Definition parse (text : string) : res t :=
  throw_if (negb (String.length text =? 36)%nat) invalid ;;
  Mk <$> parse_bytes 16 0 text.

Definition digits : string := "0123456789abcdef".

(** The loop of [toString], which overwrites the characters of a text. *)
Fixpoint print_bytes (value : list ascii) (position : nat) (text : list ascii) : list ascii :=
  match value with
  | [] => text
  | byte :: value =>
      let position := if hyphen_position position then S position else position in
      let number := byte_of byte in
      let text := <[position := at_char digits (Z.to_nat (Z.shiftr number 4))]> text in
      let text := <[S position := at_char digits (Z.to_nat (Z.land number 15))]> text in
      print_bytes value (S (S position)) text
  end.

Definition toString (u : t) : string :=
  of_chars (print_bytes (bytes u) 0 (replicate 36 "-"%char)).

(** The text in lower case, the form [toString] prints. *)
Definition lower (c : ascii) : ascii := if is_upper c then char_of (byte_of c + 32) else c.

(** *** Hexadecimal digits *)
Definition hex_of (b : ascii) : ascii * ascii :=
  (at_char digits (Z.to_nat (Z.shiftr (byte_of b) 4)), at_char digits (Z.to_nat (Z.land (byte_of b) 15))).

Lemma hexDigit_hex_of b :
  hexDigit (hex_of b).1 = Ok (Z.shiftr (byte_of b) 4) /\ hexDigit (hex_of b).2 = Ok (Z.land (byte_of b) 15).
Proof. destruct b as [[] [] [] [] [] [] [] []]; by vm_compute. Qed.

Lemma join_nibbles b :
  char_of (Z.lor (Z.shiftl (Z.shiftr (byte_of b) 4) 4) (Z.land (byte_of b) 15)) = b.
Proof. destruct b as [[] [] [] [] [] [] [] []]; by vm_compute. Qed.

Lemma hexDigit_range c v : hexDigit c = Ok v -> 0 <= v < 16.
Proof.
  unfold hexDigit. intros H. repeat case_match; bool_to_prop; try done; injection H as <-; lia.
Qed.

Lemma hexDigit_lower c v : hexDigit c = Ok v -> at_char digits (Z.to_nat v) = lower c.
Proof.
  destruct c as [[] [] [] [] [] [] [] []]; vm_compute; intros H;
    first [discriminate H | injection H as <-; reflexivity].
Qed.

Definition nibbles : list Z := [0; 1; 2; 3; 4; 5; 6; 7; 8; 9; 10; 11; 12; 13; 14; 15].

Lemma elem_of_nibbles v : 0 <= v < 16 -> v ∈ nibbles.
Proof. intros H. unfold nibbles. rewrite !elem_of_cons. lia. Qed.

Lemma split_byte_check :
  forallb (fun h => forallb (fun l =>
    let b := char_of (Z.lor (Z.shiftl h 4) l) in
    (Z.shiftr (byte_of b) 4 =? h) && (Z.land (byte_of b) 15 =? l)) nibbles) nibbles = true.
Proof. by vm_compute. Qed.

Lemma split_byte h l :
  0 <= h < 16 -> 0 <= l < 16 ->
  Z.shiftr (byte_of (char_of (Z.lor (Z.shiftl h 4) l))) 4 = h /\
  Z.land (byte_of (char_of (Z.lor (Z.shiftl h 4) l))) 15 = l.
Proof.
  intros Hh%elem_of_nibbles Hl%elem_of_nibbles. pose proof split_byte_check as H.
  rewrite forallb_forall in H. apply list_elem_of_In in Hh, Hl.
  specialize (H _ Hh). cbv beta in H.
  rewrite forallb_forall in H. specialize (H _ Hl). cbv beta zeta in H.
  bool_to_prop. done.
Qed.

Lemma split_hexDigits c d h l :
  hexDigit c = Ok h -> hexDigit d = Ok l ->
  hex_of (char_of (Z.lor (Z.shiftl h 4) l)) = (lower c, lower d).
Proof.
  intros Hc Hd. unfold hex_of.
  destruct (split_byte h l) as [-> ->]; [by eapply hexDigit_range..|].
  by rewrite (hexDigit_lower _ _ Hc), (hexDigit_lower _ _ Hd).
Qed.

(** The elements of a list or text of known length, one by one. *)
Ltac explode l H :=
  repeat (destruct l as [|? l]; [discriminate H|]); destruct l; [|discriminate H]; clear H.

Ltac eval_text :=
  lazy -[hexDigit at_char Z.shiftr Z.shiftl Z.land Z.lor byte_of char_of digits Z.to_nat
         parse lower map_char].

(** Names the two digits of a byte and what they decode to. *)
Ltac name_byte b :=
  generalize (hexDigit_hex_of b) (join_nibbles b); unfold hex_of; cbn [fst snd];
  generalize (at_char digits (Z.to_nat (Z.shiftr (byte_of b) 4)))
    (at_char digits (Z.to_nat (Z.land (byte_of b) 15)));
  generalize (Z.shiftr (byte_of b) 4) (Z.land (byte_of b) 15);
  let Hb := fresh "Hb" in let Hh := fresh "Hh" in let Hl := fresh "Hl" in
  intros ? ? ? ? [Hh Hl] Hb.

(** Reading what [toString] prints gives the value back. *)
Lemma parse_toString_bytes u : wf u -> parse (toString u) = Ok u.
Proof.
  destruct u as [l]. unfold wf, toString. cbn [bytes]. intros H. explode l H. eval_text.
  repeat match goal with b : ascii |- _ =>
    match goal with |- context [byte_of b] => name_byte b end end.
  unfold parse.
  lazy -[hexDigit Z.shiftl Z.lor char_of].
  repeat match goal with H : hexDigit _ = Ok _ |- _ =>
    rewrite H; clear H; lazy -[hexDigit Z.shiftl Z.lor char_of] end.
  congruence.
Qed.

Definition first_digit (p : nat) : nat := if hyphen_position p then S p else p.

Lemma parse_bytes_S n p text l :
  parse_bytes (S n) p text = Ok l ->
  exists h lo rest,
    (if hyphen_position p then at_char text p = "-"%char else True) /\
    hexDigit (at_char text (first_digit p)) = Ok h /\
    hexDigit (at_char text (S (first_digit p))) = Ok lo /\
    parse_bytes n (S (S (first_digit p))) text = Ok rest /\
    l = char_of (Z.lor (Z.shiftl h 4) lo) :: rest.
Proof.
  cbn [parse_bytes]. fold (first_digit p). intros H. result_inv. subst l.
  do 3 eexists. split; [|by eauto]. destruct (hyphen_position p); [|done].
  cbn [andb] in *. by bool_to_prop.
Qed.

(** Reads one more byte of a text whose characters are known. *)
Ltac parse_step H :=
  apply parse_bytes_S in H as (? & ? & ? & ? & ? & ? & H & ->);
  lazy [hyphen_position first_digit Nat.eqb orb at_char String.get default] in *.

(** A text that is accepted is the value's own text, up to letter case. *)
Lemma toString_parse_text text u : parse text = Ok u -> wf u /\ toString u = map_char lower text.
Proof.
  unfold parse. intros H. result_inv. apply fmap_Ok_iff in H as (l & H & ->).
  bool_to_prop. apply Nat.eqb_eq in Hok.
  explode text Hok.
  do 16 parse_step H. injection H as <-.
  split; [done|]. unfold toString. cbn [bytes]. lazy [id] in *. subst.
  repeat match goal with
  | Hc : hexDigit ?c = Ok ?h, Hd : hexDigit ?d = Ok ?l |- context [char_of (Z.lor (Z.shiftl ?h 4) ?l)] =>
      generalize (split_hexDigits c d h l Hc Hd);
      generalize (char_of (Z.lor (Z.shiftl h 4) l)); clear Hc Hd;
      let Hb := fresh "Hb" in intros ? Hb; unfold hex_of in Hb; injection Hb as ? ?
  end.
  lazy -[at_char Z.shiftr Z.land byte_of digits Z.to_nat lower].
  repeat match goal with H : at_char _ _ = _ |- _ => rewrite H; clear H end. reflexivity.
Qed.

(** Parsing does not distinguish letter case. *)
Lemma hexDigit_lower_eq c : hexDigit (lower c) = hexDigit c.
Proof. destruct c as [[] [] [] [] [] [] [] []]; by vm_compute. Qed.

Lemma hyphen_lower c : bool_decide (lower c = "-"%char) = bool_decide (c = "-"%char).
Proof. destruct c as [[] [] [] [] [] [] [] []]; by vm_compute. Qed.

Lemma at_char_lower s n : at_char (map_char lower s) n = lower (at_char s n).
Proof.
  unfold at_char. revert n. induction s as [|c s IH]; intros n; [by destruct n|].
  destruct n as [|n]; [done|]. apply IH.
Qed.

Lemma parse_lower text : parse (map_char lower text) = parse text.
Proof.
  assert (Hlen : String.length (map_char lower text) = String.length text)
    by (induction text; simpl; congruence).
  assert (Hbytes : forall n p, parse_bytes n p (map_char lower text) = parse_bytes n p text).
  { induction n as [|n IH]; intros p; [done|].
    cbn [parse_bytes]. by rewrite !at_char_lower, hyphen_lower, !hexDigit_lower_eq, IH. }
  unfold parse. by rewrite Hlen, Hbytes.
Qed.

(** A text is accepted by [Uuid::parse] with a given value exactly when the
    value has sixteen bytes and [toString] prints the text in lower case: parsing
    and printing are inverse up to the letter case of the input, and nothing but
    the 8-4-4-4-12 form is accepted. *)
Theorem parse_iff_toString text u :
  parse text = Ok u <-> wf u /\ toString u = map_char lower text.
Proof.
  split; [apply toString_parse_text|].
  intros [Hwf Htext]. rewrite <- parse_lower, <- Htext. by apply parse_toString_bytes.
Qed.
End Uuid.
