(* ===== verification/Codec.v ===== *)
(** Codec: the text form and the backend domains of dates, times of day, civil
    date-times and UTC timestamps (src/foundation/ValueCodec.cpp, with
    [TimeOfDay] of modules/orm/foundation/values.cppm).

    A [LocalDateTime] and a [UtcTimestamp] are the microsecond counts that
    [std::chrono] holds; a [Date] is a [year_month_day]. *)
From S2P Require Import Prelude Foundation Chrono Values.
Local Open Scope Z_scope.

Abbreviation Date := year_month_day.

Record TimeOfDay := MkTimeOfDay { sinceMidnight : Z }.

#[export] Instance TimeOfDay_eq_dec : EqDecision TimeOfDay.
Proof. solve_decision. Defined.

Abbreviation LocalDateTime := Z.
Abbreviation UtcTimestamp := Z.

(** The constructor [TimeOfDay{value}]. *)
Definition make_TimeOfDay (value : Z) : res TimeOfDay :=
  throw_if ((value <? 0) || (us_per_day <=? value))
    (InvalidArgument "Time of day must be between midnight and the end of the day") ;;
  Ok (MkTimeOfDay value).

Definition invalidValue : exn := InvalidArgument "Invalid date, time or UUID value".

(** [unsigned int] arithmetic. *)
Definition u32 (z : Z) : Z := z mod 2 ^ 32.

Fixpoint number_from (result : Z) (digits : string) : res Z :=
  match digits with
  | "" => Ok result
  | String character digits =>
      throw_if (negb (is_digit character)) invalidValue ;;
      number_from (u32 (u32 (result * 10) + (byte_of character - 48))) digits
  end.
Definition number (digits : string) : res Z := number_from 0 digits.

Definition requireNative (backend : BackendType) : res unit :=
  throw_if (negb (bool_decide (backend = Postgres)) && negb (bool_decide (backend = Mysql)) &&
            negb (bool_decide (backend = Mariadb))) invalidValue.

(** [local_days{date}] and [sys_days{date}] as a time point. *)
Definition at_midnight (y m d : Z) : Z := days_from_civil (YMD y m d) * us_per_day.
Definition firstDay : Z := at_midnight 1 1 1.
Definition afterLastDay : Z := at_midnight 10000 1 1.

Definition valid_Date (value : Date) : bool :=
  ymd_ok value && (1 <=? year value) && (year value <=? 9999).
Definition valid_TimeOfDay (value : TimeOfDay) : bool :=
  (0 <=? sinceMidnight value) && (sinceMidnight value <? us_per_day).
Definition valid_LocalDateTime (value : LocalDateTime) : bool :=
  (firstDay <=? value) && (value <? afterLastDay).
Definition valid_UtcTimestamp (value : UtcTimestamp) : bool :=
  (firstDay <=? value) && (value <? afterLastDay).

Definition validate_Date (value : Date) : res unit := throw_if (negb (valid_Date value)) invalidValue.
Definition validate_TimeOfDay (value : TimeOfDay) : res unit := Ok tt.
Definition validate_LocalDateTime (value : LocalDateTime) : res unit :=
  throw_if (negb (valid_LocalDateTime value)) invalidValue.
Definition validate_UtcTimestamp (value : UtcTimestamp) : res unit :=
  throw_if (negb (valid_UtcTimestamp value)) invalidValue.

(** ** Formatting *)
Definition format_Date (value : Date) : res string :=
  validate_Date value ;;
  Ok (zero_padded 4 (year value) +:+ "-" +:+ zero_padded 2 (month value) +:+ "-" +:+
      zero_padded 2 (day value)).

(** [hh_mm_ss<microseconds>] of a duration that is not negative. *)
Definition format_TimeOfDay (value : TimeOfDay) : string :=
  let t := sinceMidnight value in
  zero_padded 2 (t / us_per_hour) +:+ ":" +:+
  zero_padded 2 (t mod us_per_hour / us_per_minute) +:+ ":" +:+
  zero_padded 2 (t mod us_per_minute / us_per_second) +:+ "." +:+
  zero_padded 6 (t mod us_per_second).

Definition format_LocalDateTime (value : LocalDateTime) : res string :=
  validate_LocalDateTime value ;;
  let day := floor_days value in
  date ← format_Date (civil_from_days day);
  time ← make_TimeOfDay (value - day * us_per_day);
  Ok (date +:+ " " +:+ format_TimeOfDay time).

Definition format_UtcTimestamp (value : UtcTimestamp) (includeOffset : bool) : res string :=
  validate_UtcTimestamp value ;;
  text ← format_LocalDateTime value;
  Ok (text +:+ (if includeOffset then "+00:00" else "")).

(** ** Parsing *)
Definition at_is (s : string) (n : nat) (c : ascii) : bool := bool_decide (at_char s n = c).

Definition parseDate (text : string) : res Date :=
  throw_if (negb (String.length text =? 10)%nat || negb (at_is text 4 "-") || negb (at_is text 7 "-"))
    invalidValue ;;
  y ← number (substr 0 4 text);
  m ← number (substr 5 2 text);
  d ← number (substr 8 2 text);
  let result := YMD y m d in
  validate_Date result ;;
  Ok result.

Definition parseTimeOfDay (text : string) : res TimeOfDay :=
  let size := String.length text in
  throw_if ((size <? 8)%nat || (15 <? size)%nat || negb (at_is text 2 ":") || negb (at_is text 5 ":"))
    invalidValue ;;
  hour ← number (substr 0 2 text);
  minute ← number (substr 3 2 text);
  second ← number (substr 6 2 text);
  throw_if ((24 <=? hour) || (60 <=? minute) || (60 <=? second)) invalidValue ;;
  fraction ←
    (if (size =? 8)%nat then Ok 0
     else
       throw_if ((size =? 9)%nat || negb (at_is text 8 ".")) invalidValue ;;
       let digits := (size - 9)%nat in
       fraction ← number (substr 9 digits text);
       Ok (Nat.iter (6 - digits) (fun f => u32 (f * 10)) fraction));
  make_TimeOfDay (hour * us_per_hour + minute * us_per_minute + second * us_per_second + fraction).

Definition parseLocalDateTime (text : string) : res LocalDateTime :=
  throw_if ((String.length text <? 19)%nat || (negb (at_is text 10 " ") && negb (at_is text 10 "T")))
    invalidValue ;;
  date ← parseDate (substr 0 10 text);
  time ← parseTimeOfDay (drop_str 11 text);
  Ok (days_from_civil date * us_per_day + sinceMidnight time).

Definition zone_char (c : ascii) : bool :=
  bool_decide (c = "Z"%char) || bool_decide (c = "+"%char) || bool_decide (c = "-"%char).

(** The offset that a zone suffix subtracts, in microseconds. *)
Definition parse_offset (suffix : string) : res Z :=
  if bool_decide (suffix = "Z") then Ok 0
  else
    let size := String.length suffix in
    throw_if ((negb (size =? 3)%nat && negb (size =? 6)%nat) ||
              (negb (at_is suffix 0 "+") && negb (at_is suffix 0 "-")) ||
              ((size =? 6)%nat && negb (at_is suffix 3 ":"))) invalidValue ;;
    hour ← number (substr 1 2 suffix);
    minute ← (if (size =? 6)%nat then number (substr 4 2 suffix) else Ok 0);
    throw_if ((23 <? hour) || (59 <? minute)) invalidValue ;;
    let offset := hour * us_per_hour + minute * us_per_minute in
    Ok (if at_is suffix 0 "+" then - offset else offset).

Definition parseUtcTimestamp (text : string) : res UtcTimestamp :=
  throw_if (String.length text <? 19)%nat invalidValue ;;
  let zone := find_first_of zone_char 19 text in
  local ← parseLocalDateTime (match zone with Some z => take_str z text | None => text end);
  offset ← (match zone with Some z => parse_offset (drop_str z text) | None => Ok 0 end);
  let result := local + offset in
  validate_UtcTimestamp result ;;
  Ok result.

(** ** Backend domains *)
Definition validateNative_Date (value : Date) (backend : BackendType) : res unit :=
  requireNative backend ;;
  validate_Date value ;;
  throw_if (negb (bool_decide (backend = Postgres)) && (year value <? 1000)) invalidValue.

Definition validateNative_TimeOfDay (value : TimeOfDay) (backend : BackendType) : res unit :=
  requireNative backend ;; validate_TimeOfDay value.

Definition validateNative_LocalDateTime (value : LocalDateTime) (backend : BackendType) : res unit :=
  requireNative backend ;;
  validate_LocalDateTime value ;;
  validateNative_Date (civil_from_days (floor_days value)) backend ;;
  throw_if (bool_decide (backend = Mysql) && (afterLastDay - us_per_second + 499999 <? value)) invalidValue.

(** The greatest [TIMESTAMP] of the two MySQL-family servers. *)
Definition maximumTimestamp (backend : BackendType) : Z :=
  if bool_decide (backend = Mysql) then
    at_midnight 2038 1 19 + 3 * us_per_hour + 14 * us_per_minute + 7 * us_per_second + 499999
  else
    at_midnight 2106 2 7 + 6 * us_per_hour + 28 * us_per_minute + 15 * us_per_second + 999999.

Definition validateNative_UtcTimestamp (value : UtcTimestamp) (backend : BackendType) : res unit :=
  requireNative backend ;;
  validate_UtcTimestamp value ;;
  if bool_decide (backend = Postgres) then Ok tt
  else throw_if ((value <? at_midnight 1970 1 1 + us_per_second) || (maximumTimestamp backend <? value))
         invalidValue.

Definition uuid_byte (u : Uuid.t) (n : nat) : Z := byte_of (default NUL (Uuid.bytes u !! n)).

Definition validateNativeUuid (value : Uuid.t) (backend : BackendType) : res unit :=
  throw_if (negb (bool_decide (backend = Postgres)) && negb (bool_decide (backend = Mariadb))) invalidValue ;;
  throw_if (bool_decide (backend = Mariadb) && (8 <=? Z.shiftr (uuid_byte value 6) 4) &&
            (Z.land (uuid_byte value 8) 128 =? 0)) invalidValue.

Definition validateNative_Uuid (value : Uuid.t) (backend : BackendType) : res unit :=
  validateNativeUuid value backend.

(** ** Digits *)
Lemma byte_of_digit_char n : 0 <= n < 10 -> byte_of (digit_char n) = 48 + n.
Proof. intros. unfold digit_char. rewrite byte_of_char_of, Z.mod_small; lia. Qed.

Lemma is_digit_digit_char n : 0 <= n < 10 -> is_digit (digit_char n) = true.
Proof. intros. unfold is_digit. rewrite byte_of_digit_char by done. apply andb_true_iff. lia. Qed.

Lemma digit_char_is_digit c : is_digit c = true -> digit_char (byte_of c - 48) = c.
Proof. unfold digit_char. intros. rewrite Z.add_sub_assoc, Z.add_simpl_l. apply char_of_byte_of. Qed.

Lemma u32_small z : 0 <= z < 2 ^ 32 -> u32 z = z.
Proof. apply Z.mod_small. Qed.

Lemma length_fixed w n : String.length (fixed w n) = w.
Proof. revert n. induction w; intros; simpl; [done|]. rewrite length_app_str, IHw. simpl. lia. Qed.

Lemma pow10_succ w : 10 ^ Z.of_nat (S w) = 10 * 10 ^ Z.of_nat w.
Proof. rewrite Nat2Z.inj_succ, Z.pow_succ_r; lia. Qed.

Lemma pow10_pos w : 0 < 10 ^ Z.of_nat w.
Proof. apply Z.pow_pos_nonneg; lia. Qed.

Lemma pow10_bound (w : nat) : (w <= 9)%nat -> 10 ^ Z.of_nat w < 2 ^ 32.
Proof. intros. pose proof (Z.pow_le_mono_r 10 (Z.of_nat w) 9). lia. Qed.

Lemma number_from_app s t r :
  number_from r (s +:+ t) = r' ← number_from r s; number_from r' t.
Proof.
  revert r. induction s as [|c s IH]; intros r; simpl; [done|].
  destruct (is_digit c); simpl; [apply IH|done].
Qed.

Lemma number_fixed (w : nat) n :
  (w <= 9)%nat -> 0 <= n < 10 ^ Z.of_nat w -> number (fixed w n) = Ok n.
Proof.
  unfold number. revert n. induction w as [|w IH]; intros n Hw Hn.
  - simpl in *. do 2 f_equal. lia.
  - rewrite pow10_succ in Hn. pose proof (pow10_bound (S w) Hw) as Hb. rewrite pow10_succ in Hb.
    assert (0 <= n / 10 < 10 ^ Z.of_nat w)
      by (split; [apply Z.div_pos; lia|apply Z.div_lt_upper_bound; lia]).
    cbn [fixed]. rewrite number_from_app, IH by lia.
    pose proof (Z.mod_pos_bound n 10 ltac:(lia)).
    assert (Hdm : n = 10 * (n / 10) + n mod 10) by (apply Z.div_mod; lia).
    assert (0 <= n / 10) by (apply Z.div_pos; lia).
    cbn [mbind result_bind number_from]. rewrite is_digit_digit_char, byte_of_digit_char by lia.
    cbn [negb throw_if mbind result_bind].
    rewrite (u32_small (_ * 10)) by lia. rewrite u32_small by lia. f_equal. lia.
Qed.

Lemma fixed_cons w x :
  fixed (S w) x = String (digit_char (x / 10 ^ Z.of_nat w mod 10)) (fixed w x).
Proof.
  revert x. induction w as [|w IH]; intros x; [cbn; by rewrite Z.div_1_r|].
  change (fixed (S (S w)) x) with (fixed (S w) (x / 10) +:+ String (digit_char (x mod 10)) "").
  rewrite IH. cbn [String.append fixed]. rewrite pow10_succ, Z.div_div by (pose proof (pow10_pos w); lia).
  done.
Qed.

Lemma fixed_mod w x y : x mod 10 ^ Z.of_nat w = y mod 10 ^ Z.of_nat w -> fixed w x = fixed w y.
Proof.
  revert x y. induction w as [|w IH]; intros x y H; [done|]. cbn [fixed]. rewrite pow10_succ in H.
  pose proof (pow10_pos w).
  rewrite !Z.rem_mul_r in H by lia.
  pose proof (Z.mod_pos_bound x 10 ltac:(lia)). pose proof (Z.mod_pos_bound y 10 ltac:(lia)).
  assert (x mod 10 = y mod 10) as -> by lia.
  f_equal. apply IH. lia.
Qed.

(** A text read as a number is the zero-padded text of that number. *)
Lemma number_from_inv s r v :
  0 <= r -> (r + 1) * 10 ^ Z.of_nat (String.length s) <= 2 ^ 32 ->
  number_from r s = Ok v ->
  r * 10 ^ Z.of_nat (String.length s) <= v < (r + 1) * 10 ^ Z.of_nat (String.length s) /\
  fixed (String.length s) v = s.
Proof.
  revert r. induction s as [|c s IH]; intros r Hr Hb H.
  - injection H as <-. simpl. rewrite !Z.mul_1_r. split; [lia|done].
  - cbn [String.length] in *. rewrite pow10_succ in *. cbn [number_from] in H. result_inv.
    bool_to_prop. pose proof (pow10_pos (String.length s)) as Hp.
    assert (Hd : 0 <= byte_of c - 48 < 10) by (unfold is_digit in *; bool_to_prop; lia).
    rewrite (u32_small (r * 10)), u32_small in H by nia.
    apply IH in H as [Hv Hs]; [|lia|nia]. split; [nia|].
    rewrite fixed_cons, Hs. f_equal.
    rewrite <- (digit_char_is_digit c) by done. f_equal.
    assert (Hq : v / 10 ^ Z.of_nat (String.length s) = r * 10 + (byte_of c - 48)).
    { symmetry. apply (Z.div_unique _ _ _ (v - (r * 10 + (byte_of c - 48)) * 10 ^ Z.of_nat (String.length s)));
        [left; nia|nia]. }
    rewrite Hq, Z.add_comm, Z.mod_add, Z.mod_small; lia.
Qed.

Lemma number_inv s v :
  (String.length s <= 9)%nat -> number s = Ok v ->
  0 <= v < 10 ^ Z.of_nat (String.length s) /\ fixed (String.length s) v = s.
Proof.
  intros Hl H. pose proof (pow10_bound _ Hl).
  apply number_from_inv in H as [Hv Hs]; [split; [lia|done]|lia|lia].
Qed.

Lemma zero_padded_fixed w n : 0 <= n < 10 ^ Z.of_nat w -> zero_padded w n = fixed w n.
Proof.
  intros H. unfold zero_padded.
  destruct (Z.leb_spec 0 n), (Z.ltb_spec n (10 ^ Z.of_nat w)); simpl; (done || lia).
Qed.

(** A text of known length, character by character. *)
Ltac explode_text s H :=
  repeat (destruct s as [|? s]; [discriminate H|]); destruct s; [|discriminate H]; clear H.

(** Normalizes the text operations on texts whose layout is known. *)
Ltac eval_layout :=
  cbn [substr take_str drop_str String.append String.length fixed at_char String.get default
       Nat.eqb Nat.ltb Nat.leb negb orb andb id] in *.

(** ** Dates *)
Lemma valid_Date_bounds d :
  valid_Date d = true -> 1 <= year d <= 9999 /\ 1 <= month d <= 12 /\ 1 <= day d <= 31.
Proof.
  unfold valid_Date, ymd_ok. intros H. bool_to_prop.
  assert (last_day (year d) (month d) <= 31).
  { unfold last_day, days_before_month. assert (Hm : 1 <= month d <= 12) by lia.
    destruct (month_cases _ Hm) as [->|[->|[->|[->|[->|[->|[->|[->|[->|[->|[->| ->]]]]]]]]]]];
      destruct (is_leap (year d)); eval_months; lia. }
  lia.
Qed.

Definition date_text (d : Date) : string :=
  fixed 4 (year d) +:+ "-" +:+ fixed 2 (month d) +:+ "-" +:+ fixed 2 (day d).

Lemma format_Date_text d : valid_Date d = true -> format_Date d = Ok (date_text d).
Proof.
  intros H. unfold format_Date, validate_Date, date_text. rewrite H.
  apply valid_Date_bounds in H. by rewrite !zero_padded_fixed by (simpl; lia).
Qed.

Lemma length_date_text d : String.length (date_text d) = 10%nat.
Proof. unfold date_text. by rewrite !length_app_str, !length_fixed. Qed.

Lemma parseDate_text d : valid_Date d = true -> parseDate (date_text d) = Ok d.
Proof.
  intros H. pose proof (valid_Date_bounds d H) as Hb.
  unfold parseDate, date_text.
  change (substr 0 4 _) with (fixed 4 (year d)).
  change (substr 5 2 _) with (fixed 2 (month d)).
  change (substr 8 2 _) with (fixed 2 (day d)).
  rewrite !number_fixed by (simpl; lia).
  cbn [mbind result_bind]. destruct d as [y m dd]. unfold validate_Date. cbn [year month day] in *.
  rewrite H. done.
Qed.

Lemma parseDate_inv s d : parseDate s = Ok d -> valid_Date d = true /\ s = date_text d.
Proof.
  unfold parseDate. intros H. result_inv. subst d. bool_to_prop.
  unfold validate_Date in *. result_inv. bool_to_prop. split; [done|].
  apply Nat.eqb_eq in H. explode_text s H. unfold at_is in *. bool_to_prop. eval_layout. subst.
  repeat match goal with Hn : number _ = Ok _ |- _ => apply number_inv in Hn as [_ Hn]; [|simpl; lia] end.
  unfold date_text. cbn [year month day]. eval_layout. congruence.
Qed.

(** ** Times of day *)
Definition time_text (t : Z) : string :=
  fixed 2 (t / us_per_hour) +:+ ":" +:+ fixed 2 (t mod us_per_hour / us_per_minute) +:+ ":" +:+
  fixed 2 (t mod us_per_minute / us_per_second) +:+ "." +:+ fixed 6 (t mod us_per_second).

Lemma length_time_text t : String.length (time_text t) = 15%nat.
Proof. unfold time_text. by rewrite !length_app_str, !length_fixed. Qed.

Lemma time_parts t :
  0 <= t < us_per_day ->
  0 <= t / us_per_hour < 24 /\ 0 <= t mod us_per_hour / us_per_minute < 60 /\
  0 <= t mod us_per_minute / us_per_second < 60 /\ 0 <= t mod us_per_second < 1000000 /\
  t / us_per_hour * us_per_hour + t mod us_per_hour / us_per_minute * us_per_minute +
    t mod us_per_minute / us_per_second * us_per_second + t mod us_per_second = t.
Proof.
  unfold us_per_day, us_per_hour, us_per_minute, us_per_second.
  intros H. Z.to_euclidean_division_equations. lia.
Qed.

Lemma format_TimeOfDay_text t :
  0 <= t < us_per_day -> format_TimeOfDay (MkTimeOfDay t) = time_text t.
Proof.
  intros (?&?&?&?&_)%time_parts. unfold format_TimeOfDay, time_text. cbn [sinceMidnight].
  by rewrite !zero_padded_fixed by (simpl; lia).
Qed.

Lemma make_TimeOfDay_Ok t : 0 <= t < us_per_day -> make_TimeOfDay t = Ok (MkTimeOfDay t).
Proof.
  intros H. unfold make_TimeOfDay.
  destruct (Z.ltb_spec t 0), (Z.leb_spec us_per_day t); simpl; (done || lia).
Qed.

Lemma make_TimeOfDay_inv t v :
  make_TimeOfDay t = Ok v -> v = MkTimeOfDay t /\ 0 <= t < us_per_day.
Proof. unfold make_TimeOfDay. intros H. result_inv. bool_to_prop. split; [done|lia]. Qed.

Lemma parseTimeOfDay_text t :
  0 <= t < us_per_day -> parseTimeOfDay (time_text t) = Ok (MkTimeOfDay t).
Proof.
  intros Ht. pose proof (time_parts t Ht) as (Hh & Hm & Hs & Hu & Hsum).
  unfold parseTimeOfDay.
  change (String.length (time_text t)) with 15%nat.
  change (substr 0 2 (time_text t)) with (fixed 2 (t / us_per_hour)).
  change (substr 3 2 (time_text t)) with (fixed 2 (t mod us_per_hour / us_per_minute)).
  change (substr 6 2 (time_text t)) with (fixed 2 (t mod us_per_minute / us_per_second)).
  change (substr 9 (15 - 9) (time_text t)) with (fixed 6 (t mod us_per_second)).
  rewrite !number_fixed by (simpl; lia).
  change (at_is (time_text t) 2 ":") with true. change (at_is (time_text t) 5 ":") with true.
  change (at_is (time_text t) 8 ".") with true.
  cbn [Nat.ltb Nat.leb Nat.eqb negb orb throw_if mbind result_bind Nat.iter Nat.sub].
  destruct (Z.leb_spec 24 (t / us_per_hour)); [lia|].
  destruct (Z.leb_spec 60 (t mod us_per_hour / us_per_minute)); [lia|].
  destruct (Z.leb_spec 60 (t mod us_per_minute / us_per_second)); [lia|].
  cbn. rewrite Hsum. by apply make_TimeOfDay_Ok.
Qed.

Lemma parseTimeOfDay_valid s t : parseTimeOfDay s = Ok t -> valid_TimeOfDay t = true.
Proof.
  unfold parseTimeOfDay. intros H. result_inv.
  apply make_TimeOfDay_inv in H as [-> ?]. unfold valid_TimeOfDay. cbn [sinceMidnight].
  apply andb_true_iff. rewrite Z.leb_le, Z.ltb_lt. done.
Qed.

(** ** Civil date-times *)
Lemma valid_date_days d :
  valid_Date d = true <->
  ymd_ok d = true /\ firstDay <= days_from_civil d * us_per_day /\
  days_from_civil d * us_per_day < afterLastDay.
Proof.
  unfold valid_Date, firstDay, afterLastDay, at_midnight.
  rewrite !andb_true_iff, !Z.leb_le. split.
  - intros [[Hok Hlo] Hhi]. split; [done|].
    pose proof (days_from_civil_year_bounds d 1 9999 Hok) as [_ Hd].
    change (9999 + 1) with 10000 in Hd. specialize (Hd (conj Hlo Hhi)).
    assert (0 < us_per_day) by done. nia.
  - intros (Hok & Hlo & Hhi). pose proof (days_from_civil_year_bounds d 1 9999 Hok) as [Hd _].
    change (9999 + 1) with 10000 in Hd. assert (0 < us_per_day) by done.
    split; [split; [done|]|]; apply Hd; nia.
Qed.

Lemma floor_days_valid t :
  firstDay <= t < afterLastDay ->
  valid_Date (civil_from_days (floor_days t)) = true /\
  days_from_civil (civil_from_days (floor_days t)) = floor_days t /\
  0 <= t - floor_days t * us_per_day < us_per_day.
Proof.
  intros H. destruct (civil_from_days_spec (floor_days t)) as [Hok Hd].
  assert (Hp : 0 < us_per_day) by done.
  pose proof (Z.mod_pos_bound t us_per_day Hp) as Hm. rewrite Z.mod_eq in Hm by lia.
  split; [|split; [done|unfold floor_days; lia]].
  apply valid_date_days. rewrite Hd. split; [done|]. unfold floor_days.
  unfold firstDay, afterLastDay, at_midnight in *.
  split; [apply Z.mul_le_mono_nonneg_r; [lia|]; apply Z.div_le_lower_bound; lia|].
  apply Z.mul_lt_mono_pos_r; [lia|]. apply Z.div_lt_upper_bound; lia.
Qed.

Definition local_text (t : Z) : string :=
  date_text (civil_from_days (floor_days t)) +:+ " " +:+ time_text (t - floor_days t * us_per_day).

Lemma valid_LocalDateTime_iff t :
  valid_LocalDateTime t = true <-> firstDay <= t < afterLastDay.
Proof. unfold valid_LocalDateTime. by rewrite andb_true_iff, Z.leb_le, Z.ltb_lt. Qed.

Lemma format_LocalDateTime_text t :
  valid_LocalDateTime t = true -> format_LocalDateTime t = Ok (local_text t).
Proof.
  intros H. unfold format_LocalDateTime, validate_LocalDateTime, local_text. rewrite H.
  apply valid_LocalDateTime_iff, floor_days_valid in H as (Hd & _ & Ht).
  cbn [negb]. rewrite throw_false, bind_Ok, format_Date_text, bind_Ok by done.
  by rewrite make_TimeOfDay_Ok, bind_Ok, format_TimeOfDay_text.
Qed.

Lemma parseLocalDateTime_text t :
  valid_LocalDateTime t = true -> parseLocalDateTime (local_text t) = Ok t.
Proof.
  intros (Hd & Hc & Ht)%valid_LocalDateTime_iff%floor_days_valid.
  unfold parseLocalDateTime, local_text.
  set (date := date_text _). set (time := time_text _).
  assert (Hdate : String.length date = 10%nat) by apply length_date_text.
  assert (Htime : String.length time = 15%nat) by apply length_time_text.
  assert (Hsep : at_is (date +:+ " " +:+ time) 10 " " = true).
  { unfold at_is. change 10%nat with (10 + 0)%nat. by rewrite at_char_app. }
  rewrite Hsep, !length_app_str, Hdate, Htime, substr_prefix by done.
  change 11%nat with (10 + 1)%nat. rewrite drop_str_add, drop_prefix by done.
  change (drop_str 1 (" " +:+ time)) with time. subst date time.
  change (_ || _) with false. rewrite throw_false, bind_Ok, parseDate_text, bind_Ok by done.
  rewrite parseTimeOfDay_text, bind_Ok by done. cbn [sinceMidnight]. rewrite Hc. f_equal. lia.
Qed.

Lemma parseLocalDateTime_valid s t : parseLocalDateTime s = Ok t -> valid_LocalDateTime t = true.
Proof.
  unfold parseLocalDateTime. intros H. result_inv. subst t.
  apply parseDate_inv in Hok0 as [Hd _]. apply parseTimeOfDay_valid in Hok1.
  apply valid_date_days in Hd as (Hok' & Hlo & Hhi). unfold valid_TimeOfDay in Hok1. bool_to_prop.
  apply valid_LocalDateTime_iff. unfold afterLastDay, at_midnight in *.
  change us_per_day with 86400000000 in *. lia.
Qed.

(** ** UTC timestamps *)
Lemma find_index_app f s t :
  existsb_char f s = false ->
  find_index f (s +:+ t) = (fun i => (String.length s + i)%nat) <$> find_index f t.
Proof.
  induction s as [|c s IH]; intros H.
  { cbn [String.append String.length Nat.add]. by destruct (find_index f t). }
  cbn [existsb_char] in H. bool_to_prop. cbn [String.append find_index String.length].
  rewrite H, IH by done. by destruct (find_index f t).
Qed.

Lemma digits_no_zone w n : existsb_char zone_char (fixed w n) = false.
Proof.
  revert n. induction w as [|w IH]; intros n; [done|]. cbn [fixed].
  rewrite existsb_char_app, IH. cbn [orb existsb_char]. rewrite orb_false_r.
  pose proof (Z.mod_pos_bound n 10 ltac:(lia)) as Hm.
  pose proof (byte_of_digit_char _ Hm) as Hb.
  unfold zone_char. rewrite !orb_false_iff, !bool_decide_eq_false.
  repeat split; intros Heq%(f_equal byte_of); rewrite Hb in Heq;
    match type of Heq with _ = byte_of ?c =>
      let v := eval vm_compute in (byte_of c) in change (byte_of c) with v in Heq end; lia.
Qed.

Lemma time_text_no_zone t : existsb_char zone_char (time_text t) = false.
Proof. unfold time_text. by rewrite !existsb_char_app, !digits_no_zone. Qed.

Lemma length_local_text t : String.length (local_text t) = 26%nat.
Proof. unfold local_text. by rewrite !length_app_str, length_date_text, length_time_text. Qed.

Lemma local_text_zone t suffix :
  find_first_of zone_char 19 (local_text t +:+ suffix) =
  (fun i => (26 + i)%nat) <$> find_index zone_char suffix.
Proof.
  unfold find_first_of, local_text.
  set (date := date_text _). set (time := time_text _).
  rewrite !app_str_assoc. change 19%nat with (10 + (1 + 8))%nat.
  rewrite !drop_str_add, drop_prefix by apply length_date_text.
  change (drop_str 1 (" " +:+ ?x)) with x.
  assert (Hdrop : exists u, String.length u = 7%nat /\
            existsb_char zone_char u = false /\ drop_str 8 (time +:+ suffix) = u +:+ suffix).
  { subst time. unfold time_text. set (f := fixed 6 _).
    exists ("." +:+ f). split; [by subst f; rewrite length_app_str, length_fixed|].
    split; [|reflexivity]. rewrite existsb_char_app. subst f. by rewrite digits_no_zone. }
  destruct Hdrop as (u & Hu & Hz & Hd). rewrite Hd, find_index_app, Hu by done.
  by destruct (find_index zone_char suffix).
Qed.

Lemma format_UtcTimestamp_text t includeOffset :
  valid_UtcTimestamp t = true ->
  format_UtcTimestamp t includeOffset = Ok (local_text t +:+ (if includeOffset then "+00:00" else "")).
Proof.
  intros H. unfold format_UtcTimestamp, validate_UtcTimestamp. rewrite H.
  cbn [negb]. rewrite throw_false, bind_Ok, format_LocalDateTime_text by done. done.
Qed.

Lemma parseUtcTimestamp_text t (includeOffset : bool) :
  valid_UtcTimestamp t = true ->
  parseUtcTimestamp (local_text t +:+ (if includeOffset then "+00:00" else "")) = Ok t.
Proof.
  intros H. unfold parseUtcTimestamp.
  rewrite length_app_str, length_local_text, local_text_zone, throw_false, bind_Ok.
  destruct includeOffset.
  - change (find_index zone_char "+00:00") with (Some 0%nat). cbn [fmap option_fmap option_map Nat.add].
    rewrite <- (length_local_text t), take_str_app, drop_str_app.
    rewrite parseLocalDateTime_text, bind_Ok by done.
    change (parse_offset "+00:00") with (Ok (E := exn) 0). rewrite bind_Ok, Z.add_0_r.
    unfold validate_UtcTimestamp. by rewrite H.
  - change (find_index zone_char "") with (@None nat). cbn [fmap option_fmap option_map].
    rewrite app_str_nil_r, parseLocalDateTime_text, !bind_Ok, Z.add_0_r by done.
    unfold validate_UtcTimestamp. by rewrite H.
Qed.

Lemma parseTimeOfDay_bounds t : valid_TimeOfDay t = true <-> 0 <= sinceMidnight t < us_per_day.
Proof. unfold valid_TimeOfDay. by rewrite andb_true_iff, Z.leb_le, Z.ltb_lt. Qed.

(** ** The codec's properties *)

(** A date is read from a text exactly when it is a date of the years 1 to
    9999 that exists in the calendar and the text is what [format] prints for it. *)
Theorem parseDate_iff_format s d :
  parseDate s = Ok d <-> valid_Date d = true /\ format_Date d = Ok s.
Proof.
  split.
  - intros [Hd ->]%parseDate_inv. by rewrite format_Date_text.
  - intros [Hd Hf]. rewrite format_Date_text in Hf by done. injection Hf as <-. by apply parseDate_text.
Qed.

(** Printing a time of day of the half-open interval [00:00, 24:00) and
    reading it back gives the same number of microseconds. *)
Theorem parseTimeOfDay_format t :
  valid_TimeOfDay t = true -> parseTimeOfDay (format_TimeOfDay t) = Ok t.
Proof.
  destruct t as [t]. intros H%parseTimeOfDay_bounds. cbn [sinceMidnight] in H.
  rewrite format_TimeOfDay_text by done. by apply parseTimeOfDay_text.
Qed.

Lemma parseTimeOfDay_format_witness :
  valid_TimeOfDay (MkTimeOfDay 32403000007) = true /\
  parseTimeOfDay (format_TimeOfDay (MkTimeOfDay 32403000007)) = Ok (MkTimeOfDay 32403000007).
Proof. split; [reflexivity|]. apply (parseTimeOfDay_format (MkTimeOfDay 32403000007)). reflexivity. Defined.

(** For every civil date-time, printing either fails, exactly when the value
    lies outside the years 1 to 9999, or produces a text that reads back as the
    same microsecond. *)
Theorem parseLocalDateTime_format t :
  (text ← format_LocalDateTime t; parseLocalDateTime text) =
  if valid_LocalDateTime t then Ok t else Err invalidValue.
Proof.
  destruct (valid_LocalDateTime t) eqn:H.
  - rewrite format_LocalDateTime_text, bind_Ok by done. by apply parseLocalDateTime_text.
  - unfold format_LocalDateTime, validate_LocalDateTime. by rewrite H.
Qed.

(** For every UTC instant, printing with or without the offset either fails,
    exactly when the value lies outside the years 1 to 9999, or produces a text
    that reads back as the same instant. *)
Theorem parseUtcTimestamp_format t includeOffset :
  (text ← format_UtcTimestamp t includeOffset; parseUtcTimestamp text) =
  if valid_UtcTimestamp t then Ok t else Err invalidValue.
Proof.
  destruct (valid_UtcTimestamp t) eqn:H.
  - rewrite format_UtcTimestamp_text, bind_Ok by done. by apply parseUtcTimestamp_text.
  - unfold format_UtcTimestamp, validate_UtcTimestamp. by rewrite H.
Qed.

(** The range of the signed 64-bit counts that [std::chrono] holds. *)
Definition int64 (z : Z) : Prop := - 2 ^ 63 <= z < 2 ^ 63.

Lemma valid_range_int64 t : firstDay <= t < afterLastDay -> int64 t.
Proof.
  unfold firstDay, afterLastDay, int64.
  change (at_midnight 1 1 1) with (-62135596800000000).
  change (at_midnight 10000 1 1) with 253402300800000000. lia.
Qed.

(** Every value a parser returns is in its type's domain, and its count of
    microseconds fits the 64-bit representation, so no reader of a text can
    produce a value the formatters and validators refuse. *)
Theorem parsed_values_valid s :
  (forall d, parseDate s = Ok d -> valid_Date d = true) /\
  (forall t, parseTimeOfDay s = Ok t -> valid_TimeOfDay t = true) /\
  (forall t, parseLocalDateTime s = Ok t -> valid_LocalDateTime t = true /\ int64 t) /\
  (forall t, parseUtcTimestamp s = Ok t -> valid_UtcTimestamp t = true /\ int64 t).
Proof.
  split; [|split; [|split]].
  - by intros d [? _]%parseDate_inv.
  - intros t. apply parseTimeOfDay_valid.
  - intros t H%parseLocalDateTime_valid. split; [done|].
    by apply valid_range_int64, valid_LocalDateTime_iff.
  - intros t H. unfold parseUtcTimestamp, validate_UtcTimestamp in H. result_inv. bool_to_prop. subst.
    split; [done|]. by apply valid_range_int64, valid_LocalDateTime_iff.
Qed.

(** The instants each native backend stores in its timestamp column. *)
Definition timestamp_domain (backend : BackendType) (t : UtcTimestamp) : Prop :=
  match backend with
  | Postgres => firstDay <= t < afterLastDay
  | Mysql => 1000000 <= t <= 2147483647499999
  | Mariadb => 1000000 <= t <= 4294967295999999
  | _ => False
  end.

(** A timestamp passes native validation exactly when the backend is one with
    native temporal columns and the instant is in that backend's closed range:
    1970-01-01 00:00:01 to 2038-01-19 03:14:07.499999 for MySQL, to 2106-02-07
    06:28:15.999999 for MariaDB, the years 1 to 9999 for PostgreSQL. *)
Theorem validateNative_UtcTimestamp_iff t backend :
  validateNative_UtcTimestamp t backend = Ok tt <-> timestamp_domain backend t.
Proof.
  unfold validateNative_UtcTimestamp, requireNative, validate_UtcTimestamp, timestamp_domain,
    maximumTimestamp.
  change (valid_UtcTimestamp t) with (valid_LocalDateTime t).
  pose proof (valid_LocalDateTime_iff t) as Hv.
  unfold firstDay, afterLastDay in *.
  change (at_midnight 1 1 1) with (-62135596800000000) in *.
  change (at_midnight 10000 1 1) with 253402300800000000 in *.
  change (at_midnight 1970 1 1 + us_per_second) with 1000000.
  change (at_midnight 2038 1 19 + 3 * us_per_hour + 14 * us_per_minute + 7 * us_per_second + 499999)
    with 2147483647499999.
  change (at_midnight 2106 2 7 + 6 * us_per_hour + 28 * us_per_minute + 15 * us_per_second + 999999)
    with 4294967295999999.
  destruct backend; decide_tests; autorewrite with orm; try (split; [discriminate|done]);
    destruct (valid_LocalDateTime t); cbn [negb]; autorewrite with orm;
    rewrite ?throw_if_Ok_iff, ?orb_false_iff, ?Z.ltb_ge;
    (split; [intros Hr; try discriminate Hr|intros Hr]); try done;
    first [apply Hv; done | lia | exfalso; assert (false = true) by (apply Hv; lia); done].
Qed.
