(* ===== verification/Schema.v ===== *)
(** Schema: the physical schema, migration context, decision and difference
    records of modules/orm/migrations/schema.cppm. *)
From S2P Require Import Prelude Foundation Chrono Values Codec.
From Stdlib Require Export SpecFloat.

(** [generationBackends]. *)
Definition generationBackends : list BackendType := [Sqlite; Postgres; Mysql; Mariadb].

Record PhysicalColumn := MkColumn {
  col_name : string;
  logicalType : ColumnType;
  sqlType_of : string;
  nullable : bool;
  maxStringLength : option N;
  autoIncrement : bool
}.

Record PhysicalForeignKey := MkForeignKey {
  fk_name : string;
  fk_columns : list string;
  targetTable : string;
  targetColumns : list string;
  onDelete : string;
  onUpdate : string
}.

Record PhysicalIndex := MkIndex {
  index_name : string;
  index_columns : list string;
  unique : bool
}.

Record PhysicalTable := MkTable {
  table_name : string;
  columns : list PhysicalColumn;
  primaryKey : list string;
  primaryKeyName : string;
  foreignKeys : list PhysicalForeignKey;
  indexes : list PhysicalIndex;
  options : string
}.

Record PhysicalSchema := MkSchema {
  schema_backend : BackendType;
  schema_profile : string;
  tables : list PhysicalTable
}.

Record SchemaSnapshot := MkSnapshot {
  formatVersion : Z;
  backends : BackendMap.t PhysicalSchema
}.

#[export] Instance PhysicalColumn_eq_dec : EqDecision PhysicalColumn.
Proof. solve_decision. Defined.
#[export] Instance PhysicalForeignKey_eq_dec : EqDecision PhysicalForeignKey.
Proof. solve_decision. Defined.
#[export] Instance PhysicalIndex_eq_dec : EqDecision PhysicalIndex.
Proof. solve_decision. Defined.
#[export] Instance PhysicalTable_eq_dec : EqDecision PhysicalTable.
Proof. solve_decision. Defined.
#[export] Instance PhysicalSchema_eq_dec : EqDecision PhysicalSchema.
Proof. solve_decision. Defined.
#[export] Instance SchemaSnapshot_eq_dec : EqDecision SchemaSnapshot.
Proof. solve_decision. Defined.

(** The default member initializers. *)
Definition default_foreign_key : PhysicalForeignKey :=
  MkForeignKey "" [] "" [] "NO ACTION" "NO ACTION".
Definition default_index : PhysicalIndex := MkIndex "" [] false.

(** Copies with one member changed. *)
Definition with_columns (t : PhysicalTable) cs :=
  MkTable (table_name t) cs (primaryKey t) (primaryKeyName t) (foreignKeys t) (indexes t) (options t).
Definition with_table_name (n : string) (t : PhysicalTable) :=
  MkTable n (columns t) (primaryKey t) (primaryKeyName t) (foreignKeys t) (indexes t) (options t).
Definition with_indexes (t : PhysicalTable) ix :=
  MkTable (table_name t) (columns t) (primaryKey t) (primaryKeyName t) (foreignKeys t) ix (options t).
Definition with_options (o : string) (t : PhysicalTable) :=
  MkTable (table_name t) (columns t) (primaryKey t) (primaryKeyName t) (foreignKeys t) (indexes t) o.
Definition with_tables (s : PhysicalSchema) ts := MkSchema (schema_backend s) (schema_profile s) ts.

(** ** Execution contexts *)
Inductive MigrationExecutionMode := Normal | SqliteRebuild.

#[export] Instance MigrationExecutionMode_eq_dec : EqDecision MigrationExecutionMode.
Proof. solve_decision. Defined.

Record RebuildTable := MkRebuild {
  rb_source : string;
  rb_target : string;
  rb_staging : string;
  sourceIdentity : option string;
  targetIdentity : option string
}.

Record MigrationExecutionContext := MkContext {
  mode : MigrationExecutionMode;
  ctx_tables : list string;
  rebuildTables : list RebuildTable;
  ctx_source : option PhysicalSchema;
  ctx_target : option PhysicalSchema
}.

#[export] Instance RebuildTable_eq_dec : EqDecision RebuildTable.
Proof. solve_decision. Defined.
#[export] Instance MigrationExecutionContext_eq_dec : EqDecision MigrationExecutionContext.
Proof. solve_decision. Defined.

Definition empty_context : MigrationExecutionContext := MkContext Normal [] [] None None.

(** ** Decisions *)
Record TableRename := MkTableRename { tr_from : string; tr_to : string }.
Record ColumnRename := MkColumnRename { cr_table : string; cr_from : string; cr_to : string }.

(** A C++ [double] is its IEEE 754 value. *)
Abbreviation double := spec_float.

(** The alternatives of the [GenerationLiteral] variant. *)
Inductive GenerationLiteral :=
| LitNull
| LitBool (b : bool)
| LitInt64 (z : Z)
| LitUInt64 (z : Z)
| LitDouble (d : double)
| LitString (s : string)
| LitDate (d : Date)
| LitTimeOfDay (t : TimeOfDay)
| LitLocalDateTime (t : LocalDateTime)
| LitUtcTimestamp (t : UtcTimestamp)
| LitUuid (u : Uuid.t).

Record ColumnTransformation := MkTransformation {
  tf_table : string;
  tf_column : string;
  constant : option GenerationLiteral;
  sourceColumn : option string;
  expressions : BackendMap.t string
}.

Record GenerationDecisions := MkDecisions {
  tableRenames : list TableRename;
  columnRenames : list ColumnRename;
  allowDataLossUp : list string;
  allowDataLossDown : list string;
  backfills : list ColumnTransformation;
  conversions : list ColumnTransformation;
  downBackfills : list ColumnTransformation;
  downConversions : list ColumnTransformation
}.

Definition no_decisions : GenerationDecisions := MkDecisions [] [] [] [] [] [] [] [].

(** ** Differences *)
Inductive SchemaChangeKind :=
| CreateTable | DropTable | RenameTable | AddColumn | DropColumn | RenameColumn
| AlterColumn | AlterPrimaryKey | AddForeignKey | DropForeignKey | AddIndex | DropIndex.

#[export] Instance SchemaChangeKind_eq_dec : EqDecision SchemaChangeKind.
Proof. solve_decision. Defined.

Record SchemaChange := MkChange {
  kind : SchemaChangeKind;
  change_backend : BackendType;
  change_id : string;
  change_table : string;
  change_column : string;
  otherName : string;
  description : string;
  dataLoss : bool;
  unresolved : bool
}.

#[export] Instance SchemaChange_eq_dec : EqDecision SchemaChange.
Proof. solve_decision. Defined.

Record SchemaDiff := MkDiff {
  before : SchemaSnapshot;
  after : SchemaSnapshot;
  changes : list SchemaChange;
  diagnostics : list GenerationDiagnostic
}.
