(* ===== verification/Sha256.v ===== *)
(** Sha256: the digest [detail::sha256] of src/migrations/Catalog.cpp, on words of
    32 bits held in [Z] with every wrap-around written out. *)
From S2P Require Import Prelude.
Local Open Scope Z_scope.

(** [std::uint32_t] arithmetic and [std::rotr]. *)
Definition w32 (z : Z) : Z := z mod 2 ^ 32.
Definition add32 (x y : Z) : Z := w32 (x + y).
Definition not32 (x : Z) : Z := Z.lxor x (2 ^ 32 - 1).
Definition rotr (x n : Z) : Z := Z.lor (Z.shiftr x n) (w32 (Z.shiftl x (32 - n))).

(** Words written as eight hexadecimal digits, most significant first. *)
Definition nibble (c : ascii) : Z :=
  if is_digit c then byte_of c - 48 else byte_of c - 87.
Fixpoint hex_value (acc : Z) (s : string) : Z :=
  match s with "" => acc | String c s => hex_value (acc * 16 + nibble c) s end.
Definition hex_words (rows : list string) : list Z := map (hex_value 0) rows.

Definition round_constants : list Z := hex_words
  ["428a2f98";"71374491";"b5c0fbcf";"e9b5dba5";"3956c25b";"59f111f1";"923f82a4";"ab1c5ed5";
   "d807aa98";"12835b01";"243185be";"550c7dc3";"72be5d74";"80deb1fe";"9bdc06a7";"c19bf174";
   "e49b69c1";"efbe4786";"0fc19dc6";"240ca1cc";"2de92c6f";"4a7484aa";"5cb0a9dc";"76f988da";
   "983e5152";"a831c66d";"b00327c8";"bf597fc7";"c6e00bf3";"d5a79147";"06ca6351";"14292967";
   "27b70a85";"2e1b2138";"4d2c6dfc";"53380d13";"650a7354";"766a0abb";"81c2c92e";"92722c85";
   "a2bfe8a1";"a81a664b";"c24b8b70";"c76c51a3";"d192e819";"d6990624";"f40e3585";"106aa070";
   "19a4c116";"1e376c08";"2748774c";"34b0bcb5";"391c0cb3";"4ed8aa4a";"5b9cca4f";"682e6ff3";
   "748f82ee";"78a5636f";"84c87814";"8cc70208";"90befffa";"a4506ceb";"bef9a3f7";"c67178f2"]%string.

Definition initial_state : list Z := hex_words
  ["6a09e667";"bb67ae85";"3c6ef372";"a54ff53a";"510e527f";"9b05688c";"1f83d9ab";"5be0cd19"]%string.

(** [while (data.size() % 64 != 56) data.push_back(0)]: the number of zeros. *)
Definition zero_padding (n : nat) : nat := Z.to_nat ((56 - Z.of_nat n) mod 64).

(** The eight bytes of [bitLength], most significant first. *)
Definition length_bytes (bitLength : Z) : list Z :=
  map (fun shift => Z.shiftr bitLength shift mod 256) [56; 48; 40; 32; 24; 16; 8; 0].

Definition padded (bytes : list Z) : list Z :=
  let bitLength := (Z.of_nat (length bytes) * 8) mod 2 ^ 64 in
  let data := bytes ++ [128] in
  data ++ replicate (zero_padding (length data)) 0 ++ length_bytes bitLength.

(** [words[i] = (words[i] << 8U) | data[...]], four bytes to a word. *)
Fixpoint words_of_bytes (l : list Z) : list Z :=
  match l with
  | a :: b :: c :: d :: l =>
      let put w x := Z.lor (w32 (Z.shiftl w 8)) x in
      put (put (put (put 0 a) b) c) d :: words_of_bytes l
  | _ => []
  end.

Definition nth_word (l : list Z) (i : nat) : Z := nth i l 0.

(** The message schedule: words 16 to 63. *)
Definition schedule_step (words : list Z) (i : nat) : list Z :=
  let a := nth_word words (i - 15) in
  let b := nth_word words (i - 2) in
  words ++
    [add32 (add32 (add32 (nth_word words (i - 16))
        (Z.lxor (Z.lxor (rotr a 7) (rotr a 18)) (Z.shiftr a 3))) (nth_word words (i - 7)))
        (Z.lxor (Z.lxor (rotr b 17) (rotr b 19)) (Z.shiftr b 10))].
Definition schedule (words : list Z) : list Z := fold_left schedule_step (seq 16 48) words.

(** One round on the eight working words. *)
Definition round (work : list Z) (kw : Z * Z) : list Z :=
  match work with
  | [a; b; c; d; e; f; g; h] =>
      let first := add32 (add32 (add32 (add32 h
          (Z.lxor (Z.lxor (rotr e 6) (rotr e 11)) (rotr e 25)))
          (Z.lxor (Z.land e f) (Z.land (not32 e) g))) kw.1) kw.2 in
      let second := add32 (Z.lxor (Z.lxor (rotr a 2) (rotr a 13)) (rotr a 22))
          (Z.lxor (Z.lxor (Z.land a b) (Z.land a c)) (Z.land b c)) in
      [add32 first second; a; b; c; add32 d first; e; f; g]
  | _ => work
  end.

Definition compress (state block : list Z) : list Z :=
  let words := schedule (words_of_bytes block) in
  let work := fold_left round (zip round_constants words) state in
  zip_with add32 state work.

(** The blocks of 64 bytes, with fuel for their number. *)
Fixpoint blocks (fuel : nat) (data : list Z) : list (list Z) :=
  match fuel, data with
  | S fuel, _ :: _ => take 64 data :: blocks fuel (drop 64 data)
  | _, _ => []
  end.

Definition hex_digit (n : Z) : ascii := char_of (if n <? 10 then 48 + n else 87 + n).

(** [hex[(word >> shift) & 15U]] for the shifts 28, 24, ..., 0. *)
Definition hex_of_word (w : Z) : string :=
  of_chars (map (fun shift => hex_digit (Z.land (Z.shiftr w shift) 15)) [28; 24; 20; 16; 12; 8; 4; 0]).

Definition digest (bytes : list Z) : list Z :=
  let data := padded bytes in
  fold_left compress (blocks (length data) data) initial_state.

Definition sha256 (bytes : string) : string :=
  concat_str (map hex_of_word (digest (map byte_of (chars bytes)))).

(** ** Properties *)
Section lemmas.
Lemma size_of_chars l : String.length (of_chars l) = length l.
Proof. induction l; simpl; congruence. Qed.

Lemma padded_length bytes : Z.of_nat (length (padded bytes)) mod 64 = 0.
Proof.
  unfold padded. rewrite !length_app, length_replicate. simpl length.
  unfold zero_padding. set (n := (length bytes + 1)%nat).
  pose proof (Z.mod_pos_bound (56 - Z.of_nat n) 64 ltac:(lia)).
  pose proof (Z.div_mod (56 - Z.of_nat n) 64 ltac:(lia)) as Hd.
  set (q := (56 - Z.of_nat n) / 64) in *. set (r := (56 - Z.of_nat n) mod 64) in *.
  replace (Z.of_nat _) with ((1 - q) * 64) by lia. apply Z_mod_mult.
Qed.

(** The message is a prefix, followed by the end mark. *)
Lemma padded_prefix bytes : exists k, padded bytes = bytes ++ [128] ++ k.
Proof. eexists. unfold padded. by rewrite <- app_assoc. Qed.

Lemma blocks_concat fuel data : (length data <= fuel)%nat -> concat (blocks fuel data) = data.
Proof.
  revert data. induction fuel as [|fuel IH]; intros [|x data] H; simpl in *; [done|lia|done|].
  rewrite IH by (rewrite length_drop; lia). f_equal. apply take_drop.
Qed.

Lemma blocks_length fuel data :
  Z.of_nat (length data) mod 64 = 0 -> Forall (fun b => length b = 64%nat) (blocks fuel data).
Proof.
  revert data. induction fuel as [|fuel IH]; intros [|x data] H; simpl; try by constructor.
  assert (64 <= length (x :: data))%nat as Hl.
  { apply Z.mod_divide in H as [q Hq]; [|lia]. simpl length in *. lia. }
  constructor.
  - change (length (take 64 (x :: data)) = 64%nat). rewrite length_take. lia.
  - apply IH. change (Z.of_nat (length (drop 64 (x :: data))) mod 64 = 0).
    rewrite length_drop. rewrite Nat2Z.inj_sub by done.
    rewrite Zminus_mod, H. reflexivity.
Qed.

Lemma round_length work kw : length (round work kw) = length work.
Proof. by destruct work as [|a [|b [|c [|d [|e [|f [|g [|h [|]]]]]]]]]. Qed.

Lemma rounds_length kws work : length (fold_left round kws work) = length work.
Proof.
  revert work. induction kws as [|kw kws IH]; intros; simpl; [done|].
  by rewrite IH, round_length.
Qed.

Lemma compress_length state block : length (compress state block) = length state.
Proof. unfold compress. rewrite length_zip_with, rounds_length. lia. Qed.

Lemma digest_length bytes : length (digest bytes) = 8%nat.
Proof.
  unfold digest. generalize (blocks (length (padded bytes)) (padded bytes)) as bs.
  assert (length initial_state = 8%nat) as H by reflexivity. revert H.
  generalize initial_state as st. intros st H bs. revert st H.
  induction bs as [|b bs IH]; intros; simpl; [done|]. by rewrite IH; rewrite ?compress_length.
Qed.

Lemma hex_of_word_length w : String.length (hex_of_word w) = 8%nat.
Proof. reflexivity. Qed.

Definition is_hex (c : ascii) : bool :=
  is_digit c || (97 <=? byte_of c) && (byte_of c <=? 102).

Lemma hex_digit_is_hex n : 0 <= n < 16 -> is_hex (hex_digit n) = true.
Proof.
  intros H. assert (n ∈ seqZ 0 16) as Hin by (apply elem_of_seqZ; lia).
  revert Hin. clear H. revert n. apply Forall_forall. vm_compute. repeat constructor.
Qed.

Lemma hex_of_word_is_hex w : forallb_char is_hex (hex_of_word w) = true.
Proof.
  unfold hex_of_word.
  generalize [28; 24; 20; 16; 12; 8; 4; 0] as shifts. intros shifts.
  induction shifts as [|k shifts IH]; [done|]. simpl map. simpl of_chars.
  rewrite forallb_char_cons, IH, andb_true_r. apply hex_digit_is_hex.
  change 15 with (Z.ones 4). rewrite Z.land_ones by lia. apply Z.mod_pos_bound. lia.
Qed.

Lemma concat_str_length {A} (f : A -> string) n l :
  (forall x, String.length (f x) = n) -> String.length (concat_str (map f l)) = (length l * n)%nat.
Proof.
  intros Hf. induction l as [|x l IH]; simpl; [done|].
  change (foldr String.append "" (map f l))%string with (concat_str (map f l)).
  by rewrite length_app_str, Hf, IH.
Qed.

Lemma concat_str_forallb {A} (p : ascii -> bool) (f : A -> string) l :
  (forall x, forallb_char p (f x) = true) -> forallb_char p (concat_str (map f l)) = true.
Proof.
  intros Hf. induction l as [|x l IH]; simpl; [done|].
  change (foldr String.append "" (map f l))%string with (concat_str (map f l)).
  by rewrite forallb_char_app, Hf, IH.
Qed.

Lemma sha256_length bytes : String.length (sha256 bytes) = 64%nat.
Proof.
  unfold sha256. rewrite (concat_str_length _ 8), digest_length; [done|apply hex_of_word_length].
Qed.

Lemma sha256_is_hex bytes : forallb_char is_hex (sha256 bytes) = true.
Proof. apply concat_str_forallb, hex_of_word_is_hex. Qed.
End lemmas.

(** The digest of the message "abc" given by FIPS 180-4. *)
Example sha256_abc :
  sha256 "abc" = "ba7816bf8f01cfea414140de5dae2223b00361a396177a9cb410ff61f20015ad"%string.
Proof. vm_compute. reflexivity. Qed.

(** [sha256] pads every message, of whatever length, to whole blocks of 64
    bytes that begin with the message and its end mark, splits the padded
    message into exactly those blocks losing no byte, and returns 64
    lower-case hexadecimal digits. *)
Theorem sha256_well_formed (bytes : string) (message : list Z) :
  (exists k, padded message = message ++ [128] ++ k) /\
  concat (blocks (length (padded message)) (padded message)) = padded message /\
  Forall (fun b => length b = 64%nat) (blocks (length (padded message)) (padded message)) /\
  String.length (sha256 bytes) = 64%nat /\
  forallb_char is_hex (sha256 bytes) = true.
Proof.
  split; [apply padded_prefix|]. split; [by apply blocks_concat|].
  split; [apply blocks_length, padded_length|].
  split; [apply sha256_length|apply sha256_is_hex].
Qed.
