(* ===== verification/Models.v ===== *)
(** Models: the immutable model views of modules/orm/model/views.cppm that
    capture reads.  A handle to a model is its schema and an index; a null
    pointer is [None]. *)
From S2P Require Import Prelude Foundation.
Local Open Scope N_scope.

Inductive FieldKind := Scalar | ToOne.
Inductive RelationKind := RelToOne | RelOneToMany | RelManyToMany.

#[export] Instance FieldKind_eq_dec : EqDecision FieldKind.
Proof. solve_decision. Defined.
#[export] Instance RelationKind_eq_dec : EqDecision RelationKind.
Proof. solve_decision. Defined.

(** [std::numeric_limits<std::size_t>::max()]. *)
Definition noTargetModel : N := 2 ^ 64 - 1.

Record ColumnView := MkColumnView {
  cv_fieldIndex : N;
  cv_fieldName : string;
  cv_name : string;
  cv_type : option ColumnType;
  cv_kind : FieldKind;
  cv_targetModelIndex : N;
  cv_isPrimaryKey : bool;
  cv_isAutoIncrement : bool;
  cv_isNotNull : bool;
  cv_maxStringLength : option N
}.

Record JunctionView := MkJunctionView {
  jv_tableName : string;
  jv_ownerColumns : list string;
  jv_targetColumns : list string;
  jv_owningSide : bool
}.

Definition isConfigured (j : JunctionView) : bool := negb (bool_decide (jv_tableName j = ""%string)).
Definition no_junction : JunctionView := MkJunctionView "" [] [] false.

Record RelationView := MkRelationView {
  rv_fieldIndex : N;
  rv_fieldName : string;
  rv_columnName : string;
  rv_kind : RelationKind;
  rv_mappedBy : string;
  rv_nullable : bool;
  rv_targetModelIndex : N;
  rv_junction : JunctionView
}.

Record ModelDataView := MkModelDataView {
  mv_schemaIndex : N;
  mv_typeName : string;
  mv_tableName : string;
  mv_columns : list ColumnView;
  mv_primaryKeyIndices : list N;
  mv_relations : list RelationView
}.

(** The pointers to a schema's models. *)
Definition SchemaView := list (option ModelDataView).

Record ModelView := MkModelView {
  mw_schema : option SchemaView;
  mw_modelIndex : N
}.

Definition no_model : ModelView := MkModelView None noTargetModel.

(** [operator->]: the model's data, null when the handle is not valid. *)
Definition arrow (m : ModelView) : option ModelDataView :=
  s ← mw_schema m; d ← nth_error s (N.to_nat (mw_modelIndex m)); d.

Definition valid (m : ModelView) : bool := bool_decide (is_Some (arrow m)).

(** [SchemaView::at]. *)
Definition at_index (s : SchemaView) (index : N) : ModelView :=
  MkModelView (Some s) (if index <? N.of_nat (length s) then index else noTargetModel).

Definition findColumn (m : ModelDataView) (fieldOrSqlName : string) : option ColumnView :=
  List.find (fun c => bool_decide (cv_fieldName c = fieldOrSqlName) || bool_decide (cv_name c = fieldOrSqlName))
    (mv_columns m).

Definition findRelationField (m : ModelDataView) (fieldName : string) : option RelationView :=
  find_by rv_fieldName fieldName (mv_relations m).

(** A relation's field name takes precedence over any relation's column name. *)
Definition findRelation (m : ModelDataView) (fieldOrSqlName : string) : option RelationView :=
  match findRelationField m fieldOrSqlName with
  | Some r => Some r
  | None => find_by rv_columnName fieldOrSqlName (mv_relations m)
  end.

Definition resolve_index (m : ModelView) (index : N) : ModelView :=
  match mw_schema m with Some s => at_index s index | None => no_model end.

Definition resolveColumnTarget (m : ModelView) (c : ColumnView) : ModelView :=
  if negb (valid m) || bool_decide (cv_kind c <> ToOne)
     || (cv_targetModelIndex c =? noTargetModel) then no_model
  else resolve_index m (cv_targetModelIndex c).

Definition resolveRelationTarget (m : ModelView) (r : RelationView) : ModelView :=
  if negb (valid m) || (rv_targetModelIndex r =? noTargetModel) then no_model
  else resolve_index m (rv_targetModelIndex r).

Definition resolveJunction (m : ModelView) (r : RelationView) : JunctionView :=
  if isConfigured (rv_junction r) then rv_junction r
  else if bool_decide (rv_kind r <> RelManyToMany) || bool_decide (rv_mappedBy r = ""%string)
  then no_junction
  else
    match d ← arrow (resolveRelationTarget m r); findRelationField d (rv_mappedBy r) with
    | Some owning =>
        if bool_decide (rv_kind owning <> RelManyToMany) || negb (isConfigured (rv_junction owning))
        then no_junction
        else
          let j := rv_junction owning in
          MkJunctionView (jv_tableName j) (jv_targetColumns j) (jv_ownerColumns j) false
    | None => no_junction
    end.

(** The non-owning side of a many-to-many relation sees its owner's junction
    table with the two endpoints' columns exchanged; it is never an owner. *)
Lemma resolveJunction_inverse m r d owning :
  rv_kind r = RelManyToMany -> isConfigured (rv_junction r) = false -> rv_mappedBy r <> ""%string ->
  arrow (resolveRelationTarget m r) = Some d ->
  findRelationField d (rv_mappedBy r) = Some owning ->
  rv_kind owning = RelManyToMany -> isConfigured (rv_junction owning) = true ->
  jv_tableName (resolveJunction m r) = jv_tableName (rv_junction owning) /\
  jv_ownerColumns (resolveJunction m r) = jv_targetColumns (rv_junction owning) /\
  jv_targetColumns (resolveJunction m r) = jv_ownerColumns (rv_junction owning) /\
  jv_owningSide (resolveJunction m r) = false.
Proof.
  intros Hk Hc Hm Ht Hf Hok Hoc. unfold resolveJunction.
  rewrite Hc, Hk, Ht. simpl. rewrite (bool_decide_false (rv_mappedBy r = _)) by done.
  simpl. by rewrite Hf, Hok, Hoc.
Qed.
