(* ===== verification/PhysicalSql.v ===== *)
(** PhysicalSql: the frozen SQL types, identifier quoting and [CREATE TABLE]
    rendering of src/migrations/SchemaSnapshot.cpp. *)
From S2P Require Import Prelude Foundation Chrono Values Codec Schema Sha256.
From Stdlib Require DecimalPos.
Local Open Scope string_scope.

(** [detail::backendName] of src/migrations/Catalog.cpp. *)
Definition backendName (b : BackendType) : res string :=
  match b with
  | Sqlite => Ok "sqlite"
  | Postgres => Ok "postgresql"
  | Mysql => Ok "mysql"
  | Mariadb => Ok "mariadb"
  | _ => Err (MigrationError UnsupportedBackend "Unsupported migration backend" 0 b None)
  end.

(** ** Refusals and names *)
Definition invalid {A} (message : string) (backend : BackendType) (path : string) : res A :=
  Err (GenerationError message [MkDiagnostic "invalid-snapshot" message path backend true]).

(** [if (refused) invalid(message, backend, path)]. *)
Definition invalid_if (refused : bool) (message : string) (backend : BackendType) (path : string) : res unit :=
  if refused then invalid message backend path else Ok tt.

Definition supported (b : BackendType) : bool := bool_decide (b ∈ generationBackends).

Definition requireBackend (b : BackendType) : res unit :=
  invalid_if (negb (supported b)) "Unsupported schema-generation backend" b "".

Definition family (b : BackendType) : bool := bool_decide (b = Mysql) || bool_decide (b = Mariadb).

Definition profile (b : BackendType) : res string :=
  requireBackend b ;;
  name ← backendName b;
  Ok ("orm-cxx-ddl-v1:" +:+ name).

Definition validName (name : string) : bool :=
  negb (bool_decide (name = "")) && negb (contains_char NUL name).

Definition maximumName (b : BackendType) (name : string) : N :=
  if bool_decide (b = Postgres) then 63 else if family b then 64 else size name.

Definition requireName (name : string) (b : BackendType) (path : string) : res unit :=
  invalid_if (negb (validName name)) "SQL identifiers must be nonempty and cannot contain NUL" b path ;;
  invalid_if (starts_with "__orm_" name)
    "SQL identifiers cannot use the generator's reserved __orm_ prefix" b path ;;
  invalid_if (maximumName b name <? size name)%N
    "SQL identifier exceeds the backend's supported identifier length" b path.

(** ** Constraint names *)
Definition appendToken (bytes value : string) : string :=
  bytes +:+ to_string (size value) +:+ ":" +:+ value.

Definition list_size {A} (l : list A) : N := N.of_nat (length l).

Definition constraintBytes (kind table : string) (columns : list string)
    (target : string) (targetColumns : list string) : string :=
  let bytes := appendToken "orm-cxx-constraint-v1:" kind in
  let bytes := appendToken bytes table in
  let bytes := appendToken bytes (to_string (list_size columns)) in
  let bytes := fold_left appendToken columns bytes in
  let bytes := appendToken bytes target in
  let bytes := appendToken bytes (to_string (list_size targetColumns)) in
  fold_left appendToken targetColumns bytes.

Definition constraintName (kind table : string) (columns : list string)
    (target : string) (targetColumns : list string) : string :=
  "orm_" +:+ kind +:+ "_" +:+ take_str 24 (sha256 (constraintBytes kind table columns target targetColumns)).

Definition tableOptions (b : BackendType) : string :=
  if negb (family b) then ""
  else "ENGINE=InnoDB DEFAULT CHARACTER SET utf8mb4 COLLATE " +:+
       (if bool_decide (b = Mysql) then "utf8mb4_0900_bin" else "utf8mb4_nopad_bin").

(** ** Indexes that support foreign keys *)
Definition supportsKey (indexColumns keyColumns : list string) : bool :=
  (length keyColumns <=? length indexColumns)%nat &&
  bool_decide (take (length keyColumns) indexColumns = keyColumns).

(** [std::vector<std::string>::operator<]. *)
Fixpoint columns_less (l k : list string) : bool :=
  match l, k with
  | _, [] => false
  | [], _ :: _ => true
  | x :: l, y :: k =>
      match String.compare x y with Lt => true | Gt => false | Eq => columns_less l k end
  end.

(** The comparator of [foreignKeyIndexes]: wider keys first. *)
Definition key_less (l r : PhysicalForeignKey) : bool :=
  let (m, n) := (length (fk_columns l), length (fk_columns r)) in
  if negb (m =? n)%nat then (n <? m)%nat else columns_less (fk_columns l) (fk_columns r).

Definition key_le (l r : PhysicalForeignKey) : Prop := key_less r l = false.
#[export] Instance key_le_dec l r : Decision (key_le l r).
Proof. unfold key_le. apply _. Defined.

Definition supported_by (t : PhysicalTable) (cs : list string) : bool :=
  supportsKey (primaryKey t) cs || existsb (fun i => supportsKey (index_columns i) cs) (indexes t).

Definition supportIndex (t : PhysicalTable) (k : PhysicalForeignKey) : PhysicalIndex :=
  MkIndex (constraintName "fkidx" (table_name t) (fk_columns k) "" []) (fk_columns k) false.

Definition add_support (t : PhysicalTable) (k : PhysicalForeignKey) : PhysicalTable :=
  if supported_by t (fk_columns k) then t
  else with_indexes t (indexes t ++ [supportIndex t k]).

Definition foreignKeyIndexes (t : PhysicalTable) : PhysicalTable :=
  fold_left add_support (merge_sort key_le (foreignKeys t)) t.

(** ** Frozen SQL types *)
Definition varchar (n : N) : string := "VARCHAR(" +:+ to_string n +:+ ")".

Definition familySqlType (b : BackendType) (t : ColumnType) (length : option N) : option string :=
  match t with
  | ColumnType.Bool => Some "TINYINT"
  | ColumnType.Char => Some "SMALLINT"
  | ColumnType.UnsignedChar => Some "TINYINT UNSIGNED"
  | ColumnType.Short => Some "SMALLINT"
  | ColumnType.UnsignedShort => Some "SMALLINT UNSIGNED"
  | ColumnType.Int => Some "INT"
  | ColumnType.UnsignedInt => Some "INT UNSIGNED"
  | ColumnType.LongLong => Some "BIGINT"
  | ColumnType.UnsignedLongLong => Some "BIGINT UNSIGNED"
  | ColumnType.Float | ColumnType.Double => Some "DOUBLE"
  | ColumnType.String => Some (match length with Some n => varchar n | None => "LONGTEXT" end)
  | ColumnType.Date => Some "DATE"
  | ColumnType.TimeOfDay => Some "TIME(6)"
  | ColumnType.LocalDateTime => Some "DATETIME(6)"
  | ColumnType.UtcTimestamp => Some "TIMESTAMP(6)"
  | ColumnType.Uuid => if bool_decide (b = Mariadb) then Some "UUID" else None
  end.

Definition sqliteSqlType (t : ColumnType) : option string :=
  match t with
  | ColumnType.Bool => Some "BOOLEAN"
  | ColumnType.Char | ColumnType.UnsignedChar => Some "TINYINT"
  | ColumnType.Short | ColumnType.UnsignedShort => Some "SMALLINT"
  | ColumnType.Int => Some "INTEGER"
  | ColumnType.UnsignedInt | ColumnType.UnsignedLongLong => Some "UNSIGNED BIG INT"
  | ColumnType.LongLong => Some "BIGINT"
  | ColumnType.Float | ColumnType.Double => Some "REAL"
  | ColumnType.String => Some "TEXT"
  | ColumnType.Date | ColumnType.TimeOfDay | ColumnType.LocalDateTime
  | ColumnType.UtcTimestamp | ColumnType.Uuid => None
  end.

Definition postgresSqlType (t : ColumnType) (length : option N) : string :=
  match t with
  | ColumnType.Bool => "BOOLEAN"
  | ColumnType.Char | ColumnType.UnsignedChar | ColumnType.Short => "SMALLINT"
  | ColumnType.UnsignedShort | ColumnType.Int => "INTEGER"
  | ColumnType.UnsignedInt | ColumnType.LongLong | ColumnType.UnsignedLongLong => "BIGINT"
  | ColumnType.Float | ColumnType.Double => "DOUBLE PRECISION"
  | ColumnType.String => match length with Some n => varchar n | None => "TEXT" end
  | ColumnType.Date => "DATE"
  | ColumnType.TimeOfDay => "TIME(6) WITHOUT TIME ZONE"
  | ColumnType.LocalDateTime => "TIMESTAMP(6) WITHOUT TIME ZONE"
  | ColumnType.UtcTimestamp => "TIMESTAMP(6) WITH TIME ZONE"
  | ColumnType.Uuid => "UUID"
  end.

(** [length && (type != String || *length == 0 || (family && *length > 16383))]. *)
Definition badLength (b : BackendType) (t : ColumnType) (length : option N) : bool :=
  match length with
  | Some n => bool_decide (t <> ColumnType.String) || (n =? 0)%N || family b && (16383 <? n)%N
  | None => false
  end.

Definition sqlType (b : BackendType) (t : ColumnType) (length : option N) : res string :=
  requireBackend b ;;
  invalid_if (badLength b t length) "String length is invalid for this column and backend" b "" ;;
  let type :=
    if family b then familySqlType b t length
    else if bool_decide (b = Sqlite) then sqliteSqlType t
    else Some (postgresSqlType t length) in
  match type with
  | Some s => Ok s
  | None => invalid "The logical column type has no supported physical SQL type" b ""
  end.

(** ** The grammar of frozen SQL types *)
Definition letter (c : ascii) : bool := is_upper c || is_lower c || bool_decide (c = "_"%char).
Definition letter_or_digit (c : ascii) : bool := letter c || is_digit c.

(** The longest prefix of characters in a class, and what follows it. *)
Fixpoint span_char (p : ascii -> bool) (s : string) : string * string :=
  match s with
  | "" => ("", "")
  | String c s' => if p c then (String c (span_char p s').1, (span_char p s').2) else ("", s)
  end.

Definition is_space (c : ascii) : bool := bool_decide (c = " "%char).
Definition spaces (s : string) : string := (span_char is_space s).2.

Definition head_is (p : ascii -> bool) (s : string) : bool :=
  match s with String c _ => p c | "" => false end.

(** The lambda [words]: appends upper-cased words to [name]; the fuel bounds the
    number of words. *)
Fixpoint words (fuel : nat) (name s : string) : string * string :=
  match fuel with
  | O => (name, s)
  | S fuel =>
      if head_is letter s then
        let name := if bool_decide (name = "") then name else name +:+ " " in
        let (word, rest) := span_char letter_or_digit s in
        let name := name +:+ map_char to_upper word in
        if bool_decide (spaces rest = rest) then (name, rest)
        else words fuel name (spaces rest)
      else (name, s)
  end.

(** The lambda [number]: digits surrounded by spaces. *)
Definition number (s : string) : option string :=
  let (digits, rest) := span_char is_digit (spaces s) in
  if bool_decide (digits = "") then None else Some (spaces rest).

(** The parenthesised precision: [None] refuses, [Some (name, rest)] continues. *)
Definition precision (fuel : nat) (name s : string) : option (string * string) :=
  match s with
  | String "("%char s =>
      s ← number s;
      s ← match s with String ","%char s => number s | _ => Some s end;
      match s with
      | String ")"%char s =>
          if bool_decide (spaces s = "") then Some (name, "")
          else if bool_decide (spaces s = s) then None
          else Some (words fuel name (spaces s))
      | _ => None
      end
  | _ => Some (name, s)
  end.

Definition forbidden : list string :=
  ["DEFAULT"; "CHECK"; "CONSTRAINT"; "PRIMARY"; "KEY"; "FOREIGN"; "REFERENCES"; "UNIQUE"; "NOT";
   "NULL"; "GENERATED"; "AS"; "STORED"; "VIRTUAL"; "NOTNULL"; "COLLATE"; "AUTOINCREMENT";
   "AUTO_INCREMENT"; "INDEX"].
Definition multiword : list string :=
  ["UNSIGNED BIG INT"; "DOUBLE PRECISION"; "BIG INT"; "CHARACTER VARYING"; "CHAR VARYING";
   "VARYING CHARACTER"; "NATIONAL CHARACTER"; "NATIONAL CHAR"; "NATIONAL CHARACTER VARYING";
   "NATIONAL CHAR VARYING"; "BIT VARYING"; "TIME WITHOUT TIME ZONE"; "TIME WITH TIME ZONE";
   "TIMESTAMP WITHOUT TIME ZONE"; "TIMESTAMP WITH TIME ZONE"].
Definition numeric : list string :=
  ["TINYINT"; "SMALLINT"; "MEDIUMINT"; "INT"; "INTEGER"; "BIGINT"; "DECIMAL"; "NUMERIC"; "FLOAT";
   "DOUBLE"; "DOUBLE PRECISION"; "REAL"].

(** [name] without a suffix it ends with. *)
Definition strip_suffix (suffix name : string) : option string :=
  if ends_with suffix name
  then Some (take_str (String.length name - String.length suffix) name) else None.

Definition validTypeName (name : string) : bool :=
  if bool_decide (name ∈ forbidden) then false
  else if negb (contains_char " " name) then true
  else if bool_decide (name ∈ multiword) then true
  else match strip_suffix " UNSIGNED" name with
       | Some base => bool_decide (base ∈ numeric)
       | None =>
           match strip_suffix " SIGNED" name with
           | Some base => bool_decide (base ∈ numeric)
           | None => false
           end
       end.

Definition validSqlType (type : string) : bool :=
  let fuel := S (String.length type) in
  let (name, s) := words fuel "" (spaces type) in
  if bool_decide (name = "") then false
  else match precision fuel name s with
       | Some (name, "") => validTypeName name
       | _ => false
       end.

(** ** Quoting *)
Definition columnNamed (t : PhysicalTable) (name : string) : option PhysicalColumn :=
  find_by col_name name (columns t).

Definition delimiter (b : BackendType) : ascii := if family b then "`"%char else DQUOTE.

(** The delimiter is doubled inside the quotes. *)
Definition double_char (d c : ascii) : string :=
  if bool_decide (c = d) then String c (String c "") else String c "".

Definition quoteIdentifier (b : BackendType) (name : string) : res string :=
  requireBackend b ;;
  invalid_if (negb (validName name)) "Cannot quote an empty or NUL-containing SQL identifier" b "" ;;
  let d := delimiter b in
  Ok (String d (concat_map (double_char d) name +:+ String d "")).

Definition quotedList (names : list string) (quote : string -> res string) : res string :=
  foldM (fun result name =>
    q ← quote name;
    Ok ((if bool_decide (result = "") then result else result +:+ ", ") +:+ q)) "" names.

Definition validAction (action : string) : bool :=
  bool_decide (action = "NO ACTION") || bool_decide (action = "RESTRICT")
  || bool_decide (action = "CASCADE") || bool_decide (action = "SET NULL").

Definition foreignKeySql (k : PhysicalForeignKey) (quote : string -> res string) : res string :=
  invalid_if (bool_decide (fk_columns k = [])
              || negb (length (fk_columns k) =? length (targetColumns k))%nat
              || negb (validAction (onDelete k)) || negb (validAction (onUpdate k)))
    "Invalid foreign-key shape or action" Empty "" ;;
  name ← quote (fk_name k);
  cs ← quotedList (fk_columns k) quote;
  target ← quote (targetTable k);
  ts ← quotedList (targetColumns k) quote;
  Ok ("CONSTRAINT " +:+ name +:+ " FOREIGN KEY (" +:+ cs +:+ ") REFERENCES " +:+ target
      +:+ " (" +:+ ts +:+ ")"
      +:+ (if bool_decide (onDelete k = "NO ACTION") then "" else " ON DELETE " +:+ onDelete k)
      +:+ (if bool_decide (onUpdate k = "NO ACTION") then "" else " ON UPDATE " +:+ onUpdate k)).

(** ** Columns and tables *)
Definition renderColumn (b : BackendType) (c : PhysicalColumn) (inlinePrimary : bool)
    (primaryName : string) : res string :=
  requireBackend b ;;
  invalid_if (negb (validSqlType (sqlType_of c))) "Invalid frozen SQL column type" b (col_name c) ;;
  name ← quoteIdentifier b (col_name c);
  let result := name +:+ " " +:+ sqlType_of c in
  result ←
    (if autoIncrement c then
       invalid_if (nullable c || bool_decide (logicalType c <> ColumnType.Int))
         "Auto increment requires a non-null integer column" b (col_name c) ;;
       let result :=
         if bool_decide (b = Postgres) then result +:+ " GENERATED BY DEFAULT AS IDENTITY"
         else if family b then result +:+ " NOT NULL AUTO_INCREMENT" else result in
       invalid_if (bool_decide (b = Sqlite) && negb inlinePrimary)
         "SQLite auto increment must be rendered as an inline primary key" b (col_name c) ;;
       Ok result
     else Ok result);
  let result :=
    if negb (nullable c) && negb (autoIncrement c && (family b || bool_decide (b = Sqlite)))
    then result +:+ " NOT NULL" else result in
  let result :=
    if nullable c && family b && bool_decide (logicalType c = ColumnType.UtcTimestamp)
    then result +:+ " NULL" else result in
  result ←
    (if inlinePrimary then
       result ←
         (if negb (bool_decide (primaryName = "")) && negb (bool_decide (primaryName = "PRIMARY"))
          then q ← quoteIdentifier b primaryName; Ok (result +:+ " CONSTRAINT " +:+ q)
          else Ok result);
       let result := result +:+ " PRIMARY KEY" in
       Ok (if autoIncrement c && bool_decide (b = Sqlite) then result +:+ " AUTOINCREMENT" else result)
     else Ok result);
  Ok (match maxStringLength c with
      | Some n =>
          if bool_decide (b = Sqlite)
          then result +:+ " CHECK (length(replace(" +:+ name +:+ ", char(0), char(1))) <= " +:+ to_string n +:+ ")"
          else result
      | None => result
      end).

Definition badAutoIncrement (t : PhysicalTable) (c : PhysicalColumn) : bool :=
  autoIncrement c &&
  (nullable c || negb (length (primaryKey t) =? 1)%nat
   || bool_decide (head (primaryKey t) <> Some (col_name c))
   || bool_decide (logicalType c <> ColumnType.Int)).

Definition indexDefinition (quote : string -> res string) (i : PhysicalIndex) : res string :=
  name ← quote (index_name i);
  cs ← quotedList (index_columns i) quote;
  Ok ((if unique i then "UNIQUE INDEX " else "INDEX ") +:+ name +:+ " (" +:+ cs +:+ ")").

Definition primaryDefinition (t : PhysicalTable) (quote : string -> res string) : res string :=
  named ← (if bool_decide (primaryKeyName t = "PRIMARY") then Ok ""
           else q ← quote (primaryKeyName t); Ok ("CONSTRAINT " +:+ q +:+ " "));
  cs ← quotedList (primaryKey t) quote;
  Ok (named +:+ "PRIMARY KEY (" +:+ cs +:+ ")").

(** The loop over the definitions: a tab before each, a comma after all but the last. *)
Fixpoint definitionLines (definitions : list string) : string :=
  match definitions with
  | [] => ""
  | [d] => String (ascii_of_nat 9) d
  | d :: ds => String (ascii_of_nat 9) d +:+ "," +:+ newline +:+ definitionLines ds
  end.

Definition createTableSql (t : PhysicalTable) (prefix suffix : string)
    (includeForeignKeys inlineIndexes : bool) (quote : string -> res string)
    (columnSql : PhysicalColumn -> bool -> string -> res string) : res string :=
  invalid_if (bool_decide (columns t = [])) "Physical tables must contain at least one column" Empty "" ;;
  definitions ← mapM (fun c =>
    invalid_if (badAutoIncrement t c)
      "Auto increment requires the table's single non-null integer primary key" Empty "" ;;
    columnSql c (autoIncrement c) (primaryKeyName t)) (columns t);
  let inlinePrimary := existsb autoIncrement (columns t) in
  primary ← (if negb (bool_decide (primaryKey t = [])) && negb inlinePrimary
             then d ← primaryDefinition t quote; Ok [d] else Ok []);
  ixs ← (if inlineIndexes then mapM (indexDefinition quote) (indexes t) else Ok []);
  keys ← (if includeForeignKeys then mapM (fun k => foreignKeySql k quote) (foreignKeys t) else Ok []);
  Ok (prefix +:+ newline +:+ definitionLines (definitions ++ primary ++ ixs ++ keys) +:+ suffix).

Definition renderForeignKey (b : BackendType) (k : PhysicalForeignKey) : res string :=
  requireBackend b ;; foreignKeySql k (quoteIdentifier b).

Definition renderCreateTable (b : BackendType) (t : PhysicalTable)
    (includeForeignKeys ifNotExists : bool) : res string :=
  requireBackend b ;;
  name ← quoteIdentifier b (table_name t);
  let prefix := "CREATE TABLE " +:+ (if ifNotExists then "IF NOT EXISTS " else "") +:+ name +:+ " (" in
  let suffix := newline +:+ ")" +:+ (if bool_decide (options t = "") then "" else " " +:+ options t) +:+ ";" in
  createTableSql t prefix suffix includeForeignKeys (family b) (quoteIdentifier b) (renderColumn b).

(** ** Properties of refusals *)
Section refusals.
Lemma invalid_if_Ok_iff c m b p u : invalid_if c m b p = Ok u <-> c = false.
Proof. destruct c, u; unfold invalid_if, invalid; naive_solver. Qed.

Lemma supported_true b : supported b = true <-> b ∈ generationBackends.
Proof. unfold supported. by rewrite bool_decide_eq_true. Qed.

Lemma requireBackend_Ok_iff b u : requireBackend b = Ok u <-> supported b = true.
Proof. unfold requireBackend. rewrite invalid_if_Ok_iff. by rewrite negb_false_iff. Qed.

Lemma supported_backendName b : supported b = true <-> is_ok (backendName b) = true.
Proof. by destruct b. Qed.

Lemma backendName_inj b c n : backendName b = Ok n -> backendName c = Ok n -> b = c.
Proof. destruct b, c; simpl; congruence. Qed.
End refusals.

Ltac result_inv ::=
  repeat match goal with
  | H : (_ ≫= _) = Ok _ |- _ =>
      let a := fresh "a" in let Ha := fresh "Hok" in
      apply bind_Ok_iff in H as (a & Ha & H)
  | H : throw_if _ _ = Ok ?u |- _ => apply throw_if_Ok_iff in H; try clear u
  | H : invalid_if _ _ _ _ = Ok ?u |- _ => apply invalid_if_Ok_iff in H; try clear u
  | H : requireBackend _ = Ok ?u |- _ => apply requireBackend_Ok_iff in H; try clear u
  | H : or_throw _ _ = Ok _ |- _ => apply or_throw_Ok_iff in H
  | H : Ok _ = Ok _ |- _ => injection H as H
  | H : Err _ = Ok _ |- _ => discriminate H
  | H : invalid _ _ _ = Ok _ |- _ => discriminate H
  | H : mret _ = Ok _ |- _ => unfold mret, result_ret in H
  end.

(** ** Properties of the type grammar *)

(** The characters a frozen type may hold. *)
Definition type_char (c : ascii) : bool :=
  letter_or_digit c || is_space c || bool_decide (c = "("%char) || bool_decide (c = ")"%char)
  || bool_decide (c = ","%char).

(** [consumes p s rest]: scanning moved from [s] to its suffix [rest] over
    characters of the class [p]. *)
Definition consumes (p : ascii -> bool) (s rest : string) : Prop :=
  exists pre, s = pre +:+ rest /\ forallb_char p pre = true.

Section grammar.
Lemma consumes_refl p s : consumes p s s.
Proof. by exists "". Qed.

Lemma consumes_trans p s t u : consumes p s t -> consumes p t u -> consumes p s u.
Proof.
  intros (x & -> & Hx) (y & -> & Hy). exists (x +:+ y).
  by rewrite app_str_assoc, forallb_char_app, Hx, Hy.
Qed.

Lemma consumes_cons p c s : p c = true -> consumes p (String c s) s.
Proof. exists (String c ""). by rewrite forallb_char_cons, H. Qed.

Lemma consumes_weaken (p q : ascii -> bool) s t :
  (forall c, p c = true -> q c = true) -> consumes p s t -> consumes q s t.
Proof.
  intros Hpq (x & -> & Hx). exists x. split; [done|].
  induction x as [|c x IH]; [done|]. rewrite forallb_char_cons in *.
  bool_to_prop. by rewrite Hpq, IH.
Qed.

Lemma span_char_spec p s : s = (span_char p s).1 +:+ (span_char p s).2 /\
  forallb_char p (span_char p s).1 = true /\ head_is p (span_char p s).2 = false.
Proof.
  induction s as [|c s (IHs & IHp & IHh)]; simpl; [done|].
  destruct (p c) eqn:Hc; simpl; [|done]. rewrite <- IHs.
  by rewrite forallb_char_cons, Hc, IHp.
Qed.

Lemma span_char_consumes p s : consumes p s (span_char p s).2.
Proof. destruct (span_char_spec p s) as (H & ? & _). by exists (span_char p s).1. Qed.

Lemma type_char_space c : is_space c = true -> type_char c = true.
Proof. unfold type_char. intros ->. by destruct (letter_or_digit c). Qed.
Lemma type_char_word c : letter_or_digit c = true -> type_char c = true.
Proof. unfold type_char. by intros ->. Qed.
Lemma type_char_digit c : is_digit c = true -> type_char c = true.
Proof. intros H. apply type_char_word. unfold letter_or_digit. rewrite H. apply orb_true_r. Qed.

Lemma spaces_consumes s : consumes type_char s (spaces s).
Proof. eapply consumes_weaken; [exact type_char_space|apply span_char_consumes]. Qed.

Lemma words_consumes fuel name s name' rest :
  words fuel name s = (name', rest) -> consumes type_char s rest.
Proof.
  revert name s. induction fuel as [|fuel IH]; intros name s; simpl.
  { intros [= _ ->]. apply consumes_refl. }
  destruct (head_is letter s); [|intros [= _ ->]; apply consumes_refl].
  pose proof (span_char_consumes letter_or_digit s) as Hw.
  apply (consumes_weaken _ _ _ _ type_char_word) in Hw.
  destruct (span_char letter_or_digit s) as [word rest']. simpl in Hw.
  case_bool_decide; [by intros [= _ ->]|].
  intros H'%IH. eapply consumes_trans; [exact Hw|].
  eapply consumes_trans; [apply spaces_consumes|done].
Qed.

Lemma number_consumes s rest : number s = Some rest -> consumes type_char s rest.
Proof.
  unfold number. pose proof (span_char_consumes is_digit (spaces s)) as Hd.
  apply (consumes_weaken _ _ _ _ type_char_digit) in Hd.
  destruct (span_char is_digit (spaces s)) as [digits r]. simpl in Hd.
  case_bool_decide; [done|]. intros [= <-].
  eapply consumes_trans; [apply spaces_consumes|].
  eapply consumes_trans; [exact Hd|apply spaces_consumes].
Qed.

Lemma comma_consumes s rest :
  match s with String ","%char s => number s | _ => Some s end = Some rest -> consumes type_char s rest.
Proof.
  destruct s as [|c s]; [by intros [= ->]; apply consumes_refl|].
  assert (Some (String c s) = Some rest -> consumes type_char (String c s) rest) as Hother.
  { intros [= <-]. apply consumes_refl. }
  destruct (decide (c = ","%char)) as [->|Hc].
  - intros H%number_consumes. eapply consumes_trans; [by apply consumes_cons|done].
  - destruct c as [[] [] [] [] [] [] [] []]; done.
Qed.

Lemma precision_consumes fuel name s name' rest :
  precision fuel name s = Some (name', rest) -> consumes type_char s rest.
Proof.
  unfold precision. destruct s as [|c s]; [by intros [= _ <-]; apply consumes_refl|].
  destruct (decide (c = "("%char)) as [->|Hc];
    [|destruct c as [[] [] [] [] [] [] [] []]; try (by destruct Hc); intros [= _ <-]; apply consumes_refl].
  intros H. apply bind_Some in H as (s1 & H1%number_consumes & H).
  apply bind_Some in H as (s2 & H2%comma_consumes & H).
  eapply consumes_trans; [by apply consumes_cons|].
  eapply consumes_trans; [exact H1|]. eapply consumes_trans; [exact H2|]. clear H1 H2.
  destruct s2 as [|d s2]; [done|].
  destruct (decide (d = ")"%char)) as [->|Hd];
    [|destruct d as [[] [] [] [] [] [] [] []]; done].
  eapply consumes_trans; [by apply consumes_cons|].
  eapply consumes_trans; [apply spaces_consumes|].
  case_bool_decide as He; [injection H as _ <-; rewrite He; apply consumes_refl|].
  case_bool_decide; [done|]. injection H as H. by eapply words_consumes.
Qed.

Lemma validSqlType_chars s : validSqlType s = true -> forallb_char type_char s = true.
Proof.
  unfold validSqlType. pose proof (spaces_consumes s) as Hs.
  destruct (words _ _ _) as [name r] eqn:Hw. apply words_consumes in Hw.
  case_bool_decide; [done|].
  destruct (precision _ _ _) as [[name' r']|] eqn:Hp; [|done]. apply precision_consumes in Hp.
  destruct r'; [|done]. intros _.
  assert (consumes type_char s "") as (pre & -> & Hpre).
  { eapply consumes_trans; [exact Hs|]. by eapply consumes_trans. }
  by rewrite app_str_nil_r.
Qed.
End grammar.

(** ** Properties of the type table *)
Section types.
Lemma span_char_app p w r :
  forallb_char p w = true -> head_is p r = false -> span_char p (w +:+ r) = (w, r).
Proof.
  induction w as [|c w IH]; simpl; intros Hw Hr.
  - destruct r as [|c r]; [done|]. simpl in *. by rewrite Hr.
  - rewrite forallb_char_cons in Hw. bool_to_prop. rewrite H. by rewrite IH.
Qed.

Lemma spaces_none s : head_is is_space s = false -> spaces s = s.
Proof. destruct s as [|c s]; [done|]. unfold spaces. simpl. by intros ->. Qed.

Lemma words_single fuel w r :
  forallb_char letter_or_digit w = true -> head_is letter (w +:+ r) = true ->
  head_is letter_or_digit r = false -> head_is is_space r = false ->
  words (S fuel) "" (w +:+ r) = (map_char to_upper w, r).
Proof.
  intros Hw Hl Hr Hs. cbn [words]. rewrite Hl. rewrite span_char_app by done.
  rewrite (spaces_none r) by done. rewrite (bool_decide_true ("" = "")) by done.
  by rewrite (bool_decide_true (r = r)) by done.
Qed.

Lemma number_digits d r :
  d <> "" -> forallb_char is_digit d = true -> head_is is_digit r = false ->
  head_is is_space r = false -> number (d +:+ r) = Some r.
Proof.
  intros Hd Hdig Hr Hs. unfold number.
  assert (head_is is_space (d +:+ r) = false) as Hsp.
  { destruct d as [|c d]; [done|]. rewrite forallb_char_cons in Hdig. bool_to_prop.
    simpl. unfold is_space. case_bool_decide; [by subst|done]. }
  rewrite spaces_none by done. rewrite span_char_app by done.
  rewrite bool_decide_false by done. by rewrite spaces_none.
Qed.

Lemma to_string_nonempty n : to_string n <> "".
Proof.
  unfold to_string, N.to_uint. intros H. destruct n as [|p]; [done|].
  pose proof (DecimalPos.Unsigned.to_uint_nonnil p). by destruct (Pos.to_uint p).
Qed.

Lemma varchar_valid n : validSqlType (varchar n) = true.
Proof.
  unfold validSqlType, varchar.
  change ("VARCHAR(" +:+ to_string n +:+ ")") with ("VARCHAR" +:+ ("(" +:+ to_string n +:+ ")")).
  rewrite (spaces_none (_ +:+ _)) by done. rewrite words_single by done.
  change ("(" +:+ to_string n +:+ ")") with (String "("%char (to_string n +:+ ")")).
  rewrite bool_decide_false by done. unfold precision.
  rewrite number_digits by first [done | apply to_string_nonempty | apply to_string_digits].
  reflexivity.
Qed.

(** Whether a backend has a physical type for a logical type. *)
Definition hasSqlType (b : BackendType) (t : ColumnType) : bool :=
  match b with
  | Postgres | Mariadb => true
  | Mysql => negb (bool_decide (t = ColumnType.Uuid))
  | Sqlite => (ColumnType.number t <? 12)%Z
  | _ => false
  end.

Lemma sqlType_is_ok b t l : is_ok (sqlType b t l) = hasSqlType b t && negb (badLength b t l).
Proof.
  unfold sqlType, requireBackend.
  destruct (badLength b t l); [destruct b, t; reflexivity|]. rewrite andb_true_r.
  destruct b, t; reflexivity.
Qed.

Lemma sqlType_validSqlType b t l s : sqlType b t l = Ok s -> validSqlType s = true.
Proof.
  unfold sqlType. intros H. result_inv. clear Hok Hok0.
  destruct (family b) eqn:Hf; [|destruct (bool_decide (b = Sqlite))].
  - destruct t; simpl in H; try (injection H as <-; reflexivity).
    + injection H as <-. destruct l; [apply varchar_valid|reflexivity].
    + destruct (bool_decide (b = Mariadb)); [by injection H as <-|done].
  - by destruct t; simpl in H; try discriminate H; injection H as <-.
  - destruct t; simpl in H; injection H as <-; try reflexivity.
    destruct l; [apply varchar_valid|reflexivity].
Qed.
End types.

(** ** Properties of foreign-key indexes *)
Section indexes.
Lemma supportsKey_spec ix ks : supportsKey ix ks = true <-> ks `prefix_of` ix.
Proof.
  unfold supportsKey. rewrite andb_true_iff, Nat.leb_le, bool_decide_eq_true. split.
  - intros [_ H]. exists (drop (length ks) ix). by rewrite <- H at 1; rewrite take_drop.
  - intros [k ->]. rewrite length_app. split; [lia|]. by rewrite take_app_length.
Qed.

Lemma supported_by_app t ixs cs :
  supported_by t cs = true -> supported_by (with_indexes t (indexes t ++ ixs)%list) cs = true.
Proof.
  unfold supported_by. simpl. rewrite existsb_app. intros [->| ->]%orb_true_iff; [done|].
  by rewrite orb_true_r.
Qed.

(** The table with some more indexes. *)
Definition extends (t u : PhysicalTable) (ixs : list PhysicalIndex) : Prop :=
  u = with_indexes t (indexes t ++ ixs)%list.

Lemma extends_refl t : extends t t [].
Proof. unfold extends, with_indexes. rewrite app_nil_r. by destruct t. Qed.

Lemma add_supports_extends keys t :
  exists ixs, extends t (fold_left add_support keys t) ixs /\
    (forall i, i ∈ ixs -> exists k, k ∈ keys /\ i = supportIndex t k) /\
    (forall k, k ∈ keys -> supported_by (fold_left add_support keys t) (fk_columns k) = true).
Proof.
  revert t. induction keys as [|k keys IH]; intros t; simpl.
  { exists []. split; [apply extends_refl|]. split; intros ? []%not_elem_of_nil. }
  destruct (IH (add_support t k)) as (ixs & He & Hi & Hs).
  assert (exists new, extends t (add_support t k) new /\
            (forall i, i ∈ new -> i = supportIndex t k) /\
            supported_by (add_support t k) (fk_columns k) = true) as (new & Hn & Hnew & Hk).
  { unfold add_support. destruct (supported_by t (fk_columns k)) eqn:Hk.
    - exists []. split; [apply extends_refl|]. split; [by intros ? []%not_elem_of_nil|done].
    - exists [supportIndex t k]. split; [done|].
      split; [by intros i ->%list_elem_of_singleton|].
      unfold supported_by. simpl. rewrite existsb_app. simpl.
      assert (supportsKey (fk_columns k) (fk_columns k) = true) as -> by (by apply supportsKey_spec).
      by rewrite !orb_true_r. }
  exists (new ++ ixs)%list. unfold extends in *.
  split; [rewrite He, Hn; destruct t; simpl; by rewrite app_assoc|]. split.
  - intros i [Hin|Hin]%elem_of_app.
    + exists k. split; [left|by apply Hnew].
    + destruct (Hi i Hin) as (k' & Hk' & ->). exists k'. split; [by right|].
      rewrite Hn. by destruct t.
  - intros k' [->|Hk']%elem_of_cons; [|by apply Hs].
    rewrite He. by apply supported_by_app.
Qed.

Lemma foreignKeyIndexes_supports t k :
  k ∈ foreignKeys t -> supported_by (foreignKeyIndexes t) (fk_columns k) = true.
Proof.
  intros Hk. unfold foreignKeyIndexes.
  destruct (add_supports_extends (merge_sort key_le (foreignKeys t)) t) as (_ & _ & _ & H).
  apply H. by rewrite merge_sort_Permutation.
Qed.

Lemma foreignKeyIndexes_extends t :
  exists ixs, extends t (foreignKeyIndexes t) ixs /\
    (forall i, i ∈ ixs -> exists k, k ∈ foreignKeys t /\ i = supportIndex t k).
Proof.
  destruct (add_supports_extends (merge_sort key_le (foreignKeys t)) t) as (ixs & He & Hi & _).
  exists ixs. split; [done|]. intros i (k & Hk & ->)%Hi. exists k. split; [|done].
  by rewrite merge_sort_Permutation in Hk.
Qed.

Lemma add_supports_id keys t :
  (forall k, k ∈ keys -> supported_by t (fk_columns k) = true) -> fold_left add_support keys t = t.
Proof.
  induction keys as [|k keys IH]; intros H; simpl; [done|].
  unfold add_support at 2. rewrite (H k) by left. apply IH. intros k' Hk'. apply H. by right.
Qed.

Lemma foreignKeyIndexes_id t :
  (forall k, k ∈ foreignKeys t -> supported_by t (fk_columns k) = true) -> foreignKeyIndexes t = t.
Proof.
  intros H. apply add_supports_id. intros k Hk. apply H. by rewrite merge_sort_Permutation in Hk.
Qed.
End indexes.

(** ** Properties of quoting and of constraint names *)

(** How SQL reads a quoted identifier after its opening delimiter: a doubled
    delimiter stands for one, a single one ends the identifier. *)
Fixpoint read_quoted (d : ascii) (s : string) : option (string * string) :=
  match s with
  | "" => None
  | String c s1 =>
      if bool_decide (c = d) then
        match s1 with
        | String e s2 =>
            if bool_decide (e = d)
            then '(name, rest) ← read_quoted d s2; Some (String d name, rest)
            else Some ("", s1)
        | "" => Some ("", "")
        end
      else '(name, rest) ← read_quoted d s1; Some (String c name, rest)
  end.

Definition read_identifier (d : ascii) (s : string) : option (string * string) :=
  match s with
  | String c s => if bool_decide (c = d) then read_quoted d s else None
  | "" => None
  end.

Section quoting.
Lemma read_quoted_concat_map d name rest :
  head_is (fun c => bool_decide (c = d)) rest = false ->
  read_quoted d (concat_map (double_char d) name +:+ String d rest) = Some (name, rest).
Proof.
  intros Hrest. induction name as [|c name IH]; simpl.
  - rewrite bool_decide_true by done. destruct rest as [|e rest]; [done|].
    simpl in Hrest. by rewrite Hrest.
  - unfold double_char at 1. case_bool_decide as Hc; simpl.
    + subst c. by rewrite !bool_decide_true, IH.
    + by rewrite bool_decide_false, IH.
Qed.

Lemma quoteIdentifier_Ok_iff b name q :
  quoteIdentifier b name = Ok q <->
  supported b = true /\ validName name = true /\
  q = String (delimiter b) (concat_map (double_char (delimiter b)) name +:+ String (delimiter b) "").
Proof.
  unfold quoteIdentifier. split.
  - intros H. result_inv. bool_to_prop. by subst.
  - intros (Hb & Hn & ->). unfold requireBackend. by rewrite Hb, Hn.
Qed.

Lemma quoteIdentifier_ok b name :
  is_ok (quoteIdentifier b name) = supported b && validName name.
Proof. unfold quoteIdentifier, requireBackend. by destruct (supported b), (validName name). Qed.

(** A sequence of tokens of a known length determines the tokens. *)
Lemma appendToken_sized bytes v : appendToken bytes v = bytes +:+ sized v.
Proof. done. Qed.

Lemma fold_appendToken l bytes :
  fold_left appendToken l bytes = bytes +:+ concat_str (map sized l).
Proof.
  revert bytes. induction l as [|x l IH]; intros bytes; simpl; [by rewrite app_str_nil_r|].
  by rewrite IH, appendToken_sized, app_str_assoc.
Qed.

Lemma concat_sized_inj l k s t :
  length l = length k -> concat_str (map sized l) +:+ s = concat_str (map sized k) +:+ t ->
  l = k /\ s = t.
Proof.
  revert k. induction l as [|x l IH]; intros [|y k]; try done. intros [= Hl].
  simpl. change (foldr String.append "" ?z) with (concat_str z).
  rewrite !app_str_assoc. intros H. apply sized_inj in H as [-> H].
  apply IH in H as [-> ->]; done.
Qed.

Lemma constraintBytes_eq kind table cs target ts :
  constraintBytes kind table cs target ts =
  "orm-cxx-constraint-v1:" +:+ sized kind +:+ sized table +:+ sized (to_string (list_size cs))
    +:+ concat_str (map sized cs) +:+ sized target +:+ sized (to_string (list_size ts))
    +:+ concat_str (map sized ts).
Proof. unfold constraintBytes. by rewrite !fold_appendToken, !appendToken_sized, !app_str_assoc. Qed.

Lemma constraintBytes_injective kind table cs target ts kind' table' cs' target' ts' :
  constraintBytes kind table cs target ts = constraintBytes kind' table' cs' target' ts' ->
  kind = kind' /\ table = table' /\ cs = cs' /\ target = target' /\ ts = ts'.
Proof.
  rewrite !constraintBytes_eq. intros H. apply app_str_inj_length in H as [_ H]; [|done].
  apply sized_inj in H as [-> H]. apply sized_inj in H as [-> H].
  apply sized_inj in H as [Hn H]. apply to_string_inj in Hn.
  apply concat_sized_inj in H as [-> H]; [|unfold list_size in Hn; lia].
  apply sized_inj in H as [-> H]. apply sized_inj in H as [Hm H]. apply to_string_inj in Hm.
  assert (concat_str (map sized ts) +:+ "" = concat_str (map sized ts') +:+ "") as H'.
  { by rewrite !app_str_nil_r. }
  apply concat_sized_inj in H' as [-> _]; [done|unfold list_size in Hm; lia].
Qed.

Lemma take_str_length n s : String.length (take_str n s) = n `min` String.length s.
Proof. revert s. induction n; intros [|c s]; simpl; auto. Qed.

Lemma constraintName_length kind table cs target ts :
  size (constraintName kind table cs target ts) = (29 + size kind)%N.
Proof.
  unfold constraintName. rewrite !size_app. unfold size at 4.
  rewrite take_str_length, sha256_length. unfold size. simpl. lia.
Qed.
End quoting.

(** ** Rendering succeeds on well-formed tables *)
Section rendering.
Context (b : BackendType) (Hb : supported b = true).

Lemma quoted_is_ok name : validName name = true -> exists q, quoteIdentifier b name = Ok q.
Proof. intros Hn. eexists. by apply quoteIdentifier_Ok_iff. Qed.

Lemma quotedList_is_ok names :
  Forall (fun n => validName n = true) names -> exists q, quotedList names (quoteIdentifier b) = Ok q.
Proof.
  rewrite Forall_forall. intros H. apply foldM_is_ok. intros s n Hn.
  destruct (quoted_is_ok n (H n Hn)) as [q ->]. by eexists.
Qed.

Definition wf_foreignKey (k : PhysicalForeignKey) : Prop :=
  validName (fk_name k) = true /\ validName (targetTable k) = true /\
  fk_columns k <> [] /\ length (fk_columns k) = length (targetColumns k) /\
  validAction (onDelete k) = true /\ validAction (onUpdate k) = true /\
  Forall (fun n => validName n = true) (fk_columns k) /\
  Forall (fun n => validName n = true) (targetColumns k).

Lemma foreignKeySql_is_ok k : wf_foreignKey k -> exists s, foreignKeySql k (quoteIdentifier b) = Ok s.
Proof.
  intros (Hn & Ht & Hc & Hl & Hd & Hu & Hcs & Hts). unfold foreignKeySql.
  rewrite (bool_decide_false (fk_columns k = [])) by done. rewrite Hl, Nat.eqb_refl, Hd, Hu. simpl.
  destruct (quoted_is_ok _ Hn) as [n ->], (quotedList_is_ok _ Hcs) as [cs ->],
    (quoted_is_ok _ Ht) as [t ->], (quotedList_is_ok _ Hts) as [ts ->].
  by eexists.
Qed.

Definition wf_column (t : PhysicalTable) (c : PhysicalColumn) : Prop :=
  validName (col_name c) = true /\ validSqlType (sqlType_of c) = true /\
  badAutoIncrement t c = false.

Lemma renderColumn_is_ok t c :
  wf_column t c -> validName (primaryKeyName t) = true \/ primaryKeyName t = "" ->
  exists s, renderColumn b c (autoIncrement c) (primaryKeyName t) = Ok s.
Proof.
  intros (Hn & Hs & Ha) Hp. unfold renderColumn, requireBackend. rewrite Hb, Hs.
  destruct (quoted_is_ok _ Hn) as [q ->]. cbn [negb invalid_if]. rewrite !bind_Ok.
  destruct (autoIncrement c) eqn:Hauto; [|by eexists].
  unfold badAutoIncrement in Ha. rewrite Hauto in Ha. simpl in Ha.
  apply orb_false_iff in Ha as [[[Hnull _]%orb_false_iff _]%orb_false_iff Hint].
  rewrite Hnull, Hint. simpl. rewrite andb_false_r. simpl.
  destruct Hp as [Hp|Hp]; [destruct (quoted_is_ok _ Hp) as [p ->]|rewrite Hp];
    repeat case_bool_decide; simpl; first [done | by eexists].
Qed.

(** What makes a table renderable. *)
Definition wf_table (t : PhysicalTable) : Prop :=
  validName (table_name t) = true /\ columns t <> [] /\
  Forall (wf_column t) (columns t) /\
  (primaryKey t = [] \/ validName (primaryKeyName t) = true) /\
  (validName (primaryKeyName t) = true \/ primaryKeyName t = "") /\
  Forall (fun n => validName n = true) (primaryKey t) /\
  Forall (fun i => validName (index_name i) = true /\
                   Forall (fun n => validName n = true) (index_columns i)) (indexes t) /\
  Forall wf_foreignKey (foreignKeys t).

Lemma renderCreateTable_is_ok t fks ine :
  wf_table t -> exists s, renderCreateTable b t fks ine = Ok s.
Proof.
  intros (Hn & Hc & Hcols & Hpk & Hpn & Hpks & Hix & Hfk).
  unfold renderCreateTable, requireBackend. rewrite Hb.
  destruct (quoted_is_ok _ Hn) as [n ->]. simpl. unfold createTableSql.
  rewrite (bool_decide_false (columns t = [])) by done. simpl.
  destruct (mapM_is_ok (fun c =>
    invalid_if (badAutoIncrement t c)
      "Auto increment requires the table's single non-null integer primary key" Empty "" ;;
    renderColumn b c (autoIncrement c) (primaryKeyName t)) (columns t)) as [ds ->].
  { eapply Forall_impl; [exact Hcols|]. intros c Hwc. simpl. destruct (Hwc) as (_ & _ & ->). simpl.
    by apply renderColumn_is_ok. }
  simpl.
  assert (exists p, (if negb (bool_decide (primaryKey t = [])) && negb (existsb autoIncrement (columns t))
    then d ← primaryDefinition t (quoteIdentifier b); Ok [d] else Ok []) = Ok (E := exn) p) as [p ->].
  { case_bool_decide as Hp; simpl; [by eexists|]. destruct (existsb _ _); simpl; [by eexists|].
    destruct Hpk as [|Hpk]; [done|]. unfold primaryDefinition.
    destruct (quoted_is_ok _ Hpk) as [q ->], (quotedList_is_ok _ Hpks) as [qs ->].
    case_bool_decide; simpl; by eexists. }
  assert (exists i, (if family b then mapM (indexDefinition (quoteIdentifier b)) (indexes t) else Ok [])
    = Ok i) as [i Hi].
  { destruct (family b); [|by eexists]. apply mapM_is_ok. eapply Forall_impl; [exact Hix|].
    intros x [Hx Hxs]. unfold indexDefinition.
    destruct (quoted_is_ok _ Hx) as [q ->], (quotedList_is_ok _ Hxs) as [qs ->]. by eexists. }
  assert (exists k, (if fks then mapM (fun k => foreignKeySql k (quoteIdentifier b)) (foreignKeys t)
    else Ok []) = Ok k) as [k Hk].
  { destruct fks; [|by eexists]. apply mapM_is_ok. eapply Forall_impl; [exact Hfk|].
    intros x Hx. by apply foreignKeySql_is_ok. }
  simpl in *. rewrite Hi. simpl. rewrite Hk. by eexists.
Qed.
End rendering.

(** ** Theorems *)

(** the bytes hashed into a constraint name determine the kind, the table,
    the columns, the target table and its columns, so two constraint names
    can only coincide for different constraints when SHA-256 collides on its
    first 24 digits; and a generated name is 29 bytes longer than its kind. *)
Theorem constraintBytes_inj_iff kind table cs target ts kind' table' cs' target' ts' :
  (constraintBytes kind table cs target ts = constraintBytes kind' table' cs' target' ts' <->
   kind = kind' /\ table = table' /\ cs = cs' /\ target = target' /\ ts = ts') /\
  size (constraintName kind table cs target ts) = (29 + size kind)%N.
Proof.
  split; [|apply constraintName_length]. split; [apply constraintBytes_injective|].
  by intros (-> & -> & -> & -> & ->).
Qed.

(** quoting cannot be escaped: whatever bytes a name holds, SQL that reads the
    quoted name reads exactly that name back and stops at its end, whatever
    follows it (unless what follows starts with the delimiter itself). *)
Theorem quoteIdentifier_reads_back b name q rest :
  quoteIdentifier b name = Ok q ->
  head_is (fun c => bool_decide (c = delimiter b)) rest = false ->
  read_identifier (delimiter b) (q +:+ rest) = Some (name, rest).
Proof.
  intros (_ & _ & ->)%quoteIdentifier_Ok_iff Hrest. simpl.
  rewrite bool_decide_true by done. rewrite app_str_assoc. by apply read_quoted_concat_map.
Qed.

Definition hostile_name : string := "a`b; DROP TABLE t; --".
Lemma quoteIdentifier_reads_back_witness :
  read_identifier "`"%char ("`a``b; DROP TABLE t; --` INT" +:+ "") = Some (hostile_name, " INT").
Proof. apply (quoteIdentifier_reads_back Mysql hostile_name "`a``b; DROP TABLE t; --`" " INT"); reflexivity. Defined.

(** C40: [sqlType] gives a physical type exactly to the logical types that the
    backend supports with an acceptable length; every type it gives passes
    [validSqlType], and no type that passes holds a character other than
    letters, digits, underscores, spaces, parentheses and commas: frozen types
    cannot carry quotes, comments or statement separators into DDL. *)
Theorem sqlType_sound b t l s :
  is_ok (sqlType b t l) = hasSqlType b t && negb (badLength b t l) /\
  (sqlType b t l = Ok s -> validSqlType s = true) /\
  (validSqlType s = true -> forallb_char type_char s = true).
Proof.
  split; [apply sqlType_is_ok|]. split; [apply sqlType_validSqlType|apply validSqlType_chars].
Qed.

(** after [foreignKeyIndexes] the primary key or an index starts with the
    columns of each foreign key; the table has changed only by indexes
    appended after its own, each named and made for one of its foreign keys;
    and a second run adds nothing. *)
Theorem foreignKeyIndexes_spec t :
  (forall k, k ∈ foreignKeys t -> supported_by (foreignKeyIndexes t) (fk_columns k) = true) /\
  (exists ixs, foreignKeyIndexes t = with_indexes t (indexes t ++ ixs)%list /\
     forall i, i ∈ ixs -> exists k, k ∈ foreignKeys t /\ i = supportIndex t k) /\
  foreignKeyIndexes (foreignKeyIndexes t) = foreignKeyIndexes t.
Proof.
  split; [intros k; apply foreignKeyIndexes_supports|].
  split; [apply foreignKeyIndexes_extends|].
  apply foreignKeyIndexes_id. destruct (foreignKeyIndexes_extends t) as (ixs & He & _).
  intros k Hk. apply foreignKeyIndexes_supports. by rewrite He in Hk.
Qed.
