(* ===== verification/Snapshot.v ===== *)
(** Snapshot: capture, canonical order and validation of the physical schemas,
    from src/migrations/SchemaSnapshot.cpp. *)
From S2P Require Import Prelude Foundation Chrono Values Codec Schema Sha256 Models PhysicalSql.
Local Open Scope string_scope.

(** ** Capture *)

(** The type resolver [expandTable] is a template over. *)
Definition resolver := ColumnType -> option N -> res string.

Definition keyColumns (m : ModelDataView) : res (list ColumnView) :=
  mapM (fun index =>
    match nth_error (mv_columns m) (N.to_nat index) with
    | Some c =>
        invalid_if (bool_decide (cv_kind c <> Scalar) || bool_decide (cv_type c = None))
          "Primary-key indices must refer to scalar model columns" Empty "" ;;
        Ok c
    | None => invalid "Primary-key indices must refer to scalar model columns" Empty ""
    end) (mv_primaryKeyIndices m).

Definition scalarColumn (name : string) (c : ColumnView) (isNullable : bool) (resolve : resolver)
    : res PhysicalColumn :=
  match cv_type c with
  | None => invalid "Scalar column has no logical type" Empty ""
  | Some type =>
      s ← resolve type (cv_maxStringLength c);
      Ok (MkColumn name type s isNullable (cv_maxStringLength c) false)
  end.

Definition add_column (t : PhysicalTable) (c : PhysicalColumn) : PhysicalTable :=
  with_columns t (columns t ++ [c])%list.
Definition add_foreignKey (t : PhysicalTable) (k : PhysicalForeignKey) : PhysicalTable :=
  MkTable (table_name t) (columns t) (primaryKey t) (primaryKeyName t) (foreignKeys t ++ [k])%list
    (indexes t) (options t).
Definition add_primary (t : PhysicalTable) (name : string) : PhysicalTable :=
  MkTable (table_name t) (columns t) (primaryKey t ++ [name])%list (primaryKeyName t) (foreignKeys t)
    (indexes t) (options t).
Definition with_primaryKeyName (t : PhysicalTable) (name : string) : PhysicalTable :=
  MkTable (table_name t) (columns t) (primaryKey t) name (foreignKeys t) (indexes t) (options t).
Definition with_autoIncrement (c : PhysicalColumn) (a : bool) : PhysicalColumn :=
  MkColumn (col_name c) (logicalType c) (sqlType_of c) (nullable c) (maxStringLength c) a.
Definition add_key_column (k : PhysicalForeignKey) (name target : string) : PhysicalForeignKey :=
  MkForeignKey (fk_name k) (fk_columns k ++ [name])%list (targetTable k) (targetColumns k ++ [target])%list
    (onDelete k) (onUpdate k).
Definition with_fk_name (k : PhysicalForeignKey) (name : string) : PhysicalForeignKey :=
  MkForeignKey name (fk_columns k) (targetTable k) (targetColumns k) (onDelete k) (onUpdate k).

Definition foreignKeyName (t : PhysicalTable) (k : PhysicalForeignKey) : string :=
  constraintName "fk" (table_name t) (fk_columns k) (targetTable k) (targetColumns k).

Definition primaryName (mysqlPrimaryKey : bool) (t : PhysicalTable) : string :=
  if mysqlPrimaryKey then "PRIMARY" else constraintName "pk" (table_name t) (primaryKey t) "" [].

(** The loop over the target's key columns: one physical column each. *)
Definition expandReference (resolve : resolver) (c : ColumnView) (state : PhysicalTable * PhysicalForeignKey)
    (targetColumn : ColumnView) : res (PhysicalTable * PhysicalForeignKey) :=
  let name := cv_name c +:+ "_" +:+ cv_name targetColumn in
  column ← scalarColumn name targetColumn (negb (cv_isNotNull c)) resolve;
  Ok (add_column state.1 column, add_key_column state.2 name (cv_name targetColumn)).

(** The body of the loop over the model's columns. *)
Definition expandColumn (model : ModelView) (resolve : resolver) (t : PhysicalTable) (c : ColumnView)
    : res PhysicalTable :=
  if bool_decide (cv_kind c = Scalar) then
    physical ← scalarColumn (cv_name c) c (negb (cv_isNotNull c)) resolve;
    Ok (add_column t (with_autoIncrement physical (cv_isAutoIncrement c)))
  else
    match arrow (resolveColumnTarget model c) with
    | None => invalid "To-one relation target is not available in the schema" Empty ""
    | Some target =>
        targetKey ← keyColumns target;
        invalid_if (bool_decide (length targetKey = 0)) "To-one relation target must have a primary key" Empty "" ;;
        '(t, k) ← foldM (expandReference resolve c)
                    (t, MkForeignKey "" [] (mv_tableName target) [] "NO ACTION" "NO ACTION") targetKey;
        Ok (add_foreignKey t (with_fk_name k (foreignKeyName t k)))
    end.

Definition expandTable (model : ModelView) (resolve : resolver) (mysqlPrimaryKey : bool) : res PhysicalTable :=
  match arrow model with
  | None => invalid "Cannot capture an invalid model view" Empty ""
  | Some m =>
      keys ← keyColumns m;
      let t := MkTable (mv_tableName m) [] (map cv_name keys) "" [] [] "" in
      let t := if bool_decide (primaryKey t = []) then t
               else with_primaryKeyName t (primaryName mysqlPrimaryKey t) in
      foldM (expandColumn model resolve) t (mv_columns m)
  end.

(** The lambda [appendEndpoint]; [columns] and [physicalNames] have the same
    length, checked by its caller. *)
Definition appendEndpoint (resolve : resolver) (endpoint : ModelDataView) (keys : list ColumnView)
    (physicalNames : list string) (t : PhysicalTable) : res PhysicalTable :=
  '(t, k) ← foldM (fun (state : PhysicalTable * PhysicalForeignKey) '(c, name) =>
      column ← scalarColumn name c false resolve;
      Ok (add_primary (add_column state.1 column) name, add_key_column state.2 name (cv_name c)))
    (t, MkForeignKey "" [] (mv_tableName endpoint) [] "CASCADE" "NO ACTION") (zip keys physicalNames);
  Ok (add_foreignKey t (with_fk_name k (foreignKeyName t k))).

Definition ownsJunction (r : RelationView) : bool :=
  bool_decide (rv_kind r = RelManyToMany) && isConfigured (rv_junction r) && jv_owningSide (rv_junction r).

Definition expandJunction (model : ModelView) (m : ModelDataView) (resolve : resolver) (mysqlPrimaryKey : bool)
    (r : RelationView) : res PhysicalTable :=
  match arrow (resolveRelationTarget model r) with
  | None => invalid "Collection relation target is not available in the schema" Empty ""
  | Some target =>
      ownerKey ← keyColumns m;
      targetKey ← keyColumns target;
      let j := rv_junction r in
      invalid_if (bool_decide (length ownerKey = 0) || bool_decide (length targetKey = 0)
                  || negb (length (jv_ownerColumns j) =? length ownerKey)%nat
                  || negb (length (jv_targetColumns j) =? length targetKey)%nat)
        "Junction columns must match both endpoint primary keys" Empty "" ;;
      t ← appendEndpoint resolve m ownerKey (jv_ownerColumns j) (MkTable (jv_tableName j) [] [] "" [] [] "");
      t ← appendEndpoint resolve target targetKey (jv_targetColumns j) t;
      Ok (with_primaryKeyName t (primaryName mysqlPrimaryKey t))
  end.

Definition expandJunctions (model : ModelView) (resolve : resolver) (mysqlPrimaryKey : bool)
    : res (list PhysicalTable) :=
  match arrow model with
  | None => invalid "Cannot capture junctions from an invalid model view" Empty ""
  | Some m => mapM (expandJunction model m resolve mysqlPrimaryKey) (List.filter ownsJunction (mv_relations m))
  end.

(** The frozen options and, on MySQL and MariaDB, the supporting indexes. *)
Definition finishTable (b : BackendType) (t : PhysicalTable) : PhysicalTable :=
  let t := with_options (tableOptions b) t in
  if family b then foreignKeyIndexes t else t.

Definition physicalTable (model : ModelView) (b : BackendType) : res PhysicalTable :=
  requireBackend b ;;
  t ← expandTable model (sqlType b) (family b);
  Ok (finishTable b t).

Definition physicalJunctions (model : ModelView) (b : BackendType) : res (list PhysicalTable) :=
  requireBackend b ;;
  ts ← expandJunctions model (sqlType b) (family b);
  Ok (map (finishTable b) ts).

(** ** Canonical order *)
Definition canonicalTable (t : PhysicalTable) : PhysicalTable :=
  MkTable (table_name t) (sort_by col_name (columns t)) (primaryKey t) (primaryKeyName t)
    (sort_by fk_name (foreignKeys t)) (sort_by index_name (indexes t)) (options t).

Definition canonicalSchema (s : PhysicalSchema) : PhysicalSchema :=
  with_tables s (map canonicalTable (sort_by table_name (tables s))).

Definition canonicalize (s : SchemaSnapshot) : SchemaSnapshot :=
  MkSnapshot (formatVersion s) (map (fun kv => (kv.1, canonicalSchema kv.2)) (backends s)).

(** ** Validation *)
Definition validLogicalType (t : ColumnType) : bool := bool_decide (t ∈ ColumnType.all).

(** [seen.insert(name).second], refusing a name that is present. *)
Definition known_column (t : PhysicalTable) (name : string) : bool := bool_decide (is_Some (columnNamed t name)).

Definition requireColumnList (t : PhysicalTable) (names : list string) (b : BackendType) (allowEmpty : bool)
    : res unit :=
  invalid_if (bool_decide (names = []) && negb allowEmpty)
    "A key or index must have at least one column" b (table_name t) ;;
  foldM (fun (seen : gset string) name =>
    invalid_if (negb (known_column t name) || bool_decide (name ∈ seen))
      "A key or index contains an unknown or duplicate column" b (table_name t +:+ "." +:+ name) ;;
    Ok ({[name]} ∪ seen)) ∅ names ;;
  Ok tt.

Definition nativeTemporal (t : ColumnType) : bool :=
  match t with
  | ColumnType.Uuid | ColumnType.Date | ColumnType.TimeOfDay | ColumnType.LocalDateTime
  | ColumnType.UtcTimestamp => true
  | _ => false
  end.

Definition validateColumn (b : BackendType) (t : PhysicalTable) (columnNames : gset string) (c : PhysicalColumn)
    : res (gset string) :=
  let path := table_name t +:+ "." +:+ col_name c in
  requireName (col_name c) b path ;;
  invalid_if (bool_decide (col_name c ∈ columnNames) || negb (validLogicalType (logicalType c))
              || negb (validSqlType (sqlType_of c)))
    "Snapshot column names and types must be valid and unique" b path ;;
  (if nativeTemporal (logicalType c) then
     s ← sqlType b (logicalType c) (maxStringLength c);
     invalid_if (negb (bool_decide (sqlType_of c = s)))
       "Temporal and UUID columns require their canonical native SQL type" b path
   else Ok tt) ;;
  invalid_if (badLength b (logicalType c) (maxStringLength c))
    "Snapshot contains an invalid bounded string" b path ;;
  invalid_if (badAutoIncrement t c)
    "Snapshot auto increment must be its single non-null integer primary key" b path ;;
  Ok ({[col_name c]} ∪ columnNames).

Definition nullable_column (t : PhysicalTable) (name : string) : bool :=
  match columnNamed t name with Some c => nullable c | None => false end.

Definition validatePrimaryKey (b : BackendType) (t : PhysicalTable) : res (gset string) :=
  requireColumnList t (primaryKey t) b true ;;
  forM_ (primaryKey t) (fun name =>
    invalid_if (nullable_column t name)
      "Snapshot primary-key columns must be non-null" b (table_name t +:+ "." +:+ name)) ;;
  invalid_if (negb (Bool.eqb (bool_decide (primaryKey t = [])) (bool_decide (primaryKeyName t = ""))))
    "Snapshot primary key and its name must be declared together" b (table_name t) ;;
  if bool_decide (primaryKeyName t = "") then Ok ∅
  else
    requireName (primaryKeyName t) b (table_name t) ;;
    invalid_if (family b && negb (bool_decide (primaryKeyName t = "PRIMARY")))
      "MySQL-family primary keys must use their physical name PRIMARY" b (table_name t) ;;
    Ok {[primaryKeyName t]}.

Definition validateIndex (b : BackendType) (t : PhysicalTable) (constraintNames : gset string) (i : PhysicalIndex)
    : res (gset string) :=
  requireName (index_name i) b (table_name t) ;;
  invalid_if (bool_decide (index_name i ∈ constraintNames))
    "Snapshot index names must be unique" b (table_name t) ;;
  requireColumnList t (index_columns i) b false ;;
  Ok ({[index_name i]} ∪ constraintNames).

(** The loop over the pairs of columns of a foreign key. *)
Definition incompatible (k : PhysicalForeignKey) (local remote : option PhysicalColumn) : bool :=
  match local, remote with
  | Some l, Some r =>
      bool_decide (logicalType l <> logicalType r) || bool_decide (sqlType_of l <> sqlType_of r)
      || bool_decide (maxStringLength l <> maxStringLength r)
      || (bool_decide (onDelete k = "SET NULL") || bool_decide (onUpdate k = "SET NULL")) && negb (nullable l)
  | _, _ => true
  end.

Definition uniqueKey (t : PhysicalTable) (names : list string) : bool :=
  bool_decide (names = primaryKey t)
  || existsb (fun i => unique i && bool_decide (index_columns i = names)) (indexes t).

Definition validateForeignKey (b : BackendType) (s : PhysicalSchema) (t : PhysicalTable)
    (constraintNames : gset string) (k : PhysicalForeignKey) : res (gset string) :=
  requireName (fk_name k) b (table_name t) ;;
  invalid_if (bool_decide (fk_name k ∈ constraintNames) || negb (validAction (onDelete k))
              || negb (validAction (onUpdate k))
              || negb (length (fk_columns k) =? length (targetColumns k))%nat)
    "Snapshot foreign-key names, actions and column counts must be valid" b (table_name t) ;;
  requireColumnList t (fk_columns k) b false ;;
  invalid_if (family b && negb (supported_by t (fk_columns k)))
    "MySQL-family foreign keys require a declared supporting index" b (table_name t) ;;
  match find_by table_name (targetTable k) (tables s) with
  | None => invalid "Snapshot foreign key references an absent table" b (table_name t)
  | Some target =>
      requireColumnList target (targetColumns k) b false ;;
      invalid_if (negb (uniqueKey target (targetColumns k)))
        "Snapshot foreign key must reference an ordered unique key" b (table_name t) ;;
      forM_ (zip (fk_columns k) (targetColumns k)) (fun '(l, r) =>
        invalid_if (incompatible k (columnNamed t l) (columnNamed target r))
          "Snapshot foreign-key columns must have matching types and compatible nullability" b (table_name t)) ;;
      Ok ({[fk_name k]} ∪ constraintNames)
  end.

Definition reservedTable (name : string) : bool :=
  bool_decide (name = "_orm_migrations") || bool_decide (name = "_orm_migrations_incomplete")
  || starts_with "sqlite_" name.

Definition validateTable (b : BackendType) (s : PhysicalSchema) (tableNames : gset string) (t : PhysicalTable)
    : res (gset string) :=
  requireName (table_name t) b (table_name t) ;;
  invalid_if (reservedTable (table_name t) || bool_decide (table_name t ∈ tableNames)
              || bool_decide (columns t = []))
    "Snapshot contains a duplicate, empty or reserved table" b (table_name t) ;;
  invalid_if (negb (bool_decide (options t = tableOptions b)))
    "Snapshot table options do not match its frozen backend profile" b (table_name t) ;;
  foldM (validateColumn b t) ∅ (columns t) ;;
  names ← validatePrimaryKey b t;
  names ← foldM (validateIndex b t) names (indexes t);
  foldM (validateForeignKey b s t) names (foreignKeys t) ;;
  Ok ({[table_name t]} ∪ tableNames).

Definition validateSchema (b : BackendType) (s : PhysicalSchema) : res unit :=
  requireBackend b ;;
  p ← profile b;
  invalid_if (negb (bool_decide (schema_backend s = b)) || negb (bool_decide (schema_profile s = p)))
    "Snapshot backend or DDL render profile is inconsistent" b "" ;;
  foldM (validateTable b s) ∅ (tables s) ;;
  Ok tt.

Definition validateSnapshot (s : SchemaSnapshot) : res unit :=
  invalid_if (negb (formatVersion s =? 1)%Z || bool_decide (backends s = []))
    "Snapshot format must be version 1 and declare at least one backend" Empty "" ;;
  forM_ (backends s) (fun kv => validateSchema kv.1 kv.2).

Definition emptySnapshot (bs : list BackendType) : res SchemaSnapshot :=
  m ← foldM (fun (m : BackendMap.t PhysicalSchema) b =>
        requireBackend b ;;
        p ← profile b;
        invalid_if (BackendMap.contains b m) "Snapshot backend set contains duplicates" b "" ;;
        Ok (BackendMap.emplace b (MkSchema b p []) m)) [] bs;
  let result := MkSnapshot 1 m in
  validateSnapshot result ;;
  Ok result.

(** The tables one model adds: its own and those of the junctions it owns. *)
Definition captureModel (models : SchemaView) (b : BackendType) (ts : list PhysicalTable) (index : nat)
    : res (list PhysicalTable) :=
  let model := at_index models (N.of_nat index) in
  t ← physicalTable model b;
  js ← physicalJunctions model b;
  Ok (ts ++ [t] ++ js)%list.

Definition capture (models : SchemaView) (bs : list BackendType) : res SchemaSnapshot :=
  result ← emptySnapshot bs;
  m ← mapM (fun kv : BackendType * PhysicalSchema =>
        ts ← foldM (captureModel models kv.1) (tables kv.2) (seq 0 (length models));
        Ok (kv.1, with_tables kv.2 ts)) (backends result);
  let result := canonicalize (MkSnapshot (formatVersion result) m) in
  validateSnapshot result ;;
  Ok result.

(** ** The declarative specification of a valid snapshot *)
Section specification.
Context (b : BackendType).

Definition name_ok (name : string) : Prop :=
  validName name = true /\ starts_with "__orm_" name = false /\ (size name <= maximumName b name)%N.

Definition key_ok (t : PhysicalTable) (names : list string) : Prop :=
  NoDup names /\ forall n, n ∈ names -> is_Some (columnNamed t n).

Definition column_ok (t : PhysicalTable) (c : PhysicalColumn) : Prop :=
  name_ok (col_name c) /\ validSqlType (sqlType_of c) = true /\
  (nativeTemporal (logicalType c) = true ->
     sqlType b (logicalType c) (maxStringLength c) = Ok (sqlType_of c)) /\
  badLength b (logicalType c) (maxStringLength c) = false /\ badAutoIncrement t c = false.

Definition primary_ok (t : PhysicalTable) : Prop :=
  key_ok t (primaryKey t) /\
  (forall n, n ∈ primaryKey t -> nullable_column t n = false) /\
  (primaryKey t = [] <-> primaryKeyName t = "") /\
  (primaryKeyName t <> "" ->
     name_ok (primaryKeyName t) /\ (family b = true -> primaryKeyName t = "PRIMARY")).

Definition index_ok (t : PhysicalTable) (i : PhysicalIndex) : Prop :=
  name_ok (index_name i) /\ index_columns i <> [] /\ key_ok t (index_columns i).

Definition foreignKey_ok (s : PhysicalSchema) (t : PhysicalTable) (k : PhysicalForeignKey) : Prop :=
  name_ok (fk_name k) /\ validAction (onDelete k) = true /\ validAction (onUpdate k) = true /\
  length (fk_columns k) = length (targetColumns k) /\
  fk_columns k <> [] /\ key_ok t (fk_columns k) /\
  (family b = true -> supported_by t (fk_columns k) = true) /\
  exists target, find_by table_name (targetTable k) (tables s) = Some target /\
    targetColumns k <> [] /\ key_ok target (targetColumns k) /\
    uniqueKey target (targetColumns k) = true /\
    forall l r, (l, r) ∈ zip (fk_columns k) (targetColumns k) ->
      incompatible k (columnNamed t l) (columnNamed target r) = false.

(** The names that share one name space in a table. *)
Definition constraint_names (t : PhysicalTable) : list string :=
  (if bool_decide (primaryKeyName t = "") then [] else [primaryKeyName t])
    ++ (index_name <$> indexes t) ++ (fk_name <$> foreignKeys t).

Definition table_ok (s : PhysicalSchema) (t : PhysicalTable) : Prop :=
  name_ok (table_name t) /\ reservedTable (table_name t) = false /\ columns t <> [] /\
  options t = tableOptions b /\
  NoDup (col_name <$> columns t) /\ (forall c, c ∈ columns t -> column_ok t c) /\
  primary_ok t /\ NoDup (constraint_names t) /\
  (forall i, i ∈ indexes t -> index_ok t i) /\
  (forall k, k ∈ foreignKeys t -> foreignKey_ok s t k).

Definition schema_ok (s : PhysicalSchema) : Prop :=
  supported b = true /\ schema_backend s = b /\ profile b = Ok (schema_profile s) /\
  NoDup (table_name <$> tables s) /\ (forall t, t ∈ tables s -> table_ok s t).
End specification.

Definition snapshot_ok (s : SchemaSnapshot) : Prop :=
  formatVersion s = 1%Z /\ backends s <> [] /\ forall b p, (b, p) ∈ backends s -> schema_ok b p.

Section validation.
Context (b : BackendType).

Lemma requireName_Ok_iff n p u : requireName n b p = Ok u <-> name_ok b n.
Proof.
  unfold requireName, name_ok. destruct u.
  by rewrite !seq_Ok_iff, !invalid_if_Ok_iff, negb_false_iff, N.ltb_ge.
Qed.

Lemma requireColumnList_Ok_iff t ns e u :
  requireColumnList t ns b e = Ok u <-> (ns = [] -> e = true) /\ key_ok t ns.
Proof.
  unfold requireColumnList, key_ok. set (f := fun (seen : gset string) name => _).
  assert (forall r, foldM f ∅ ns = Ok r <-> NoDup ns /\ (forall n, n ∈ ns -> is_Some (columnNamed t n))
            /\ r = list_to_set ns) as Hf.
  { intros r. rewrite (foldM_insert_Ok_iff f (fun n => n) (fun n => is_Some (columnNamed t n))).
    - rewrite list_fmap_id, (right_id_L ∅ (∪)). set_solver.
    - intros s x r'. unfold f, known_column.
      rewrite seq_Ok_iff, invalid_if_Ok_iff, orb_false_iff, negb_false_iff, bool_decide_eq_true,
        bool_decide_eq_false. naive_solver. }
  assert (bool_decide (ns = []) && negb e = false <-> (ns = [] -> e = true)) as He.
  { case_bool_decide; destruct e; simpl; naive_solver. }
  destruct u. rewrite seq_Ok_iff, invalid_if_Ok_iff, He, bind_Ok_iff. setoid_rewrite Hf.
  naive_solver.
Qed.

Lemma validLogicalType_true t : validLogicalType t = true.
Proof. apply bool_decide_eq_true, ColumnType.elem_of_all. Qed.

Lemma validateColumn_Ok_iff t s c r :
  validateColumn b t s c = Ok r <-> (col_name c ∉ s) /\ column_ok b t c /\ r = {[col_name c]} ∪ s.
Proof.
  unfold validateColumn, column_ok. rewrite validLogicalType_true. split.
  - intros H. result_inv. apply requireName_Ok_iff in Hok. bool_to_prop. subst.
    split; [done|]. split; [|done]. repeat (split; [done|]). split; [|done].
    intros Ht. rewrite Ht in Hok1. result_inv. bool_to_prop. by subst.
  - intros (Hs & (Hn & Hv & Ht & Hl & Ha) & ->).
    destruct (requireName (col_name c) b _) as [u|e] eqn:Hr;
      [|apply (requireName_Ok_iff _ (table_name t +:+ "." +:+ col_name c) tt) in Hn; congruence].
    rewrite bool_decide_false, Hv, Hl, Ha by done. simpl.
    destruct (nativeTemporal (logicalType c)); [|done].
    rewrite Ht by done. simpl. by rewrite bool_decide_true.
Qed.

Lemma validateIndex_Ok_iff t s i r :
  validateIndex b t s i = Ok r <-> (index_name i ∉ s) /\ index_ok b t i /\ r = {[index_name i]} ∪ s.
Proof.
  unfold validateIndex, index_ok.
  rewrite !seq_Ok_iff, requireName_Ok_iff, invalid_if_Ok_iff, requireColumnList_Ok_iff,
    bool_decide_eq_false. naive_solver.
Qed.

Lemma validateForeignKey_Ok_iff s t names k r :
  validateForeignKey b s t names k = Ok r <->
  (fk_name k ∉ names) /\ foreignKey_ok b s t k /\ r = {[fk_name k]} ∪ names.
Proof.
  unfold validateForeignKey, foreignKey_ok.
  rewrite !seq_Ok_iff, requireName_Ok_iff, !invalid_if_Ok_iff, requireColumnList_Ok_iff.
  rewrite !orb_false_iff, !negb_false_iff, bool_decide_eq_false, Nat.eqb_eq.
  assert (family b && negb (supported_by t (fk_columns k)) = false <->
          (family b = true -> supported_by t (fk_columns k) = true)) as ->.
  { destruct (family b), (supported_by t (fk_columns k)); naive_solver. }
  destruct (find_by table_name (targetTable k) (tables s)) as [target|]; [|naive_solver].
  rewrite !seq_Ok_iff, requireColumnList_Ok_iff, invalid_if_Ok_iff, negb_false_iff, forM__Ok_iff,
    Forall_forall.
  assert ((forall x, x ∈ zip (fk_columns k) (targetColumns k) ->
            (let '(l, r) := x in invalid_if (incompatible k (columnNamed t l) (columnNamed target r))
              "Snapshot foreign-key columns must have matching types and compatible nullability" b
              (table_name t)) = Ok tt) <->
          (forall l r, (l, r) ∈ zip (fk_columns k) (targetColumns k) ->
            incompatible k (columnNamed t l) (columnNamed target r) = false)) as ->.
  { split; [intros H l r' Hin; by apply (H (l, r')), invalid_if_Ok_iff in Hin|].
    intros H [l r'] Hin. by apply invalid_if_Ok_iff, H. }
  naive_solver.
Qed.

Lemma validatePrimaryKey_Ok_iff t r :
  validatePrimaryKey b t = Ok r <->
  primary_ok b t /\ r = (if bool_decide (primaryKeyName t = "") then ∅ else {[primaryKeyName t]}).
Proof.
  unfold validatePrimaryKey, primary_ok.
  rewrite !seq_Ok_iff, requireColumnList_Ok_iff, forM__Ok_iff, Forall_forall, invalid_if_Ok_iff.
  setoid_rewrite invalid_if_Ok_iff. rewrite negb_false_iff.
  assert (Bool.eqb (bool_decide (primaryKey t = [])) (bool_decide (primaryKeyName t = "")) = true
          <-> (primaryKey t = [] <-> primaryKeyName t = "")) as ->.
  { repeat case_bool_decide; simpl; naive_solver. }
  case_bool_decide; [naive_solver|].
  rewrite !seq_Ok_iff, requireName_Ok_iff, invalid_if_Ok_iff.
  assert (family b && negb (bool_decide (primaryKeyName t = "PRIMARY")) = false <->
          (family b = true -> primaryKeyName t = "PRIMARY")) as ->.
  { case_bool_decide; destruct (family b); naive_solver. }
  naive_solver.
Qed.

(** The two loops over the names of one name space that [names] starts. *)
Lemma constraint_loops_Ok_iff s t p (names : gset string) :
  NoDup p -> names = list_to_set p ->
  (exists r, (names ← foldM (validateIndex b t) names (indexes t);
              foldM (validateForeignKey b s t) names (foreignKeys t)) = Ok r) <->
  NoDup (p ++ (index_name <$> indexes t) ++ (fk_name <$> foreignKeys t))%list /\
  (forall i, i ∈ indexes t -> index_ok b t i) /\
  (forall k, k ∈ foreignKeys t -> foreignKey_ok b s t k).
Proof.
  intros Hp ->. rewrite !NoDup_app. setoid_rewrite bind_Ok_iff.
  setoid_rewrite (foldM_insert_Ok_iff _ _ _ _ _ _ (validateIndex_Ok_iff t)).
  setoid_rewrite (foldM_insert_Ok_iff _ _ _ _ _ _ (validateForeignKey_Ok_iff s t)).
  split.
  - intros (r & names & (Hi & Hin & Hio & ->) & Hk & Hkn & Hko & _).
    split; [|done]. split; [done|]. split; [|split; [done|split; [|done]]].
    + intros x Hx [(y & -> & Hy)%list_elem_of_fmap|(y & -> & Hy)%list_elem_of_fmap]%elem_of_app;
        [specialize (Hin y Hy)|specialize (Hkn y Hy)]; set_solver.
    + intros x (y & -> & Hy)%list_elem_of_fmap (z & Hz & Hz')%list_elem_of_fmap.
      specialize (Hkn z Hz'). rewrite <- Hz in Hkn.
      apply Hkn, elem_of_union_l, elem_of_list_to_set, list_elem_of_fmap_2, Hy.
  - intros ((_ & Hpn & Hi & Hik & Hk) & Hio & Hko). eexists _, _. split; [|split; [done|]].
    + split; [done|]. split; [|split; [done|reflexivity]].
      intros x Hx Hin%elem_of_list_to_set. apply (Hpn _ Hin), elem_of_app. left.
      by apply list_elem_of_fmap_2.
    + split; [|split; [done|reflexivity]].
      intros x Hx [Hin%elem_of_list_to_set|Hin%elem_of_list_to_set]%elem_of_union.
      * apply (Hik _ Hin). by apply list_elem_of_fmap_2.
      * apply (Hpn _ Hin), elem_of_app. right. by apply list_elem_of_fmap_2.
Qed.

Lemma validateTable_Ok_iff s names t r :
  validateTable b s names t = Ok r <->
  (table_name t ∉ names) /\ table_ok b s t /\ r = {[table_name t]} ∪ names.
Proof.
  unfold validateTable, table_ok. rewrite !seq_Ok_iff, requireName_Ok_iff, !invalid_if_Ok_iff.
  rewrite !orb_false_iff, !bool_decide_eq_false, negb_false_iff, bool_decide_eq_true.
  rewrite bind_Ok_iff. setoid_rewrite (foldM_insert_Ok_iff _ _ _ _ _ _ (validateColumn_Ok_iff t)).
  setoid_rewrite bind_Ok_iff. setoid_rewrite validatePrimaryKey_Ok_iff.
  set (p := if bool_decide (primaryKeyName t = "") then [] else [primaryKeyName t]).
  set (ps := if bool_decide (primaryKeyName t = "") then (∅ : gset string) else {[primaryKeyName t]}).
  assert (NoDup p) as Hp by (unfold p; case_bool_decide; repeat constructor; set_solver).
  assert (ps = list_to_set p) as Hps.
  { unfold p, ps. case_bool_decide; simpl; [done|]. by rewrite (right_id_L ∅ (∪)). }
  pose proof (constraint_loops_Ok_iff s t p ps Hp Hps) as Hloops. unfold constraint_names. fold p.
  split.
  - intros (Hn & [[Hr Hd] Hc] & Ho & _ & (Hnd & _ & Hcol & _) & names' & (Hpk & ->) & H).
    apply bind_Ok_iff in H as (n1 & H1 & (n2 & H2 & [= <-])%bind_Ok_iff).
    assert (NoDup (p ++ (index_name <$> indexes t) ++ (fk_name <$> foreignKeys t))%list /\
      (forall i, i ∈ indexes t -> index_ok b t i) /\
      (forall k, k ∈ foreignKeys t -> foreignKey_ok b s t k)) as (? & ? & ?); [|naive_solver].
    apply Hloops. exists n2. by rewrite H1.
  - intros (Hd & (Hn & Hr & Hc & Ho & Hnd & Hcol & Hpk & Hcn & Hi & Hk) & ->).
    split; [done|]. split; [done|]. split; [done|].
    eexists. split; [split; [done|split; [set_solver|split; [done|reflexivity]]]|].
    exists ps. split; [done|].
    destruct (proj2 Hloops (conj Hcn (conj Hi Hk))) as [n2 H].
    apply bind_Ok_iff in H as (n1 & -> & H). simpl. by rewrite H.
Qed.

Lemma validateSchema_Ok_iff s u : validateSchema b s = Ok u <-> schema_ok b s.
Proof.
  destruct u. unfold validateSchema, schema_ok.
  rewrite seq_Ok_iff, requireBackend_Ok_iff, bind_Ok_iff. setoid_rewrite seq_Ok_iff.
  setoid_rewrite invalid_if_Ok_iff. setoid_rewrite orb_false_iff.
  setoid_rewrite negb_false_iff. setoid_rewrite bool_decide_eq_true.
  setoid_rewrite bind_Ok_iff.
  setoid_rewrite (foldM_insert_Ok_iff _ _ _ _ _ _ (validateTable_Ok_iff s)). split.
  - intros (Hb & p & Hp & [Hs Hpr] & r & (Hnd & _ & Ht & _) & _). subst p. done.
  - intros (Hb & Hs & Hp & Hnd & Ht). split; [done|]. exists (schema_profile s).
    split; [done|]. split; [done|]. eexists. split; [|done].
    split; [done|]. split; [set_solver|]. split; [done|reflexivity].
Qed.
End validation.

Lemma validateSnapshot_snapshot_ok s u : validateSnapshot s = Ok u <-> snapshot_ok s.
Proof.
  destruct u. unfold validateSnapshot, snapshot_ok.
  rewrite seq_Ok_iff, invalid_if_Ok_iff, orb_false_iff, negb_false_iff, Z.eqb_eq,
    bool_decide_eq_false, forM__Ok_iff, Forall_forall.
  setoid_rewrite validateSchema_Ok_iff. split.
  - intros [[Hf Hb] H]. split; [done|]. split; [done|]. intros b p Hin. by apply (H (b, p)).
  - intros (Hf & Hb & H). split; [done|]. intros [b p] Hin. by apply H.
Qed.

(** ** Schemas up to the order of their members *)
Record table_equiv (t u : PhysicalTable) : Prop := {
  te_name : table_name t = table_name u;
  te_columns : columns t ≡ₚ columns u;
  te_primary : primaryKey t = primaryKey u;
  te_primaryName : primaryKeyName t = primaryKeyName u;
  te_foreignKeys : foreignKeys t ≡ₚ foreignKeys u;
  te_indexes : indexes t ≡ₚ indexes u;
  te_options : options t = options u
}.

Definition schema_equiv (s1 s2 : PhysicalSchema) : Prop :=
  schema_backend s1 = schema_backend s2 /\ schema_profile s1 = schema_profile s2 /\
  exists ts, tables s1 ≡ₚ ts /\ Forall2 table_equiv ts (tables s2).

#[export] Instance table_equiv_equivalence : Equivalence table_equiv.
Proof.
  split.
  - by intros t.
  - intros t u []. by split.
  - intros t u v [] []. split; etrans; eauto.
Qed.

#[export] Instance table_name_proper : Proper (table_equiv ==> eq) table_name.
Proof. by intros t u []. Qed.

Lemma existsb_perm {A} (f : A -> bool) l k : l ≡ₚ k -> existsb f l = existsb f k.
Proof.
  induction 1; simpl; [done| | |congruence].
  - by rewrite IHPermutation.
  - by rewrite !orb_assoc, (orb_comm (f y)).
Qed.

Lemma find_by_perm {A} (proj : A -> string) n l k :
  NoDup (proj <$> l) -> l ≡ₚ k -> find_by proj n l = find_by proj n k.
Proof.
  intros Hnd Hp. destruct (find_by proj n l) as [x|] eqn:Hl; symmetry.
  - apply find_by_Some in Hl as [Hx <-]. apply find_by_NoDup; [by rewrite <- Hp|by rewrite <- Hp].
  - apply find_by_None. intros x Hx. rewrite <- Hp in Hx. by eapply find_by_None in Hl.
Qed.

#[export] Instance supported_by_proper : Proper (table_equiv ==> eq ==> eq) supported_by.
Proof.
  intros t u [] ns _ <-. unfold supported_by. rewrite te_primary0. f_equal.
  by apply existsb_perm.
Qed.

#[export] Instance uniqueKey_proper : Proper (table_equiv ==> eq ==> eq) uniqueKey.
Proof.
  intros t u [] ns _ <-. unfold uniqueKey. rewrite te_primary0. f_equal.
  by apply existsb_perm.
Qed.

Section equivalence.
Context (b : BackendType).

Lemma columnNamed_equiv t u n :
  table_equiv t u -> NoDup (col_name <$> columns t) -> columnNamed t n = columnNamed u n.
Proof. intros [] Hnd. unfold columnNamed. by apply find_by_perm. Qed.

Lemma key_ok_equiv t u ns :
  table_equiv t u -> NoDup (col_name <$> columns t) -> key_ok t ns -> key_ok u ns.
Proof.
  intros He Hc [Hnd H]. split; [done|]. intros n Hn.
  rewrite <- (columnNamed_equiv t) by done. by apply H.
Qed.

Lemma column_ok_equiv t u c : table_equiv t u -> column_ok b t c -> column_ok b u c.
Proof. intros [] H. unfold column_ok, badAutoIncrement in *. by rewrite <- te_primary0. Qed.

Lemma constraint_names_equiv t u :
  table_equiv t u -> constraint_names t ≡ₚ constraint_names u.
Proof. intros []. unfold constraint_names. by rewrite te_primaryName0, te_indexes0, te_foreignKeys0. Qed.

(** The table a foreign key names in an equivalent schema. *)
Lemma find_table_equiv s1 s2 n t :
  schema_equiv s1 s2 -> NoDup (table_name <$> tables s1) ->
  find_by table_name n (tables s1) = Some t ->
  exists u, find_by table_name n (tables s2) = Some u /\ table_equiv t u.
Proof.
  intros (_ & _ & ts & Hp & Hf) Hnd Ht. rewrite (find_by_perm _ _ _ ts) in Ht by done.
  clear Hp Hnd. unfold find_by in *. revert Ht. induction Hf as [|x y l k Hxy _ IH]; simpl; [done|].
  pose proof (te_name _ _ Hxy). repeat case_bool_decide; try congruence;
    [intros [= <-]; eauto|apply IH].
Qed.

Lemma foreignKey_ok_equiv s1 s2 t u k :
  schema_equiv s1 s2 -> table_equiv t u -> NoDup (table_name <$> tables s1) ->
  NoDup (col_name <$> columns t) ->
  (forall v, v ∈ tables s1 -> NoDup (col_name <$> columns v)) ->
  foreignKey_ok b s1 t k -> foreignKey_ok b s2 u k.
Proof.
  intros Hs Ht Hnd Hc Hall (Hn & Hd & Hu & Hl & Hne & Hk & Hsup & v & Hv & Htn & Htk & Huq & Hin).
  destruct (find_table_equiv s1 s2 _ v Hs Hnd Hv) as (w & Hw & Hvw).
  apply find_by_Some in Hv as [Hv _]. specialize (Hall v Hv).
  repeat (split; [done|]). split; [by eapply key_ok_equiv|]. split; [by rewrite <- Ht|].
  exists w. split; [done|]. split; [done|]. split; [by eapply key_ok_equiv|].
  split; [by rewrite <- Hvw|]. intros l r Hlr.
  rewrite <- (columnNamed_equiv t u), <- (columnNamed_equiv v w) by done. by apply Hin.
Qed.

Lemma table_ok_equiv s1 s2 t u :
  schema_equiv s1 s2 -> table_equiv t u -> NoDup (table_name <$> tables s1) ->
  (forall v, v ∈ tables s1 -> NoDup (col_name <$> columns v)) ->
  table_ok b s1 t -> table_ok b s2 u.
Proof.
  intros Hs He Hnd Hall (Hn & Hr & Hc & Ho & Hnc & Hcol & Hpk & Hcn & Hi & Hk).
  unfold table_ok. rewrite <- (te_name _ _ He). split; [done|]. split; [done|].
  split; [intros Hnil; apply Hc, Permutation_nil_r; rewrite (te_columns _ _ He), Hnil; done|].
  split; [by rewrite <- (te_options _ _ He)|].
  split; [by rewrite <- (te_columns _ _ He)|].
  split; [intros c Hin; rewrite <- (te_columns _ _ He) in Hin; by eapply column_ok_equiv, Hcol|].
  split.
  { destruct Hpk as (Hp1 & Hp2 & Hp3 & Hp4). unfold primary_ok, nullable_column.
    rewrite <- (te_primary _ _ He), <- (te_primaryName _ _ He).
    split; [by eapply key_ok_equiv|]. split; [|done].
    intros n Hin. rewrite <- (columnNamed_equiv t u) by done. by apply Hp2. }
  split; [by rewrite <- (constraint_names_equiv t u)|]. split.
  - intros i Hin. rewrite <- (te_indexes _ _ He) in Hin. destruct (Hi i Hin) as (? & ? & ?).
    split; [done|]. split; [done|]. by eapply key_ok_equiv.
  - intros k Hin. rewrite <- (te_foreignKeys _ _ He) in Hin.
    eapply foreignKey_ok_equiv; eauto.
Qed.

Lemma schema_ok_equiv s1 s2 : schema_equiv s1 s2 -> schema_ok b s1 -> schema_ok b s2.
Proof.
  intros Hs (Hb & Hsb & Hp & Hnd & Ht). destruct (Hs) as (Hb' & Hp' & ts & Hperm & Hf).
  split; [done|]. split; [congruence|]. split; [congruence|]. split.
  - assert (table_name <$> tables s2 = table_name <$> ts) as ->; [|by rewrite <- Hperm].
    clear -Hf. induction Hf as [|x y l k Hxy _ IH]; simpl; [done|].
    f_equal; [symmetry; apply Hxy|apply IH].
  - intros u Hu. apply list_elem_of_lookup in Hu as [i Hi].
    destruct (Forall2_lookup_r _ _ _ _ _ Hf Hi) as (t & Hti & Htu).
    assert (t ∈ tables s1) as Hin by (rewrite Hperm; by eapply list_elem_of_lookup_2).
    eapply table_ok_equiv; eauto. intros v Hv. by destruct (Ht v Hv) as (_ & _ & _ & _ & ? & _).
Qed.
End equivalence.

Section canonical.
Lemma canonicalTable_equiv t : table_equiv t (canonicalTable t).
Proof. split; simpl; try done; symmetry; apply sort_by_Permutation. Qed.

Lemma canonicalSchema_equiv s : schema_equiv s (canonicalSchema s).
Proof.
  split; [done|]. split; [done|]. exists (sort_by table_name (tables s)).
  split; [symmetry; apply sort_by_Permutation|]. simpl. apply Forall2_fmap_r, Forall_Forall2_diag.
  apply Forall_forall. intros t _. apply canonicalTable_equiv.
Qed.

Lemma schema_equiv_sym s1 s2 : schema_equiv s1 s2 -> schema_equiv s2 s1.
Proof.
  intros (? & ? & ts & Hp & Hf). split; [done|]. split; [done|].
  symmetry in Hp. destruct (Permutation_Forall2 Hp Hf) as (k & Hk & Hkf).
  exists k. split; [done|]. apply Forall2_flip. eapply Forall2_impl; [exact Hkf|].
  intros x y Hxy. by symmetry.
Qed.

Lemma canonicalSchema_ok b s : schema_ok b (canonicalSchema s) <-> schema_ok b s.
Proof.
  split; apply schema_ok_equiv; [apply schema_equiv_sym|]; apply canonicalSchema_equiv.
Qed.

Lemma canonicalize_ok s : snapshot_ok (canonicalize s) <-> snapshot_ok s.
Proof.
  unfold snapshot_ok. simpl. split.
  - intros (Hf & Hne & H). split; [done|]. split; [intros Hs; apply Hne; by rewrite Hs|].
    intros b p Hin. apply canonicalSchema_ok, H.
    apply list_elem_of_fmap. by exists (b, p).
  - intros (Hf & Hne & H). split; [done|]. split; [by intros Hs%map_eq_nil|].
    intros b p ([b' p'] & [= -> ->] & Hin)%list_elem_of_fmap. by apply canonicalSchema_ok, H.
Qed.
End canonical.

Section canonical_form.
Lemma tables_equiv_trans k l m :
  Forall2 table_equiv k l -> Forall2 table_equiv l m -> Forall2 table_equiv k m.
Proof.
  intros H. revert m. induction H as [|x y k l Hxy _ IH]; intros m Hm; [by inversion Hm|].
  apply Forall2_cons_inv_l in Hm as (z & m' & Hyz & Hm & ->). constructor; [by etrans|auto].
Qed.

Lemma schema_equiv_trans s1 s2 s3 : schema_equiv s1 s2 -> schema_equiv s2 s3 -> schema_equiv s1 s3.
Proof.
  intros (Hb1 & Hp1 & ts1 & Hperm1 & Hf1) (Hb2 & Hp2 & ts2 & Hperm2 & Hf2).
  split; [congruence|]. split; [congruence|].
  apply Forall2_flip in Hf1. destruct (Permutation_Forall2 Hperm2 Hf1) as (k & Hk & Hkf).
  exists k. split; [by rewrite Hperm1|]. apply Forall2_flip in Hkf.
  by eapply tables_equiv_trans.
Qed.

Lemma sort_by_perm {A} (proj : A -> string) l k :
  NoDup (proj <$> l) -> l ≡ₚ k -> sort_by proj l = sort_by proj k.
Proof.
  intros Hnd Hp. apply (sorted_unique proj).
  - by rewrite sort_by_Permutation.
  - by rewrite !sort_by_Permutation.
  - apply sort_by_Sorted.
  - apply sort_by_Sorted.
Qed.

Lemma constraint_names_NoDup t :
  NoDup (constraint_names t) -> NoDup (index_name <$> indexes t) /\ NoDup (fk_name <$> foreignKeys t).
Proof. unfold constraint_names. rewrite !NoDup_app. naive_solver. Qed.

Lemma canonicalTable_eq b s t u : table_ok b s t -> table_equiv t u -> canonicalTable t = canonicalTable u.
Proof.
  intros (_ & _ & _ & _ & Hnc & _ & _ & [Hni Hnf]%constraint_names_NoDup & _) [].
  unfold canonicalTable. f_equal; try done; by apply sort_by_perm.
Qed.

Lemma sorted_map_canonical ts :
  StronglySorted (name_le table_name) ts ->
  StronglySorted (name_le table_name) (map canonicalTable ts).
Proof.
  induction 1 as [|t ts _ IH Hall]; simpl; constructor; [done|].
  apply Forall_fmap. by eapply Forall_impl; [exact Hall|].
Qed.

Lemma names_map_canonical ts : table_name <$> map canonicalTable ts = table_name <$> ts.
Proof. induction ts as [|t ts IH]; cbn; [done|]. f_equal. apply IH. Qed.

Lemma canonicalSchema_eq b s1 s2 :
  schema_ok b s1 -> schema_equiv s1 s2 -> canonicalSchema s1 = canonicalSchema s2.
Proof.
  intros (_ & _ & _ & Hnd & Ht) (Hb & Hp & ts & Hperm & Hf).
  unfold canonicalSchema, with_tables. f_equal; [done|done|].
  assert (map canonicalTable ts = map canonicalTable (tables s2)) as Heq.
  { assert (forall t, t ∈ ts -> table_ok b s1 t) as Hts by (intros t Hin; apply Ht; by rewrite Hperm).
    clear -Hf Hts. induction Hf as [|x y l k Hxy _ IH]; simpl; [done|]. f_equal.
    - eapply canonicalTable_eq; [apply Hts; left|done].
    - apply IH. intros t Hin. apply Hts. by right. }
  apply (sorted_unique table_name).
  - by rewrite names_map_canonical, sort_by_Permutation.
  - rewrite !sort_by_Permutation, <- Heq. by rewrite Hperm.
  - apply sorted_map_canonical, sort_by_Sorted.
  - apply sorted_map_canonical, sort_by_Sorted.
Qed.

(** What canonical order is. *)
Definition table_sorted (t : PhysicalTable) : Prop :=
  StronglySorted (name_le col_name) (columns t) /\
  StronglySorted (name_le fk_name) (foreignKeys t) /\
  StronglySorted (name_le index_name) (indexes t).
Definition schema_sorted (s : PhysicalSchema) : Prop :=
  StronglySorted (name_le table_name) (tables s) /\ Forall table_sorted (tables s).

Lemma canonicalSchema_sorted s : schema_sorted (canonicalSchema s).
Proof.
  split; simpl; [apply sorted_map_canonical, sort_by_Sorted|].
  apply Forall_fmap, Forall_forall. intros t _. repeat split; apply sort_by_Sorted.
Qed.

Lemma canonicalSchema_idemp b s :
  schema_ok b s -> canonicalSchema (canonicalSchema s) = canonicalSchema s.
Proof.
  intros H. symmetry. eapply canonicalSchema_eq; [done|]. apply canonicalSchema_equiv.
Qed.
End canonical_form.

(** ** Every table of a valid schema can be rendered *)
Section renderable.
Lemma validName_of_ok b n : name_ok b n -> validName n = true.
Proof. by intros [? _]. Qed.

Lemma key_ok_valid b s t ns :
  table_ok b s t -> key_ok t ns -> Forall (fun n => validName n = true) ns.
Proof.
  intros (_ & _ & _ & _ & _ & Hcol & _) [_ Hk]. apply Forall_forall. intros n Hn.
  destruct (Hk n Hn) as [c Hc]. apply find_by_Some in Hc as [Hc <-].
  destruct (Hcol c Hc) as ((? & _) & _). done.
Qed.

Lemma table_ok_wf b s t : schema_ok b s -> t ∈ tables s -> wf_table t.
Proof.
  intros (_ & _ & _ & _ & Hall) Hin. pose proof (Hall t Hin) as Ht.
  destruct (Ht) as ((Hn & _) & _ & Hc & _ & _ & Hcol & (Hpk & _ & Hpe & Hpn) & _ & Hix & Hfk).
  unfold wf_table. split; [done|]. split; [done|].
  assert (primaryKeyName t = "" \/ validName (primaryKeyName t) = true) as Hname.
  { destruct (decide (primaryKeyName t = "")) as [|Hne]; [by left|]. right.
    by destruct (Hpn Hne) as ((? & _) & _). }
  split; [|split; [|split; [|split; [|split]]]].
  - apply Forall_forall. intros c Hcin. destruct (Hcol c Hcin) as ((? & _) & ? & _ & _ & ?). done.
  - destruct Hname as [->%Hpe|]; auto.
  - destruct Hname; auto.
  - by eapply key_ok_valid.
  - apply Forall_forall. intros i Hi. destruct (Hix i Hi) as ((? & _) & _ & Hk).
    split; [done|]. by eapply key_ok_valid.
  - apply Forall_forall. intros k Hk.
    destruct (Hfk k Hk) as ((? & _) & ? & ? & ? & ? & Hkc & _ & u & Hu & _ & Hku & _).
    apply find_by_Some in Hu as [Hu Hun].
    destruct (Hall u Hu) as ((Hnu & _) & _). rewrite Hun in Hnu.
    repeat (split; [done|]). split; [by eapply key_ok_valid|].
    eapply key_ok_valid; [by apply Hall|done].
Qed.
End renderable.

(** ** What capture records of a model *)
Section expansion.
Context (model : ModelView) (resolve : resolver) (name : string).

(** A physical column that takes its type from the model column [c]. *)
Definition column_of (n : string) (c : ColumnView) (isNullable isAuto : bool) (p : PhysicalColumn) : Prop :=
  col_name p = n /\ cv_type c = Some (logicalType p) /\
  resolve (logicalType p) (cv_maxStringLength c) = Ok (sqlType_of p) /\
  maxStringLength p = cv_maxStringLength c /\ nullable p = isNullable /\ autoIncrement p = isAuto.

(** A foreign key from a table to the primary key of [target], and the
    columns that hold it. *)
Definition refers (c : ColumnView) (ps : list PhysicalColumn) (k : PhysicalForeignKey) : Prop :=
  exists target keys,
    arrow (resolveColumnTarget model c) = Some target /\ keyColumns target = Ok keys /\ keys <> [] /\
    targetTable k = mv_tableName target /\ targetColumns k = map cv_name keys /\
    fk_columns k = map col_name ps /\
    Forall2 (fun key => column_of (cv_name c +:+ "_" +:+ cv_name key) key (negb (cv_isNotNull c)) false) keys ps /\
    onDelete k = "NO ACTION" /\ onUpdate k = "NO ACTION" /\
    fk_name k = constraintName "fk" name (fk_columns k) (targetTable k) (targetColumns k).

(** The columns and foreign keys one model column becomes. *)
Definition expands (c : ColumnView) (group : list PhysicalColumn * list PhysicalForeignKey) : Prop :=
  match cv_kind c with
  | Scalar => exists p, group = ([p], []) /\
      column_of (cv_name c) c (negb (cv_isNotNull c)) (cv_isAutoIncrement c) p
  | ToOne => exists k, group.2 = [k] /\ refers c group.1 k
  end.

Definition append_group (t : PhysicalTable) (g : list PhysicalColumn * list PhysicalForeignKey) :=
  MkTable (table_name t) (columns t ++ g.1) (primaryKey t) (primaryKeyName t) (foreignKeys t ++ g.2)
    (indexes t) (options t).

Lemma scalarColumn_Ok n c nl p : scalarColumn n c nl resolve = Ok p -> column_of n c nl false p.
Proof.
  unfold scalarColumn. destruct (cv_type c) as [type|] eqn:Ht; [|done].
  intros H. result_inv. subst p. by repeat split.
Qed.

Lemma expandReference_Ok c keys t k t' k' :
  foldM (expandReference resolve c) (t, k) keys = Ok (t', k') ->
  exists ps,
    Forall2 (fun key => column_of (cv_name c +:+ "_" +:+ cv_name key) key (negb (cv_isNotNull c)) false) keys ps /\
    t' = append_group t (ps, []) /\
    k' = MkForeignKey (fk_name k) (fk_columns k ++ map col_name ps) (targetTable k)
           (targetColumns k ++ map cv_name keys) (onDelete k) (onUpdate k).
Proof.
  revert t k. induction keys as [|key keys IH]; intros t k; simpl.
  - intros [= -> ->]. exists []. split; [constructor|]. split; unfold append_group; simpl.
    + destruct t'; simpl. by rewrite !app_nil_r.
    + destruct k'; simpl. by rewrite !app_nil_r.
  - intros (st & Hst & H)%bind_Ok_iff.
    apply bind_Ok_iff in Hst as (p & Hp%scalarColumn_Ok & [= <-]).
    apply IH in H as (ps & Hps & -> & ->).
    exists (p :: ps). split; [by constructor|]. destruct Hp as (Hn & _).
    unfold append_group. simpl. rewrite <- !app_assoc. simpl. by rewrite Hn.
Qed.

Lemma expandColumn_Ok t c t' :
  table_name t = name -> expandColumn model resolve t c = Ok t' ->
  exists g, expands c g /\ t' = append_group t g.
Proof.
  unfold expandColumn, expands. intros Hname. destruct (cv_kind c); simpl.
  - intros (p & (? & ? & ? & ? & ? & _)%scalarColumn_Ok & [= <-])%bind_Ok_iff.
    exists ([with_autoIncrement p (cv_isAutoIncrement c)], []). split.
    + eexists. split; [reflexivity|]. by repeat split.
    + unfold append_group, add_column, with_columns. simpl. by rewrite app_nil_r.
  - destruct (arrow (resolveColumnTarget model c)) as [target|] eqn:Ht; [|done].
    intros (keys & Hkeys & H)%bind_Ok_iff.
    apply seq_Ok_iff in H as [Hne H]. apply invalid_if_Ok_iff in Hne. bool_to_prop.
    apply bind_Ok_iff in H as ([t1 k1] & (ps & Hps & -> & ->)%expandReference_Ok & [= <-]).
    exists (ps, [MkForeignKey (constraintName "fk" name (map col_name ps) (mv_tableName target) (map cv_name keys))
                  (map col_name ps) (mv_tableName target) (map cv_name keys) "NO ACTION" "NO ACTION"]).
    split; simpl.
    + eexists. split; [reflexivity|]. exists target, keys. repeat split; try done. by intros ->.
    + unfold append_group, add_foreignKey, foreignKeyName. simpl. by rewrite app_nil_r, Hname.
Qed.

Lemma expandColumns_Ok cs t t' :
  table_name t = name -> foldM (expandColumn model resolve) t cs = Ok t' ->
  exists gs, Forall2 expands cs gs /\ t' = append_group t (concat (map fst gs), concat (map snd gs)).
Proof.
  revert t. induction cs as [|c cs IH]; intros t Hname; simpl.
  - intros [= ->]. exists []. split; [constructor|]. unfold append_group. simpl.
    rewrite !app_nil_r. by destruct t'.
  - intros H. result_inv. apply expandColumn_Ok in Hok as (g & Hg & ->); [|done].
    apply IH in H as (gs & Hgs & ->); [|done]. exists (g :: gs). split; [by constructor|].
    unfold append_group. simpl. by rewrite <- !app_assoc.
Qed.
End expansion.

(** The table a model becomes. *)
Definition model_table (resolve : resolver) (mysqlPrimaryKey : bool) (model : ModelView) (t : PhysicalTable) : Prop :=
  exists m keys groups,
    arrow model = Some m /\ keyColumns m = Ok keys /\
    table_name t = mv_tableName m /\ primaryKey t = map cv_name keys /\
    primaryKeyName t = (if bool_decide (keys = []) then ""
                        else if mysqlPrimaryKey then "PRIMARY"
                        else constraintName "pk" (mv_tableName m) (map cv_name keys) "" []) /\
    Forall2 (expands model resolve (mv_tableName m)) (mv_columns m) groups /\
    columns t = concat (map fst groups) /\ foreignKeys t = concat (map snd groups).

Lemma expandTable_Ok model resolve my t :
  expandTable model resolve my = Ok t -> model_table resolve my model t /\ indexes t = [] /\ options t = "".
Proof.
  unfold expandTable, model_table. destruct (arrow model) as [m|]; [|done].
  intros (keys & Hk & H)%bind_Ok_iff. cbv zeta in H. simpl in H.
  apply (expandColumns_Ok model resolve (mv_tableName m)) in H as (gs & Hgs & ->);
    [|by case_bool_decide].
  split; [|by case_bool_decide]. exists m, keys, gs. destruct keys as [|key keys]; by repeat split.
Qed.

Lemma physicalTable_Ok model b t :
  physicalTable model b = Ok t ->
  model_table (sqlType b) (family b) model t /\ options t = tableOptions b /\
  (family b = true -> forall k, k ∈ foreignKeys t -> supported_by t (fk_columns k) = true).
Proof.
  unfold physicalTable. intros [_ (u & (Hm & _)%expandTable_Ok & [= <-])%bind_Ok_iff]%seq_Ok_iff.
  unfold finishTable. set (v := with_options (tableOptions b) u).
  assert (model_table (sqlType b) (family b) model v) as Hv by done.
  destruct (family b); [|done].
  destruct (foreignKeyIndexes_extends v) as (ixs & He & _). unfold extends in He.
  pose proof (foreignKeyIndexes_supports v) as Hs. rewrite He in *. done.
Qed.

Section capture.
Lemma emptySnapshot_Ok bs s :
  emptySnapshot bs = Ok s ->
  formatVersion s = 1%Z /\ BackendMap.sorted (backends s) /\ map fst (backends s) ≡ₚ bs /\
  (forall b p, (b, p) ∈ backends s -> tables p = []).
Proof.
  unfold emptySnapshot. intros (m & Hm & [_ [= <-]]%seq_Ok_iff)%bind_Ok_iff. simpl. split; [done|].
  change bs with ([] ++ bs)%list.
  assert (exists pre : list BackendType, pre = [] /\ BackendMap.sorted ([] : BackendMap.t PhysicalSchema) /\
    map fst ([] : BackendMap.t PhysicalSchema) ≡ₚ pre /\
    (forall b p, (b, p) ∈ ([] : BackendMap.t PhysicalSchema) -> tables p = [])) as (pre & <- & Hs & Hp & Ht).
  { exists []. split; [done|]. split; [constructor|]. split; [done|]. by intros b p ?%not_elem_of_nil. }
  revert pre Hm Hs Hp Ht. generalize ([] : BackendMap.t PhysicalSchema) as acc.
  induction bs as [|b bs IH]; intros acc pre; simpl.
  - intros [= ->] Hs Hp Ht. by rewrite app_nil_r.
  - intros (m' & [_ (p & Hpr & [Hc%invalid_if_Ok_iff [= <-]]%seq_Ok_iff)%bind_Ok_iff]%seq_Ok_iff & H)%bind_Ok_iff
      Hs Hp Ht.
    assert (BackendMap.find b acc = None) as Hn.
    { unfold BackendMap.contains in Hc. rewrite bool_decide_eq_false in Hc. by apply eq_None_not_Some. }
    pose proof (BackendMap.emplace_Permutation b (MkSchema b p []) acc Hn) as Hperm.
    apply (IH _ (pre ++ [b])%list) in H as (? & H & ?).
    + rewrite <- app_assoc in H. by repeat split.
    + by apply BackendMap.emplace_sorted.
    + rewrite Hperm. simpl. rewrite Hp. by rewrite Permutation_app_comm.
    + intros c q. rewrite Hperm. intros [[= -> ->]|Hin]%elem_of_cons; [done|by eapply Ht].
Qed.

(** The tables one model adds to a schema. *)
Definition captured (models : SchemaView) (b : BackendType) (index : nat) (ts : list PhysicalTable) : Prop :=
  exists t js, ts = t :: js /\ physicalTable (at_index models (N.of_nat index)) b = Ok t /\
               physicalJunctions (at_index models (N.of_nat index)) b = Ok js.

Lemma captureModels_Ok models b ixs ts ts' :
  foldM (captureModel models b) ts ixs = Ok ts' ->
  exists groups, Forall2 (captured models b) ixs groups /\ ts' = (ts ++ concat groups)%list.
Proof.
  revert ts. induction ixs as [|i ixs IH]; intros ts; simpl.
  - intros [= ->]. exists []. split; [constructor|]. simpl. by rewrite app_nil_r.
  - intros (ts1 & (t & Ht & (js & Hjs & [= <-])%bind_Ok_iff)%bind_Ok_iff & H)%bind_Ok_iff.
    apply IH in H as (gs & Hgs & ->). exists ((t :: js) :: gs). split.
    + constructor; [by exists t, js|done].
    + by rewrite <- app_assoc.
Qed.

Lemma capture_Ok models bs s :
  capture models bs = Ok s ->
  snapshot_ok s /\ BackendMap.sorted (backends s) /\ map fst (backends s) ≡ₚ bs /\
  (forall b p, (b, p) ∈ backends s -> schema_sorted p /\
     exists groups, Forall2 (captured models b) (seq 0 (length models)) groups /\
       tables p ≡ₚ map canonicalTable (concat groups)).
Proof.
  intros (e & (Hf & Hs & Hp & Ht)%emptySnapshot_Ok & (m & Hm & [Hv [= <-]]%seq_Ok_iff)%bind_Ok_iff)%bind_Ok_iff.
  apply validateSnapshot_snapshot_ok in Hv. split; [done|]. clear Hv. simpl.
  apply mapM_Ok_iff in Hm.
  assert (map fst m = map fst (backends e)) as Hfst.
  { clear -Hm. induction Hm as [|x y l k Hxy _ IH]; simpl; [done|].
    apply bind_Ok_iff in Hxy as (ts & _ & [= <-]). by f_equal. }
  assert (map fst (map (fun kv : BackendType * PhysicalSchema => (kv.1, canonicalSchema kv.2)) m)
          = map fst (backends e)) as Hfst'.
  { rewrite map_map. simpl. by rewrite <- Hfst. }
  split; [|split; [by rewrite Hfst', Hp|]].
  - unfold BackendMap.sorted in *. revert Hfst'. generalize (map (fun kv => (kv.1, canonicalSchema kv.2)) m).
    clear -Hs. induction Hs as [|x l _ IH Hall]; intros [|y k]; try done; [constructor|].
    intros [= Hxy Hk]. constructor; [by apply IH|]. apply Forall_forall. intros z Hz.
    apply (list_elem_of_fmap_2 fst) in Hz. change (fst <$> k) with (map fst k) in Hz. rewrite Hk in Hz.
    apply list_elem_of_fmap in Hz as (z' & Hzz & Hz'). rewrite Forall_forall in Hall.
    specialize (Hall z' Hz'). rewrite Hzz, Hxy. done.
  - intros b p ([b' p'] & [= -> ->] & Hin)%list_elem_of_fmap. split; [apply canonicalSchema_sorted|].
    apply list_elem_of_lookup in Hin as [i Hi].
    destruct (Forall2_lookup_r _ _ _ _ _ Hm Hi) as ([c q] & Hci & H).
    apply bind_Ok_iff in H as (ts & Hts & [= <- <-]). simpl in Hts.
    rewrite (Ht c q) in Hts by (by eapply list_elem_of_lookup_2).
    apply captureModels_Ok in Hts as (gs & Hgs & ->). exists gs. split; [done|].
    simpl. by rewrite sort_by_Permutation.
Qed.
End capture.

(** ** Theorems *)

(** [validateSnapshot] accepts a snapshot exactly when it is well formed:
    version 1 with a backend; and for each schema its backend and profile,
    unique and legal table, column, key and index names, types in the frozen
    grammar, canonical native temporal types, bounded strings in range,
    auto-increment only on the single non-null integer key, keys over known
    columns without repetition, and foreign keys that name a table, match an
    ordered unique key of it column by column in type and nullability and, on
    MySQL and MariaDB, have a supporting index. *)
Theorem validateSnapshot_iff s : validateSnapshot s = Ok tt <-> snapshot_ok s.
Proof. apply validateSnapshot_snapshot_ok. Qed.

(** canonical order is a normal form: two schemas, one of them valid, that
    differ only in the order of tables, columns, keys and indexes become
    equal, and schemas that become equal differ only in that order; the result
    is sorted by name at every level and is its own canonical form. *)
Theorem canonical_form b s1 s2 :
  validateSchema b s1 = Ok tt ->
  (schema_equiv s1 s2 <-> canonicalSchema s1 = canonicalSchema s2) /\
  schema_sorted (canonicalSchema s1) /\
  canonicalSchema (canonicalSchema s1) = canonicalSchema s1.
Proof.
  intros Hv%validateSchema_Ok_iff. split; [|split; [apply canonicalSchema_sorted|by eapply canonicalSchema_idemp]].
  split; [by eapply canonicalSchema_eq|]. intros Heq.
  eapply schema_equiv_trans; [apply canonicalSchema_equiv|]. rewrite Heq.
  apply schema_equiv_sym, canonicalSchema_equiv.
Qed.

(** validation does not depend on the order of tables, columns, keys and
    indexes: a snapshot and its canonical form are accepted together. *)
Theorem validate_canonicalize s :
  validateSnapshot (canonicalize s) = Ok tt <-> validateSnapshot s = Ok tt.
Proof. rewrite !validateSnapshot_snapshot_ok. apply canonicalize_ok. Qed.

(** every table of a snapshot that [validateSnapshot] accepts can be
    rendered: [renderCreateTable] throws for none of them, with or without
    foreign keys. *)
Theorem valid_tables_render s b p t foreignKeys ifNotExists :
  validateSnapshot s = Ok tt -> (b, p) ∈ backends s -> t ∈ tables p ->
  exists sql, renderCreateTable b t foreignKeys ifNotExists = Ok sql.
Proof.
  intros (_ & _ & Hs)%validateSnapshot_snapshot_ok Hb Ht. pose proof (Hs b p Hb) as Hok.
  apply renderCreateTable_is_ok; [apply Hok|]. by eapply table_ok_wf.
Qed.

Lemma canonicalize_idemp s : snapshot_ok s -> canonicalize (canonicalize s) = canonicalize s.
Proof.
  intros (_ & _ & Hs). unfold canonicalize. cbn [formatVersion backends]. f_equal. rewrite map_map.
  apply map_ext_in. intros [b p] Hin%list_elem_of_In. cbn [fst snd]. f_equal.
  by apply (canonicalSchema_idemp b), Hs.
Qed.

(** a captured snapshot is valid and canonical, has exactly the requested
    backends in their order, and each of its schemas holds exactly the table
    of every model and of every junction the model owns. *)
Theorem capture_sound models bs s :
  capture models bs = Ok s ->
  validateSnapshot s = Ok tt /\ canonicalize s = s /\
  BackendMap.sorted (backends s) /\ map fst (backends s) ≡ₚ bs /\
  (forall b p, (b, p) ∈ backends s ->
     exists groups, Forall2 (captured models b) (seq 0 (length models)) groups /\
       tables p ≡ₚ map canonicalTable (concat groups)).
Proof.
  intros H. pose proof H as (Hv & Hs & Hp & Ht)%capture_Ok.
  split; [by apply validateSnapshot_snapshot_ok|]. split; [|naive_solver].
  apply bind_Ok_iff in H as (e & _ & (m & _ & [_ [= Hc]]%seq_Ok_iff)%bind_Ok_iff).
  rewrite <- Hc. apply canonicalize_idemp, canonicalize_ok. by rewrite Hc.
Qed.

(** the table of a model carries its key and its columns in the model's order;
    each scalar field becomes one column of its type, nullability and length,
    and each to-one field one foreign key onto the target's whole primary key,
    over columns that inherit the key's types in the key's order, with a name
    made of its endpoints; on MySQL and MariaDB an index or the primary key
    supports each foreign key. *)
Theorem physicalTable_expands model b t :
  physicalTable model b = Ok t ->
  model_table (sqlType b) (family b) model t /\ options t = tableOptions b /\
  (family b = true -> forall k, k ∈ foreignKeys t -> supported_by t (fk_columns k) = true).
Proof. apply physicalTable_Ok. Qed.

(** ** A schema of two models: a user and the posts that refer to it. *)
Definition sample_column (name : string) (type : ColumnType) (isKey isAuto : bool) : ColumnView :=
  MkColumnView 0 name name (Some type) Scalar noTargetModel isKey isAuto true None.
Definition sample_reference (name : string) (target : N) : ColumnView :=
  MkColumnView 0 name name None ToOne target false false false None.
Definition sample_models : SchemaView :=
  [Some (MkModelDataView 0 "Post" "posts"
     [sample_column "id" ColumnType.Int true true; sample_reference "author" 1] [0%N] []);
   Some (MkModelDataView 1 "User" "users" [sample_column "id" ColumnType.Int true false] [0%N] [])].
Definition sample_column_row (name : string) (isNullable isAuto : bool) : PhysicalColumn :=
  MkColumn name ColumnType.Int "INTEGER" isNullable None isAuto.
Definition sample_posts : PhysicalTable :=
  MkTable "posts" [sample_column_row "author_id" true false; sample_column_row "id" false true] ["id"] "pk1"
    [MkForeignKey "fk1" ["author_id"] "users" ["id"] "NO ACTION" "NO ACTION"] [] "".
Definition sample_users : PhysicalTable :=
  MkTable "users" [sample_column_row "id" false false] ["id"] "pk2" [] [] "".
Definition sample_schema : PhysicalSchema := MkSchema Sqlite "orm-cxx-ddl-v1:sqlite" [sample_posts; sample_users].
Definition sample_snapshot : SchemaSnapshot := MkSnapshot 1 [(Sqlite, sample_schema)].

Lemma canonical_form_witness :
  canonicalSchema (with_tables sample_schema [sample_users; sample_posts]) = canonicalSchema sample_schema.
Proof.
  destruct (canonical_form Sqlite sample_schema (with_tables sample_schema [sample_users; sample_posts]))
    as [[H _] _]; [vm_compute; reflexivity|].
  symmetry. apply H. split; [done|]. split; [done|]. exists [sample_users; sample_posts].
  split; [constructor|]. repeat constructor.
Defined.

Lemma valid_tables_render_witness : exists sql, renderCreateTable Sqlite sample_posts true false = Ok sql.
Proof.
  apply (valid_tables_render sample_snapshot Sqlite sample_schema); [vm_compute; reflexivity|left|left].
Defined.

Lemma capture_sound_witness : exists s, canonicalize s = s /\ map fst (backends s) ≡ₚ [Sqlite].
Proof.
  destruct (capture sample_models [Sqlite]) as [s|e] eqn:H; [|vm_compute in H; discriminate H].
  exists s. destruct (capture_sound sample_models [Sqlite] s H) as (_ & ? & _ & ? & _). by split.
Defined.

Lemma physicalTable_expands_witness :
  exists t, physicalTable (at_index sample_models 0) Sqlite = Ok t /\ options t = "".
Proof.
  destruct (physicalTable (at_index sample_models 0) Sqlite) as [t|e] eqn:H; [|vm_compute in H; discriminate H].
  exists t. split; [done|]. by destruct (physicalTable_expands (at_index sample_models 0) Sqlite t H) as (_ & ? & _).
Defined.
