(* ===== verification/Diff.v ===== *)
(** Diff: the comparison of two snapshots, from src/migrations/SchemaDiff.cpp. *)
From S2P Require Import Prelude Foundation Chrono Values Codec Schema Sha256 Models PhysicalSql Snapshot.
Local Open Scope string_scope.

(** ** Renames and transformations *)
Definition tableNamed (s : PhysicalSchema) (name : string) : option PhysicalTable :=
  find_by table_name name (tables s).

Definition renamedTable (source : string) (d : GenerationDecisions) : string :=
  match find_by tr_from source (tableRenames d) with
  | Some r => tr_to r
  | None => source
  end.

Definition renamedColumn (table source : string) (d : GenerationDecisions) : string :=
  match find_by (fun r => (cr_table r, cr_from r)) (table, source) (columnRenames d) with
  | Some r => cr_to r
  | None => source
  end.

Definition is_some {A} (o : option A) : bool := match o with Some _ => true | None => false end.

Definition transformation (values : list ColumnTransformation) (table column : string) (b : BackendType)
    (requiresExpression : bool) : bool :=
  existsb (fun v =>
    bool_decide (tf_table v = table) && bool_decide (tf_column v = column) &&
    (BackendMap.contains b (expressions v)
     || negb requiresExpression && (is_some (constant v) || is_some (sourceColumn v)))) values.

(** ** Type changes that keep every value *)

(** A width in bits, zero for none, and whether the type is unsigned. *)
Definition integerRange (type : string) : N * bool :=
  let unsignedType := ends_with " UNSIGNED" type in
  let type := if unsignedType then take_str (String.length type - 9) type else type in
  if bool_decide (type = "TINYINT") then (8%N, unsignedType)
  else if bool_decide (type = "SMALLINT") then (16%N, unsignedType)
  else if bool_decide (type = "INT") || bool_decide (type = "INTEGER") then (32%N, unsignedType)
  else if bool_decide (type = "BIGINT") then (64%N, unsignedType)
  else (0%N, false).

Definition logicalRange (b : BackendType) (t : ColumnType) : N * bool :=
  match t with
  | ColumnType.Bool => (1%N, true)
  | ColumnType.Char => (8%N, false)
  | ColumnType.UnsignedChar => (8%N, true)
  | ColumnType.Short => (16%N, false)
  | ColumnType.UnsignedShort => (16%N, true)
  | ColumnType.Int => (32%N, false)
  | ColumnType.UnsignedInt => (32%N, true)
  | ColumnType.LongLong => (64%N, false)
  | ColumnType.UnsignedLongLong =>
      (if bool_decide (b = Sqlite) || bool_decide (b = Postgres) then 63%N else 64%N, true)
  | _ => (0%N, false)
  end.

(** [(oldUnsigned == newUnsigned && newWidth >= oldWidth) ||
    (oldUnsigned && !newUnsigned && newWidth > oldWidth)]. *)
Definition widens (old new : N * bool) : bool :=
  Bool.eqb old.2 new.2 && (old.1 <=? new.1)%N || old.2 && negb new.2 && (old.1 <? new.1)%N.

Definition canonicalNative (b : BackendType) (c : PhysicalColumn) : bool :=
  if bool_decide (b = Sqlite) then bool_decide (sqlType_of c = "TEXT")
  else
    let expected := match maxStringLength c with
                    | Some n => varchar n
                    | None => if bool_decide (b = Postgres) then "TEXT" else "LONGTEXT"
                    end in
    bool_decide (sqlType_of c = expected).

Definition logicalWidening (source target : PhysicalColumn) : bool :=
  match maxStringLength target, maxStringLength source with
  | None, _ => true
  | Some n, Some m => (m <=? n)%N
  | Some _, None => false
  end.

Definition sqliteInteger (type : string) : bool :=
  bool_decide (type ∈ ["TINYINT"; "SMALLINT"; "INTEGER"; "BIGINT"; "UNSIGNED BIG INT"]).

(** The refusals that the logical types alone decide. *)
Definition logicalSafe (b : BackendType) (old new : ColumnType) : bool :=
  let r := logicalRange b old in
  let s := logicalRange b new in
  if negb (r.1 =? 0)%N || negb (s.1 =? 0)%N
  then negb (r.1 =? 0)%N && negb (s.1 =? 0)%N && widens r s
  else bool_decide (old = new) || bool_decide (old = ColumnType.Float) && bool_decide (new = ColumnType.Double).

Definition safeTypeChange (b : BackendType) (source target : PhysicalColumn) : bool :=
  if bool_decide (logicalType source = ColumnType.String) && bool_decide (logicalType target = ColumnType.String)
  then logicalWidening source target &&
       (bool_decide (sqlType_of source = sqlType_of target)
        || canonicalNative b source && canonicalNative b target)
  else if negb (logicalSafe b (logicalType source) (logicalType target)) then false
  else if bool_decide (sqlType_of source = sqlType_of target) then true
  else if bool_decide (b = Sqlite) then sqliteInteger (sqlType_of source) && sqliteInteger (sqlType_of target)
  else
    let r := integerRange (sqlType_of source) in
    let s := integerRange (sqlType_of target) in
    negb (r.1 =? 0)%N && negb (s.1 =? 0)%N && widens r s.

Definition physicalColumnEqual (l r : PhysicalColumn) : bool :=
  bool_decide (logicalType l = logicalType r) && bool_decide (sqlType_of l = sqlType_of r)
  && bool_decide (nullable l = nullable r) && bool_decide (maxStringLength l = maxStringLength r)
  && bool_decide (autoIncrement l = autoIncrement r).

(** ** Recording changes *)
Definition approved (approvals : list string) (id : string) : bool := bool_decide (id ∈ approvals).

Definition encode_char (c : ascii) : string :=
  if bool_decide (c = "%"%char) then "%25" else if bool_decide (c = "/"%char) then "%2F" else String c "".

Definition component (value : string) : string := concat_map encode_char value.

Definition changeId (b : BackendType) (kind table object : string) : res string :=
  name ← backendName b;
  let result := name +:+ "/" +:+ kind +:+ "/" +:+ component table in
  Ok (if bool_decide (object = "") then result else result +:+ "/" +:+ component object).

Definition push_change (d : SchemaDiff) (c : SchemaChange) : SchemaDiff :=
  MkDiff (before d) (after d) (changes d ++ [c])%list (diagnostics d).

Definition addChange (d : SchemaDiff) (b : BackendType) (k : SchemaChangeKind) (label table object other : string)
    (loss needsInput : bool) (decisions : GenerationDecisions) : res SchemaDiff :=
  id ← changeId b label table object;
  Ok (push_change d (MkChange k b id table object other id loss
        (needsInput || loss && negb (approved (allowDataLossUp decisions) id)))).

Definition problem (d : SchemaDiff) (code message path : string) (b : BackendType) : SchemaDiff :=
  MkDiff (before d) (after d) (changes d) (diagnostics d ++ [MkDiagnostic code message path b true])%list.

Definition problem_if (c : bool) (d : SchemaDiff) (code message path : string) (b : BackendType) : SchemaDiff :=
  if c then problem d code message path b else d.

(** ** Checking the renames *)

(** [from == to || !sources.insert(from).second || !targets.insert(to).second || rest]:
    the inserts happen only as far as the disjunction is evaluated. *)
Definition insert_rename (equal : bool) (source target : string) (rest : bool)
    (seen : gset string * gset string) : bool * (gset string * gset string) :=
  let (sources, targets) := seen in
  if equal then (true, seen)
  else if bool_decide (source ∈ sources) then (true, seen)
  else
    let sources := {[source]} ∪ sources in
    if bool_decide (target ∈ targets) then (true, (sources, targets))
    else (rest, (sources, {[target]} ∪ targets)).

Definition validateTableRename (before after : PhysicalSchema) (decisions : GenerationDecisions)
    (state : SchemaDiff * (gset string * gset string)) (r : TableRename) : SchemaDiff * (gset string * gset string) :=
  let (d, seen) := state in
  let (bad, seen) := insert_rename (bool_decide (tr_from r = tr_to r)) (tr_from r) (tr_to r)
                       (negb (is_some (tableNamed before (tr_from r))) || negb (is_some (tableNamed after (tr_to r))))
                       seen in
  let d := problem_if bad d "invalid-rename"
             "Table renames must identify distinct existing source and target tables" (tr_from r)
             (schema_backend before) in
  let d := problem_if (is_some (tableNamed before (tr_to r))
                       && negb (existsb (fun i => bool_decide (tr_from i = tr_to r)) (tableRenames decisions)))
             d "rename-collision" "Table rename target is occupied by another source table" (tr_to r)
             (schema_backend before) in
  (d, seen).

Definition hasColumn (t : option PhysicalTable) (name : string) : bool :=
  match t with Some t => is_some (columnNamed t name) | None => false end.

(** The name a target table has in the source schema. *)
Definition sourceTableName (decisions : GenerationDecisions) (table : string) : string :=
  match find_by tr_to table (tableRenames decisions) with Some r => tr_from r | None => table end.

Definition validateColumnRename (before after : PhysicalSchema) (decisions : GenerationDecisions)
    (state : SchemaDiff * (gset string * gset string)) (r : ColumnRename) : SchemaDiff * (gset string * gset string) :=
  let (d, seen) := state in
  let source := tableNamed before (sourceTableName decisions (cr_table r)) in
  let target := tableNamed after (cr_table r) in
  let (bad, seen) := insert_rename (bool_decide (cr_from r = cr_to r))
                       (cr_table r +:+ "/" +:+ cr_from r) (cr_table r +:+ "/" +:+ cr_to r)
                       (negb (hasColumn source (cr_from r)) || negb (hasColumn target (cr_to r))) seen in
  let d := problem_if bad d "invalid-rename"
             "Column renames use the target table and existing source and target columns"
             (cr_table r +:+ "/" +:+ cr_from r) (schema_backend before) in
  let d := problem_if (hasColumn source (cr_to r)
                       && negb (existsb (fun i => bool_decide (cr_table i = cr_table r) && bool_decide (cr_from i = cr_to r))
                                  (columnRenames decisions)))
             d "rename-collision" "Column rename target is occupied by another source column"
             (cr_table r +:+ "/" +:+ cr_to r) (schema_backend before) in
  (d, seen).

Definition validateRenames (d : SchemaDiff) (before after : PhysicalSchema) (decisions : GenerationDecisions) : SchemaDiff :=
  let '(d, _) := fold_left (validateTableRename before after decisions) (tableRenames decisions) (d, (∅, ∅)) in
  let '(d, _) := fold_left (validateColumnRename before after decisions) (columnRenames decisions) (d, (∅, ∅)) in
  d.

(** ** Comparing one table *)
Definition timezoneConversion (old new : ColumnType) : bool :=
  bool_decide (old = ColumnType.LocalDateTime) && bool_decide (new = ColumnType.UtcTimestamp)
  || bool_decide (old = ColumnType.UtcTimestamp) && bool_decide (new = ColumnType.LocalDateTime).

(** The loop over the source's columns; the set holds the matched target names. *)
Definition compareSourceColumn (b : BackendType) (target : PhysicalTable) (decisions : GenerationDecisions)
    (state : SchemaDiff * gset string) (c : PhysicalColumn) : res (SchemaDiff * gset string) :=
  let (d, matched) := state in
  let table := table_name target in
  let targetName := renamedColumn table (col_name c) decisions in
  match columnNamed target targetName with
  | None =>
      d ← addChange d b DropColumn "drop-column" table (col_name c) "" true false decisions;
      Ok (d, matched)
  | Some targetColumn =>
      let matched := {[targetName]} ∪ matched in
      d ← (if bool_decide (col_name c = targetName) then Ok d
           else addChange d b RenameColumn "rename-column" table (col_name c) targetName false false decisions);
      d ← (if physicalColumnEqual c targetColumn then Ok d
           else
             let conversion := negb (safeTypeChange b c targetColumn) in
             let identity := negb (Bool.eqb (autoIncrement c) (autoIncrement targetColumn)) in
             let required := nullable c && negb (nullable targetColumn) in
             let missingConversion :=
               conversion && negb (transformation (conversions decisions) table targetName b
                                     (timezoneConversion (logicalType c) (logicalType targetColumn))) in
             let missingBackfill :=
               required && negb (transformation (backfills decisions) table targetName b false)
               && negb (transformation (conversions decisions) table targetName b false) in
             addChange d b AlterColumn "alter-column" table targetName "" (conversion || identity)
               (missingConversion || missingBackfill) decisions);
      Ok (d, matched)
  end.

Definition compareTargetColumn (b : BackendType) (target : PhysicalTable) (matched : gset string)
    (decisions : GenerationDecisions) (d : SchemaDiff) (c : PhysicalColumn) : res SchemaDiff :=
  if bool_decide (col_name c ∈ matched) then Ok d
  else addChange d b AddColumn "add-column" (table_name target) (col_name c) "" false
         (negb (nullable c) && negb (autoIncrement c)
          && negb (transformation (backfills decisions) (table_name target) (col_name c) b false)) decisions.

Definition comparePrimaryKey (b : BackendType) (source target : PhysicalTable) (decisions : GenerationDecisions)
    (d : SchemaDiff) : res SchemaDiff :=
  let mappedPrimary := map (fun c => renamedColumn (table_name target) c decisions) (primaryKey source) in
  if bool_decide (mappedPrimary <> primaryKey target) || bool_decide (primaryKeyName source <> primaryKeyName target)
  then addChange d b AlterPrimaryKey "alter-primary-key" (table_name target) "" ""
         (bool_decide (mappedPrimary <> primaryKey target)) false decisions
  else Ok d.

(** A foreign key of the source with its names in the target schema. *)
Definition mappedForeignKey (table : string) (decisions : GenerationDecisions) (k : PhysicalForeignKey) : PhysicalForeignKey :=
  let targetTable := renamedTable (targetTable k) decisions in
  MkForeignKey (fk_name k) (map (fun c => renamedColumn table c decisions) (fk_columns k)) targetTable
    (map (fun c => renamedColumn targetTable c decisions) (targetColumns k)) (onDelete k) (onUpdate k).

Definition mappedIndex (table : string) (decisions : GenerationDecisions) (i : PhysicalIndex) : PhysicalIndex :=
  MkIndex (index_name i) (map (fun c => renamedColumn table c decisions) (index_columns i)) (unique i).

Definition compareSourceKey (b : BackendType) (target : PhysicalTable) (decisions : GenerationDecisions)
    (d : SchemaDiff) (k : PhysicalForeignKey) : res SchemaDiff :=
  if bool_decide (mappedForeignKey (table_name target) decisions k ∈ foreignKeys target) then Ok d
  else addChange d b DropForeignKey "drop-foreign-key" (table_name target) (fk_name k) "" false false decisions.

Definition foreignKeyNamed (t : PhysicalTable) (name : string) : option PhysicalForeignKey :=
  find_by fk_name name (foreignKeys t).
Definition indexNamed (t : PhysicalTable) (name : string) : option PhysicalIndex :=
  find_by index_name name (indexes t).

Definition compareTargetKey (b : BackendType) (source target : PhysicalTable) (decisions : GenerationDecisions)
    (d : SchemaDiff) (k : PhysicalForeignKey) : res SchemaDiff :=
  if bool_decide (mappedForeignKey (table_name target) decisions <$> foreignKeyNamed source (fk_name k) = Some k)
  then Ok d
  else addChange d b AddForeignKey "add-foreign-key" (table_name target) (fk_name k) "" false false decisions.

Definition compareSourceIndex (b : BackendType) (target : PhysicalTable) (decisions : GenerationDecisions)
    (d : SchemaDiff) (i : PhysicalIndex) : res SchemaDiff :=
  if bool_decide (indexNamed target (index_name i) = Some (mappedIndex (table_name target) decisions i)) then Ok d
  else addChange d b DropIndex "drop-index" (table_name target) (index_name i) "" false false decisions.

Definition compareTargetIndex (b : BackendType) (source target : PhysicalTable) (decisions : GenerationDecisions)
    (d : SchemaDiff) (i : PhysicalIndex) : res SchemaDiff :=
  if bool_decide (mappedIndex (table_name target) decisions <$> indexNamed source (index_name i) = Some i) then Ok d
  else addChange d b AddIndex "add-index" (table_name target) (index_name i) "" false false decisions.

Definition compareTables (d : SchemaDiff) (before : PhysicalSchema) (source target : PhysicalTable)
    (decisions : GenerationDecisions) : res SchemaDiff :=
  let b := schema_backend before in
  d ← (if bool_decide (table_name source = table_name target) then Ok d
       else addChange d b RenameTable "rename-table" (table_name source) "" (table_name target) false false decisions);
  '(d, matched) ← foldM (compareSourceColumn b target decisions) (d, ∅) (columns source);
  d ← foldM (compareTargetColumn b target matched decisions) d (columns target);
  d ← comparePrimaryKey b source target decisions d;
  d ← foldM (compareSourceKey b target decisions) d (foreignKeys source);
  d ← foldM (compareTargetKey b source target decisions) d (foreignKeys target);
  d ← foldM (compareSourceIndex b target decisions) d (indexes source);
  foldM (compareTargetIndex b source target decisions) d (indexes target).

(** ** Comparing snapshots *)
Definition compareSourceTable (source target : PhysicalSchema) (b : BackendType) (decisions : GenerationDecisions)
    (state : SchemaDiff * gset string) (t : PhysicalTable) : res (SchemaDiff * gset string) :=
  let (d, matched) := state in
  let targetName := renamedTable (table_name t) decisions in
  match tableNamed target targetName with
  | None =>
      d ← addChange d b DropTable "drop-table" (table_name t) "" "" true false decisions;
      Ok (d, matched)
  | Some next =>
      if bool_decide (targetName ∈ matched)
      then Ok (problem d "rename-collision" "Two source tables map to the same target" targetName b, matched)
      else
        d ← compareTables d source t next decisions;
        Ok (d, {[targetName]} ∪ matched)
  end.

Definition compareTargetTable (b : BackendType) (matched : gset string) (decisions : GenerationDecisions)
    (d : SchemaDiff) (t : PhysicalTable) : res SchemaDiff :=
  if bool_decide (table_name t ∈ matched) then Ok d
  else addChange d b CreateTable "create-table" (table_name t) "" "" false false decisions.

Definition compareSchemas (after : BackendMap.t PhysicalSchema) (decisions : GenerationDecisions) (d : SchemaDiff)
    (kv : BackendType * PhysicalSchema) : res SchemaDiff :=
  let (b, source) := kv in
  match BackendMap.find b after with
  | None => Ok (problem d "backend-profile" "Backend profiles cannot change within a migration" "" b)
  | Some target =>
      if negb (bool_decide (schema_profile source = schema_profile target))
      then Ok (problem d "backend-profile" "Backend profiles cannot change within a migration" "" b)
      else
        let d := validateRenames d source target decisions in
        '(d, matched) ← foldM (compareSourceTable source target b decisions) (d, ∅) (tables source);
        foldM (compareTargetTable b matched decisions) d (tables target)
  end.

Definition checkApproval (d : SchemaDiff) (approval : string) : SchemaDiff :=
  problem_if (negb (existsb (fun c => bool_decide (change_id c = approval) && dataLoss c) (changes d)))
    d "unknown-approval" "Data-loss approval does not identify a risky change" approval Empty.

Definition with_changes (d : SchemaDiff) (cs : list SchemaChange) : SchemaDiff :=
  MkDiff (before d) (after d) cs (diagnostics d).

Definition compare (before_ after_ : SchemaSnapshot) (decisions : GenerationDecisions) : res SchemaDiff :=
  let result := MkDiff (canonicalize before_) (canonicalize after_) [] [] in
  validateSnapshot (before result) ;;
  validateSnapshot (after result) ;;
  let result := problem_if (negb (length (backends (before result)) =? length (backends (after result)))%nat)
                  result "backend-profile" "Snapshots must contain the same backend profiles" "" Empty in
  result ← foldM (compareSchemas (backends (after result)) decisions) result (backends (before result));
  let result := fold_left checkApproval (allowDataLossUp decisions) result in
  Ok (with_changes result (sort_by change_id (changes result))).

(** ** Safe type changes keep every value *)

(** The integers of a type of a width in bits. *)
Definition holds (r : N * bool) (z : Z) : Prop :=
  if r.2 then (0 <= z < 2 ^ Z.of_N r.1)%Z
  else (- 2 ^ (Z.of_N r.1 - 1) <= z < 2 ^ (Z.of_N r.1 - 1))%Z.

Section safe.
Lemma widens_holds r s z : (r.1 <> 0)%N -> widens r s = true -> holds r z -> holds s z.
Proof.
  destruct r as [m u], s as [n v]. unfold widens, holds. simpl. intros Hm Hw.
  apply orb_true_iff in Hw as [[Huv Hw]%andb_true_iff|[[Hu Hv]%andb_true_iff Hw]%andb_true_iff].
  - apply eqb_prop in Huv as ->. apply N.leb_le in Hw.
    pose proof (Z.pow_le_mono_r 2 (Z.of_N m) (Z.of_N n) ltac:(lia) ltac:(lia)).
    pose proof (Z.pow_le_mono_r 2 (Z.of_N m - 1) (Z.of_N n - 1) ltac:(lia) ltac:(lia)).
    destruct v; lia.
  - subst u. apply negb_true_iff in Hv as ->. apply N.ltb_lt in Hw.
    pose proof (Z.pow_le_mono_r 2 (Z.of_N m) (Z.of_N n - 1) ltac:(lia) ltac:(lia)). lia.
Qed.

Lemma safeTypeChange_logical b s t :
  safeTypeChange b s t = true ->
  logicalType s = ColumnType.String /\ logicalType t = ColumnType.String /\ logicalWidening s t = true \/
  logicalSafe b (logicalType s) (logicalType t) = true.
Proof.
  unfold safeTypeChange. case_bool_decide; simpl; [case_bool_decide; simpl|].
  - intros [? _]%andb_true_iff. by left.
  - destruct (logicalSafe _ _ _); [by right|done].
  - destruct (logicalSafe _ _ _); [by right|done].
Qed.

Lemma logicalSafe_holds b s t z :
  logicalSafe b s t = true -> ((logicalRange b s).1 <> 0)%N ->
  ((logicalRange b t).1 <> 0)%N /\ (holds (logicalRange b s) z -> holds (logicalRange b t) z).
Proof.
  unfold logicalSafe. intros H Hs. apply N.eqb_neq in Hs as Hs'. rewrite Hs' in H. simpl in H.
  apply andb_true_iff in H as [Ht%negb_true_iff Hw]. apply N.eqb_neq in Ht.
  split; [done|]. by apply widens_holds.
Qed.

Lemma safeTypeChange_physical b s t :
  safeTypeChange b s t = true -> b <> Sqlite -> sqlType_of s <> sqlType_of t ->
  ~ (logicalType s = ColumnType.String /\ logicalType t = ColumnType.String) ->
  (integerRange (sqlType_of s)).1 <> 0%N /\ (integerRange (sqlType_of t)).1 <> 0%N /\
  forall z, holds (integerRange (sqlType_of s)) z -> holds (integerRange (sqlType_of t)) z.
Proof.
  unfold safeTypeChange. intros H Hb Hs Hn.
  rewrite <- bool_decide_and in H. rewrite bool_decide_false in H by done.
  destruct (logicalSafe _ _ _); [|done]. simpl in H.
  rewrite !bool_decide_false in H by done.
  apply andb_true_iff in H as [[H1%negb_true_iff H2%negb_true_iff]%andb_true_iff Hw].
  apply N.eqb_neq in H1, H2. split; [done|]. split; [done|]. intros z. by apply widens_holds.
Qed.

Lemma physicalColumnEqual_eq s t :
  col_name s = col_name t -> physicalColumnEqual s t = true <-> s = t.
Proof.
  unfold physicalColumnEqual. destruct s, t; simpl. intros ->.
  rewrite !andb_true_iff, !bool_decide_eq_true. naive_solver.
Qed.
End safe.

(** ** Change identifiers *)
Section identifiers.
Lemma component_no_slash s : contains_char "/" (component s) = false.
Proof.
  induction s as [|c s IH]; [done|]. unfold component in *. simpl.
  rewrite contains_char_app, IH, orb_false_r. unfold encode_char.
  case_bool_decide; [done|]. case_bool_decide; [done|].
  unfold contains_char. simpl. by rewrite bool_decide_false.
Qed.

Lemma component_inj s t : component s = component t -> s = t.
Proof.
  revert t. induction s as [|c s IH]; intros [|d t]; unfold component in *; simpl; [done| | |];
    unfold encode_char in *; repeat case_bool_decide; subst; simpl; try done; intros [= Heq].
  all: try (by (f_equal; auto)). all: try congruence.
  all: subst; f_equal; auto.
Qed.

Lemma component_nonempty s : s <> "" -> component s <> "".
Proof. destruct s as [|c s]; [done|]. unfold component. simpl. unfold encode_char.
  by repeat case_bool_decide. Qed.

(** A text up to its first slash. *)
Lemma slash_inj s t u v :
  contains_char "/" s = false -> contains_char "/" t = false ->
  s +:+ String "/" u = t +:+ String "/" v -> s = t /\ u = v.
Proof.
  revert t. induction s as [|c s IH]; intros [|d t]; unfold contains_char in *; simpl; intros Hs Ht.
  - by intros [= ->].
  - intros [= <- _]. by rewrite bool_decide_true in Ht.
  - intros [= -> _]. by rewrite bool_decide_true in Hs.
  - apply orb_false_iff in Hs as [_ Hs], Ht as [_ Ht]. intros [= -> H].
    destruct (IH t) as [-> ->]; auto.
Qed.

Lemma no_slash_app s t v :
  contains_char "/" s = false -> s = t +:+ String "/" v -> False.
Proof. intros Hs ->. rewrite contains_char_app in Hs. apply orb_false_iff in Hs as [_ Hs]. done. Qed.

Lemma backendName_no_slash b n : backendName b = Ok n -> contains_char "/" n = false.
Proof. destruct b; simpl; try done; by intros [= <-]. Qed.

Lemma changeId_injective b k t o b' k' t' o' id :
  contains_char "/" k = false -> contains_char "/" k' = false ->
  changeId b k t o = Ok id -> changeId b' k' t' o' = Ok id ->
  b = b' /\ k = k' /\ t = t' /\ o = o'.
Proof.
  intros Hk Hk' (n & Hn & [= <-])%bind_Ok_iff (n' & Hn' & [= H])%bind_Ok_iff.
  pose proof (backendName_no_slash _ _ Hn) as Hs. pose proof (backendName_no_slash _ _ Hn') as Hs'.
  assert (forall m l u v : string,
    (if bool_decide (v = "") then m +:+ String "/" (l +:+ String "/" (component u))
     else (m +:+ String "/" (l +:+ String "/" (component u))) +:+ String "/" (component v)) =
    m +:+ String "/" (l +:+ String "/" (component u
      +:+ if bool_decide (v = "") then "" else String "/" (component v)))) as Hshape.
  { intros m l u v. clear H. case_bool_decide; [by rewrite app_str_nil_r|].
    rewrite app_str_assoc. simpl. by rewrite app_str_assoc. }
  simpl in H.
  rewrite !Hshape in H. symmetry in H.
  apply slash_inj in H as [-> H]; [|done|done]. apply slash_inj in H as [-> H]; [|done|done].
  pose proof (backendName_inj _ _ _ Hn Hn') as ->. split; [done|]. split; [done|].
  pose proof (component_no_slash t) as Ht. pose proof (component_no_slash t') as Ht'.
  case_bool_decide; case_bool_decide; subst; rewrite ?app_str_nil_r in H; simpl in H.
  - by apply component_inj in H as ->.
  - by apply no_slash_app in H.
  - symmetry in H. by apply no_slash_app in H.
  - apply slash_inj in H as [->%component_inj ->%component_inj]; done.
Qed.
End identifiers.

(** ** What a step of the comparison may do to the difference *)

(** The label of each kind in identifiers. *)
Definition kind_label (k : SchemaChangeKind) : string :=
  match k with
  | CreateTable => "create-table" | DropTable => "drop-table" | RenameTable => "rename-table"
  | AddColumn => "add-column" | DropColumn => "drop-column" | RenameColumn => "rename-column"
  | AlterColumn => "alter-column" | AlterPrimaryKey => "alter-primary-key"
  | AddForeignKey => "add-foreign-key" | DropForeignKey => "drop-foreign-key"
  | AddIndex => "add-index" | DropIndex => "drop-index"
  end.

(** A recorded change: its identifier names its kind and object, and it may only
    lose data unresolved or approved. *)
Definition change_ok (decisions : GenerationDecisions) (c : SchemaChange) : Prop :=
  changeId (change_backend c) (kind_label (kind c)) (change_table c) (change_column c) = Ok (change_id c) /\
  description c = change_id c /\
  (dataLoss c = true -> unresolved c = false -> change_id c ∈ allowDataLossUp decisions).

Record grows (decisions : GenerationDecisions) (d d' : SchemaDiff) : Prop := {
  g_before : before d' = before d;
  g_after : after d' = after d;
  g_changes : exists cs, changes d' = (changes d ++ cs)%list /\ Forall (change_ok decisions) cs;
  g_diagnostics : exists ds, diagnostics d' = (diagnostics d ++ ds)%list /\ Forall (fun i => diag_error i = true) ds
}.

#[export] Instance grows_preorder decisions : PreOrder (grows decisions).
Proof.
  split.
  - intros d. split; [done|done| |]; exists []; by rewrite app_nil_r.
  - intros d e f [Hb Ha (cs & Hc & Hcs) (ds & Hd & Hds)] [Hb' Ha' (cs' & Hc' & Hcs') (ds' & Hd' & Hds')].
    split; [congruence|congruence| |].
    + exists (cs ++ cs')%list. rewrite Hc', Hc, app_assoc. split; [done|]. by apply Forall_app.
    + exists (ds ++ ds')%list. rewrite Hd', Hd, app_assoc. split; [done|]. by apply Forall_app.
Qed.

Lemma foldM_grows {A} decisions (f : SchemaDiff -> A -> res SchemaDiff) l d d' :
  (forall d x d', f d x = Ok d' -> grows decisions d d') -> foldM f d l = Ok d' -> grows decisions d d'.
Proof.
  intros Hf H. eapply (foldM_inv (grows decisions d)); [reflexivity| |exact H].
  intros t t' x _ Ht Hx. etrans; [exact Ht|by eapply Hf].
Qed.

(** Splits a sequence of stages and shows that each one only grows the
    difference, by the hints of its loop bodies. *)
Ltac grow :=
  match goal with
  | H : (_ ≫= _) = Ok _ |- grows _ _ _ =>
      let e := fresh "e" in let He := fresh "He" in
      apply bind_Ok_iff in H as (e & He & H); transitivity e; [clear H|clear He]; grow
  | H : foldM _ _ _ = Ok _ |- grows _ _ _ => eapply foldM_grows; [|exact H]; eauto with grows
  | _ => eauto with grows
  end.
Create HintDb grows discriminated.

Section steps.
Context (decisions : GenerationDecisions).

Lemma kind_label_no_slash k : contains_char "/" (kind_label k) = false.
Proof. by destruct k. Qed.

Lemma addChange_Ok d b k t o other loss input d' :
  addChange d b k (kind_label k) t o other loss input decisions = Ok d' ->
  exists c, d' = push_change d c /\ change_ok decisions c /\
    kind c = k /\ change_backend c = b /\ change_table c = t /\ change_column c = o /\ dataLoss c = loss.
Proof.
  unfold addChange. intros (id & Hid & [= <-])%bind_Ok_iff. eexists. split; [reflexivity|].
  split; [|done]. split; [done|]. split; [done|]. simpl. intros ->. simpl.
  intros [_ Happ]%orb_false_iff. apply negb_false_iff in Happ. by apply bool_decide_eq_true in Happ.
Qed.

Lemma addChange_grows d b k t o other loss input d' :
  addChange d b k (kind_label k) t o other loss input decisions = Ok d' -> grows decisions d d'.
Proof.
  intros (c & -> & Hc & _)%addChange_Ok. split; [done|done|by exists [c]; auto|].
  exists []. simpl. split; [by rewrite app_nil_r|constructor].
Qed.

Lemma problem_if_grows c d code message path b : grows decisions d (problem_if c d code message path b).
Proof.
  destruct c; [|reflexivity]. split; [done|done| |eexists; split; [reflexivity|by repeat constructor]].
  exists []. simpl. by rewrite app_nil_r.
Qed.

Lemma foldM_grows_pair {A S} (f : SchemaDiff * S -> A -> res (SchemaDiff * S)) l s s' :
  (forall s x s', f s x = Ok s' -> grows decisions s.1 s'.1) -> foldM f s l = Ok s' -> grows decisions s.1 s'.1.
Proof.
  intros Hf H. eapply (foldM_inv (fun t => grows decisions s.1 t.1)); [reflexivity| |exact H].
  intros t t' x _ Ht Hx. etrans; [exact Ht|by eapply Hf].
Qed.

(** The step for one element of a loop, inside the loop. *)
Lemma foldM_step {A S} (R : relation S) `{!PreOrder R} (f : S -> A -> res S) l s s' x :
  (forall s x s', f s x = Ok s' -> R s s') -> foldM f s l = Ok s' -> x ∈ l ->
  exists t t', R s t /\ f t x = Ok t' /\ R t' s'.
Proof.
  intros Hf. revert s. induction l as [|y l IH]; intros s H Hx; [by apply not_elem_of_nil in Hx|].
  apply bind_Ok_iff in H as (t & Ht & H). apply elem_of_cons in Hx as [->|Hx].
  - exists s, t. split; [reflexivity|]. split; [done|].
    eapply (foldM_inv (R t)); [reflexivity| |exact H]. intros u u' z _ Hu Hz. etrans; eauto.
  - destruct (IH t H Hx) as (u & u' & ? & ? & ?). exists u, u'. split; [|done]. etrans; eauto.
Qed.

Lemma compareSourceColumn_grows b target s c s' :
  compareSourceColumn b target decisions s c = Ok s' -> grows decisions s.1 s'.1.
Proof.
  destruct s as [d m]. unfold compareSourceColumn. destruct (columnNamed _ _) as [tc|].
  - intros (d1 & H1 & (d2 & H2 & [= <-])%bind_Ok_iff)%bind_Ok_iff. simpl. transitivity d1.
    + case_bool_decide; [injection H1 as <-; reflexivity|].
      by apply (addChange_grows d b RenameColumn) in H1.
    + destruct (physicalColumnEqual c tc); [injection H2 as <-; reflexivity|].
      by apply (addChange_grows d1 b AlterColumn) in H2.
  - intros (d1 & H1 & [= <-])%bind_Ok_iff. by apply (addChange_grows d b DropColumn) in H1.
Qed.

(** A loop body that adds at most one change. *)
Lemma add_unless_grows (c : bool) d b k t o other loss input d' :
  (if c then Ok d else addChange d b k (kind_label k) t o other loss input decisions) = Ok d' ->
  grows decisions d d'.
Proof. destruct c; [by intros [= ->]|apply addChange_grows]. Qed.

Lemma comparePrimaryKey_grows b source target d d' :
  comparePrimaryKey b source target decisions d = Ok d' -> grows decisions d d'.
Proof.
  unfold comparePrimaryKey. destruct (_ || _); [|by intros [= ->]].
  apply (addChange_grows d b AlterPrimaryKey).
Qed.

Lemma compareTargetColumn_grows b u m d c d' :
  compareTargetColumn b u m decisions d c = Ok d' -> grows decisions d d'.
Proof. apply (add_unless_grows _ _ _ AddColumn). Qed.
Lemma compareSourceKey_grows b u d k d' : compareSourceKey b u decisions d k = Ok d' -> grows decisions d d'.
Proof. apply (add_unless_grows _ _ _ DropForeignKey). Qed.
Lemma compareTargetKey_grows b t u d k d' : compareTargetKey b t u decisions d k = Ok d' -> grows decisions d d'.
Proof. apply (add_unless_grows _ _ _ AddForeignKey). Qed.
Lemma compareSourceIndex_grows b u d i d' : compareSourceIndex b u decisions d i = Ok d' -> grows decisions d d'.
Proof. apply (add_unless_grows _ _ _ DropIndex). Qed.
Lemma compareTargetIndex_grows b t u d i d' : compareTargetIndex b t u decisions d i = Ok d' -> grows decisions d d'.
Proof. apply (add_unless_grows _ _ _ AddIndex). Qed.
Lemma compareTargetTable_grows b m d t d' : compareTargetTable b m decisions d t = Ok d' -> grows decisions d d'.
Proof. apply (add_unless_grows _ _ _ CreateTable). Qed.

#[local] Hint Resolve comparePrimaryKey_grows compareTargetColumn_grows compareSourceKey_grows
  compareTargetKey_grows compareSourceIndex_grows compareTargetIndex_grows compareTargetTable_grows : grows.

Lemma compareTables_grows d p source target d' :
  compareTables d p source target decisions = Ok d' -> grows decisions d d'.
Proof.
  unfold compareTables. intros (d1 & H1 & ([d2 m] & H2 & H)%bind_Ok_iff)%bind_Ok_iff.
  transitivity d1; [by apply (add_unless_grows _ _ _ RenameTable) in H1|].
  transitivity d2; [|grow]. by apply (foldM_grows_pair _ _ (d1, ∅) (d2, m)) in H2; [|apply compareSourceColumn_grows].
Qed.

Lemma fold_left_grows {A S} (f : SchemaDiff * S -> A -> SchemaDiff * S) l s :
  (forall s x, grows decisions s.1 (f s x).1) -> grows decisions s.1 (fold_left f l s).1.
Proof.
  intros Hf. revert s. induction l as [|x l IH]; intros s; simpl; [reflexivity|].
  etrans; [apply Hf|apply IH].
Qed.

Lemma validateRenames_grows d p q : grows decisions d (validateRenames d p q decisions).
Proof.
  unfold validateRenames.
  pose proof (fold_left_grows (validateTableRename p q decisions) (tableRenames decisions) (d, (∅, ∅))) as H1.
  destruct (fold_left _ (tableRenames decisions) _) as [d1 s1]. simpl in H1.
  pose proof (fold_left_grows (validateColumnRename p q decisions) (columnRenames decisions) (d1, (∅, ∅))) as H2.
  destruct (fold_left _ (columnRenames decisions) _) as [d2 s2]. simpl in H2.
  transitivity d1; [apply H1|apply H2]; intros [e seen] r;
    [unfold validateTableRename|unfold validateColumnRename];
    destruct (insert_rename _ _ _ _ _) as [bad seen']; simpl;
    etrans; apply problem_if_grows.
Qed.

Lemma compareSourceTable_grows p q b s t s' :
  compareSourceTable p q b decisions s t = Ok s' -> grows decisions s.1 s'.1.
Proof.
  destruct s as [d m]. unfold compareSourceTable. destruct (tableNamed _ _) as [next|].
  - case_bool_decide; [intros [= <-]; apply (problem_if_grows true)|].
    intros (d1 & H1%compareTables_grows & [= <-])%bind_Ok_iff. done.
  - intros (d1 & H1 & [= <-])%bind_Ok_iff. by apply (addChange_grows d b DropTable) in H1.
Qed.

Lemma compareSchemas_grows after d kv d' :
  compareSchemas after decisions d kv = Ok d' -> grows decisions d d'.
Proof.
  destruct kv as [b p]. unfold compareSchemas.
  destruct (BackendMap.find b after) as [q|]; [|intros [= <-]; apply (problem_if_grows true)].
  destruct (negb _); [intros [= <-]; apply (problem_if_grows true)|].
  intros ([d1 m] & H1%foldM_grows_pair & H)%bind_Ok_iff; [|apply compareSourceTable_grows].
  transitivity d1; [|grow]. etrans; [apply validateRenames_grows|exact H1].
Qed.
End steps.

#[export] Hint Resolve comparePrimaryKey_grows compareTargetColumn_grows compareSourceKey_grows
  compareTargetKey_grows compareSourceIndex_grows compareTargetIndex_grows compareTargetTable_grows
  compareTables_grows : grows.

(** ** Every loss of data is recorded *)

(** A change of a kind on an object that is marked as losing data. *)
Definition recorded (cs : list SchemaChange) (b : BackendType) (k : SchemaChangeKind) (table object : string) : Prop :=
  exists c, c ∈ cs /\ kind c = k /\ change_backend c = b /\ change_table c = table /\ change_column c = object /\
            dataLoss c = true.

(** What becomes of a source column [c] in the target table [u]. *)
Definition column_accounted (decisions : GenerationDecisions) (cs : list SchemaChange) (b : BackendType)
    (u : PhysicalTable) (c : PhysicalColumn) : Prop :=
  let targetName := renamedColumn (table_name u) (col_name c) decisions in
  match columnNamed u targetName with
  | None => recorded cs b DropColumn (table_name u) (col_name c)
  | Some tc => safeTypeChange b c tc = true \/ recorded cs b AlterColumn (table_name u) targetName
  end.

Definition table_accounted (decisions : GenerationDecisions) (cs : list SchemaChange) (b : BackendType)
    (q : PhysicalSchema) (t : PhysicalTable) : Prop :=
  match tableNamed q (renamedTable (table_name t) decisions) with
  | None => recorded cs b DropTable (table_name t) ""
  | Some u => forall c, c ∈ columns t -> column_accounted decisions cs b u c
  end.

Section accounting.
Context (decisions : GenerationDecisions).

Lemma recorded_mono cs cs' b k t o : (forall c, c ∈ cs -> c ∈ cs') -> recorded cs b k t o -> recorded cs' b k t o.
Proof. intros H (c & Hc & Hr). exists c. auto. Qed.

Lemma column_accounted_mono cs cs' b u c :
  (forall c, c ∈ cs -> c ∈ cs') -> column_accounted decisions cs b u c -> column_accounted decisions cs' b u c.
Proof.
  intros H. unfold column_accounted. destruct (columnNamed _ _); [|by apply recorded_mono].
  intros [?|Hr]; [by left|right]. by eapply recorded_mono.
Qed.

Lemma grows_elem d d' c : grows decisions d d' -> c ∈ changes d -> c ∈ changes d'.
Proof. intros [_ _ (cs & -> & _) _] Hc. apply elem_of_app. by left. Qed.

Lemma grows_quiet d d' : grows decisions d d' -> diagnostics d' = [] -> diagnostics d = [].
Proof. intros [_ _ _ (ds & -> & _)]. by intros [? _]%app_eq_nil. Qed.

Lemma addChange_recorded d b k t o other input d' :
  addChange d b k (kind_label k) t o other true input decisions = Ok d' -> recorded (changes d') b k t o.
Proof.
  intros (c & -> & _ & ? & ? & ? & ? & ?)%addChange_Ok. exists c. simpl. split; [|done].
  apply elem_of_app. right. by apply list_elem_of_singleton.
Qed.

Lemma widens_refl r : widens r r = true.
Proof. unfold widens. by rewrite eqb_reflx, N.leb_refl. Qed.

Lemma safeTypeChange_same b c tc :
  logicalType c = logicalType tc -> sqlType_of c = sqlType_of tc -> maxStringLength c = maxStringLength tc ->
  safeTypeChange b c tc = true.
Proof.
  intros Hl Hs Hm. unfold safeTypeChange, logicalWidening. rewrite Hl, Hs, Hm.
  rewrite !(bool_decide_true (sqlType_of tc = _)) by done.
  assert (match maxStringLength tc with
          | Some n => match maxStringLength tc with Some m => (m <=? n)%N | None => false end
          | None => true end = true) as ->.
  { destruct (maxStringLength tc); [apply N.leb_refl|done]. }
  case_bool_decide; [done|]. simpl.
  assert (logicalSafe b (logicalType tc) (logicalType tc) = true) as ->; [|done].
  unfold logicalSafe. rewrite widens_refl, bool_decide_true by done. by destruct (_ =? 0)%N.
Qed.

Lemma compareSourceColumn_accounted b u s c s' :
  compareSourceColumn b u decisions s c = Ok s' -> column_accounted decisions (changes s'.1) b u c.
Proof.
  destruct s as [d m]. unfold compareSourceColumn, column_accounted.
  destruct (columnNamed _ _) as [tc|].
  - intros (d1 & H1 & (d2 & H2 & [= <-])%bind_Ok_iff)%bind_Ok_iff. simpl.
    destruct (safeTypeChange b c tc) eqn:Hsafe; [by left|right].
    destruct (physicalColumnEqual c tc) eqn:He.
    + unfold physicalColumnEqual in He. bool_to_prop. rewrite safeTypeChange_same in Hsafe by done. done.
    + simpl in H2. by apply (addChange_recorded _ _ AlterColumn) in H2.
  - intros (d1 & H1 & [= <-])%bind_Ok_iff. by apply (addChange_recorded _ _ DropColumn) in H1.
Qed.

#[local] Instance grows_pair_preorder {S} : PreOrder (fun s s' : SchemaDiff * S => grows decisions s.1 s'.1).
Proof. split; [intros s; reflexivity|intros s t u; apply transitivity]. Qed.

Lemma compareTables_accounted d p t u d' c :
  compareTables d p t u decisions = Ok d' -> c ∈ columns t ->
  column_accounted decisions (changes d') (schema_backend p) u c.
Proof.
  unfold compareTables. intros (d1 & _ & ([d2 m] & H2 & H)%bind_Ok_iff)%bind_Ok_iff Hc.
  destruct (foldM_step (fun s s' : SchemaDiff * gset string => grows decisions s.1 s'.1) _ _ _ _ c
              (compareSourceColumn_grows decisions _ _) H2 Hc) as (s & s' & _ & Hstep & Hgr).
  apply compareSourceColumn_accounted in Hstep.
  eapply column_accounted_mono; [|exact Hstep]. intros x Hx. eapply grows_elem; [|exact Hx].
  etrans; [exact Hgr|]. simpl. grow.
Qed.

Lemma compareSourceTable_accounted p q b s t s' :
  schema_backend p = b -> compareSourceTable p q b decisions s t = Ok s' -> diagnostics s'.1 = [] ->
  table_accounted decisions (changes s'.1) b q t.
Proof.
  intros Hb. destruct s as [d m]. unfold compareSourceTable, table_accounted.
  destruct (tableNamed _ _) as [u|].
  - case_bool_decide; [intros [= <-] Hq; by apply app_eq_nil in Hq as [_ ?]|].
    intros (d1 & H1 & [= <-])%bind_Ok_iff _ c Hc. simpl. subst b. by eapply compareTables_accounted.
  - intros (d1 & H1 & [= <-])%bind_Ok_iff _. by apply (addChange_recorded _ _ DropTable) in H1.
Qed.

Lemma compareSchemas_accounted after d b p d' :
  schema_backend p = b -> compareSchemas after decisions d (b, p) = Ok d' -> diagnostics d' = [] ->
  exists q, BackendMap.find b after = Some q /\ schema_profile p = schema_profile q /\
    forall t, t ∈ tables p -> table_accounted decisions (changes d') b q t.
Proof.
  intros Hb. unfold compareSchemas.
  destruct (BackendMap.find b after) as [q|];
    [|intros [= <-] Hq; by apply app_eq_nil in Hq as [_ ?]].
  case_bool_decide as Hp; simpl; [|intros [= <-] Hq; by apply app_eq_nil in Hq as [_ ?]].
  intros ([d1 m] & H1 & H)%bind_Ok_iff Hq. exists q. split; [done|]. split; [done|]. intros t Ht.
  destruct (foldM_step (fun s s' : SchemaDiff * gset string => grows decisions s.1 s'.1) _ _ _ _ t
              (compareSourceTable_grows decisions _ _ _) H1 Ht) as (s & s' & _ & Hstep & Hgr).
  simpl in Hgr. assert (grows decisions s'.1 d') as Hg by (etrans; [exact Hgr|grow]).
  apply compareSourceTable_accounted in Hstep; [|done|by eapply grows_quiet].
  unfold table_accounted in *. destruct (tableNamed _ _).
  - intros c Hc. eapply column_accounted_mono; [|by apply Hstep]. intros x. by apply grows_elem.
  - eapply recorded_mono; [|exact Hstep]. intros x. by apply grows_elem.
Qed.
End accounting.

(** ** The comparison without decisions finds every difference *)
Definition quiet (d : SchemaDiff) : Prop := changes d = [] /\ diagnostics d = [].

(** Two tables that the comparison does not tell apart. *)
Definition table_same (source target : PhysicalTable) : Prop :=
  table_name source = table_name target /\
  (forall c, c ∈ columns source -> columnNamed target (col_name c) = Some c) /\
  (forall c, c ∈ columns target -> col_name c ∈ col_name <$> columns source) /\
  primaryKey source = primaryKey target /\ primaryKeyName source = primaryKeyName target /\
  (forall k, k ∈ foreignKeys source -> k ∈ foreignKeys target) /\
  (forall k, k ∈ foreignKeys target -> foreignKeyNamed source (fk_name k) = Some k) /\
  (forall i, i ∈ indexes source -> indexNamed target (index_name i) = Some i) /\
  (forall i, i ∈ indexes target -> indexNamed source (index_name i) = Some i).

Section quiet_steps.
Abbreviation D := no_decisions.

Lemma grows_quiet_both d d' : grows D d d' -> quiet d' -> quiet d.
Proof.
  unfold quiet. intros [_ _ (cs & -> & _) (ds & -> & _)] [Hc Hd].
  by apply app_eq_nil in Hc as [? _], Hd as [? _].
Qed.

Lemma addChange_not_quiet d b k t o other loss input d' :
  addChange d b k (kind_label k) t o other loss input D = Ok d' -> quiet d' -> False.
Proof. unfold quiet. intros (c & -> & _)%addChange_Ok [Hc _]. by apply app_eq_nil in Hc as [_ ?]. Qed.

Lemma add_unless_quiet (P : Prop) `{Decision P} d b k t o other loss input d' :
  (if bool_decide P then Ok d else addChange d b k (kind_label k) t o other loss input D) = Ok d' /\ quiet d' <->
  P /\ d' = d /\ quiet d.
Proof.
  case_bool_decide; split.
  - by intros [[= ->] ?].
  - by intros (_ & -> & ?).
  - intros [Ha Hq]. destruct (addChange_not_quiet _ _ _ _ _ _ _ _ _ Ha Hq).
  - by intros [? _].
Qed.

Lemma foldM_quiet {A} (f : SchemaDiff -> A -> res SchemaDiff) (cond : A -> Prop) l d d' :
  (forall d x d', f d x = Ok d' -> grows D d d') ->
  (forall d x d', x ∈ l -> f d x = Ok d' /\ quiet d' <-> cond x /\ d' = d /\ quiet d) ->
  foldM f d l = Ok d' /\ quiet d' <-> (forall x, x ∈ l -> cond x) /\ d' = d /\ quiet d.
Proof.
  intros Hg. induction l as [|x l IH]; intros Hf; simpl.
  - split; [|naive_solver]. intros [[= ->] Hq]. split; [by intros ? ?%not_elem_of_nil|done].
  - pose proof (fun d d' => Hf d x d' (list_elem_of_here _ _)) as Hx.
    specialize (IH (fun d y d' Hy => Hf d y d' (list_elem_of_further _ _ _ Hy))). split.
    + intros [(d1 & H1 & H)%bind_Ok_iff Hq].
      assert (quiet d1) as Hq1 by (eapply grows_quiet_both; [|done]; by eapply foldM_grows).
      destruct (proj1 (Hx d d1) (conj H1 Hq1)) as (Hc & -> & _).
      destruct (proj1 IH (conj H Hq)) as (Hl & -> & _). split; [|done].
      intros y [->|Hy]%elem_of_cons; auto.
    + intros (Hl & -> & Hq). destruct (proj2 (Hx d d)) as [-> _].
      { split; [apply Hl; left|done]. }
      simpl. apply IH. split; [intros y Hy; apply Hl; by right|done].
Qed.

Lemma renamedTable_id s : renamedTable s D = s. Proof. done. Qed.
Lemma renamedColumn_id t s : renamedColumn t s D = s. Proof. done. Qed.

Lemma map_renamed_id t l : map (fun c => renamedColumn t c D) l = l.
Proof. induction l as [|x l IH]; simpl; [done|]. by rewrite IH. Qed.

Lemma mappedForeignKey_id t k : mappedForeignKey t D k = k.
Proof. unfold mappedForeignKey. rewrite !map_renamed_id. by destruct k. Qed.
Lemma mappedIndex_id t i : mappedIndex t D i = i.
Proof. unfold mappedIndex. rewrite !map_renamed_id. by destruct i. Qed.

Lemma fmap_id_option {A} (f : A -> A) (o : option A) : (forall x, f x = x) -> f <$> o = o.
Proof. intros Hf. destruct o; simpl; [by rewrite Hf|done]. Qed.

Lemma compareSourceColumn_quiet b u s c s' :
  compareSourceColumn b u D s c = Ok s' /\ quiet s'.1 <->
  columnNamed u (col_name c) = Some c /\ s' = (s.1, {[col_name c]} ∪ s.2) /\ quiet s.1.
Proof.
  destruct s as [d m]. unfold compareSourceColumn. rewrite renamedColumn_id.
  destruct (columnNamed u (col_name c)) as [tc|] eqn:Htc; split.
  - rewrite bool_decide_true by done. simpl. intros [(d2 & H2 & [= <-])%bind_Ok_iff Hq]. simpl in *.
    assert (col_name c = col_name tc) as Hn by (apply find_by_Some in Htc; naive_solver).
    destruct (physicalColumnEqual c tc) eqn:He.
    + apply physicalColumnEqual_eq in He as ->; [|done]. injection H2 as <-. done.
    + destruct (addChange_not_quiet d b AlterColumn _ _ _ _ _ _ H2 Hq).
  - intros ([= ->] & -> & Hq). rewrite bool_decide_true by done. simpl.
    by rewrite (proj2 (physicalColumnEqual_eq c c eq_refl) eq_refl).
  - intros [(d1 & H1 & [= <-])%bind_Ok_iff Hq].
    destruct (addChange_not_quiet d b DropColumn _ _ _ _ _ _ H1 Hq).
  - by intros ([=] & _).
Qed.

Lemma compareSourceColumns_quiet b u s l s' :
  foldM (compareSourceColumn b u D) s l = Ok s' /\ quiet s'.1 <->
  (forall c, c ∈ l -> columnNamed u (col_name c) = Some c) /\
  s' = (s.1, list_to_set (col_name <$> l) ∪ s.2) /\ quiet s.1.
Proof.
  revert s. induction l as [|c l IH]; intros s; simpl.
  - rewrite (left_id_L ∅ (∪)). destruct s as [d m]. split.
    + intros [[= <-] Hq]. split; [by intros ? ?%not_elem_of_nil|done].
    + by intros (_ & -> & Hq).
  - split.
    + intros [(s1 & H1 & H)%bind_Ok_iff Hq].
      assert (quiet s1.1) as Hq1.
      { eapply grows_quiet_both; [|exact Hq]. by eapply foldM_grows_pair; [apply compareSourceColumn_grows|]. }
      destruct (proj1 (compareSourceColumn_quiet _ _ _ _ _) (conj H1 Hq1)) as (Hc & -> & Hqs).
      destruct (proj1 (IH _) (conj H Hq)) as (Hl & -> & _). simpl. split; [|split; [f_equal; set_solver|done]].
      intros x [->|Hx]%elem_of_cons; auto.
    + intros (Hl & -> & Hq).
      destruct (proj2 (compareSourceColumn_quiet b u s c (s.1, {[col_name c]} ∪ s.2))) as [-> _].
      { split; [apply Hl; left|done]. }
      simpl. apply (IH (s.1, {[col_name c]} ∪ s.2)).
      split; [intros x Hx; apply Hl; by right|]. split; [simpl; f_equal; set_solver|done].
Qed.

Lemma comparePrimaryKey_quiet b t u d d' :
  comparePrimaryKey b t u D d = Ok d' /\ quiet d' <->
  (primaryKey t = primaryKey u /\ primaryKeyName t = primaryKeyName u) /\ d' = d /\ quiet d.
Proof.
  unfold comparePrimaryKey. rewrite map_renamed_id. split.
  - intros [H Hq]. case_bool_decide as Hp; [destruct (addChange_not_quiet d b AlterPrimaryKey _ _ _ _ _ _ H Hq)|].
    simpl in H. case_bool_decide as Hn; [destruct (addChange_not_quiet d b AlterPrimaryKey _ _ _ _ _ _ H Hq)|].
    injection H as <-. done.
  - intros ([-> ->] & -> & Hq). by rewrite !bool_decide_false by (intros Hn; by apply Hn).
Qed.

(** A loop that records every element for which a test fails. *)
Lemma add_unless_loop {A} (P : A -> Prop) `{!forall x, Decision (P x)} b k (t o oth : A -> string)
    (loss input : A -> bool) l d d' :
  foldM (fun d x => if bool_decide (P x) then Ok d
                    else addChange d b k (kind_label k) (t x) (o x) (oth x) (loss x) (input x) D) d l = Ok d' /\
  quiet d' <-> (forall x, x ∈ l -> P x) /\ d' = d /\ quiet d.
Proof.
  apply foldM_quiet; [intros e x e'; apply add_unless_grows|intros e x e' _; apply add_unless_quiet].
Qed.

(** One stage of a sequence of stages. *)
Lemma bind_quiet (m : res SchemaDiff) (k : SchemaDiff -> res SchemaDiff) d d' (cond : Prop) :
  (forall d1, m = Ok d1 /\ quiet d1 <-> cond /\ d1 = d /\ quiet d) ->
  (forall d1 d', k d1 = Ok d' -> grows D d1 d') ->
  (m ≫= k) = Ok d' /\ quiet d' <-> cond /\ k d = Ok d' /\ quiet d'.
Proof.
  intros Hm Hk. split.
  - intros [(d1 & H1 & H)%bind_Ok_iff Hq].
    destruct (proj1 (Hm d1)) as (? & -> & _); [|done].
    split; [done|]. eapply grows_quiet_both; [by apply Hk|done].
  - intros (Hc & H & Hq). destruct (proj2 (Hm d)) as [-> _]; [|done].
    split; [done|]. split; [done|]. eapply grows_quiet_both; [by apply Hk|done].
Qed.

Lemma targetColumns_quiet b u m l d d' :
  foldM (compareTargetColumn b u m D) d l = Ok d' /\ quiet d' <->
  (forall c, c ∈ l -> col_name c ∈ m) /\ d' = d /\ quiet d.
Proof. apply (add_unless_loop (fun c => col_name c ∈ m) b AddColumn). Qed.

Lemma sourceKeys_quiet b u l d d' :
  foldM (compareSourceKey b u D) d l = Ok d' /\ quiet d' <->
  (forall k, k ∈ l -> k ∈ foreignKeys u) /\ d' = d /\ quiet d.
Proof.
  etrans; [apply (add_unless_loop
    (fun k => mappedForeignKey (table_name u) D k ∈ foreignKeys u) b DropForeignKey)|].
  by setoid_rewrite mappedForeignKey_id.
Qed.

Lemma targetKeys_quiet b t u l d d' :
  foldM (compareTargetKey b t u D) d l = Ok d' /\ quiet d' <->
  (forall k, k ∈ l -> foreignKeyNamed t (fk_name k) = Some k) /\ d' = d /\ quiet d.
Proof.
  etrans; [apply (add_unless_loop
    (fun k => mappedForeignKey (table_name u) D <$> foreignKeyNamed t (fk_name k) = Some k) b AddForeignKey)|].
  by setoid_rewrite (fmap_id_option _ _ (mappedForeignKey_id (table_name u))).
Qed.

Lemma sourceIndexes_quiet b u l d d' :
  foldM (compareSourceIndex b u D) d l = Ok d' /\ quiet d' <->
  (forall i, i ∈ l -> indexNamed u (index_name i) = Some i) /\ d' = d /\ quiet d.
Proof.
  etrans; [apply (add_unless_loop
    (fun i => indexNamed u (index_name i) = Some (mappedIndex (table_name u) D i)) b DropIndex)|].
  by setoid_rewrite mappedIndex_id.
Qed.

Lemma targetIndexes_quiet b t u l d d' :
  foldM (compareTargetIndex b t u D) d l = Ok d' /\ quiet d' <->
  (forall i, i ∈ l -> indexNamed t (index_name i) = Some i) /\ d' = d /\ quiet d.
Proof.
  etrans; [apply (add_unless_loop
    (fun i => mappedIndex (table_name u) D <$> indexNamed t (index_name i) = Some i) b AddIndex)|].
  by setoid_rewrite (fmap_id_option _ _ (mappedIndex_id (table_name u))).
Qed.

Lemma compareTables_quiet d p t u d' :
  table_name t = table_name u ->
  compareTables d p t u D = Ok d' /\ quiet d' <-> table_same t u /\ d' = d /\ quiet d.
Proof.
  intros Hn. unfold compareTables, table_same. rewrite bool_decide_true by done. simpl.
  set (b := schema_backend p).
  assert (forall m d1 d', (
    d ← foldM (compareTargetColumn b u m D) d1 (columns u);
    d ← comparePrimaryKey b t u D d;
    d ← foldM (compareSourceKey b u D) d (foreignKeys t);
    d ← foldM (compareTargetKey b t u D) d (foreignKeys u);
    d ← foldM (compareSourceIndex b u D) d (indexes t);
    foldM (compareTargetIndex b t u D) d (indexes u)) = Ok d' /\ quiet d' <->
    (forall c, c ∈ columns u -> col_name c ∈ m) /\
    (primaryKey t = primaryKey u /\ primaryKeyName t = primaryKeyName u) /\
    (forall k, k ∈ foreignKeys t -> k ∈ foreignKeys u) /\
    (forall k, k ∈ foreignKeys u -> foreignKeyNamed t (fk_name k) = Some k) /\
    (forall i, i ∈ indexes t -> indexNamed u (index_name i) = Some i) /\
    (forall i, i ∈ indexes u -> indexNamed t (index_name i) = Some i) /\ d' = d1 /\ quiet d1) as Hrest.
  { intros m d1 e. rewrite (bind_quiet _ _ _ _ _ (targetColumns_quiet b u m (columns u) d1)) by (intros; grow).
    rewrite (bind_quiet _ _ _ _ _ (comparePrimaryKey_quiet b t u d1)) by (intros; grow).
    rewrite (bind_quiet _ _ _ _ _ (sourceKeys_quiet b u (foreignKeys t) d1)) by (intros; grow).
    rewrite (bind_quiet _ _ _ _ _ (targetKeys_quiet b t u (foreignKeys u) d1)) by (intros; grow).
    rewrite (bind_quiet _ _ _ _ _ (sourceIndexes_quiet b u (indexes t) d1)) by (intros; grow).
    by rewrite targetIndexes_quiet. }
  split.
  - intros [([d1 m] & H1 & H)%bind_Ok_iff Hq].
    destruct (proj1 (Hrest m d1 d') (conj H Hq)) as (Hc & [Hpk Hpn] & Hk & Hk' & Hi & Hi' & -> & Hq1).
    destruct (proj1 (compareSourceColumns_quiet b u (d, ∅) _ (d1, m)) (conj H1 Hq1)) as (Hs & [= -> ->] & _).
    split; [|done]. repeat (split; [done|]). split; [|done].
    intros c Hcu. specialize (Hc c Hcu). set_solver.
  - intros ((_ & Hs & Hc & Hpk & Hpn & Hk & Hk' & Hi & Hi') & -> & Hq).
    destruct (proj2 (compareSourceColumns_quiet b u (d, ∅) (columns t) (d, list_to_set (col_name <$> columns t) ∪ ∅)))
      as [-> _]; [done|].
    apply (Hrest _ d). split; [|done]. intros c Hcu. specialize (Hc c Hcu). set_solver.
Qed.

(** Two schemas that the comparison does not tell apart. *)
Definition schema_same (p q : PhysicalSchema) : Prop :=
  (forall t, t ∈ tables p -> exists u, tableNamed q (table_name t) = Some u /\ table_same t u) /\
  (forall u, u ∈ tables q -> table_name u ∈ table_name <$> tables p).

Lemma compareSourceTables_quiet p q b s l s' :
  NoDup (table_name <$> l) -> (forall t, t ∈ l -> table_name t ∉ s.2) ->
  foldM (compareSourceTable p q b D) s l = Ok s' /\ quiet s'.1 <->
  (forall t, t ∈ l -> exists u, tableNamed q (table_name t) = Some u /\ table_same t u) /\
  s' = (s.1, list_to_set (table_name <$> l) ∪ s.2) /\ quiet s.1.
Proof.
  revert s. induction l as [|t l IH]; intros [d m] Hnd Hm; simpl.
  - rewrite (left_id_L ∅ (∪)). split.
    + intros [[= <-] Hq]. split; [by intros ? ?%not_elem_of_nil|done].
    + by intros (_ & -> & Hq).
  - apply NoDup_cons in Hnd as [Ht Hnd].
    assert (forall u, tableNamed q (table_name t) = Some u -> table_name t = table_name u) as Hun.
    { intros u Hu. apply find_by_Some in Hu. naive_solver. }
    assert (forall x, x ∈ l -> table_name x ∉ {[table_name t]} ∪ m) as Hm'.
    { intros x Hx [Hin%elem_of_singleton|Hin]%elem_of_union.
      - apply Ht. rewrite <- Hin. by apply list_elem_of_fmap_2.
      - apply (Hm x); [by right|done]. }
    unfold compareSourceTable at 1. rewrite renamedTable_id. split.
    + intros [(s1 & H1 & H)%bind_Ok_iff Hq].
      assert (quiet s1.1) as Hq1.
      { eapply grows_quiet_both; [|exact Hq]. by eapply foldM_grows_pair; [apply compareSourceTable_grows|]. }
      destruct (tableNamed q (table_name t)) as [u|] eqn:Hu.
      * rewrite bool_decide_false in H1 by (apply Hm; left).
        apply bind_Ok_iff in H1 as (d1 & H1 & [= <-]).
        destruct (proj1 (compareTables_quiet _ _ _ _ _ (Hun u eq_refl)) (conj H1 Hq1)) as (Hs & -> & _).
        destruct (proj1 (IH (d, {[table_name t]} ∪ m) Hnd Hm') (conj H Hq)) as (Hl & -> & _). simpl.
        split; [|split; [f_equal; set_solver|done]].
        intros x [->|Hx]%elem_of_cons; [by exists u|auto].
      * apply bind_Ok_iff in H1 as (d1 & H1 & [= <-]).
        destruct (addChange_not_quiet d b DropTable _ _ _ _ _ _ H1 Hq1).
    + intros (Hl & -> & Hq). destruct (Hl t) as (u & Hu & Hs); [left|]. rewrite Hu.
      rewrite bool_decide_false by (apply Hm; left).
      destruct (proj2 (compareTables_quiet d p t u d (Hun u Hu))) as [-> _]; [done|]. simpl.
      apply (IH (d, {[table_name t]} ∪ m)); [done|done|].
      split; [intros x Hx; apply Hl; by right|]. split; [simpl; f_equal; set_solver|done].
Qed.

Lemma validateRenames_id d p q : validateRenames d p q D = d.
Proof. done. Qed.

Lemma compareSchemas_quiet after d b p d' :
  NoDup (table_name <$> tables p) ->
  compareSchemas after D d (b, p) = Ok d' /\ quiet d' <->
  (exists q, BackendMap.find b after = Some q /\ schema_profile p = schema_profile q /\ schema_same p q) /\
  d' = d /\ quiet d.
Proof.
  intros Hnd. unfold compareSchemas.
  assert (forall c m x y e, quiet (problem e c m x y) -> False) as Hproblem.
  { intros c m x y e [_ Hq]. by apply app_eq_nil in Hq as [_ ?]. }
  destruct (BackendMap.find b after) as [q|];
    [|split; [intros [[= <-] Hq]; by apply Hproblem in Hq|naive_solver]].
  case_bool_decide as Hp; simpl;
    [|split; [intros [[= <-] Hq]; by apply Hproblem in Hq|naive_solver]].
  rewrite validateRenames_id. split.
  - intros [([d1 m] & H1 & H)%bind_Ok_iff Hq].
    destruct (proj1 (add_unless_loop (fun t => table_name t ∈ m) b CreateTable _ _ _ _ _ _ _ _) (conj H Hq))
      as (Ht & -> & Hq1).
    destruct (proj1 (compareSourceTables_quiet p q b (d, ∅) _ (d1, m) Hnd ltac:(set_solver)) (conj H1 Hq1))
      as (Hs & [= -> ->] & _).
    split; [|done]. exists q. repeat (split; [done|]). intros u Hu. specialize (Ht u Hu). set_solver.
  - intros ((q' & [= <-] & _ & Hs & Ht) & -> & Hq).
    destruct (proj2 (compareSourceTables_quiet p q b (d, ∅) (tables p)
      (d, list_to_set (table_name <$> tables p) ∪ ∅) Hnd ltac:(set_solver))) as [-> _]; [done|].
    apply (add_unless_loop (fun t => table_name t ∈ list_to_set (C := gset string) (table_name <$> tables p) ∪ ∅)
      b CreateTable). split; [|done]. intros u Hu. specialize (Ht u Hu). set_solver.
Qed.
End quiet_steps.

(** ** Schemas the comparison does not tell apart are equal *)
Section same.
Lemma members_sorted {A} (proj : A -> string) l k :
  NoDup (proj <$> l) -> NoDup (proj <$> k) -> (forall x, x ∈ l <-> x ∈ k) ->
  StronglySorted (name_le proj) l -> StronglySorted (name_le proj) k -> l = k.
Proof.
  intros Hl Hk Hm. apply (sorted_unique proj); [done|].
  apply NoDup_Permutation; [by eapply NoDup_fmap_1|by eapply NoDup_fmap_1|done].
Qed.

Lemma find_by_inv {A K} `{EqDecision K} (proj : A -> K) l x y :
  NoDup (proj <$> l) -> find_by proj (proj x) l = Some y -> x ∈ l -> x = y.
Proof. intros Hnd Hf Hx. rewrite find_by_NoDup in Hf by done. congruence. Qed.

Lemma table_same_eq b p q t u :
  table_ok b p t -> table_ok b q u -> table_sorted t -> table_sorted u -> table_same t u -> t = u.
Proof.
  intros (_ & _ & _ & Hto & Htc & _ & _ & [Hti Htk]%constraint_names_NoDup & _)
    (_ & _ & _ & Huo & Huc & _ & _ & [Hui Huk]%constraint_names_NoDup & _)
    (Stc & Stk & Sti) (Suc & Suk & Sui) (Hn & Hc & Hc' & Hpk & Hpn & Hk & Hk' & Hi & Hi').
  assert (columns t = columns u) as Heqc.
  { apply (members_sorted col_name); [done|done| |done|done]. intros c. split.
    - intros H%Hc. by apply find_by_Some in H as [? _].
    - intros H. pose proof (Hc' c H) as (c' & Hcc & Hc'')%list_elem_of_fmap.
      pose proof (Hc c' Hc'') as Hf. unfold columnNamed in Hf. rewrite <- Hcc in Hf.
      apply find_by_inv in Hf as ->; done. }
  assert (foreignKeys t = foreignKeys u) as Heqk.
  { apply (members_sorted fk_name); [done|done| |done|done]. intros k. split; [apply Hk|].
    intros H%Hk'. by apply find_by_Some in H as [? _]. }
  assert (indexes t = indexes u) as Heqi.
  { apply (members_sorted index_name); [done|done| |done|done]. intros i. split.
    - intros H%Hi. by apply find_by_Some in H as [? _].
    - intros H%Hi'. by apply find_by_Some in H as [? _]. }
  destruct t, u; simpl in *. congruence.
Qed.

Lemma schema_same_eq b p q :
  schema_ok b p -> schema_ok b q -> schema_sorted p -> schema_sorted q -> schema_same p q -> p = q.
Proof.
  intros (_ & Hpb & Hpp & Hpn & Hpt) (_ & Hqb & Hqp & Hqn & Hqt) [Sp Spt] [Sq Sqt] [Hs Ht].
  rewrite Forall_forall in Spt, Sqt.
  assert (forall t, t ∈ tables p -> t ∈ tables q) as Hin.
  { intros t H. destruct (Hs t H) as (u & Hu & Hsame). apply find_by_Some in Hu as [Hu _].
    by rewrite (table_same_eq b p q t u) by auto. }
  assert (tables p = tables q) as Heq.
  { apply (members_sorted table_name); [done|done| |done|done]. intros u. split; [apply Hin|].
    intros H. pose proof (Ht u H) as (t & Hut & Htp)%list_elem_of_fmap.
    pose proof (find_by_NoDup table_name (tables q) u Hqn H) as Hf.
    pose proof (find_by_NoDup table_name (tables q) t Hqn (Hin t Htp)) as Hf'.
    rewrite Hut in Hf. congruence. }
  destruct p, q; simpl in *. congruence.
Qed.

Lemma schema_same_refl b p : schema_ok b p -> schema_same p p.
Proof.
  intros (_ & _ & _ & Hn & Ht). split; [|intros u Hu; by apply list_elem_of_fmap_2].
  intros t Hin. exists t. split; [by apply find_by_NoDup|].
  destruct (Ht t Hin) as (_ & _ & _ & _ & Hc & _ & _ & [Hi Hk]%constraint_names_NoDup & _).
  split; [done|]. split; [intros c H; by apply find_by_NoDup|].
  split; [intros c H; by apply list_elem_of_fmap_2|]. split; [done|]. split; [done|].
  split; [done|]. split; [intros k H; by apply find_by_NoDup|].
  split; intros i H; by apply find_by_NoDup.
Qed.

Lemma BackendMap_sorted_NoDup {V} (m : BackendMap.t V) : BackendMap.sorted m -> NoDup m.*1.
Proof.
  induction 1 as [|[b v] m _ IH Hall]; simpl; constructor; [|done].
  intros ([c w] & Hc & Hin)%list_elem_of_fmap. rewrite Forall_forall in Hall.
  specialize (Hall _ Hin). simpl in *. subst. lia.
Qed.

Lemma BackendMap_eq {V} (m n : BackendMap.t V) :
  BackendMap.sorted m -> BackendMap.sorted n -> length m = length n ->
  (forall b v, (b, v) ∈ m -> BackendMap.find b n = Some v) -> m = n.
Proof.
  intros Hm Hn Hl Hin. apply (StronglySorted_unique_strong
    (fun x y : BackendType * V => (backend_number x.1 < backend_number y.1)%Z)); [|done|done|].
  - intros x y _ _ Hxy Hyx. lia.
  - apply submseteq_length_Permutation; [|lia].
    apply NoDup_submseteq; [by eapply NoDup_fmap_1, BackendMap_sorted_NoDup|].
    intros [b v] H. by apply BackendMap.find_Some_elem, Hin.
Qed.
End same.

Section compare.
Lemma canonicalize_sorted s b p : (b, p) ∈ backends (canonicalize s) -> schema_sorted p.
Proof. intros ([c q] & [= -> ->] & _)%list_elem_of_fmap. apply canonicalSchema_sorted. Qed.

Lemma canonicalize_keys s :
  BackendMap.sorted (backends s) -> BackendMap.sorted (backends (canonicalize s)).
Proof.
  unfold BackendMap.sorted. simpl. induction 1 as [|[b p] l _ IH Hall]; simpl; constructor; [done|].
  apply Forall_fmap. by eapply Forall_impl; [exact Hall|].
Qed.

Lemma problem_if_before c d code m p b : before (problem_if c d code m p b) = before d.
Proof. by destruct c. Qed.
Lemma problem_if_after c d code m p b : after (problem_if c d code m p b) = after d.
Proof. by destruct c. Qed.

(** [compare] after its validations. *)
Lemma compare_Ok s1 s2 dec d :
  compare s1 s2 dec = Ok d ->
  snapshot_ok (canonicalize s1) /\ snapshot_ok (canonicalize s2) /\
  exists d1,
    foldM (compareSchemas (backends (canonicalize s2)) dec)
      (problem_if (negb (length (backends (canonicalize s1)) =? length (backends (canonicalize s2)))%nat)
        (MkDiff (canonicalize s1) (canonicalize s2) [] []) "backend-profile"
        "Snapshots must contain the same backend profiles" "" Empty) (backends (canonicalize s1)) = Ok d1 /\
    d = with_changes (fold_left checkApproval (allowDataLossUp dec) d1)
          (sort_by change_id (changes (fold_left checkApproval (allowDataLossUp dec) d1))).
Proof.
  unfold compare. rewrite problem_if_before, problem_if_after. simpl.
  intros [H1%validateSnapshot_snapshot_ok [H2%validateSnapshot_snapshot_ok H]%seq_Ok_iff]%seq_Ok_iff.
  apply bind_Ok_iff in H as (d1 & H & [= <-]). split; [done|]. split; [done|]. exists d1. split; [exact H|reflexivity].
Qed.

Lemma checkApprovals_changes l d : changes (fold_left checkApproval l d) = changes d.
Proof.
  revert d. induction l as [|x l IH]; intros d; simpl; [done|]. rewrite IH.
  unfold checkApproval, problem_if. by destruct (negb _).
Qed.

Lemma checkApprovals_grows dec l d : grows dec d (fold_left checkApproval l d).
Proof.
  revert d. induction l as [|x l IH]; intros d; simpl; [reflexivity|].
  etrans; [|apply IH]. apply problem_if_grows.
Qed.

Lemma compare_quiet s1 s2 :
  validateSnapshot s1 = Ok tt -> validateSnapshot s2 = Ok tt ->
  BackendMap.sorted (backends s1) -> BackendMap.sorted (backends s2) ->
  (exists d, compare s1 s2 no_decisions = Ok d /\ quiet d) <-> canonicalize s1 = canonicalize s2.
Proof.
  intros V1%validateSnapshot_snapshot_ok V2%validateSnapshot_snapshot_ok K1%canonicalize_keys K2%canonicalize_keys.
  apply canonicalize_ok in V1 as (F1 & N1 & O1), V2 as (F2 & N2 & O2).
  pose proof (canonicalize_sorted s1) as S1. pose proof (canonicalize_sorted s2) as S2.
  pose proof (foldM_quiet (compareSchemas (backends (canonicalize s2)) no_decisions) (fun kv : BackendType * PhysicalSchema =>
    exists q, BackendMap.find kv.1 (backends (canonicalize s2)) = Some q /\
      schema_profile kv.2 = schema_profile q /\ schema_same kv.2 q) (backends (canonicalize s1))) as Q.
  specialize (fun d d' => Q d d' (compareSchemas_grows no_decisions _)).
  assert (forall d x d', x ∈ backends (canonicalize s1) ->
    compareSchemas (backends (canonicalize s2)) no_decisions d x = Ok d' /\ quiet d' <->
    (exists q, BackendMap.find x.1 (backends (canonicalize s2)) = Some q /\
      schema_profile x.2 = schema_profile q /\ schema_same x.2 q) /\ d' = d /\ quiet d) as Hstep.
  { intros d [b p] d' Hin. apply compareSchemas_quiet. by destruct (O1 b p Hin) as (_ & _ & _ & ? & _). }
  specialize (fun d d' => Q d d' Hstep). clear Hstep. split.
  - intros (d & (_ & _ & d1 & Hf & ->)%compare_Ok & Hq).
    assert (quiet d1) as Hq1.
    { destruct Hq as [Hc Hd]. simpl in *. split; [|done].
      apply Permutation_nil. symmetry. rewrite <- (sort_by_Permutation change_id). by rewrite Hc. }
    destruct (proj1 (Q _ _) (conj Hf Hq1)) as (Hall & _ & [_ Hlen]).
    assert (length (backends (canonicalize s1)) = length (backends (canonicalize s2))) as Hl.
    { destruct (_ =? _)%nat eqn:E; [by apply Nat.eqb_eq|done]. }
    assert (backends (canonicalize s1) = backends (canonicalize s2)) as Hb.
    { apply BackendMap_eq; [done|done|done|]. intros b p Hin.
      destruct (Hall (b, p) Hin) as (q & Hf2 & _ & Hsame). simpl in *.
      apply BackendMap.find_Some_elem in Hf2 as Hin2.
      by rewrite (schema_same_eq b p q) by eauto. }
    destruct (canonicalize s1), (canonicalize s2). simpl in *. congruence.
  - intros Heq. eexists. split.
    + unfold compare. simpl.
      rewrite (proj2 (validateSnapshot_snapshot_ok (canonicalize s1) tt)) by done. simpl.
      rewrite (proj2 (validateSnapshot_snapshot_ok (canonicalize s2) tt)) by done. simpl.
      change (map (fun kv => (kv.1, canonicalSchema kv.2)) (backends s1)) with (backends (canonicalize s1)).
      change (map (fun kv => (kv.1, canonicalSchema kv.2)) (backends s2)) with (backends (canonicalize s2)).
      destruct (proj2 (Q (MkDiff (canonicalize s1) (canonicalize s2) [] []) (MkDiff (canonicalize s1) (canonicalize s2) [] [])))
        as [HQ _].
      { split; [|done]. intros [b p] Hin. exists p. simpl. rewrite Heq in Hin.
        split; [by apply BackendMap.elem_find_sorted|]. split; [done|].
        apply (schema_same_refl b). by apply O2. }
      rewrite Heq in HQ |- *. rewrite Nat.eqb_refl. simpl in HQ |- *. rewrite HQ. simpl. reflexivity.
    + done.
Qed.

(** The state of the comparison after the backends, without diagnostics. *)
Lemma compare_accounted s1 s2 dec d :
  compare s1 s2 dec = Ok d -> diagnostics d = [] ->
  forall b p, (b, p) ∈ backends (canonicalize s1) ->
  exists q, BackendMap.find b (backends (canonicalize s2)) = Some q /\ schema_profile p = schema_profile q /\
    forall t, t ∈ tables p -> table_accounted dec (changes d) b q t.
Proof.
  intros ((_ & _ & O1) & _ & d1 & Hf & ->)%compare_Ok Hd b p Hin. simpl in *.
  assert (diagnostics d1 = []) as Hd1 by (by eapply grows_quiet, Hd; apply (checkApprovals_grows dec)).
  destruct (foldM_step (grows dec) _ _ _ _ (b, p) (compareSchemas_grows dec _) Hf Hin)
    as (e & e' & _ & Hstep & Hg).
  apply compareSchemas_accounted in Hstep as (q & Hq & Hp & Ht);
    [|by destruct (O1 b p Hin) as (_ & ? & _)|by eapply grows_quiet].
  exists q. split; [done|]. split; [done|]. intros t Hin'. specialize (Ht t Hin').
  assert (forall c, c ∈ changes e' -> c ∈ sort_by change_id (changes (fold_left checkApproval (allowDataLossUp dec) d1)))
    as Hmono.
  { intros c Hc. rewrite sort_by_Permutation, checkApprovals_changes. by eapply grows_elem. }
  unfold table_accounted in *. destruct (tableNamed _ _).
  - intros c Hc. by eapply column_accounted_mono, Ht.
  - by eapply recorded_mono.
Qed.

Lemma compare_changes_ok s1 s2 dec d :
  compare s1 s2 dec = Ok d ->
  Forall (change_ok dec) (changes d) /\ StronglySorted (name_le change_id) (changes d) /\
  before d = canonicalize s1 /\ after d = canonicalize s2.
Proof.
  intros (_ & _ & d1 & Hf & ->)%compare_Ok. simpl.
  apply (foldM_grows dec) in Hf; [|apply compareSchemas_grows].
  pose proof (checkApprovals_grows dec (allowDataLossUp dec) d1) as Hg.
  assert (grows dec (MkDiff (canonicalize s1) (canonicalize s2) [] []) (fold_left checkApproval (allowDataLossUp dec) d1))
    as [Hb Ha (cs & Hcs & Hall) _].
  { etrans; [|exact Hg]. etrans; [|exact Hf]. apply problem_if_grows. }
  split; [|split; [apply sort_by_Sorted|by rewrite Hb, Ha]].
  rewrite sort_by_Permutation. by rewrite Hcs.
Qed.

(** Every diagnostic of the comparison is an error. *)
Lemma compare_errors s1 s2 dec d : compare s1 s2 dec = Ok d -> Forall (fun i => diag_error i = true) (diagnostics d).
Proof.
  intros (_ & _ & d1 & Hf & ->)%compare_Ok. simpl.
  apply (foldM_grows dec) in Hf; [|apply compareSchemas_grows].
  pose proof (checkApprovals_grows dec (allowDataLossUp dec) d1) as Hg.
  assert (grows dec (MkDiff (canonicalize s1) (canonicalize s2) [] []) (fold_left checkApproval (allowDataLossUp dec) d1))
    as [_ _ _ (ds & -> & Hds)]; [|done].
  etrans; [|exact Hg]. etrans; [|exact Hf]. apply problem_if_grows.
Qed.

Lemma checkApprovals_quiet l d :
  diagnostics (fold_left checkApproval l d) = [] ->
  forall a, a ∈ l -> exists c, c ∈ changes d /\ change_id c = a /\ dataLoss c = true.
Proof.
  revert d. induction l as [|x l IH]; intros d Hd a; [by intros ?%not_elem_of_nil|].
  intros [->|Ha]%elem_of_cons.
  - pose proof (grows_quiet no_decisions _ _ (checkApprovals_grows no_decisions l _) Hd) as Hx.
    unfold checkApproval, problem_if in Hx. destruct (existsb _ _) eqn:He.
    + apply existsb_exists in He as (c & Hc%list_elem_of_In & Hb). bool_to_prop. by exists c.
    + by apply app_eq_nil in Hx as [_ ?].
  - destruct (IH _ Hd a Ha) as (c & Hc & ?). exists c. split; [|done].
    unfold checkApproval, problem_if in Hc. by destruct (negb _).
Qed.
End compare.

(** ** Theorems *)

(** without renames or other decisions [compare] is exact: on valid snapshots
    it reports no change and no problem exactly when the snapshots are the same
    up to the order of tables, columns, keys and indexes. *)
Theorem compare_empty_iff s1 s2 :
  validateSnapshot s1 = Ok tt -> validateSnapshot s2 = Ok tt ->
  BackendMap.sorted (backends s1) -> BackendMap.sorted (backends s2) ->
  (exists d, compare s1 s2 no_decisions = Ok d /\ changes d = [] /\ diagnostics d = []) <->
  canonicalize s1 = canonicalize s2.
Proof. apply compare_quiet. Qed.

(** C38: no data is lost silently: when [compare] reports no problem, every backend
    of the old snapshot is compared with the same backend of the new one, and
    every table or column without an image, and every column whose type cannot
    hold all its old values, has a change that is marked as losing data; such a
    change is resolved only when the decisions approve its identifier. *)
Theorem compare_data_loss s1 s2 dec d :
  compare s1 s2 dec = Ok d -> diagnostics d = [] ->
  (forall b p, (b, p) ∈ backends (canonicalize s1) ->
     exists q, BackendMap.find b (backends (canonicalize s2)) = Some q /\ schema_profile p = schema_profile q /\
       forall t, t ∈ tables p -> table_accounted dec (changes d) b q t) /\
  (forall c, c ∈ changes d -> dataLoss c = true -> unresolved c = false -> change_id c ∈ allowDataLossUp dec).
Proof.
  intros H Hd. split; [by eapply compare_accounted|].
  apply compare_changes_ok in H as (Hall & _). rewrite Forall_forall in Hall.
  intros c Hc. apply (Hall c Hc).
Qed.

(** the changes are sorted by identifier, every identifier is the one that the
    change's backend, kind, table and object give, so that equal identifiers
    mean the same change of the same object, and, when there is no problem,
    every approval of the decisions names a change that loses data. *)
Theorem compare_identifiers s1 s2 dec d :
  compare s1 s2 dec = Ok d ->
  StronglySorted (name_le change_id) (changes d) /\
  (forall c c', c ∈ changes d -> c' ∈ changes d -> change_id c = change_id c' ->
     change_backend c = change_backend c' /\ kind_label (kind c) = kind_label (kind c') /\
     change_table c = change_table c' /\ change_column c = change_column c') /\
  (diagnostics d = [] -> forall a, a ∈ allowDataLossUp dec ->
     exists c, c ∈ changes d /\ change_id c = a /\ dataLoss c = true).
Proof.
  intros H. pose proof H as (Hall & Hs & _)%compare_changes_ok. rewrite Forall_forall in Hall.
  split; [done|]. split.
  - intros c c' Hc Hc' Hid. destruct (Hall c Hc) as (Hi & _), (Hall c' Hc') as (Hi' & _).
    rewrite Hid in Hi. eapply changeId_injective; [..|exact Hi|exact Hi']; apply kind_label_no_slash.
  - apply compare_Ok in H as (_ & _ & d1 & _ & ->). simpl. intros Hd a Ha.
    destruct (checkApprovals_quiet _ _ Hd a Ha) as (c & Hc & ?). exists c. split; [|done].
    by rewrite sort_by_Permutation, checkApprovals_changes.
Qed.

(** a change of type that [safeTypeChange] calls safe keeps every value:
    between integer types the new logical range, and off SQLite the new
    physical range, holds every integer of the old one; and between texts the
    new length is no shorter. *)
Theorem safeTypeChange_sound b source target :
  safeTypeChange b source target = true ->
  (((logicalRange b (logicalType source)).1 <> 0)%N ->
     ((logicalRange b (logicalType target)).1 <> 0)%N /\
     forall z, holds (logicalRange b (logicalType source)) z -> holds (logicalRange b (logicalType target)) z) /\
  (b <> Sqlite -> sqlType_of source <> sqlType_of target -> logicalType source <> ColumnType.String ->
     forall z, holds (integerRange (sqlType_of source)) z -> holds (integerRange (sqlType_of target)) z) /\
  (logicalType source = ColumnType.String ->
     logicalType target = ColumnType.String /\ logicalWidening source target = true).
Proof.
  intros H. pose proof H as Hl%safeTypeChange_logical. split; [|split].
  - intros Hr. destruct Hl as [(Hs & _)|Hl]; [by rewrite Hs in Hr|].
    split; [by apply (logicalSafe_holds _ _ _ 0 Hl)|]. intros z. by apply logicalSafe_holds.
  - intros Hb Hne Hn z. eapply safeTypeChange_physical in H as (_ & _ & H); [apply H|done|done|naive_solver].
  - intros Hs. destruct Hl as [(_ & ? & ?)|Hl]; [done|]. rewrite Hs in *.
    unfold logicalSafe in Hl. simpl in Hl. destruct (logicalType target) eqn:Ht; simpl in Hl; try done.
    + by destruct (negb _).
    + split; [done|]. unfold safeTypeChange in H. rewrite Hs, Ht in H. simpl in H.
      by apply andb_true_iff in H as [? _].
Qed.

(** ** The removal of the table of posts *)
Definition sample_without_posts : SchemaSnapshot :=
  MkSnapshot 1 [(Sqlite, with_tables sample_schema [sample_users])].
Definition sample_approval : GenerationDecisions :=
  MkDecisions [] [] ["sqlite/drop-table/posts"] [] [] [] [] [].

Lemma compare_empty_iff_witness :
  exists d, compare sample_snapshot sample_snapshot no_decisions = Ok d /\ changes d = [] /\ diagnostics d = [].
Proof.
  assert (validateSnapshot sample_snapshot = Ok tt) as V by (vm_compute; reflexivity).
  assert (BackendMap.sorted (backends sample_snapshot)) as S by repeat constructor.
  exact (proj2 (compare_empty_iff sample_snapshot sample_snapshot V V S S) eq_refl).
Defined.

Lemma compare_data_loss_witness :
  exists d, compare sample_snapshot sample_without_posts sample_approval = Ok d /\
    recorded (changes d) Sqlite DropTable "posts" "".
Proof.
  destruct (compare sample_snapshot sample_without_posts sample_approval) as [d|e] eqn:H;
    [|vm_compute in H; discriminate H].
  exists d. split; [done|].
  assert (diagnostics d = []) as Hd by (vm_compute in H; injection H as <-; reflexivity).
  destruct (compare_data_loss sample_snapshot sample_without_posts sample_approval d H Hd) as [Hall _].
  destruct (Hall Sqlite (canonicalSchema sample_schema)) as (q & Hq & _ & Ht); [left|].
  injection Hq as <-. exact (Ht (canonicalTable sample_posts) (list_elem_of_here _ _)).
Defined.

Lemma compare_identifiers_witness :
  exists d c, compare sample_snapshot sample_without_posts sample_approval = Ok d /\ c ∈ changes d /\
    change_id c = "sqlite/drop-table/posts" /\ dataLoss c = true.
Proof.
  destruct (compare sample_snapshot sample_without_posts sample_approval) as [d|e] eqn:H;
    [|vm_compute in H; discriminate H].
  assert (diagnostics d = []) as Hd by (vm_compute in H; injection H as <-; reflexivity).
  destruct (compare_identifiers sample_snapshot sample_without_posts sample_approval d H) as (_ & _ & Happ).
  destruct (Happ Hd "sqlite/drop-table/posts" (list_elem_of_here _ _)) as (c & ? & ? & ?). by exists d, c.
Defined.

Lemma safeTypeChange_sound_witness : holds (32, false)%N 30000.
Proof.
  destruct (safeTypeChange_sound Postgres (MkColumn "n" ColumnType.Short "SMALLINT" true None false)
           (MkColumn "n" ColumnType.Int "INTEGER" true None false) eq_refl) as [H _].
  apply H; [done|]. unfold holds. simpl. lia.
Defined.
