(* ===== verification/SqlValidation.v ===== *)
(** SqlValidation: the scan of migration scripts for transaction, session and
    client commands, from src/migrations/SqlValidation.cpp.  A position in the
    script is the suffix that starts there; loops whose step is not structural
    take fuel, of which the script's length is enough. *)
From S2P Require Import Prelude Foundation PhysicalSql.
Local Open Scope string_scope.

Definition letter (c : ascii) : bool :=
  is_lower c || is_upper c || bool_decide (c = "_"%char) || (128 <=? byte_of c)%Z.
Definition identifier (c : ascii) : bool := letter c || is_digit c || bool_decide (c = "$"%char).
Definition upper (word : string) : string := map_char to_upper word.

Definition is_char (d c : ascii) : bool := bool_decide (c = d).
Definition BACKSLASH : ascii := ascii_of_nat 92.
Definition QUOTE : ascii := "'"%char.
Definition BACKTICK : ascii := "`"%char.
Definition line_end (c : ascii) : bool := is_char CR c || is_char LF c.
Definition any_quote (c : ascii) : bool := is_char QUOTE c || is_char DQUOTE c || is_char BACKTICK c.

(** [find_first_of] of a carriage return or a line feed, and the position after it. *)
Fixpoint skip_line (s : string) : string :=
  match s with
  | "" => ""
  | String c s => if line_end c then s else skip_line s
  end.

(** [find(needle, position)] as the suffix that starts with the needle. *)
Fixpoint find_text (needle s : string) : option string :=
  if starts_with needle s then Some s
  else match s with "" => None | String _ s => find_text needle s end.

(** The character [n] places after the start of a suffix. *)
Definition peek (n : nat) (p : ascii -> bool) (s : string) : bool := head_is p (drop_str n s).

(** ["-- "]: two dashes and a control character or space. *)
Definition control (c : ascii) : bool := (byte_of c <=? 32)%Z.
Definition dash_comment (s : string) : bool :=
  peek 0 (is_char "-"%char) s && peek 1 (is_char "-"%char) s && peek 2 control s.

(** ** Executable comments of MySQL and MariaDB *)

(** The loop over a quoted text, after its opening quote; an open text ends the script. *)
Fixpoint skip_quoted (quote : ascii) (s : string) : string :=
  match s with
  | "" => ""
  | String c s1 =>
      if is_char BACKSLASH c && negb (is_char BACKTICK quote)
      then match s1 with "" => "" | String _ s2 => skip_quoted quote s2 end
      else if is_char quote c
      then match s1 with
           | String d s2 => if is_char quote d then skip_quoted quote s2 else s1
           | "" => ""
           end
      else skip_quoted quote s1
  end.

(** The suffix that starts with the end of an executable comment. *)
Fixpoint executableCommentEnd (fuel : nat) (s : string) : option string :=
  match fuel, s with
  | S fuel, String c s1 =>
      if any_quote c then executableCommentEnd fuel (skip_quoted c s1)
      else if is_char "#"%char c || dash_comment s then executableCommentEnd fuel (skip_line s)
      else if starts_with "/*" s then
        match find_text "*/" (drop_str 2 s) with
        | None => None
        | Some rest => executableCommentEnd fuel (drop_str 2 rest)
        end
      else if starts_with "*/" s then Some s
      else executableCommentEnd fuel s1
  | _, _ => None
  end.

(** What lies between a position and a later one. *)
Definition between (s later : string) : string := take_str (String.length s - String.length later) s.

Fixpoint blanks (n : nat) : string := match n with O => "" | S n => String " "%char (blanks n) end.

(** The bodies of executable comments in place of the comments; [limit] is the
    length of the script after [executableEnd].  [None] is a refusal or no fuel. *)
Fixpoint expand (fuel limit : nat) (s : string) : option string :=
  match fuel with
  | O => None
  | S fuel =>
      match s with
      | "" => Some ""
      | String c s1 =>
          let copy rest := e ← expand fuel limit rest; Some (between s rest +:+ e) in
          if any_quote c then copy (skip_quoted c s1)
          else if is_char "#"%char c || dash_comment s then copy (skip_line s)
          else if starts_with "/*" s then
            let outside := (String.length s <=? limit)%nat in
            let executable := outside && peek 2 (is_char "!"%char) s in
            let mariaExecutable := outside && peek 2 (is_char "M"%char) s && peek 3 (is_char "!"%char) s in
            let marker := if executable then 3 else 4 in
            if executable || mariaExecutable then
              let inside := drop_str marker s in
              match executableCommentEnd (S (String.length inside)) inside with
              | None => None
              | Some close =>
                  let (digits, body) := span_char is_digit (between inside close) in
                  let rest := drop_str 2 close in
                  e ← expand fuel (String.length rest) (body +:+ "  " +:+ rest);
                  Some (blanks (marker + String.length digits) +:+ e)
              end
            else match find_text "*/" (drop_str 2 s) with
                 | None => None
                 | Some close => copy (drop_str 2 close)
                 end
          else copy s1
      end
  end.

(** ** The statements *)
Definition is_mysql (b : BackendType) : bool := bool_decide (b = Mysql) || bool_decide (b = Mariadb).

Definition word_in (l : list string) (w : string) : bool := bool_decide (w ∈ l).
Definition has_word (w : string) (words : list string) : bool := bool_decide (w ∈ words).
Definition word_at (words : list string) (n : nat) (l : list string) : bool :=
  match nth_error words n with Some w => word_in l w | None => false end.

Definition mysql_forbidden : list string :=
  ["START"; "COMMIT"; "ROLLBACK"; "SAVEPOINT"; "RELEASE"; "USE"; "RESET"; "LOCK"; "UNLOCK"; "FLUSH";
   "DELIMITER"; "SOURCE"; "PREPARE"; "EXECUTE"; "DEALLOCATE"; "CONNECT"; "QUIT"; "EXIT"; "XA"].
Definition mysql_forbiddenAnywhere : list string :=
  ["DELIMITER"; "COMMIT"; "ROLLBACK"; "SAVEPOINT"; "START"; "GET_LOCK"; "RELEASE_LOCK";
   "RELEASE_ALL_LOCKS"; "USE"; "RESET"; "FLUSH"; "LOCK"; "UNLOCK"; "PREPARE"; "EXECUTE"; "DEALLOCATE"; "XA"].
Definition postgres_forbidden : list string :=
  ["BEGIN"; "START"; "COMMIT"; "END"; "ROLLBACK"; "ABORT"; "SAVEPOINT"; "RELEASE"; "RESET"; "DISCARD"].

(** Whether a [SET] at [index] belongs to an [UPDATE] or [INSERT]. *)
Definition mutation (words : list string) (index : nat) : bool :=
  fold_left (fun m w =>
    if word_in ["BEGIN"; "THEN"; "ELSE"] w then false
    else if word_in ["UPDATE"; "INSERT"] w then true else m) (take index words) false.

(** The body of the loop over the words of a statement; the state is the stack of
    open blocks. *)
Definition check_word (first : string) (words : list string) (routine : bool) (blocks : list string)
    (index : nat) : option (list string) :=
  let at_ n l := word_at words n l in
  let word := default "" (nth_error words index) in
  if bool_decide (word = "DROP") && at_ (S index) ["DATABASE"; "SCHEMA"] then None
  else
    let tableCharacterSet := (0 <? index)%nat && at_ (index - 1) ["CHARACTER"] &&
                             word_in ["CREATE"; "ALTER"] first && has_word "TABLE" words in
    if bool_decide (word = "SET") && negb tableCharacterSet && negb (at_ (S index) ["NEW"])
       && negb (mutation words index) then None
    else if routine && (bool_decide (word = "BEGIN")
                        || bool_decide (word = "CASE") && ((index =? 0)%nat || negb (at_ (index - 1) ["END"])))
    then Some ((if bool_decide (word = "BEGIN") then "BEGIN" else "CASE") :: blocks)
    else if routine && bool_decide (word = "END") && negb (at_ (S index) ["IF"; "LOOP"; "WHILE"; "REPEAT"])
    then Some (tail blocks)
    else Some blocks.

Definition creates_routine (first : string) (words : list string) : bool :=
  bool_decide (first = "CREATE") &&
  (has_word "PROCEDURE" words || has_word "FUNCTION" words || has_word "TRIGGER" words || has_word "EVENT" words).

Definition foldO {S A} (f : S -> A -> option S) : S -> list A -> option S :=
  fix go s l := match l with [] => Some s | x :: l => s ← f s x; go s l end.

Definition check_mysql (first : string) (words : list string) (state : bool * list string)
    : option (bool * list string) :=
  let (routine, blocks) := state in
  let routine := routine || creates_routine first words in
  if word_in mysql_forbidden first || word_in ["BEGIN"; "END"] first && negb routine
     || bool_decide (first = "SET") && negb (word_at words 1 ["NEW"]) then None
  else if existsb (fun w => has_word w words) mysql_forbiddenAnywhere then None
  else
    blocks ← foldO (check_word first words routine) blocks (seq 0 (length words));
    Some (if routine && bool_decide (blocks = []) then (false, blocks) else (routine, blocks)).

Definition check_postgres (first : string) (words : list string) (state : bool * list string)
    : option (bool * list string) :=
  if word_in postgres_forbidden first
     || bool_decide (first = "SET") && negb (word_at words 1 ["CONSTRAINTS"])
     || bool_decide (first = "PREPARE") && word_at words 1 ["TRANSACTION"] then None
  else if existsb (fun i =>
      word_at words (i - 1) ["BEGIN"] && word_at words i ["ATOMIC"]
      || bool_decide (first = "COPY") &&
         (word_at words (i - 1) ["FROM"] && word_at words i ["STDIN"]
          || word_at words (i - 1) ["TO"] && word_at words i ["STDOUT"])) (seq 1 (length words - 1)) then None
  else Some state.

(** The lambda [check]; [None] is a refusal. *)
Definition check (b : BackendType) (words : list string) (state : bool * list string)
    : option (bool * list string) :=
  if negb (bool_decide (b = Postgres)) && negb (is_mysql b) then Some state
  else match words with
       | [] => Some state
       | first :: _ =>
           if has_word "_ORM_MIGRATIONS" words || has_word "_ORM_MIGRATIONS_INCOMPLETE" words then None
           else if is_mysql b then check_mysql first words state
           else check_postgres first words state
       end.

(** ** The scan *)

(** A quoted text after its opening quote: its raw content and what follows the
    closing quote; [None] when it is not closed. *)
Fixpoint scan_quoted (escapes doubled : bool) (quote : ascii) (s : string) : option (string * string) :=
  match s with
  | "" => None
  | String c s1 =>
      if escapes && is_char BACKSLASH c
      then match s1 with
           | "" => None
           | String d s2 => '(w, rest) ← scan_quoted escapes doubled quote s2; Some (String c (String d w), rest)
           end
      else if is_char quote c
      then match s1 with
           | String d s2 =>
               if doubled && is_char quote d
               then '(w, rest) ← scan_quoted escapes doubled quote s2; Some (String c (String d w), rest)
               else Some ("", s1)
           | "" => Some ("", "")
           end
      else '(w, rest) ← scan_quoted escapes doubled quote s1; Some (String c w, rest)
  end.

(** A block comment after its opening, [depth] levels deep and still [S depth] to
    close; comments nest except on MySQL and MariaDB. *)
Fixpoint scan_comment (nested : bool) (depth : nat) (s : string) : option string :=
  match s with
  | String c (String d s2 as s1) =>
      if nested && is_char "/"%char c && is_char "*"%char d then scan_comment nested (S depth) s2
      else if is_char "*"%char c && is_char "/"%char d
      then match depth with O => Some s2 | S depth => scan_comment nested depth s2 end
      else scan_comment nested depth s1
  | _ => None
  end.

(** The character [n] places before a suffix of the script. *)
Definition char_before (n : nat) (script s : string) : option ascii :=
  if (String.length s + n <=? String.length script)%nat
  then String.get (String.length script - String.length s - n) script else None.

Definition is_some_char (p : ascii -> bool) (o : option ascii) : bool :=
  match o with Some c => p c | None => false end.

(** [E'...'] on PostgreSQL, the [E] not the end of a longer word. *)
Definition escape_prefix (script s : string) : bool :=
  is_some_char (fun c => is_char "E"%char c || is_char "e"%char c) (char_before 1 script s)
  && negb (is_some_char identifier (char_before 2 script s)).

Definition journal_names : list string := ["_ORM_MIGRATIONS"; "_ORM_MIGRATIONS_INCOMPLETE"].
Definition lock_names : list string := ["GET_LOCK"; "RELEASE_LOCK"; "RELEASE_ALL_LOCKS"].

Definition state := (bool * list string)%type.

(** The main loop; [None] is no fuel, [Some None] a refusal. *)
Fixpoint scan (b : BackendType) (script : string) (fuel : nat) (words : list string) (st : state) (s : string)
    : option (option state) :=
  let mysql := is_mysql b in
  match fuel with
  | O => None
  | S fuel =>
      match s with
      | "" => Some (check b words st)
      | String c s1 =>
          if is_char BACKSLASH c || mysql && is_char "@"%char c then Some None
          else if is_char "-"%char c && head_is (is_char "-"%char) s1
                  && (negb mysql || bool_decide (drop_str 1 s1 = "") || peek 1 control s1)
                  || mysql && is_char "#"%char c
          then scan b script fuel words st (skip_line (if is_char "#"%char c then s1 else drop_str 1 s1))
          else if is_char "/"%char c && head_is (is_char "*"%char) s1 then
            match scan_comment (negb mysql) 0 (drop_str 1 s1) with
            | None => Some None
            | Some rest => scan b script fuel words st rest
            end
          else if is_char QUOTE c || is_char DQUOTE c
                  || bool_decide (b = Sqlite) && (is_char BACKTICK c || is_char "["%char c)
                  || mysql && is_char BACKTICK c then
            let quote := if is_char "["%char c then "]"%char else c in
            let escapes := mysql && negb (is_char BACKTICK c)
                           || is_char QUOTE c && bool_decide (b = Postgres) && escape_prefix script s in
            match scan_quoted escapes (negb (is_char "["%char c)) quote s1 with
            | None => Some None
            | Some (content, rest) =>
                let quoted := upper content in
                if (is_char DQUOTE c && bool_decide (b = Postgres) || mysql && is_char BACKTICK c)
                   && (word_in journal_names quoted || mysql && word_in lock_names quoted)
                then Some None
                else scan b script fuel (words ++ ["<quoted>"])%list st rest
            end
          else if is_char "$"%char c && bool_decide (b = Postgres) then
            let (name, rest) := if head_is letter s1 then span_char (fun c => letter c || is_digit c) s1 else ("", s1) in
            match rest with
            | String d rest =>
                if is_char "$"%char d then
                  let tag := "$" +:+ name +:+ "$" in
                  match find_text tag rest with
                  | None => Some None
                  | Some close => scan b script fuel (words ++ ["<body>"])%list st (drop_str (String.length tag) close)
                  end
                else scan b script fuel words st s1
            | "" => scan b script fuel words st s1
            end
          else if letter c then
            let (word, rest) := span_char identifier s1 in
            scan b script fuel (words ++ [upper (String c word)])%list st rest
          else if is_char ";"%char c then
            match check b words st with
            | None => Some None
            | Some st => scan b script fuel [] st s1
            end
          else scan b script fuel words st s1
      end
  end.

Definition invalidSql (b : BackendType) (version : Z) : exn :=
  MigrationError InvalidSql "SQL contains unsupported transaction, session or client commands" version b None.

Definition validateScript (script : string) (b : BackendType) (version : Z) : res unit :=
  script ← (if is_mysql b
            then or_throw (expand (S (String.length script)) (String.length script) script) (invalidSql b version)
            else Ok script);
  match scan b script (S (String.length script)) [] (false, []) script with
  | Some (Some _) => Ok tt
  | _ => Err (invalidSql b version)
  end.

(** ** The scan ends *)
Section progress.

Lemma skip_line_length s : String.length (skip_line s) <= String.length s.
Proof. induction s as [|c s IH]; simpl; [done|]. destruct (line_end c); lia. Qed.

Lemma drop_str_length n s : String.length (drop_str n s) <= String.length s.
Proof. revert s. induction n as [|n IH]; intros [|c s]; simpl; try lia. specialize (IH s). lia. Qed.

Lemma find_text_length needle s rest :
  find_text needle s = Some rest -> String.length rest <= String.length s.
Proof.
  revert rest. induction s as [|c s IH]; intros rest; simpl.
  - destruct (starts_with needle ""); [intros [= <-]; done|done].
  - destruct (starts_with needle _); [intros [= <-]; done|]. intros H%IH. lia.
Qed.

Lemma scan_quoted_length e d q s w rest :
  scan_quoted e d q s = Some (w, rest) -> String.length rest <= String.length s.
Proof.
  revert w rest. induction s as [s IH] using (induction_ltof1 _ String.length). unfold ltof in IH.
  intros w rest. destruct s as [|c [|c' s]]; simpl; [done| |].
  - destruct (e && is_char BACKSLASH c); [done|].
    destruct (is_char q c); [intros [= <- <-]; simpl; lia|done].
  - destruct (e && is_char BACKSLASH c); [|destruct (is_char q c); [destruct (d && is_char q c')|]].
    + intros ([w' r] & H & [= <- <-])%bind_Some. apply IH in H; simpl in *; lia.
    + intros ([w' r] & H & [= <- <-])%bind_Some. apply IH in H; simpl in *; lia.
    + intros [= <- <-]. simpl. lia.
    + intros ([w' r] & H & [= <- <-])%bind_Some. apply (IH (String c' s)) in H; simpl in *; lia.
Qed.

Lemma scan_comment_length n d s rest : scan_comment n d s = Some rest -> String.length rest <= String.length s.
Proof.
  revert d. induction s as [s IH] using (induction_ltof1 _ String.length). unfold ltof in IH.
  intros d. destruct s as [|c [|c' s]]; simpl; try done.
  destruct (n && is_char "/"%char c && is_char "*"%char c').
  { intros H%IH; simpl in *; lia. }
  destruct (is_char "*"%char c && is_char "/"%char c'); [destruct d|].
  - intros [= <-]. lia.
  - intros H%IH; simpl in *; lia.
  - intros H%(IH (String c' s)); simpl in *; lia.
Qed.

Lemma span_char_length p s : String.length (span_char p s).2 <= String.length s.
Proof.
  destruct (span_char_spec p s) as (H & _). rewrite H at 2. rewrite length_app_str. lia.
Qed.

(** With more fuel than there are characters the scan gives a verdict, the same
    for every such fuel. *)
Lemma scan_total b script f g words st s :
  String.length s < f -> String.length s < g ->
  exists r, scan b script f words st s = Some r /\ scan b script g words st s = Some r.
Proof.
  revert g words st s. induction f as [|f IH]; intros [|g] words st s Hs Hg; [lia..|].
  destruct s as [|c s1]; [by eexists|]. simpl in Hs, Hg.
  pose proof (skip_line_length s1) as L1. pose proof (skip_line_length (drop_str 1 s1)) as L2.
  pose proof (drop_str_length 1 s1) as L3. cbn [scan].
  destruct (_ || _); [by eexists|].
  destruct (_ || _); [apply IH; destruct (is_char "#"%char c); lia|].
  destruct (_ && _).
  { destruct (scan_comment _ _ _) eqn:H; [|by eexists].
    apply scan_comment_length in H. apply IH; lia. }
  destruct (_ || _).
  { destruct (scan_quoted _ _ _ _) as [[w rest]|] eqn:H; [|by eexists].
    apply scan_quoted_length in H. destruct (_ && _); [by eexists|]. apply IH; lia. }
  destruct (is_char "$"%char c && _).
  { assert (String.length (if head_is letter s1 then span_char (fun c => letter c || is_digit c) s1 else ("", s1)).2
            <= String.length s1) as L.
    { destruct (head_is letter s1); [apply span_char_length|done]. }
    destruct (if head_is letter s1 then _ else _) as [name rest]. simpl in L.
    destruct rest as [|d rest]; [apply IH; lia|].
    destruct (is_char "$"%char d); [|apply IH; lia].
    destruct (find_text _ rest) as [close|] eqn:H; [|by eexists].
    apply find_text_length in H.
    pose proof (drop_str_length (String.length ("$" +:+ name +:+ "$")) close). simpl in *. apply IH; simpl; lia. }
  destruct (letter c).
  { pose proof (span_char_length identifier s1). destruct (span_char identifier s1) as [word rest].
    simpl in *. apply IH; lia. }
  destruct (is_char ";"%char c); [|apply IH; lia].
  destruct (check b words st); [apply IH; lia|by eexists].
Qed.

End progress.

(** ** A statement on a line of its own is always seen

    [tail] is a statement that follows a line feed: its characters open and close
    nothing, so no text before it can hide it. *)
Definition inert (c : ascii) : bool := is_upper c || is_lower c || is_char LF c || is_char ";"%char c.

Lemma inert_not c d : inert c = true -> inert d = false -> is_char d c = false.
Proof. intros Hc Hd. unfold is_char. case_bool_decide; [|done]. congruence. Qed.

Section unhidden.
Context (t : string) (Ht : forallb_char inert t = true).

Definition line : string := String LF t.

Lemma line_inert : forallb_char inert line = true.
Proof. unfold line. rewrite forallb_char_cons. by rewrite Ht. Qed.

Lemma head_line p : p LF = false -> head_is p line = false.
Proof. done. Qed.

(** The part of a script from some point before [line] on. *)
Definition before_line (s : string) : Prop := exists v, s = v +:+ line.

Lemma before_line_cons c s : before_line (String c s) -> before_line s \/ s = t.
Proof.
  intros ([|d v] & H); simpl in H; injection H as -> ->; [by right|]. left. by exists v.
Qed.

Lemma skip_line_pending v : skip_line (v +:+ line) = t \/ before_line (skip_line (v +:+ line)).
Proof.
  induction v as [|c v IH]; simpl; [by left|].
  destruct (line_end c); [right; by exists v|exact IH].
Qed.

Lemma scan_quoted_none e d q s :
  forallb_char inert s = true -> inert q = false -> scan_quoted e d q s = None.
Proof.
  intros Hs Hq. induction s as [|c s IH]; [done|]. rewrite forallb_char_cons in Hs.
  apply andb_true_iff in Hs as [Hc Hs]. simpl.
  rewrite (inert_not c BACKSLASH), (inert_not c q) by done. rewrite andb_false_r. by rewrite IH.
Qed.

Lemma scan_quoted_before e d q v w rest :
  inert q = false -> scan_quoted e d q (v +:+ line) = Some (w, rest) -> before_line rest.
Proof.
  intros Hq. revert w rest. induction v as [v IH] using (induction_ltof1 _ String.length). unfold ltof in IH.
  intros w rest. destruct v as [|c [|c' v]].
  - rewrite scan_quoted_none by (done || apply line_inert). done.
  - cbn [String.append scan_quoted]. destruct (e && is_char BACKSLASH c).
    + unfold line. rewrite scan_quoted_none by done. done.
    + destruct (is_char q c).
      * unfold line at 1. rewrite (inert_not LF q) by done. rewrite andb_false_r.
        intros [= <- <-]. by exists "".
      * rewrite scan_quoted_none by (done || apply line_inert). done.
  - cbn [String.append scan_quoted]. destruct (e && is_char BACKSLASH c); [|destruct (is_char q c); [destruct (d && is_char q c')|]].
    + intros ([w' r] & H & [= <- <-])%bind_Some. eapply IH; [|exact H]. simpl. lia.
    + intros ([w' r] & H & [= <- <-])%bind_Some. eapply IH; [|exact H]. simpl. lia.
    + intros [= <- <-]. by exists (String c' v).
    + intros ([w' r] & H & [= <- <-])%bind_Some. eapply (IH (String c' v)); [|exact H]. simpl. lia.
Qed.

Lemma scan_comment_none n d s : forallb_char inert s = true -> scan_comment n d s = None.
Proof.
  revert d. induction s as [|c s IH]; [done|]. intros d Hs. rewrite forallb_char_cons in Hs.
  apply andb_true_iff in Hs as [Hc Hs]. simpl. destruct s as [|c' s]; [done|].
  rewrite (inert_not c "/"%char), (inert_not c "*"%char) by done.
  rewrite andb_false_r. by apply IH.
Qed.

Lemma scan_comment_eq n d c c' s :
  scan_comment n d (String c (String c' s)) =
  if n && is_char "/"%char c && is_char "*"%char c' then scan_comment n (S d) s
  else if is_char "*"%char c && is_char "/"%char c'
  then match d with O => Some s | S d => scan_comment n d s end
  else scan_comment n d (String c' s).
Proof. done. Qed.

Lemma scan_comment_before n d v rest :
  scan_comment n d (v +:+ line) = Some rest -> before_line rest.
Proof.
  revert d. induction v as [v IH] using (induction_ltof1 _ String.length). unfold ltof in IH.
  intros d. destruct v as [|c [|c' v]].
  - rewrite scan_comment_none by apply line_inert. done.
  - cbn [String.append]. unfold line. rewrite scan_comment_eq.
    change (is_char "*"%char LF) with false. change (is_char "/"%char LF) with false.
    rewrite !andb_false_r. rewrite scan_comment_none by apply line_inert. done.
  - cbn [String.append]. rewrite scan_comment_eq.
    destruct (n && is_char "/"%char c && is_char "*"%char c'); [|destruct (is_char "*"%char c && is_char "/"%char c'); [destruct d|]].
    + apply IH. simpl. lia.
    + intros [= <-]. by exists v.
    + apply IH. simpl. lia.
    + apply (IH (String c' v)). simpl. lia.
Qed.

Lemma span_char_before p v :
  p LF = false -> (exists x, (span_char p (v +:+ line)).2 = x +:+ line).
Proof.
  intros Hp. induction v as [|c v IH]; simpl.
  - rewrite Hp. by exists "".
  - destruct (p c); [exact IH|]. by exists (String c v).
Qed.

Lemma starts_with_inert c p s : inert c = false -> forallb_char inert s = true -> starts_with (String c p) s = false.
Proof.
  intros Hc Hs. destruct s as [|d s]; [done|]. rewrite forallb_char_cons in Hs. bool_to_prop. simpl.
  rewrite bool_decide_false; [done|]. congruence.
Qed.

Lemma find_text_none c p s : inert c = false -> forallb_char inert s = true -> find_text (String c p) s = None.
Proof.
  intros Hc. induction s as [|d s IH]; intros Hs; cbn [find_text]; rewrite starts_with_inert by done; [done|].
  rewrite forallb_char_cons in Hs. bool_to_prop. auto.
Qed.

Lemma find_text_before c p v rest :
  inert c = false -> find_text (String c p) (v +:+ line) = Some rest ->
  exists x, rest = x +:+ line /\ starts_with (String c p) rest = true.
Proof.
  intros Hc. induction v as [|d v IH].
  - change ("" +:+ line) with line. rewrite find_text_none by (done || apply line_inert). done.
  - cbn [String.append find_text]. destruct (starts_with (String c p) (String d (v +:+ line))) eqn:H.
    + intros [= <-]. exists (String d v). done.
    + exact IH.
Qed.

(** A needle whose first and last characters are not inert ends before [line]. *)
Lemma needle_before p e x :
  inert e = false -> starts_with (p +:+ String e "") (x +:+ line) = true ->
  exists y, drop_str (String.length (p +:+ String e "")) (x +:+ line) = y +:+ line.
Proof.
  intros He. revert x. induction p as [|c p IH]; intros x.
  - cbn [String.append]. destruct x as [|d x].
    + change ("" +:+ line) with line. rewrite starts_with_inert by (done || apply line_inert). done.
    + intros _. exists x. done.
  - cbn [String.append]. destruct x as [|d x].
    + intros H. exfalso. change ("" +:+ line) with line in H. unfold line in H. cbn [starts_with] in H.
      apply andb_true_iff in H as [_ H].
      apply starts_with_spec in H as [z H]. pose proof Ht as H'. rewrite H, !forallb_char_app in H'.
      rewrite forallb_char_cons, He in H'. by rewrite andb_false_r in H'.
    + cbn [String.append starts_with]. intros [_ H]%andb_true_iff. by apply IH.
Qed.

(** The scan accepts no script from [s] on. *)
Definition refused (b : BackendType) (script s : string) : Prop :=
  forall fuel words st r, scan b script fuel words st s <> Some (Some r).

Lemma scan_refused b script : refused b script t -> forall s, before_line s -> refused b script s.
Proof.
  intros Hrt s Hs fuel. revert s Hs. induction fuel as [|fuel IH]; intros s [v ->] words st r; [done|].
  destruct v as [|c v].
  { change ("" +:+ line) with (String LF t). cbn [scan]. cbn -[scan]. destruct b; apply Hrt. }
  cbn [String.append scan].
  destruct (_ || _); [done|].
  destruct ((is_char "-"%char c && _ && _) || _) eqn:Hdash.
  { assert (skip_line (if is_char "#"%char c then v +:+ line else drop_str 1 (v +:+ line)) = t \/
            before_line (skip_line (if is_char "#"%char c then v +:+ line else drop_str 1 (v +:+ line)))) as [->|H];
      [|apply Hrt|by apply IH].
    destruct (is_char "#"%char c); [apply skip_line_pending|].
    destruct v as [|d v]; [|apply skip_line_pending]. exfalso.
    change (head_is (is_char "-"%char) ("" +:+ line)) with false in Hdash.
    by rewrite !andb_false_r in Hdash. }
  clear Hdash. destruct (_ && _) eqn:Hcomment.
  { destruct v as [|d v]; [by apply andb_true_iff in Hcomment as [_ ?]|].
    change (drop_str 1 (String d v +:+ line)) with (v +:+ line).
    destruct (scan_comment _ _ _) eqn:H; [|done]. apply IH. by eapply scan_comment_before. }
  clear Hcomment. destruct (_ || _) eqn:Hquote.
  { destruct (scan_quoted _ _ _ _) as [[w rest]|] eqn:H; [|done].
    match goal with |- (if ?refuse then _ else _) <> _ => destruct refuse end; [done|].
    apply IH. eapply scan_quoted_before; [|exact H].
    destruct (is_char "["%char c) eqn:Hb; [done|].
    unfold is_char in Hquote, Hb. destruct (inert c) eqn:Hi; [|done]. exfalso.
    assert (forall d, inert d = false -> bool_decide (c = d) = false) as Hnot by (intros d Hd; by apply inert_not).
    rewrite !Hnot in Hquote by done. by rewrite !andb_false_r in Hquote. }
  clear Hquote. destruct (is_char "$"%char c && _).
  { set (p := fun c => letter c || is_digit c).
    assert (exists x, (if head_is letter (v +:+ line) then span_char p (v +:+ line) else ("", v +:+ line)).2 = x +:+ line)
      as [x Hx].
    { destruct (head_is letter _); [by apply span_char_before|by exists v]. }
    destruct (if head_is letter _ then _ else _) as [name rest]. simpl in Hx. subst rest.
    destruct x as [|d x]; [apply IH; by exists v|]. cbn [String.append].
    destruct (is_char "$"%char d); [|apply IH; by exists v].
    destruct (find_text _ _) as [close|] eqn:H; [|done].
    apply find_text_before in H as (y & -> & Hy); [|done].
    apply (needle_before ("$" +:+ name) "$"%char) in Hy as [z Hz]; [|done]. rewrite app_str_assoc in Hz.
    apply IH. by exists z. }
  destruct (letter c).
  { destruct (span_char_before identifier v eq_refl) as [x Hx].
    destruct (span_char identifier _) as [word rest]. simpl in Hx. apply IH. by exists x. }
  destruct (is_char ";"%char c); [|apply IH; by exists v].
  destruct (check b words st); [apply IH; by exists v|done].
Qed.

(** The line in the expansion of executable comments. *)
Lemma skip_quoted_none q s : forallb_char inert s = true -> inert q = false -> skip_quoted q s = "".
Proof.
  intros Hs Hq. induction s as [|c s IH]; [done|]. rewrite forallb_char_cons in Hs.
  apply andb_true_iff in Hs as [Hc Hs]. simpl.
  rewrite (inert_not c BACKSLASH), (inert_not c q) by done. by apply IH.
Qed.

Lemma skip_quoted_eq q c d s :
  skip_quoted q (String c (String d s)) =
  if is_char BACKSLASH c && negb (is_char BACKTICK q) then skip_quoted q s
  else if is_char q c then if is_char q d then skip_quoted q s else String d s
  else skip_quoted q (String d s).
Proof. done. Qed.

Lemma skip_quoted_before q v :
  inert q = false -> skip_quoted q (v +:+ line) = "" \/ before_line (skip_quoted q (v +:+ line)).
Proof.
  intros Hq. induction v as [v IH] using (induction_ltof1 _ String.length). unfold ltof in IH.
  destruct v as [|c [|c' v]].
  - left. apply skip_quoted_none; [apply line_inert|done].
  - cbn [String.append]. unfold line. rewrite skip_quoted_eq. rewrite (inert_not LF q) by done.
    rewrite !skip_quoted_none by (done || apply line_inert).
    destruct (_ && _); [by left|]. destruct (is_char q c); [right; by exists ""|by left].
  - cbn [String.append]. rewrite skip_quoted_eq.
    destruct (_ && _); [apply IH; simpl; lia|]. destruct (is_char q c); [destruct (is_char q c')|].
    + apply IH. simpl. lia.
    + right. by exists (String c' v).
    + apply (IH (String c' v)). simpl. lia.
Qed.

Lemma any_quote_inert c : inert c = true -> any_quote c = false.
Proof. intros H. unfold any_quote. by rewrite !(inert_not c) by done. Qed.

Lemma dash_comment_inert c s : inert c = true -> dash_comment (String c s) = false.
Proof. intros H. unfold dash_comment, peek. simpl. by rewrite (inert_not c). Qed.

Lemma executableCommentEnd_none fuel s : forallb_char inert s = true -> executableCommentEnd fuel s = None.
Proof.
  revert s. induction fuel as [|fuel IH]; intros [|c s] Hs; try done. pose proof Hs as Hs'.
  rewrite forallb_char_cons in Hs'. apply andb_true_iff in Hs' as [Hc Hs']. cbn [executableCommentEnd].
  rewrite any_quote_inert, (inert_not c), dash_comment_inert, !starts_with_inert by done. by apply IH.
Qed.

Lemma drop_two_before a b' v :
  inert b' = false -> starts_with (String a (String b' "")) (v +:+ line) = true -> inert a = false ->
  exists x, v = String a (String b' x).
Proof.
  intros Hb H Ha. destruct v as [|c [|d v]].
  - by rewrite starts_with_inert in H by (done || apply line_inert).
  - cbn in H. apply andb_true_iff in H as [_ H]. apply andb_true_iff in H as [H _].
    bool_to_prop. by subst b'.
  - cbn in H. apply andb_true_iff in H as [H1 H]. apply andb_true_iff in H as [H2 _].
    bool_to_prop. subst. by eexists.
Qed.

Lemma executableCommentEnd_before fuel v close :
  executableCommentEnd fuel (v +:+ line) = Some close ->
  exists x, close = String "*"%char (String "/"%char x) /\ before_line x.
Proof.
  revert v. induction fuel as [|fuel IH]; intros v; [done|]. destruct v as [|c v].
  { change ("" +:+ line) with line. rewrite executableCommentEnd_none by apply line_inert. done. }
  cbn [String.append executableCommentEnd]. destruct (any_quote c) eqn:Hq.
  { assert (inert c = false) as Hi by (destruct (inert c) eqn:E; [by rewrite any_quote_inert in Hq|done]).
    destruct (skip_quoted_before c v Hi) as [-> |[y ->]]; [by destruct fuel|apply IH]. }
  destruct (_ || _).
  { destruct (skip_line_pending (String c v)) as [H|[y H]]; cbn [String.append] in H; rewrite H;
      [rewrite executableCommentEnd_none by done; done|apply IH]. }
  destruct (starts_with "/*" _) eqn:Hs.
  { change (String c (v +:+ line)) with (String c v +:+ line) in *.
    apply drop_two_before in Hs as [y [= -> ->]]; [|done|done].
    cbn [String.append drop_str].
    destruct (find_text _ _) as [rest|] eqn:H; [|done].
    apply find_text_before in H as (z & -> & Hz); [|done].
    apply drop_two_before in Hz as [y' ->]; [|done|done]. cbn [String.append drop_str]. apply IH. }
  destruct (starts_with "*/" _) eqn:He; [|apply IH].
  intros [= <-]. change (String c (v +:+ line)) with (String c v +:+ line) in *.
  apply drop_two_before in He as [y [= -> ->]]; [|done|done]. exists (y +:+ line). split; [done|by exists y].
Qed.

Lemma between_cons c s : between (String c s) s = String c "".
Proof. unfold between. simpl. destruct (String.length s) eqn:E; [done|]. rewrite <- E.
  replace (S (String.length s) - String.length s) with 1 by lia. done. Qed.

Lemma expand_inert fuel limit s e : forallb_char inert s = true -> expand fuel limit s = Some e -> e = s.
Proof.
  revert limit s e. induction fuel as [|fuel IH]; intros limit [|c s] e Hs; try done; [by intros [= <-]|].
  rewrite forallb_char_cons in Hs. apply andb_true_iff in Hs as [Hc Hs].
  assert (forallb_char inert (String c s) = true) as Hcs by (by rewrite forallb_char_cons, Hc).
  cbn [expand]. rewrite any_quote_inert, (inert_not c), dash_comment_inert, starts_with_inert by done. simpl.
  intros (e' & He & [= <-])%bind_Some. apply IH in He as ->; [|done]. by rewrite between_cons.
Qed.

Lemma between_line s v : s = v +:+ t -> exists w, between s t = w /\ v = w.
Proof.
  intros ->. eexists. split; [reflexivity|]. unfold between. rewrite length_app_str.
  replace (String.length v + String.length t - String.length t) with (String.length v) by lia.
  by rewrite take_str_app.
Qed.

(** Text copied in front keeps the line. *)
Lemma copy_before w e : before_line e -> before_line (w +:+ e).
Proof. intros [x ->]. exists (w +:+ x). by rewrite app_str_assoc. Qed.

Lemma between_empty s : between s "" = s.
Proof.
  unfold between. rewrite Nat.sub_0_r. rewrite <- (app_str_nil_r s) at 2. by rewrite take_str_app.
Qed.

Lemma expand_before fuel limit v e :
  expand fuel limit (v +:+ line) = Some e -> before_line e.
Proof.
  revert limit v e. induction fuel as [|fuel IH]; intros limit v e; [done|]. destruct v as [|c v].
  { change ("" +:+ line) with line. intros H%expand_inert; [|apply line_inert]. subst e. by exists "". }
  cbn [String.append expand]. change (String c (v +:+ line)) with (String c v +:+ line).
  destruct (any_quote c) eqn:Hq.
  { assert (inert c = false) as Hi by (destruct (inert c) eqn:E; [by rewrite any_quote_inert in Hq|done]).
    destruct (skip_quoted_before c v Hi) as [-> |[y ->]]; intros (e' & He & [= <-])%bind_Some.
    - apply expand_inert in He as ->; [|done]. rewrite app_str_nil_r.
      change (String c _) with (between (String c v +:+ line) ""). rewrite between_empty. by exists (String c v).
    - by eapply copy_before, IH. }
  destruct (_ || _).
  { destruct (skip_line_pending (String c v)) as [H|[y H]]; rewrite H; intros (e' & He & [= <-])%bind_Some.
    - apply expand_inert in He as ->; [|done]. exists (String c v).
      assert (between (String c v +:+ line) t +:+ t = String c v +:+ line) as Hb.
      { destruct (between_line (String c v +:+ line) (String c v +:+ String LF "")) as (w & -> & <-).
        - unfold line. by rewrite app_str_assoc.
        - by rewrite app_str_assoc. }
      etrans; [|exact Hb]. done.
    - by eapply copy_before, IH. }
  destruct (starts_with "/*" _) eqn:Hs; [|intros (e' & He & [= <-])%bind_Some; by eapply copy_before, IH].
  apply drop_two_before in Hs as [y [= -> ->]]; [|done|done].
  set (executable := (_ <=? _)%nat && peek 2 (is_char "!"%char) _).
  set (maria := (_ <=? _)%nat && _ && _).
  destruct (executable || maria) eqn:Hx.
  - assert (exists z, drop_str (if executable then 3 else 4) (String "/"%char (String "*"%char y) +:+ line) = z +:+ line)
      as [z ->].
    { subst executable maria. destruct ((_ <=? _)%nat); [|done]. unfold peek in *. cbn [String.append drop_str] in *.
      destruct y as [|d y]; [done|]. cbn [String.append drop_str] in *.
      destruct (head_is (is_char "!"%char) (String d (y +:+ line))); cbn [andb].
      - by exists y.
      - cbn [andb orb] in Hx. destruct y as [|d' y]; [by rewrite andb_false_r in Hx|]. by exists y. }
    destruct (executableCommentEnd _ _) as [close|] eqn:Hc; [|done].
    apply executableCommentEnd_before in Hc as (x & -> & [x' ->]).
    destruct (span_char _ _) as [digits body]. cbn [drop_str].
    intros H. apply bind_Some in H as (e' & He & H).
    assert (body +:+ "  " +:+ (x' +:+ line) = (body +:+ "  " +:+ x') +:+ line) as Heq by (by rewrite !app_str_assoc).
    cbn [String.append] in Heq. rewrite Heq in He. apply IH in He as He'.
    injection H as <-. by apply copy_before.
  - cbn [String.append drop_str]. destruct (find_text _ _) as [close|] eqn:H; [|done].
    apply find_text_before in H as (z & -> & Hz); [|done].
    apply drop_two_before in Hz as [y' ->]; [|done|done]. cbn [String.append drop_str].
    intros (e' & He & [= <-])%bind_Some. change (String "/"%char (String "*"%char (y +:+ line)))
      with (String "/"%char (String "*"%char y) +:+ line). by eapply copy_before, IH.
Qed.

End unhidden.

(** ** Fuel *)
Section fuel.

Lemma skip_quoted_length q s : String.length (skip_quoted q s) <= String.length s.
Proof.
  induction s as [s IH] using (induction_ltof1 _ String.length). unfold ltof in IH.
  destruct s as [|c [|c' s]]; simpl; [done| |].
  - destruct (_ && _); [simpl; lia|]. destruct (is_char q c); simpl; lia.
  - destruct (_ && _); [|destruct (is_char q c); [destruct (is_char q c')|]].
    + specialize (IH s). simpl in IH. lia.
    + specialize (IH s). simpl in IH. lia.
    + simpl. lia.
    + specialize (IH (String c' s)). simpl in *. lia.
Qed.

Lemma executableCommentEnd_length fuel s close :
  executableCommentEnd fuel s = Some close -> String.length close <= String.length s.
Proof.
  revert s close. induction fuel as [|fuel IH]; intros [|c s] close; try done. cbn [executableCommentEnd].
  pose proof (skip_quoted_length c s).
  assert (String.length (skip_line (String c s)) <= S (String.length s)) by apply skip_line_length.
  assert (String.length (drop_str 2 (String c s)) <= S (String.length s)) by apply drop_str_length.
  change (String.length (String c s)) with (S (String.length s)).
  destruct (any_quote c); [intros ?%IH; lia|].
  destruct (is_char "#"%char c || dash_comment (String c s)); [intros ?%IH; lia|].
  destruct (starts_with "/*" _).
  { destruct (find_text _ _) as [r|] eqn:Hr; [|done]. apply find_text_length in Hr.
    pose proof (drop_str_length 2 r). intros ?%IH. lia. }
  destruct (starts_with "*/" _); [intros [= <-]; simpl; lia|intros ?%IH; lia].
Qed.

Lemma drop_str_shorter n c s : 0 < n -> String.length (drop_str n (String c s)) < S (String.length s).
Proof. destruct n; [lia|]. intros _. simpl. pose proof (drop_str_length n s). lia. Qed.

Lemma skip_line_shorter c s :
  is_char "#"%char c || dash_comment (String c s) = true -> String.length (skip_line (String c s)) < S (String.length s).
Proof.
  intros H. simpl. destruct (line_end c) eqn:Hl; [|pose proof (skip_line_length s); lia].
  pose proof (skip_line_length s). lia.
Qed.

Lemma executableCommentEnd_fuel f g s :
  String.length s < f -> String.length s < g -> executableCommentEnd f s = executableCommentEnd g s.
Proof.
  revert g s. induction f as [|f IH]; intros [|g] [|c s] Hf Hg; try (simpl in *; lia); [done|].
  cbn [executableCommentEnd]. simpl String.length in Hf, Hg.
  pose proof (skip_quoted_length c s). pose proof (drop_str_shorter 2 c s ltac:(lia)).
  destruct (any_quote c); [apply IH; lia|].
  destruct (is_char "#"%char c || dash_comment (String c s)) eqn:Hc.
  { apply skip_line_shorter in Hc. apply IH; lia. }
  destruct (starts_with "/*" _).
  { destruct (find_text _ _) as [r|] eqn:Hr; [|done]. apply find_text_length in Hr.
    pose proof (drop_str_length 2 r). apply IH; lia. }
  destruct (starts_with "*/" _); [done|]. apply IH; lia.
Qed.

Lemma take_str_length_le n s : String.length (take_str n s) <= n.
Proof. rewrite take_str_length. lia. Qed.

Lemma executable_shorter c s m digits body close inside :
  0 < m -> inside = drop_str m (String c s) -> executableCommentEnd (S (String.length inside)) inside = Some close ->
  span_char is_digit (between inside close) = (digits, body) ->
  starts_with "*/" close = true ->
  String.length (body +:+ "  " +:+ drop_str 2 close) < S (String.length s).
Proof.
  intros Hm Hi Hc Hs Hclose. pose proof (drop_str_shorter m c s Hm) as Hl. rewrite <- Hi in Hl.
  apply executableCommentEnd_length in Hc.
  pose proof (span_char_length is_digit (between inside close)) as Hb. rewrite Hs in Hb. simpl in Hb.
  pose proof (take_str_length_le (String.length inside - String.length close) inside) as Ht.
  fold (between inside close) in Ht.
  apply starts_with_spec in Hclose as [r ->]. rewrite !length_app_str in *. simpl in *. lia.
Qed.

Lemma executableCommentEnd_starts fuel s close :
  executableCommentEnd fuel s = Some close -> starts_with "*/" close = true.
Proof.
  revert s. induction fuel as [|fuel IH]; intros [|c s]; try done. cbn [executableCommentEnd].
  destruct (any_quote c); [apply IH|].
  destruct (is_char "#"%char c || dash_comment (String c s)); [apply IH|].
  destruct (starts_with "/*" (String c s)); [destruct (find_text _ _); [apply IH|done]|].
  destruct (starts_with "*/" (String c s)) eqn:He; [by intros [= <-]|apply IH].
Qed.

Lemma expand_fuel f g limit s :
  String.length s < f -> String.length s < g -> expand f limit s = expand g limit s.
Proof.
  revert g limit s. induction f as [|f IH]; intros [|g] limit [|c s] Hf Hg; try (simpl in *; lia); [done|].
  cbn [expand]. simpl String.length in Hf, Hg.
  pose proof (skip_quoted_length c s). pose proof (drop_str_shorter 2 c s ltac:(lia)).
  destruct (any_quote c); [by rewrite (IH g) by lia|].
  destruct (is_char "#"%char c || dash_comment (String c s)) eqn:Hc.
  { apply skip_line_shorter in Hc. by rewrite (IH g) by lia. }
  destruct (starts_with "/*" _); [|by rewrite (IH g) by lia].
  set (m := if _ && peek 2 (is_char "!"%char) _ then 3 else 4).
  assert (0 < m) as Hm by (unfold m; destruct (_ && _); lia).
  match goal with |- (if ?test then _ else _) = _ => destruct test end.
  - destruct (executableCommentEnd _ _) as [close|] eqn:He; [|done].
    destruct (span_char _ _) as [digits body] eqn:Hs.
    pose proof (executable_shorter c s m digits body close _ Hm eq_refl He Hs (executableCommentEnd_starts _ _ _ He)).
    by rewrite (IH g) by lia.
  - destruct (find_text _ _) as [r|] eqn:Hr; [|done]. apply find_text_length in Hr.
    pose proof (drop_str_length 2 r). by rewrite (IH g) by lia.
Qed.

End fuel.

(** ** Quoted identifiers *)
Lemma scan_quoted_concat d name rest :
  head_is (is_char d) rest = false -> is_char BACKSLASH d = false ->
  scan_quoted false true d (concat_map (double_char d) name +:+ String d rest)
  = Some (concat_map (double_char d) name, rest).
Proof.
  intros Hrest Hd. assert (is_char d d = true) as Hdd by (by apply bool_decide_eq_true).
  induction name as [|c name IH]; simpl.
  - rewrite Hdd. destruct rest as [|e rest]; [done|]. simpl in Hrest. by rewrite Hrest.
  - unfold double_char at 1 3. case_bool_decide as Hc; simpl.
    + subst c. by rewrite !Hdd, IH.
    + assert (is_char d c = false) as -> by (by apply bool_decide_eq_false). by rewrite IH.
Qed.

(** ** Theorems *)

(** The statements that end or leave the migration's transaction on every checked backend. *)
Definition controls : list string := ["COMMIT"; "ROLLBACK"; "START"; "SAVEPOINT"; "RELEASE"; "RESET"].
Definition checked_backends : list BackendType := [Postgres; Mysql; Mariadb].
Definition letters (w : string) : bool := forallb_char (fun c => is_upper c || is_lower c) w.

Lemma check_control b w st : b ∈ checked_backends -> w ∈ controls -> check b [w] st = None.
Proof.
  intros Hb Hw. destruct st as [routine blocks]. unfold checked_backends, controls in *.
  repeat (apply elem_of_cons in Hb as [-> |Hb]); [..|by apply not_elem_of_nil in Hb];
    repeat (apply elem_of_cons in Hw as [-> |Hw]); try (by apply not_elem_of_nil in Hw); reflexivity.
Qed.

Lemma letters_identifier w : letters w = true -> forallb_char identifier w = true.
Proof.
  unfold letters. induction w as [|c w IH]; [done|]. rewrite !forallb_char_cons. intros [Hc Hw]%andb_true_iff.
  rewrite IH by done. unfold identifier, letter. apply orb_true_iff in Hc as [-> | ->]; by rewrite ?orb_true_r.
Qed.

Lemma letters_inert w : letters w = true -> forallb_char inert w = true.
Proof.
  unfold letters. induction w as [|c w IH]; [done|]. rewrite !forallb_char_cons. intros [Hc Hw]%andb_true_iff.
  rewrite IH by done. unfold inert. by rewrite Hc.
Qed.

Lemma scan_control b script w :
  b ∈ checked_backends -> letters w = true -> upper w ∈ controls -> refused b script (String ";"%char w).
Proof.
  intros Hb Hw Hc fuel words st r. destruct fuel as [|fuel]; [done|].
  assert (scan b script (S fuel) words st (String ";"%char w) =
    match check b words st with None => Some None | Some st => scan b script fuel [] st w end) as ->.
  { destruct b; reflexivity. }
  destruct (check b words st) as [st'|]; [|done]. destruct fuel as [|fuel]; [done|].
  destruct w as [|c w]; [by apply (bool_decide_eq_true_2 _) in Hc|].
  unfold letters in Hw. rewrite forallb_char_cons in Hw. apply andb_true_iff in Hw as [Hcl Hw].
  assert (inert c = true) as Hi by (unfold inert; by rewrite Hcl).
  assert (letter c = true) as Hl.
  { unfold letter. apply orb_true_iff in Hcl as [-> | ->]; by rewrite ?orb_true_r. }
  cbn [scan]. rewrite !(inert_not c) by done. rewrite !andb_false_r, Hl. simpl.
  rewrite <- (app_str_nil_r w) at 1. rewrite (span_char_app identifier w "");
    [|by apply letters_identifier|done].
  destruct fuel as [|fuel]; [done|]. cbn [scan app]. by rewrite check_control.
Qed.

(** no text can hide a statement: whatever a script holds before it, open
    quotes, comments, dollar quotes and executable comments included, a script
    whose last line is a statement that ends, opens or leaves a transaction or
    resets the session, in any letter case, is refused on PostgreSQL, MySQL
    and MariaDB. *)
Theorem control_statement_refused b script w version :
  b ∈ checked_backends -> letters w = true -> upper w ∈ controls ->
  validateScript (script +:+ newline +:+ ";" +:+ w) b version = Err (invalidSql b version).
Proof.
  intros Hb Hw Hc. set (t := String ";"%char w).
  assert (forallb_char inert t = true) as Ht.
  { unfold t. rewrite forallb_char_cons. by rewrite letters_inert. }
  change (newline +:+ ";" +:+ w) with (line t).
  assert (forall s e, before_line t s -> refused b e s) as Hrefused.
  { intros s e. apply scan_refused; [done|]. by apply scan_control. }
  unfold validateScript.
  destruct (if is_mysql b then _ else _) as [e|e] eqn:He; [rewrite bind_Ok|rewrite bind_Err].
  - assert (before_line t e) as Hbl.
    { destruct (is_mysql b); [|injection He as <-; by exists script].
      apply or_throw_Ok_iff in He. by apply (expand_before t Ht) in He. }
    destruct (scan b e (S (String.length e)) [] (false, []) e) as [[r|]|] eqn:Hs; [|done|done].
    by apply (Hrefused e e Hbl) in Hs.
  - destruct (is_mysql b); [|done]. unfold or_throw in He. destruct (expand _ _ _); congruence.
Qed.

Lemma control_statement_refused_witness :
  validateScript ("select 'it''s' /* /*!40101 x */ " +:+ newline +:+ ";" +:+ "Commit") Mysql 7
  = Err (invalidSql Mysql 7).
Proof. apply control_statement_refused; [right; left|reflexivity|left]. Defined.

(** a generated identifier is one token: after [quoteIdentifier], whatever the
    name holds, the scan goes on behind the closing quote with a single quoted
    word, unless the name is one of the journal's (or, on MySQL and MariaDB, a
    lock function), which it refuses. *)
Theorem quoted_identifier_scanned b script fuel words st name q rest :
  quoteIdentifier b name = Ok q -> head_is (is_char (delimiter b)) rest = false ->
  scan b script (S fuel) words st (q +:+ rest) =
  let raw := upper (concat_map (double_char (delimiter b)) name) in
  if bool_decide (b <> Sqlite) && (word_in journal_names raw || is_mysql b && word_in lock_names raw)
  then Some None
  else scan b script fuel (words ++ ["<quoted>"])%list st rest.
Proof.
  intros (Hb & _ & ->)%quoteIdentifier_Ok_iff Hrest.
  assert (is_char BACKSLASH (delimiter b) = false) as Hd by (by destruct b).
  pose proof (scan_quoted_concat (delimiter b) name rest Hrest Hd) as Hq. cbv zeta.
  change (String (delimiter b) ?x +:+ rest) with (String (delimiter b) (x +:+ rest)).
  rewrite app_str_assoc. change (String (delimiter b) "" +:+ rest) with (String (delimiter b) rest).
  destruct b; try discriminate Hb; unfold delimiter in *; simpl in Hq |- *; rewrite Hq; simpl;
    rewrite ?orb_false_r; reflexivity.
Qed.

Lemma quoted_identifier_scanned_witness :
  exists q, quoteIdentifier Postgres "a'b" = Ok q /\
    scan Postgres "" 9 ["TABLE"] (false, []) (q +:+ " (x)") =
    scan Postgres "" 8 ["TABLE"; "<quoted>"] (false, []) " (x)".
Proof.
  eexists. split; [reflexivity|].
  by rewrite (quoted_identifier_scanned Postgres "" 8 ["TABLE"] (false, []) "a'b" _ " (x)" eq_refl eq_refl).
Defined.

(** the scan of every script ends with a verdict: with more fuel than there are
    characters, as [validateScript] gives, neither the expansion of executable
    comments nor the scan depends on the fuel. *)
Theorem scan_terminates b script f g words st limit s :
  String.length s < f -> String.length s < g ->
  (expand f limit s = expand g limit s) /\
  (exists r, scan b script f words st s = Some r /\ scan b script g words st s = Some r).
Proof. intros Hf Hg. split; [by apply expand_fuel|by apply scan_total]. Qed.

Lemma scan_terminates_witness :
  exists r, scan Mysql "select 1" 9 [] (false, []) "select 1" = Some r /\
            scan Mysql "select 1" 90 [] (false, []) "select 1" = Some r.
Proof. apply (scan_terminates Mysql "select 1" 9 90 [] (false, []) 8 "select 1"); simpl; lia. Defined.
