(* ===== verification/Literals.v ===== *)
(** Literals: the SQL of constants and expressions that fill columns, from
    src/migrations/SchemaGeneration.cpp. *)
From S2P Require Import Prelude Foundation Chrono Values Codec Schema Sha256 Models PhysicalSql Snapshot Diff SqlValidation.
Local Open Scope string_scope.

(** [generationFailure]. *)
Definition generationFailure {A} (code message path : string) (b : BackendType) : res A :=
  Err (GenerationError message [MkDiagnostic code message path b true]).

Definition fail_if (c : bool) (code message path : string) (b : BackendType) : res unit :=
  if c then generationFailure code message path b else Ok tt.

(** [try { body } catch (const std::invalid_argument&) { handler }]. *)
Definition catch_invalid {A} (body handler : res A) : res A :=
  match body with Err (InvalidArgument _) => handler | _ => body end.

Definition hexadecimal (bytes : string) : string :=
  concat_map (fun c => String (hex_digit (Z.shiftr (byte_of c) 4)) (String (hex_digit (Z.land (byte_of c) 15)) "")) bytes.

(** ** UTF-8 *)
Definition utf8_width (lead : Z) : nat :=
  if (lead <? 128)%Z then 1
  else if (194 <=? lead)%Z && (lead <=? 223)%Z then 2
  else if (224 <=? lead)%Z && (lead <=? 239)%Z then 3
  else if (240 <=? lead)%Z && (lead <=? 244)%Z then 4 else 0.

Definition lead_mask (width : nat) : Z :=
  match width with 1%nat => 127%Z | 2%nat => 31%Z | 3%nat => 15%Z | _ => 7%Z end.

Definition invalidUtf8 {A} : res A :=
  generationFailure "invalid-literal" "String literals must contain valid UTF-8" "" Empty.

(** The loop over the continuation bytes; the bytes it reads are there. *)
Fixpoint continuation (codepoint : Z) (bytes : list ascii) : res Z :=
  match bytes with
  | [] => Ok codepoint
  | c :: bytes =>
      let byte := byte_of c in
      if negb (Z.land byte 192 =? 128)%Z then invalidUtf8
      else continuation (Z.lor (Z.shiftl codepoint 6) (Z.land byte 63)) bytes
  end.

Definition overlong (width : nat) (codepoint : Z) : bool :=
  ((width =? 2)%nat && (codepoint <? 128)%Z) || ((width =? 3)%nat && (codepoint <? 2048)%Z)
  || ((width =? 4)%nat && (codepoint <? 65536)%Z)
  || ((55296 <=? codepoint)%Z && (codepoint <=? 57343)%Z) || (1114111 <? codepoint)%Z.

(** The outer loop, with fuel for the number of code points. *)
Fixpoint unicode_count (fuel : nat) (count : N) (value : list ascii) : res N :=
  match fuel, value with
  | S fuel, lead :: rest =>
      let width := utf8_width (byte_of lead) in
      if (width =? 0)%nat || (length value <? width)%nat then invalidUtf8
      else
        codepoint ← continuation (Z.land (byte_of lead) (lead_mask width)) (take (width - 1) rest);
        if overlong width codepoint then invalidUtf8
        else unicode_count fuel (count + 1)%N (drop (width - 1) rest)
  | _, _ => Ok count
  end.

Definition unicodeLength (value : string) : res N :=
  unicode_count (String.length value) 0 (chars value).

(** ** Numbers *)
Definition integerLimits (t : ColumnType) : res (Z * Z) :=
  match t with
  | ColumnType.Bool => Ok (0, 1)
  | ColumnType.Char => Ok (-128, 127)
  | ColumnType.UnsignedChar => Ok (0, 255)
  | ColumnType.Short => Ok (-32768, 32767)
  | ColumnType.UnsignedShort => Ok (0, 65535)
  | ColumnType.Int => Ok (-2147483648, 2147483647)
  | ColumnType.UnsignedInt => Ok (0, 4294967295)
  | ColumnType.LongLong => Ok (- 2 ^ 63, 2 ^ 63 - 1)
  | ColumnType.UnsignedLongLong => Ok (0, 2 ^ 64 - 1)
  | _ => generationFailure "invalid-literal" "Literal does not match the target logical type" "" Empty
  end%Z.

(** [std::to_chars(value, chars_format::general, 17)]: seventeen significant digits,
    rounded half to even, without trailing zeros; the exponent form below
    [10^-4] and from [10^17] on. *)
Definition divide_even (n d : Z) : Z :=
  let q := (n / d)%Z in
  let r := (2 * (n mod d))%Z in
  if (r <? d)%Z || ((r =? d)%Z && Z.even q) then q else (q + 1)%Z.

Definition decimal_length (n : Z) : Z := Z.of_nat (String.length (to_string (Z.to_N n))).

(** [n / d * 10^k] as a fraction. *)
Definition scale (n d k : Z) : Z * Z :=
  if (0 <=? k)%Z then ((n * 10 ^ k)%Z, d) else (n, (d * 10 ^ (- k))%Z).

(** The decimal exponent of [n / d > 0]. *)
Definition decimal_exponent (n d : Z) : Z :=
  let guess := (decimal_length n - decimal_length d)%Z in
  let (a, b) := scale n d (- guess) in
  if (b <=? a)%Z then guess else (guess - 1)%Z.

Definition significant : Z := 17.

(** The digits, [significant] of them, and the exponent of the first one. *)
Definition decimal_digits (n d : Z) : Z * Z :=
  let x := decimal_exponent n d in
  let (a, b) := scale n d (significant - 1 - x) in
  let q := divide_even a b in
  if (q =? 10 ^ significant)%Z then ((q / 10)%Z, (x + 1)%Z) else (q, x).

Fixpoint strip_zeros (l : list ascii) : list ascii :=
  match l with
  | c :: l => if bool_decide (c = "0"%char) then strip_zeros l else c :: l
  | [] => []
  end.
(** Text without its trailing zeros. *)
Definition trim_zeros (s : string) : string := of_chars (rev (strip_zeros (rev (chars s)))).

Definition with_fraction (whole fraction : string) : string :=
  if bool_decide (fraction = "") then whole else whole +:+ "." +:+ fraction.

Definition general_format (digits : string) (x : Z) : string :=
  if (-4 <=? x)%Z && (x <? significant)%Z then
    if (x <? 0)%Z
    then with_fraction "0" (of_chars (replicate (Z.to_nat (- x - 1)) "0"%char) +:+ trim_zeros digits)
    else with_fraction (take_str (Z.to_nat (x + 1)) digits) (trim_zeros (drop_str (Z.to_nat (x + 1)) digits))
  else
    with_fraction (take_str 1 digits) (trim_zeros (drop_str 1 digits))
      +:+ "e" +:+ (if (x <? 0)%Z then "-" else "+") +:+ (if (Z.abs x <? 10)%Z then "0" else "")
      +:+ to_string (Z.to_N (Z.abs x)).

Definition floatingSql (value : double) : string :=
  match value with
  | S754_finite sign m e =>
      let (n, d) := if (0 <=? e)%Z then ((Z.pos m * 2 ^ e)%Z, 1%Z) else (Z.pos m, (2 ^ (- e))%Z) in
      let (q, x) := decimal_digits n d in
      (if sign then "-" else "") +:+ general_format (to_string (Z.to_N q)) x
  | S754_zero sign => (if sign then "-" else "") +:+ "0"
  | S754_infinity sign => (if sign then "-" else "") +:+ "inf"
  | S754_nan => "nan"
  end.

Definition is_finite (d : double) : bool :=
  match d with S754_finite _ _ _ | S754_zero _ => true | _ => false end.

(** [static_cast<float>] and [static_cast<double>], rounding to nearest even. *)
Definition round_to (prec emax : Z) (d : double) : double :=
  match d with
  | S754_finite sign m e => binary_normalize prec emax (if sign then Z.neg m else Z.pos m) e sign
  | _ => d
  end.
Definition to_float : double -> double := round_to 24 128.
Definition float_of_integer (z : Z) : double := binary_normalize 24 128 z 0 false.
Definition double_of_integer (z : Z) : double := binary_normalize 53 1024 z 0 false.

(** [std::numeric_limits<float>::max()] as a [double], with its 53 bits. *)
Definition float_max : double := S754_finite false (16777215 * 2 ^ 29) 75.
Definition exceeds_float (d : double) : bool :=
  match SFcompare (SFabs d) float_max with Some Gt => true | _ => false end.

(** ** Literals *)
Definition mismatch {A} (c : PhysicalColumn) (b : BackendType) (message : string) : res A :=
  generationFailure "invalid-literal" message (col_name c) b.

Definition mismatch_if (refused : bool) (c : PhysicalColumn) (b : BackendType) (message : string) : res unit :=
  if refused then mismatch c b message else Ok tt.

(** The body of [nativeLiteralSql] for a value of logical type [type]: its native
    validation, its text and how the text becomes an expression. *)
Definition native_sql (type : ColumnType) (validateNative : res unit) (text : res string)
    (wrap : string -> string) (c : PhysicalColumn) (b : BackendType) : res string :=
  mismatch_if (negb (bool_decide (logicalType c = type))) c b "Literal does not match the target logical type" ;;
  catch_invalid (validateNative ;; t ← text; Ok (wrap t))
    (mismatch c b "Literal is outside the target backend domain").

Definition quoted (text : string) : string := "'" +:+ text +:+ "'".

Definition uuid_expression (b : BackendType) (text : string) : string :=
  quoted text +:+ (if bool_decide (b = Postgres) then "::uuid" else "").

Definition temporal_expression (c : PhysicalColumn) (b : BackendType) (text : string) : string :=
  if bool_decide (b = Postgres)
  then "CAST('" +:+ text +:+ "' AS " +:+ sqlType_of c +:+ ")"
  else quoted text.

Definition uuidLiteralSql (u : Uuid.t) (c : PhysicalColumn) (b : BackendType) : res string :=
  native_sql ColumnType.Uuid (validateNative_Uuid u b) (Ok (Uuid.toString u)) (uuid_expression b) c b.

(** [nativeLiteralSql], one case for each native type. *)
Definition nativeLiteralSql (item : GenerationLiteral) (c : PhysicalColumn) (b : BackendType) : res string :=
  match item with
  | LitDate d =>
      native_sql ColumnType.Date (validateNative_Date d b) (format_Date d) (temporal_expression c b) c b
  | LitTimeOfDay t =>
      native_sql ColumnType.TimeOfDay (validateNative_TimeOfDay t b) (Ok (format_TimeOfDay t))
        (temporal_expression c b) c b
  | LitLocalDateTime t =>
      native_sql ColumnType.LocalDateTime (validateNative_LocalDateTime t b) (format_LocalDateTime t)
        (temporal_expression c b) c b
  | LitUtcTimestamp t =>
      native_sql ColumnType.UtcTimestamp (validateNative_UtcTimestamp t b)
        (format_UtcTimestamp t (bool_decide (b = Postgres))) (temporal_expression c b) c b
  | LitUuid u => uuidLiteralSql u c b
  | _ => generationFailure "invalid-literal" "Literal does not match the target logical type" (col_name c) b
  end.

Definition is_floating (t : ColumnType) : bool :=
  bool_decide (t = ColumnType.Float) || bool_decide (t = ColumnType.Double).


Definition exceeds_bound (length : N) (bound : option N) : bool :=
  match bound with Some n => (n <? length)%N | None => false end.

(** Text as an expression of its bytes. *)
Definition text_expression (b : BackendType) (item : string) : string :=
  match b with
  | Sqlite => "CAST(X'" +:+ hexadecimal item +:+ "' AS TEXT)"
  | Mysql | Mariadb => "CONVERT(X'" +:+ hexadecimal item +:+ "' USING utf8mb4)"
  | _ => "convert_from(decode('" +:+ hexadecimal item +:+ "', 'hex'), 'UTF8')"
  end.

Definition hex_only (b : BackendType) : bool :=
  bool_decide (b = Sqlite) || bool_decide (b = Mysql) || bool_decide (b = Mariadb).

Definition stringLiteralSql (item : string) (c : PhysicalColumn) (b : BackendType) : res string :=
  if bool_decide (logicalType c = ColumnType.Uuid) then
    catch_invalid (u ← Uuid.parse item; uuidLiteralSql u c b)
      (mismatch c b "UUID literal requires canonical UUID text")
  else
    mismatch_if (negb (bool_decide (logicalType c = ColumnType.String))) c b
      "String literal requires a string target" ;;
    length ← unicodeLength item;
    mismatch_if (exceeds_bound length (maxStringLength c)) c b "String literal exceeds the target bound" ;;
    mismatch_if (negb (hex_only b) && contains_char NUL item) c b "PostgreSQL text cannot contain NUL" ;;
    Ok (text_expression b item).

Definition doubleLiteralSql (item : double) (c : PhysicalColumn) (b : BackendType) : res string :=
  let single := bool_decide (logicalType c = ColumnType.Float) in
  mismatch_if (negb (is_floating (logicalType c)) || negb (is_finite item) || single && exceeds_float item) c b
    "Floating literal requires a finite representable floating target" ;;
  Ok (floatingSql (if single then to_float item else item)).

(** The alternatives [bool], [std::int64_t] and [std::uint64_t]; [unsigned] is
    whether the alternative is [std::uint64_t]. *)
Definition integerLiteralSql (item : Z) (unsigned : bool) (c : PhysicalColumn) (b : BackendType) : res string :=
  if is_floating (logicalType c) then
    Ok (floatingSql (if bool_decide (logicalType c = ColumnType.Float)
                     then float_of_integer item else double_of_integer item))
  else
    limits ← integerLimits (logicalType c);
    mismatch_if ((item <? limits.1)%Z || (limits.2 <? item)%Z) c b
      "Integer literal is outside the target range" ;;
    mismatch_if (unsigned && (bool_decide (b = Sqlite) || bool_decide (b = Postgres)) && (2 ^ 63 - 1 <? item)%Z) c b
      "Backend cannot represent this unsigned literal" ;;
    Ok (if bool_decide (logicalType c = ColumnType.Bool) && bool_decide (b = Postgres)
        then if (item =? 0)%Z then "FALSE" else "TRUE"
        else to_string_Z item).

Definition literalSql (value : GenerationLiteral) (c : PhysicalColumn) (b : BackendType) : res string :=
  match value with
  | LitNull =>
      mismatch_if (negb (nullable c)) c b "NULL cannot fill a required column" ;;
      Ok "NULL"
  | LitString item => stringLiteralSql item c b
  | LitDouble item => doubleLiteralSql item c b
  | LitBool item => integerLiteralSql (if item then 1 else 0) false c b
  | LitInt64 item => integerLiteralSql item false c b
  | LitUInt64 item => integerLiteralSql item true c b
  | _ => nativeLiteralSql value c b
  end.

(** ** Expressions *)
Definition is_quote (c : ascii) : bool :=
  bool_decide (c = "'"%char) || bool_decide (c = DQUOTE) || bool_decide (c = "`"%char).

(** A character that starts a command, a comment or dollar quoting. *)
Definition starts_command (c : ascii) (rest : string) : bool :=
  bool_decide (c = ";"%char) || bool_decide (c = "#"%char) || bool_decide (c = "$"%char)
  || bool_decide (c = "\"%char)
  || bool_decide (c = "-"%char) && head_is (fun d => bool_decide (d = "-"%char)) rest
  || bool_decide (c = "/"%char) && head_is (fun d => bool_decide (d = "*"%char)) rest.

Definition escapes (b : BackendType) (q c : ascii) : bool :=
  bool_decide (c = "\"%char) && negb (bool_decide (b = Sqlite)) && negb (bool_decide (b = Postgres))
  && negb (bool_decide (q = "`"%char)).

Definition expression_failure {A} (b : BackendType) (message : string) : res A :=
  generationFailure "invalid-expression" message "" b.

(** The loop over the characters, with the open quote and the open parentheses;
    it gives both at the end. *)
Fixpoint scan_expression (b : BackendType) (quoted : option ascii) (parentheses : Z) (s : string)
    : res (option ascii * Z) :=
  match s with
  | "" => Ok (quoted, parentheses)
  | String c rest =>
      match quoted with
      | Some q =>
          if escapes b q c then
            match rest with String _ rest => scan_expression b quoted parentheses rest | "" => Ok (quoted, parentheses) end
          else if bool_decide (c = q) then
            match rest with
            | String d rest' =>
                if bool_decide (d = q) then scan_expression b quoted parentheses rest'
                else scan_expression b None parentheses rest
            | "" => Ok (None, parentheses)
            end
          else scan_expression b quoted parentheses rest
      | None =>
          if is_quote c then scan_expression b (Some c) parentheses rest
          else if starts_command c rest then
            expression_failure b "Transformation expressions cannot contain commands, comments, or dollar quoting"
          else if bool_decide (c = "("%char) then scan_expression b None (parentheses + 1) rest
          else if bool_decide (c = ")"%char) then
            if (parentheses - 1 <? 0)%Z then expression_failure b "Unbalanced transformation expression"
            else scan_expression b None (parentheses - 1) rest
          else scan_expression b None parentheses rest
      end
  end.

Definition validateExpression (expression : string) (b : BackendType) : res unit :=
  (if bool_decide (expression = "") || contains_char NUL expression
   then expression_failure b "A transformation requires one nonempty SQL expression" else Ok tt) ;;
  final ← scan_expression b None 0 expression;
  (if is_some final.1 || negb (final.2 =? 0)%Z
   then expression_failure b "Unbalanced transformation expression" else Ok tt) ;;
  validateScript ("SELECT " +:+ expression +:+ ";") b 0.

(** ** Transformations *)
Definition findTransformation (values : list ColumnTransformation) (table column : string)
    : option ColumnTransformation :=
  find_by (fun v => (tf_table v, tf_column v)) (table, column) values.

Definition columnNamedIn (cs : list PhysicalColumn) (name : string) : option PhysicalColumn :=
  find_by col_name name cs.

Definition targetTableName (name : string) (d : GenerationDecisions) : string :=
  match find_by tr_from name (tableRenames d) with Some r => tr_to r | None => name end.

Definition targetColumn (table name : string) (d : GenerationDecisions) : string :=
  match find_by (fun r => (cr_table r, cr_from r)) (table, name) (columnRenames d) with
  | Some r => cr_to r
  | None => name
  end.

Definition sourceTable (name : string) (d : GenerationDecisions) : string :=
  match find_by tr_to name (tableRenames d) with Some r => tr_from r | None => name end.

Definition sourceColumnName (table name : string) (d : GenerationDecisions) : string :=
  match find_by (fun r => (cr_table r, cr_to r)) (table, name) (columnRenames d) with
  | Some r => cr_from r
  | None => name
  end.

Definition matchingSource (before : PhysicalSchema) (target : string) (d : GenerationDecisions)
    : option PhysicalTable :=
  source ← tableNamed before (sourceTable target d);
  if bool_decide (targetTableName (table_name source) d = target) then Some source else None.

Definition matchingSourceColumn (before : PhysicalTable) (table target : string) (d : GenerationDecisions)
    : option PhysicalColumn :=
  source ← columnNamedIn (columns before) (sourceColumnName table target d);
  if bool_decide (targetColumn table (col_name source) d = target) then Some source else None.

Definition bool_to_nat (x : bool) : nat := if x then 1 else 0.

Definition transformationSql (value : ColumnTransformation) (source : PhysicalTable) (target : PhysicalColumn)
    (b : BackendType) : res string :=
  let path := tf_table value +:+ "/" +:+ tf_column value in
  let count := (bool_to_nat (is_some (constant value)) + bool_to_nat (is_some (sourceColumn value))
                + bool_to_nat (negb (bool_decide (expressions value = []))))%nat in
  (if negb (count =? 1)%nat
   then generationFailure "invalid-transformation"
          "Choose exactly one literal, source column, or backend expression" path b
   else Ok tt) ;;
  match constant value, sourceColumn value with
  | Some l, _ => literalSql l target b
  | None, Some name =>
      match columnNamedIn (columns source) name with
      | None =>
          generationFailure "invalid-transformation" "Source column does not exist in the preceding snapshot" name b
      | Some original =>
          if nullable original && negb (nullable target)
          then generationFailure "invalid-transformation"
                 "A nullable source cannot fill a required target without an explicit expression" name b
          else quoteIdentifier b name
      end
  | None, None =>
      match BackendMap.find b (expressions value) with
      | None => generationFailure "missing-expression" "Transformation has no expression for this backend" path b
      | Some expression => validateExpression expression b ;; Ok expression
      end
  end.

(** One transformation of one of the two lists; [seen] holds the targets before it. *)
Definition validateTransformation (isConversion : bool) (before after : PhysicalSchema) (d : GenerationDecisions)
    (seen : gset (string * string)) (t : ColumnTransformation) : res (gset (string * string)) :=
  let path := tf_table t +:+ "/" +:+ tf_column t in
  let key := (tf_table t, tf_column t) in
  let next := tableNamed after (tf_table t) in
  let column := (next' ← next; columnNamedIn (columns next') (tf_column t)) in
  match bool_decide (key ∈ seen), matchingSource before (tf_table t) d, next, column with
  | false, Some old, Some next, Some column =>
      (if isConversion && negb (is_some (matchingSourceColumn old (table_name next) (col_name column) d))
       then generationFailure "invalid-transformation" "Conversions require an existing source column" path
              (schema_backend before)
       else Ok tt) ;;
      transformationSql t old column (schema_backend before) ;;
      Ok ({[key]} ∪ seen)
  | _, _, _, _ =>
      generationFailure "invalid-transformation"
        "Transformations must identify a unique existing table and target column" path (schema_backend before)
  end.

Definition validateTransformations (before after : PhysicalSchema) (d : GenerationDecisions) : res unit :=
  foldM (validateTransformation false before after d) ∅ (backfills d) ;;
  foldM (validateTransformation true before after d) ∅ (conversions d) ;;
  Ok tt.

(** ** Properties *)

(** *** UTF-8 *)
Definition scalar_value (cp : Z) : Prop := (0 <= cp < 55296 \/ 57344 <= cp <= 1114111)%Z.

(** The UTF-8 encoding of a code point. *)
Definition utf8 (cp : Z) : list ascii :=
  (if cp <? 128 then [char_of cp]
   else if cp <? 2048 then [char_of (192 + cp / 64); char_of (128 + cp mod 64)]
   else if cp <? 65536
   then [char_of (224 + cp / 4096); char_of (128 + cp / 64 mod 64); char_of (128 + cp mod 64)]
   else [char_of (240 + cp / 262144); char_of (128 + cp / 4096 mod 64); char_of (128 + cp / 64 mod 64);
         char_of (128 + cp mod 64)])%Z.

Definition utf8_text (cps : list Z) : string := of_chars (concat (map utf8 cps)).

Section utf8_lemmas.
Local Open Scope Z_scope.

Lemma for_bytes (P : Z -> bool) :
  forallb P (seqZ 0 256) = true -> forall n, 0 <= n < 256 -> P n = true.
Proof. intros H n Hn. rewrite forallb_forall in H. apply H, list_elem_of_In, elem_of_seqZ. lia. Qed.

Lemma continuation_byte n : 0 <= n < 256 -> (Z.land n 192 =? 128) = (128 <=? n) && (n <? 192).
Proof.
  intros Hn. apply eqb_prop.
  apply (for_bytes (fun n => Bool.eqb (Z.land n 192 =? 128) ((128 <=? n) && (n <? 192)))); [reflexivity|done].
Qed.

Lemma low_bits n k : 0 <= k -> Z.land n (2 ^ k - 1) = n mod 2 ^ k.
Proof. intros Hk. rewrite Z.sub_1_r, <- Z.ones_equiv. by apply Z.land_ones. Qed.

Lemma append_bits x y : 0 <= y < 64 -> Z.lor (Z.shiftl x 6) y = x * 64 + y.
Proof.
  intros Hy. rewrite Z.shiftl_mul_pow2 by lia. change (2 ^ 6) with 64.
  assert (Z.land (x * 64) y = 0) as Hand.
  { apply Z.bits_inj'. intros n Hn. rewrite Z.land_spec, Z.bits_0.
    destruct (decide (n < 6)) as [Hlt|Hge].
    - change 64 with (2 ^ 6). by rewrite Z.mul_pow2_bits_low.
    - rewrite (Z.bits_above_log2 y n), andb_false_r; [done|lia|].
      destruct (decide (y = 0)) as [->|]; [simpl; lia|].
      apply Z.log2_lt_pow2; [lia|]. apply Z.lt_le_trans with (2 ^ 6); [lia|].
      apply Z.pow_le_mono_r; lia. }
  rewrite <- Z.lxor_lor by done. symmetry. by apply Z.add_nocarry_lxor.
Qed.

Lemma continuation_cons cp c l :
  continuation cp (c :: l) =
  if (128 <=? byte_of c) && (byte_of c <? 192) then continuation (cp * 64 + byte_of c mod 64) l else invalidUtf8.
Proof.
  cbn [continuation]. cbv zeta. rewrite continuation_byte by apply byte_of_range.
  destruct (_ && _); [|done]. simpl. f_equal.
  change 63 with (2 ^ 6 - 1). rewrite low_bits by lia. apply append_bits. apply Z.mod_pos_bound. lia.
Qed.

Lemma byte_of_small n : 0 <= n < 256 -> byte_of (char_of n) = n.
Proof. intros. rewrite byte_of_char_of. by apply Z.mod_small. Qed.
End utf8_lemmas.

Section utf8_theory.
Local Open Scope Z_scope.

Lemma lead_bits (w : nat) n :
  Z.land n (lead_mask w) = n mod (match w with 1%nat => 128 | 2%nat => 32 | 3%nat => 16 | _ => 8 end).
Proof.
  destruct w as [|[|[|[|w]]]]; cbn [lead_mask];
    [apply (low_bits n 3)|apply (low_bits n 7)|apply (low_bits n 5)|apply (low_bits n 4)|apply (low_bits n 3)]; lia.
Qed.

(** The lead bytes of each width. *)
Definition leads (w : nat) (n : Z) : Prop :=
  w = 1%nat /\ 0 <= n < 128 \/ w = 2%nat /\ 194 <= n <= 223 \/ w = 3%nat /\ 224 <= n <= 239 \/
  w = 4%nat /\ 240 <= n <= 244.

Lemma utf8_width_cases n : 0 <= n -> utf8_width n = 0%nat \/ leads (utf8_width n) n.
Proof.
  unfold utf8_width, leads. intros Hn.
  destruct (Z.ltb_spec n 128), (Z.leb_spec 194 n), (Z.leb_spec n 223), (Z.leb_spec 224 n), (Z.leb_spec n 239),
    (Z.leb_spec 240 n), (Z.leb_spec n 244); simpl; lia.
Qed.

Lemma utf8_width_leads n w : leads w n -> utf8_width n = w.
Proof.
  unfold utf8_width, leads. intros Hn.
  destruct (Z.ltb_spec n 128), (Z.leb_spec 194 n), (Z.leb_spec n 223), (Z.leb_spec 224 n), (Z.leb_spec n 239),
    (Z.leb_spec 240 n), (Z.leb_spec n 244); simpl; lia.
Qed.

Lemma overlong_iff w cp :
  overlong w cp = false <->
  (w = 2%nat -> 128 <= cp) /\ (w = 3%nat -> 2048 <= cp) /\ (w = 4%nat -> 65536 <= cp) /\
  ~ (55296 <= cp <= 57343) /\ cp <= 1114111.
Proof.
  unfold overlong.
  destruct (Nat.eqb_spec w 2), (Nat.eqb_spec w 3), (Nat.eqb_spec w 4), (Z.ltb_spec cp 128), (Z.ltb_spec cp 2048),
    (Z.ltb_spec cp 65536), (Z.leb_spec 55296 cp), (Z.leb_spec cp 57343), (Z.ltb_spec 1114111 cp); simpl; lia.
Qed.

Lemma continuation_char cp n l :
  128 <= n < 192 -> continuation cp (char_of n :: l) = continuation (cp * 64 + n mod 64) l.
Proof.
  intros Hn. rewrite continuation_cons, byte_of_small by lia.
  destruct (Z.leb_spec 128 n), (Z.ltb_spec n 192); [done|lia..].
Qed.

(** One encoded scalar value is one turn of the loop. *)
Lemma unicode_count_utf8 fuel n cp rest :
  scalar_value cp -> unicode_count (S fuel) n (utf8 cp ++ rest) = unicode_count fuel (n + 1)%N rest.
Proof.
  unfold scalar_value, utf8. intros Hcp.
  destruct (Z.ltb_spec cp 128); [|destruct (Z.ltb_spec cp 2048); [|destruct (Z.ltb_spec cp 65536)]];
    cbn [app unicode_count]; rewrite byte_of_small by (Z.to_euclidean_division_equations; lia);
    [rewrite (utf8_width_leads _ 1)|rewrite (utf8_width_leads _ 2)|rewrite (utf8_width_leads _ 3)
    |rewrite (utf8_width_leads _ 4)]; try (unfold leads; Z.to_euclidean_division_equations; lia);
    cbn [length Nat.eqb orb Nat.sub take drop Nat.ltb Nat.leb]; cbv zeta; rewrite lead_bits;
    rewrite ?continuation_char by (Z.to_euclidean_division_equations; lia);
    change (take 0 rest) with (@nil ascii); change (drop 0 rest) with rest; cbn [continuation]; rewrite bind_Ok;
    rewrite (proj2 (overlong_iff _ _)) by (Z.to_euclidean_division_equations; lia); done.
Qed.

(** One turn of the loop consumes one encoded scalar value. *)
Lemma continuation_inv cp c l v :
  continuation cp (c :: l) = Ok v ->
  exists y, 0 <= y < 64 /\ c = char_of (128 + y) /\ continuation (cp * 64 + y) l = Ok v.
Proof.
  rewrite continuation_cons. destruct (Z.leb_spec 128 (byte_of c)); [|done].
  destruct (Z.ltb_spec (byte_of c) 192); [|done]. intros Hc. exists (byte_of c mod 64).
  split; [apply Z.mod_pos_bound; lia|]. split; [|done].
  rewrite <- (char_of_byte_of c) at 1. f_equal. Z.to_euclidean_division_equations; lia.
Qed.

Lemma utf8_of w lead ys :
  leads w lead -> (length ys = w - 1)%nat -> Forall (fun y => 0 <= y < 64) ys ->
  let cp := fold_left (fun cp y => cp * 64 + y) ys
              (lead mod (match w with 1%nat => 128 | 2%nat => 32 | 3%nat => 16 | _ => 8 end)) in
  overlong w cp = false ->
  scalar_value cp /\ char_of lead :: map (fun y => char_of (128 + y)) ys = utf8 cp.
Proof.
  intros Hlead Hlen Hys cp. assert (Hcp := eq_refl cp). unfold cp at 2 in Hcp. clearbody cp.
  rewrite overlong_iff. unfold leads, scalar_value in *.
  destruct Hlead as [[-> H]|[[-> H]|[[-> H]|[-> H]]]]; cbn [Nat.sub] in Hlen;
    destruct ys as [|y0 [|y1 [|y2 [|y3 ys]]]]; try done; rewrite ?Forall_cons in Hys; cbn [fold_left] in Hcp;
    intros Hover; (split; [Z.to_euclidean_division_equations; lia|]); unfold utf8; cbn [map].
  - destruct (Z.ltb_spec cp 128); [|Z.to_euclidean_division_equations; lia].
    f_equal. f_equal. Z.to_euclidean_division_equations; lia.
  - destruct (Z.ltb_spec cp 128); [Z.to_euclidean_division_equations; lia|].
    destruct (Z.ltb_spec cp 2048); [|Z.to_euclidean_division_equations; lia].
    repeat f_equal; Z.to_euclidean_division_equations; lia.
  - destruct (Z.ltb_spec cp 128); [Z.to_euclidean_division_equations; lia|].
    destruct (Z.ltb_spec cp 2048); [lia|].
    destruct (Z.ltb_spec cp 65536); [|Z.to_euclidean_division_equations; lia].
    repeat f_equal; Z.to_euclidean_division_equations; lia.
  - destruct (Z.ltb_spec cp 128); [lia|].
    destruct (Z.ltb_spec cp 2048); [lia|].
    destruct (Z.ltb_spec cp 65536); [lia|].
    repeat f_equal; Z.to_euclidean_division_equations; lia.
Qed.
End utf8_theory.

Section unicode_length.
Lemma utf8_nonempty cp : exists c l, utf8 cp = c :: l.
Proof. unfold utf8. repeat destruct (_ <? _)%Z; eauto. Qed.

Lemma continuation_list l cp v :
  continuation cp l = Ok v ->
  exists ys, Forall (fun y => 0 <= y < 64)%Z ys /\ l = map (fun y => char_of (128 + y)) ys /\
             v = fold_left (fun cp y => cp * 64 + y)%Z ys cp.
Proof.
  revert cp. induction l as [|c l IH]; intros cp.
  - intros [= <-]. by exists [].
  - intros (y & Hy & -> & (ys & Hys & -> & ->)%IH)%continuation_inv.
    exists (y :: ys). split; [by constructor|done].
Qed.

Lemma unicode_count_turn fuel n c rest m :
  unicode_count (S fuel) n (c :: rest) = Ok m ->
  exists cp rest', scalar_value cp /\ c :: rest = (utf8 cp ++ rest')%list /\ unicode_count fuel (n + 1)%N rest' = Ok m.
Proof.
  cbn [unicode_count]. cbv zeta. set (w := utf8_width (byte_of c)).
  destruct (Nat.eqb_spec w 0) as [|Hw]; [done|].
  destruct (Nat.ltb_spec (length (c :: rest)) w) as [|Hlen]; [done|]. cbn [orb].
  intros (cp & (ys & Hys & Htake & ->)%continuation_list & H)%bind_Ok_iff.
  destruct (overlong w _) eqn:Hover; [done|].
  destruct (utf8_width_cases (byte_of c)) as [|Hlead]; [apply byte_of_range|done|]. fold w in Hlead.
  assert (length ys = w - 1)%nat as Hl.
  { rewrite <- (length_map (fun y => char_of (128 + y))), <- Htake, length_take. simpl in Hlen. lia. }
  rewrite lead_bits in Hover.
  destruct (utf8_of w (byte_of c) ys Hlead Hl Hys Hover) as [Hcp Heq].
  eexists. exists (drop (w - 1) rest). split; [exact Hcp|]. split; [|done].
  rewrite <- Heq, char_of_byte_of, <- Htake. simpl. by rewrite take_drop.
Qed.

Lemma unicode_count_iff fuel n value m :
  length value <= fuel ->
  (unicode_count fuel n value = Ok m <->
   exists cps, Forall scalar_value cps /\ value = concat (map utf8 cps) /\ m = (n + N.of_nat (length cps))%N).
Proof.
  intros Hfuel. split.
  - revert n value Hfuel. induction fuel as [|fuel IH]; intros n [|c rest] Hfuel; cbn [length] in Hfuel; try lia.
    + intros [= <-]. exists []. repeat split; [constructor|simpl; lia].
    + intros [= <-]. exists []. repeat split; [constructor|simpl; lia].
    + intros (cp & rest' & Hcp & Heq & H)%unicode_count_turn.
      destruct (utf8_nonempty cp) as (d & l & Hd). rewrite Hd in Heq. injection Heq as -> ->.
      rewrite length_app in Hfuel. apply IH in H as (cps & Hcps & -> & ->); [|lia].
      exists (cp :: cps). split; [by constructor|]. cbn [map concat length]. rewrite Hd. split; [done|lia].
  - intros (cps & Hcps & -> & ->). revert n fuel Hfuel.
    induction Hcps as [|cp cps Hcp Hcps IH]; intros n fuel Hfuel; cbn [map concat] in *.
    + destruct fuel; simpl; f_equal; lia.
    + destruct (utf8_nonempty cp) as (d & l & Hd).
      destruct fuel as [|fuel]; [rewrite Hd in Hfuel; simpl in Hfuel; lia|].
      rewrite unicode_count_utf8, IH by (rewrite ?length_app, ?Hd in *; simpl in *; rewrite ?length_app in *; done || lia).
      cbn [length]. f_equal. lia.
Qed.

Lemma chars_of_chars l : chars (of_chars l) = l.
Proof. induction l; simpl; congruence. Qed.
Lemma of_chars_chars s : of_chars (chars s) = s.
Proof. induction s; simpl; congruence. Qed.
Lemma length_chars s : length (chars s) = String.length s.
Proof. induction s; simpl; congruence. Qed.
End unicode_length.

(** [unicodeLength] accepts exactly the UTF-8 encodings of sequences of
    Unicode scalar values (no overlong form, no surrogate, nothing above
    U+10FFFF) and gives the number of the scalar values. *)
Theorem unicodeLength_iff value n :
  unicodeLength value = Ok n <->
  exists cps, Forall scalar_value cps /\ value = utf8_text cps /\ n = N.of_nat (length cps).
Proof.
  unfold unicodeLength. rewrite unicode_count_iff by (by rewrite length_chars). unfold utf8_text.
  split; intros (cps & H & Hv & ->); exists cps; (split; [done|]).
  - by rewrite <- Hv, of_chars_chars.
  - by rewrite Hv, chars_of_chars.
Qed.

(** *** Text as hexadecimal digits *)
Fixpoint unhexadecimal (s : string) : string :=
  match s with
  | String h (String l s) => String (char_of (nibble h * 16 + nibble l)) (unhexadecimal s)
  | _ => ""
  end.

(** The text around the digits. *)
Definition text_prefix (b : BackendType) : string :=
  match b with
  | Sqlite => "CAST(X'"
  | Mysql | Mariadb => "CONVERT(X'"
  | _ => "convert_from(decode('"
  end.
Definition text_suffix (b : BackendType) : string :=
  match b with
  | Sqlite => "' AS TEXT)"
  | Mysql | Mariadb => "' USING utf8mb4)"
  | _ => "', 'hex'), 'UTF8')"
  end.

Section string_literals.
Lemma nibbles_of_byte c :
  char_of (nibble (hex_digit (Z.shiftr (byte_of c) 4)) * 16 + nibble (hex_digit (Z.land (byte_of c) 15))) = c
  /\ is_hex (hex_digit (Z.shiftr (byte_of c) 4)) = true /\ is_hex (hex_digit (Z.land (byte_of c) 15)) = true.
Proof. destruct c as [[] [] [] [] [] [] [] []]; repeat split; reflexivity. Qed.

Lemma unhexadecimal_hexadecimal s : unhexadecimal (hexadecimal s) = s.
Proof.
  induction s as [|c s IH]; [done|]. unfold hexadecimal in *. cbn [concat_map String.append unhexadecimal].
  by rewrite IH, (proj1 (nibbles_of_byte c)).
Qed.

Lemma hexadecimal_is_hex s : forallb_char is_hex (hexadecimal s) = true.
Proof.
  induction s as [|c s IH]; [done|]. unfold hexadecimal in *. cbn [concat_map String.append].
  destruct (nibbles_of_byte c) as (_ & H1 & H2). by rewrite !forallb_char_cons, H1, H2, IH.
Qed.

Lemma text_expression_parts b s : text_expression b s = text_prefix b +:+ hexadecimal s +:+ text_suffix b.
Proof. by destruct b. Qed.

Lemma mismatch_if_Ok_iff r c b m u : mismatch_if r c b m = Ok u <-> r = false.
Proof. destruct r, u; naive_solver. Qed.
End string_literals.

(** A string literal for a text column is accepted exactly when it is valid
    UTF-8 within the column's bound in code points (and, for PostgreSQL, without
    a NUL); the expression holds the bytes as hexadecimal digits alone, which
    read back as the string, between a fixed prefix and suffix. *)
Theorem string_literal_iff item c b sql :
  logicalType c = ColumnType.String ->
  (literalSql (LitString item) c b = Ok sql <->
   (exists cps, Forall scalar_value cps /\ item = utf8_text cps /\
                forall bound, maxStringLength c = Some bound -> (N.of_nat (length cps) <= bound)%N) /\
   (hex_only b = true \/ contains_char NUL item = false) /\
   exists digits, sql = text_prefix b +:+ digits +:+ text_suffix b /\ forallb_char is_hex digits = true /\
                  unhexadecimal digits = item /\ digits = hexadecimal item).
Proof.
  intros Ht. cbn [literalSql]. unfold stringLiteralSql. rewrite Ht. decide_tests.
  rewrite seq_Ok_iff, mismatch_if_Ok_iff, bind_Ok_iff.
  setoid_rewrite seq_Ok_iff. setoid_rewrite seq_Ok_iff. setoid_rewrite mismatch_if_Ok_iff.
  setoid_rewrite unicodeLength_iff. unfold exceeds_bound. split.
  - intros (_ & n & (cps & Hcps & Hitem & ->) & Hbound & Hnul & [= <-]). split; [|split].
    + exists cps. split; [done|]. split; [done|]. intros bound Hb. rewrite Hb in Hbound. by bool_to_prop.
    + destruct (hex_only b), (contains_char NUL item); auto.
    + exists (hexadecimal item). rewrite text_expression_parts, hexadecimal_is_hex, unhexadecimal_hexadecimal. done.
  - intros ((cps & Hcps & Hitem & Hbound) & Hnul & digits & -> & _ & _ & ->).
    split; [done|]. exists (N.of_nat (length cps)). split; [by exists cps|]. split; [|split].
    + destruct (maxStringLength c); [|done]. apply N.ltb_ge. auto.
    + destruct Hnul as [-> | ->]; [done|apply andb_false_r].
    + by rewrite text_expression_parts.
Qed.

Definition sample_text_column (bound : N) : PhysicalColumn :=
  MkColumn "title" ColumnType.String "TEXT" false (Some bound) false.

(** Two code points in three bytes: a letter with an accent and an apostrophe. *)
Definition sample_text : string := utf8_text [233; 39]%Z.

Lemma string_literal_iff_witness :
  literalSql (LitString sample_text) (sample_text_column 2) Sqlite = Ok "CAST(X'c3a927' AS TEXT)".
Proof.
  apply (string_literal_iff sample_text (sample_text_column 2) Sqlite); [reflexivity|]. split; [|split].
  - exists [233; 39]%Z. split; [repeat constructor; unfold scalar_value; lia|]. split; [reflexivity|].
    intros bound [= <-]. simpl. lia.
  - left. reflexivity.
  - exists "c3a927". repeat split; reflexivity.
Defined.

(** *** Integers *)
(** How an accepted integer is written. *)
Definition integer_text (c : PhysicalColumn) (b : BackendType) (z : Z) : string :=
  if bool_decide (logicalType c = ColumnType.Bool) && bool_decide (b = Postgres)
  then if (z =? 0)%Z then "FALSE" else "TRUE"
  else to_string_Z z.

Lemma integerLimits_not_floating t l : integerLimits t = Ok l -> is_floating t = false.
Proof. by destruct t. Qed.

(** An integer literal for an integer or Boolean column is accepted exactly
    when it is in the range of the column's logical type and the backend can hold
    it: SQLite and PostgreSQL have no unsigned 64-bit integers.  What is written
    is the integer in decimal, or a truth value. *)
Theorem integer_literal_iff c b lo hi :
  integerLimits (logicalType c) = Ok (lo, hi) ->
  (forall z sql, literalSql (LitInt64 z) c b = Ok sql <-> (lo <= z <= hi)%Z /\ sql = integer_text c b z) /\
  (forall z sql, literalSql (LitUInt64 z) c b = Ok sql <->
     (lo <= z <= hi)%Z /\ (b = Sqlite \/ b = Postgres -> z < 2 ^ 63)%Z /\ sql = integer_text c b z) /\
  (forall x sql, literalSql (LitBool x) c b = Ok sql <-> sql = integer_text c b (if x then 1 else 0)%Z).
Proof.
  intros Hl. assert (lo <= 0 /\ 1 <= hi)%Z as Hlo.
  { destruct (logicalType c); simpl in Hl; try discriminate; injection Hl as <- <-; vm_compute; split; discriminate. }
  split; [|split]; intros z sql; cbn [literalSql]; unfold integerLiteralSql;
    rewrite (integerLimits_not_floating _ _ Hl), Hl, bind_Ok; cbn [fst snd]; fold (integer_text c b);
    rewrite seq_Ok_iff, mismatch_if_Ok_iff, orb_false_iff, Z.ltb_ge, Z.ltb_ge, seq_Ok_iff, mismatch_if_Ok_iff;
    cbn [andb].
  - split; [intros (? & _ & [= <-])|intros (? & ->)]; split_and?; done || lia.
  - split.
    + intros (? & Hb & [= <-]). split; [lia|]. split; [|done]. intros Hs.
      assert (bool_decide (b = Sqlite) || bool_decide (b = Postgres) = true) as Hor.
      { destruct Hs as [-> | ->]; reflexivity. }
      rewrite Hor in Hb. simpl in Hb. apply Z.ltb_ge in Hb. lia.
    + intros (? & Hb & ->). split; [lia|]. split; [|done].
      destruct (bool_decide (b = Sqlite) || bool_decide (b = Postgres)) eqn:Hor; [|done].
      simpl. apply Z.ltb_ge. apply orb_true_iff in Hor. rewrite !bool_decide_eq_true in Hor.
      specialize (Hb Hor). lia.
  - assert (forall x : bool, lo <= (if x then 1 else 0) <= hi)%Z by (intros []; lia).
    split; [intros (? & _ & [= <-])|intros ->]; split_and?; done || apply H.
Qed.

Lemma integer_literal_iff_witness :
  let c := MkColumn "n" ColumnType.UnsignedLongLong "BIGINT UNSIGNED" false None false in
  literalSql (LitUInt64 18446744073709551615) c Mysql = Ok "18446744073709551615" /\
  literalSql (LitUInt64 18446744073709551615) c Sqlite <> Ok "18446744073709551615".
Proof.
  intros c. destruct (integer_literal_iff c Mysql 0 (2 ^ 64 - 1) eq_refl) as (_ & Hm & _).
  destruct (integer_literal_iff c Sqlite 0 (2 ^ 64 - 1) eq_refl) as (_ & Hs & _). split.
  - apply Hm. split; [lia|]. split; [intros [?|?]; discriminate|reflexivity].
  - intros H. apply Hs in H as (_ & Hb & _). specialize (Hb (or_introl eq_refl)). lia.
Defined.

(** *** Expressions *)
(** A text that neither doubles a quote, nor makes a comment with the character
    before it. *)
Definition separated (s : string) : bool :=
  negb (head_is is_quote s) && negb (head_is (fun c => bool_decide (c = "-"%char)) s)
  && negb (head_is (fun c => bool_decide (c = "*"%char)) s).

Section expressions.
Lemma starts_command_app c s rest :
  separated rest = true -> starts_command c s = false -> starts_command c (s +:+ rest) = false.
Proof.
  destruct s as [|d s]; [|done]. unfold separated, starts_command. cbn [String.append head_is].
  destruct (head_is (fun c => bool_decide (c = "-"%char)) rest), (head_is (fun c => bool_decide (c = "*"%char)) rest);
    rewrite ?andb_false_r; done.
Qed.

Lemma separated_quote q c rest :
  separated (String c rest) = true -> is_quote q = true -> bool_decide (c = q) = false.
Proof.
  unfold separated. cbn [head_is]. intros H Hq. bool_to_prop. apply bool_decide_eq_false. intros ->. congruence.
Qed.

Lemma scan_expression_app_length n b e rest :
  String.length e <= n -> separated rest = true ->
  forall quoted depth depth' k, (0 <= k)%Z -> (forall q, quoted = Some q -> is_quote q = true) ->
  scan_expression b quoted depth e = Ok (None, depth') ->
  scan_expression b quoted (depth + k) (e +:+ rest) = scan_expression b None (depth' + k) rest.
Proof.
  intros Hn Hrest. revert e Hn. induction n as [|n IH]; intros [|c e] Hn quoted depth depth' k Hk Hq H;
    cbn [String.length] in Hn; try lia; try by injection H as -> ->.
  cbn [scan_expression String.append] in *.
  destruct quoted as [q|].
  - specialize (Hq q eq_refl) as Hqq.
    destruct (escapes b q c).
    + destruct e as [|d e]; [done|]. cbn [String.append String.length] in *. apply IH; auto. lia.
    + destruct (bool_decide (c = q)); [|by apply IH; [lia|..]].
      destruct e as [|d e].
      * injection H as <-. cbn [String.append]. destruct rest as [|d rest]; [done|].
        by rewrite (separated_quote q d rest).
      * cbn [String.append String.length] in *.
        destruct (bool_decide (d = q)); [by apply IH; [lia|..]|].
        apply (IH (String d e)); [simpl; lia|done|done|done].
  - destruct (is_quote c) eqn:Hc.
    + apply IH; [lia|done| |done]. by intros q [= <-].
    + destruct (starts_command c e) eqn:Hs; [done|]. rewrite (starts_command_app _ _ _ Hrest Hs).
      destruct (bool_decide (c = "("%char)).
      * replace (depth + k + 1)%Z with (depth + 1 + k)%Z by lia. by apply IH; [lia|..].
      * destruct (bool_decide (c = ")"%char)); [|by apply IH; [lia|..]].
        destruct (Z.ltb_spec (depth - 1) 0); [done|]. destruct (Z.ltb_spec (depth + k - 1) 0); [lia|].
        replace (depth + k - 1)%Z with (depth - 1 + k)%Z by lia. by apply IH; [lia|..].
Qed.

Lemma validateExpression_scan b e :
  validateExpression e b = Ok tt ->
  e <> "" /\ contains_char NUL e = false /\ scan_expression b None 0 e = Ok (None, 0%Z) /\
  validateScript ("SELECT " +:+ e +:+ ";") b 0 = Ok tt.
Proof.
  unfold validateExpression. intros (Hne & [final (Hf & H)]%bind_Ok_iff)%seq_Ok_iff.
  destruct (bool_decide (e = "") || _) eqn:He; [done|]. bool_to_prop.
  apply seq_Ok_iff in H as (Hfin & H). destruct (is_some final.1 || _) eqn:Hb; [done|].
  destruct final as [q d]. simpl in Hb. destruct q; [done|]. simpl in Hb. bool_to_prop. by subst.
Qed.
End expressions.

(** An accepted transformation expression is closed: wherever the generator
    puts it in a statement, the text after it is read in the state it would have
    without the expression (no quote left open, the parentheses balanced and
    never closing one of the statement's), as long as that text does not start
    with a quote, a dash or a star; and the expression alone is a statement that
    passes the script validation. *)
Theorem expression_closed e b parentheses rest :
  validateExpression e b = Ok tt -> (0 <= parentheses)%Z -> separated rest = true ->
  scan_expression b None parentheses (e +:+ rest) = scan_expression b None parentheses rest /\
  validateScript ("SELECT " +:+ e +:+ ";") b 0 = Ok tt.
Proof.
  intros (_ & _ & Hscan & Hscript)%validateExpression_scan Hp Hrest. split; [|done].
  by apply (scan_expression_app_length _ b e rest (le_n _) Hrest None 0 0 parentheses Hp).
Qed.

Lemma expression_closed_witness :
  scan_expression Mysql None 1 ("concat('it\'s ;', (a))" +:+ ") FROM t") = Ok (None, 0%Z).
Proof.
  destruct (expression_closed "concat('it\'s ;', (a))" Mysql 1 ") FROM t") as [-> _]; reflexivity || lia.
Defined.

(** *** Transformations *)
(** What makes one transformation acceptable. *)
Definition transformation_ok (isConversion : bool) (before after : PhysicalSchema) (d : GenerationDecisions)
    (t : ColumnTransformation) : Prop :=
  exists old next column sql,
    matchingSource before (tf_table t) d = Some old /\ tableNamed after (tf_table t) = Some next /\
    columnNamedIn (columns next) (tf_column t) = Some column /\
    (isConversion = true -> is_some (matchingSourceColumn old (table_name next) (col_name column) d) = true) /\
    transformationSql t old column (schema_backend before) = Ok sql.

Definition transformation_key (t : ColumnTransformation) : string * string := (tf_table t, tf_column t).

Section transformations.
Lemma generationFailure_not_Ok {A} code message path b (a : A) : generationFailure code message path b <> Ok a.
Proof. done. Qed.

Lemma validateTransformation_Ok_iff isConversion before after d seen t r :
  validateTransformation isConversion before after d seen t = Ok r <->
  (transformation_key t ∉ seen) /\ transformation_ok isConversion before after d t /\
  r = {[transformation_key t]} ∪ seen.
Proof.
  unfold validateTransformation, transformation_ok, transformation_key. cbv zeta.
  destruct (bool_decide_reflect ((tf_table t, tf_column t) ∈ seen)) as [Hin|Hin];
    [split; [done|by intros (? & _)]|].
  destruct (matchingSource before (tf_table t) d) as [old|]; [|split; [done|by intros (_ & (? & ? & ? & ? & ? & _) & _)]].
  destruct (tableNamed after (tf_table t)) as [next|]; [|split; [done|by intros (_ & (? & ? & ? & ? & _ & ? & _) & _)]].
  cbn [mbind option_bind].
  destruct (columnNamedIn (columns next) (tf_column t)) as [column|] eqn:Hc;
    [|split; [done|by intros (_ & (? & n & ? & ? & _ & [= <-] & ? & _) & _); congruence]].
  rewrite seq_Ok_iff, bind_Ok_iff. split.
  - intros (Hconv & sql & Hsql & [= <-]). split; [done|]. split; [|done].
    exists old, next, column, sql. split_and?; [done..| |done].
    intros ->. destruct (is_some _); [done|discriminate].
  - intros (_ & (? & ? & c' & sql & [= <-] & [= <-] & Hc' & Hconv & Hsql) & ->).
    rewrite Hc in Hc'. injection Hc' as <-. split; [|by exists sql].
    destruct isConversion; [|done]. by rewrite Hconv.
Qed.
End transformations.

(** The transformations are accepted exactly when each list names every
    target at most once and each of them has its source table, its target table
    and column, renders there for the backend and, for a conversion, has a source
    column. *)
Lemma validateTransformations_iff before after d :
  validateTransformations before after d = Ok tt <->
  forall isConversion values, (isConversion, values) ∈ [(false, backfills d); (true, conversions d)] ->
    NoDup (transformation_key <$> values) /\
    forall t, t ∈ values -> transformation_ok isConversion before after d t.
Proof.
  assert (forall isConversion values,
    (exists r, foldM (validateTransformation isConversion before after d) ∅ values = Ok r) <->
    NoDup (transformation_key <$> values) /\ forall t, t ∈ values -> transformation_ok isConversion before after d t)
    as Hlist.
  { intros isConversion values. split.
    - intros [r (Hnd & _ & Hok & _)%(foldM_insert_Ok_iff _ transformation_key
        (transformation_ok isConversion before after d) values ∅ r)]; [done|].
      intros. apply validateTransformation_Ok_iff.
    - intros [Hnd Hok]. eexists. apply (foldM_insert_Ok_iff _ transformation_key
        (transformation_ok isConversion before after d)); [intros; apply validateTransformation_Ok_iff|].
      split; [done|]. split; [set_solver|]. split; [done|reflexivity]. }
  unfold validateTransformations. rewrite bind_Ok_iff. setoid_rewrite bind_Ok_iff. split.
  - intros (r & Hr & r' & Hr' & _) isConversion values Hin. apply Hlist.
    apply elem_of_cons in Hin as [[= -> ->]|Hin]; [by exists r|].
    apply list_elem_of_singleton in Hin as [= -> ->]. by exists r'.
  - intros H. destruct (proj2 (Hlist false (backfills d))) as [r Hr]; [apply H; left|].
    destruct (proj2 (Hlist true (conversions d))) as [r' Hr']; [apply H; right; left|].
    exists r. split; [done|]. by exists r'.
Qed.
