(* ===== verification/SchemaJson.v ===== *)
(** SchemaJson: the JSON form of snapshots, execution contexts and decisions, from
    src/migrations/SchemaJson.cpp.  Text is printed and parsed by the nlohmann
    library, a parameter: the class [JsonLibrary]. *)
From S2P Require Import Prelude Foundation Chrono Values Codec Schema Sha256 Models PhysicalSql Snapshot.
Local Open Scope string_scope.

(** ** JSON values

    [nlohmann::json]: an object is a [std::map], so its fields are in the order of
    their names; numbers keep whether they are signed, unsigned or floating. *)
#[local] Unset Elimination Schemes.
Inductive json :=
| JNull
| JBool (b : bool)
| JInteger (z : Z)
| JUnsigned (z : Z)
| JFloat (d : double)
| JString (s : string)
| JArray (items : list json)
| JObject (fields : list (string * json)).

#[local] Set Elimination Schemes.

(** What the parser tells its callback, with the depth. *)
Inductive parse_event := ObjectStart | ObjectEnd | Key (name : string) | OtherEvent.

(** [value.dump(2)], and [Json::parse(text, callback)] as the calls of the callback
    and the result when the callback lets all of them pass. *)
Class JsonLibrary := {
  dump : json -> res string;
  parse : string -> list (nat * parse_event) * res json
}.

(** An object from an initializer list. *)
Definition object (fields : list (string * json)) : json := JObject (sort_by fst fields).

Definition strings (l : list string) : json := JArray (map JString l).
Definition optional {A} (f : A -> json) (o : option A) : json :=
  match o with Some a => f a | None => JNull end.

Definition invalidCatalog (message : string) : exn := MigrationError InvalidCatalog message 0 Empty None.

(** ** Access to values *)
Definition json_throw {A} : res A := Err JsonException.

Definition field (name : string) (fields : list (string * json)) : option json :=
  snd <$> find_by fst name fields.

Definition at_field (v : json) (name : string) : res json :=
  match v with JObject fields => or_throw (field name fields) JsonException | _ => json_throw end.

Definition get_string (v : json) : res string := match v with JString s => Ok s | _ => json_throw end.
Definition get_bool (v : json) : res bool := match v with JBool b => Ok b | _ => json_throw end.
Definition get_array (v : json) : res (list json) := match v with JArray l => Ok l | _ => json_throw end.
Definition get_strings (v : json) : res (list string) := l ← get_array v; mapM get_string l.
Definition integer_of (v : json) : option Z :=
  match v with JInteger z | JUnsigned z => Some z | _ => None end.
Definition get_integer (v : json) : res Z := or_throw (integer_of v) JsonException.
Definition get_size (v : json) : res N := Z.to_N <$> get_integer v.

Definition is_object (v : json) : bool := match v with JObject _ => true | _ => false end.
Definition is_array (v : json) : bool := match v with JArray _ => true | _ => false end.
Definition is_null (v : json) : bool := match v with JNull => true | _ => false end.
Definition contains_field (v : json) (name : string) : bool :=
  match v with JObject fields => bool_decide (is_Some (field name fields)) | _ => false end.

Definition string_field (v : json) (name : string) : res string := at_field v name ≫= get_string.
Definition strings_field (v : json) (name : string) : res (list string) := at_field v name ≫= get_strings.
Definition bool_field (v : json) (name : string) : res bool := at_field v name ≫= get_bool.

(** ** Reading *)
Definition parse_callback (keys : gmap nat (gset string)) (call : nat * parse_event)
    : res (gmap nat (gset string)) :=
  let (depth, event) := call in
  match event with
  | ObjectStart => Ok (<[S depth := ∅]> keys)
  | ObjectEnd => Ok (delete (S depth) keys)
  | Key name =>
      let seen := default ∅ (keys !! depth) in
      throw_if (bool_decide (name ∈ seen)) (invalidCatalog "Duplicate JSON object field") ;;
      Ok (<[depth := {[name]} ∪ seen]> keys)
  | OtherEvent => Ok keys
  end.

Definition strictJson `{JsonLibrary} (text : string) : res json :=
  let (calls, result) := parse text in
  foldM parse_callback ∅ calls ;; result.

Definition backendFromName (name : string) : res BackendType :=
  or_throw
    (List.find (fun b => match backendName b with Ok n => bool_decide (n = name) | Err _ => false end)
       generationBackends)
    (invalidCatalog "Unknown backend in migration metadata").

Definition requireKeys (v : json) (keys : list string) : res unit :=
  throw_if (match v with JObject fields => negb (length fields =? length keys)%nat | _ => true end)
    (invalidCatalog "Invalid migration metadata fields") ;;
  forM_ keys (fun key =>
    throw_if (negb (contains_field v key)) (invalidCatalog "Missing migration metadata field")).

Definition optionalValue {A} (get : json -> res A) (v : json) : res (option A) :=
  if is_null v then Ok None else Some <$> get v.

(** ** Schemas *)
Definition encodeColumn (c : PhysicalColumn) : json :=
  object [("name", JString (col_name c)); ("logicalType", JInteger (ColumnType.number (logicalType c)));
          ("sqlType", JString (sqlType_of c)); ("nullable", JBool (nullable c));
          ("maxStringLength", optional (fun n => JUnsigned (Z.of_N n)) (maxStringLength c));
          ("autoIncrement", JBool (autoIncrement c))].

Definition encodeForeignKey (k : PhysicalForeignKey) : json :=
  object [("name", JString (fk_name k)); ("columns", strings (fk_columns k));
          ("targetTable", JString (targetTable k)); ("targetColumns", strings (targetColumns k));
          ("onDelete", JString (onDelete k)); ("onUpdate", JString (onUpdate k))].

Definition encodeIndex (i : PhysicalIndex) : json :=
  object [("name", JString (index_name i)); ("columns", strings (index_columns i));
          ("unique", JBool (unique i))].

Definition encodeTable (t : PhysicalTable) : json :=
  object [("name", JString (table_name t)); ("columns", JArray (map encodeColumn (columns t)));
          ("primaryKey", strings (primaryKey t)); ("primaryKeyName", JString (primaryKeyName t));
          ("foreignKeys", JArray (map encodeForeignKey (foreignKeys t)));
          ("indexes", JArray (map encodeIndex (indexes t))); ("options", JString (options t))].

Definition encodeSchema (s : PhysicalSchema) : res json :=
  name ← backendName (schema_backend s);
  Ok (object [("backend", JString name); ("profile", JString (schema_profile s));
              ("tables", JArray (map encodeTable (tables s)))]).

(** [column.at("logicalType")] in the range of the enumerators. *)
Definition bad_logicalType (v : json) : bool :=
  match integer_of v with
  | Some z => (z <? ColumnType.number ColumnType.Bool)%Z || (ColumnType.number ColumnType.UtcTimestamp <? z)%Z
  | None => true
  end.

Definition bad_length (v : json) : bool :=
  negb (is_null v) && match integer_of v with Some z => (z <? 0)%Z | None => true end.

Definition decodeColumn (column : json) : res PhysicalColumn :=
  requireKeys column ["name"; "logicalType"; "sqlType"; "nullable"; "maxStringLength"; "autoIncrement"] ;;
  type ← at_field column "logicalType";
  length ← at_field column "maxStringLength";
  throw_if (bad_logicalType type || bad_length length)
    (invalidCatalog "Column type and length must be valid integers") ;;
  number ← get_integer type;
  name ← string_field column "name";
  logical ← or_throw (ColumnType.of_number number) JsonException;
  sql ← string_field column "sqlType";
  isNullable ← bool_field column "nullable";
  bound ← optionalValue get_size length;
  auto ← bool_field column "autoIncrement";
  Ok (MkColumn name logical sql isNullable bound auto).

Definition decodeForeignKey (key : json) : res PhysicalForeignKey :=
  requireKeys key ["name"; "columns"; "targetTable"; "targetColumns"; "onDelete"; "onUpdate"] ;;
  name ← string_field key "name";
  cols ← strings_field key "columns";
  target ← string_field key "targetTable";
  targets ← strings_field key "targetColumns";
  delete ← string_field key "onDelete";
  update ← string_field key "onUpdate";
  Ok (MkForeignKey name cols target targets delete update).

Definition decodeIndex (index : json) : res PhysicalIndex :=
  requireKeys index ["name"; "columns"; "unique"] ;;
  name ← string_field index "name";
  cols ← strings_field index "columns";
  isUnique ← bool_field index "unique";
  Ok (MkIndex name cols isUnique).

Definition decodeTable (item : json) : res PhysicalTable :=
  requireKeys item ["name"; "columns"; "primaryKey"; "primaryKeyName"; "foreignKeys"; "indexes"; "options"] ;;
  name ← string_field item "name";
  primary ← strings_field item "primaryKey";
  primaryName ← string_field item "primaryKeyName";
  opts ← string_field item "options";
  cs ← at_field item "columns";
  ks ← at_field item "foreignKeys";
  ixs ← at_field item "indexes";
  throw_if (negb (is_array cs) || negb (is_array ks) || negb (is_array ixs))
    (invalidCatalog "Snapshot column, key and index fields must be arrays") ;;
  cs ← get_array cs ≫= mapM decodeColumn;
  ks ← get_array ks ≫= mapM decodeForeignKey;
  ixs ← get_array ixs ≫= mapM decodeIndex;
  Ok (MkTable name cs primary primaryName ks ixs opts).

Definition decodeSchema (v : json) : res PhysicalSchema :=
  requireKeys v ["backend"; "profile"; "tables"] ;;
  backend ← string_field v "backend" ≫= backendFromName;
  prof ← string_field v "profile";
  ts ← at_field v "tables";
  throw_if (negb (is_array ts)) (invalidCatalog "Snapshot tables must be an array") ;;
  ts ← get_array ts ≫= mapM decodeTable;
  Ok (MkSchema backend prof ts).

Definition encodeSnapshot (s : SchemaSnapshot) : res json :=
  fields ← mapM (fun kv : BackendType * PhysicalSchema =>
    name ← backendName kv.1; schema ← encodeSchema kv.2; Ok (name, schema)) (backends s);
  Ok (object [("formatVersion", JInteger (formatVersion s)); ("backends", object fields)]).

(** ** Transformations and decisions *)
Definition typedConstant (item : json) : res GenerationLiteral :=
  requireKeys item ["type"; "value"] ;;
  type ← string_field item "type";
  text ← string_field item "value";
  if bool_decide (type = "date") then LitDate <$> parseDate text
  else if bool_decide (type = "time_of_day") then LitTimeOfDay <$> parseTimeOfDay text
  else if bool_decide (type = "local_date_time") then LitLocalDateTime <$> parseLocalDateTime text
  else if bool_decide (type = "utc_timestamp") then LitUtcTimestamp <$> parseUtcTimestamp text
  else if bool_decide (type = "uuid") then LitUuid <$> Uuid.parse text
  else Err (invalidCatalog "Unknown typed backfill constant").

Definition decodeConstant (item : json) : res GenerationLiteral :=
  match item with
  | JNull => Ok LitNull
  | JBool b => Ok (LitBool b)
  | JUnsigned z => Ok (LitUInt64 z)
  | JInteger z => Ok (LitInt64 z)
  | JFloat d => Ok (LitDouble d)
  | JString s => Ok (LitString s)
  | JObject _ => typedConstant item
  | JArray _ => Err (invalidCatalog "A backfill constant must be a scalar or typed value")
  end.

Definition decodeExpressions (item : json) (m : BackendMap.t string) : res (BackendMap.t string) :=
  match item with
  | JObject (_ :: _ as fields) =>
      foldM (fun m kv =>
        backend ← backendFromName kv.1;
        expression ← get_string kv.2;
        Ok (BackendMap.emplace backend expression m)) m fields
  | _ => Err (invalidCatalog "Expressions must map backends to SQL expressions")
  end.

(** One field of a transformation, with the number of value sources before it. *)
Definition transformField (state : ColumnTransformation * nat) (kv : string * json)
    : res (ColumnTransformation * nat) :=
  let (t, sources) := state in
  let (key, item) := kv in
  if bool_decide (key = "constant") then
    c ← decodeConstant item;
    Ok (MkTransformation (tf_table t) (tf_column t) (Some c) (sourceColumn t) (expressions t), S sources)
  else if bool_decide (key = "sourceColumn") then
    name ← get_string item;
    Ok (MkTransformation (tf_table t) (tf_column t) (constant t) (Some name) (expressions t), S sources)
  else if bool_decide (key = "expressions") then
    m ← decodeExpressions item (expressions t);
    Ok (MkTransformation (tf_table t) (tf_column t) (constant t) (sourceColumn t) m, S sources)
  else if negb (bool_decide (key = "table")) && negb (bool_decide (key = "column")) then
    Err (invalidCatalog "Unknown transformation field")
  else Ok state.

Definition transform (v : json) : res ColumnTransformation :=
  throw_if (negb (is_object v) || negb (contains_field v "table") || negb (contains_field v "column"))
    (invalidCatalog "A transformation requires table and column") ;;
  table ← string_field v "table";
  column ← string_field v "column";
  final ← foldM transformField (MkTransformation table column None None [], O)
            (match v with JObject fields => fields | _ => [] end);
  throw_if (negb (final.2 =? 1)%nat || bool_decide (tf_table final.1 = "") || bool_decide (tf_column final.1 = ""))
    (invalidCatalog "A transformation requires exactly one value source") ;;
  Ok final.1.

(** [parseMetadata(text, function)]. *)
Definition parseMetadata `{JsonLibrary} {A} (text : string) (function : json -> res A) : res A :=
  match (strictJson text ≫= function) with
  | Err JsonException => Err (invalidCatalog "Invalid migration JSON metadata")
  | Err (GenerationError _ _) => Err (invalidCatalog "Invalid physical schema in migration metadata")
  | Err (InvalidArgument _) => Err (invalidCatalog "Invalid typed migration value")
  | r => r
  end.

Definition decodeTableRename (item : json) : res TableRename :=
  requireKeys item ["from"; "to"] ;;
  from ← string_field item "from";
  to ← string_field item "to";
  Ok (MkTableRename from to).

Definition decodeColumnRename (item : json) : res ColumnRename :=
  requireKeys item ["table"; "from"; "to"] ;;
  table ← string_field item "table";
  from ← string_field item "from";
  to ← string_field item "to";
  Ok (MkColumnRename table from to).

(** One field of the decisions. *)
Definition decisionField (d : GenerationDecisions) (kv : string * json) : res GenerationDecisions :=
  let (key, items) := kv in
  match items with
  | JArray l =>
      if bool_decide (key = "tableRenames") then
        rs ← mapM decodeTableRename l;
        Ok (MkDecisions (tableRenames d ++ rs) (columnRenames d) (allowDataLossUp d) (allowDataLossDown d)
              (backfills d) (conversions d) (downBackfills d) (downConversions d))
      else if bool_decide (key = "columnRenames") then
        rs ← mapM decodeColumnRename l;
        Ok (MkDecisions (tableRenames d) (columnRenames d ++ rs) (allowDataLossUp d) (allowDataLossDown d)
              (backfills d) (conversions d) (downBackfills d) (downConversions d))
      else if bool_decide (key = "allowDataLossUp") then
        approvals ← get_strings items;
        Ok (MkDecisions (tableRenames d) (columnRenames d) approvals (allowDataLossDown d)
              (backfills d) (conversions d) (downBackfills d) (downConversions d))
      else if bool_decide (key = "allowDataLossDown") then
        approvals ← get_strings items;
        Ok (MkDecisions (tableRenames d) (columnRenames d) (allowDataLossUp d) approvals
              (backfills d) (conversions d) (downBackfills d) (downConversions d))
      else if bool_decide (key = "backfills") then
        ts ← mapM transform l;
        Ok (MkDecisions (tableRenames d) (columnRenames d) (allowDataLossUp d) (allowDataLossDown d)
              (backfills d ++ ts) (conversions d) (downBackfills d) (downConversions d))
      else if bool_decide (key = "conversions") then
        ts ← mapM transform l;
        Ok (MkDecisions (tableRenames d) (columnRenames d) (allowDataLossUp d) (allowDataLossDown d)
              (backfills d) (conversions d ++ ts) (downBackfills d) (downConversions d))
      else if bool_decide (key = "downBackfills") then
        ts ← mapM transform l;
        Ok (MkDecisions (tableRenames d) (columnRenames d) (allowDataLossUp d) (allowDataLossDown d)
              (backfills d) (conversions d) (downBackfills d ++ ts) (downConversions d))
      else if bool_decide (key = "downConversions") then
        ts ← mapM transform l;
        Ok (MkDecisions (tableRenames d) (columnRenames d) (allowDataLossUp d) (allowDataLossDown d)
              (backfills d) (conversions d) (downBackfills d) (downConversions d ++ ts))
      else Err (invalidCatalog "Unknown generation decision field")
  | _ => Err (invalidCatalog "Generation decision fields must be arrays")
  end%list.

Definition decodeDecisions (v : json) : res GenerationDecisions :=
  match v with
  | JObject fields => foldM decisionField no_decisions fields
  | _ => Err (invalidCatalog "Generation decisions must be an object")
  end.

(** ** Snapshots *)
Definition decodeBackend (m : BackendMap.t PhysicalSchema) (kv : string * json)
    : res (BackendMap.t PhysicalSchema) :=
  backend ← backendFromName kv.1;
  physical ← decodeSchema kv.2;
  throw_if (negb (bool_decide (schema_backend physical = backend)))
    (invalidCatalog "Snapshot backend names disagree") ;;
  Ok (BackendMap.emplace backend physical m).

Definition decodeSnapshot (v : json) : res SchemaSnapshot :=
  requireKeys v ["formatVersion"; "backends"] ;;
  version ← at_field v "formatVersion";
  throw_if (negb (bool_decide (integer_of version = Some 1%Z)))
    (invalidCatalog "Unsupported snapshot format version") ;;
  number ← get_integer version;
  bs ← at_field v "backends";
  throw_if (negb (is_object bs)) (invalidCatalog "Snapshot backends must be an object") ;;
  m ← foldM decodeBackend [] (match bs with JObject fields => fields | _ => [] end);
  let result := canonicalize (MkSnapshot number m) in
  validateSnapshot result ;;
  Ok result.

(** ** Execution contexts *)
Definition mode_name (m : MigrationExecutionMode) : string :=
  match m with Normal => "normal" | SqliteRebuild => "sqlite-rebuild" end.

Definition encodeRebuild (t : RebuildTable) : json :=
  object [("source", JString (rb_source t)); ("target", JString (rb_target t));
          ("staging", JString (rb_staging t)); ("sourceIdentity", optional JString (sourceIdentity t));
          ("targetIdentity", optional JString (targetIdentity t))].

Definition encodeOptionalSchema (s : option PhysicalSchema) : res json :=
  match s with Some s => encodeSchema s | None => Ok JNull end.

Definition encodeContext (c : MigrationExecutionContext) : res json :=
  source ← encodeOptionalSchema (ctx_source c);
  target ← encodeOptionalSchema (ctx_target c);
  Ok (object [("mode", JString (mode_name (mode c))); ("tables", strings (ctx_tables c));
              ("rebuildTables", JArray (map encodeRebuild (rebuildTables c)));
              ("source", source); ("target", target)]).

Definition decodeRebuild (table : json) : res RebuildTable :=
  requireKeys table ["source"; "target"; "staging"; "sourceIdentity"; "targetIdentity"] ;;
  source ← string_field table "source";
  target ← string_field table "target";
  staging ← string_field table "staging";
  sourceId ← at_field table "sourceIdentity" ≫= optionalValue get_string;
  targetId ← at_field table "targetIdentity" ≫= optionalValue get_string;
  Ok (MkRebuild source target staging sourceId targetId).

Definition has_value {A} (o : option A) : bool := match o with Some _ => true | None => false end.
Definition is_empty {A} (l : list A) : bool := match l with [] => true | _ => false end.

(** The snapshot of one schema, and its validation when there is one. *)
Definition validateDeclared (s : option PhysicalSchema) : res unit :=
  match s with Some s => validateSnapshot (MkSnapshot 1 [(schema_backend s, s)]) | None => Ok tt end.

Definition on_sqlite (s : option PhysicalSchema) : bool :=
  match s with Some s => bool_decide (schema_backend s = Sqlite) | None => false end.

Definition inconsistent (c : MigrationExecutionContext) : bool :=
  negb (Bool.eqb (has_value (ctx_source c)) (has_value (ctx_target c)))
  || (negb (is_empty (ctx_tables c)) || negb (is_empty (rebuildTables c))) && negb (has_value (ctx_source c))
  || bool_decide (mode c = Normal) && negb (is_empty (rebuildTables c)).

Definition incomplete (c : MigrationExecutionContext) : bool :=
  bool_decide (mode c = SqliteRebuild)
  && (negb (has_value (ctx_source c)) || negb (has_value (ctx_target c)) || is_empty (ctx_tables c)
      || negb (on_sqlite (ctx_source c)) || negb (on_sqlite (ctx_target c))).

Definition decodeContext (v : json) : res MigrationExecutionContext :=
  requireKeys v ["mode"; "tables"; "rebuildTables"; "source"; "target"] ;;
  name ← string_field v "mode";
  throw_if (negb (bool_decide (name = "normal")) && negb (bool_decide (name = "sqlite-rebuild")))
    (invalidCatalog "Unknown migration execution mode") ;;
  ts ← strings_field v "tables";
  rebuilds ← at_field v "rebuildTables";
  throw_if (negb (is_array rebuilds)) (invalidCatalog "Rebuild tables must be an array") ;;
  rebuilds ← get_array rebuilds ≫= mapM decodeRebuild;
  source ← at_field v "source" ≫= optionalValue decodeSchema;
  target ← at_field v "target" ≫= optionalValue decodeSchema;
  let result :=
    MkContext (if bool_decide (name = "normal") then Normal else SqliteRebuild) ts rebuilds source target in
  throw_if (inconsistent result) (invalidCatalog "Execution contexts require consistent schema declarations") ;;
  validateDeclared source ;;
  validateDeclared target ;;
  throw_if (incomplete result) (invalidCatalog "A SQLite rebuild requires its complete schema context") ;;
  Ok result.

(** ** The texts *)
Section texts.
Context `{JsonLibrary}.

Definition snapshotJson (s : SchemaSnapshot) : res string :=
  let canonical := canonicalize s in
  validateSnapshot canonical ;;
  encoded ← encodeSnapshot canonical;
  text ← dump encoded;
  Ok (text +:+ newline).

Definition snapshotFromJson (text : string) : res SchemaSnapshot := parseMetadata text decodeSnapshot.

Definition snapshotHash (s : SchemaSnapshot) (b : BackendType) : res string :=
  schema ← BackendMap.at_ (backends s) b;
  text ← snapshotJson (MkSnapshot (formatVersion s) [(b, schema)]);
  Ok (sha256 text).

Definition contextJson (c : MigrationExecutionContext) : res string :=
  encoded ← encodeContext c;
  text ← dump encoded;
  Ok (text +:+ newline).

Definition contextFromJson (text : string) : res MigrationExecutionContext := parseMetadata text decodeContext.

Definition decisionsFromJson (text : string) : res GenerationDecisions := parseMetadata text decodeDecisions.
End texts.

(** ** Properties *)

(** *** Duplicate names *)

(** The calls of the callback for a document, whose objects are here the fields in
    the order of the text, with duplicates. *)
Fixpoint events (depth : nat) (v : json) : list (nat * parse_event) :=
  match v with
  | JArray l => (depth, OtherEvent) :: (concat (map (events (S depth)) l) ++ [(depth, OtherEvent)])
  | JObject fields =>
      (depth, ObjectStart)
        :: (concat (map (fun kv => (S depth, Key kv.1) :: events (S depth) kv.2) fields)
            ++ [(depth, ObjectEnd)])
  | _ => [(depth, OtherEvent)]
  end%list.

Section json_induction.
Variable P : json -> Prop.
Hypothesis Hnull : P JNull.
Hypothesis Hbool : forall b, P (JBool b).
Hypothesis Hinteger : forall z, P (JInteger z).
Hypothesis Hunsigned : forall z, P (JUnsigned z).
Hypothesis Hfloat : forall d, P (JFloat d).
Hypothesis Hstring : forall s, P (JString s).
Hypothesis Harray : forall l, Forall P l -> P (JArray l).
Hypothesis Hobject : forall fs, Forall (fun kv => P kv.2) fs -> P (JObject fs).

Fixpoint json_ind (v : json) : P v :=
  match v with
  | JNull => Hnull
  | JBool b => Hbool b
  | JInteger z => Hinteger z
  | JUnsigned z => Hunsigned z
  | JFloat d => Hfloat d
  | JString s => Hstring s
  | JArray l =>
      Harray l ((fix all l := match l return Forall P l with
                  | [] => List.Forall_nil _
                  | x :: l => List.Forall_cons _ _ _ (json_ind x) (all l)
                  end) l)
  | JObject fs =>
      Hobject fs ((fix all l := match l return Forall (fun kv => P kv.2) l with
                    | [] => List.Forall_nil _
                    | kv :: l => List.Forall_cons _ _ _ (json_ind kv.2) (all l)
                    end) fs)
  end.
End json_induction.

(** No object of the document has two fields of one name. *)
Fixpoint unique_names (v : json) : Prop :=
  match v with
  | JArray l => foldr (fun x rest => unique_names x /\ rest) True l
  | JObject fs => NoDup (map fst fs) /\ foldr (fun kv rest => unique_names kv.2 /\ rest) True fs
  | _ => True
  end.

Section strict.
(** The calls for a value leave the names recorded up to its depth as they were. *)
Definition reads (depth : nat) (v : json) : Prop :=
  forall keys,
    (unique_names v -> exists keys', foldM parse_callback keys (events depth v) = Ok keys' /\
       forall d, d <= depth -> keys' !! d = keys !! d) /\
    (forall keys', foldM parse_callback keys (events depth v) = Ok keys' -> unique_names v).

Lemma reads_items depth l :
  Forall (fun v => forall depth, reads depth v) l ->
  forall keys,
    (foldr (fun x rest => unique_names x /\ rest) True l ->
     exists keys', foldM parse_callback keys (concat (map (events (S depth)) l)) = Ok keys' /\
       forall d, d <= S depth -> keys' !! d = keys !! d) /\
    (forall keys', foldM parse_callback keys (concat (map (events (S depth)) l)) = Ok keys' ->
       foldr (fun x rest => unique_names x /\ rest) True l).
Proof.
  induction 1 as [|v l Hv _ IH]; intros keys; cbn [map concat foldr].
  - split; [|done]. intros _. by exists keys.
  - split.
    + intros [Hu Hl]. rewrite foldM_app. destruct (Hv (S depth) keys) as [[k1 [-> Hk1]] _]; [done|].
      rewrite bind_Ok. destruct (IH k1) as [[k2 [-> Hk2]] _]; [done|]. exists k2. split; [done|].
      intros d Hd. by rewrite Hk2, Hk1.
    + intros k'. rewrite foldM_app. intros (k1 & H1 & H2)%bind_Ok_iff.
      split; [by apply (Hv (S depth) keys) in H1|]. by apply (IH k1) in H2.
Qed.

Lemma parse_callback_key keys depth seen k r :
  keys !! depth = Some seen ->
  (parse_callback keys (depth, Key k) = Ok r <-> (k ∉ seen) /\ r = <[depth := {[k]} ∪ seen]> keys).
Proof.
  intros Hs. cbn [parse_callback]. rewrite Hs. cbn [default from_option id]. rewrite seq_Ok_iff, throw_if_Ok_iff.
  rewrite bool_decide_eq_false. split; intros [? H]; (split; [done|]); congruence.
Qed.

Lemma reads_fields depth fs :
  Forall (fun kv : string * json => forall depth, reads depth kv.2) fs ->
  forall keys seen, keys !! S depth = Some seen ->
    let calls := concat (map (fun kv : string * json => (S depth, Key kv.1) :: events (S depth) kv.2) fs) in
    ((NoDup (map fst fs) /\ (forall k, k ∈ map fst fs -> k ∉ seen) /\
      foldr (fun kv rest => unique_names kv.2 /\ rest) True fs) ->
     exists keys', foldM parse_callback keys calls = Ok keys' /\ forall d, d <= depth -> keys' !! d = keys !! d) /\
    (forall keys', foldM parse_callback keys calls = Ok keys' ->
       NoDup (map fst fs) /\ (forall k, k ∈ map fst fs -> k ∉ seen) /\
       foldr (fun kv rest => unique_names kv.2 /\ rest) True fs).
Proof.
  induction 1 as [|[k v] fs Hv _ IH]; intros keys seen Hseen; cbn [map concat foldr fst snd].
  - split; [intros _; by exists keys|]. intros _ _. split; [constructor|]. split; [set_solver|done].
  - cbn [fst snd] in Hv. split.
    + intros (Hnd & Hnew & Hu & Hfs). apply NoDup_cons in Hnd as [Hk Hnd].
      assert (parse_callback keys (S depth, Key k) = Ok (<[S depth := {[k]} ∪ seen]> keys)) as Hstep.
      { apply (parse_callback_key _ _ seen); [done|]. split; [apply Hnew; left|done]. }
      rewrite <- app_comm_cons. cbn [foldM]. rewrite Hstep, bind_Ok, foldM_app.
      destruct (Hv (S depth) (<[S depth := {[k]} ∪ seen]> keys)) as [[k1 [-> Hk1]] _]; [done|]. rewrite bind_Ok.
      destruct (IH k1 ({[k]} ∪ seen)) as [[k2 [-> Hk2]] _].
      * rewrite Hk1 by lia. apply lookup_insert_eq.
      * split; [done|]. split; [|done]. intros k' Hk'. specialize (Hnew k' ltac:(by right)).
        assert (k' <> k) by congruence. set_solver.
      * exists k2. split; [done|]. intros d Hd. rewrite Hk2, Hk1 by lia. by rewrite lookup_insert_ne by lia.
    + intros keys'. rewrite <- app_comm_cons. cbn [foldM].
      intros (k0 & (Hk & ->)%(parse_callback_key _ _ seen) & Hrest)%bind_Ok_iff; [|done].
      rewrite foldM_app in Hrest. apply bind_Ok_iff in Hrest as (k1 & H1 & H2).
      assert (unique_names v) as Huv by (by apply (Hv (S depth) (<[S depth := {[k]} ∪ seen]> keys)) in H1).
      destruct (Hv (S depth) (<[S depth := {[k]} ∪ seen]> keys)) as [[k1' [H1' Hk1]] _]; [done|].
      assert (k1' = k1) as -> by congruence.
      apply (IH k1 ({[k]} ∪ seen)) in H2 as (Hnd & Hnew & Hfs).
      * split; [constructor; [|done]|].
        -- intros Hin. specialize (Hnew k Hin). set_solver.
        -- split; [|done]. intros k' [->|Hin]%elem_of_cons; [done|]. specialize (Hnew k' Hin). set_solver.
      * rewrite Hk1 by lia. apply lookup_insert_eq.
Qed.

Lemma reads_all v : forall depth, reads depth v.
Proof.
  induction v using json_ind; intros depth keys; cbn [events unique_names foldM parse_callback];
    try (split; [by exists keys|done]).
  - rewrite bind_Ok, foldM_app. destruct (reads_items depth l H keys) as [Hto Hfrom]. split.
    + intros [k [-> Hk]]%Hto. rewrite bind_Ok. exists k. split; [done|]. intros d Hd. apply Hk. lia.
    + intros k' (k & Hk & _)%bind_Ok_iff. by apply Hfrom in Hk.
  - rewrite bind_Ok, foldM_app.
    destruct (reads_fields depth fs H (<[S depth := ∅]> keys) ∅ ltac:(apply lookup_insert_eq)) as [Hto Hfrom]. split.
    + intros [Hnd Hu]. destruct Hto as [k [-> Hk]]; [split; [done|]; split; [set_solver|done]|].
      rewrite bind_Ok. cbn [foldM parse_callback]. rewrite bind_Ok. eexists. split; [reflexivity|].
      intros d Hd. rewrite lookup_delete_ne, Hk by lia. by rewrite lookup_insert_ne by lia.
    + intros k' (k & Hk & _)%bind_Ok_iff. by apply Hfrom in Hk as (Hnd & _ & Hu).
Qed.
End strict.

(** Strict parsing accepts a document that the JSON library parses exactly when
    no object in it, at any depth, has two fields of the same name; such a document
    is refused as a catalog error. *)
Theorem strictJson_iff `{JsonLibrary} text document v :
  parse text = (events 0 document, Ok v) ->
  (unique_names document -> strictJson text = Ok v) /\
  (strictJson text = Ok v -> unique_names document) /\
  (~ unique_names document -> strictJson text = Err (invalidCatalog "Duplicate JSON object field")).
Proof.
  intros Hp. unfold strictJson. rewrite Hp. destruct (reads_all document 0 ∅) as [Hto Hfrom]. split; [|split].
  - intros Hu. destruct (Hto Hu) as (k & -> & _). done.
  - intros (k & Hk & _)%bind_Ok_iff. by apply Hfrom in Hk.
  - intros Hn. destruct (foldM parse_callback ∅ (events 0 document)) as [k|e] eqn:Hk; [by destruct Hn; apply (Hfrom k)|].
    cbn [mbind result_bind]. f_equal. clear -Hk. revert Hk. generalize (∅ : gmap nat (gset string)).
    induction (events 0 document) as [|[d []] l IH]; intros keys; cbn [foldM parse_callback]; [done|..]; try apply IH.
    unfold throw_if. case_bool_decide; [by intros [= <-]|apply IH].
Qed.

#[local] Instance sample_library (document v : json) : JsonLibrary :=
  {| dump := fun _ => Ok ""; parse := fun _ => (events 0 document, Ok v) |}.

Lemma strictJson_iff_witness :
  let document := JArray [JObject [("a", JObject [("b", JNull)]); ("b", JNull)]; JObject [("a", JNull)]] in
  @strictJson (sample_library document document) "" = Ok document.
Proof.
  intros document.
  destruct (@strictJson_iff (sample_library document document) "" document document eq_refl) as [H _]. apply H.
  vm_compute. repeat split; repeat (constructor; [set_solver|]); constructor.
Defined.

(** *** Round trips *)

(** The value read back from the text of a value: a nonnegative integer literal is
    unsigned. *)
Fixpoint reparsed (v : json) : json :=
  match v with
  | JInteger z => if (0 <=? z)%Z then JUnsigned z else v
  | JArray l => JArray (map reparsed l)
  | JObject fs => JObject (map (fun kv => (kv.1, reparsed kv.2)) fs)
  | _ => v
  end.

Section roundtrip.
Lemma find_by_Permutation {A} (proj : A -> string) k l l' :
  NoDup (map proj l) -> l ≡ₚ l' -> find_by proj k l = find_by proj k l'.
Proof.
  intros Hnd Hp. assert (Hnd' : NoDup (map proj l')) by (by rewrite <- Hp).
  destruct (find_by proj k l) as [x|] eqn:Hf.
  - apply find_by_Some in Hf as [Hx <-]. symmetry. apply find_by_NoDup; [done|]. by rewrite <- Hp.
  - symmetry. apply find_by_None. intros x Hx. rewrite <- Hp in Hx. by eapply find_by_None in Hf.
Qed.

Lemma field_map f name l :
  field name (map (fun kv : string * json => (kv.1, f kv.2)) l) = f <$> field name l.
Proof.
  unfold field, find_by. induction l as [|[k v] l IH]; simpl; [done|]. by case_bool_decide.
Qed.

Lemma field_sorted name l : NoDup (map fst l) -> field name (sort_by fst l) = field name l.
Proof.
  intros Hnd. unfold field. f_equal. symmetry. apply find_by_Permutation; [done|].
  symmetry. apply sort_by_Permutation.
Qed.

Lemma at_field_object name l :
  NoDup (map fst l) -> at_field (reparsed (object l)) name = or_throw (reparsed <$> field name l) JsonException.
Proof. intros Hnd. cbn [object reparsed at_field]. by rewrite field_map, field_sorted. Qed.

Lemma requireKeys_object l keys :
  NoDup (map fst l) -> keys = map fst l -> requireKeys (reparsed (object l)) keys = Ok tt.
Proof.
  intros Hnd ->. unfold requireKeys. cbn [object reparsed].
  rewrite seq_Ok_iff, throw_if_Ok_iff, forM__Ok_iff. split.
  - rewrite !length_map, (Permutation_length (sort_by_Permutation fst l)). by rewrite Nat.eqb_refl.
  - apply Forall_forall. intros k Hk. apply throw_if_Ok_iff. cbn [contains_field].
    rewrite field_map, field_sorted by done. apply negb_false_iff, bool_decide_eq_true.
    unfold field. rewrite !fmap_is_Some, find_by_is_Some. done.
Qed.

Lemma field_cons name k v l :
  field name ((k, v) :: l) = if bool_decide (k = name) then Some v else field name l.
Proof. unfold field, find_by. cbn [List.find fst]. by case_bool_decide. Qed.

Lemma get_strings_strings l : get_strings (reparsed (strings l)) = Ok l.
Proof.
  unfold get_strings, strings. cbn [reparsed get_array]. rewrite bind_Ok.
  induction l as [|s l IH]; [done|]. cbn [map mapM reparsed get_string]. rewrite bind_Ok.
  rewrite map_map in *. cbn [reparsed] in *. by rewrite IH.
Qed.

Lemma mapM_reparsed {A} (enc : A -> json) (dec : json -> res A) l :
  (forall x, x ∈ l -> dec (reparsed (enc x)) = Ok x) -> mapM dec (map reparsed (map enc l)) = Ok l.
Proof.
  intros H. apply mapM_Ok_iff. rewrite map_map. induction l as [|x l IH]; [constructor|].
  constructor; [apply H; left|]. apply IH. intros y Hy. apply H. by right.
Qed.

Lemma backendFromName_backendName b name : backendName b = Ok name -> backendFromName name = Ok b.
Proof. destruct b; intros [= <-]; reflexivity. Qed.
End roundtrip.

(** The names of an encoded record are different. *)
Ltac different_names := cbn [map fst]; apply (proj1 (bool_decide_eq_true _)); reflexivity.

(** Reads the fields of an encoded record. *)
Ltac decode_fields :=
  unfold string_field, strings_field, bool_field;
  rewrite ?at_field_object by different_names;
  rewrite ?field_cons; decide_tests;
  cbn [fmap option_fmap option_map or_throw reparsed];
  rewrite ?bind_Ok, ?get_strings_strings; cbn [get_string get_bool get_array get_integer].

Ltac decode_record :=
  rewrite requireKeys_object; [|different_names|reflexivity]; rewrite bind_Ok; decode_fields.

Section decode_encode.
Lemma decodeIndex_encode i : decodeIndex (reparsed (encodeIndex i)) = Ok i.
Proof. unfold decodeIndex, encodeIndex. decode_record. by destruct i. Qed.

Lemma decodeForeignKey_encode k : decodeForeignKey (reparsed (encodeForeignKey k)) = Ok k.
Proof. unfold decodeForeignKey, encodeForeignKey. decode_record. by destruct k. Qed.

Lemma ColumnType_number_bounds t : (0 <= ColumnType.number t <= 16)%Z.
Proof. destruct t; simpl; lia. Qed.

Lemma decodeColumn_encode c : decodeColumn (reparsed (encodeColumn c)) = Ok c.
Proof.
  unfold decodeColumn, encodeColumn. decode_record.
  pose proof (ColumnType_number_bounds (logicalType c)) as Hb.
  rewrite (proj2 (Z.leb_le _ _)) by lia.
  assert (bad_logicalType (JUnsigned (ColumnType.number (logicalType c))) = false) as ->.
  { cbn [bad_logicalType integer_of ColumnType.number]. apply orb_false_iff. rewrite !Z.ltb_ge. lia. }
  assert (bad_length (reparsed (optional (fun n => JUnsigned (Z.of_N n)) (maxStringLength c))) = false) as ->.
  { destruct (maxStringLength c); [|done]. cbn. apply Z.ltb_ge. lia. }
  cbn [orb]. rewrite throw_false, bind_Ok. cbn [get_integer integer_of or_throw]. rewrite bind_Ok, bind_Ok.
  unfold get_integer. cbn [integer_of or_throw]. rewrite ?bind_Ok, ColumnType.of_number_number. cbn [or_throw].
  rewrite !bind_Ok.
  assert (optionalValue get_size (reparsed (optional (fun n => JUnsigned (Z.of_N n)) (maxStringLength c))) =
    Ok (maxStringLength c)) as ->.
  { destruct (maxStringLength c) as [n|]; [|done]. cbn. by rewrite N2Z.id. }
  by destruct c.
Qed.

Lemma decodeTable_encode t : decodeTable (reparsed (encodeTable t)) = Ok t.
Proof.
  unfold decodeTable, encodeTable. decode_record. rewrite !bind_Ok. cbn [is_array negb orb get_array]. rewrite throw_false, !bind_Ok.
  rewrite (mapM_reparsed _ decodeColumn) by (intros; apply decodeColumn_encode). rewrite bind_Ok.
  rewrite (mapM_reparsed _ decodeForeignKey) by (intros; apply decodeForeignKey_encode). rewrite bind_Ok.
  rewrite (mapM_reparsed _ decodeIndex) by (intros; apply decodeIndex_encode). rewrite bind_Ok.
  by destruct t.
Qed.

Lemma decodeSchema_encode s v : encodeSchema s = Ok v -> decodeSchema (reparsed v) = Ok s.
Proof.
  unfold encodeSchema. intros (name & Hname & [= <-])%bind_Ok_iff. unfold decodeSchema. decode_record.
  rewrite !bind_Ok, (backendFromName_backendName _ _ Hname), !bind_Ok. cbn [is_array negb get_array]. rewrite throw_false, !bind_Ok.
  rewrite (mapM_reparsed _ decodeTable) by (intros; apply decodeTable_encode). rewrite bind_Ok.
  by destruct s.
Qed.

Lemma decodeRebuild_encode t : decodeRebuild (reparsed (encodeRebuild t)) = Ok t.
Proof.
  unfold decodeRebuild, encodeRebuild. decode_record.
  assert (forall o, optionalValue get_string (reparsed (optional JString o)) = Ok o) as Ho by (by intros []).
  rewrite Ho, bind_Ok, Ho, bind_Ok. by destruct t.
Qed.

Lemma decode_optional_schema s v :
  encodeOptionalSchema s = Ok v -> optionalValue decodeSchema (reparsed v) = Ok s.
Proof.
  destruct s as [s|]; cbn [encodeOptionalSchema]; [|by intros [= <-]]. intros Hv.
  unfold optionalValue. rewrite (decodeSchema_encode s v Hv).
  apply bind_Ok_iff in Hv as (name & _ & [= <-]). done.
Qed.
End decode_encode.

Section unique_encodings.
Lemma unique_array l : unique_names (JArray l) <-> Forall unique_names l.
Proof. cbn [unique_names]. induction l as [|v l IH]; simpl; [done|]. rewrite Forall_cons. tauto. Qed.

Lemma unique_object fs :
  unique_names (JObject fs) <-> NoDup (map fst fs) /\ Forall (fun kv => unique_names kv.2) fs.
Proof.
  cbn [unique_names]. apply and_iff_compat_l. induction fs as [|kv l IH]; simpl; [done|].
  rewrite Forall_cons. tauto.
Qed.

Lemma unique_reparsed v : unique_names (reparsed v) <-> unique_names v.
Proof.
  induction v using json_ind; cbn [reparsed]; try done.
  - by destruct (0 <=? z)%Z.
  - rewrite !unique_array, Forall_map. rewrite !Forall_forall in *. split; intros Hu x Hx; apply (H x Hx), Hu, Hx.
  - rewrite !unique_object, map_map. cbn [fst]. apply and_iff_compat_l. rewrite Forall_map. cbn [snd].
    rewrite !Forall_forall in *. split; intros Hu x Hx; apply (H x Hx), Hu, Hx.
Qed.
Lemma unique_object_of l :
  NoDup (map fst l) -> Forall (fun kv => unique_names kv.2) l -> unique_names (object l).
Proof.
  intros Hnd Hl. unfold object. rewrite unique_object. split.
  - assert (sort_by fst l ≡ₚ l) as Hp by apply sort_by_Permutation. apply (Permutation_map fst) in Hp. by rewrite Hp.
  - by rewrite (sort_by_Permutation fst l).
Qed.

Lemma unique_array_of {A} (f : A -> json) l : (forall x, unique_names (f x)) -> unique_names (JArray (map f l)).
Proof. intros H. rewrite unique_array, Forall_map. by apply Forall_true. Qed.

Lemma unique_strings l : unique_names (strings l).
Proof. by apply unique_array_of. Qed.

Lemma unique_optional {A} (f : A -> json) o : (forall x, unique_names (f x)) -> unique_names (optional f o).
Proof. intros H. destruct o; [apply H|done]. Qed.
End unique_encodings.

(** An encoded record has different names if its fields' values have. *)
Ltac unique_record :=
  apply unique_object_of; [different_names|];
  repeat (apply Forall_cons; split;
    [cbn [snd]; first [exact I|apply unique_strings|apply unique_optional; intros; exact I
                      |apply unique_array_of; auto with orm]|]);
  apply Forall_nil; exact I.

Section unique_records.
Lemma unique_column c : unique_names (encodeColumn c).
Proof. unique_record. Qed.
Lemma unique_foreignKey k : unique_names (encodeForeignKey k).
Proof. unique_record. Qed.
Lemma unique_index i : unique_names (encodeIndex i).
Proof. unique_record. Qed.
#[local] Hint Resolve unique_column unique_foreignKey unique_index : orm.
Lemma unique_table t : unique_names (encodeTable t).
Proof. unique_record. Qed.
#[local] Hint Resolve unique_table : orm.
Lemma unique_schema s v : encodeSchema s = Ok v -> unique_names v.
Proof. unfold encodeSchema. intros (name & _ & [= <-])%bind_Ok_iff. unique_record. Qed.
Lemma unique_rebuild t : unique_names (encodeRebuild t).
Proof. unique_record. Qed.
Lemma unique_optional_schema s v : encodeOptionalSchema s = Ok v -> unique_names v.
Proof. destruct s; cbn; [apply unique_schema|by intros [= <-]]. Qed.
End unique_records.


(** ** Round trips of the texts *)

(** The library reads back the text it prints for a value. *)
Definition reads_back `{JsonLibrary} (v : json) : Prop :=
  forall text, dump v = Ok text -> parse (text +:+ newline) = (events 0 (reparsed v), Ok (reparsed v)).

Section text_roundtrip.
Context `{JsonLibrary}.

Lemma strictJson_dumped v text :
  unique_names v -> reads_back v -> dump v = Ok text -> strictJson (text +:+ newline) = Ok (reparsed v).
Proof.
  intros Hu Hr Hd. specialize (Hr text Hd). apply (strictJson_iff _ _ _ Hr). by apply unique_reparsed.
Qed.

(** The fields of the backends, in the order of their names, fill the map in the
    order of the enumerators. *)
Lemma decodeBackend_emplace m b p name v :
  backendName b = Ok name -> encodeSchema p = Ok v -> schema_backend p = b ->
  decodeBackend m (name, reparsed v) = Ok (BackendMap.emplace b p m).
Proof.
  intros Hn Hv Hb. unfold decodeBackend. cbn [fst snd].
  by rewrite (backendFromName_backendName _ _ Hn), bind_Ok, (decodeSchema_encode _ _ Hv), bind_Ok, Hb,
    bool_decide_true by done.
Qed.

Definition emplace_all {V} (l m : BackendMap.t V) : BackendMap.t V :=
  fold_left (fun m kv => BackendMap.emplace kv.1 kv.2 m) l m.

Lemma emplace_all_spec {V} (l m : BackendMap.t V) :
  NoDup (map fst (l ++ m)%list) -> BackendMap.sorted m ->
  BackendMap.sorted (emplace_all l m) /\ emplace_all l m ≡ₚ (l ++ m)%list.
Proof.
  revert m. induction l as [|[b v] l IH]; intros m Hnd Hm; [done|]. cbn [emplace_all fold_left fst snd].
  cbn [map app fst] in Hnd. apply NoDup_cons in Hnd as [Hb Hnd].
  assert (BackendMap.find b m = None) as Hf.
  { destruct (BackendMap.find b m) as [w|] eqn:Hf; [|done]. destruct Hb.
    apply BackendMap.find_Some_elem in Hf. rewrite map_app. apply elem_of_app. right.
    by apply (list_elem_of_fmap_2 fst) in Hf. }
  pose proof (BackendMap.emplace_Permutation b v m Hf) as Hp.
  assert (l ++ BackendMap.emplace b v m ≡ₚ (b, v) :: l ++ m)%list as Hp'
    by (rewrite Hp; by rewrite <- Permutation_middle).
  destruct (IH (BackendMap.emplace b v m)) as [Hs Hq].
  - apply (Permutation_map fst) in Hp'. rewrite Hp'. cbn [map fst]. by constructor.
  - by apply BackendMap.emplace_sorted.
  - split; [done|]. unfold emplace_all in Hq. by rewrite Hq, Hp'.
Qed.

Lemma sorted_NoDup {V} (m : BackendMap.t V) : BackendMap.sorted m -> NoDup (map fst m).
Proof.
  induction 1 as [|[b v] m Hm IH Hall]; [constructor|]. cbn [map fst]. constructor; [|done].
  intros ([c w] & Hc & Hin)%list_elem_of_fmap. simpl in Hc. subst. rewrite Forall_forall in Hall.
  specialize (Hall _ Hin). simpl in Hall. lia.
Qed.

Lemma sorted_Permutation_eq {V} (m n : BackendMap.t V) :
  BackendMap.sorted m -> BackendMap.sorted n -> m ≡ₚ n -> m = n.
Proof.
  intros Hm Hn Hp. eapply StronglySorted_unique; [|exact Hm|exact Hn|exact Hp].
  intros x y Hxy Hyx. simpl in *. lia.
Qed.

Lemma decode_backends m fields :
  BackendMap.sorted m ->
  Forall2 (fun kv fv => exists v, backendName kv.1 = Ok fv.1 /\ encodeSchema kv.2 = Ok v /\ fv.2 = v /\
                                 schema_backend kv.2 = kv.1) m fields ->
  foldM decodeBackend [] (map (fun kv => (kv.1, reparsed kv.2)) (sort_by fst fields)) = Ok m.
Proof.
  intros Hm Hf. assert (sort_by fst fields ≡ₚ fields) as Hp by apply sort_by_Permutation.
  revert Hp. generalize (sort_by fst fields). intros sorted_fields Hp.
  apply Permutation_sym in Hp. destruct (Permutation_Forall2 Hp (List.Forall2_flip Hf)) as (l & Hpl & Hl%List.Forall2_flip).
  apply Permutation_sym in Hpl.
  assert (forall acc, foldM decodeBackend acc (map (fun kv => (kv.1, reparsed kv.2)) sorted_fields)
    = Ok (emplace_all l acc)) as Hall.
  { clear Hp Hpl Hf Hm. induction Hl as [|[b p] [name v] l fs (v' & Hn & Hv & Heq & Hb) Hl IH];
      intros acc; [done|].
    cbn [map foldM fst snd] in *. subst v. rewrite (decodeBackend_emplace acc b p name v' Hn Hv Hb), bind_Ok. apply IH. }
  rewrite Hall. f_equal.
  destruct (emplace_all_spec l []) as [Hs Hq].
  - rewrite app_nil_r. apply (Permutation_map fst) in Hpl. rewrite Hpl. by apply sorted_NoDup.
  - constructor.
  - rewrite app_nil_r in Hq. apply sorted_Permutation_eq; [done|done|]. by rewrite Hq, Hpl.
Qed.
Lemma encodeSnapshot_fields s v :
  encodeSnapshot s = Ok v ->
  exists fields, v = object [("formatVersion", JInteger (formatVersion s)); ("backends", object fields)] /\
    Forall2 (fun kv fv => backendName kv.1 = Ok fv.1 /\ encodeSchema kv.2 = Ok fv.2) (backends s) fields.
Proof.
  unfold encodeSnapshot. intros (fields & Hf%mapM_Ok_iff & [= <-])%bind_Ok_iff. exists fields. split; [done|].
  eapply Forall2_impl; [exact Hf|]. intros kv fv (name & Hn & (x & Hx & [= <-])%bind_Ok_iff)%bind_Ok_iff. done.
Qed.

Lemma encodeSnapshot_unique s v : BackendMap.sorted (backends s) -> encodeSnapshot s = Ok v -> unique_names v.
Proof.
  intros Hs%sorted_NoDup (fields & -> & Hf)%encodeSnapshot_fields. apply unique_object_of; [different_names|].
  repeat (apply Forall_cons; split; [try exact I|]); [|apply Forall_nil; exact I]. cbn [snd]. apply unique_object_of.
  - induction Hf as [|[b p] [n x] m fields [Hn _] Hf IH]; [constructor|]. cbn [map fst] in *.
    apply NoDup_cons in Hs as [Hb Hs]. constructor; [|by apply IH].
    intros ([n' x'] & Heq & Hin)%list_elem_of_fmap. simpl in Heq. subst n'. destruct Hb.
    apply list_elem_of_lookup_1 in Hin as [i Hi]. destruct (Forall2_lookup_r _ _ _ _ _ Hf Hi) as ([c q] & Hc & Hcn & _).
    cbn [fst] in *. rewrite (backendName_inj b c n Hn Hcn). apply (list_elem_of_fmap_2 fst _ (c, q)).
    by eapply list_elem_of_lookup_2.
  - apply Forall_forall. intros [n x] Hin. apply list_elem_of_lookup_1 in Hin as [i Hi].
    destruct (Forall2_lookup_r _ _ _ _ _ Hf Hi) as (kv & _ & _ & Hx). by eapply unique_schema.
Qed.

Lemma decodeSnapshot_encode s v :
  BackendMap.sorted (backends s) -> canonicalize s = s -> validateSnapshot s = Ok tt ->
  encodeSnapshot s = Ok v -> decodeSnapshot (reparsed v) = Ok s.
Proof.
  intros Hsorted Hcan Hvalid (fields & -> & Hf)%encodeSnapshot_fields.
  pose proof (proj1 (validateSnapshot_snapshot_ok _ _) Hvalid) as (Hversion & _ & Hok).
  unfold decodeSnapshot. decode_record. rewrite Hversion. cbn [Z.leb Z.compare integer_of is_object negb]. decide_tests.
  rewrite throw_false, !bind_Ok. cbn [get_integer integer_of or_throw]. rewrite !bind_Ok. cbn [object reparsed is_object negb].
  rewrite throw_false, !bind_Ok, (decode_backends (backends s) fields Hsorted), bind_Ok.
  - assert (MkSnapshot 1 (backends s) = s) as -> by (rewrite <- Hversion; by destruct s).
    by rewrite Hcan, Hvalid.
  - apply Forall2_same_length_lookup in Hf as [Hl Hf]. apply Forall2_same_length_lookup. split; [done|].
    intros i kv fv Hkv Hfv. destruct (Hf i kv fv Hkv Hfv) as [Hn Hx]. exists fv.2. split_and?; [done..|].
    apply (Hok kv.1 kv.2). destruct kv. by eapply list_elem_of_lookup_2.
Qed.

Lemma canonicalize_map_sorted s : BackendMap.sorted (backends s) -> BackendMap.sorted (backends (canonicalize s)).
Proof.
  unfold BackendMap.sorted, canonicalize. cbn [backends]. induction 1 as [|kv m Hm IH Hall]; [constructor|].
  cbn [map]. constructor; [done|]. rewrite Forall_map. done.
Qed.
End text_roundtrip.

(** C39: What [snapshotJson] prints [snapshotFromJson] reads back, provided the JSON
    library reads back the text it prints for that document: the result is the
    canonical form of the snapshot, whatever the order of its members. *)
Theorem snapshot_roundtrip `{JsonLibrary} s text :
  BackendMap.sorted (backends s) ->
  (forall v, encodeSnapshot (canonicalize s) = Ok v -> reads_back v) ->
  snapshotJson s = Ok text -> snapshotFromJson text = Ok (canonicalize s).
Proof.
  intros Hsorted Hback. unfold snapshotJson. cbv zeta.
  intros (Hvalid & (v & Hv & (t & Ht & [= <-])%bind_Ok_iff)%bind_Ok_iff)%seq_Ok_iff.
  specialize (Hback v Hv). unfold snapshotFromJson, parseMetadata.
  pose proof (encodeSnapshot_unique _ _ (canonicalize_map_sorted s Hsorted) Hv) as Hu.
  rewrite (strictJson_dumped v t Hu Hback Ht), bind_Ok.
  rewrite (decodeSnapshot_encode (canonicalize s) v); [done| | |done|done].
  - by apply canonicalize_map_sorted.
  - apply canonicalize_idemp. apply canonicalize_ok. by apply validateSnapshot_snapshot_ok in Hvalid.
Qed.

#[local] Instance reading_library (v : json) : JsonLibrary :=
  {| dump := fun _ => Ok "{}"; parse := fun _ => (events 0 (reparsed v), Ok (reparsed v)) |}.

Definition sample_json : json :=
  match encodeSnapshot sample_snapshot with Ok v => v | Err _ => JNull end.

Lemma snapshot_roundtrip_witness :
  @snapshotFromJson (reading_library sample_json) ("{}" +:+ newline) = Ok sample_snapshot.
Proof.
  assert (canonicalize sample_snapshot = sample_snapshot) as Hc by (vm_compute; reflexivity).
  transitivity (Ok (E := exn) (canonicalize sample_snapshot)); [|by rewrite Hc].
  apply (@snapshot_roundtrip (reading_library sample_json)).
  - repeat constructor.
  - rewrite Hc. intros v Hv text Ht. change (dump v) with (Ok (E := exn) "{}") in Ht. injection Ht as <-.
    unfold sample_json. rewrite Hv. reflexivity.
  - vm_compute. reflexivity.
Defined.

(** *** Execution contexts *)
(** The contexts that are read: both schemas or none, both valid; the tables only
    with schemas; a rebuild only of SQLite tables, and staging tables only in a
    rebuild. *)
Definition context_ok (c : MigrationExecutionContext) : Prop :=
  (is_Some (ctx_source c) <-> is_Some (ctx_target c)) /\
  (forall s, ctx_source c = Some s \/ ctx_target c = Some s -> schema_ok (schema_backend s) s) /\
  (ctx_tables c <> [] \/ rebuildTables c <> [] -> is_Some (ctx_source c)) /\
  (rebuildTables c <> [] -> mode c = SqliteRebuild) /\
  (mode c = SqliteRebuild -> ctx_tables c <> [] /\
     exists s t, ctx_source c = Some s /\ ctx_target c = Some t /\
                 schema_backend s = Sqlite /\ schema_backend t = Sqlite).

Section contexts.
Lemma validateDeclared_Ok_iff s :
  validateDeclared s = Ok tt <-> forall p, s = Some p -> schema_ok (schema_backend p) p.
Proof.
  destruct s as [p|]; cbn [validateDeclared]; [|by split].
  rewrite validateSnapshot_snapshot_ok. unfold snapshot_ok. cbn [formatVersion backends]. split.
  - intros (_ & _ & H) q [= <-]. apply H. left.
  - intros H. split; [done|]. split; [done|]. intros b q Hin. apply list_elem_of_singleton in Hin as [= -> ->].
    by apply H.
Qed.

Lemma decode_checks c :
  (inconsistent c = false /\ validateDeclared (ctx_source c) = Ok tt /\ validateDeclared (ctx_target c) = Ok tt /\
   incomplete c = false) <-> context_ok c.
Proof.
  rewrite !validateDeclared_Ok_iff. unfold inconsistent, incomplete, context_ok, on_sqlite.
  destruct c as [m ts rs [s|] [t|]]; cbn [mode ctx_tables rebuildTables ctx_source ctx_target has_value Bool.eqb negb orb andb];
    [| | |].
  - destruct m, ts, rs; decide_tests; cbn [is_empty negb orb andb];
    try destruct (bool_decide_reflect (schema_backend s = Sqlite)), (bool_decide_reflect (schema_backend t = Sqlite));
    naive_solver.
  - split; [naive_solver|]. intros (H & _). destruct (proj1 H); [by eexists|done].
  - split; [naive_solver|]. intros (H & _). destruct (proj2 H); [by eexists|done].
  - split.
    + intros (Hi & _ & _ & Hc). destruct ts, rs; cbn [is_empty negb orb andb] in Hi; try done.
      destruct m; decide_tests; [naive_solver|done].
    + intros (_ & _ & Hts & _ & Hm). destruct ts; [|by destruct Hts; [left|]]. destruct rs; [|by destruct Hts; [right|]].
      destruct m; [decide_tests; naive_solver|by destruct Hm].
Qed.
End contexts.

Section context_encodings.
Lemma encodeContext_unique c v : encodeContext c = Ok v -> unique_names v.
Proof.
  unfold encodeContext. intros (source & Hs & (target & Ht & [= <-])%bind_Ok_iff)%bind_Ok_iff.
  apply unique_object_of; [different_names|].
  repeat (apply Forall_cons; split; [cbn [snd]; first [exact I|apply unique_strings|apply unique_array_of, unique_rebuild
    |by eapply unique_optional_schema]|]). by apply Forall_nil.
Qed.

(** Reading an encoded context makes the same checks as the context needs. *)
Lemma decodeContext_encode c v :
  encodeContext c = Ok v ->
  decodeContext (reparsed v) =
    (throw_if (inconsistent c) (invalidCatalog "Execution contexts require consistent schema declarations") ;;
     validateDeclared (ctx_source c) ;; validateDeclared (ctx_target c) ;;
     throw_if (incomplete c) (invalidCatalog "A SQLite rebuild requires its complete schema context") ;; Ok c).
Proof.
  unfold encodeContext. intros (source & Hs & (target & Ht & [= <-])%bind_Ok_iff)%bind_Ok_iff.
  unfold decodeContext. decode_record. rewrite !bind_Ok.
  assert (negb (bool_decide (mode_name (mode c) = "normal"))
          && negb (bool_decide (mode_name (mode c) = "sqlite-rebuild")) = false) as -> by (by destruct (mode c)).
  rewrite throw_false, !bind_Ok. cbn [is_array negb get_array]. rewrite throw_false, !bind_Ok.
  rewrite (mapM_reparsed _ decodeRebuild) by (intros; apply decodeRebuild_encode). rewrite bind_Ok.
  rewrite (decode_optional_schema _ _ Hs), bind_Ok, (decode_optional_schema _ _ Ht), bind_Ok. cbv zeta.
  assert ((if bool_decide (mode_name (mode c) = "normal") then Normal else SqliteRebuild) = mode c) as ->
    by (by destruct (mode c)).
  by destruct c.
Qed.
End context_encodings.

(** What [contextJson] prints [contextFromJson] reads back, provided the JSON
    library reads back the text it prints for that document, exactly for the
    consistent contexts: both schemas or none, both valid, tables and staging
    tables only with schemas, and a rebuild only of SQLite tables. *)
Theorem context_roundtrip `{JsonLibrary} c text :
  (forall v, encodeContext c = Ok v -> reads_back v) ->
  contextJson c = Ok text ->
  (contextFromJson text = Ok c <-> context_ok c) /\ forall c', contextFromJson text = Ok c' -> c' = c.
Proof.
  intros Hback. unfold contextJson. intros (v & Hv & (t & Ht & [= <-])%bind_Ok_iff)%bind_Ok_iff.
  specialize (Hback v Hv). unfold contextFromJson, parseMetadata.
  rewrite (strictJson_dumped v t (encodeContext_unique _ _ Hv) Hback Ht), bind_Ok, (decodeContext_encode _ _ Hv).
  rewrite <- decode_checks.
  destruct (inconsistent c); [split; [naive_solver|done]|]. rewrite throw_false, bind_Ok.
  destruct (validateDeclared (ctx_source c)) as [[]|e]; cycle 1.
  { rewrite bind_Err. destruct e; split; naive_solver. }
  destruct (validateDeclared (ctx_target c)) as [[]|e]; cycle 1.
  { rewrite bind_Ok, bind_Err. destruct e; split; naive_solver. }
  rewrite !bind_Ok. destruct (incomplete c); [split; naive_solver|]. rewrite throw_false, bind_Ok.
  split; [naive_solver|]. by intros c' [= <-].
Qed.

Definition sample_context : MigrationExecutionContext :=
  MkContext SqliteRebuild ["users"] [MkRebuild "users" "users" "__orm_rebuild_0123456789abcdef" (Some "id") None]
    (Some sample_schema) (Some sample_schema).
Definition sample_context_json : json :=
  match encodeContext sample_context with Ok v => v | Err _ => JNull end.

Lemma context_roundtrip_witness :
  @contextFromJson (reading_library sample_context_json) ("{}" +:+ newline) = Ok sample_context.
Proof.
  destruct (@context_roundtrip (reading_library sample_context_json) sample_context ("{}" +:+ newline)) as [H _].
  - intros v Hv text Ht. change (dump v) with (Ok (E := exn) "{}") in Ht. injection Ht as <-.
    unfold sample_context_json. rewrite Hv. reflexivity.
  - vm_compute. reflexivity.
  - apply H. apply decode_checks. vm_compute. repeat split; reflexivity.
Defined.
