(* ===== verification/Generation.v ===== *)
(** Generation: the scripts that turn one snapshot into another, from
    src/migrations/SchemaGeneration.cpp.

    The buffer [sql] to which the code appends is the list of the statements
    appended; [script_text] is its text. *)
From S2P Require Import Prelude Foundation Chrono Values Codec Schema Sha256 Models PhysicalSql Snapshot Diff SqlValidation Literals SchemaJson.
Local Open Scope string_scope.

Abbreviation statements := (list string).

(** [append(sql, statement)] on the text. *)
Definition terminated (statement : string) : string :=
  statement +:+ (if ends_with ";" statement then "" else ";") +:+ newline.
Definition script_text (sql : statements) : string := concat_str (map terminated sql).

(** [sql.empty() ? "SELECT 1;\n" : sql]. *)
Definition finished_script (sql : statements) : string :=
  if bool_decide (script_text sql = "") then "SELECT 1;" +:+ newline else script_text sql.

(** [backend == Backend::Mysql || backend == Backend::Mariadb]. *)
Definition mysql (b : BackendType) : bool := bool_decide (b = Mysql) || bool_decide (b = Mariadb).

(** A statement made of words and quoted names. *)
Inductive token := Text (s : string) | Name (n : string).

Fixpoint statement (b : BackendType) (parts : list token) : res string :=
  match parts with
  | [] => Ok ""
  | Text s :: parts => rest ← statement b parts; Ok (s +:+ rest)
  | Name n :: parts => q ← quoteIdentifier b n; rest ← statement b parts; Ok (q +:+ rest)
  end.

(** A list separated by commas, as the code builds it. *)
Definition separate (result item : string) : string :=
  (if bool_decide (result = "") then result else result +:+ ", ") +:+ item.

Definition identifiers (b : BackendType) (names : list string) : res string :=
  foldM (fun result name =>
    q ← quoteIdentifier b name;
    Ok (separate result q)) "" names.

Definition indexSql (b : BackendType) (table : string) (i : PhysicalIndex) : res string :=
  head ← statement b [Text ("CREATE " +:+ (if unique i then "UNIQUE " else "") +:+ "INDEX ");
                      Name (index_name i); Text " ON "; Name table];
  names ← identifiers b (index_columns i);
  Ok (head +:+ " (" +:+ names +:+ ");").

Definition temporaryName (version : Z) (direction source target prefix : string) : string :=
  prefix +:+ take_str 16
    (sha256 (to_string_Z version +:+ ":" +:+ direction +:+ ":" +:+ to_string (size source) +:+ ":" +:+ source
             +:+ ":" +:+ to_string (size target) +:+ ":" +:+ target)).

Definition identity (t : PhysicalTable) : option string :=
  col_name <$> List.find autoIncrement (columns t).

(** The table of the target a change concerns. *)
Definition changed_table (c : SchemaChange) : string :=
  if bool_decide (kind c = RenameTable) then otherName c else change_table c.

Definition changedTables (d : SchemaDiff) (b : BackendType) : gset string :=
  list_to_set (map changed_table (List.filter (fun c => bool_decide (change_backend c = b)) (changes d))).

(** ** The tables a native script has to detach *)

(** One pass over the foreign keys of the source tables. *)
Definition affect_key (table : string) (affected : gset string) (k : PhysicalForeignKey) : gset string :=
  if bool_decide (targetTable k ∈ affected) then {[table]} ∪ affected else affected.
Definition affect_table (affected : gset string) (t : PhysicalTable) : gset string :=
  fold_left (affect_key (table_name t)) (foreignKeys t) affected.
Definition affect_pass (ts : list PhysicalTable) (affected : gset string) : gset string :=
  fold_left affect_table ts affected.

(** The loop [do ... while (affected.size() != previousSize)], with fuel. *)
Fixpoint affect_loop (fuel : nat) (ts : list PhysicalTable) (affected : gset string) : option (gset string) :=
  match fuel with
  | O => None
  | S fuel =>
      let next := affect_pass ts affected in
      if (base.size next =? base.size affected)%nat then Some next else affect_loop fuel ts next
  end.

(** The tables that change or go. *)
Definition directlyAffected (d : SchemaDiff) (decisions : GenerationDecisions) (b : BackendType)
    (before_ after_ : PhysicalSchema) : gset string :=
  list_to_set (map table_name (List.filter (fun t =>
    bool_decide (targetTableName (table_name t) decisions ∈ changedTables d b)
    || negb (is_some (tableNamed after_ (targetTableName (table_name t) decisions)))) (tables before_))).

(** Fuel: a pass that is not the last adds a source table. *)
Definition affectedTables (d : SchemaDiff) (decisions : GenerationDecisions) (b : BackendType)
    (before_ after_ : PhysicalSchema) : gset string :=
  default ∅ (affect_loop (S (length (tables before_))) (tables before_)
               (directlyAffected d decisions b before_ after_)).

Definition nativeAffectedSources (d : SchemaDiff) (decisions : GenerationDecisions) (b : BackendType)
    : res (gset string) :=
  before_ ← BackendMap.at_ (backends (before d)) b;
  after_ ← BackendMap.at_ (backends (after d)) b;
  Ok (affectedTables d decisions b before_ after_).

(** ** SQLite: tables are rebuilt *)
Definition coalesce (first second : string) : string := "COALESCE(" +:+ first +:+ ", " +:+ second +:+ ")".

(** What fills a column of the copy of a table. *)
Definition copyExpression (source target : PhysicalTable) (decisions : GenerationDecisions) (c : PhysicalColumn)
    : res string :=
  let old := matchingSourceColumn source (table_name target) (col_name c) decisions in
  let conversion := findTransformation (conversions decisions) (table_name target) (col_name c) in
  let backfill := findTransformation (backfills decisions) (table_name target) (col_name c) in
  expression ←
    match conversion, old, backfill with
    | Some t, _, _ => transformationSql t source c Sqlite
    | None, Some old, _ => quoteIdentifier Sqlite (col_name old)
    | None, None, Some t => transformationSql t source c Sqlite
    | None, None, None => Ok "NULL"
    end;
  match old, backfill, conversion with
  | Some old, Some t, None =>
      if nullable old && negb (nullable c)
      then other ← transformationSql t source c Sqlite; Ok (coalesce expression other)
      else Ok expression
  | _, _, _ => Ok expression
  end.

(** The statements that build and fill the staging table. *)
Definition copyTable (stage : string) (source target : PhysicalTable) (decisions : GenerationDecisions)
    : res statements :=
  create ← renderCreateTable Sqlite (with_table_name stage target) true false;
  values ← mapM (copyExpression source target decisions) (columns target);
  insert ← statement Sqlite [Text "INSERT INTO "; Name stage];
  names ← identifiers Sqlite (map col_name (columns target));
  from ← statement Sqlite [Text " FROM "; Name (table_name source)];
  Ok [create; insert +:+ " (" +:+ names +:+ ") SELECT " +:+ fold_left separate values "" +:+ from].

(** One source table: the statements, and the context that records it. *)
Definition rebuildSource (version : Z) (direction : string) (changed : gset string) (after_ : PhysicalSchema)
    (decisions : GenerationDecisions) (state : statements * MigrationExecutionContext) (source : PhysicalTable)
    : res (statements * MigrationExecutionContext) :=
  let (sql, context) := state in
  let touched := MkContext SqliteRebuild (ctx_tables context ++ [table_name source]) (rebuildTables context)
                   (ctx_source context) (ctx_target context) in
  match tableNamed after_ (targetTableName (table_name source) decisions) with
  | None => Ok (sql, touched)
  | Some target =>
      if negb (bool_decide (table_name target ∈ changed)) then Ok state
      else
        let stage := temporaryName version direction (table_name source) (table_name target) "__orm_rebuild_" in
        copy ← copyTable stage source target decisions;
        let rebuilt :=
          MkRebuild (table_name source) (table_name target) stage (identity source) (identity target) in
        Ok (sql ++ copy, MkContext SqliteRebuild (ctx_tables touched) (rebuildTables touched ++ [rebuilt])
                           (ctx_source touched) (ctx_target touched))
  end%list.

(** A staging table takes its final name and its indexes. *)
Definition finishRebuild (after_ : PhysicalSchema) (r : RebuildTable) : res statements :=
  rename ← statement Sqlite [Text "ALTER TABLE "; Name (rb_staging r); Text " RENAME TO "; Name (rb_target r)];
  target ← or_throw (tableNamed after_ (rb_target r)) OutOfRange;
  ixs ← mapM (indexSql Sqlite (rb_target r)) (indexes target);
  Ok (rename :: ixs).

(** A table without a source. *)
Definition createNew (before_ : PhysicalSchema) (decisions : GenerationDecisions) (t : PhysicalTable)
    : res statements :=
  match matchingSource before_ (table_name t) decisions with
  | Some _ => Ok []
  | None =>
      create ← renderCreateTable Sqlite t true false;
      ixs ← mapM (indexSql Sqlite (table_name t)) (indexes t);
      Ok (create :: ixs)
  end.

Definition sqliteStatements (version : Z) (direction : string) (d : SchemaDiff) (decisions : GenerationDecisions)
    (before_ after_ : PhysicalSchema) : res (statements * MigrationExecutionContext) :=
  '(copies, context) ← foldM (rebuildSource version direction (changedTables d Sqlite) after_ decisions)
                         ([], empty_context) (tables before_);
  drops ← mapM (fun name => statement Sqlite [Text "DROP TABLE "; Name name]) (ctx_tables context);
  renames ← mapM (finishRebuild after_) (rebuildTables context);
  creates ← mapM (createNew before_ decisions) (tables after_);
  Ok ((copies ++ drops ++ concat renames ++ concat creates)%list,
      MkContext (mode context) (ctx_tables context) (rebuildTables context) (Some before_) (Some after_)).

Definition sqliteSql (version : Z) (direction : string) (d : SchemaDiff) (decisions : GenerationDecisions)
    : res (string * MigrationExecutionContext) :=
  before_ ← BackendMap.at_ (backends (before d)) Sqlite;
  after_ ← BackendMap.at_ (backends (after d)) Sqlite;
  '(sql, context) ← sqliteStatements version direction d decisions before_ after_;
  Ok (finished_script sql, context).

(** ** Other backends: tables are altered in place *)
Record NativePreparation := MkPreparation {
  stages : gmap string string;
  identityIndexes : list string;
  remove : list string;
  replacePrimary : bool
}.

Section native.
Context (version : Z) (direction : string) (decisions : GenerationDecisions) (b : BackendType).

Definition alter (table : string) (rest : list token) : res string :=
  statement b (Text "ALTER TABLE " :: Name table :: rest).

(** A column that will no longer be an identity, or whose key goes. *)
Definition dropIdentity (oldTable t : PhysicalTable) (replace : bool) (old : PhysicalColumn) : res statements :=
  let next := columnNamedIn (columns t) (targetColumn (table_name t) (col_name old) decisions) in
  fail_if (autoIncrement old && match next with
                                | Some n => is_some (findTransformation (conversions decisions) (table_name t) (col_name n))
                                | None => false
                                end)
    "identity-conversion" "Identity conversions need a manual migration preserving its high-water mark"
    (table_name oldTable +:+ "/" +:+ col_name old) b ;;
  if autoIncrement old
     && (match next with Some n => negb (autoIncrement n) | None => true end || mysql b && replace)
  then
    if mysql b then
      column ← renderColumn b (with_autoIncrement old false) false "";
      s ← alter (table_name oldTable) [Text (" MODIFY COLUMN " +:+ column)];
      Ok [s]
    else
      s1 ← alter (table_name oldTable) [Text " ALTER COLUMN "; Name (col_name old); Text " DROP IDENTITY IF EXISTS"];
      s2 ← alter (table_name oldTable) [Text " ALTER COLUMN "; Name (col_name old); Text " DROP DEFAULT"];
      Ok [s1; s2]
  else Ok [].

(** The primary key of the source under the names of the target. *)
Definition mappedPrimary (oldTable t : PhysicalTable) : list string :=
  map (fun c => targetColumn (table_name t) c decisions) (primaryKey oldTable).

Definition replacesPrimary (oldTable t : PhysicalTable) : bool :=
  negb (bool_decide (primaryKeyName oldTable = primaryKeyName t))
  || negb (bool_decide (mappedPrimary oldTable t = primaryKey t)).

Definition removedColumns (oldTable t : PhysicalTable) : list string :=
  map col_name (List.filter (fun old =>
    negb (is_some (columnNamedIn (columns t) (targetColumn (table_name t) (col_name old) decisions))))
    (columns oldTable)).

Definition staged_column (stage : string) (c : PhysicalColumn) (old : option PhysicalColumn) : PhysicalColumn :=
  MkColumn stage (logicalType c) (sqlType_of c) (negb (autoIncrement c)) (maxStringLength c)
    (autoIncrement c && negb (is_some old)).

(** The statement that fills a staging column. *)
Definition fillStage (oldTable : PhysicalTable) (c : PhysicalColumn) (stage : string) (old : option PhysicalColumn)
    (conversion backfill : option ColumnTransformation) : res statements :=
  match (match conversion with Some t => Some t | None => backfill end) with
  | None => Ok []
  | Some fill =>
      expression ← transformationSql fill oldTable c b;
      expression ←
        match old, backfill, conversion with
        | Some old, Some _, None => q ← quoteIdentifier b (col_name old); Ok (coalesce q expression)
        | _, _, _ => Ok expression
        end;
      s ← statement b [Text "UPDATE "; Name (table_name oldTable); Text " SET "; Name stage; Text (" = " +:+ expression)];
      Ok [s]
  end.

(** A column of the target that is new, converted or filled: it is built in a
    staging column. *)
Definition prepareColumn (oldTable t : PhysicalTable) (state : statements * NativePreparation) (c : PhysicalColumn)
    : res (statements * NativePreparation) :=
  let (sql, p) := state in
  let name := table_name oldTable in
  let old := matchingSourceColumn oldTable (table_name t) (col_name c) decisions in
  let conversion := findTransformation (conversions decisions) (table_name t) (col_name c) in
  let backfill := findTransformation (backfills decisions) (table_name t) (col_name c) in
  let stagedBackfill :=
    match old with Some o => is_some backfill && nullable o && negb (nullable c) | None => false end in
  if negb (is_some old) || is_some conversion || stagedBackfill then
    let stage := temporaryName version direction name (col_name c) "__orm_column_" in
    let staged := staged_column stage c old in
    column ← renderColumn b staged false "";
    add ← alter name [Text (" ADD COLUMN " +:+ column)];
    '(add, ixs) ←
      (if mysql b && autoIncrement staged then
         let index := temporaryName version direction name (col_name c) "__orm_identity_" in
         suffix ← statement b [Text ", ADD INDEX "; Name index; Text " ("; Name stage; Text ")"];
         Ok (add +:+ suffix, [index])
       else Ok (add, []));
    fill ← fillStage oldTable c stage old conversion backfill;
    Ok ((sql ++ add :: fill)%list,
        MkPreparation (<[col_name c := stage]> (stages p)) (identityIndexes p ++ ixs)%list
          (remove p ++ match old with Some o => [col_name o] | None => [] end)%list
          (replacePrimary p || match old with
                               | Some o => bool_decide (col_name o ∈ primaryKey oldTable)
                               | None => false
                               end))
  else Ok state.

Definition prepareNativeTable (oldTable t : PhysicalTable) : res (statements * NativePreparation) :=
  let replace := replacesPrimary oldTable t in
  plain ← mapM (dropIdentity oldTable t replace) (columns oldTable);
  foldM (prepareColumn oldTable t)
    (concat plain, MkPreparation ∅ [] (removedColumns oldTable t) replace) (columns t).

Definition dropForeignKey (t : PhysicalTable) (k : PhysicalForeignKey) : res string :=
  alter (table_name t) [Text (if mysql b then " DROP FOREIGN KEY " else " DROP CONSTRAINT "); Name (fk_name k)].

Definition dropIndex (t : PhysicalTable) (i : PhysicalIndex) : res string :=
  statement b ([Text "DROP INDEX "; Name (index_name i)] ++ if mysql b then [Text " ON "; Name (table_name t)] else [])%list.

(** A loop over the source tables and a list in each of them. *)
Definition for_each {A} (selected : PhysicalTable -> bool) (items : PhysicalTable -> list A)
    (f : PhysicalTable -> A -> res string) (ts : list PhysicalTable) : res statements :=
  groups ← mapM (fun t => if selected t then mapM (f t) (items t) else Ok []) ts;
  Ok (concat groups).

(** The table renames go through temporary names, all of them before any final one. *)
Definition renameStage (r : TableRename) : string :=
  temporaryName version direction (tr_from r) (tr_to r) "__orm_rename_".
Definition tableRenameSteps : list (string * string) :=
  (map (fun r => (tr_from r, renameStage r)) (tableRenames decisions)
   ++ map (fun r => (renameStage r, tr_to r)) (tableRenames decisions))%list.
Definition renameTable (step : string * string) : res string :=
  alter step.1 [Text " RENAME TO "; Name step.2].

(** The columns that keep their data under another name. *)
Definition renamedColumns (name : string) (oldTable t : PhysicalTable) (p : NativePreparation)
    : list (string * string) :=
  List.filter (fun ot =>
      negb (bool_decide (ot.2 = ot.1)) && is_some (columnNamedIn (columns t) ot.2)
      && negb (bool_decide (is_Some (stages p !! ot.2))))
    (map (fun old => (col_name old, targetColumn name (col_name old) decisions)) (columns oldTable)).

Definition columnStage (name old : string) : string :=
  temporaryName version direction name old "__orm_rename_column_".
Definition columnRenameSteps (name : string) (oldTable t : PhysicalTable) (p : NativePreparation)
    : list (string * string) :=
  (map (fun ot => (ot.1, columnStage name ot.1)) (renamedColumns name oldTable t p)
   ++ map (fun ot => (columnStage name ot.1, ot.2)) (renamedColumns name oldTable t p)
   ++ map (fun cs => (cs.2, cs.1)) (sort_by fst (map_to_list (stages p))))%list.
Definition renameColumn (name : string) (step : string * string) : res string :=
  alter name [Text " RENAME COLUMN "; Name step.1; Text " TO "; Name step.2].

(** Whether the definition of a column has to be given again. *)
Definition redefines (p : NativePreparation) (c : PhysicalColumn) (old : option PhysicalColumn) : bool :=
  match old with
  | None => true
  | Some o =>
      bool_decide (is_Some (stages p !! col_name c)) || negb (bool_decide (sqlType_of o = sqlType_of c))
      || negb (Bool.eqb (nullable o) (nullable c)) || negb (bool_decide (maxStringLength o = maxStringLength c))
      || negb (Bool.eqb (autoIncrement o) (autoIncrement c)) || mysql b && replacePrimary p && autoIncrement c
  end.

Definition alterColumn (name column : string) (rest : string) : res string :=
  alter name [Text " ALTER COLUMN "; Name column; Text rest].

Definition statement_if (c : bool) (s : res string) : res statements :=
  if c then x ← s; Ok [x] else Ok [].

Definition defineColumn (name : string) (oldTable : PhysicalTable) (p : NativePreparation) (c : PhysicalColumn)
    : res statements :=
  let old := matchingSourceColumn oldTable name (col_name c) decisions in
  let staged := bool_decide (is_Some (stages p !! col_name c)) in
  if negb (redefines p c old) then Ok []
  else if mysql b then
    let definition := if replacePrimary p && autoIncrement c then with_autoIncrement c false else c in
    column ← renderColumn b definition false "";
    s ← alter name [Text (" MODIFY COLUMN " +:+ column)];
    Ok [s]
  else
    type ← statement_if (match old with Some o => negb staged && negb (bool_decide (sqlType_of o = sqlType_of c)) | None => false end)
             (alterColumn name (col_name c) (" TYPE " +:+ sqlType_of c));
    null ← (if negb (nullable c) then statement_if true (alterColumn name (col_name c) " SET NOT NULL")
            else statement_if (match old with Some o => negb (nullable o) && negb staged | None => false end)
                   (alterColumn name (col_name c) " DROP NOT NULL"));
    ident ← statement_if (match old with Some o => autoIncrement c && negb (autoIncrement o) | None => false end)
              (alterColumn name (col_name c) " ADD GENERATED BY DEFAULT AS IDENTITY");
    Ok (type ++ null ++ ident)%list.

(** The new primary key; on MySQL and MariaDB with the identity it indexes. *)
Definition addPrimary (name : string) (t : PhysicalTable) (p : NativePreparation) : res statements :=
  if replacePrimary p && negb (bool_decide (primaryKey t = [])) then
    head ← alter name ([Text " ADD "]
             ++ (if mysql b then [] else [Text "CONSTRAINT "; Name (primaryKeyName t); Text " "]))%list;
    names ← identifiers b (primaryKey t);
    identities ← mapM (fun c => column ← renderColumn b c false ""; Ok (", MODIFY COLUMN " +:+ column))
                   (if mysql b then List.filter autoIncrement (columns t) else []);
    Ok [head +:+ "PRIMARY KEY (" +:+ names +:+ ")" +:+ concat_str identities]
  else Ok [].

Definition dropPrimary (name : string) (oldTable : PhysicalTable) (p : NativePreparation) : res statements :=
  statement_if (replacePrimary p && negb (bool_decide (primaryKey oldTable = [])))
    (alter name (if mysql b then [Text " DROP PRIMARY KEY"]
                 else [Text " DROP CONSTRAINT "; Name (primaryKeyName oldTable)])).

(** A new identity continues after the greatest value. *)
Definition text_column : PhysicalColumn := MkColumn "" ColumnType.String "" false None false.

Definition restartSequence (name : string) (oldTable : PhysicalTable) (c : PhysicalColumn) : res statements :=
  let old := matchingSourceColumn oldTable name (col_name c) decisions in
  if autoIncrement c && negb (match old with Some o => autoIncrement o | None => false end) then
    table ← quoteIdentifier b name;
    tableText ← literalSql (LitString table) text_column b;
    columnText ← literalSql (LitString (col_name c)) text_column b;
    column ← quoteIdentifier b (col_name c);
    Ok ["SELECT setval(pg_get_serial_sequence(" +:+ tableText +:+ ", " +:+ columnText
        +:+ "), GREATEST(COALESCE(MAX(" +:+ column +:+ "), 1), 1), COUNT(*) > 0) FROM " +:+ table]
  else Ok [].

(** The table of the source under its new name: gone, unchanged, or altered. *)
Definition alterTable (changed : gset string) (after_ : PhysicalSchema) (preparations : gmap string NativePreparation)
    (oldTable : PhysicalTable) : res statements :=
  let name := targetTableName (table_name oldTable) decisions in
  match tableNamed after_ name with
  | None => statement_if true (statement b [Text "DROP TABLE "; Name (table_name oldTable)])
  | Some t =>
      if negb (bool_decide (name ∈ changed)) then Ok []
      else
        p ← or_throw (preparations !! table_name oldTable) OutOfRange;
        primary ← dropPrimary name oldTable p;
        drops ← mapM (fun column => alter name [Text " DROP COLUMN "; Name column]) (remove p);
        renames ← mapM (renameColumn name) (columnRenameSteps name oldTable t p);
        definitions ← mapM (defineColumn name oldTable p) (columns t);
        key ← addPrimary name t p;
        ixs ← mapM (fun index => statement b [Text "DROP INDEX "; Name index; Text " ON "; Name name]) (identityIndexes p);
        sequences ← mapM (restartSequence name oldTable) (if mysql b then [] else columns t);
        Ok (primary ++ drops ++ renames ++ concat definitions ++ key ++ ixs ++ concat sequences)%list
  end.

(** The preparations of the changed tables, by the name of the source. *)
Definition prepareTables (changed : gset string) (after_ : PhysicalSchema)
    (state : statements * gmap string NativePreparation) (source : PhysicalTable)
    : res (statements * gmap string NativePreparation) :=
  let (sql, preparations) := state in
  match tableNamed after_ (targetTableName (table_name source) decisions) with
  | Some target =>
      if bool_decide (table_name target ∈ changed) then
        '(prepared, p) ← prepareNativeTable source target;
        Ok ((sql ++ prepared)%list,
            if bool_decide (is_Some (preparations !! table_name source)) then preparations
            else <[table_name source := p]> preparations)
      else Ok state
  | None => Ok state
  end.

Definition isNew (before_ : PhysicalSchema) (t : PhysicalTable) : bool :=
  negb (is_some (matchingSource before_ (table_name t) decisions)).

Definition addForeignKey (t : PhysicalTable) (k : PhysicalForeignKey) : res string :=
  head ← alter (table_name t) [Text " ADD "];
  key ← renderForeignKey b k;
  Ok (head +:+ key).

Definition nativeStatements (d : SchemaDiff) (before_ after_ : PhysicalSchema) : res statements :=
  let changed := changedTables d b in
  let affectedSources := affectedTables d decisions b before_ after_ in
  let affectedTargets :=
    changed ∪ set_map (D := gset string) (fun source => targetTableName source decisions) affectedSources in
  let detached t := bool_decide (table_name t ∈ affectedSources) in
  let attached t := bool_decide (table_name t ∈ affectedTargets) in
  keys ← for_each detached foreignKeys dropForeignKey (tables before_);
  ixs ← for_each detached indexes dropIndex (tables before_);
  '(prepared, preparations) ← foldM (prepareTables changed after_) ([], ∅) (tables before_);
  renamed ← mapM renameTable tableRenameSteps;
  altered ← mapM (alterTable changed after_ preparations) (tables before_);
  created ← mapM (fun t => renderCreateTable b t false false) (List.filter (isNew before_) (tables after_));
  newIndexes ← for_each (fun t => attached t && (negb (mysql b) || negb (isNew before_ t))) indexes
                 (fun t => indexSql b (table_name t)) (tables after_);
  newKeys ← for_each attached foreignKeys addForeignKey (tables after_);
  Ok (keys ++ ixs ++ prepared ++ renamed ++ concat altered ++ created ++ newIndexes ++ newKeys)%list.

Definition nativeSql (d : SchemaDiff) : res string :=
  before_ ← BackendMap.at_ (backends (before d)) b;
  after_ ← BackendMap.at_ (backends (after d)) b;
  sql ← nativeStatements d before_ after_;
  Ok (finished_script sql).

Definition nativeContext (d : SchemaDiff) : res MigrationExecutionContext :=
  before_ ← BackendMap.at_ (backends (before d)) b;
  after_ ← BackendMap.at_ (backends (after d)) b;
  affected ← nativeAffectedSources d decisions b;
  Ok (MkContext Normal (merge_sort String.le (elements affected)) [] (Some before_) (Some after_)).
End native.

(** ** The generated migration *)
Record SqlMigration := MkSqlMigration {
  up : string;
  down : option string;
  upContext : MigrationExecutionContext;
  downContext : MigrationExecutionContext;
  beforeHash : string;
  afterHash : string
}.

Record Migration := MkMigration {
  version_of : Z;
  migration_name : string;
  scripts : BackendMap.t SqlMigration;
  migration_before : SchemaSnapshot;
  migration_after : SchemaSnapshot
}.

Definition inverseDecisions (d : GenerationDecisions) : GenerationDecisions :=
  MkDecisions
    (map (fun r => MkTableRename (tr_to r) (tr_from r)) (tableRenames d))
    (map (fun r => MkColumnRename (sourceTable (cr_table r) d) (cr_to r) (cr_from r)) (columnRenames d))
    (allowDataLossDown d) [] (downBackfills d) (downConversions d) [] [].

Definition resolved (d : SchemaDiff) : bool :=
  negb (existsb diag_error (diagnostics d)) && negb (existsb unresolved (changes d)).

(** Whether a dropped table or column can be filled again. *)
Definition restorable (decisions inverseOptions : GenerationDecisions) (b : BackendType) (c : SchemaChange) : bool :=
  if negb (bool_decide (change_backend c = b)) then true
  else if bool_decide (kind c = DropTable) then false
  else if bool_decide (kind c = DropColumn) then
    match findTransformation (backfills inverseOptions) (sourceTable (change_table c) decisions) (change_column c) with
    | Some fill =>
        is_some (constant fill) || is_some (sourceColumn fill) || BackendMap.contains b (expressions fill)
    | None => false
    end
  else true.

Definition reverseReady (inverse forward : SchemaDiff) (decisions inverseOptions : GenerationDecisions)
    (b : BackendType) : bool :=
  negb (existsb (fun i => diag_error i && (bool_decide (diag_backend i = b) || bool_decide (diag_backend i = Empty)))
          (diagnostics inverse)
        || existsb (fun c => bool_decide (change_backend c = b) && unresolved c) (changes inverse))
  && forallb (restorable decisions inverseOptions b) (changes forward).

Definition portable_char (c : ascii) : bool :=
  is_lower c || is_upper c || is_digit c || bool_decide (c = "_"%char) || bool_decide (c = "-"%char).

Definition unresolvedDiagnostics (d : SchemaDiff) : list GenerationDiagnostic :=
  map (fun c => MkDiagnostic "unresolved-change" "Change requires explicit approval or transformation"
                  (change_id c) (change_backend c) true) (List.filter unresolved (changes d)).

(** The script and the context of one direction. *)
Definition direction_sql (version : Z) (direction : string) (d : SchemaDiff) (decisions : GenerationDecisions)
    (b : BackendType) : res (string * MigrationExecutionContext) :=
  if bool_decide (b = Sqlite) then sqliteSql version direction d decisions
  else
    sql ← nativeSql version direction decisions b d;
    context ← nativeContext decisions b d;
    Ok (sql, context).

Section generation.
Context `{JsonLibrary}.

(** The scripts of one backend. *)
Definition generateScripts (version : Z) (d inverse : SchemaDiff) (decisions inverseOptions : GenerationDecisions)
    (b : BackendType) (before_ : PhysicalSchema) : res SqlMigration :=
  after_ ← BackendMap.at_ (backends (after d)) b;
  validateTransformations before_ after_ decisions ;;
  hashBefore ← snapshotHash (before d) b;
  hashAfter ← snapshotHash (after d) b;
  '(sql, context) ← direction_sql version "up" d decisions b;
  '(reverse, reverseContext) ←
    (if reverseReady inverse d decisions inverseOptions b then
       validateTransformations after_ before_ inverseOptions ;;
       '(sql, context) ← direction_sql version "down" inverse inverseOptions b;
       Ok (Some sql, context)
     else Ok (None, empty_context));
  validateScript sql b version ;;
  match reverse with Some script => validateScript script b version | None => Ok tt end ;;
  Ok (MkSqlMigration sql reverse context reverseContext hashBefore hashAfter).

Definition generate (version : Z) (name : string) (supplied : SchemaDiff) (decisions : GenerationDecisions)
    : res (Migration * SchemaDiff) :=
  fail_if ((version <=? 0)%Z || bool_decide (name = "") || negb (forallb_char portable_char name))
    "invalid-migration" "Migration needs a positive version and a portable name" "" Empty ;;
  d ← compare (before supplied) (after supplied) decisions;
  if negb (resolved d) then
    Err (GenerationError "Migration contains unresolved changes" (diagnostics d ++ unresolvedDiagnostics d)%list)
  else
    fail_if (bool_decide (changes d = [])) "empty-diff" "There is no physical schema change to generate" "" Empty ;;
    let inverseOptions := inverseDecisions decisions in
    inverse ← compare (after d) (before d) inverseOptions;
    ss ← foldM (fun ss kv =>
           s ← generateScripts version d inverse decisions inverseOptions kv.1 kv.2;
           Ok (BackendMap.emplace kv.1 s ss)) [] (backends (before d));
    Ok (MkMigration version name ss (before d) (after d), d).
End generation.

(** ** Properties *)

(** *** The tables to detach *)

(** The tables of [ts] from which a chain of foreign keys leads to one of [start],
    and [start] itself. *)
Inductive depends (ts : list PhysicalTable) (start : gset string) : string -> Prop :=
| depends_start n : n ∈ start -> depends ts start n
| depends_key t k : t ∈ ts -> k ∈ foreignKeys t -> depends ts start (targetTable k) ->
    depends ts start (table_name t).

Section closure.
Context (ts : list PhysicalTable).

Lemma affect_key_subset n a k : a ⊆ affect_key n a k.
Proof. unfold affect_key. case_bool_decide; set_solver. Qed.

Lemma fold_left_subset {A} (f : gset string -> A -> gset string) l a :
  (forall a x, a ⊆ f a x) -> a ⊆ fold_left f l a.
Proof. intros Hf. revert a. induction l as [|x l IH]; intros a; simpl; [done|]. etrans; [apply Hf|apply IH]. Qed.

Lemma affect_table_subset a t : a ⊆ affect_table a t.
Proof. apply fold_left_subset. intros. apply affect_key_subset. Qed.

Lemma affect_pass_subset a : a ⊆ affect_pass ts a.
Proof. apply fold_left_subset, affect_table_subset. Qed.

(** Everything a pass adds depends on what was there. *)
Lemma affect_pass_sound start l a :
  l ⊆ ts -> (forall n, n ∈ a -> depends ts start n) ->
  forall n, n ∈ affect_pass l a -> depends ts start n.
Proof.
  revert a. induction l as [|t l IH]; intros a Hl Ha; simpl; [done|].
  apply IH; [set_solver|]. unfold affect_table.
  assert (forall k, k ∈ foreignKeys t -> k ∈ foreignKeys t) as Hks by done. revert Hks.
  generalize (foreignKeys t) at 1 3. intros ks. revert a Ha.
  induction ks as [|k ks IHk]; intros a Ha Hks; simpl; [done|].
  apply IHk; [|intros; apply Hks; by right].
  intros n. unfold affect_key. case_bool_decide as Hin; [|apply Ha].
  intros [->%elem_of_singleton|Hn]%elem_of_union; [|by apply Ha].
  apply (depends_key _ _ t k); [set_solver|apply Hks; left|by apply Ha].
Qed.

(** A pass that adds nothing leaves a set closed under references. *)
Lemma affect_pass_fixed a t k :
  affect_pass ts a = a -> t ∈ ts -> k ∈ foreignKeys t -> targetTable k ∈ a -> table_name t ∈ a.
Proof.
  intros Hfix Ht Hk Hin. rewrite <- Hfix. unfold affect_pass.
  apply list_elem_of_split in Ht as (l1 & l2 & ->). rewrite fold_left_app. simpl.
  assert (targetTable k ∈ fold_left affect_table l1 a) as Hin1
    by (apply (fold_left_subset affect_table l1 a); [apply affect_table_subset|done]).
  apply (fold_left_subset affect_table l2); [apply affect_table_subset|].
  unfold affect_table. apply list_elem_of_split in Hk as (k1 & k2 & ->). rewrite fold_left_app. simpl.
  apply (fold_left_subset (affect_key (table_name t)) k2); [apply affect_key_subset|].
  unfold affect_key at 1. rewrite bool_decide_true; [set_solver|].
  by apply (fold_left_subset (affect_key (table_name t)) k1); [apply affect_key_subset|].
Qed.

Lemma affect_pass_names l a : affect_pass l a ⊆ a ∪ list_to_set (map table_name l).
Proof.
  revert a. induction l as [|t l IH]; intros a; simpl; [set_solver|]. etrans; [apply IH|].
  assert (affect_table a t ⊆ {[table_name t]} ∪ a); [|set_solver]. unfold affect_table. generalize (foreignKeys t).
  intros ks. assert (a ⊆ {[table_name t]} ∪ a) as Ha by set_solver. revert Ha. generalize a at 1 3.
  induction ks as [|k ks IHk]; intros c Hc; simpl; [done|]. apply IHk. unfold affect_key. case_bool_decide; set_solver.
Qed.

Lemma affect_loop_spec start fuel a :
  (forall n, n ∈ a -> depends ts start n) -> start ⊆ a -> a ⊆ list_to_set (map table_name ts) ->
  base.size (list_to_set (map table_name ts) : gset string) < fuel + base.size a ->
  exists r, affect_loop fuel ts a = Some r /\ forall n, n ∈ r <-> depends ts start n.
Proof.
  revert a. induction fuel as [|fuel IH]; intros a Hsound Hstart Hnames Hfuel.
  - apply subseteq_size in Hnames. lia.
  - cbn [affect_loop]. destruct (Nat.eqb_spec (base.size (affect_pass ts a)) (base.size a)) as [Heq|Hne].
    + exists (affect_pass ts a). split; [done|]. intros n. split; [by apply affect_pass_sound|].
      assert (affect_pass ts a = a) as Hfix.
      { symmetry. apply set_subseteq_size_eq; [apply affect_pass_subset|lia]. }
      rewrite Hfix. induction 1 as [n Hn|t k Ht Hk _ IHd]; [set_solver|]. by apply (affect_pass_fixed a t k).
    + apply IH.
      * by apply affect_pass_sound.
      * etrans; [done|apply affect_pass_subset].
      * etrans; [apply affect_pass_names|]. set_solver.
      * assert (base.size a <= base.size (affect_pass ts a)) by apply subseteq_size, affect_pass_subset. lia.
Qed.
End closure.

Lemma size_list_to_set_le (l : list string) : base.size (list_to_set l : gset string) <= length l.
Proof.
  induction l as [|x l IH]; [done|]. cbn [list_to_set length]. rewrite size_union_alt, size_singleton.
  pose proof (subseteq_size ((list_to_set l : gset string) ∖ {[x]}) (list_to_set l) ltac:(set_solver)). lia.
Qed.

Section affected.
Context (d : SchemaDiff) (decisions : GenerationDecisions) (b : BackendType) (p q : PhysicalSchema).

Definition touched_table (t : PhysicalTable) : Prop :=
  targetTableName (table_name t) decisions ∈ changedTables d b
  \/ tableNamed q (targetTableName (table_name t) decisions) = None.

Lemma directlyAffected_spec n :
  n ∈ directlyAffected d decisions b p q <-> exists t, t ∈ tables p /\ table_name t = n /\ touched_table t.
Proof.
  unfold directlyAffected, touched_table. rewrite elem_of_list_to_set, list_elem_of_fmap. split.
  - intros (t & -> & (Ht & Hc)%list_elem_of_In%List.filter_In). exists t. rewrite list_elem_of_In.
    split; [done|]. split; [done|]. apply orb_true_iff in Hc. rewrite bool_decide_eq_true in Hc.
    destruct (tableNamed q _); naive_solver.
  - intros (t & Ht & <- & Hc). exists t. split; [done|]. apply list_elem_of_In, List.filter_In.
    rewrite <- list_elem_of_In. split; [done|]. apply orb_true_iff. rewrite bool_decide_eq_true.
    destruct Hc as [?|Hc]; [by left|right; by rewrite Hc].
Qed.

Lemma affectedTables_spec :
  exists r, affect_loop (S (length (tables p))) (tables p) (directlyAffected d decisions b p q) = Some r /\
    forall n, n ∈ r <-> depends (tables p) (directlyAffected d decisions b p q) n.
Proof.
  apply affect_loop_spec; [by constructor|done| |].
  - intros n (t & Ht & <- & _)%directlyAffected_spec. apply elem_of_list_to_set. by apply list_elem_of_fmap_2.
  - pose proof (size_list_to_set_le (map table_name (tables p))). rewrite length_map in *. lia.
Qed.
End affected.

(** The loop that collects the tables a native script detaches ends, within one
    pass per table, and collects exactly the source tables that change or go and
    those from which a chain of foreign keys leads to one of them: no foreign key
    of another table refers to a table that is altered. *)
Theorem nativeAffectedSources_closure d decisions b p q :
  BackendMap.find b (backends (before d)) = Some p -> BackendMap.find b (backends (after d)) = Some q ->
  exists affected, nativeAffectedSources d decisions b = Ok affected /\
    affect_loop (S (length (tables p))) (tables p) (directlyAffected d decisions b p q) = Some affected /\
    (forall n, n ∈ affected <-> depends (tables p) (directlyAffected d decisions b p q) n) /\
    (forall n, n ∈ directlyAffected d decisions b p q <->
       exists t, t ∈ tables p /\ table_name t = n /\ touched_table d decisions b q t).
Proof.
  intros Hp Hq. destruct (affectedTables_spec d decisions b p q) as (r & Hr & Hdep). exists r.
  split; [|split; [done|split; [done|apply directlyAffected_spec]]].
  unfold nativeAffectedSources, BackendMap.at_. rewrite Hp, Hq. cbn [or_throw]. rewrite !bind_Ok.
  unfold affectedTables. by rewrite Hr.
Qed.

(** *** Generation *)
Section generated.
Context `{JsonLibrary}.

Lemma fail_if_Ok_iff c code message path b u : fail_if c code message path b = Ok u <-> c = false.
Proof. destruct c, u; naive_solver. Qed.

(** The loop over the backends gives one script for each. *)
Lemma foldM_emplace {V W} (g : BackendType * V -> res W) l m r :
  foldM (fun ss kv => s ← g kv; Ok (BackendMap.emplace kv.1 s ss)) m l = Ok r ->
  exists ss, Forall2 (fun kv s => g kv = Ok s) l ss /\ r = emplace_all (zip (map fst l) ss) m.
Proof.
  revert m. induction l as [|kv l IH]; intros m; cbn [foldM].
  - intros [= <-]. by exists [].
  - intros (m' & (s & Hs & [= <-])%bind_Ok_iff & (ss & Hss & ->)%IH)%bind_Ok_iff.
    exists (s :: ss). split; [by constructor|done].
Qed.

Lemma map_fst_zip {A B} (l : list A) (k : list B) : length l = length k -> map fst (zip l k) = l.
Proof. revert k. induction l as [|x l IH]; intros [|y k]; simpl; intros [=]; [done|]. f_equal. auto. Qed.

Lemma foldM_emplace_sorted {V W} (g : BackendType * V -> res W) l r :
  BackendMap.sorted l -> foldM (fun ss kv => s ← g kv; Ok (BackendMap.emplace kv.1 s ss)) [] l = Ok r ->
  map fst r = map fst l /\ forall b s, (b, s) ∈ r -> exists v, (b, v) ∈ l /\ g (b, v) = Ok s.
Proof.
  intros Hl (ss & Hss & ->)%foldM_emplace. pose proof (Forall2_length _ _ _ Hss) as Hlen.
  assert (Hfst : map fst (zip (map fst l) ss) = map fst l) by (apply map_fst_zip; by rewrite length_map).
  assert (Hz : BackendMap.sorted (zip (map fst l) ss)).
  { clear Hss. revert ss Hlen Hfst. induction Hl as [|kv l Hl IH Hall]; intros [|s ss]; simpl; intros [=] Hfst; [constructor|].
    constructor; [apply IH; [done|congruence]|]. rewrite Forall_forall in Hall. apply Forall_forall. intros [c w] Hin. cbn [fst].
    apply list_elem_of_In, in_combine_l, list_elem_of_In, list_elem_of_fmap in Hin as (x & -> & Hx). by apply Hall. }
  destruct (emplace_all_spec (zip (map fst l) ss) []) as [Hs Hp];
    [rewrite app_nil_r, Hfst; by apply sorted_NoDup|constructor|]. rewrite app_nil_r in Hp.
  rewrite (sorted_Permutation_eq _ _ Hs Hz Hp). split; [done|].
  intros b s Hin. apply list_elem_of_lookup_1 in Hin as [i Hi]. apply lookup_zip_Some in Hi as [Hb Hs'].
  apply list_lookup_fmap_Some in Hb as ([b' v] & -> & Hv). exists v. split; [by eapply list_elem_of_lookup_2|].
  by apply (Forall2_lookup_lr _ _ _ _ _ _ Hss Hv Hs').
Qed.

(** The two directions of one backend's scripts. *)
Definition direction_ok (version : Z) (direction : string) (d : SchemaDiff) (decisions : GenerationDecisions)
    (b : BackendType) (script : string) (context : MigrationExecutionContext) : Prop :=
  direction_sql version direction d decisions b = Ok (script, context) /\
  validateScript script b version = Ok tt /\
  ctx_source context = BackendMap.find b (backends (before d)) /\
  ctx_target context = BackendMap.find b (backends (after d)) /\
  is_Some (ctx_source context) /\ is_Some (ctx_target context).

Lemma direction_context version direction d decisions b script context :
  direction_sql version direction d decisions b = Ok (script, context) ->
  ctx_source context = BackendMap.find b (backends (before d)) /\
  ctx_target context = BackendMap.find b (backends (after d)) /\
  is_Some (ctx_source context) /\ is_Some (ctx_target context).
Proof.
  unfold direction_sql. case_bool_decide as Hb.
  - subst. unfold sqliteSql. intros (p & Hp & (q & Hq & ([sql c] & Hs & [= <- <-])%bind_Ok_iff)%bind_Ok_iff)%bind_Ok_iff.
    apply or_throw_Ok_iff in Hp, Hq. unfold sqliteStatements in Hs.
    apply bind_Ok_iff in Hs as ([copies c'] & _ & (drops & _ & (renames & _ & (creates & _ & [= _ <-])%bind_Ok_iff)%bind_Ok_iff)%bind_Ok_iff).
    cbn [ctx_source ctx_target]. rewrite Hp, Hq. by split_and?.
  - unfold nativeContext. intros (sql & _ & (c & (p & Hp & (q & Hq & (a & _ & [= <-])%bind_Ok_iff)%bind_Ok_iff)%bind_Ok_iff & [= _ <-])%bind_Ok_iff)%bind_Ok_iff.
    apply or_throw_Ok_iff in Hp, Hq. cbn [ctx_source ctx_target]. rewrite Hp, Hq. by split_and?.
Qed.

Lemma generateScripts_Ok version d inverse decisions inverseOptions b p s :
  generateScripts version d inverse decisions inverseOptions b p = Ok s ->
  snapshotHash (before d) b = Ok (beforeHash s) /\ snapshotHash (after d) b = Ok (afterHash s) /\
  direction_ok version "up" d decisions b (up s) (upContext s) /\
  (forall script, down s = Some script -> direction_ok version "down" inverse inverseOptions b script (downContext s)) /\
  (down s = None -> downContext s = empty_context) /\
  (is_Some (down s) <-> reverseReady inverse d decisions inverseOptions b = true).
Proof.
  unfold generateScripts.
  intros (q & _ & (_ & (hb & Hhb & (ha & Hha & ([sql c] & Hup & ([rev rc] & Hrev & Hval)%bind_Ok_iff)%bind_Ok_iff)%bind_Ok_iff)%bind_Ok_iff)%seq_Ok_iff)%bind_Ok_iff.
  apply seq_Ok_iff in Hval as (Hvup & (Hvdown & [= <-])%seq_Ok_iff). cbn [up down upContext downContext beforeHash afterHash].
  split; [done|]. split; [done|]. split.
  { split; [done|]. split; [done|]. by apply direction_context in Hup. }
  destruct (reverseReady inverse d decisions inverseOptions b).
  - apply seq_Ok_iff in Hrev as (_ & ([rsql rctx] & Hr & [= <- <-])%bind_Ok_iff).
    split; [|split; [done|by split]]. intros script [= <-].
    split; [done|]. split; [done|]. by apply direction_context in Hr.
  - injection Hrev as <- <-. split; [done|]. split; [done|]. by split; [intros [? ?]|].
Qed.

Lemma resolved_quiet s1 s2 decisions d :
  compare s1 s2 decisions = Ok d -> resolved d = true -> diagnostics d = [].
Proof.
  intros He%compare_errors [Hr _]%andb_true_iff. apply negb_true_iff in Hr.
  destruct (diagnostics d) as [|i ds]; [done|]. apply Forall_cons in He as [He _]. simpl in Hr. by rewrite He in Hr.
Qed.

Lemma generate_Ok version name supplied decisions m d :
  generate version name supplied decisions = Ok (m, d) ->
  (0 < version)%Z /\ name <> "" /\ forallb_char portable_char name = true /\
  compare (before supplied) (after supplied) decisions = Ok d /\ resolved d = true /\ changes d <> [] /\
  exists inverse ss,
    compare (after d) (before d) (inverseDecisions decisions) = Ok inverse /\
    foldM (fun ss kv => s ← generateScripts version d inverse decisions (inverseDecisions decisions) kv.1 kv.2;
                        Ok (BackendMap.emplace kv.1 s ss)) [] (backends (before d)) = Ok ss /\
    m = MkMigration version name ss (before d) (after d).
Proof.
  unfold generate. intros (Hargs%fail_if_Ok_iff & (d' & Hd & Hgen)%bind_Ok_iff)%seq_Ok_iff.
  destruct (resolved d') eqn:Hr; [|done]. cbn [negb] in Hgen.
  apply seq_Ok_iff in Hgen as (Hne%fail_if_Ok_iff & Hgen). cbv zeta in Hgen.
  apply bind_Ok_iff in Hgen as (inverse & Hinv & (ss & Hss & [= <- ->])%bind_Ok_iff).
  bool_to_prop. split_and?; try done. by exists inverse, ss.
Qed.
End generated.

(** A generated migration is complete and checked: its version is positive and
    its name portable; it is made from the comparison of the two snapshots, which
    has changes and nothing unresolved; it has a script for exactly the backends
    of the snapshots, and every script, in both directions, passes the script
    validation and carries the schemas it starts from and ends with and the hashes
    of both snapshots. *)
Theorem generate_complete `{JsonLibrary} version name supplied decisions m d :
  BackendMap.sorted (backends (before supplied)) ->
  generate version name supplied decisions = Ok (m, d) ->
  (0 < version)%Z /\ name <> "" /\ forallb_char portable_char name = true /\
  compare (before supplied) (after supplied) decisions = Ok d /\ changes d <> [] /\ diagnostics d = [] /\
  version_of m = version /\ migration_name m = name /\
  migration_before m = canonicalize (before supplied) /\ migration_after m = canonicalize (after supplied) /\
  map fst (scripts m) = map fst (backends (before supplied)) /\
  exists inverse, compare (after d) (before d) (inverseDecisions decisions) = Ok inverse /\
    forall b s, (b, s) ∈ scripts m ->
      snapshotHash (before d) b = Ok (beforeHash s) /\ snapshotHash (after d) b = Ok (afterHash s) /\
      direction_ok version "up" d decisions b (up s) (upContext s) /\
      (forall script, down s = Some script ->
         direction_ok version "down" inverse (inverseDecisions decisions) b script (downContext s)) /\
      (down s = None -> downContext s = empty_context).
Proof.
  intros Hsorted (Hv & Hn & Hp & Hd & Hr & Hc & inverse & ss & Hinv & Hss & ->)%generate_Ok.
  pose proof Hd as (_ & _ & Hb & Ha)%compare_changes_ok.
  cbn [version_of migration_name migration_before migration_after scripts].
  apply foldM_emplace_sorted in Hss as [Hfst Hss]; [|rewrite Hb; by apply canonicalize_map_sorted].
  pose proof (resolved_quiet _ _ _ _ Hd Hr) as Hdiag.
  split_and?; try done.
  - rewrite Hfst, Hb. unfold canonicalize. cbn [backends]. rewrite map_map. by apply map_ext.
  - exists inverse. split; [done|]. intros b s Hin. destruct (Hss b s Hin) as (p & _ & Hs).
    apply generateScripts_Ok in Hs. tauto.
Qed.

(** The reverse of a difference can be generated on a backend: its comparison has no
    problem and nothing unresolved there, no table is dropped, and every dropped column
    has something to fill it with. *)
Definition reversible (inverse forward : SchemaDiff) (decisions : GenerationDecisions) (b : BackendType) : Prop :=
  (forall i, i ∈ diagnostics inverse -> diag_error i = true -> diag_backend i <> b /\ diag_backend i <> Empty) /\
  (forall c, c ∈ changes inverse -> change_backend c = b -> unresolved c = false) /\
  (forall c, c ∈ changes forward -> change_backend c = b ->
     kind c <> DropTable /\
     (kind c = DropColumn ->
        exists fill, findTransformation (downBackfills decisions) (sourceTable (change_table c) decisions)
                       (change_column c) = Some fill /\
          (is_Some (constant fill) \/ is_Some (sourceColumn fill)
           \/ is_Some (BackendMap.find b (expressions fill))))).

Lemma is_some_iff {A} (o : option A) : is_some o = true <-> is_Some o.
Proof. destruct o; split; [by eexists|done|done|by intros []]. Qed.

Lemma existsb_none {A} (f : A -> bool) l : existsb f l = false <-> forall x, x ∈ l -> f x = false.
Proof.
  induction l as [|y l IH]; simpl; [split; [by intros _ x ?%not_elem_of_nil|done]|].
  rewrite orb_false_iff, IH. split.
  - intros [Hy Hl] x [->|Hx]%elem_of_cons; auto.
  - intros Hl. split; [|intros x Hx]; apply Hl, elem_of_cons; auto.
Qed.

Lemma restorable_iff decisions b c :
  restorable decisions (inverseDecisions decisions) b c = true <->
  (change_backend c = b ->
     kind c <> DropTable /\
     (kind c = DropColumn ->
        exists fill, findTransformation (downBackfills decisions) (sourceTable (change_table c) decisions)
                       (change_column c) = Some fill /\
          (is_Some (constant fill) \/ is_Some (sourceColumn fill)
           \/ is_Some (BackendMap.find b (expressions fill))))).
Proof.
  unfold restorable. cbn [inverseDecisions backfills]. case_bool_decide as Hb; simpl; [|by split].
  case_bool_decide as Ht; [split; [done|]; intros H; by destruct (H Hb)|].
  case_bool_decide as Hc; [|split; [|done]; intros _ _; by split].
  destruct (findTransformation _ _ _) as [fill|].
  - rewrite !orb_true_iff, !is_some_iff, BackendMap.contains_true. split.
    + intros Hfill _. split; [done|]. intros _. exists fill. split; [done|]. tauto.
    + intros H. destruct (H Hb) as [_ H']. destruct (H' Hc) as (? & [= <-] & ?). tauto.
  - split; [done|]. intros H. destruct (H Hb) as [_ H']. by destruct (H' Hc) as (? & ? & _).
Qed.

Lemma reverseReady_iff inverse forward decisions b :
  reverseReady inverse forward decisions (inverseDecisions decisions) b = true <-> reversible inverse forward decisions b.
Proof.
  unfold reverseReady, reversible. rewrite andb_true_iff, negb_true_iff, orb_false_iff, !existsb_none, forallb_forall.
  split.
  - intros [[Hi Hc] Hr]. split_and!.
    + intros i Hin He. specialize (Hi i Hin). rewrite He in Hi. apply orb_false_iff in Hi as [? ?]. by bool_to_prop.
    + intros c Hin Hb. specialize (Hc c Hin). rewrite bool_decide_true in Hc by done. done.
    + intros c Hin. apply restorable_iff, Hr. by apply list_elem_of_In.
  - intros (Hi & Hc & Hr). split_and!.
    + intros i Hin. destruct (diag_error i) eqn:He; [|done]. destruct (Hi i Hin He). by rewrite !bool_decide_false.
    + intros c Hin. case_bool_decide; [|done]. by apply Hc.
    + intros c Hin%list_elem_of_In. by apply restorable_iff, Hr.
Qed.

(** C36: No generated script loses data that was not given up: every change of the
    forward script that loses data is approved by its identifier, and a backend
    has a reverse script exactly when the reverse comparison has no problem and
    nothing unresolved there, no table is dropped, and every dropped column has
    something to fill it with; the data the reverse script loses is approved too. *)
Theorem generate_approved `{JsonLibrary} version name supplied decisions m d :
  BackendMap.sorted (backends (before supplied)) ->
  generate version name supplied decisions = Ok (m, d) ->
  (forall c, c ∈ changes d -> dataLoss c = true -> change_id c ∈ allowDataLossUp decisions) /\
  exists inverse, compare (after d) (before d) (inverseDecisions decisions) = Ok inverse /\
    forall b s, (b, s) ∈ scripts m ->
      (is_Some (down s) <-> reversible inverse d decisions b) /\
      (is_Some (down s) ->
         forall c, c ∈ changes inverse -> change_backend c = b -> dataLoss c = true ->
           change_id c ∈ allowDataLossDown decisions).
Proof.
  intros Hsorted (_ & _ & _ & Hd & Hr & _ & inverse & ss & Hinv & Hss & ->)%generate_Ok.
  pose proof Hd as (Hall & _ & Hb & _)%compare_changes_ok. rewrite Forall_forall in Hall.
  unfold resolved in Hr. apply andb_true_iff in Hr as [_ Hr]. apply negb_true_iff in Hr. rewrite existsb_none in Hr.
  split; [intros c Hc Hl; by apply (Hall c Hc), Hr|]. exists inverse. split; [done|].
  cbn [scripts]. apply foldM_emplace_sorted in Hss as [_ Hss]; [|rewrite Hb; by apply canonicalize_map_sorted].
  intros b s Hin. destruct (Hss b s Hin) as (p & _ & (_ & _ & _ & _ & _ & Hready)%generateScripts_Ok).
  rewrite reverseReady_iff in Hready. split; [exact Hready|]. intros (_ & Hquiet & _)%Hready c Hc Hcb Hl.
  apply compare_changes_ok in Hinv as (Hi & _). rewrite Forall_forall in Hi. apply (Hi c Hc); [done|]. by apply Hquiet.
Qed.

(** The creation of the table of posts, whose reverse drops it. *)
#[local] Instance fixed_text : JsonLibrary := {| dump := fun _ => Ok "{}"; parse := fun _ => ([], Ok JNull) |}.
Definition sample_creation : GenerationDecisions :=
  MkDecisions [] [] [] ["sqlite/drop-table/posts"] [] [] [] [].
Definition sample_supplied : SchemaDiff := MkDiff sample_without_posts sample_snapshot [] [].

(** A change of the table of users detaches the table of posts too, whose foreign
    key refers to it. *)
Definition sample_change : SchemaDiff :=
  MkDiff sample_snapshot sample_snapshot
    [MkChange AlterColumn Sqlite "sqlite/alter-column/users/id" "users" "id" "" "" false false] [].

Lemma nativeAffectedSources_closure_witness :
  exists affected, nativeAffectedSources sample_change no_decisions Sqlite = Ok affected /\
    "users" ∈ affected /\ "posts" ∈ affected.
Proof.
  destruct (nativeAffectedSources_closure sample_change no_decisions Sqlite sample_schema sample_schema
    eq_refl eq_refl) as (affected & H & _ & Hdep & Hdirect).
  exists affected. split; [done|].
  assert ("users" ∈ directlyAffected sample_change no_decisions Sqlite sample_schema sample_schema) as Hu
    by (apply (bool_decide_unpack _); vm_compute; reflexivity).
  split; apply Hdep; [by apply depends_start|].
  refine (depends_key _ _ sample_posts
    (MkForeignKey "fk1" ["author_id"] "users" ["id"] "NO ACTION" "NO ACTION") _ _ _); [left|left|].
  by apply depends_start.
Defined.

Lemma generate_complete_witness :
  exists m d, generate 7 "add-posts" sample_supplied sample_creation = Ok (m, d) /\
    map fst (scripts m) = [Sqlite] /\ changes d <> [].
Proof.
  destruct (generate 7 "add-posts" sample_supplied sample_creation) as [[m d]|e] eqn:H;
    [|vm_compute in H; discriminate H].
  exists m, d. split; [done|].
  destruct (generate_complete 7 "add-posts" sample_supplied sample_creation m d ltac:(repeat constructor) H)
    as (_ & _ & _ & _ & Hc & _ & _ & _ & _ & _ & Hs & _). by split.
Defined.

Lemma generate_approved_witness :
  exists m d inverse, generate 7 "add-posts" sample_supplied sample_creation = Ok (m, d) /\
    compare (after d) (before d) (inverseDecisions sample_creation) = Ok inverse /\
    forall c, c ∈ changes inverse -> change_backend c = Sqlite -> dataLoss c = true ->
      change_id c = "sqlite/drop-table/posts".
Proof.
  destruct (generate 7 "add-posts" sample_supplied sample_creation) as [[m d]|e] eqn:H;
    [|vm_compute in H; discriminate H].
  destruct (generate_approved 7 "add-posts" sample_supplied sample_creation m d ltac:(repeat constructor) H)
    as (_ & inverse & Hinv & Hdown).
  assert (exists s, (Sqlite, s) ∈ scripts m /\ is_Some (down s)) as (s & Hin & Hs).
  { vm_compute in H. injection H as <- <-. eexists. split; [left|by eexists]. }
  destruct (Hdown Sqlite s Hin) as (_ & Hall). exists m, d, inverse.
  split; [done|]. split; [done|]. intros c Hc Hb Hl. specialize (Hall Hs c Hc Hb Hl).
  by apply list_elem_of_singleton in Hall.
Defined.

(** *** The SQLite rebuild *)

(** A source table that is rebuilt, with its target. *)
Definition rebuilt_pair (changed : gset string) (q : PhysicalSchema) (decisions : GenerationDecisions)
    (s : PhysicalTable) : option (PhysicalTable * PhysicalTable) :=
  match tableNamed q (targetTableName (table_name s) decisions) with
  | Some u => if bool_decide (table_name u ∈ changed) then Some (s, u) else None
  | None => None
  end.

(** A source table that goes or is rebuilt. *)
Definition is_touched (changed : gset string) (q : PhysicalSchema) (decisions : GenerationDecisions)
    (s : PhysicalTable) : bool :=
  match tableNamed q (targetTableName (table_name s) decisions) with
  | Some u => bool_decide (table_name u ∈ changed)
  | None => true
  end.

Definition rebuild_record (version : Z) (direction : string) (su : PhysicalTable * PhysicalTable) : RebuildTable :=
  MkRebuild (table_name su.1) (table_name su.2)
    (temporaryName version direction (table_name su.1) (table_name su.2) "__orm_rebuild_")
    (identity su.1) (identity su.2).

Section rebuild.
Context (version : Z) (direction : string) (changed : gset string) (q : PhysicalSchema)
  (decisions : GenerationDecisions).

Lemma rebuild_fold l sql c sql' c' :
  foldM (rebuildSource version direction changed q decisions) (sql, c) l = Ok (sql', c') ->
  exists groups,
    Forall2 (fun su g => copyTable (rb_staging (rebuild_record version direction su)) su.1 su.2 decisions = Ok g)
      (omap (rebuilt_pair changed q decisions) l) groups /\
    sql' = (sql ++ concat groups)%list /\
    ctx_tables c' = (ctx_tables c ++ map table_name (List.filter (is_touched changed q decisions) l))%list /\
    rebuildTables c' =
      (rebuildTables c ++ map (rebuild_record version direction) (omap (rebuilt_pair changed q decisions) l))%list /\
    mode c' = (if bool_decide (List.filter (is_touched changed q decisions) l = []) then mode c else SqliteRebuild).
Proof.
  revert sql c. induction l as [|s l IH]; intros sql c.
  - intros [= <- <-]. exists []. cbn. rewrite !app_nil_r. by repeat split.
  - cbn [foldM]. intros ([sql1 c1] & H1 & H)%bind_Ok_iff. apply IH in H as (groups & Hg & -> & Ht & Hr & Hm).
    cbn [List.filter omap list_omap]. unfold rebuildSource in H1.
    assert (is_touched changed q decisions s = match tableNamed q (targetTableName (table_name s) decisions) with
      Some u => bool_decide (table_name u ∈ changed) | None => true end) as -> by reflexivity.
    assert (rebuilt_pair changed q decisions s = match tableNamed q (targetTableName (table_name s) decisions) with
      Some u => if bool_decide (table_name u ∈ changed) then Some (s, u) else None | None => None end) as -> by reflexivity.
    destruct (tableNamed q _) as [u|].
    + destruct (bool_decide (table_name u ∈ changed)); cbn [negb] in H1.
      * apply bind_Ok_iff in H1 as (g & Hcopy & [= <- <-]). exists (g :: groups). cbn [ctx_tables rebuildTables mode] in *.
        split; [by constructor|]. cbn [concat map]. rewrite Ht, Hr, Hm, <- !app_assoc.
        rewrite (bool_decide_false (s :: _ = [])) by done. split; [done|]. split; [done|]. split; [done|].
        by destruct (bool_decide _).
      * injection H1 as <- <-. by exists groups.
    + injection H1 as <- <-. exists groups. cbn [ctx_tables rebuildTables mode map] in *.
      rewrite Ht, Hr, Hm, <- !app_assoc. rewrite (bool_decide_false (s :: _ = [])) by done.
      split; [done|]. split; [done|]. split; [done|]. split; [done|]. by destruct (bool_decide _).
Qed.
End rebuild.

(** The parts of an SQLite script and its context. *)
Lemma sqliteStatements_Ok version direction d decisions p q sql c :
  sqliteStatements version direction d decisions p q = Ok (sql, c) ->
  let changed := changedTables d Sqlite in
  let touched := List.filter (is_touched changed q decisions) (tables p) in
  let pairs := omap (rebuilt_pair changed q decisions) (tables p) in
  ctx_tables c = map table_name touched /\ rebuildTables c = map (rebuild_record version direction) pairs /\
  (mode c = SqliteRebuild <-> touched <> []) /\ ctx_source c = Some p /\ ctx_target c = Some q /\
  exists copies drops renames creates,
    sql = (concat copies ++ drops ++ concat renames ++ concat creates)%list /\
    Forall2 (fun su g => copyTable (rb_staging (rebuild_record version direction su)) su.1 su.2 decisions = Ok g)
      pairs copies /\
    Forall2 (fun t s => statement Sqlite [Text "DROP TABLE "; Name (table_name t)] = Ok s) touched drops /\
    Forall2 (fun su g => finishRebuild q (rebuild_record version direction su) = Ok g) pairs renames /\
    Forall2 (fun t g => createNew p decisions t = Ok g) (tables q) creates.
Proof.
  unfold sqliteStatements. intros ([copies c1] & H1 & H)%bind_Ok_iff. cbv zeta.
  apply bind_Ok_iff in H as (drops & Hd & (renames & Hr & (creates & Hc & [= <- <-])%bind_Ok_iff)%bind_Ok_iff).
  apply rebuild_fold in H1 as (groups & Hg & -> & Ht & Hrt & Hm).
  cbn [empty_context ctx_tables rebuildTables mode app] in *. rewrite Ht, Hrt, Hm.
  split; [done|]. split; [done|]. split; [case_bool_decide; naive_solver|]. split; [done|]. split; [done|].
  exists groups, drops, renames, creates. split; [done|]. split; [done|].
  apply mapM_Ok_iff in Hd, Hr, Hc. rewrite Ht in Hd. rewrite Hrt in Hr.
  apply Forall2_fmap_l in Hd, Hr. done.
Qed.
