(* ===== verification/Renames.v ===== *)
(** Renames: what the renames of the decisions do to the tables when a native script
    carries them out, and how the inverse decisions undo them
    (src/migrations/SchemaGeneration.cpp, with the checks of SchemaDiff.cpp). *)
From S2P Require Import Prelude Foundation Chrono Values Codec Schema Sha256 Models PhysicalSql Snapshot Diff SqlValidation Literals SchemaJson Generation.
Local Open Scope string_scope.

(** ** Executing renames *)

(** The effect of one rename on the tables (or columns) by name: it fails when the
    old name is unknown or the new one is taken. *)
Definition rename_step {A} (db : gmap string A) (step : string * string) : option (gmap string A) :=
  match db !! step.1, db !! step.2 with
  | Some v, None => Some (<[step.2 := v]> (delete step.1 db))
  | _, _ => None
  end.
Fixpoint rename_all {A} (db : gmap string A) (steps : list (string * string)) : option (gmap string A) :=
  match steps with
  | [] => Some db
  | step :: steps => db ← rename_step db step; rename_all db steps
  end.

Section renames.
Context {A : Type}.

Lemma rename_all_app (db : gmap string A) l k :
  rename_all db (l ++ k)%list = (db' ← rename_all db l; rename_all db' k).
Proof. revert db. induction l as [|s l IH]; intros db; simpl; [done|]. destruct (rename_step db s); simpl; auto. Qed.

(** Renames whose sources are there and whose distinct targets are not, and are no
    sources, all succeed. *)
Lemma rename_all_fresh (db : gmap string A) steps :
  NoDup (map fst steps) -> NoDup (map snd steps) ->
  (forall s, s ∈ steps -> is_Some (db !! s.1) /\ db !! s.2 = None) ->
  exists db', rename_all db steps = Some db' /\
    (forall s, s ∈ steps -> db' !! s.2 = db !! s.1) /\
    (forall s, s ∈ steps -> db' !! s.1 = None) /\
    (forall n, (n ∉ map fst steps) -> (n ∉ map snd steps) -> db' !! n = db !! n).
Proof.
  revert db. induction steps as [|[x y] steps IH]; intros db Hfst Hsnd Hok; simpl.
  - exists db. split; [done|]. split; [by intros s ?%not_elem_of_nil|]. split; [by intros s ?%not_elem_of_nil|done].
  - cbn [map fst snd] in Hfst, Hsnd. apply NoDup_cons in Hfst as [Hx Hfst], Hsnd as [Hy Hsnd].
    destruct (Hok (x, y)) as [[v Hv] Hfree]; [left|]. cbn [fst snd] in Hv, Hfree.
    assert (x <> y) as Hxy by congruence.
    unfold rename_step. cbn [fst snd]. rewrite Hv, Hfree. cbn [mbind option_bind].
    assert (forall s, s ∈ steps -> s.1 <> x /\ s.2 <> y /\ s.1 <> y /\ s.2 <> x) as Hne.
    { intros s Hs. destruct (Hok s) as [[w Hw] Hf]; [by right|].
      split_and?; intros Heq; [apply Hx|apply Hy|congruence|congruence]; rewrite <- Heq; by apply list_elem_of_fmap_2. }
    destruct (IH (<[y:=v]> (delete x db))) as (db' & Hall & Hto & Hfrom & Hother); [done|done| |].
    + intros s Hs. destruct (Hne s Hs) as (? & ? & ? & ?). rewrite !lookup_insert_ne, !lookup_delete_ne by done.
      apply Hok. by right.
    + exists db'. split; [done|]. split; [|split].
      * intros s [->|Hs]%elem_of_cons; cbn [fst snd].
        -- rewrite Hother; [by rewrite lookup_insert_eq|..].
           ++ intros (s & Heq & Hs)%list_elem_of_fmap. destruct (Hne s Hs) as (? & ? & ? & ?). congruence.
           ++ done.
        -- rewrite (Hto s Hs). destruct (Hne s Hs) as (? & ? & ? & ?).
           by rewrite lookup_insert_ne, lookup_delete_ne by done.
      * intros s [->|Hs]%elem_of_cons; cbn [fst snd]; [|by apply Hfrom].
        rewrite Hother; [rewrite lookup_insert_ne by done; by rewrite lookup_delete_eq|done|].
        intros (s & Heq & Hs)%list_elem_of_fmap. destruct (Hne s Hs) as (? & ? & ? & ?). congruence.
      * intros n Hn1 Hn2. cbn [map fst snd] in Hn1, Hn2. rewrite not_elem_of_cons in Hn1, Hn2.
        rewrite Hother by tauto. rewrite lookup_insert_ne, lookup_delete_ne by naive_solver. done.
Qed.
End renames.

Section two_phase.
Context {A : Type} (stage : string * string -> string).

(** Renaming through fresh names is the simultaneous renaming. *)
Lemma two_phase (db : gmap string A) pairs :
  NoDup (map fst pairs) -> NoDup (map snd pairs) -> NoDup (map stage pairs) ->
  (forall p, p ∈ pairs -> is_Some (db !! p.1) /\ (db !! p.2 = None \/ p.2 ∈ map fst pairs)) ->
  (forall p, p ∈ pairs -> db !! stage p = None /\ (stage p ∉ map snd pairs)) ->
  exists db', rename_all db (map (fun p => (p.1, stage p)) pairs ++ map (fun p => (stage p, p.2)) pairs)%list = Some db' /\
    (forall p, p ∈ pairs -> db' !! p.2 = db !! p.1) /\
    (forall n, (n ∉ map snd pairs) -> db' !! n = if decide (n ∈ map fst pairs) then None else db !! n).
Proof.
  intros Hfrom Hto Hst Hdb Hfresh. rewrite rename_all_app.
  destruct (rename_all_fresh db (map (fun p => (p.1, stage p)) pairs)) as (mid & -> & Hmid & Hgone & Hsame).
  { by rewrite map_map. }
  { by rewrite map_map. }
  { intros s (p & -> & Hp)%list_elem_of_fmap. cbn [fst snd]. split; [by apply Hdb|by apply Hfresh]. }
  rewrite !map_map in Hsame. cbn [fst snd] in Hsame. cbn [mbind option_bind].
  assert (forall p, p ∈ pairs -> mid !! stage p = db !! p.1) as Hstage.
  { intros p Hp. apply (Hmid (p.1, stage p)). by apply (list_elem_of_fmap_2 (fun p => (p.1, stage p))). }
  assert (forall p, p ∈ pairs -> mid !! p.2 = None) as Hfree.
  { intros p Hp. destruct (decide (p.2 ∈ map fst pairs)) as [(r & Hr & Hrin)%list_elem_of_fmap|Hno].
    - rewrite Hr. apply (Hgone (r.1, stage r)). by apply (list_elem_of_fmap_2 (fun p => (p.1, stage p))).
    - rewrite Hsame.
      + destruct (Hdb p Hp) as [_ [?|?]]; done.
      + done.
      + intros (r & Hr & Hrin)%list_elem_of_fmap. destruct (Hfresh r Hrin) as [_ Hn]. destruct Hn. rewrite <- Hr.
        by apply list_elem_of_fmap_2. }
  destruct (rename_all_fresh mid (map (fun p => (stage p, p.2)) pairs)) as (db' & -> & Hfinal & Hgone' & Hsame').
  { by rewrite map_map. }
  { by rewrite map_map. }
  { intros s (p & -> & Hp)%list_elem_of_fmap. cbn [fst snd]. rewrite (Hstage p Hp). split; [by apply Hdb|by apply Hfree]. }
  rewrite !map_map in Hsame'. cbn [fst snd] in Hsame'. exists db'. split; [done|]. split.
  - intros p Hp. rewrite <- (Hstage p Hp). apply (Hfinal (stage p, p.2)).
    by apply (list_elem_of_fmap_2 (fun p => (stage p, p.2))).
  - intros n Hn. destruct (decide (n ∈ map stage pairs)) as [(p & -> & Hp)%list_elem_of_fmap|Hns].
    + assert (db' !! stage p = None) as ->.
      { apply (Hgone' (stage p, p.2)). by apply (list_elem_of_fmap_2 (fun p => (stage p, p.2))). }
      destruct (Hfresh p Hp) as [-> _]. by destruct (decide _).
    + rewrite Hsame' by done. destruct (decide (n ∈ map fst pairs)) as [(p & -> & Hp)%list_elem_of_fmap|Hnf].
      * apply (Hgone (p.1, stage p)). by apply (list_elem_of_fmap_2 (fun p => (p.1, stage p))).
      * by apply Hsame.
Qed.
End two_phase.

Lemma temporaryName_reserved version direction source target prefix :
  starts_with "__orm_" prefix = true -> starts_with "__orm_" (temporaryName version direction source target prefix) = true.
Proof.
  unfold temporaryName. intros (t & ->)%starts_with_spec. rewrite app_str_assoc. apply starts_with_app.
Qed.


(** ** Inverse decisions *)
Section inverse.
Context (d : GenerationDecisions).

Lemma inverse_target n : targetTableName n (inverseDecisions d) = sourceTable n d.
Proof.
  unfold targetTableName, sourceTable, inverseDecisions. cbn [tableRenames].
  induction (tableRenames d) as [|r l IH]; [done|]. cbn [map]. unfold find_by in *. cbn [List.find tr_from].
  case_bool_decide; [done|exact IH].
Qed.

Lemma inverse_source n : sourceTable n (inverseDecisions d) = targetTableName n d.
Proof.
  unfold targetTableName, sourceTable, inverseDecisions. cbn [tableRenames].
  induction (tableRenames d) as [|r l IH]; [done|]. cbn [map]. unfold find_by in *. cbn [List.find tr_to].
  case_bool_decide; [done|exact IH].
Qed.

Lemma sourceTable_unchanged n : (n ∉ map tr_to (tableRenames d)) -> sourceTable n d = n.
Proof.
  intros Hn. unfold sourceTable. destruct (find_by tr_to n _) as [r|] eqn:Hr; [|done].
  apply find_by_Some in Hr as [Hr <-]. destruct Hn. by apply list_elem_of_fmap_2.
Qed.

Lemma targetTableName_unchanged n : (n ∉ map tr_from (tableRenames d)) -> targetTableName n d = n.
Proof.
  intros Hn. unfold targetTableName. destruct (find_by tr_from n _) as [r|] eqn:Hr; [|done].
  apply find_by_Some in Hr as [Hr <-]. destruct Hn. by apply list_elem_of_fmap_2.
Qed.

Context (Hfrom : NoDup (map tr_from (tableRenames d))) (Hto : NoDup (map tr_to (tableRenames d))).

Lemma targetTableName_rename r : r ∈ tableRenames d -> targetTableName (tr_from r) d = tr_to r.
Proof. intros Hr. unfold targetTableName. by rewrite find_by_NoDup. Qed.

Lemma sourceTable_rename r : r ∈ tableRenames d -> sourceTable (tr_to r) d = tr_from r.
Proof. intros Hr. unfold sourceTable. by rewrite find_by_NoDup. Qed.

Lemma target_source n :
  n ∈ map tr_to (tableRenames d) \/ (n ∉ map tr_from (tableRenames d)) ->
  targetTableName (sourceTable n d) d = n.
Proof.
  intros Hn. destruct (decide (n ∈ map tr_to (tableRenames d))) as [(r & -> & Hr)%list_elem_of_fmap|Hno].
  - by rewrite sourceTable_rename, targetTableName_rename.
  - destruct Hn as [?|Hn]; [done|]. by rewrite sourceTable_unchanged, targetTableName_unchanged.
Qed.

Lemma source_target n :
  n ∈ map tr_from (tableRenames d) \/ (n ∉ map tr_to (tableRenames d)) ->
  sourceTable (targetTableName n d) d = n.
Proof.
  intros Hn. destruct (decide (n ∈ map tr_from (tableRenames d))) as [(r & -> & Hr)%list_elem_of_fmap|Hno].
  - by rewrite targetTableName_rename, sourceTable_rename.
  - destruct Hn as [?|Hn]; [done|]. by rewrite targetTableName_unchanged, sourceTable_unchanged.
Qed.
End inverse.


(** ** The renames of a comparison without problems *)

(** Distinct sources that are tables of [p], distinct targets that are tables of
    [q] and, where [p] has a table of that name, sources themselves. *)
Record renames_ok (p q : PhysicalSchema) (d : GenerationDecisions) : Prop := {
  ro_sources : NoDup (map tr_from (tableRenames d));
  ro_targets : NoDup (map tr_to (tableRenames d));
  ro_each : forall r, r ∈ tableRenames d ->
    is_some (tableNamed p (tr_from r)) = true /\ is_some (tableNamed q (tr_to r)) = true /\
    (is_some (tableNamed p (tr_to r)) = true -> tr_to r ∈ map tr_from (tableRenames d))
}.

Section validated.
Context (p q : PhysicalSchema) (dec : GenerationDecisions).

Lemma validateTableRename_quiet d s t r d' seen' :
  validateTableRename p q dec (d, (s, t)) r = (d', seen') -> diagnostics d' = [] ->
  diagnostics d = [] /\ (tr_from r ∉ s) /\ (tr_to r ∉ t) /\
  seen' = ({[tr_from r]} ∪ s, {[tr_to r]} ∪ t) /\
  is_some (tableNamed p (tr_from r)) = true /\ is_some (tableNamed q (tr_to r)) = true /\
  (is_some (tableNamed p (tr_to r)) = true -> tr_to r ∈ map tr_from (tableRenames dec)).
Proof.
  unfold validateTableRename. destruct (insert_rename _ _ _ _ _) as [bad seen] eqn:Hi.
  intros [= <- <-] Hq. unfold problem_if in Hq.
  destruct (is_some (tableNamed p (tr_to r)) && _) eqn:Hc; [by apply app_eq_nil in Hq as [_ ?]|].
  destruct bad; [by apply app_eq_nil in Hq as [_ ?]|]. split; [done|].
  unfold insert_rename in Hi. case_bool_decide; [done|]. case_bool_decide; [done|].
  case_bool_decide; [done|]. injection Hi as Hbad <-. bool_to_prop. split_and?; try done.
  intros Hin. rewrite Hin in Hc. cbn [andb] in Hc. apply negb_false_iff, existsb_exists in Hc as (i & Hi & Hb).
  bool_to_prop. rewrite <- Hb. apply list_elem_of_In in Hi. by apply list_elem_of_fmap_2.
Qed.

Lemma validateTableRenames_quiet rs d s t d' seen' :
  fold_left (validateTableRename p q dec) rs (d, (s, t)) = (d', seen') -> diagnostics d' = [] ->
  diagnostics d = [] /\ NoDup (map tr_from rs) /\ NoDup (map tr_to rs) /\
  forall r, r ∈ rs -> (tr_from r ∉ s) /\ (tr_to r ∉ t) /\
    is_some (tableNamed p (tr_from r)) = true /\ is_some (tableNamed q (tr_to r)) = true /\
    (is_some (tableNamed p (tr_to r)) = true -> tr_to r ∈ map tr_from (tableRenames dec)).
Proof.
  revert d s t. induction rs as [|r rs IH]; intros d s t; cbn [fold_left map].
  - intros [= <- _] Hq. split; [done|]. split; [constructor|]. split; [constructor|]. by intros r ?%not_elem_of_nil.
  - intros H Hq. destruct (validateTableRename p q dec (d, (s, t)) r) as [d1 seen1] eqn:H1.
    destruct seen1 as [s1 t1]. apply IH in H as (Hq1 & Hf & Ht & Hall); [|done].
    apply validateTableRename_quiet in H1 as (Hqd & Hs & Htt & [= -> ->] & H1); [|done].
    split; [done|]. split; [|split].
    + constructor; [|done]. intros (r' & Heq & Hr')%list_elem_of_fmap. destruct (Hall r' Hr') as (Hn & _). set_solver.
    + constructor; [|done]. intros (r' & Heq & Hr')%list_elem_of_fmap. destruct (Hall r' Hr') as (_ & Hn & _). set_solver.
    + intros r' [->|Hr']%elem_of_cons; [tauto|]. destruct (Hall r' Hr') as (? & ? & ?). split; [set_solver|].
      split; [set_solver|done].
Qed.

Lemma validateRenames_ok d : diagnostics (validateRenames d p q dec) = [] -> renames_ok p q dec.
Proof.
  unfold validateRenames. destruct (fold_left _ (tableRenames dec) _) as [d1 seen1] eqn:H1.
  destruct (fold_left _ (columnRenames dec) _) as [d2 seen2] eqn:H2. intros Hq.
  assert (grows dec d1 d2) as Hg.
  { pose proof (fold_left_grows dec (validateColumnRename p q dec) (columnRenames dec) (d1, (∅, ∅))) as Hg.
    rewrite H2 in Hg. apply Hg. intros [e seen] r. unfold validateColumnRename.
    destruct (insert_rename _ _ _ _ _) as [bad seen']. simpl. etrans; apply problem_if_grows. }
  apply (grows_quiet dec) in Hg; [|done].
  apply validateTableRenames_quiet in H1 as (_ & Hf & Ht & Hall); [|done]. split; [done|done|].
  intros r Hr. by destruct (Hall r Hr) as (_ & _ & ?).
Qed.
End validated.

(** A comparison without problems has checked the renames for every backend. *)
Lemma compare_renames_ok s1 s2 dec d b p :
  compare s1 s2 dec = Ok d -> diagnostics d = [] -> (b, p) ∈ backends (before d) ->
  exists q, BackendMap.find b (backends (after d)) = Some q /\ renames_ok p q dec /\
            schema_ok b p /\ schema_ok b q.
Proof.
  intros H Hd Hin. pose proof H as (_ & _ & Hb & Ha)%compare_changes_ok.
  apply compare_Ok in H as ((_ & _ & O1) & (_ & _ & O2) & d1 & Hf & Heq).
  rewrite Hb in Hin. rewrite Ha. specialize (O1 b p Hin).
  assert (diagnostics d1 = []) as Hd1.
  { eapply grows_quiet; [apply (checkApprovals_grows dec (allowDataLossUp dec))|]. rewrite Heq in Hd. exact Hd. }
  destruct (foldM_step (grows dec) _ _ _ _ (b, p) (compareSchemas_grows dec _) Hf Hin) as (e & e' & _ & Hstep & Hg).
  apply (grows_quiet dec) in Hg; [|done]. unfold compareSchemas in Hstep.
  destruct (BackendMap.find b _) as [q|] eqn:Hq;
    [|injection Hstep as <-; by apply app_eq_nil in Hg as [_ ?]].
  exists q. split; [done|]. split; [|split; [done|by apply O2, BackendMap.find_Some_elem]].
  destruct (negb (bool_decide (schema_profile p = schema_profile q))); [injection Hstep as <-; by apply app_eq_nil in Hg as [_ ?]|].
  apply bind_Ok_iff in Hstep as ([d2 m] & H2 & H3).
  apply (validateRenames_ok p q dec e). eapply grows_quiet; [|exact Hg]. transitivity d2; [|grow].
  by apply (foldM_grows_pair dec) in H2; [|apply compareSourceTable_grows].
Qed.

(** The table renames on any tables that include the old names: the new names are
    free or old names themselves, and no table has the generator's prefix. *)
Lemma rename_steps {A} version direction decisions (db : gmap string A) :
  let rs := tableRenames decisions in
  NoDup (map tr_from rs) -> NoDup (map tr_to rs) -> NoDup (map (renameStage version direction) rs) ->
  (forall r, r ∈ rs -> is_Some (db !! tr_from r) /\ (db !! tr_to r = None \/ tr_to r ∈ map tr_from rs)) ->
  (forall n, starts_with "__orm_" n = true -> db !! n = None /\ (n ∉ map tr_to rs)) ->
  exists db', rename_all db (tableRenameSteps version direction decisions) = Some db' /\
    (forall r, r ∈ rs -> db' !! tr_to r = db !! tr_from r) /\
    (forall n, (n ∉ map tr_to rs) -> db' !! n = if decide (n ∈ map tr_from rs) then None else db !! n).
Proof.
  intros rs Hfrom Hto Hst Hdb Hres.
  set (stage := fun p : string * string => renameStage version direction (MkTableRename p.1 p.2)).
  assert (forall r, stage (tr_from r, tr_to r) = renameStage version direction r) as Hs by (by intros []).
  destruct (two_phase stage db (map (fun r => (tr_from r, tr_to r)) rs)) as (db' & Hall & Hdone & Hother).
  - by rewrite map_map.
  - by rewrite map_map.
  - rewrite map_map. by erewrite map_ext by exact Hs.
  - intros p (r & -> & Hr)%list_elem_of_fmap. rewrite map_map. by apply Hdb.
  - intros p (r & -> & Hr)%list_elem_of_fmap. rewrite map_map. cbn [snd]. apply Hres.
    by apply temporaryName_reserved.
  - exists db'. unfold tableRenameSteps. fold rs. rewrite !map_map in Hall. cbn [fst snd] in Hall.
    rewrite !map_map in Hother. cbn [fst snd] in Hother. split; [|split; [|done]].
    + rewrite <- Hall. reflexivity.
    + intros r Hr. apply (Hdone (tr_from r, tr_to r)). by apply (list_elem_of_fmap_2 (fun r => (tr_from r, tr_to r))).
Qed.

(** Every table name of a valid schema is free of the generator's prefix. *)
Lemma schema_names_ok b p n :
  schema_ok b p -> starts_with "__orm_" n = true -> (n ∉ map table_name (tables p)).
Proof.
  intros (_ & _ & _ & _ & Ht) Hn (t & -> & Hin)%list_elem_of_fmap. destruct (Ht t Hin) as ((_ & Hno & _) & _).
  congruence.
Qed.

Lemma tableNamed_iff p n : is_Some (tableNamed p n) <-> n ∈ map table_name (tables p).
Proof. apply find_by_is_Some. Qed.

(** The table renames of a comparison without problems are carried out
    together, permutations included: executed one by one on the tables of the old
    schema, the statements all succeed, every table keeps its rows under its new
    name, and there are no other tables.  The temporary names, which are hashes,
    are taken to be distinct. *)
Theorem table_renames_simultaneous {A} version direction s1 s2 decisions d b p (db : gmap string A) :
  compare s1 s2 decisions = Ok d -> diagnostics d = [] -> (b, p) ∈ backends (before d) ->
  (forall n, is_Some (db !! n) <-> n ∈ map table_name (tables p)) ->
  NoDup (map (renameStage version direction) (tableRenames decisions)) ->
  exists db', rename_all db (tableRenameSteps version direction decisions) = Some db' /\
    (forall t, t ∈ tables p -> db' !! targetTableName (table_name t) decisions = db !! table_name t) /\
    (forall n, is_Some (db' !! n) <-> n ∈ map (fun t => targetTableName (table_name t) decisions) (tables p)).
Proof.
  intros H Hd Hin Hdb Hst.
  destruct (compare_renames_ok s1 s2 decisions d b p H Hd Hin) as (q & _ & [Hfrom Hto Heach] & Hp & Hq).
  setoid_rewrite is_some_iff in Heach. setoid_rewrite tableNamed_iff in Heach.
  destruct (rename_steps version direction decisions db Hfrom Hto Hst) as (db' & Hall & Hdone & Hother).
  - intros r Hr. destruct (Heach r Hr) as (Hf & _ & Hocc). split; [by apply Hdb|].
    destruct (db !! tr_to r) eqn:Ht; [|by left]. right. apply Hocc, Hdb. by eexists.
  - intros n Hn. split.
    + apply eq_None_not_Some. rewrite Hdb. by apply (schema_names_ok b p).
    + intros (r & -> & Hr)%list_elem_of_fmap. destruct (Heach r Hr) as (_ & Hin' & _).
      by apply (schema_names_ok b q (tr_to r) Hq Hn).
  - exists db'. split; [done|].
    assert (forall t, t ∈ tables p -> db' !! targetTableName (table_name t) decisions = db !! table_name t) as Hkeep.
    { intros t Ht. destruct (decide (table_name t ∈ map tr_from (tableRenames decisions)))
        as [(r & Hr & Hrin)%list_elem_of_fmap|Hno].
      - rewrite Hr, targetTableName_rename by done. by apply Hdone.
      - rewrite targetTableName_unchanged by done. rewrite Hother; [by destruct (decide _)|].
        intros (r & Hr & Hrin)%list_elem_of_fmap. destruct Hno. rewrite Hr. apply (Heach r Hrin). rewrite <- Hr.
        by apply list_elem_of_fmap_2. }
    split; [done|]. intros n. split.
    + intros Hn. destruct (decide (n ∈ map tr_to (tableRenames decisions))) as [(r & -> & Hr)%list_elem_of_fmap|Hno].
      * destruct (Heach r Hr) as ((t & Heq & Ht)%list_elem_of_fmap & _). apply list_elem_of_fmap. exists t.
        by rewrite <- Heq, targetTableName_rename.
      * rewrite Hother in Hn by done. destruct (decide _) as [|Hnf]; [by destruct Hn|].
        apply Hdb in Hn as (t & -> & Ht)%list_elem_of_fmap. apply list_elem_of_fmap. exists t.
        by rewrite targetTableName_unchanged.
    + intros (t & -> & Ht)%list_elem_of_fmap. rewrite Hkeep by done. apply Hdb. by apply list_elem_of_fmap_2.
Qed.

(** The inverse decisions undo the renames: a table of the source comes back to
    its own name, and inverting twice gives the renames again, those of columns
    too when their tables are target tables. *)
Theorem inverseDecisions_involutive d :
  NoDup (map tr_from (tableRenames d)) -> NoDup (map tr_to (tableRenames d)) ->
  (forall n, n ∈ map tr_from (tableRenames d) \/ (n ∉ map tr_to (tableRenames d)) ->
     targetTableName (targetTableName n d) (inverseDecisions d) = n) /\
  tableRenames (inverseDecisions (inverseDecisions d)) = tableRenames d /\
  ((forall r, r ∈ columnRenames d ->
      cr_table r ∈ map tr_to (tableRenames d) \/ (cr_table r ∉ map tr_from (tableRenames d))) ->
   columnRenames (inverseDecisions (inverseDecisions d)) = columnRenames d).
Proof.
  intros Hfrom Hto. split; [|split].
  - intros n Hn. rewrite inverse_target. by apply source_target.
  - cbn [inverseDecisions tableRenames]. rewrite map_map. cbn [tr_from tr_to].
    rewrite <- (map_id (tableRenames d)) at 2. apply map_ext. by intros [].
  - intros Hr. cbn [inverseDecisions columnRenames]. rewrite map_map. cbn [cr_table cr_from cr_to].
    rewrite <- (map_id (columnRenames d)) at 2. apply map_ext_in. intros r Hin%list_elem_of_In.
    fold (inverseDecisions d). rewrite inverse_source, target_source by auto. by destruct r.
Qed.

(** Two tables of one column that exchange their names. *)
Definition swap_table (name column : string) : PhysicalTable :=
  MkTable name [MkColumn column ColumnType.Int "INTEGER" true None false] [] "" [] [] "".
Definition swap_schema (posts users : string) : PhysicalSchema :=
  MkSchema Sqlite "orm-cxx-ddl-v1:sqlite" [swap_table "posts" posts; swap_table "users" users].
Definition swap_before : SchemaSnapshot := MkSnapshot 1 [(Sqlite, swap_schema "a" "b")].
Definition swap_after : SchemaSnapshot := MkSnapshot 1 [(Sqlite, swap_schema "b" "a")].
Definition sample_swap : GenerationDecisions :=
  MkDecisions [MkTableRename "posts" "users"; MkTableRename "users" "posts"] [] [] [] [] [] [] [].

Lemma table_renames_simultaneous_witness :
  exists db', rename_all {["posts" := 1; "users" := 2]} (tableRenameSteps 1 "up" sample_swap) = Some db' /\
    db' !! "users" = Some 1.
Proof.
  destruct (compare swap_before swap_after sample_swap) as [d|e] eqn:H; [|vm_compute in H; discriminate H].
  destruct (table_renames_simultaneous 1 "up" swap_before swap_after sample_swap d Sqlite (swap_schema "a" "b")
              {["posts" := 1; "users" := 2]} H) as (db' & Hall & Hdone & _).
  - vm_compute in H. injection H as <-. reflexivity.
  - vm_compute in H. injection H as <-. left.
  - intros n. split.
    + intros [v Hv]. apply lookup_insert_Some in Hv as [[<- _]|[_ [<- _]%lookup_singleton_Some]]; [left|right; left].
    + intros Hn. repeat (apply elem_of_cons in Hn as [->|Hn]); [by eexists..|by apply not_elem_of_nil in Hn].
  - apply (proj1 (bool_decide_eq_true _)). vm_compute. reflexivity.
  - exists db'. split; [done|]. apply (Hdone (swap_table "posts" "a")). left.
Defined.

Lemma inverseDecisions_involutive_witness :
  targetTableName (targetTableName "posts" sample_swap) (inverseDecisions sample_swap) = "posts".
Proof.
  destruct (inverseDecisions_involutive sample_swap) as [H _].
  - apply (proj1 (bool_decide_eq_true _)). reflexivity.
  - apply (proj1 (bool_decide_eq_true _)). reflexivity.
  - apply H. left. left.
Defined.
