(* ===== verification/Catalog.v ===== *)
(** Catalog: normalized scripts, their checksums, the validation of execution
    contexts and the construction of a catalog, from src/migrations/Catalog.cpp. *)
From S2P Require Import Prelude Foundation Chrono Values Codec Schema Sha256 Models PhysicalSql Snapshot Diff SqlValidation Literals SchemaJson Generation Renames.
Local Open Scope string_scope.

(** ** Normalized SQL *)
Definition byte_order_mark : string := of_chars [char_of 239; char_of 187; char_of 191].

(** The loop that copies every character but a carriage return before a line feed. *)
Fixpoint strip_returns (sql : string) : string :=
  match sql with
  | "" => ""
  | String c rest =>
      if bool_decide (c = CR) && head_is (fun d => bool_decide (d = LF)) rest
      then strip_returns rest else String c (strip_returns rest)
  end.

Definition normalizeSql (sql : string) : res string :=
  let sql := if starts_with byte_order_mark sql then drop_str 3 sql else sql in
  throw_if (contains_char NUL sql) (invalidCatalog "Migration SQL contains a NUL byte") ;;
  Ok (strip_returns sql).

(** ** Checksums *)
(** What [append] adds to the data. *)
Definition framed (value : string) : string := ":" +:+ sized value.

Section checksum.
Context `{JsonLibrary}.

Definition checksum_data (s : SqlMigration) : res string :=
  up_ ← normalizeSql (up s);
  down_ ← match down s with Some d => d ← normalizeSql d; Ok (framed d) | None => Ok "" end;
  upText ← contextJson (upContext s);
  downText ← contextJson (downContext s);
  Ok ("orm-cxx-model-migration-v1" +:+ framed up_ +:+ framed (if is_some (down s) then "present" else "absent")
      +:+ down_ +:+ framed upText +:+ framed downText +:+ framed (beforeHash s) +:+ framed (afterHash s)).

Definition checksum (s : SqlMigration) : res string := sha256 <$> checksum_data s.
End checksum.

(** ** Validation of execution contexts *)
Definition safeName (name : string) : bool :=
  negb (bool_decide (name = "")) && forallb_char portable_char name.

Definition invalidContext (version : Z) (b : BackendType) : exn :=
  MigrationError InvalidCatalog "Invalid migration execution context" version b None.

Definition named_in (s : option PhysicalSchema) (name : string) : option PhysicalTable :=
  s ← s; tableNamed s name.

Definition identityMatches (t : PhysicalTable) (id : option string) : bool :=
  match List.find autoIncrement (columns t) with
  | None => negb (is_some id)
  | Some c => bool_decide (id = Some (col_name c))
  end.

(** A staging name: the prefix and sixteen hexadecimal digits. *)
Definition staging_name (name : string) : bool :=
  starts_with "__orm_rebuild_" name && (String.length name =? 30)%nat
  && forallb_char is_hex (drop_str 14 name).

(** One rebuilt table, with the sources, targets and stages before it. *)
Definition validateRebuild (c : MigrationExecutionContext) (fail : exn)
    (seen : list string * list string * list string) (r : RebuildTable)
    : res (list string * list string * list string) :=
  let '(sources, targets, stages) := seen in
  match named_in (ctx_source c) (rb_source r), named_in (ctx_target c) (rb_target r) with
  | Some source, Some target =>
      throw_if (negb (bool_decide (mode c = SqliteRebuild)) || negb (staging_name (rb_staging r))
                || negb (bool_decide (rb_source r ∈ ctx_tables c)) || bool_decide (rb_source r ∈ sources)
                || bool_decide (rb_target r ∈ targets) || bool_decide (rb_staging r ∈ stages)
                || is_some (named_in (ctx_source c) (rb_staging r))
                || is_some (named_in (ctx_target c) (rb_staging r))) fail ;;
      throw_if (negb (identityMatches source (sourceIdentity r)) || negb (identityMatches target (targetIdentity r)))
        fail ;;
      Ok (sources ++ [rb_source r], targets ++ [rb_target r], stages ++ [rb_staging r])%list
  | _, _ => Err fail
  end.

Definition validateTouched (c : MigrationExecutionContext) (fail : exn) (touched : list string) (name : string)
    : res (list string) :=
  throw_if (bool_decide (name ∈ touched) || negb (is_some (named_in (ctx_source c) name))) fail ;;
  Ok (touched ++ [name])%list.

Definition validateContext (c : MigrationExecutionContext) (before_ after_ : option PhysicalSchema) (version : Z)
    (b : BackendType) : res unit :=
  let fail := invalidContext version b in
  throw_if (negb (Bool.eqb (is_some (ctx_source c)) (is_some (ctx_target c)))) fail ;;
  throw_if (is_some (ctx_source c)
            && (negb (is_some before_) || negb (is_some after_) || negb (bool_decide (ctx_source c = before_))
                || negb (bool_decide (ctx_target c = after_)))) fail ;;
  throw_if (bool_decide (mode c = SqliteRebuild)
            && (negb (bool_decide (b = Sqlite)) || negb (is_some (ctx_source c)) || bool_decide (ctx_tables c = []))) fail ;;
  throw_if ((negb (bool_decide (ctx_tables c = [])) || negb (bool_decide (rebuildTables c = [])))
            && negb (is_some (ctx_source c))) fail ;;
  foldM (validateTouched c fail) [] (ctx_tables c) ;;
  foldM (validateRebuild c fail) ([], [], []) (rebuildTables c) ;;
  Ok tt.

(** ** The catalog *)
Definition version_le (x y : Migration) : Prop := (version_of x <= version_of y)%Z.
#[export] Instance version_le_dec x y : Decision (version_le x y).
Proof. unfold version_le. apply _. Defined.
#[export] Instance version_le_total : Total version_le.
Proof. intros x y. unfold version_le. lia. Qed.
#[export] Instance version_le_trans : Transitive version_le.
Proof. intros x y z. unfold version_le. lia. Qed.

Definition catalogError (message : string) (version : Z) (b : BackendType) : exn :=
  MigrationError InvalidCatalog message version b None.

Section catalog.
Context `{JsonLibrary}.

(** The scripts of one backend; [snapshots] holds the migration's snapshots when it
    has any. *)
Definition catalogScripts (version : Z) (snapshots : option (SchemaSnapshot * SchemaSnapshot))
    (kv : BackendType * SqlMigration) : res (BackendType * SqlMigration) :=
  let (b, s) := kv in
  backendName b ;;
  up_ ← normalizeSql (up s);
  throw_if (bool_decide (up_ = "")) (catalogError "Migration up SQL is empty" version b) ;;
  down_ ← match down s with Some d => Some <$> normalizeSql d | None => Ok None end;
  '(before_, after_, hashBefore, hashAfter) ←
    match snapshots with
    | Some (before_, after_) =>
        match BackendMap.find b (backends before_), BackendMap.find b (backends after_) with
        | Some p, Some q =>
            hashBefore ← snapshotHash before_ b;
            hashAfter ← snapshotHash after_ b;
            throw_if (negb (bool_decide (beforeHash s = "")) && negb (bool_decide (beforeHash s = hashBefore))
                      || negb (bool_decide (afterHash s = "")) && negb (bool_decide (afterHash s = hashAfter)))
              (catalogError "Migration snapshot hash mismatch" version b) ;;
            Ok (Some p, Some q, hashBefore, hashAfter)
        | _, _ => Err (catalogError "Missing backend snapshot" version b)
        end
    | None => Ok (None, None, beforeHash s, afterHash s)
    end;
  validateContext (upContext s) before_ after_ version b ;;
  validateContext (downContext s) after_ before_ version b ;;
  Ok (b, MkSqlMigration up_ down_ (upContext s) (downContext s) hashBefore hashAfter).

Definition hasSnapshots (m : Migration) : bool :=
  negb (bool_decide (backends (migration_before m) = [])) || negb (bool_decide (backends (migration_after m) = [])).

(** The snapshots of a migration that has some, after the one before it. *)
Definition catalogSnapshots (previousAfter : option SchemaSnapshot) (m : Migration)
    : res (SchemaSnapshot * SchemaSnapshot) :=
  let before_ := canonicalize (migration_before m) in
  let after_ := canonicalize (migration_after m) in
  validateSnapshot before_ ;;
  validateSnapshot after_ ;;
  throw_if (negb (length (backends before_) =? length (scripts m))%nat
            || negb (length (backends after_) =? length (scripts m))%nat)
    (catalogError "Migration snapshot and script backend sets differ" (version_of m) Empty) ;;
  throw_if (match previousAfter with Some p => negb (bool_decide (p = before_)) | None => false end)
    (catalogError "Adjacent migration snapshots do not form a continuous schema chain" (version_of m) Empty) ;;
  Ok (before_, after_).

(** One migration, after the version and the snapshot before it. *)
Definition catalogMigration (state : list Migration * Z * option SchemaSnapshot) (m : Migration)
    : res (list Migration * Z * option SchemaSnapshot) :=
  let '(done_, previous, previousAfter) := state in
  throw_if ((version_of m <=? previous)%Z || negb (safeName (migration_name m)) || bool_decide (scripts m = []))
    (catalogError "Migration versions must be positive and unique, with a name and SQL" (version_of m) Empty) ;;
  snapshots ← (if hasSnapshots m then Some <$> catalogSnapshots previousAfter m else Ok None);
  ss ← mapM (catalogScripts (version_of m) snapshots) (scripts m);
  let '(before_, after_) := default (migration_before m, migration_after m) snapshots in
  Ok ((done_ ++ [MkMigration (version_of m) (migration_name m) ss before_ after_])%list, version_of m,
      snd <$> snapshots).

(** The constructor [Catalog(std::vector<Migration>)]: the migrations it owns. *)
Definition makeCatalog (migrations : list Migration) : res (list Migration) :=
  '(result, _, _) ← foldM catalogMigration ([], 0%Z, None) (merge_sort version_le migrations);
  Ok result.
End catalog.

(** ** Properties *)

(** *** Normalization *)
Definition to_crlf (s : string) : string :=
  concat_map (fun c => if bool_decide (c = LF) then String CR newline else String c "") s.

Section normalization.
Lemma strip_returns_id s : contains_char CR s = false -> strip_returns s = s.
Proof.
  induction s as [|c s IH]; [done|]. cbn [contains_char existsb_char strip_returns]. intros [Hc Hs]%orb_false_iff.
  rewrite Hc. cbn [andb]. f_equal. by apply IH.
Qed.

Lemma strip_returns_crlf s : contains_char CR s = false -> strip_returns (to_crlf s) = s.
Proof.
  unfold to_crlf. induction s as [|c s IH]; [done|]. cbn [contains_char existsb_char concat_map].
  intros [Hc Hs]%orb_false_iff. destruct (bool_decide_reflect (c = LF)) as [->|Hl].
  - unfold newline. cbn [String.append strip_returns head_is].
    rewrite (bool_decide_true (CR = CR)), (bool_decide_true (LF = LF)) by done. cbn [andb].
    rewrite (bool_decide_false (LF = CR)) by discriminate. cbn [andb]. f_equal. by apply IH.
  - cbn [String.append strip_returns]. rewrite Hc. cbn [andb]. f_equal. by apply IH.
Qed.

Lemma contains_crlf s : contains_char NUL (to_crlf s) = contains_char NUL s.
Proof.
  unfold to_crlf, contains_char. induction s as [|c s IH]; [done|]. cbn [concat_map existsb_char].
  rewrite existsb_char_app, IH. f_equal. destruct (bool_decide_reflect (c = LF)) as [->|Hl]; [reflexivity|].
  cbn [existsb_char]. by rewrite orb_false_r.
Qed.

Lemma contains_strip_returns c s : contains_char c s = false -> contains_char c (strip_returns s) = false.
Proof.
  unfold contains_char. induction s as [|d s IH]; [done|]. cbn [strip_returns existsb_char].
  intros [Hd Hs]%orb_false_iff. destruct (_ && _); [auto|]. cbn [existsb_char]. by rewrite Hd, IH.
Qed.

Lemma starts_with_crlf s : starts_with byte_order_mark (to_crlf s) = true -> starts_with byte_order_mark s = true.
Proof.
  unfold to_crlf, byte_order_mark. destruct s as [|a [|b [|c s]]]; [done|..]; cbn [concat_map];
    repeat case_bool_decide; subst; cbn; rewrite ?andb_true_iff, ?bool_decide_eq_true; try (intros; naive_solver);
    intros; destruct_and?; try discriminate.
Qed.
End normalization.

(** Normalization is independent of how a file was saved: a script without
    carriage returns is unchanged, and its copies with a byte order mark or with
    CRLF line ends normalize to it; a NUL byte is always refused, and a normalized
    script has none. *)
Theorem normalizeSql_line_ends s :
  contains_char CR s = false -> contains_char NUL s = false -> starts_with byte_order_mark s = false ->
  normalizeSql s = Ok s /\ normalizeSql (to_crlf s) = Ok s /\ normalizeSql (byte_order_mark +:+ s) = Ok s /\
  (forall t, contains_char NUL t = true -> exists e, normalizeSql t = Err e) /\
  (forall t r, normalizeSql t = Ok r -> contains_char NUL r = false).
Proof.
  intros Hcr Hnul Hbom. unfold normalizeSql. split; [|split; [|split; [|split]]].
  - by rewrite Hbom, Hnul, strip_returns_id.
  - destruct (starts_with byte_order_mark (to_crlf s)) eqn:Hs; [apply starts_with_crlf in Hs; congruence|].
    by rewrite contains_crlf, Hnul, strip_returns_crlf.
  - rewrite starts_with_app. change 3 with (String.length byte_order_mark). rewrite drop_str_app.
    by rewrite Hnul, strip_returns_id.
  - intros t Ht. destruct (starts_with byte_order_mark t) eqn:Hb; [|rewrite Ht; by eexists].
    apply starts_with_spec in Hb as [u ->]. change 3 with (String.length byte_order_mark). rewrite drop_str_app.
    rewrite contains_char_app in Ht. change (contains_char NUL byte_order_mark) with false in Ht. cbn [orb] in Ht. rewrite Ht.
    by eexists.
  - intros t r (Hn%throw_if_Ok_iff & [= <-])%seq_Ok_iff. by apply contains_strip_returns.
Qed.

Lemma normalizeSql_line_ends_witness :
  normalizeSql (to_crlf ("SELECT 1;" +:+ newline)) = Ok ("SELECT 1;" +:+ newline).
Proof. apply (normalizeSql_line_ends ("SELECT 1;" +:+ newline)); reflexivity. Defined.

(** *** Checksums *)
Section checksums.
Lemma framed_inj s t u v : framed s +:+ u = framed t +:+ v -> s = t /\ u = v.
Proof. unfold framed. rewrite !app_str_assoc. intros H'%app_str_inj_l. by apply sized_inj. Qed.

Lemma framed_inj_end s t : framed s = framed t -> s = t.
Proof. intros H'. rewrite <- (app_str_nil_r (framed s)), <- (app_str_nil_r (framed t)) in H'. by apply framed_inj in H' as [? _]. Qed.

End checksums.

(** The checksum covers everything that is executed: two scripts whose hashed
    data agree have the same normalized SQL in both directions (or no down script
    both), the same context documents and the same snapshot hashes; so scripts
    with one checksum either agree on all of these or collide in SHA-256. *)
Theorem checksum_binds `{JsonLibrary} s t :
  (forall x, checksum_data s = Ok x -> checksum_data t = Ok x ->
     normalizeSql (up s) = normalizeSql (up t) /\
     (normalizeSql <$> down s) = (normalizeSql <$> down t) /\
     contextJson (upContext s) = contextJson (upContext t) /\
     contextJson (downContext s) = contextJson (downContext t) /\
     beforeHash s = beforeHash t /\ afterHash s = afterHash t) /\
  (forall c, checksum s = Ok c -> checksum t = Ok c ->
     exists x y, checksum_data s = Ok x /\ checksum_data t = Ok y /\ (x = y \/ sha256 x = sha256 y /\ x <> y)).
Proof.
  split.
  - intros x. unfold checksum_data.
    intros (u1 & Hu1 & (d1 & Hd1 & (c1 & Hc1 & (e1 & He1 & Hx1%Ok_inj)%bind_Ok_iff)%bind_Ok_iff)%bind_Ok_iff)%bind_Ok_iff.
    intros (u2 & Hu2 & (d2 & Hd2 & (c2 & Hc2 & (e2 & He2 & Hx2%Ok_inj)%bind_Ok_iff)%bind_Ok_iff)%bind_Ok_iff)%bind_Ok_iff.
    rewrite <- Hx2 in Hx1. clear Hx2. apply app_str_inj_l in Hx1. apply framed_inj in Hx1 as [-> Hx]. apply framed_inj in Hx as [Hp Hx].
    rewrite Hu1, Hu2, Hc1, Hc2, He1, He2.
    assert ((normalizeSql <$> down s) = (normalizeSql <$> down t) /\ d1 = d2) as [Hdown Hdd].
    { destruct (down s) as [ds|], (down t) as [dt|]; cbn [is_some] in Hp; try discriminate.
      - apply bind_Ok_iff in Hd1 as (n1 & Hn1 & [= <-]), Hd2 as (n2 & Hn2 & [= <-]).
        apply framed_inj in Hx as [-> _]. cbn. by rewrite Hn1, Hn2.
      - injection Hd1 as <-. injection Hd2 as <-. done. }
    split; [done|]. split; [done|]. subst d2. apply app_str_inj_l in Hx.
    apply framed_inj in Hx as [-> Hx]. apply framed_inj in Hx as [-> Hx]. apply framed_inj in Hx as [-> Hx].
    apply framed_inj_end in Hx as ->. done.
  - unfold checksum. intros c (x & Hx & Hcx)%fmap_Ok_iff (y & Hy & Hcy)%fmap_Ok_iff. exists x, y.
    split; [done|]. split; [done|]. destruct (decide (x = y)); [by left|right]. split; congruence.
Qed.

(** *** Contexts *)

(** What makes a rebuilt table acceptable in a context of the schemas [p] and [q]. *)
Definition rebuild_ok (c : MigrationExecutionContext) (p q : PhysicalSchema) (r : RebuildTable) : Prop :=
  mode c = SqliteRebuild /\ staging_name (rb_staging r) = true /\ rb_source r ∈ ctx_tables c /\
  tableNamed p (rb_staging r) = None /\ tableNamed q (rb_staging r) = None /\
  exists s t, tableNamed p (rb_source r) = Some s /\ tableNamed q (rb_target r) = Some t /\
    sourceIdentity r = identity s /\ targetIdentity r = identity t.

(** The contexts of a migration from [before_] to [after_]: without schemas an empty
    one; with schemas theirs, distinct tables of the source, and rebuilds only on
    SQLite, with different sources, targets and staging tables. *)
Definition context_valid (c : MigrationExecutionContext) (before_ after_ : option PhysicalSchema)
    (b : BackendType) : Prop :=
  match ctx_source c, ctx_target c with
  | None, None => mode c = Normal /\ ctx_tables c = [] /\ rebuildTables c = []
  | Some p, Some q =>
      before_ = Some p /\ after_ = Some q /\
      (mode c = SqliteRebuild -> b = Sqlite /\ ctx_tables c <> []) /\
      NoDup (ctx_tables c) /\ (forall n, n ∈ ctx_tables c -> is_Some (tableNamed p n)) /\
      NoDup (map rb_source (rebuildTables c)) /\ NoDup (map rb_target (rebuildTables c)) /\
      NoDup (map rb_staging (rebuildTables c)) /\
      forall r, r ∈ rebuildTables c -> rebuild_ok c p q r
  | _, _ => False
  end.

Section contexts.
Context (c : MigrationExecutionContext) (fail : exn).

Lemma identityMatches_iff t id : identityMatches t id = true <-> id = identity t.
Proof.
  unfold identityMatches, identity. destruct (List.find autoIncrement (columns t)) as [x|]; cbn.
  - by rewrite bool_decide_eq_true.
  - destruct id; cbn; split; congruence.
Qed.

Lemma touched_fold l seen r :
  foldM (validateTouched c fail) seen l = Ok r <->
  r = (seen ++ l)%list /\ NoDup l /\
  forall n, n ∈ l -> (n ∉ seen) /\ is_some (named_in (ctx_source c) n) = true.
Proof.
  revert seen. induction l as [|x l IH]; intros seen; cbn [foldM].
  - rewrite app_nil_r. split; [intros [= <-]; split; [done|]; split; [constructor|by intros n ?%not_elem_of_nil]|].
    by intros (-> & _).
  - rewrite bind_Ok_iff. setoid_rewrite IH. unfold validateTouched. setoid_rewrite seq_Ok_iff.
    setoid_rewrite throw_if_Ok_iff. setoid_rewrite orb_false_iff. rewrite NoDup_cons. split.
    + intros (s & ((Hx & Hs) & [= <-]) & -> & Hnd & Hall). bool_to_prop. split; [by rewrite <- app_assoc|].
      split; [split; [|done]|].
      * intros Hin. destruct (Hall x Hin) as [Hn _]. set_solver.
      * intros n [->|Hn]%elem_of_cons; [done|]. destruct (Hall n Hn). set_solver.
    + intros (-> & (Hx & Hnd) & Hall). exists (seen ++ [x])%list. destruct (Hall x) as [Hxs Hsome]; [left|].
      rewrite bool_decide_eq_false, negb_false_iff. split; [done|]. split; [by rewrite <- app_assoc|].
      split; [done|]. intros n Hn. destruct (Hall n) as [Hns ?]; [by right|]. split; [|done].
      assert (n <> x) by congruence. set_solver.
Qed.

Context (p q : PhysicalSchema) (Hp : ctx_source c = Some p) (Hq : ctx_target c = Some q).

Lemma validateRebuild_Ok_iff seen r seen' :
  validateRebuild c fail seen r = Ok seen' <->
  rebuild_ok c p q r /\ (rb_source r ∉ seen.1.1) /\ (rb_target r ∉ seen.1.2) /\ (rb_staging r ∉ seen.2) /\
  seen' = (seen.1.1 ++ [rb_source r], seen.1.2 ++ [rb_target r], seen.2 ++ [rb_staging r])%list.
Proof.
  destruct seen as [[ss ts] gs]. unfold validateRebuild, rebuild_ok, named_in. rewrite Hp, Hq. cbn [mbind option_bind].
  destruct (tableNamed p (rb_source r)) as [s|]; [|split; [done|naive_solver]].
  destruct (tableNamed q (rb_target r)) as [t|]; [|split; [done|naive_solver]].
  rewrite seq_Ok_iff, seq_Ok_iff, !throw_if_Ok_iff, !orb_false_iff, !negb_false_iff, !identityMatches_iff.
  rewrite !bool_decide_eq_true, !bool_decide_eq_false. cbn [fst snd].
  assert (forall o : option PhysicalTable, is_some o = false <-> o = None) as Ho by (by intros []).
  rewrite !Ho. split.
  - intros (H1 & (H2 & H3) & [= <-]). destruct_and?. split_and?; try done. by exists s, t.
  - intros ((Hm & Hst & Hin & Hn1 & Hn2 & s' & t' & [= <-] & [= <-] & Hi & Hj) & ? & ? & ? & ->). by split_and?.
Qed.

Lemma rebuild_fold_iff l seen seen' :
  foldM (validateRebuild c fail) seen l = Ok seen' <->
  (forall r, r ∈ l -> rebuild_ok c p q r /\ (rb_source r ∉ seen.1.1) /\ (rb_target r ∉ seen.1.2) /\
     (rb_staging r ∉ seen.2)) /\
  NoDup (map rb_source l) /\ NoDup (map rb_target l) /\ NoDup (map rb_staging l) /\
  seen' = (seen.1.1 ++ map rb_source l, seen.1.2 ++ map rb_target l, seen.2 ++ map rb_staging l)%list.
Proof.
  revert seen. induction l as [|r l IH]; intros seen; cbn [foldM map].
  - rewrite !app_nil_r. destruct seen as [[ss ts] gs]. split.
    + intros [= <-]. split; [by intros r ?%not_elem_of_nil|]. by repeat (split; [constructor|]).
    + by intros (_ & _ & _ & _ & ->).
  - rewrite bind_Ok_iff. setoid_rewrite IH. setoid_rewrite validateRebuild_Ok_iff. rewrite !NoDup_cons. split.
    + intros (s1 & (Hr & H1 & H2 & H3 & ->) & Hall & Hs & Ht & Hg & ->). cbn [fst snd] in *.
      split; [|split; [|split; [|split; [|by rewrite <- !app_assoc]]]].
      * intros r' [->|Hin]%elem_of_cons; [done|]. destruct (Hall r' Hin) as (? & ? & ? & ?). set_solver.
      * split; [|done]. intros (r' & Heq & Hin)%list_elem_of_fmap. destruct (Hall r' Hin) as (_ & Hn & _). set_solver.
      * split; [|done]. intros (r' & Heq & Hin)%list_elem_of_fmap. destruct (Hall r' Hin) as (_ & _ & Hn & _). set_solver.
      * split; [|done]. intros (r' & Heq & Hin)%list_elem_of_fmap. destruct (Hall r' Hin) as (_ & _ & _ & Hn). set_solver.
    + intros (Hall & (Hs1 & Hs) & (Ht1 & Ht) & (Hg1 & Hg) & ->). eexists. cbn [fst snd].
      split; [destruct (Hall r) as (? & ? & ? & ?); [left|]; done|]. cbn [fst snd].
      split; [|split; [done|split; [done|split; [done|by rewrite <- !app_assoc]]]].
      intros r' Hin. destruct (Hall r') as (? & ? & ? & ?); [by right|].
      assert (rb_source r' <> rb_source r) by (intros Heq; apply Hs1; rewrite <- Heq; by apply list_elem_of_fmap_2).
      assert (rb_target r' <> rb_target r) by (intros Heq; apply Ht1; rewrite <- Heq; by apply list_elem_of_fmap_2).
      assert (rb_staging r' <> rb_staging r) by (intros Heq; apply Hg1; rewrite <- Heq; by apply list_elem_of_fmap_2).
      set_solver.
Qed.
End contexts.

Lemma two_steps_Ok_iff {E A B} (m : result E A) (k : result E B) :
  (m ≫= fun _ => k ≫= fun _ => Ok tt) = Ok tt <-> is_ok m = true /\ is_ok k = true.
Proof. destruct m, k; cbn; naive_solver. Qed.

Lemma is_ok_iff {E A} (m : result E A) : is_ok m = true <-> exists a, m = Ok a.
Proof. destruct m; cbn; naive_solver. Qed.

Lemma validateContext_valid c before_ after_ version b :
  validateContext c before_ after_ version b = Ok tt <-> context_valid c before_ after_ b.
Proof.
  unfold validateContext, context_valid. cbv zeta.
  rewrite !seq_Ok_iff, !throw_if_Ok_iff.
  destruct (ctx_source c) as [p|] eqn:Hp, (ctx_target c) as [q|] eqn:Hq; cbn [is_some Bool.eqb negb andb orb];
    [|naive_solver..|].
  - rewrite andb_false_r, two_steps_Ok_iff, !is_ok_iff. setoid_rewrite touched_fold.
    setoid_rewrite (rebuild_fold_iff c _ p q Hp Hq). cbn [fst snd]. unfold named_in. rewrite Hp. cbn [mbind option_bind].
    rewrite !orb_false_iff, !negb_false_iff, !bool_decide_eq_true, andb_false_iff, orb_false_iff.
    rewrite orb_false_r, negb_false_iff, !bool_decide_eq_false, bool_decide_eq_true. setoid_rewrite is_some_iff. split.
    + intros (_ & ((_ & Hb) & Ha) & Hm & _ & (ts & _ & Hnd & Hin) & st & Hall & Hs & Ht & Hg & _).
      split; [done|]. split; [done|]. split; [naive_solver|]. split; [done|]. split; [naive_solver|].
      split; [done|]. split; [done|]. split; [done|]. intros r Hr. by apply Hall.
    + intros (-> & -> & Hm & Hnd & Hin & Hs & Ht & Hg & Hall). split; [done|]. split; [done|].
      split; [destruct (decide (mode c = SqliteRebuild)); [right|left]; naive_solver|]. split; [done|]. split.
      * eexists. split; [reflexivity|]. split; [done|]. intros n Hn. split; [set_solver|by apply Hin].
      * eexists. split; [|by split_and?]. intros r Hr. split; [by apply Hall|]. split_and?; apply not_elem_of_nil.
  - rewrite two_steps_Ok_iff. split.
    + intros (_ & _ & Hm & He & _). destruct (ctx_tables c), (rebuildTables c); cbn in He; try done.
      destruct (mode c); [done|]. cbn in Hm. by rewrite orb_true_r in Hm.
    + intros (-> & -> & ->). by split_and?.
Qed.

(** A context is accepted for a migration exactly when it is empty, or carries
    the migration's own schemas, distinct tables of the source, and rebuilds only
    on SQLite, whose sources, targets and staging tables are distinct, whose
    staging names have the generator's form and name no table, and whose
    identities are those of the tables. *)
Theorem validateContext_iff c before_ after_ version b :
  validateContext c before_ after_ version b = Ok tt <-> context_valid c before_ after_ b.
Proof. apply validateContext_valid. Qed.

Section generated_contexts.
Lemma temporaryName_staging version direction source target :
  staging_name (temporaryName version direction source target "__orm_rebuild_") = true.
Proof.
  unfold staging_name, temporaryName. rewrite starts_with_app. cbn [andb].
  match goal with |- context [sha256 ?x] => pose proof (sha256_length x) as Hl; pose proof (sha256_is_hex x) as Hh; revert Hl Hh; generalize (sha256 x) end.
  intros h Hl Hh. pose proof (drop_str_app "__orm_rebuild_" (take_str 16 h)) as Hd.
  change (String.length "__orm_rebuild_") with 14 in Hd. rewrite Hd, length_app_str.
  assert (forall n h, forallb_char is_hex h = true -> forallb_char is_hex (take_str n h) = true) as Htake.
  { clear. intros n. induction n as [|n IH]; intros [|c h]; cbn [take_str]; try done.
    rewrite !forallb_char_cons. intros [-> ?]%andb_true_iff. by apply IH. }
  assert (forall n h, n <= String.length h -> String.length (take_str n h) = n) as Hlen.
  { clear. intros n. induction n as [|n IH]; intros [|c h]; cbn; try lia. intros. f_equal. apply IH. lia. }
  rewrite (Hlen 16 h) by lia. by rewrite Htake.
Qed.

Lemma schema_NoDup b (s : PhysicalSchema) : schema_ok b s -> NoDup (map table_name (tables s)).
Proof. intros (_ & _ & _ & Hnd & _). exact Hnd. Qed.

Context (p q : PhysicalSchema) (dec : GenerationDecisions) (b : BackendType).
Context (Hren : renames_ok p q dec) (Hp : schema_ok b p) (Hq : schema_ok b q).

(** Different source tables have different targets. *)
Lemma targetTableName_inj s t :
  s ∈ tables p -> t ∈ tables p -> targetTableName (table_name s) dec = targetTableName (table_name t) dec ->
  table_name s = table_name t.
Proof.
  destruct Hren as [Hfrom Hto Heach]. setoid_rewrite is_some_iff in Heach. setoid_rewrite tableNamed_iff in Heach.
  intros Hs Ht Heq.
  destruct (decide (table_name s ∈ map tr_from (tableRenames dec))) as [(r & Hr & Hrin)%list_elem_of_fmap|Hns];
    destruct (decide (table_name t ∈ map tr_from (tableRenames dec))) as [(r' & Hr' & Hrin')%list_elem_of_fmap|Hnt].
  - rewrite Hr, Hr', !targetTableName_rename in Heq by done.
    rewrite Hr, Hr'. rewrite <- (sourceTable_rename dec Hto r Hrin), Heq. by apply sourceTable_rename.
  - rewrite Hr, targetTableName_rename, targetTableName_unchanged in Heq by done. destruct Hnt. rewrite <- Heq.
    apply (Heach r Hrin). rewrite Heq. by apply list_elem_of_fmap_2.
  - rewrite Hr', targetTableName_rename, targetTableName_unchanged in Heq by done. destruct Hns. rewrite Heq.
    apply (Heach r' Hrin'). rewrite <- Heq. by apply list_elem_of_fmap_2.
  - by rewrite !targetTableName_unchanged in Heq by done.
Qed.

Lemma tableNamed_elem (s : PhysicalSchema) t :
  NoDup (map table_name (tables s)) -> t ∈ tables s -> tableNamed s (table_name t) = Some t.
Proof. apply find_by_NoDup. Qed.

Lemma NoDup_fmap_filter {A B} (f : A -> B) (g : A -> bool) l : NoDup (map f l) -> NoDup (map f (List.filter g l)).
Proof.
  induction l as [|x l IH]; cbn [List.filter map]; [done|]. rewrite NoDup_cons. intros [Hx Hl].
  destruct (g x); [|auto]. cbn [map]. constructor; [|auto]. intros (y & Hy & Hin)%list_elem_of_fmap.
  apply Hx. rewrite Hy. apply list_elem_of_fmap_2. by apply list_elem_of_In, List.filter_In, proj1, list_elem_of_In in Hin.
Qed.

Lemma rebuilt_pair_Some changed s su :
  rebuilt_pair changed q dec s = Some su ->
  su.1 = s /\ tableNamed q (targetTableName (table_name s) dec) = Some su.2 /\
  table_name su.2 = targetTableName (table_name s) dec /\ is_touched changed q dec s = true.
Proof.
  unfold rebuilt_pair, is_touched. destruct (tableNamed q _) as [u|] eqn:Hu; [|done].
  case_bool_decide as Hc; [|done]. intros [= <-]. cbn [fst snd]. split_and?; [done|done| |done].
  by apply find_by_Some in Hu as [_ ?].
Qed.

Lemma rebuilt_NoDup {B} changed (f : PhysicalTable * PhysicalTable -> B) l :
  NoDup (map table_name l) ->
  (forall s t su tu, s ∈ l -> t ∈ l -> rebuilt_pair changed q dec s = Some su -> rebuilt_pair changed q dec t = Some tu ->
     f su = f tu -> table_name s = table_name t) ->
  NoDup (map f (omap (rebuilt_pair changed q dec) l)).
Proof.
  induction l as [|s l IH]; intros Hnd Hinj; cbn [omap list_omap map]; [constructor|].
  apply NoDup_cons in Hnd as [Hs Hnd].
  assert (NoDup (map f (omap (rebuilt_pair changed q dec) l))) as Hl.
  { apply IH; [done|]. intros x y su tu Hx Hy. apply Hinj; by right. }
  destruct (rebuilt_pair changed q dec s) as [su|] eqn:Hsu; [|done]. cbn [map]. constructor; [|done].
  intros (tu & Heq & (t & Ht & Htu)%list_elem_of_omap)%list_elem_of_fmap. destruct Hs.
  rewrite (Hinj s t su tu) by (done || by left || by right). by apply list_elem_of_fmap_2.
Qed.

(** The context of a SQLite rebuild between valid schemas. *)
Lemma sqlite_context_valid version direction d sql c :
  b = Sqlite -> sqliteStatements version direction d dec p q = Ok (sql, c) ->
  NoDup (map rb_staging (rebuildTables c)) -> context_valid c (Some p) (Some q) b.
Proof.
  intros -> H Hst. apply sqliteStatements_Ok in H. cbv zeta in H. destruct H as (Ht & Hr & Hm & Hs & Htg & _).
  unfold context_valid. rewrite Hs, Htg. split; [done|]. split; [done|].
  pose proof (schema_NoDup _ p Hp) as Hndp. pose proof (schema_NoDup _ q Hq) as Hndq.
  split; [intros Hmode; split; [done|]; rewrite Ht; intros Hnil%fmap_nil_inv; by apply Hm in Hmode|].
  split; [rewrite Ht; by apply NoDup_fmap_filter|]. split.
  { rewrite Ht. intros n (s & -> & [Hs' _]%list_elem_of_In%List.filter_In)%list_elem_of_fmap.
    apply tableNamed_iff. apply list_elem_of_fmap_2. by apply list_elem_of_In. }
  rewrite Hr in Hst |- *. rewrite map_map in Hst. rewrite !map_map. cbn [rebuild_record rb_source rb_target rb_staging] in *.
  split; [|split; [|split; [done|]]].
  - apply rebuilt_NoDup; [done|]. intros s t su tu _ _ (<- & _)%rebuilt_pair_Some (<- & _)%rebuilt_pair_Some. done.
  - apply rebuilt_NoDup; [done|]. intros s t su tu Hs' Ht' (_ & _ & Hu & _)%rebuilt_pair_Some (_ & _ & Hv & _)%rebuilt_pair_Some.
    intros Heq. apply targetTableName_inj; [done|done|]. congruence.
  - intros r ((s & u) & -> & (s' & Hin & Hpair)%list_elem_of_omap)%list_elem_of_fmap.
    pose proof Hpair as (<- & Hu & Hun & Htouch)%rebuilt_pair_Some. cbn [fst snd] in *.
    assert (s ∈ List.filter (is_touched (changedTables d Sqlite) q dec) (tables p)) as Hf
      by (apply list_elem_of_In, List.filter_In; by rewrite <- list_elem_of_In).
    assert (forall x, schema_ok Sqlite x -> tableNamed x (temporaryName version direction (table_name s) (table_name u) "__orm_rebuild_") = None) as Hno.
    { intros x Hx. apply eq_None_not_Some. rewrite tableNamed_iff. apply (schema_names_ok Sqlite x); [done|].
      by apply temporaryName_reserved. }
    unfold rebuild_ok. cbn [rebuild_record rb_source rb_target rb_staging sourceIdentity targetIdentity fst snd].
    split; [apply Hm; intros Hnil; by rewrite Hnil in Hf; apply not_elem_of_nil in Hf|].
    split; [apply temporaryName_staging|]. split; [rewrite Ht; by apply list_elem_of_fmap_2|].
    split; [by apply Hno|]. split; [by apply Hno|]. exists s, u.
    split; [by apply tableNamed_elem|]. split; [by rewrite Hun|]. done.
Qed.

Lemma depends_names start n :
  (forall m, m ∈ start -> m ∈ map table_name (tables p)) -> depends (tables p) start n -> n ∈ map table_name (tables p).
Proof. intros Hs. induction 1; [auto|by apply list_elem_of_fmap_2]. Qed.

(** The context of a native script. *)
Lemma native_context_valid d c :
  b <> Sqlite -> BackendMap.find b (backends (before d)) = Some p -> BackendMap.find b (backends (after d)) = Some q ->
  nativeContext dec b d = Ok c -> context_valid c (Some p) (Some q) b.
Proof.
  intros Hb Hfp Hfq. unfold nativeContext, nativeAffectedSources, BackendMap.at_. rewrite Hfp, Hfq. cbn [or_throw].
  rewrite !bind_Ok. intros [= <-]. unfold context_valid.
  cbn [ctx_source ctx_target ctx_tables rebuildTables mode map]. split; [done|]. split; [done|]. split; [done|].
  split; [rewrite merge_sort_Permutation; apply NoDup_elements|]. split.
  - intros n. rewrite merge_sort_Permutation, elem_of_elements. intros Hn. apply tableNamed_iff.
    destruct (affectedTables_spec d dec b p q) as (r & Hr & Hdep). unfold affectedTables in Hn. rewrite Hr in Hn.
    cbn [default from_option id] in Hn. apply Hdep in Hn. eapply depends_names; [|exact Hn].
    intros m (t & Ht & <- & _)%directlyAffected_spec. by apply list_elem_of_fmap_2.
  - split; [constructor|]. split; [constructor|]. split; [constructor|]. by intros r ?%not_elem_of_nil.
Qed.
End generated_contexts.

(** The generator and the catalog agree on contexts: the context generated for
    the up script of any backend is one that the catalog accepts for the migration,
    and so is that of its down script when the reverse comparison has no problem.
    The staging names, which are hashes, are taken to be distinct. *)
Theorem generated_contexts_accepted `{JsonLibrary} version name supplied decisions m d inverse b s n :
  BackendMap.sorted (backends (before supplied)) ->
  generate version name supplied decisions = Ok (m, d) ->
  compare (after d) (before d) (inverseDecisions decisions) = Ok inverse -> diagnostics inverse = [] ->
  (b, s) ∈ scripts m ->
  NoDup (map rb_staging (rebuildTables (upContext s))) -> NoDup (map rb_staging (rebuildTables (downContext s))) ->
  let p := BackendMap.find b (backends (migration_before m)) in
  let q := BackendMap.find b (backends (migration_after m)) in
  validateContext (upContext s) p q n b = Ok tt /\ validateContext (downContext s) q p n b = Ok tt.
Proof.
  intros Hsorted Hg Hinv Hquiet Hin Hup Hdown p q.
  pose proof Hg as (_ & _ & _ & Hd & Hr & _ & inverse' & ss & Hinv' & Hss & ->)%generate_Ok.
  assert (inverse' = inverse) as -> by congruence. clear Hinv'. cbn [scripts migration_before migration_after] in *.
  pose proof Hd as (_ & _ & Hb & Ha)%compare_changes_ok.
  apply foldM_emplace_sorted in Hss as [_ Hss]; [|rewrite Hb; by apply canonicalize_map_sorted].
  destruct (Hss b s Hin) as (p' & Hp & Hs%generateScripts_Ok). clear Hss.
  destruct Hs as (_ & _ & (Hsql & _) & Hdo & Hnone & _). rewrite !validateContext_valid.
  assert (forall s1 s2 dec (e : SchemaDiff) dir script c, compare s1 s2 dec = Ok e -> diagnostics e = [] ->
    direction_sql version dir e dec b = Ok (script, c) -> NoDup (map rb_staging (rebuildTables c)) ->
    context_valid c (BackendMap.find b (backends (before e))) (BackendMap.find b (backends (after e))) b) as Hvalid.
  { intros s1 s2 dec e dir script c He Hq Hdir Hst. pose proof (direction_context _ _ _ _ _ _ _ Hdir) as (Hcs & Hct & [x Hx] & [y Hy]).
    rewrite Hx in Hcs. rewrite Hy in Hct. rewrite <- Hcs, <- Hct.
    destruct (compare_renames_ok s1 s2 dec e b x He Hq) as (y' & Hy' & Hren & Hokx & Hoky);
      [by apply BackendMap.find_Some_elem|]. rewrite Hy' in Hct. injection Hct as ->.
    unfold direction_sql in Hdir. case_bool_decide as Hbs.
    - unfold sqliteSql in Hdir. unfold BackendMap.at_ in Hdir. rewrite <- Hbs, <- Hcs, Hy' in Hdir. cbn [or_throw] in Hdir.
      rewrite !bind_Ok in Hdir. apply bind_Ok_iff in Hdir as ([sql c'] & Hst' & [= _ ->]).
      by apply (sqlite_context_valid x y' dec b Hren Hokx Hoky version dir e sql c).
    - apply bind_Ok_iff in Hdir as (sql & _ & (c' & Hc & [= _ ->])%bind_Ok_iff).
      by apply (native_context_valid x y' dec b e c). }
  assert (diagnostics d = []) as Hdd by (by apply (resolved_quiet (before supplied) (after supplied) decisions)).
  split; [by apply (Hvalid _ _ _ _ _ _ _ Hd Hdd Hsql)|].
  destruct (down s) as [script|] eqn:Hs.
  - destruct (Hdo script eq_refl) as (Hdsql & _).
    pose proof (Hvalid _ _ _ _ _ _ _ Hinv Hquiet Hdsql Hdown) as Hv.
    pose proof Hinv as (_ & _ & Hb' & Ha')%compare_changes_ok. rewrite Hb', Ha' in Hv.
    unfold p, q. rewrite Hb, Ha in *. by rewrite !canonicalize_idemp in Hv by (by apply compare_Ok in Hd; apply canonicalize_ok; tauto).
  - by rewrite Hnone.
Qed.

(** *** The catalog *)

(** What the catalog guarantees of each of its migrations. *)
Definition entry_ok `{JsonLibrary} (m : Migration) : Prop :=
  safeName (migration_name m) = true /\ scripts m <> [] /\
  (hasSnapshots m = true ->
     snapshot_ok (migration_before m) /\ snapshot_ok (migration_after m) /\
     length (backends (migration_before m)) = length (scripts m) /\
     length (backends (migration_after m)) = length (scripts m)) /\
  forall b s, (b, s) ∈ scripts m ->
    supported b = true /\ up s <> "" /\ contains_char NUL (up s) = false /\
    (forall script, down s = Some script -> contains_char NUL script = false) /\
    context_valid (upContext s) (BackendMap.find b (backends (migration_before m)))
      (BackendMap.find b (backends (migration_after m))) b /\
    context_valid (downContext s) (BackendMap.find b (backends (migration_after m)))
      (BackendMap.find b (backends (migration_before m))) b /\
    (hasSnapshots m = true ->
       snapshotHash (migration_before m) b = Ok (beforeHash s) /\
       snapshotHash (migration_after m) b = Ok (afterHash s)).

(** Versions increase, and a migration starts from the snapshot the one before it
    ends with when both have snapshots. *)
Fixpoint linked (previous : Z) (previousAfter : option SchemaSnapshot) (ms : list Migration) : Prop :=
  match ms with
  | [] => True
  | m :: ms =>
      (previous < version_of m)%Z /\
      (hasSnapshots m = true -> forall p, previousAfter = Some p -> p = migration_before m) /\
      linked (version_of m) (if hasSnapshots m then Some (migration_after m) else None) ms
  end.

Section catalogs.
Context `{JsonLibrary}.

Lemma normalizeSql_no_NUL s t : normalizeSql s = Ok t -> contains_char NUL t = false.
Proof. unfold normalizeSql. intros (Hn%throw_if_Ok_iff & [= <-])%seq_Ok_iff. by apply contains_strip_returns. Qed.

Lemma find_nil {V} b : BackendMap.find (V := V) b [] = None.
Proof. done. Qed.

Lemma catalogScripts_Ok version snapshots b s kv :
  catalogScripts version snapshots (b, s) = Ok kv ->
  exists s', kv = (b, s') /\ supported b = true /\ up s' <> "" /\ contains_char NUL (up s') = false /\
    (forall script, down s' = Some script -> contains_char NUL script = false) /\
    upContext s' = upContext s /\ downContext s' = downContext s /\
    let find_in x := match snapshots with Some bs => BackendMap.find b (backends (x bs)) | None => None end in
    context_valid (upContext s') (find_in fst) (find_in snd) b /\
    context_valid (downContext s') (find_in snd) (find_in fst) b /\
    (forall before_ after_, snapshots = Some (before_, after_) ->
       snapshotHash before_ b = Ok (beforeHash s') /\ snapshotHash after_ b = Ok (afterHash s')).
Proof.
  unfold catalogScripts.
  intros (name & Hname & (up_ & Hup & (Hne%throw_if_Ok_iff & (down_ & Hdown & H1)%bind_Ok_iff)%seq_Ok_iff)%bind_Ok_iff)%bind_Ok_iff.
  apply bind_Ok_iff in H1 as ([[[p q] hb] ha] & Hsnap & (Hcu & (Hcd & [= <-])%seq_Ok_iff)%seq_Ok_iff).
  rewrite validateContext_valid in Hcu, Hcd.
  eexists. split; [reflexivity|]. cbn [up down upContext downContext beforeHash afterHash].
  split; [apply supported_backendName; by rewrite Hname|]. split; [by bool_to_prop|].
  split; [by apply normalizeSql_no_NUL in Hup|]. split.
  { intros script ->. destruct (down s) as [ds|]; [|done].
    apply fmap_Ok_iff in Hdown as (d' & Hd & [= ->]). by apply normalizeSql_no_NUL in Hd. }
  split; [done|]. split; [done|].
  destruct snapshots as [[before_ after_]|]; cbn [fst snd].
  - destruct (BackendMap.find b (backends before_)) as [p'|]; [|done].
    destruct (BackendMap.find b (backends after_)) as [q'|]; [|done].
    apply bind_Ok_iff in Hsnap as (h1 & Hh1 & (h2 & Hh2 & (_ & [= <- <- <- <-])%seq_Ok_iff)%bind_Ok_iff).
    split; [done|]. split; [done|]. by intros ? ? [= <- <-].
  - injection Hsnap as <- <- <- <-. by split_and?.
Qed.

Lemma hasSnapshots_canonical m ss :
  hasSnapshots (MkMigration (version_of m) (migration_name m) ss (canonicalize (migration_before m))
    (canonicalize (migration_after m))) = hasSnapshots m.
Proof.
  unfold hasSnapshots, canonicalize. cbn [migration_before migration_after backends].
  by destruct (backends (migration_before m)), (backends (migration_after m)).
Qed.

Lemma catalogMigration_Ok done_ previous previousAfter m state :
  catalogMigration (done_, previous, previousAfter) m = Ok state ->
  exists m', state = ((done_ ++ [m'])%list, version_of m',
                      if hasSnapshots m' then Some (migration_after m') else None) /\
    version_of m' = version_of m /\ migration_name m' = migration_name m /\
    map fst (scripts m') = map fst (scripts m) /\
    (previous < version_of m')%Z /\ entry_ok m' /\
    (hasSnapshots m' = true -> forall p, previousAfter = Some p -> p = migration_before m').
Proof.
  unfold catalogMigration. intros (Hargs%throw_if_Ok_iff & (snapshots & Hsn & (ss & Hss%mapM_Ok_iff & Hst)%bind_Ok_iff)%bind_Ok_iff)%seq_Ok_iff.
  bool_to_prop.
  assert (map fst ss = map fst (scripts m)) as Hfst.
  { symmetry. clear -Hss. induction Hss as [|[b s] kv l k Hkv _ IH]; [done|]. cbn [map].
    apply catalogScripts_Ok in Hkv as (s' & -> & _). by rewrite IH. }
  assert (length ss = length (scripts m)) as Hlen by (by apply Forall2_length in Hss).
  assert (ss <> []) as Hssne by (intros ->; destruct (scripts m); done).
  assert (forall b s, (b, s) ∈ ss -> exists s0, catalogScripts (version_of m) snapshots (b, s0) = Ok (b, s)) as Heach.
  { intros b s Hin. apply list_elem_of_lookup_1 in Hin as [i Hi].
    destruct (Forall2_lookup_r _ _ _ _ _ Hss Hi) as ([b0 s0] & _ & Hkv).
    pose proof Hkv as (s' & [= <- <-] & _)%catalogScripts_Ok. by exists s0. }
  destruct (hasSnapshots m) eqn:Hhas.
  - apply fmap_Ok_iff in Hsn as ([before_ after_] & Hcs & ->). cbn [default from_option id fmap option_fmap option_map snd] in Hst.
    unfold catalogSnapshots in Hcs. cbv zeta in Hcs.
    apply seq_Ok_iff in Hcs as (Hvb & (Hva & (Hsz%throw_if_Ok_iff & (Hch%throw_if_Ok_iff & [= <- <-])%seq_Ok_iff)%seq_Ok_iff)%seq_Ok_iff).
    rewrite validateSnapshot_snapshot_ok in Hvb, Hva. bool_to_prop. injection Hst as <-.
    pose proof (hasSnapshots_canonical m ss) as Hh. rewrite Hhas in Hh.
    eexists. split; [rewrite Hh; reflexivity|].
    cbn [version_of migration_name scripts migration_before migration_after].
    split; [done|]. split; [done|]. split; [done|]. split; [done|]. split.
    + unfold entry_ok. rewrite Hh. cbn [version_of migration_name scripts migration_before migration_after].
      split; [done|]. split; [done|]. split.
      { intros _. split; [done|]. split; [done|]. rewrite Hlen.
        repeat match goal with H : (_ =? _)%nat = true |- _ => apply Nat.eqb_eq in H end. done. }
      intros b s Hin. destruct (Heach b s Hin) as (s0 & (s' & [= <-] & ? & ? & ? & ? & _ & _ & Hc1 & Hc2 & Hhash)%catalogScripts_Ok).
      split_and?; try done. intros _. by apply Hhash.
    + intros _ p ->. by bool_to_prop.
  - injection Hsn as <-. cbn [default from_option id fmap option_fmap option_map] in Hst. injection Hst as <-.
    assert (hasSnapshots (MkMigration (version_of m) (migration_name m) ss (migration_before m) (migration_after m)) = false)
      as Hh by exact Hhas.
    eexists. split; [rewrite Hh; reflexivity|].
    cbn [version_of migration_name scripts migration_before migration_after].
    split; [done|]. split; [done|]. split; [done|]. split; [done|]. split; [|by rewrite Hh].
    unfold entry_ok. rewrite Hh. cbn [version_of migration_name scripts migration_before migration_after].
    unfold hasSnapshots in Hhas. bool_to_prop.
    match goal with H1 : backends (migration_before m) = [], H2 : backends (migration_after m) = [] |- _ => rewrite H1, H2 end.
    split; [done|]. split; [done|]. split; [done|].
    intros b s Hin. destruct (Heach b s Hin) as (s0 & (s' & [= <-] & ? & ? & ? & ? & _ & _ & Hc1 & Hc2 & _)%catalogScripts_Ok).
    by split_and?.
Qed.

Lemma makeCatalog_fold l done_ previous previousAfter r x y :
  foldM catalogMigration (done_, previous, previousAfter) l = Ok (r, x, y) ->
  exists ms, r = (done_ ++ ms)%list /\ Forall entry_ok ms /\ linked previous previousAfter ms /\
    Forall2 (fun m m' => version_of m' = version_of m /\ migration_name m' = migration_name m /\
                         map fst (scripts m') = map fst (scripts m)) l ms.
Proof.
  revert done_ previous previousAfter. induction l as [|m l IH]; intros done_ previous previousAfter; cbn [foldM].
  - intros [= <- _ _]. exists []. rewrite app_nil_r. by repeat constructor.
  - intros (state & (m' & -> & Hv & Hn & Hf & Hlt & Hok & Hlink)%catalogMigration_Ok & Hrest)%bind_Ok_iff.
    apply IH in Hrest as (ms & -> & Hall & Hms & Hf2). exists (m' :: ms). rewrite <- app_assoc.
    split; [done|]. split; [by constructor|]. split; [by split_and?|]. by constructor.
Qed.

Lemma linked_sorted previous previousAfter ms :
  linked previous previousAfter ms ->
  StronglySorted Z.lt (map version_of ms) /\ Forall (fun v => previous < v)%Z (map version_of ms).
Proof.
  revert previous previousAfter. induction ms as [|m ms IH]; intros previous previousAfter; cbn [map]; [by repeat constructor|].
  intros (Hlt & _ & Hms). apply IH in Hms as [Hs Hall]. split; [by constructor|]. constructor; [done|].
  eapply Forall_impl; [exact Hall|]. simpl. lia.
Qed.

Lemma makeCatalog_Ok l r :
  makeCatalog l = Ok r ->
  Forall entry_ok r /\ linked 0 None r /\
  Forall2 (fun m m' => version_of m' = version_of m /\ migration_name m' = migration_name m /\
                       map fst (scripts m') = map fst (scripts m)) (merge_sort version_le l) r.
Proof.
  unfold makeCatalog. intros ([[r' x] y] & (ms & -> & ? & ? & ?)%makeCatalog_fold & [= <-])%bind_Ok_iff. done.
Qed.

(** The versions given are distinct when the catalog accepts them. *)
Lemma makeCatalog_versions l r :
  makeCatalog l = Ok r -> map version_of r ≡ₚ map version_of l /\ NoDup (map version_of l).
Proof.
  intros (_ & Hl & Hf)%makeCatalog_Ok.
  assert (map version_of r = map version_of (merge_sort version_le l)) as Heq.
  { clear Hl. induction Hf as [|m m' k k' (Hv & _) _ IH]; [done|]. cbn [map]. congruence. }
  assert (map version_of (merge_sort version_le l) ≡ₚ map version_of l) as Hp
    by (apply Permutation_map, merge_sort_Permutation).
  rewrite <- Hp, <- Heq. split; [done|]. apply linked_sorted in Hl as [Hs _]. clear -Hs.
  induction Hs as [|v vs _ IH Hall]; constructor; [|done]. intros Hin. rewrite Forall_forall in Hall.
  specialize (Hall v Hin). lia.
Qed.
End catalogs.

(** C37: A catalog is a chain of complete migrations: its versions are positive and
    strictly increasing, they are the versions given, every migration has a safe
    name and scripts without NUL bytes with valid contexts; those with snapshots
    have valid ones, for exactly the backends of their scripts, with the hashes of
    both; and adjacent migrations with snapshots share the snapshot between them. *)
Theorem makeCatalog_chain `{JsonLibrary} l r :
  makeCatalog l = Ok r ->
  Forall entry_ok r /\ linked 0 None r /\
  StronglySorted Z.lt (map version_of r) /\ (forall m, m ∈ r -> 0 < version_of m)%Z /\
  map version_of r ≡ₚ map version_of l.
Proof.
  intros Hl. pose proof Hl as (Hall & Hlink & _)%makeCatalog_Ok. split; [done|]. split; [done|].
  pose proof Hlink as [Hs Hpos]%linked_sorted. split; [done|]. split.
  - intros m Hm. rewrite Forall_forall in Hpos. apply Hpos. by apply list_elem_of_fmap_2.
  - by apply makeCatalog_versions.
Qed.

(** The order in which migrations are given does not matter: a catalog made
    from them in one order is the catalog made from them in any other. *)
Theorem makeCatalog_order `{JsonLibrary} l k r :
  l ≡ₚ k -> makeCatalog l = Ok r -> makeCatalog k = Ok r.
Proof.
  intros Hp Hl. pose proof (makeCatalog_versions l r Hl) as [_ Hnd]. unfold makeCatalog in *.
  assert (merge_sort version_le k = merge_sort version_le l) as ->; [|done].
  apply (StronglySorted_unique_strong version_le).
  - intros x y Hx Hy Hxy Hyx. rewrite merge_sort_Permutation in Hx, Hy. rewrite <- Hp in Hx.
    assert (version_of x = version_of y) as Heq by (unfold version_le in *; lia).
    apply list_elem_of_lookup_1 in Hx as [i Hi], Hy as [j Hj].
    assert (i = j) as ->.
    { apply (NoDup_lookup _ _ _ (version_of x) Hnd); [|rewrite Heq]; apply list_lookup_fmap_Some_2; done. }
    congruence.
  - apply StronglySorted_merge_sort; apply _.
  - apply StronglySorted_merge_sort; apply _.
  - by rewrite !merge_sort_Permutation, Hp.
Qed.

(** ** Two plain migrations, and the generated creation of a table *)
#[local] Instance plain_text : JsonLibrary := {| dump := fun _ => Ok "{}"; parse := fun _ => ([], Ok JNull) |}.

Definition sample_migration (version : Z) (name sql : string) : Migration :=
  MkMigration version name [(Sqlite, MkSqlMigration sql (Some "SELECT 0;") empty_context empty_context "" "")]
    (MkSnapshot 1 []) (MkSnapshot 1 []).
Definition sample_migrations : list Migration :=
  [sample_migration 2 "second" "SELECT 2;"; sample_migration 1 "first" "SELECT 1;"].

Lemma makeCatalog_chain_witness :
  exists r, makeCatalog sample_migrations = Ok r /\ linked 0 None r /\ map version_of r ≡ₚ [2%Z; 1%Z].
Proof.
  destruct (makeCatalog sample_migrations) as [r|e] eqn:H; [|vm_compute in H; discriminate H].
  exists r. destruct (makeCatalog_chain sample_migrations r H) as (_ & ? & _ & _ & ?). by split_and?.
Defined.

Lemma makeCatalog_order_witness :
  exists r, makeCatalog sample_migrations = Ok r /\
    makeCatalog [sample_migration 1 "first" "SELECT 1;"; sample_migration 2 "second" "SELECT 2;"] = Ok r.
Proof.
  destruct (makeCatalog sample_migrations) as [r|e] eqn:H; [|vm_compute in H; discriminate H].
  exists r. split; [done|]. apply (makeCatalog_order sample_migrations); [constructor|exact H].
Defined.

Lemma checksum_binds_witness :
  exists x, checksum_data (MkSqlMigration "SELECT 1;" None empty_context empty_context "" "") = Ok x /\
    normalizeSql "SELECT 1;" = normalizeSql (byte_order_mark +:+ "SELECT 1;").
Proof.
  eexists. split; [vm_compute; reflexivity|].
  apply (checksum_binds (MkSqlMigration "SELECT 1;" None empty_context empty_context "" "")
           (MkSqlMigration (byte_order_mark +:+ "SELECT 1;") None empty_context empty_context "" ""))
    with (x := "orm-cxx-model-migration-v1:9:SELECT 1;:6:absent:3:{}
:3:{}
:0::0:"); vm_compute; reflexivity.
Defined.

Lemma generated_contexts_accepted_witness :
  exists m d s, generate 7 "add-posts" sample_supplied sample_creation = Ok (m, d) /\ (Sqlite, s) ∈ scripts m /\
    validateContext (downContext s) (BackendMap.find Sqlite (backends (migration_after m)))
      (BackendMap.find Sqlite (backends (migration_before m))) 7 Sqlite = Ok tt.
Proof.
  destruct (generate 7 "add-posts" sample_supplied sample_creation) as [[m d]|e] eqn:H;
    [|vm_compute in H; discriminate H].
  assert (exists inverse s, compare (after d) (before d) (inverseDecisions sample_creation) = Ok inverse /\
    diagnostics inverse = [] /\ (Sqlite, s) ∈ scripts m /\ rebuildTables (upContext s) = [] /\
    rebuildTables (downContext s) = []) as (inverse & s & Hi & Hd & Hs & Hu & Hdo).
  { vm_compute in H. injection H as <- <-. do 2 eexists. split; [vm_compute; reflexivity|]. split; [reflexivity|].
    split; [left|]. split; reflexivity. }
  exists m, d, s. split; [done|]. split; [done|].
  apply (generated_contexts_accepted 7 "add-posts" sample_supplied sample_creation m d inverse Sqlite s 7);
    [repeat constructor|done|done|done|done|rewrite Hu; constructor|rewrite Hdo; constructor].
Defined.
