(* ===== verification/History.v ===== *)
(** History: what the recorded history says about a catalog, and the plans that
    follow from it -- the functions [scriptsFor], [validateCatalog], [evaluate],
    [requireValid] and [makePlan] of src/migrations/MigrationState.cpp with the
    records of modules/orm/migrations.cppm. *)
From S2P Require Import Prelude Foundation Chrono Values Codec Schema Sha256 Models PhysicalSql Snapshot Diff SqlValidation Literals SchemaJson Generation Renames Catalog.
Local Open Scope string_scope.

(** ** Records *)
Record MigrationSummary := MkSummary { ms_version : Z; ms_name : string }.

Record AppliedMigration := MkApplied {
  am_version : Z;
  am_name : string;
  am_backend : BackendType;
  am_checksum : string;
  appliedAt : string;
  baseline : bool
}.

#[export] Instance AppliedMigration_eq_dec : EqDecision AppliedMigration.
Proof. solve_decision. Defined.

Record Diagnostic := MkProblem { pr_code : ErrorCode; pr_version : Z; pr_message : string }.

Inductive Direction := Up | Down.

#[export] Instance Direction_eq_dec : EqDecision Direction.
Proof. solve_decision. Defined.

Record IncompleteMigration := MkIncomplete {
  im_version : Z;
  im_name : string;
  im_backend : BackendType;
  im_direction : Direction;
  im_checksum : string
}.

#[export] Instance IncompleteMigration_eq_dec : EqDecision IncompleteMigration.
Proof. solve_decision. Defined.

Record Status := MkStatus {
  currentVersion : Z;
  baselineVersion : Z;
  applied : list AppliedMigration;
  pending : list MigrationSummary;
  incomplete_ : option IncompleteMigration;
  problems : list Diagnostic
}.

Definition isValid (s : Status) : bool :=
  bool_decide (problems s = []) && negb (is_some (incomplete_ s)).

Record PlannedMigration := MkPlanned { pm_version : Z; pm_name : string; pm_sql : string }.

Inductive MigrationAtomicity := WholeMigration | NonTransactional.

#[export] Instance MigrationAtomicity_eq_dec : EqDecision MigrationAtomicity.
Proof. solve_decision. Defined.

Record Plan := MkPlan {
  plan_direction : Direction;
  plan_from : Z;
  plan_to : Z;
  plan_atomicity : MigrationAtomicity;
  plan_migrations : list PlannedMigration
}.

Definition summary (m : Migration) : MigrationSummary := MkSummary (version_of m) (migration_name m).

(** [history.back().version], or 0. *)
Definition lastVersion (history : list AppliedMigration) : Z :=
  match last history with Some r => am_version r | None => 0%Z end.

(** ** The operations *)
Definition migrationError {A} (code : ErrorCode) (message : string) (version : Z) (b : BackendType) : res A :=
  Err (MigrationError code message version b None).

Section history.
Context `{JsonLibrary} (b : BackendType).

Definition scriptsFor (m : Migration) : res SqlMigration :=
  match BackendMap.find b (scripts m) with
  | Some s => Ok s
  | None => migrationError InvalidCatalog "Migration has no SQL for this backend" (version_of m) b
  end.

Definition validateCatalog (catalog : list Migration) : res unit :=
  forM_ catalog (fun m =>
    s ← scriptsFor m;
    validateScript (up s) b (version_of m) ;;
    match down s with Some script => validateScript script b (version_of m) | None => Ok tt end).

(** The checksum the history has to record for a migration. *)
Definition migrationChecksum (m : Migration) : res string := s ← scriptsFor m; checksum s.

(** Whether a record differs from the migration at its place, [None] past the end of
    the catalog. *)
Definition differs (m : option Migration) (r : AppliedMigration) : bool :=
  match m with
  | None => true
  | Some m => negb (am_version r =? version_of m)%Z || negb (bool_decide (am_name r = migration_name m))
              || negb (bool_decide (am_backend r = b))
  end.

(** The problem of one record. *)
Definition recordProblem (ordinarySeen : bool) (m : option Migration) (r : AppliedMigration) : res (list Diagnostic) :=
  if (ordinarySeen && baseline r) || differs m r
  then Ok [MkProblem InvalidHistory (am_version r) "Migration history is not a matching catalog prefix"]
  else match m with
       | None => Ok []
       | Some m =>
           sum ← migrationChecksum m;
           Ok (if bool_decide (am_checksum r = sum) then []
               else [MkProblem ChecksumMismatch (am_version r) "Applied migration SQL has changed"])
       end.

(** The loop over the records; [catalog] is what is left of the catalog at the
    record's index. *)
Fixpoint checkRecords (ordinarySeen : bool) (baseline_ : Z) (catalog : list Migration) (history : list AppliedMigration)
    : res (Z * list Diagnostic) :=
  match history with
  | [] => Ok (baseline_, [])
  | r :: history =>
      found ← recordProblem ordinarySeen (head catalog) r;
      '(baseline_, rest) ← checkRecords (ordinarySeen || negb (baseline r))
        (if baseline r then am_version r else baseline_) (tail catalog) history;
      Ok (baseline_, found ++ rest)%list
  end.

(** The index of the migration an interrupted script can belong to. *)
Definition expectedIndex (catalog : list Migration) (history : list AppliedMigration) (d : Direction) : nat :=
  match d with
  | Up => length history
  | Down => if bool_decide (history = []) then length catalog else (length history - 1)%nat
  end.

Definition checkMarker (catalog : list Migration) (history : list AppliedMigration) (baseline_ : Z)
    (marker : IncompleteMigration) : res (list Diagnostic) :=
  let invalid :=
    Ok [MkProblem InvalidHistory (im_version marker) "Incomplete marker does not match catalog position"] in
  match find_by version_of (im_version marker) catalog, catalog !! expectedIndex catalog history (im_direction marker) with
  | Some found, Some at_index =>
      if negb (bool_decide (im_backend marker = b)) || negb (bool_decide (im_name marker = migration_name found))
         || negb (version_of at_index =? im_version marker)%Z
         || bool_decide (im_direction marker = Down) && (im_version marker <=? baseline_)%Z
      then invalid
      else sum ← migrationChecksum found;
           Ok (if bool_decide (im_checksum marker = sum) then []
               else [MkProblem ChecksumMismatch (im_version marker) "Incomplete migration SQL has changed"])
  | _, _ => invalid
  end.

Definition evaluate (catalog : list Migration) (history : list AppliedMigration) (marker : option IncompleteMigration)
    : res Status :=
  '(baseline_, found) ← checkRecords false 0 catalog history;
  more ← match marker with Some m => checkMarker catalog history baseline_ m | None => Ok [] end;
  Ok (MkStatus (lastVersion history) baseline_ history (map summary (drop (length history) catalog)) marker
        (found ++ more)%list).

Definition requireValid (s : Status) : res unit :=
  match problems s, incomplete_ s with
  | issue :: _, _ => migrationError (pr_code issue) (pr_message issue) (pr_version issue) b
  | [], Some marker =>
      migrationError IncompleteMigrationCode "Incomplete migration requires operator resolution" (im_version marker) b
  | [], None => Ok tt
  end.

(** *** Plans *)
Definition selected (d : Direction) (current target : Z) (m : Migration) : bool :=
  match d with
  | Up => (current <? version_of m)%Z && (version_of m <=? target)%Z
  | Down => (version_of m <=? current)%Z && (target <? version_of m)%Z
  end.

Definition planned (d : Direction) (m : Migration) : res PlannedMigration :=
  s ← scriptsFor m;
  match d, down s with
  | Up, _ => Ok (MkPlanned (version_of m) (migration_name m) (up s))
  | Down, Some script => Ok (MkPlanned (version_of m) (migration_name m) script)
  | Down, None => migrationError MissingDown "Migration has no down SQL" (version_of m) b
  end.

Definition defaultTarget (catalog : list Migration) (d : Direction) : Z :=
  match d, last catalog with Up, Some m => version_of m | _, _ => 0%Z end.

Definition makePlan (catalog : list Migration) (s : Status) (d : Direction) (requested : option Z) : res Plan :=
  requireValid s ;;
  let target := default (defaultTarget catalog d) requested in
  throw_if ((target <? 0)%Z
            || negb (target =? 0)%Z && negb (is_some (find_by version_of target catalog))
            || bool_decide (d = Up) && (target <? currentVersion s)%Z
            || bool_decide (d = Down) && (currentVersion s <? target)%Z)
    (MigrationError InvalidTarget "Invalid migration target" target b None) ;;
  throw_if (bool_decide (d = Down) && (target <? baselineVersion s)%Z)
    (MigrationError BaselineBoundary "Cannot migrate below the baseline" target b None) ;;
  steps ← mapM (planned d) (List.filter (selected d (currentVersion s) target) catalog);
  Ok (MkPlan d (currentVersion s) target WholeMigration (match d with Up => steps | Down => reverse steps end)).
End history.

(** ** What a matching history is *)
Section matching.
Context `{JsonLibrary} (b : BackendType).

Definition record_matches (m : Migration) (r : AppliedMigration) : Prop :=
  am_version r = version_of m /\ am_name r = migration_name m /\ am_backend r = b
  /\ migrationChecksum b m = Ok (am_checksum r).

(** The records are those of the first migrations of the catalog, and no baseline
    record comes after an ordinary one. *)
Definition matching (catalog : list Migration) (history : list AppliedMigration) : Prop :=
  StronglySorted (fun r r' => baseline r' = true -> baseline r = true) history
  /\ exists rest, exists recorded, catalog = (recorded ++ rest)%list /\ Forall2 record_matches recorded history.

(** The version of the last baseline record, or [v]. *)
Definition baseline_from (v : Z) (history : list AppliedMigration) : Z :=
  match last (List.filter baseline history) with Some r => am_version r | None => v end.

Definition marker_matches (catalog : list Migration) (history : list AppliedMigration) (marker : IncompleteMigration)
    : Prop :=
  exists m, catalog !! expectedIndex catalog history (im_direction marker) = Some m
    /\ im_version marker = version_of m /\ im_name marker = migration_name m /\ im_backend marker = b
    /\ migrationChecksum b m = Ok (im_checksum marker)
    /\ (im_direction marker = Down -> (baseline_from 0 history < im_version marker)%Z).

Lemma differs_false m r :
  differs b m r = false <-> exists m', m = Some m' /\ am_version r = version_of m' /\ am_name r = migration_name m' /\ am_backend r = b.
Proof.
  destruct m as [m|]; simpl.
  - rewrite !orb_false_iff, !negb_false_iff, Z.eqb_eq, !bool_decide_eq_true. naive_solver.
  - naive_solver.
Qed.

Lemma recordProblem_nil seen m r ps :
  recordProblem b seen m r = Ok ps ->
  (ps = [] <-> (seen = true -> baseline r = false) /\ exists m', m = Some m' /\ record_matches m' r).
Proof.
  unfold recordProblem, record_matches. destruct (_ || _) eqn:Hc.
  - intros [= <-]. split; [done|]. intros (Hseen & m' & Hm & Hv & Hn & Hb & _).
    assert (differs b m r = false) as Hd by (apply differs_false; naive_solver). rewrite Hd, orb_false_r in Hc.
    apply andb_true_iff in Hc as [-> Hbase]. rewrite Hseen in Hbase by done. done.
  - apply orb_false_iff in Hc as [Hseen Hd]. apply differs_false in Hd as (m' & -> & Hv & Hn & Hb).
    intros (sum & Hsum & [= <-])%bind_Ok_iff. case_bool_decide as Hs.
    + split; [intros _|done]. split; [intros ->; by destruct (baseline r)|]. exists m'. by rewrite Hs.
    + split; [done|]. intros (_ & m2 & [= <-] & _ & _ & _ & Heq). congruence.
Qed.

Lemma baseline_from_cons v r h : baseline_from v (r :: h) = baseline_from (if baseline r then am_version r else v) h.
Proof.
  unfold baseline_from. cbn [List.filter]. destruct (baseline r); [|done].
  rewrite last_cons. by destruct (last _).
Qed.

Lemma checkRecords_nil seen v catalog h v' ps :
  checkRecords b seen v catalog h = Ok (v', ps) ->
  v' = baseline_from v h /\
  (ps = [] <-> (seen = true -> Forall (fun r => baseline r = false) h) /\ matching catalog h).
Proof.
  revert seen v catalog ps. induction h as [|r h IH]; intros seen v catalog ps; cbn [checkRecords].
  - intros [= <- <-]. split; [done|]. split; [|done]. intros _. split; [constructor|].
    split; [constructor|]. by exists catalog, [].
  - intros (found & Hfound & ([v2 rest] & Hrest & [= <- <-])%bind_Ok_iff)%bind_Ok_iff.
    apply recordProblem_nil in Hfound. apply IH in Hrest as [-> Hrest]. rewrite baseline_from_cons.
    split; [done|]. rewrite app_nil, Hfound, Hrest. clear IH Hfound Hrest. unfold matching. split.
    + intros ((Hseen & m & Hm & Hr) & Htail & Hsorted & left_ & recorded & Hcat & Hall).
      destruct catalog as [|m' catalog]; [done|]. cbn [head tail] in *. injection Hm as ->.
      split; [|split].
      * intros ->. constructor; [auto|]. apply Htail. done.
      * constructor; [done|]. destruct (baseline r) eqn:Hb; [apply Forall_forall; naive_solver|].
        eapply Forall_impl; [apply Htail; apply orb_true_r|]. simpl. congruence.
      * exists left_, (m :: recorded). split; [by rewrite Hcat|by constructor].
    + intros (Hseen & Hsorted & left_ & recorded & Hcat & Hall). inversion Hall as [|m ? recorded' ? Hr Hall']; subst.
      apply StronglySorted_inv in Hsorted as [Hsorted Hfirst]. cbn [head tail app].
      split; [split; [intros Hs; specialize (Hseen Hs); by inversion Hseen|by exists m]|]. split.
      * intros [Hs|Hb%negb_true_iff]%orb_true_iff; [specialize (Hseen Hs); by inversion Hseen|].
        eapply Forall_impl; [exact Hfirst|]. simpl. intros r'. destruct (baseline r'); naive_solver congruence.
      * split; [done|]. by exists left_, recorded'.
Qed.

Lemma checkMarker_nil catalog h marker ps :
  NoDup (map version_of catalog) -> checkMarker b catalog h (baseline_from 0 h) marker = Ok ps ->
  (ps = [] <-> marker_matches catalog h marker).
Proof.
  intros Hnd. unfold checkMarker, marker_matches.
  destruct (catalog !! _) as [m|] eqn:Hm; [|destruct (find_by _ _ _); intros [= <-]; (split; [done|]); by intros (? & ? & _)].
  assert (forall v, version_of m = v -> find_by version_of v catalog = Some m) as Hfind.
  { intros v <-. apply find_by_NoDup; [done|]. by apply list_elem_of_lookup_2 in Hm. }
  destruct (find_by _ _ _) as [m'|] eqn:Hf.
  2: { intros [= <-]. split; [done|]. intros (m' & [= <-] & Hv & _). by rewrite Hfind in Hf by done. }
  destruct (_ || _) eqn:Hc.
  - intros [= <-]. split; [done|]. intros (m2 & [= <-] & Hv & Hn & Hb & _ & Hd).
    rewrite Hfind in Hf by done. injection Hf as <-.
    rewrite !bool_decide_true in Hc by done. rewrite <- Hv, Z.eqb_refl in Hc. cbn [negb orb] in Hc.
    apply andb_true_iff in Hc as [Hdir Hle]. apply bool_decide_eq_true in Hdir. apply Z.leb_le in Hle.
    specialize (Hd Hdir). lia.
  - intros (sum & Hsum & [= <-])%bind_Ok_iff. bool_to_prop.
    assert (version_of m = im_version marker) as Hv by done. rewrite Hfind in Hf by done. injection Hf as <-.
    destruct (decide (im_checksum marker = sum)) as [Hs|Hs].
    + rewrite bool_decide_true by done. split; [|done]. intros _. exists m. rewrite Hs. split_and?; try done.
      intros Hd. rewrite bool_decide_true in * by done. cbn [andb] in *. bool_to_prop. lia.
    + rewrite bool_decide_false by done. split; [done|]. intros (m2 & [= <-] & _ & _ & _ & Heq & _). congruence.
Qed.
End matching.

(** *** Status *)
Definition is_Ok {A} (r : res A) : Prop := exists a, r = Ok a.

Section status.
Context `{JsonLibrary} (b : BackendType) (catalog : list Migration).

(** Everything the status reports, and when it reports no problem. *)
Lemma evaluate_Ok history marker s :
  NoDup (map version_of catalog) -> evaluate b catalog history marker = Ok s ->
  applied s = history /\ incomplete_ s = marker /\ currentVersion s = lastVersion history /\
  baselineVersion s = baseline_from 0 history /\
  pending s = map summary (drop (length history) catalog) /\
  (problems s = [] <->
     matching b catalog history /\ forall m, marker = Some m -> marker_matches b catalog history m).
Proof.
  intros Hnd. unfold evaluate.
  intros ([v found] & (-> & Hfound)%checkRecords_nil & (more & Hmore & [= <-])%bind_Ok_iff)%bind_Ok_iff.
  cbn [applied incomplete_ currentVersion baselineVersion pending problems].
  repeat (split; [done|]). rewrite app_nil, Hfound. destruct marker as [m|].
  - apply checkMarker_nil in Hmore; [|done]. rewrite Hmore. naive_solver.
  - injection Hmore as <-. naive_solver.
Qed.

Lemma requireValid_Ok_iff s u : requireValid b s = Ok u <-> problems s = [] /\ incomplete_ s = None.
Proof. unfold requireValid. destruct u, (problems s), (incomplete_ s); naive_solver. Qed.

Lemma requireValid_isValid s : is_ok (requireValid b s) = isValid s.
Proof. unfold requireValid, isValid. by destruct (problems s), (incomplete_ s). Qed.

(** A catalog whose checksums can be computed always has a status. *)
Lemma checkRecords_total seen v ms history :
  Forall (fun m => is_Ok (migrationChecksum b m)) ms -> is_Ok (checkRecords b seen v ms history).
Proof.
  revert seen v ms. induction history as [|r history IH]; intros seen v ms Hall; cbn [checkRecords]; [by eexists|].
  assert (is_Ok (recordProblem b seen (head ms) r)) as [found Hf].
  { unfold recordProblem. destruct (_ || _); [by eexists|]. destruct Hall as [|m ms [sum Hm] _]; cbn [head]; [by eexists|].
    rewrite Hm. by eexists. }
  rewrite Hf, bind_Ok.
  destruct (IH (seen || negb (baseline r)) (if baseline r then am_version r else v) (tail ms)) as [[v' rest] Hr];
    [by destruct Hall|]. rewrite Hr, bind_Ok. by eexists.
Qed.

Lemma evaluate_total history marker :
  Forall (fun m => is_Ok (migrationChecksum b m)) catalog -> is_Ok (evaluate b catalog history marker).
Proof.
  intros Hall. unfold evaluate. destruct (checkRecords_total false 0 catalog history Hall) as [[v found] ->].
  rewrite bind_Ok. assert (is_Ok (match marker with Some m => checkMarker b catalog history v m | None => Ok [] end)) as [more ->].
  { destruct marker as [m|]; [|by eexists]. unfold checkMarker.
    destruct (find_by _ _ _) as [found'|] eqn:Hf; [|by eexists]. destruct (catalog !! _); [|by eexists].
    destruct (_ || _); [by eexists|]. apply find_by_Some in Hf as [Hin _]. rewrite Forall_forall in Hall.
    destruct (Hall found' Hin) as [sum ->]. by eexists. }
  rewrite bind_Ok. by eexists.
Qed.
End status.

(** *** The versions of a catalog *)
Definition upto (v : Z) (l : list Migration) : list Migration := List.filter (fun m => version_of m <=? v)%Z l.
Definition above (v : Z) (l : list Migration) : list Migration := List.filter (fun m => v <? version_of m)%Z l.

(** The version that a prefix of the catalog leads to. *)
Definition versionAfter (l : list Migration) : Z :=
  match last l with Some m => version_of m | None => 0%Z end.

(** What [makeCatalog_chain] gives for the versions of a catalog. *)
Definition increasing (catalog : list Migration) : Prop :=
  StronglySorted Z.lt (map version_of catalog) /\ Forall (fun m => 0 < version_of m)%Z catalog.

Lemma increasing_app l k : increasing (l ++ k) -> increasing l /\ increasing k /\
  forall x y, x ∈ l -> y ∈ k -> (version_of x < version_of y)%Z.
Proof.
  unfold increasing. rewrite map_app, Forall_app, StronglySorted_app.
  intros ((Hlt & Hl & Hk) & Hpl & Hpk). split_and?; [done..|]. intros x y Hx Hy.
  apply Hlt; by apply list_elem_of_fmap_2.
Qed.

Lemma increasing_NoDup l : increasing l -> NoDup (map version_of l).
Proof.
  intros [Hs _]. induction Hs as [|v vs _ IH Hall]; constructor; [|done].
  intros Hin. rewrite Forall_forall in Hall. specialize (Hall v Hin). lia.
Qed.

Lemma filter_all {A} (f : A -> bool) l : (forall x, x ∈ l -> f x = true) -> List.filter f l = l.
Proof.
  induction l as [|x l IH]; [done|]. cbn [List.filter]. intros Hall. rewrite (Hall x) by left.
  f_equal. apply IH. intros y Hy. apply Hall. by right.
Qed.

Lemma filter_none {A} (f : A -> bool) l : (forall x, x ∈ l -> f x = false) -> List.filter f l = [].
Proof.
  induction l as [|x l IH]; [done|]. cbn [List.filter]. intros Hall. rewrite (Hall x) by left.
  apply IH. intros y Hy. apply Hall. by right.
Qed.

Lemma versionAfter_max l x : increasing l -> x ∈ l -> (version_of x <= versionAfter l)%Z.
Proof.
  intros Hl Hx. unfold versionAfter. destruct (last l) as [m|] eqn:Hm.
  - apply last_Some in Hm as [k ->]. apply elem_of_app in Hx as [Hx | ->%list_elem_of_singleton]; [|done].
    apply increasing_app in Hl as (_ & _ & Hlt). specialize (Hlt x m Hx (list_elem_of_here _ _)). lia.
  - apply last_None in Hm as ->. by apply not_elem_of_nil in Hx.
Qed.

Lemma versionAfter_min l k y : increasing (l ++ k) -> y ∈ k -> (versionAfter l < version_of y)%Z.
Proof.
  intros (Hl & [_ Hk] & Hlt)%increasing_app Hy. unfold versionAfter. destruct (last l) as [m|] eqn:Hm.
  - apply Hlt; [|done]. apply last_Some in Hm as [l' ->]. apply elem_of_app. right. left.
  - rewrite Forall_forall in Hk. by apply Hk.
Qed.

(** The catalog up to and above the version that a prefix of it leads to. *)
Lemma upto_versionAfter l k :
  increasing (l ++ k) -> upto (versionAfter l) (l ++ k) = l /\ above (versionAfter l) (l ++ k) = k.
Proof.
  intros Hs. pose proof Hs as (Hl & _ & _)%increasing_app. unfold upto, above. rewrite !List.filter_app.
  rewrite (filter_all _ l), (filter_none _ k), (filter_none _ l), (filter_all _ k), app_nil_r; [done|..].
  - intros y Hy. apply Z.ltb_lt. by eapply versionAfter_min.
  - intros x Hx. apply Z.ltb_ge. by apply versionAfter_max.
  - intros y Hy. apply Z.leb_gt. by eapply versionAfter_min.
  - intros x Hx. apply Z.leb_le. by apply versionAfter_max.
Qed.

(** A version of the catalog, or 0, splits it. *)
Lemma split_at_version catalog v :
  increasing catalog -> (v = 0%Z \/ exists m, m ∈ catalog /\ version_of m = v) ->
  exists l k, catalog = (l ++ k)%list /\ versionAfter l = v.
Proof.
  intros Hs [-> | (m & Hm & <-)].
  - by exists [], catalog.
  - apply list_elem_of_split in Hm as (l & k & ->). exists (l ++ [m])%list, k.
    rewrite <- app_assoc. split; [done|]. unfold versionAfter. by rewrite last_snoc.
Qed.

Lemma split_le l1 k1 l2 k2 :
  increasing (l1 ++ k1) -> (l1 ++ k1 = l2 ++ k2)%list -> (versionAfter l1 <= versionAfter l2)%Z ->
  exists seg, l2 = (l1 ++ seg)%list /\ k1 = (seg ++ k2)%list.
Proof.
  intros Hs Heq Hle. apply app_eq_app in Heq as (seg & [[-> ->]|[-> ->]]); [|by exists seg].
  destruct seg as [|m seg]; [exists []; by rewrite !app_nil_r|].
  rewrite <- app_assoc in Hs.
  pose proof (versionAfter_min l2 _ m Hs (list_elem_of_here _ _)) as H1.
  rewrite app_assoc in Hs. apply increasing_app in Hs as (Hs & _).
  pose proof (versionAfter_max (l2 ++ m :: seg) m Hs) as H2.
  rewrite elem_of_app in H2. specialize (H2 (or_intror (list_elem_of_here _ _))). lia.
Qed.

(** *** Plans *)
Section plans.
Context `{JsonLibrary} (b : BackendType) (catalog : list Migration).

Lemma recorded_version recorded history :
  Forall2 (record_matches b) recorded history -> lastVersion history = versionAfter recorded.
Proof.
  unfold lastVersion, versionAfter. intros Hall. induction Hall as [|m r ms rs Hr Hall IH] using Forall2_ind; [done|].
  rewrite !last_cons. destruct Hall; [by destruct Hr|]. rewrite !last_cons in *. by destruct (last _), (last _).
Qed.

(** The versions a plan may lead to from a status. *)
Definition reachable (s : Status) (d : Direction) (target : Z) : Prop :=
  (target = 0%Z \/ exists m, m ∈ catalog /\ version_of m = target) /\
  match d with Up => (currentVersion s <= target)%Z | Down => (target <= currentVersion s)%Z end.

(** What is executed to get from one version to another. *)
Definition steps (s : Status) (d : Direction) (target : Z) : list Migration :=
  List.filter (selected d (currentVersion s) target) catalog.

Lemma targetGuard_false s d target :
  increasing catalog ->
  (target <? 0)%Z || negb (target =? 0)%Z && negb (is_some (find_by version_of target catalog))
  || bool_decide (d = Up) && (target <? currentVersion s)%Z
  || bool_decide (d = Down) && (currentVersion s <? target)%Z = false <-> reachable s d target.
Proof.
  intros [_ Hpos]. unfold reachable. rewrite !orb_false_iff, !andb_false_iff, negb_false_iff, Z.eqb_eq, negb_false_iff.
  rewrite (is_some_iff (find_by version_of target catalog)), find_by_is_Some, list_elem_of_fmap, !Z.ltb_ge.
  assert ((exists m, target = version_of m /\ m ∈ catalog) -> (0 < target)%Z) as Hin.
  { intros (m & -> & Hm). rewrite Forall_forall in Hpos. by apply Hpos. }
  destruct d; rewrite ?(bool_decide_true (_ = _)), ?(bool_decide_false (_ = _)) by done; split.
  all: intros Hx; split_and?; naive_solver lia.
Qed.

Lemma makePlan_cases s d requested :
  increasing catalog -> isValid s = true ->
  let target := default (defaultTarget catalog d) requested in
  (~ reachable s d target ->
     makePlan b catalog s d requested = migrationError InvalidTarget "Invalid migration target" target b) /\
  (reachable s d target -> d = Down -> (target < baselineVersion s)%Z ->
     makePlan b catalog s d requested = migrationError BaselineBoundary "Cannot migrate below the baseline" target b) /\
  (reachable s d target -> (d = Down -> (baselineVersion s <= target)%Z) ->
     makePlan b catalog s d requested =
       (l ← mapM (planned b d) (steps s d target);
        Ok (MkPlan d (currentVersion s) target WholeMigration (match d with Up => l | Down => reverse l end)))).
Proof.
  intros Hinc Hv. cbv zeta. unfold makePlan.
  assert (requireValid b s = Ok tt) as -> by (unfold isValid in Hv; unfold requireValid; by destruct (problems s), (incomplete_ s)).
  rewrite bind_Ok. cbv zeta.
  pose proof (targetGuard_false s d (default (defaultTarget catalog d) requested) Hinc) as Hguard.
  split_and?.
  - intros Hn. destruct (_ || _); [done|]. destruct Hn. by apply Hguard.
  - intros Hr -> Hlt. rewrite (proj2 Hguard Hr), throw_false, bind_Ok.
    by rewrite bool_decide_true, (proj2 (Z.ltb_lt _ _) Hlt) by done.
  - intros Hr Hb. rewrite (proj2 Hguard Hr), throw_false, bind_Ok.
    assert (bool_decide (d = Down) && (default (defaultTarget catalog d) requested <? baselineVersion s)%Z = false) as ->.
    { destruct d; [done|]. rewrite bool_decide_true by done. by apply Z.ltb_ge, Hb. }
    by rewrite throw_false, bind_Ok.
Qed.

Lemma planned_Err m e :
  is_Ok (scriptsFor b m) -> planned b Down m = Err e <->
  e = MigrationError MissingDown "Migration has no down SQL" (version_of m) b None /\
  exists s, scriptsFor b m = Ok s /\ down s = None.
Proof.
  intros [s Hs]. unfold planned. rewrite Hs, bind_Ok. destruct (down s) eqn:Hd; split.
  - done.
  - intros (_ & s' & [= <-] & ?). congruence.
  - intros [= <-]. split; [done|]. by exists s.
  - by intros (-> & _).
Qed.

Lemma mapM_first_Err {A B} (f : A -> res B) l1 x l2 e :
  Forall (fun y => is_Ok (f y)) l1 -> f x = Err e -> mapM f (l1 ++ x :: l2)%list = Err e.
Proof.
  intros Hall Hx. induction Hall as [|y l1 [z Hz] _ IH]; cbn.
  - by rewrite Hx.
  - rewrite Hz. change (mapM f (l1 ++ x :: l2) ≫= (fun k => mret (z :: k)) = Err e). by rewrite IH.
Qed.
End plans.

Section segments.
Context `{JsonLibrary} (b : BackendType) (catalog : list Migration).

Lemma makePlan_Ok s d requested p :
  increasing catalog -> makePlan b catalog s d requested = Ok p ->
  isValid s = true /\ plan_direction p = d /\ plan_from p = currentVersion s /\
  plan_to p = default (defaultTarget catalog d) requested /\ reachable catalog s d (plan_to p) /\
  (d = Down -> (baselineVersion s <= plan_to p)%Z) /\
  exists l, mapM (planned b d) (steps catalog s d (plan_to p)) = Ok l /\
    plan_migrations p = match d with Up => l | Down => reverse l end.
Proof.
  intros Hinc. unfold makePlan. cbv zeta.
  intros (Hr & (Ht%throw_if_Ok_iff & (Hb%throw_if_Ok_iff & (l & Hl & [= <-])%bind_Ok_iff)%seq_Ok_iff)%seq_Ok_iff)%seq_Ok_iff.
  rewrite (targetGuard_false catalog s d _ Hinc) in Ht. rewrite <- (requireValid_isValid b), Hr.
  cbn [plan_direction plan_from plan_to plan_migrations]. repeat (split; [done|]). split; [|by exists l].
  intros ->. rewrite bool_decide_true in Hb by done. cbn [andb] in Hb. by bool_to_prop.
Qed.

Lemma steps_up s target recorded rest :
  increasing catalog -> catalog = (recorded ++ rest)%list -> currentVersion s = versionAfter recorded ->
  reachable catalog s Up target ->
  exists later, rest = (steps catalog s Up target ++ later)%list /\
    versionAfter (recorded ++ steps catalog s Up target) = target.
Proof.
  intros Hinc Hcat Hcur [Htarget Hle].
  destruct (split_at_version catalog target Hinc Htarget) as (l & later & Hl & Hv). rewrite Hcur, <- Hv in Hle.
  assert (recorded ++ rest = l ++ later)%list as Heq by congruence. rewrite Hcat in Hinc.
  destruct (split_le recorded rest l later Hinc Heq Hle) as (seg & -> & ->).
  assert (steps catalog s Up target = seg) as ->; [|by exists later].
  unfold steps, selected. rewrite Hcat, Hcur, !List.filter_app, (filter_none _ recorded), (filter_all _ seg), (filter_none _ later), app_nil_r; [done|..].
  - intros y Hy. rewrite app_assoc in Hinc. apply andb_false_iff. right. apply Z.leb_gt. rewrite <- Hv.
    by apply (versionAfter_min _ later).
  - intros y Hy. apply andb_true_iff. rewrite Z.ltb_lt, Z.leb_le. split.
    + apply (versionAfter_min _ (seg ++ later)); [done|]. rewrite elem_of_app. by left.
    + rewrite <- Hv. rewrite app_assoc in Hinc. apply increasing_app in Hinc as (Hinc & _).
      apply versionAfter_max; [done|]. rewrite elem_of_app. by right.
  - intros y Hy. apply andb_false_iff. left. apply Z.ltb_ge. apply increasing_app in Hinc as (Hinc & _).
    by apply versionAfter_max.
Qed.

Lemma steps_down s target recorded rest :
  increasing catalog -> catalog = (recorded ++ rest)%list -> currentVersion s = versionAfter recorded ->
  reachable catalog s Down target ->
  exists earlier, recorded = (earlier ++ steps catalog s Down target)%list /\ versionAfter earlier = target.
Proof.
  intros Hinc Hcat Hcur [Htarget Hle].
  destruct (split_at_version catalog target Hinc Htarget) as (earlier & k & Hl & Hv). rewrite Hcur, <- Hv in Hle.
  assert (earlier ++ k = recorded ++ rest)%list as Heq by congruence.
  assert (increasing (earlier ++ k)%list) as Hinc2 by (by rewrite <- Hl).
  destruct (split_le earlier k recorded rest Hinc2 Heq Hle) as (seg & -> & ->).
  assert (steps catalog s Down target = seg) as ->; [|by exists earlier].
  unfold steps, selected. rewrite Hcat, Hcur, !List.filter_app, (filter_none _ earlier), (filter_all _ seg), (filter_none _ rest), app_nil_r; [done|..].
  - intros y Hy. apply andb_false_iff. left. apply Z.leb_gt. rewrite app_assoc in Hinc2. by apply (versionAfter_min _ rest).
  - intros y Hy. apply andb_true_iff. rewrite Z.ltb_lt, Z.leb_le. split.
    + rewrite app_assoc in Hinc2. apply increasing_app in Hinc2 as (Hinc2 & _).
      apply versionAfter_max; [done|]. rewrite elem_of_app. by right.
    + rewrite <- Hv. apply (versionAfter_min _ (seg ++ rest)); [done|]. rewrite elem_of_app. by left.
  - intros y Hy. apply andb_false_iff. right. apply Z.ltb_ge. rewrite <- Hv. apply increasing_app in Hinc2 as (Hinc2 & _).
    by apply versionAfter_max.
Qed.

Lemma records_sorted recorded history :
  increasing recorded -> Forall2 (record_matches b) recorded history ->
  StronglySorted (fun x y => am_version x < am_version y)%Z history.
Proof.
  intros Hinc Hall. revert Hinc. induction Hall as [|m r ms rs [Hv _] Hall IH]; [constructor|]. intros Hinc.
  change (m :: ms) with ([m] ++ ms)%list in Hinc. apply increasing_app in Hinc as (_ & Hinc & Hlt).
  constructor; [by apply IH|]. apply Forall_forall. intros r' [i Hi]%list_elem_of_lookup_1.
  destruct (Forall2_lookup_r _ _ _ _ _ Hall Hi) as (m' & Hm' & [Hv' _]).
  rewrite Hv, Hv'. apply Hlt; [left|by apply list_elem_of_lookup_2 in Hm'].
Qed.

Lemma baseline_from_max history r :
  StronglySorted (fun x y => am_version x < am_version y)%Z history -> r ∈ history -> baseline r = true ->
  (am_version r <= baseline_from 0 history)%Z.
Proof.
  intros Hs Hin Hb.
  assert (r ∈ List.filter baseline history) as Hf by (apply list_elem_of_In, List.filter_In; by rewrite <- list_elem_of_In).
  assert (StronglySorted (fun x y => am_version x < am_version y)%Z (List.filter baseline history)) as Hsl.
  { clear -Hs. induction Hs as [|x xs Hs IH Hx]; cbn; [constructor|]. destruct (baseline x); [|done].
    constructor; [done|]. rewrite Forall_forall in Hx |- *. intros y [Hy _]%list_elem_of_In%List.filter_In.
    apply Hx. by apply list_elem_of_In. }
  unfold baseline_from. destruct (last _) as [r'|] eqn:Hlast.
  - apply last_Some in Hlast as [l Hl]. rewrite Hl in Hf, Hsl. apply StronglySorted_app in Hsl as (Hlt & _).
    apply elem_of_app in Hf as [Hf | ->%list_elem_of_singleton]; [|lia].
    specialize (Hlt r r' Hf (list_elem_of_here _ _)). simpl in Hlt. lia.
  - apply last_None in Hlast. rewrite Hlast in Hf. by apply not_elem_of_nil in Hf.
Qed.

(** The records of versions above the last baseline are ordinary. *)
Lemma above_baseline recorded history k :
  increasing recorded -> Forall2 (record_matches b) recorded history ->
  (baseline_from 0 history <= versionAfter (take k recorded))%Z ->
  Forall (fun r => baseline r = false) (drop k history).
Proof.
  intros Hinc Hall Hle. apply Forall_forall. intros r Hr. destruct (baseline r) eqn:Hb; [exfalso|done].
  pose proof (baseline_from_max history r) as Hmax.
  specialize (Hmax ltac:(by eapply records_sorted) ltac:(by eapply subseteq_drop) Hb).
  rewrite <- (take_drop k recorded) in Hinc.
  pose proof (Forall2_drop _ _ _ k Hall) as Hdrop.
  destruct (list_elem_of_lookup_1 _ _ Hr) as [i Hi].
  destruct (Forall2_lookup_r _ _ _ _ _ Hdrop Hi) as (m & Hm & Hv & _). apply list_elem_of_lookup_2 in Hm.
  pose proof (versionAfter_min _ _ m Hinc Hm) as Hlt. lia.
Qed.
End segments.

Lemma makePlan_way `{JsonLibrary} b catalog history s d requested p :
  increasing catalog -> evaluate b catalog history None = Ok s -> makePlan b catalog s d requested = Ok p ->
  plan_direction p = d /\ plan_to p = default (defaultTarget catalog d) requested /\
  exists recorded rest, catalog = (recorded ++ rest)%list /\ Forall2 (record_matches b) recorded history /\
    plan_from p = versionAfter recorded /\
    match d with
    | Up => exists seg later, rest = (seg ++ later)%list /\ versionAfter (recorded ++ seg) = plan_to p /\
              Forall2 (fun m q => planned b Up m = Ok q) seg (plan_migrations p)
    | Down => exists earlier seg, recorded = (earlier ++ seg)%list /\ versionAfter earlier = plan_to p /\
                Forall2 (fun m q => planned b Down m = Ok q) (reverse seg) (plan_migrations p) /\
                Forall (fun r => baseline r = false) (drop (length earlier) history)
    end.
Proof.
  intros Hinc Hs Hp. pose proof (evaluate_Ok b catalog history None s (increasing_NoDup _ Hinc) Hs) as (_ & Hi & Hcur & Hbase & _ & Hprob).
  apply makePlan_Ok in Hp as (Hv & Hd & Hf & Ht & Hreach & Hb & l & Hl%mapM_Ok_iff & Hpm); [|done].
  split; [done|]. split; [done|].
  apply andb_true_iff in Hv as [Hnil%bool_decide_eq_true _]. apply Hprob in Hnil as [(_ & rest & recorded & Hcat & Hall) _].
  rewrite (recorded_version b recorded) in Hcur by done.
  exists recorded, rest. split; [done|]. split; [done|]. split; [congruence|]. destruct d.
  - destruct (steps_up catalog s (plan_to p) recorded rest) as (later & Hrest & Hlast); [done..|].
    exists (steps catalog s Up (plan_to p)), later. rewrite Hpm. done.
  - destruct (steps_down catalog s (plan_to p) recorded rest) as (earlier & Hrec & Hlast); [done..|].
    exists earlier, (steps catalog s Down (plan_to p)). split; [done|]. split; [done|]. rewrite Hpm.
    split; [by apply Forall2_reverse|]. rewrite Hcat in Hinc. apply increasing_app in Hinc as (Hinc & _).
    apply (above_baseline b recorded); [done|done|].
    assert (take (length earlier) recorded = earlier) as -> by (by rewrite Hrec, take_app_length).
    rewrite Hlast, <- Hbase. by apply Hb.
Qed.

(** C34: The status of a catalog reports the recorded history and what is pending,
    and reports no problem exactly when the records are those of the catalog's first
    migrations for this backend, with unchanged checksums and the baseline records
    first, and the marker of an interrupted script, if any, is that of the next
    migration (or, downwards, of the last one recorded, above the baseline).  A
    catalog whose checksums can be computed always has a status. *)
Theorem evaluate_valid_iff `{JsonLibrary} b catalog history marker :
  increasing catalog ->
  (Forall (fun m => is_Ok (migrationChecksum b m)) catalog -> is_Ok (evaluate b catalog history marker)) /\
  forall s, evaluate b catalog history marker = Ok s ->
    applied s = history /\ incomplete_ s = marker /\ currentVersion s = lastVersion history /\
    baselineVersion s = baseline_from 0 history /\
    pending s = map summary (drop (length history) catalog) /\
    (problems s = [] <->
       matching b catalog history /\ forall m, marker = Some m -> marker_matches b catalog history m).
Proof.
  intros Hinc. split; [apply evaluate_total|]. intros s. by apply evaluate_Ok, increasing_NoDup.
Qed.

(** C35: A plan is the way from the recorded history to its target, no more and no
    less: upwards the migrations that follow the recorded ones, up to the target, in
    their order; downwards the recorded ones above the target, last first, none of
    them a baseline; each with its script for the direction. *)
Theorem makePlan_segment `{JsonLibrary} b catalog history s d requested p :
  increasing catalog -> evaluate b catalog history None = Ok s -> makePlan b catalog s d requested = Ok p ->
  plan_direction p = d /\ plan_to p = default (defaultTarget catalog d) requested /\
  exists recorded rest, catalog = (recorded ++ rest)%list /\ Forall2 (record_matches b) recorded history /\
    plan_from p = versionAfter recorded /\
    match d with
    | Up => exists seg later, rest = (seg ++ later)%list /\ versionAfter (recorded ++ seg) = plan_to p /\
              Forall2 (fun m q => planned b Up m = Ok q) seg (plan_migrations p)
    | Down => exists earlier seg, recorded = (earlier ++ seg)%list /\ versionAfter earlier = plan_to p /\
                Forall2 (fun m q => planned b Down m = Ok q) (reverse seg) (plan_migrations p) /\
                Forall (fun r => baseline r = false) (drop (length earlier) history)
    end.
Proof. apply makePlan_way. Qed.

(** What a plan request is refused for, in this order: a target that is neither
    0 nor a version of the catalog or lies in the other direction; a target below
    the baseline; the first migration on the way, in catalog order, without a down
    script.  With a valid status and scripts for the backend there is a plan in
    every other case. *)
Theorem makePlan_verdict `{JsonLibrary} b catalog s d requested :
  increasing catalog -> isValid s = true -> Forall (fun m => is_Ok (scriptsFor b m)) catalog ->
  let target := default (defaultTarget catalog d) requested in
  let without_down m := exists scripts_, scriptsFor b m = Ok scripts_ /\ down scripts_ = None in
  (~ reachable catalog s d target ->
     makePlan b catalog s d requested = migrationError InvalidTarget "Invalid migration target" target b) /\
  (reachable catalog s d target -> d = Down -> (target < baselineVersion s)%Z ->
     makePlan b catalog s d requested = migrationError BaselineBoundary "Cannot migrate below the baseline" target b) /\
  (reachable catalog s d target -> (d = Down -> (baselineVersion s <= target)%Z) ->
     (d = Down -> Forall (fun m => ~ without_down m) (steps catalog s d target)) ->
     is_Ok (makePlan b catalog s d requested)) /\
  (reachable catalog s d target -> (d = Down -> (baselineVersion s <= target)%Z) ->
     forall earlier m later, d = Down -> steps catalog s d target = (earlier ++ m :: later)%list ->
     Forall (fun m => ~ without_down m) earlier -> without_down m ->
     makePlan b catalog s d requested = migrationError MissingDown "Migration has no down SQL" (version_of m) b).
Proof.
  intros Hinc Hv Hscripts target without_down.
  pose proof (makePlan_cases b catalog s d requested Hinc Hv) as (H1 & H2 & H3). cbv zeta in *. fold target in H1, H2, H3.
  assert (forall m, m ∈ catalog -> (d = Down -> ~ without_down m) -> is_Ok (planned b d m)) as Hplanned.
  { intros m Hm Hdown. rewrite Forall_forall in Hscripts. destruct (Hscripts m Hm) as [x Hx]. unfold planned.
    rewrite Hx, bind_Ok. destruct d; [by eexists|]. destruct (down x) eqn:Hd; [by eexists|].
    destruct (Hdown eq_refl). by exists x. }
  assert (forall m, m ∈ steps catalog s d target -> m ∈ catalog) as Hsub.
  { intros m [Hm _]%list_elem_of_In%List.filter_In. by apply list_elem_of_In. }
  split; [done|]. split; [done|]. split.
  - intros Hr Hb Hdown. rewrite H3 by done.
    destruct (mapM_is_ok (planned b d) (steps catalog s d target)) as [l ->]; [|rewrite bind_Ok; by eexists].
    apply Forall_forall. intros m Hm. apply Hplanned; [by apply Hsub|]. intros Hd. specialize (Hdown Hd).
    rewrite Forall_forall in Hdown. by apply Hdown.
  - intros Hr Hb earlier m later -> Hsteps Hdown Hm. rewrite H3 by done. rewrite Hsteps in Hsub |- *.
    rewrite (mapM_first_Err _ earlier m later (MigrationError MissingDown "Migration has no down SQL" (version_of m) b None)); [done|..].
    + apply Forall_forall. intros y Hy. rewrite Forall_forall in Hdown. apply Hplanned; [|by auto].
      apply Hsub. rewrite elem_of_app. by left.
    + apply planned_Err; [|done]. destruct Hm as (x & Hx & _). by exists x.
Qed.

(** ** A catalog of two migrations, the first one recorded *)
#[local] Existing Instance plain_text.

Definition sample_catalog : list Migration :=
  [sample_migration 1 "first" "SELECT 1;"; sample_migration 2 "second" "SELECT 2;"].
Definition sample_record (m : Migration) (isBaseline : bool) : AppliedMigration :=
  MkApplied (version_of m) (migration_name m) Sqlite
    (match migrationChecksum Sqlite m with Ok sum => sum | Err _ => "" end) "2024-01-01 00:00:00" isBaseline.
Definition sample_history : list AppliedMigration :=
  [sample_record (sample_migration 1 "first" "SELECT 1;") false].

Lemma sample_increasing : increasing sample_catalog.
Proof. split; repeat constructor. Qed.

Lemma evaluate_valid_iff_witness :
  exists s, evaluate Sqlite sample_catalog sample_history None = Ok s /\ currentVersion s = 1%Z /\
    pending s = [MkSummary 2 "second"].
Proof.
  destruct (evaluate Sqlite sample_catalog sample_history None) as [s|e] eqn:Hs; [|vm_compute in Hs; discriminate Hs].
  exists s. split; [done|].
  destruct (evaluate_valid_iff Sqlite sample_catalog sample_history None sample_increasing) as [_ Hall].
  destruct (Hall s Hs) as (_ & _ & Hc & _ & Hp & _). by split.
Defined.

Lemma makePlan_segment_witness :
  exists s p, evaluate Sqlite sample_catalog sample_history None = Ok s /\
    makePlan Sqlite sample_catalog s Down (Some 0%Z) = Ok p /\ plan_to p = 0%Z /\ plan_migrations p = [MkPlanned 1 "first" "SELECT 0;"].
Proof.
  destruct (evaluate Sqlite sample_catalog sample_history None) as [s|e] eqn:Hs; [|vm_compute in Hs; discriminate Hs].
  destruct (makePlan Sqlite sample_catalog s Down (Some 0%Z)) as [p|e] eqn:Hp.
  2: { vm_compute in Hs. injection Hs as <-. vm_compute in Hp. discriminate Hp. }
  exists s, p. split; [done|]. split; [done|].
  destruct (makePlan_segment Sqlite sample_catalog sample_history s Down (Some 0%Z) p sample_increasing Hs Hp)
    as (_ & Hto & _). split; [done|].
  vm_compute in Hs. injection Hs as <-. vm_compute in Hp. by injection Hp as <-.
Defined.

Lemma makePlan_verdict_witness :
  exists s, evaluate Sqlite sample_catalog sample_history None = Ok s /\
    makePlan Sqlite sample_catalog s Up (Some 7%Z) = migrationError InvalidTarget "Invalid migration target" 7 Sqlite.
Proof.
  destruct (evaluate Sqlite sample_catalog sample_history None) as [s|e] eqn:Hs; [|vm_compute in Hs; discriminate Hs].
  exists s. split; [done|]. assert (isValid s = true) as Hv by (vm_compute in Hs; by injection Hs as <-).
  apply (makePlan_verdict Sqlite sample_catalog s Up (Some 7%Z) sample_increasing Hv).
  - repeat (constructor; [by eexists|]). constructor.
  - intros [[Hz | (m & Hm & Hver)] _]; [done|]. repeat (apply elem_of_cons in Hm as [->|Hm]; [done|]).
    by apply not_elem_of_nil in Hm.
Defined.
