(* ===== verification/Session.v ===== *)
(** Session: the database session as the migration state uses it -- what is
    durable, what an open transaction sees, the session's lock and the objects that
    release them -- and the monad its operations run in.

    The engine behind the session is third-party code: the class [Engine] says what
    a script does to the tables, statement by statement, and which calls fail.
    Theorems hold for every engine, so for every failure at every call. *)
From S2P Require Import Prelude Foundation Chrono Values Codec Schema Sha256 Models PhysicalSql Snapshot Diff SqlValidation Literals SchemaJson Generation Renames Catalog History.
Local Open Scope string_scope.

(** ** Exceptions

    What the modelled code throws and [soci::soci_error] with the native code its
    translation gives. *)
Inductive failure :=
| Exception (e : exn)
| SociError (nativeCode : option string).

(** ** Tables

    A cell holds [None] when its type is not the one the code asks for: the library
    throws [std::bad_cast] then.  Rows are in the order the queries give them. *)
Record HistoryRow := MkHistoryRow {
  row_version : option Z;
  row_name : option string;
  row_backend : option Z;
  row_checksum : option string;
  row_applied_at : option string;
  row_baseline : option Z
}.

Record JournalRow := MkJournalRow {
  slot : option Z;
  jr_version : option Z;
  jr_name : option string;
  jr_backend : option Z;
  jr_direction : option Z;
  jr_checksum : option string
}.

(** The history table and the journal, [None] while they do not exist, and the
    other objects of the database. *)
Record Tables (Objects : Type) := MkTables {
  historyTable : option (list HistoryRow);
  journalTable : option (list JournalRow);
  objects : Objects
}.
Arguments MkTables {Objects}.
Arguments historyTable {Objects}.
Arguments journalTable {Objects}.
Arguments objects {Objects}.

(** What may happen to a call: it takes place, or fails without effect, perhaps with
    the connection.  A commit may also take effect and fail. *)
Inductive outcome := Fine | Fails (f : failure) (connectionLost : bool) (committed : bool).

Class Engine := {
  Objects : Type;
  fault : nat -> outcome;
  (** The states a script leads through, one per statement, and its error. *)
  run_script : string -> Tables Objects -> list (Tables Objects) * option failure;
  (** Whether the settings of the session are the same after a script. *)
  settings_kept : string -> Tables Objects -> bool;
  (** [CURRENT_TIMESTAMP]. *)
  current_timestamp : string
}.

(** ** Sessions *)
Section session.
Context `{Engine}.

Abbreviation tables := (Tables Objects).

(** A live [Transaction] object and a live [MigrationLock] object. *)
Record TransactionObject := MkTransaction { tx_finished : bool; previouslyActive : bool }.

(** A live [SqliteRebuildSession]: the settings it has to restore. *)
Record RebuildObject := MkRebuildObject {
  rebuildPreviousActive : bool;
  previousForeignKeys : Z;
  enabled : bool
}.

(** [durable] survives a crash, [working] is what the open transaction sees, [trace]
    holds the durable states so far, the latest first; [active] is
    [Database::migrationActive], [foreignKeys] the setting of SQLite's pragma. *)
Record Session := MkSession {
  durable : tables;
  working : option tables;
  trace : list tables;
  locked : bool;
  connected : bool;
  active : bool;
  transaction_ : option TransactionObject;
  lock_ : option bool;
  foreignKeys : Z;
  rebuild_ : option RebuildObject
}.

Definition current (s : Session) : tables := default (durable s) (working s).

Definition set_working (t : option tables) (s : Session) : Session :=
  MkSession (durable s) t (trace s) (locked s) (connected s) (active s) (transaction_ s) (lock_ s)
    (foreignKeys s) (rebuild_ s).
Definition set_durable (t : tables) (s : Session) : Session :=
  MkSession t (working s) (t :: trace s) (locked s) (connected s) (active s) (transaction_ s) (lock_ s)
    (foreignKeys s) (rebuild_ s).
Definition set_locked (l : bool) (s : Session) : Session :=
  MkSession (durable s) (working s) (trace s) l (connected s) (active s) (transaction_ s) (lock_ s)
    (foreignKeys s) (rebuild_ s).
Definition set_active (a : bool) (s : Session) : Session :=
  MkSession (durable s) (working s) (trace s) (locked s) (connected s) a (transaction_ s) (lock_ s)
    (foreignKeys s) (rebuild_ s).
Definition set_transaction (t : option TransactionObject) (s : Session) : Session :=
  MkSession (durable s) (working s) (trace s) (locked s) (connected s) (active s) t (lock_ s)
    (foreignKeys s) (rebuild_ s).
Definition set_lock (l : option bool) (s : Session) : Session :=
  MkSession (durable s) (working s) (trace s) (locked s) (connected s) (active s) (transaction_ s) l
    (foreignKeys s) (rebuild_ s).

Definition set_foreignKeys (v : Z) (s : Session) : Session :=
  MkSession (durable s) (working s) (trace s) (locked s) (connected s) (active s) (transaction_ s) (lock_ s) v (rebuild_ s).
Definition set_rebuild (r : option RebuildObject) (s : Session) : Session :=
  MkSession (durable s) (working s) (trace s) (locked s) (connected s) (active s) (transaction_ s) (lock_ s)
    (foreignKeys s) r.

(** The server rolls back and releases the session's locks. *)
Definition drop_connection (s : Session) : Session :=
  MkSession (durable s) None (trace s) false false (active s) (transaction_ s) (lock_ s)
    (foreignKeys s) (rebuild_ s).

(** A change of the tables: in the open transaction, or durable at once. *)
Definition update (t : tables) (s : Session) : Session :=
  match working s with Some _ => set_working (Some t) s | None => set_durable t s end.

(** The durable state after a commit. *)
Definition committed_state (s : Session) : Session :=
  match working s with Some t => set_working None (set_durable t s) | None => s end.

(** ** The monad: a call counter, the session and exceptions *)
Definition M (A : Type) : Type := nat -> Session -> result failure A * nat * Session.

#[export] Instance M_ret : MRet M := fun A a n s => (Ok a, n, s).
#[export] Instance M_bind : MBind M := fun A B k m n s =>
  match m n s with
  | (Ok a, n, s) => k a n s
  | (Err f, n, s) => (Err f, n, s)
  end.
#[export] Instance M_fmap : FMap M := fun A B f m => a ← m; mret (f a).

Definition throw {A} (f : failure) : M A := fun n s => (Err f, n, s).
Definition lift {A} (r : res A) : M A :=
  match r with Ok a => mret a | Err e => throw (Exception e) end.
Definition get : M Session := fun n s => (Ok s, n, s).
Definition modify (f : Session -> Session) : M unit := fun n s => (Ok tt, n, f s).

(** [try { body } catch (...) { handler }]. *)
Definition catch {A} (body : M A) (handler : failure -> M A) : M A := fun n s =>
  match body n s with
  | (Ok a, n, s) => (Ok a, n, s)
  | (Err f, n, s) => handler f n s
  end.

(** A scope: the destructors, which do not throw, run however the body ends. *)
Definition scope {A} (body : M A) (destructors : M unit) : M A := fun n s =>
  match body n s with
  | (r, n, s) => match destructors n s with (_, n, s) => (r, n, s) end
  end.

(** A call of the database library. *)
Definition call {A} (effect : Session -> result failure (A * Session)) : M A := fun n s =>
  if connected s then
    match fault n with
    | Fine => match effect s with Ok (a, s') => (Ok a, S n, s') | Err f => (Err f, S n, s) end
    | Fails f lost _ => (Err f, S n, if lost then drop_connection s else s)
    end
  else (Err (SociError None), n, s).

(** [session.commit()]: when it fails, it may have taken effect. *)
Definition session_commit : M unit := fun n s =>
  if connected s then
    match fault n with
    | Fine => (Ok tt, S n, committed_state s)
    | Fails f lost done_ =>
        let s' := if done_ then committed_state s else s in
        (Err f, S n, if lost then drop_connection s' else s')
    end
  else (Err (SociError None), n, s).

Definition session_begin : M unit := call (fun s => Ok (tt, set_working (Some (durable s)) s)).
Definition session_rollback : M unit := call (fun s => Ok (tt, set_working None s)).

(** [soci::session::close]. *)
Definition close : M unit := modify drop_connection.

(** [Database::disconnect], without an application transaction: the session is closed,
    which does not fail, and no migration is active. *)
Definition disconnect : M unit := modify (fun s => set_active false (drop_connection s)).

Definition isConnected : M bool := s ← get; mret (connected s).

Definition setActive (a : bool) : M unit := modify (set_active a).
End session.

(** ** Reasoning about operations

    [wp m Q s]: from [s], whatever the calls before and whatever fails, [m] ends
    with a result and a session in [Q]. *)
Section logic.
Context `{Engine}.

Definition wp {A} (m : M A) (Q : result failure A -> Session -> Prop) (s : Session) : Prop :=
  forall n, match m n s with (r, _, s') => Q r s' end.

Lemma wp_mono {A} (m : M A) (Q R : result failure A -> Session -> Prop) s :
  wp m Q s -> (forall r s', Q r s' -> R r s') -> wp m R s.
Proof. intros Hm Himp n. specialize (Hm n). destruct (m n s) as [[r n'] s']. auto. Qed.

Lemma wp_ret {A} (a : A) (Q : result failure A -> Session -> Prop) s : Q (Ok a) s -> wp (mret a) Q s.
Proof. by intros ? n. Qed.

Lemma wp_throw {A} f (Q : result failure A -> Session -> Prop) s : Q (Err f) s -> wp (throw f) Q s.
Proof. by intros ? n. Qed.

Lemma wp_bind {A B} (m : M A) (k : A -> M B) Q s :
  wp m (fun r s' => match r with Ok a => wp (k a) Q s' | Err f => Q (Err f) s' end) s -> wp (m ≫= k) Q s.
Proof.
  intros Hm n. specialize (Hm n). unfold mbind, M_bind. destruct (m n s) as [[[a|f] n'] s']; [apply Hm|done].
Qed.

Lemma wp_fmap {A B} (f : A -> B) (m : M A) Q s :
  wp m (fun r s' => match r with Ok a => Q (Ok (f a)) s' | Err e => Q (Err e) s' end) s -> wp (f <$> m) Q s.
Proof. intros Hm. apply wp_bind. apply (wp_mono _ _ _ _ Hm). intros [a|e] s' Hr; [by apply wp_ret|done]. Qed.

Lemma wp_lift {A} (r : res A) (Q : result failure A -> Session -> Prop) s :
  (forall a, r = Ok a -> Q (Ok a) s) -> (forall e, r = Err e -> Q (Err (Exception e)) s) -> wp (lift r) Q s.
Proof. destruct r; intros H1 H2 n; cbn; auto. Qed.

Lemma wp_get (Q : result failure Session -> Session -> Prop) s : Q (Ok s) s -> wp get Q s.
Proof. by intros ? n. Qed.

Lemma wp_modify f (Q : result failure unit -> Session -> Prop) s : Q (Ok tt) (f s) -> wp (modify f) Q s.
Proof. by intros ? n. Qed.

Lemma wp_catch {A} (body : M A) handler Q s :
  wp body (fun r s' => match r with Ok a => Q (Ok a) s' | Err f => wp (handler f) Q s' end) s ->
  wp (catch body handler) Q s.
Proof. intros Hb n. specialize (Hb n). unfold catch. destruct (body n s) as [[[a|f] n'] s']; [done|apply Hb]. Qed.

Lemma wp_scope {A} (body : M A) destructors Q s :
  wp body (fun r s' => wp destructors (fun _ => Q r) s') s -> wp (scope body destructors) Q s.
Proof.
  intros Hb n. specialize (Hb n). unfold scope. destruct (body n s) as [[r n'] s']. specialize (Hb n').
  by destruct (destructors n' s') as [[r' n2] s2].
Qed.

(** Every call may fail, with or without the connection. *)
Definition may_fail {A} (Q : result failure A -> Session -> Prop) (s : Session) : Prop :=
  forall f, Q (Err f) s /\ Q (Err f) (drop_connection s).

Lemma wp_call {A} (effect : Session -> result failure (A * Session)) Q s :
  may_fail Q s -> (forall a s', connected s = true -> effect s = Ok (a, s') -> Q (Ok a) s') -> wp (call effect) Q s.
Proof.
  intros Hfail Hok n. unfold call. destruct (connected s) eqn:Hc; [|apply Hfail].
  destruct (fault n) as [|f lost ?].
  - destruct (effect s) as [[a s']|f] eqn:He; [by apply Hok|apply Hfail].
  - destruct lost; apply Hfail.
Qed.

Lemma wp_commit Q s :
  may_fail Q s -> may_fail Q (committed_state s) -> (connected s = true -> Q (Ok tt) (committed_state s)) ->
  wp session_commit Q s.
Proof.
  intros Hfail Hfail' Hok n. unfold session_commit. destruct (connected s) eqn:Hc; [|apply Hfail].
  destruct (fault n) as [|f lost done_]; [by apply Hok|]. destruct lost, done_; cbn; (apply Hfail || apply Hfail').
Qed.

(** Without failures. *)
Lemma wp_call_fine {A} (effect : Session -> result failure (A * Session)) (Q : result failure A -> Session -> Prop) s a s' :
  (forall n, fault n = Fine) -> connected s = true -> effect s = Ok (a, s') -> Q (Ok a) s' -> wp (call effect) Q s.
Proof. intros Hf Hc He HQ n. unfold call. by rewrite Hc, Hf, He. Qed.

Lemma wp_commit_fine (Q : result failure unit -> Session -> Prop) s :
  (forall n, fault n = Fine) -> connected s = true -> Q (Ok tt) (committed_state s) -> wp session_commit Q s.
Proof. intros Hf Hc HQ n. unfold session_commit. by rewrite Hc, Hf. Qed.

Lemma drop_connection_idemp s : drop_connection (drop_connection s) = drop_connection s.
Proof. done. Qed.

Lemma set_working_same s t : working s = Some t -> set_working (Some t) s = s.
Proof. destruct s. by intros [= ->]. Qed.

Lemma current_working s t : working s = Some t -> current s = t.
Proof. unfold current. by intros ->. Qed.
End logic.

(** Steps through an operation, from the front. *)
Ltac wp_step :=
  match goal with
  | |- wp (mret _) _ _ => apply wp_ret
  | |- wp (throw _) _ _ => apply wp_throw
  | |- wp (_ ≫= _) _ _ => apply wp_bind
  | |- wp (_ <$> _) _ _ => apply wp_fmap
  | |- wp (lift _) _ _ => apply wp_lift
  | |- wp get _ _ => apply wp_get
  | |- wp (modify _) _ _ => apply wp_modify
  | |- wp (catch _ _) _ _ => apply wp_catch
  | |- wp (scope _ _) _ _ => apply wp_scope
  end.
