(* ===== verification/State.v ===== *)
(** State: the durable state protocol of migrations -- history, journal, locks and
    transactions -- from src/migrations/MigrationState.cpp. *)
From S2P Require Import Prelude Foundation Chrono Values Codec Schema Sha256 Models PhysicalSql Snapshot Diff SqlValidation Literals SchemaJson Generation Renames Catalog History Session.
Local Open Scope string_scope.

Inductive Resolution := Completed | Reverted | OtherResolution (value : Z).

#[export] Instance Resolution_eq_dec : EqDecision Resolution.
Proof. solve_decision. Defined.

(** The capabilities of the built-in backends. *)
Definition atomicity (b : BackendType) : MigrationAtomicity :=
  match b with Mysql | Mariadb => NonTransactional | _ => WholeMigration end.

(** ** Rows *)
Definition badHistory : exn :=
  MigrationError InvalidHistory "Migration history has incompatible column types" 0 Empty None.
Definition badMarker : exn :=
  MigrationError InvalidHistory "Incomplete marker has incompatible column types" 0 Empty None.

Definition historyBackend (n : Z) : option BackendType :=
  match backend_of_number n with
  | Some Sqlite => Some Sqlite | Some Postgres => Some Postgres
  | Some Mysql => Some Mysql | Some Mariadb => Some Mariadb
  | _ => None
  end.

Definition decodeHistory (row : HistoryRow) : res AppliedMigration :=
  flag ← or_throw (row_baseline row) badHistory;
  number ← or_throw (row_backend row) badHistory;
  match historyBackend number with
  | Some b =>
      throw_if (negb (flag =? 0)%Z && negb (flag =? 1)%Z)
        (MigrationError InvalidHistory "Invalid migration history record" 0 Empty None) ;;
      at_ ← or_throw (row_applied_at row) badHistory;
      version ← or_throw (row_version row) badHistory;
      name ← or_throw (row_name row) badHistory;
      sum ← or_throw (row_checksum row) badHistory;
      Ok (MkApplied version name b sum at_ (negb (flag =? 0)%Z))
  | None => migrationError InvalidHistory "Invalid migration history record" 0 Empty
  end.

Definition journalBackend (n : Z) : option BackendType :=
  match backend_of_number n with Some Mysql => Some Mysql | Some Mariadb => Some Mariadb | _ => None end.

Definition decodeMarker (row : JournalRow) : res IncompleteMigration :=
  let invalid := MigrationError InvalidHistory "Invalid incomplete migration marker" 0 Empty None in
  number ← or_throw (jr_backend row) badMarker;
  direction ← or_throw (jr_direction row) badMarker;
  slot_ ← or_throw (slot row) badMarker;
  throw_if (negb (slot_ =? 1)%Z || negb (direction =? 0)%Z && negb (direction =? 1)%Z) invalid ;;
  match journalBackend number with
  | Some b =>
      version ← or_throw (jr_version row) badMarker;
      name ← or_throw (jr_name row) badMarker;
      sum ← or_throw (jr_checksum row) badMarker;
      Ok (MkIncomplete version name b (if (direction =? 0)%Z then Up else Down) sum)
  | None => Err invalid
  end.

(** The loop over the journal; a second row is an invalid marker. *)
Definition decodeJournal (rows : list JournalRow) : res (option IncompleteMigration) :=
  match rows with
  | [] => Ok None
  | row :: rest =>
      marker ← decodeMarker row;
      match rest with
      | [] => Ok (Some marker)
      | next :: _ =>
          or_throw (jr_backend next) badMarker ;;
          or_throw (jr_direction next) badMarker ;;
          migrationError InvalidHistory "Invalid incomplete migration marker" 0 Empty
      end
  end.

Definition historyRow (b : BackendType) (m : Migration) (sum stamp : string) (isBaseline : bool) : HistoryRow :=
  MkHistoryRow (Some (version_of m)) (Some (migration_name m)) (Some (backend_number b)) (Some sum) (Some stamp)
    (Some (if isBaseline then 1 else 0)%Z).

Definition journalRow (b : BackendType) (m : Migration) (d : Direction) (sum : string) : JournalRow :=
  MkJournalRow (Some 1%Z) (Some (version_of m)) (Some (migration_name m)) (Some (backend_number b))
    (Some (match d with Up => 0 | Down => 1 end)%Z) (Some sum).

(** An insertion into a table ordered by version; the version is the primary key. *)
Fixpoint insertRow (row : HistoryRow) (v : Z) (rows : list HistoryRow) : option (list HistoryRow) :=
  match rows with
  | [] => Some [row]
  | r :: rows' =>
      match row_version r with
      | Some w =>
          if (v <? w)%Z then Some (row :: rows)
          else if (v =? w)%Z then None
          else (fun l => r :: l) <$> insertRow row v rows'
      | None => (fun l => r :: l) <$> insertRow row v rows'
      end
  end.

(** ** Empty scripts of the MySQL family *)
Inductive ScriptPart := CodePart | LinePart | OpenPart | BlockPart | ClosePart.

Definition is_white (c : ascii) : bool :=
  bool_decide (c = " "%char) || (9 <=? Ascii.nat_of_ascii c)%nat && (Ascii.nat_of_ascii c <=? 13)%nat.

Definition line_comment (c : ascii) (rest : string) : bool :=
  bool_decide (c = "#"%char) ||
  bool_decide (c = "-"%char) &&
    match rest with String d (String e _) => bool_decide (d = "-"%char) && is_white e | _ => false end.

Definition executable_comment (rest : string) : bool := starts_with "*!" rest || starts_with "*M!" rest.

(** The loop of [isEmptyScript], in code or inside a comment. *)
Fixpoint empty_script (part : ScriptPart) (sql : string) : bool :=
  match sql with
  | EmptyString => match part with CodePart | LinePart => true | _ => false end
  | String c rest =>
      match part with
      | CodePart =>
          if is_white c || bool_decide (c = ";"%char) then empty_script CodePart rest
          else if line_comment c rest then empty_script LinePart rest
          else if bool_decide (c = "/"%char) && starts_with "*" rest then
            if executable_comment rest then false else empty_script OpenPart rest
          else false
      | LinePart =>
          if bool_decide (c = CR) || bool_decide (c = LF) then empty_script CodePart rest
          else empty_script LinePart rest
      | OpenPart => empty_script BlockPart rest
      | BlockPart =>
          if bool_decide (c = "*"%char) && starts_with "/" rest then empty_script ClosePart rest
          else empty_script BlockPart rest
      | ClosePart => empty_script CodePart rest
      end
  end.

Definition isEmptyScript (sql : string) : bool := empty_script CodePart sql.

(** ** The operations of the session *)
Section state.
Context `{JsonLibrary} `{Engine} (b : BackendType).

Abbreviation tables := (Tables Objects).

Definition throwError {A} (code : ErrorCode) (message : string) (version : Z) : M A :=
  throw (Exception (MigrationError code message version b None)).

Definition throwIf (c : bool) (code : ErrorCode) (message : string) (version : Z) : M unit :=
  if c then throwError code message version else mret tt.

(** [BackendRuntime::beginMigration]: a writing transaction, which holds the lock
    for its duration, or the session's lock. *)
Definition beginMigration : M unit :=
  match atomicity b with
  | WholeMigration => session_begin
  | NonTransactional => call (fun s => Ok (tt, set_locked true s))
  end.

Definition endMigration : M unit :=
  match atomicity b with
  | WholeMigration => mret tt
  | NonTransactional => call (fun s => Ok (tt, set_locked false s))
  end.

Definition migrationHistoryExists : M bool := call (fun s => Ok (is_some (historyTable (current s)), s)).

(** Whether the backend has a journal, and the journal table exists. *)
Definition has_journal : bool := bool_decide (atomicity b = NonTransactional).
Definition journalExists : M bool := call (fun s => Ok (is_some (journalTable (current s)), s)).

Definition createHistory (t : tables) : tables :=
  MkTables (Some (default [] (historyTable t))) (journalTable t) (objects t).
Definition createJournal (t : tables) : tables :=
  MkTables (historyTable t) (Some (default [] (journalTable t))) (objects t).

Definition requireTables (message : string) : M unit :=
  history ← migrationHistoryExists;
  journal ← journalExists;
  throwIf (negb history || negb journal) InvalidHistory message 0.

Definition createMigrationHistory : M unit :=
  if has_journal then
    migrationHistoryExists ;;
    journalExists ;;
    call (fun s => Ok (tt, update (createHistory (current s)) s)) ;;
    call (fun s => Ok (tt, update (createJournal (current s)) s)) ;;
    requireTables "Migration history or journal was not created"
  else call (fun s => Ok (tt, update (createHistory (current s)) s)).

(** The query of the session's settings; it fails when they are not what the backend
    needs.  SQLite has none. *)
Definition validateMigrationSession : M unit :=
  if bool_decide (b = Sqlite) then mret tt else call (fun s => Ok (tt, s)).

Definition requireLock : M unit :=
  owned ← call (fun s => Ok (locked s, s));
  if negb owned then close ;; throwError LockUnavailable "Migration session lost its lock" 0 else mret tt.

Definition raise (e : option failure) : M unit := match e with Some f => throw f | None => mret tt end.

(** A script, statement by statement: its error and whether it kept the settings.
    Scripts were validated; none ends the transaction that it runs in. *)
Definition runScript (sql : string) : M (option failure * bool) :=
  call (fun s =>
    let '(states, e) := run_script sql (current s) in
    Ok ((e, settings_kept sql (current s)), foldl (fun s t => update t s) s states)).

(** The option for several statements is set before a script and reset after it. *)
Definition multiStatements : M unit := call (fun s => Ok (tt, s)).

Definition executeScript (sql : string) : M unit :=
  validateMigrationSession ;;
  if has_journal then
    requireLock ;;
    if isEmptyScript sql then mret tt
    else
      multiStatements ;;
      '(e, kept) ← runScript sql;
      catch multiStatements (fun f => close ;; throw f) ;;
      (if negb kept
       then close ;; throwError InvalidSql "Migration SQL changed connection settings or transaction state" 0
       else mret tt) ;;
      requireLock ;;
      requireTables "Migration SQL removed its history or journal" ;;
      raise e
  else
    '(e, kept) ← runScript sql;
    raise e ;;
    throwIf (bool_decide (b = Postgres) && negb kept) InvalidSql "Migration SQL changed connection settings" 0.

(** [databaseFailure]: what a handler of [soci::soci_error] throws instead. *)
Definition databaseFailure (version : Z) (f : failure) : failure :=
  match f with
  | SociError native =>
      Exception (MigrationError Execution "Migration SQL or history operation failed" version b native)
  | Exception e => Exception e
  end.

(** [database.getBackendType] and the guards of a session. *)
Definition ready (busy : bool) : M unit :=
  connected_ ← isConnected;
  throwIf (negb connected_) NotConnected "Migrations require a connected database" 0 ;;
  s ← get;
  throwIf (busy || active s) ActiveTransaction "Migrations require an idle database session" 0 ;;
  lift (backendName b) ;;
  catch validateMigrationSession (fun f => throw (databaseFailure 0 f)).

(** *** Transactions and the lock *)
Definition Transaction (writing : bool) : M unit :=
  s ← get;
  (if writing then beginMigration else session_begin) ;;
  setActive true ;;
  modify (set_transaction (Some (MkTransaction false (active s)))).

Definition finish_transaction (s : Session) : Session :=
  match transaction_ s with
  | Some t => set_transaction (Some (MkTransaction true (previouslyActive t))) s
  | None => s
  end.

Definition Transaction_commit (version : Z) : M unit :=
  catch (session_commit ;; modify finish_transaction)
    (fun _ =>
       disconnect ;;
       modify finish_transaction ;;
       throwError CommitUncertain "Migration commit outcome is uncertain; reconnect and inspect history" version).

(** [~Transaction], when there is one. *)
Definition Transaction_end : M unit :=
  s ← get;
  match transaction_ s with
  | None => mret tt
  | Some t =>
      (if tx_finished t then mret tt else catch session_rollback (fun _ => disconnect)) ;;
      setActive (previouslyActive t) ;;
      modify (set_transaction None)
  end.

Definition MigrationLock : M unit := beginMigration ;; setActive true ;; modify (set_lock (Some false)).

Definition MigrationLock_finish : M unit := endMigration ;; modify (set_lock (Some true)) ;; setActive false.

(** [~MigrationLock], when there is one. *)
Definition MigrationLock_end : M unit :=
  s ← get;
  match lock_ s with
  | None => mret tt
  | Some finished =>
      (if negb (connected s) then disconnect
       else if finished then mret tt
       else catch endMigration (fun _ => disconnect)) ;;
      setActive false ;;
      modify (set_lock None)
  end.

(** *** History and journal *)
Definition readHistory : M (list AppliedMigration) :=
  exists_ ← migrationHistoryExists;
  if negb exists_ then mret []
  else rows ← call (fun s => Ok (default [] (historyTable (current s)), s));
       lift (mapM decodeHistory rows).

Definition readIncomplete : M (option IncompleteMigration) :=
  if negb has_journal then mret None
  else exists_ ← journalExists;
       if negb exists_ then mret None
       else rows ← call (fun s => Ok (default [] (journalTable (current s)), s));
            lift (decodeJournal rows).

(** A statement on the history or the journal; it fails when the table is missing. *)
Definition on_history (f : list HistoryRow -> option (list HistoryRow)) : M unit :=
  call (fun s =>
    let t := current s in
    match rows ← historyTable t; f rows with
    | Some rows => Ok (tt, update (MkTables (Some rows) (journalTable t) (objects t)) s)
    | None => Err (SociError None)
    end).

Definition on_journal (f : list JournalRow -> option (list JournalRow)) : M unit :=
  call (fun s =>
    let t := current s in
    match rows ← journalTable t; f rows with
    | Some rows => Ok (tt, update (MkTables (historyTable t) (Some rows) (objects t)) s)
    | None => Err (SociError None)
    end).

Definition has_slot (row : JournalRow) : bool := bool_decide (slot row = Some 1%Z).

(** The journal's slot is its primary key. *)
Definition insertMarker (row : JournalRow) (rows : list JournalRow) : option (list JournalRow) :=
  if existsb has_slot rows then None else Some (rows ++ [row])%list.

Definition recordIncomplete (m : Migration) (d : Direction) : M unit :=
  sum ← lift (migrationChecksum b m);
  on_journal (insertMarker (journalRow b m d sum)).

Definition recordHistory (m : Migration) (isBaseline : bool) : M unit :=
  sum ← lift (migrationChecksum b m);
  on_history (insertRow (historyRow b m sum current_timestamp isBaseline) (version_of m)).

Definition has_version (v : Z) (row : HistoryRow) : bool := bool_decide (row_version row = Some v).

Definition changeHistory (m : Migration) (d : Direction) : M unit :=
  match d with
  | Up => recordHistory m false
  | Down => on_history (fun rows => Some (List.filter (fun row => negb (has_version (version_of m) row)) rows))
  end.

Definition clearMarker (version : Z) : M unit :=
  on_journal (fun rows => Some (List.filter (fun row => negb (has_slot row)) rows)) ;;
  marker ← readIncomplete;
  throwIf (is_some marker) InvalidHistory "Incomplete marker was not removed" version.

Definition requireHistory (expected : list AppliedMigration) (version : Z) : M unit :=
  history ← readHistory;
  throwIf (negb (bool_decide (history = expected))) HistoryChanged
    "Migration history changed; inspect and retry" version.

Definition requireMarker (expected : IncompleteMigration) (message : string) : M unit :=
  marker ← readIncomplete;
  throwIf (negb (bool_decide (marker = Some expected))) InvalidHistory message (im_version expected).

(** [Status] as the open session sees it. *)
Definition inspect (catalog : list Migration) : M Status :=
  history ← readHistory;
  marker ← readIncomplete;
  lift (evaluate b catalog history marker).

(** *** [HistoryWrite] *)
Definition HistoryWrite : M unit :=
  match atomicity b with
  | NonTransactional => MigrationLock
  | WholeMigration => Transaction true
  end.

Definition HistoryWrite_end : M unit := Transaction_end ;; MigrationLock_end.

Definition beginHistory : M unit :=
  s ← get;
  match transaction_ s with None => Transaction false | Some _ => mret tt end.

Definition HistoryWrite_commit (version : Z) : M unit :=
  Transaction_commit version ;;
  s ← get;
  match lock_ s with Some _ => MigrationLock_finish | None => mret tt end.

(** A body run in the history transaction, which is then committed. *)
Definition write_history {A} (body : M A) (version : Z) : M A :=
  beginHistory ;; a ← body; HistoryWrite_commit version ;; mret a.

(** The handlers of [apply] and [baseline]: an exception gets the version. *)
Definition rethrown (version : Z) (f : failure) : failure :=
  match f with
  | Exception (MigrationError code message _ _ native) => Exception (MigrationError code message version b native)
  | _ => databaseFailure version f
  end.

Definition rethrow {A} (version : Z) (body : M A) : M A := catch body (fun f => throw (rethrown version f)).

(** A block with a local [Transaction] that it commits at its end. *)
Definition in_transaction {A} (body : M A) (version : Z) : M A :=
  scope (Transaction false ;; a ← body; Transaction_commit version ;; mret a) Transaction_end.

(** *** [MigrationState] *)

(** The constructor; [busy] says that an application transaction is active.  The name
    of the history table comes from the session. *)
Definition migrationTable : M unit :=
  if bool_decide (b = Sqlite) then mret tt else call (fun s => Ok (tt, s)).

Definition MigrationState (catalog : list Migration) (busy : bool) : M unit :=
  ready busy ;;
  lift (validateCatalog b catalog) ;;
  catch migrationTable (fun f => throw (databaseFailure 0 f)).

(** An exception keeps its version and gets the backend. *)
Definition status (catalog : list Migration) : M Status :=
  catch
    (in_transaction (inspect catalog) 0)
    (fun f =>
       throw (match f with
              | Exception (MigrationError code message version _ native) =>
                  Exception (MigrationError code message version b native)
              | _ => databaseFailure 0 f
              end)).

Definition validate (catalog : list Migration) : M unit :=
  s ← status catalog; lift (requireValid b s).

Definition plan (catalog : list Migration) (initial : Status) (d : Direction) (target : option Z) : res Plan :=
  p ← makePlan b catalog initial d target;
  Ok (MkPlan (plan_direction p) (plan_from p) (plan_to p) (atomicity b) (plan_migrations p)).

Definition markerOf (m : Migration) (d : Direction) (sum : string) : IncompleteMigration :=
  MkIncomplete (version_of m) (migration_name m) b d sum.

(** The marker transaction of [apply]. *)
Definition marker_steps (m : Migration) (d : Direction) (expected : list AppliedMigration) : M unit :=
  requireHistory expected (version_of m) ;;
  recordIncomplete m d ;;
  sum ← lift (migrationChecksum b m);
  requireMarker (markerOf m d sum) "Incomplete marker was not recorded".

(** The part of [apply] before the history transaction on a backend that does not
    roll its scripts back: the marker is committed first, then the script runs.  The
    two checks of [apply] are closures over variables of the caller; what the first
    one stores there is the value that it returns, and the second one takes it. *)
Definition journalled_script {A} (catalog : list Migration) (m : Migration) (d : Direction) (sql : string)
    (expected : list AppliedMigration) (preflight : M A) : M A :=
  s ← inspect catalog;
  lift (requireValid b s) ;;
  captured ← preflight;
  createMigrationHistory ;;
  throwIf (negb has_journal) UnsupportedBackend "Nontransactional migrations require a durable journal" (version_of m) ;;
  in_transaction (marker_steps m d expected) (version_of m) ;;
  executeScript sql ;;
  mret captured.

(** In the history transaction: a script that ran before it has its marker, another
    one runs now. *)
Definition script_step {A} (m : Migration) (d : Direction) (sql : string) (ran : option A) (preflight : M A) : M A :=
  match ran with
  | Some captured =>
      sum ← lift (migrationChecksum b m);
      requireMarker (markerOf m d sum) "Migration script modified its incomplete marker" ;;
      mret captured
  | None =>
      captured ← preflight;
      createMigrationHistory ;;
      executeScript sql ;;
      mret captured
  end.

(** The steps of the history transaction up to its commit; they return the history
    that is to be committed. *)
Definition history_steps {A} (catalog : list Migration) (m : Migration) (d : Direction) (sql : string)
    (expected : list AppliedMigration) (ran : option A) (preflight : M A) (validateResult : A -> M unit)
    : M (list AppliedMigration) :=
  requireHistory expected (version_of m) ;;
  captured ← script_step m d sql ran preflight;
  validateResult captured ;;
  changeHistory m d ;;
  actual ← readHistory;
  let preserved := match d with Up => length expected | Down => (length expected - 1)%nat end in
  throwIf (negb (match d with
                 | Up => length actual =? S (length expected)
                 | Down => S (length actual) =? length expected
                 end)%nat
           || negb (bool_decide (take preserved actual = take preserved expected)))
    InvalidHistory "Migration script modified its history" (version_of m) ;;
  s ← lift (evaluate b catalog actual None);
  lift (requireValid b s) ;;
  (match atomicity b with NonTransactional => clearMarker (version_of m) | WholeMigration => mret tt end) ;;
  mret actual.

(** The script of a direction; a plan only has migrations that have one. *)
Definition scriptOf (m : Migration) (d : Direction) : res string :=
  s ← scriptsFor b m;
  match d with Up => Ok (up s) | Down => or_throw (down s) OutOfRange end.

Definition apply {A} (catalog : list Migration) (m : Migration) (d : Direction) (expected : list AppliedMigration)
    (preflight : M A) (validateResult : A -> M unit) : M (list AppliedMigration) :=
  rethrow (version_of m)
    (sql ← lift (scriptOf m d);
     scope
       (HistoryWrite ;;
        ran ← match atomicity b with
              | NonTransactional => Some <$> journalled_script catalog m d sql expected preflight
              | WholeMigration => mret None
              end;
        write_history (history_steps catalog m d sql expected ran preflight validateResult) (version_of m))
       HistoryWrite_end).

(** The loop of [baseline] over the catalog. *)
Fixpoint recordBaselines (catalog : list Migration) (target : Z) : M unit :=
  match catalog with
  | [] => mret tt
  | m :: catalog =>
      if (target <? version_of m)%Z then mret tt else recordHistory m true ;; recordBaselines catalog target
  end.

(** The steps of the transaction of [baseline] up to its commit. *)
Definition baseline_steps (catalog : list Migration) (initial : Status) (p : Plan) (target : Z) : M unit :=
  requireHistory (applied initial) target ;;
  (match atomicity b with WholeMigration => createMigrationHistory | NonTransactional => mret tt end) ;;
  recordBaselines catalog target ;;
  history ← readHistory;
  recorded ← lift (evaluate b catalog history None);
  lift (requireValid b recorded) ;;
  throwIf (negb (length (applied recorded) =? length (plan_migrations p))%nat
           || negb (currentVersion recorded =? target)%Z || negb (baselineVersion recorded =? target)%Z)
    InvalidHistory "Baseline history was not recorded as expected" target.

Definition baselineHistory (catalog : list Migration) (target : Z) : M unit :=
  initial ← status catalog;
  lift (requireValid b initial) ;;
  throwIf (negb (bool_decide (applied initial = [])) || (target <=? 0)%Z) InvalidTarget
    "Baseline requires empty history and a positive target" target ;;
  p ← lift (plan catalog initial Up (Some target));
  rethrow target
    (scope
       (HistoryWrite ;;
        (match atomicity b with
         | NonTransactional => s ← inspect catalog; lift (requireValid b s) ;; createMigrationHistory
         | WholeMigration => mret tt
         end) ;;
        write_history (baseline_steps catalog initial p target) target)
       HistoryWrite_end).

(** The guard of [resolve]. *)
Definition matches_marker (marker : option IncompleteMigration) (version : Z) (expectedChecksum : string) : bool :=
  match marker with
  | Some m => (im_version m =? version)%Z && bool_decide (im_checksum m = expectedChecksum)
  | None => false
  end.

Definition directionOf (marker : option IncompleteMigration) : Direction :=
  match marker with Some m => im_direction m | None => Up end.

(** The steps of the transaction of [resolve] up to its commit. *)
Definition resolve_steps (catalog : list Migration) (initial : Status) (version : Z) (resolution : Resolution)
    : M unit :=
  let d := directionOf (incomplete_ initial) in
  requireHistory (applied initial) version ;;
  marker ← readIncomplete;
  throwIf (negb (bool_decide (marker = incomplete_ initial))) HistoryChanged
    "Migration state changed; inspect and retry" version ;;
  (if bool_decide (resolution = Completed)
   then m ← lift (or_throw (find_by version_of version catalog) OutOfRange); changeHistory m d
   else mret tt) ;;
  history ← readHistory;
  actual ← lift (evaluate b catalog history None);
  lift (requireValid b actual) ;;
  throwIf (negb (match resolution, d with
                 | Completed, Up => length (applied actual) =? S (length (applied initial))
                 | Completed, Down => S (length (applied actual)) =? length (applied initial)
                 | _, _ => length (applied actual) =? length (applied initial)
                 end)%nat) InvalidHistory
    "Resolution history was not recorded" version ;;
  clearMarker version.

Definition resolve (catalog : list Migration) (version : Z) (expectedChecksum : string) (resolution : Resolution)
    : M unit :=
  initial ← status catalog;
  (match problems initial with
   | p :: _ => throwError (pr_code p) (pr_message p) (pr_version p)
   | [] => mret tt
   end) ;;
  throwIf (negb (bool_decide (atomicity b = NonTransactional))
           || negb (matches_marker (incomplete_ initial) version expectedChecksum)
           || negb (bool_decide (resolution = Completed) || bool_decide (resolution = Reverted)))
    InvalidResolution "Resolution must match the incomplete migration and checksum" version ;;
  catch
    (scope (HistoryWrite ;; write_history (resolve_steps catalog initial version resolution) version) HistoryWrite_end)
    (fun f => throw (databaseFailure version f)).
End state.
