(* ===== verification/Protocol.v ===== *)
(** Protocol: what the operations of State promise -- all or nothing on backends that
    roll scripts back, a journal that survives every failure on the others, and
    sessions that are released however an operation ends. *)
From S2P Require Import Prelude Foundation Chrono Values Codec Schema Sha256 Models PhysicalSql Snapshot Diff SqlValidation Literals SchemaJson Generation Renames Catalog History Session State.
Local Open Scope string_scope.

(** ** Steps of an open transaction

    [in_tx m W]: in an open transaction, [m] ends with the session unchanged but for
    the transaction's tables, or with the connection lost; when it returns [a],
    [W t a t'] relates the tables before and after.  [reads m R] when a returned [a]
    is read off the tables by [R] and they are not changed. *)
Section in_transaction.
Context `{Engine}.
Abbreviation tables := (Tables Objects).

(** The postcondition holds of every failure of a transaction. *)
Definition tx_fails {A} (Q : result failure A -> Session -> Prop) (s : Session) : Prop :=
  forall f, Q (Err f) (drop_connection s) /\ forall t', Q (Err f) (set_working (Some t') s).

Definition in_tx {A} (m : M A) (W : tables -> A -> tables -> Prop) : Prop :=
  forall s t (Q : result failure A -> Session -> Prop), working s = Some t -> tx_fails Q s ->
    (forall a t', W t a t' -> Q (Ok a) (set_working (Some t') s)) -> wp m Q s.

Definition reads {A} (m : M A) (R : tables -> A -> Prop) : Prop :=
  forall s (Q : result failure A -> Session -> Prop), may_fail Q s ->
    (forall a, R (current s) a -> Q (Ok a) s) -> wp m Q s.

Lemma tx_fails_now {A} (Q : result failure A -> Session -> Prop) s t f :
  working s = Some t -> tx_fails Q s -> Q (Err f) s.
Proof. intros Hs Herr. rewrite <- (set_working_same s t Hs). by destruct (Herr f). Qed.

Lemma may_fail_tx {A} (Q : result failure A -> Session -> Prop) s t :
  working s = Some t -> tx_fails Q s -> may_fail Q s.
Proof. intros Hs Herr f. split; [by eapply tx_fails_now|by destruct (Herr f)]. Qed.

(** A reading operation inside a transaction. *)
Lemma reads_tx {A} (m : M A) R s t (Q : result failure A -> Session -> Prop) :
  reads m R -> working s = Some t -> tx_fails Q s -> (forall a, R t a -> Q (Ok a) s) -> wp m Q s.
Proof.
  intros Hm Hs Herr Hok. apply Hm; [by eapply may_fail_tx|]. intros a. rewrite (current_working s t Hs). apply Hok.
Qed.

Lemma reads_in_tx {A} (m : M A) R : reads m R -> in_tx m (fun t a t' => R t a /\ t' = t).
Proof.
  intros Hm s t Q Hs Herr Hok. apply (reads_tx m R s t); [done..|]. intros a Ha.
  rewrite <- (set_working_same s t Hs). by apply Hok.
Qed.

Lemma in_tx_mono {A} (m : M A) (W V : tables -> A -> tables -> Prop) :
  in_tx m W -> (forall t a t', W t a t' -> V t a t') -> in_tx m V.
Proof. intros Hm Himp s t Q Hs Herr Hok. apply (Hm s t); [done..|]. auto. Qed.

Lemma reads_ret {A} (a : A) : reads (mret a) (fun t c => c = a).
Proof. intros s Q Herr Hok. wp_step. by apply Hok. Qed.

Lemma reads_throw {A} f (R : tables -> A -> Prop) : reads (throw f) R.
Proof. intros s Q Herr Hok. wp_step. by destruct (Herr f). Qed.

Lemma reads_lift {A} (r : res A) : reads (lift r) (fun t a => r = Ok a).
Proof. intros s Q Herr Hok. wp_step; [intros a Ha; by apply Hok|intros e _; by destruct (Herr (Exception e))]. Qed.

Lemma reads_throwIf b c code message version : reads (throwIf b c code message version) (fun t _ => c = false).
Proof.
  unfold throwIf, throwError. destruct c; [apply reads_throw|].
  intros s Q Herr Hok. wp_step. by apply Hok.
Qed.

(** A call that reads the tables, and one that changes them or fails. *)
Lemma reads_call {A} (f : tables -> A) : reads (call (fun s => Ok (f (current s), s))) (fun t a => a = f t).
Proof.
  intros s Q Herr Hok. apply wp_call; [done|]. intros a s' _ [= <- <-]. by apply Hok.
Qed.

Lemma in_tx_write (f : tables -> option tables) e :
  in_tx (call (fun s => match f (current s) with Some t => Ok (tt, update t s) | None => Err e end))
    (fun t _ t' => f t = Some t').
Proof.
  intros s t Q Hs Herr Hok. apply wp_call; [by eapply may_fail_tx|].
  intros [] s' _. rewrite (current_working s t Hs). destruct (f t) as [t'|] eqn:Hf; [|done].
  intros [= <-]. unfold update. rewrite Hs. by apply Hok.
Qed.

Lemma working_updates states s t :
  working s = Some t -> foldl (fun s t => update t s) s states = set_working (Some (default t (last states))) s.
Proof.
  revert s t. induction states as [|u states IH]; intros s t Hs; cbn [foldl].
  - by rewrite set_working_same.
  - unfold update at 2. rewrite Hs, (IH _ u) by done. rewrite last_cons. by destruct (last states).
Qed.
End in_transaction.

(** A step by the specification of a reading operation; a step of a transaction, in
    the tables [t]. *)
Ltac wp_front := lazymatch goal with |- wp (_ ≫= _) _ _ => apply wp_bind | |- _ => idtac end.

Tactic Notation "read_step" constr(lem) :=
  wp_front;
  match goal with
  | Herr : may_fail _ ?s |- wp _ _ ?s => apply (lem s); [intros ?f; exact (Herr f)|]
  end.

Tactic Notation "tx_step" constr(lem) constr(t) :=
  wp_front;
  match goal with
  | Herr : tx_fails _ _ |- wp _ _ ?s =>
      first [apply (lem s t) | apply (reads_tx _ _ s t _ lem)]; [first [done | reflexivity]|intros ?f; exact (Herr f)|]
  end.

(** *** The operations of the session *)
Section operations.
Context `{JsonLibrary} `{Engine} (b : BackendType).
Abbreviation tables := (Tables Objects).

(** What the tables record. *)
Definition history_of (t : tables) : res (list AppliedMigration) :=
  match historyTable t with Some rows => mapM decodeHistory rows | None => Ok [] end.
Definition marker_of (t : tables) : res (option IncompleteMigration) :=
  if has_journal b then match journalTable t with Some rows => decodeJournal rows | None => Ok None end else Ok None.

Lemma readHistory_reads : reads readHistory (fun t h => history_of t = Ok h).
Proof.
  intros s Q Herr Hok. unfold readHistory, migrationHistoryExists, history_of in *.
  read_step (reads_call (fun t => is_some (historyTable t))). intros e ->.
  destruct (historyTable (current s)) as [rows|] eqn:Hrows; cbn [is_some negb].
  - read_step (reads_call (fun t => default [] (historyTable t))). intros l ->. rewrite Hrows.
    read_step (reads_lift (mapM decodeHistory rows)). done.
  - wp_step. by apply Hok.
Qed.

Lemma readIncomplete_reads : reads (readIncomplete b) (fun t m => marker_of t = Ok m).
Proof.
  intros s Q Herr Hok. unfold readIncomplete, journalExists, marker_of in *.
  destruct (has_journal b); cbn [negb]; [|wp_step; by apply Hok].
  read_step (reads_call (fun t => is_some (journalTable t))). intros e ->.
  destruct (journalTable (current s)) as [rows|] eqn:Hrows; cbn [is_some negb]; [|wp_step; by apply Hok].
  read_step (reads_call (fun t => default [] (journalTable t))). intros l ->. rewrite Hrows.
  read_step (reads_lift (decodeJournal rows)). done.
Qed.

Lemma requireHistory_reads expected version : reads (requireHistory b expected version) (fun t _ => history_of t = Ok expected).
Proof.
  intros s Q Herr Hok. unfold requireHistory. read_step readHistory_reads. intros h Hh.
  read_step (reads_throwIf b (negb (bool_decide (h = expected))) HistoryChanged "Migration history changed; inspect and retry" version).
  intros [] Hc. apply Hok. bool_to_prop. congruence.
Qed.

Lemma requireMarker_reads marker message : reads (requireMarker b marker message) (fun t _ => marker_of t = Ok (Some marker)).
Proof.
  intros s Q Herr Hok. unfold requireMarker. read_step readIncomplete_reads. intros m Hm.
  read_step (reads_throwIf b (negb (bool_decide (m = Some marker))) InvalidHistory message (im_version marker)).
  intros [] Hc. apply Hok. bool_to_prop. congruence.
Qed.

Lemma inspect_reads catalog :
  reads (inspect b catalog) (fun t st => exists h m, history_of t = Ok h /\ marker_of t = Ok m /\ evaluate b catalog h m = Ok st).
Proof.
  intros s Q Herr Hok. unfold inspect. read_step readHistory_reads. intros h Hh.
  read_step readIncomplete_reads. intros m Hm. read_step (reads_lift (evaluate b catalog h m)).
  intros st Hst. apply Hok. by exists h, m.
Qed.

(** Writes to one of the tables leave the rest alone. *)
Definition same_but_history (t t' : tables) : Prop := journalTable t' = journalTable t /\ objects t' = objects t.
Definition same_but_journal (t t' : tables) : Prop := historyTable t' = historyTable t /\ objects t' = objects t.

Lemma on_history_tx f : in_tx (on_history f) (fun t _ t' => same_but_history t t').
Proof.
  intros s t Q Hs Herr Hok. unfold on_history. apply wp_call; [by eapply may_fail_tx|].
  intros [] s' _. cbv zeta. rewrite (current_working s t Hs). destruct (historyTable t ≫= f) as [rows|]; [|done].
  intros [= <-]. unfold update. rewrite Hs. by apply Hok.
Qed.

Lemma on_journal_tx f :
  in_tx (on_journal f) (fun t _ t' => same_but_journal t t').
Proof.
  intros s t Q Hs Herr Hok. unfold on_journal. apply wp_call; [by eapply may_fail_tx|].
  intros [] s' _. cbv zeta. rewrite (current_working s t Hs). destruct (journalTable t ≫= f) as [rows|]; [|done].
  intros [= <-]. unfold update. rewrite Hs. by apply Hok.
Qed.

Lemma recordIncomplete_tx m d : in_tx (recordIncomplete b m d) (fun t _ t' => same_but_journal t t').
Proof.
  intros s t Q Hs Herr Hok. unfold recordIncomplete. tx_step (reads_lift (migrationChecksum b m)) t. intros sum _.
  tx_step (on_journal_tx (insertMarker (journalRow b m d sum))) t. done.
Qed.

Lemma recordHistory_tx m isBaseline : in_tx (recordHistory b m isBaseline) (fun t _ t' => same_but_history t t').
Proof.
  intros s t Q Hs Herr Hok. unfold recordHistory. tx_step (reads_lift (migrationChecksum b m)) t. intros sum _.
  tx_step (on_history_tx (insertRow (historyRow b m sum current_timestamp isBaseline) (version_of m))) t. done.
Qed.

Lemma changeHistory_tx m d : in_tx (changeHistory b m d) (fun t _ t' => same_but_history t t').
Proof. destruct d; [apply recordHistory_tx|apply on_history_tx]. Qed.

Lemma clearMarker_tx version :
  in_tx (clearMarker b version) (fun t _ t' => same_but_journal t t' /\ marker_of t' = Ok None).
Proof.
  intros s t Q Hs Herr Hok. unfold clearMarker.
  tx_step (on_journal_tx (fun rows => Some (List.filter (fun row => negb (has_slot row)) rows))) t. intros [] t' Ht.
  tx_step readIncomplete_reads t'. intros m Hm.
  tx_step (reads_throwIf b (is_some m) InvalidHistory "Incomplete marker was not removed" version) t'.
  intros [] Hc. destruct m; [done|]. by apply Hok.
Qed.
End operations.

(** *** The transactions of the protocol *)
Section transactions.
Context `{JsonLibrary} `{Engine} (b : BackendType) (catalog : list Migration).
Abbreviation tables := (Tables Objects).

Definition same_records (t t' : tables) : Prop := history_of t' = history_of t /\ marker_of b t' = marker_of b t.

Lemma createHistory_records t : same_records t (createHistory t) /\ objects (createHistory t) = objects t.
Proof. unfold same_records, history_of, marker_of, createHistory. cbn. by destruct (historyTable t). Qed.

Lemma createJournal_records t : same_records t (createJournal t) /\ objects (createJournal t) = objects t.
Proof. unfold same_records, history_of, marker_of, createJournal. cbn. destruct (has_journal b), (journalTable t); done. Qed.

Lemma validateMigrationSession_reads : reads (validateMigrationSession b) (fun _ _ => True).
Proof.
  intros s Q Herr Hok. unfold validateMigrationSession. destruct (bool_decide (b = Sqlite)).
  - wp_step. by apply Hok.
  - apply wp_call; [done|]. intros [] s' _ [= <-]. by apply Hok.
Qed.

Lemma reads_owned : reads (call (fun s => Ok (locked s, s))) (fun _ _ => True).
Proof. intros s Q Herr Hok. apply wp_call; [done|]. intros a s' _ [= <- <-]. by apply Hok. Qed.

Lemma reads_call_unit : reads (call (fun s => Ok (tt, s))) (fun _ _ => True).
Proof. intros s Q Herr Hok. apply wp_call; [done|]. intros [] s' _ [= <-]. by apply Hok. Qed.

Lemma migrationHistoryExists_reads : reads migrationHistoryExists (fun t h => h = is_some (historyTable t)).
Proof. apply (reads_call (fun t => is_some (historyTable t))). Qed.

Lemma journalExists_reads : reads journalExists (fun t j => j = is_some (journalTable t)).
Proof. apply (reads_call (fun t => is_some (journalTable t))). Qed.

Lemma requireTables_reads message : reads (requireTables b message) (fun _ _ => True).
Proof.
  intros s Q Herr Hok. unfold requireTables. read_step migrationHistoryExists_reads. intros h _.
  read_step journalExists_reads. intros j _.
  apply (reads_throwIf b (negb h || negb j) InvalidHistory message 0); [done|]. intros [] _. by apply Hok.
Qed.

Lemma createMigrationHistory_tx :
  in_tx (createMigrationHistory b) (fun t _ t' => same_records t t' /\ objects t' = objects t).
Proof.
  intros s t Q Hs Herr Hok. unfold createMigrationHistory.
  destruct (createHistory_records t) as [[Hh Hm] Ho]. destruct (has_journal b).
  - tx_step migrationHistoryExists_reads t. intros _ _. tx_step journalExists_reads t. intros _ _.
    tx_step (in_tx_write (fun t => Some (createHistory t)) (SociError None)) t. intros [] t' [= <-].
    tx_step (in_tx_write (fun t => Some (createJournal t)) (SociError None)) (createHistory t). intros [] t' [= <-].
    tx_step (requireTables_reads "Migration history or journal was not created") (createJournal (createHistory t)). intros [] _.
    apply Hok. destruct (createJournal_records (createHistory t)) as [[Hh' Hm'] Ho']. unfold same_records. split; [split|]; congruence.
  - tx_step (in_tx_write (fun t => Some (createHistory t)) (SociError None)) t. intros [] t' [= <-]. by apply Hok.
Qed.

Lemma executeScript_tx sql :
  has_journal b = false ->
  in_tx (executeScript b sql) (fun t _ t' => exists states, run_script sql t = (states, None) /\ t' = default t (last states)).
Proof.
  intros Hj s t Q Hs Herr Hok. unfold executeScript, runScript. rewrite Hj.
  tx_step (validateMigrationSession_reads) t. intros [] _. wp_step.
  apply wp_call; [intros f; split; [by eapply (tx_fails_now (A := unit))|by destruct (Herr f)]|].
  intros [e kept] s' _. rewrite (current_working s t Hs). destruct (run_script sql t) as [states e'] eqn:Hrun. intros [= <- _ <-].
  rewrite (working_updates states s t Hs). set (t' := default t (last states)).
  destruct e' as [f|]; cbn [raise]; wp_step; wp_step; [by destruct (Herr f)|].
  tx_step (reads_throwIf b (bool_decide (b = Postgres) && negb kept) InvalidSql "Migration SQL changed connection settings" 0) t'.
  intros [] _. apply Hok. by exists states.
Qed.

Lemma requireLock_reads : reads (requireLock b) (fun _ _ => True).
Proof.
  intros s Q Herr Hok. unfold requireLock. read_step (reads_owned). intros owned _.
  destruct owned; cbn [negb]; [wp_step; by apply Hok|]. unfold close, throwError. do 3 wp_step. by apply Herr.
Qed.

Lemma marker_steps_tx m d expected :
  in_tx (marker_steps b m d expected) (fun t _ t' =>
    history_of t = Ok expected /\ same_but_journal t t' /\
    exists sum, migrationChecksum b m = Ok sum /\ marker_of b t' = Ok (Some (markerOf b m d sum))).
Proof.
  intros s t Q Hs Herr Hok. unfold marker_steps.
  tx_step (requireHistory_reads b expected (version_of m)) t. intros [] Hh.
  tx_step (recordIncomplete_tx b m d) t. intros [] t' Ht.
  tx_step (reads_lift (migrationChecksum b m)) t'. intros sum Hsum.
  tx_step (requireMarker_reads b (markerOf b m d sum) "Incomplete marker was not recorded") t'. intros [] Hm.
  apply Hok. split; [done|]. split; [done|]. by exists sum.
Qed.

(** One record more, or one less. *)
Definition one_step (d : Direction) (expected actual : list AppliedMigration) : Prop :=
  match d with
  | Up => exists r, actual = (expected ++ [r])%list
  | Down => exists r, expected = (actual ++ [r])%list
  end.

Lemma one_step_guard d (expected actual : list AppliedMigration) :
  negb (match d with Up => length actual =? S (length expected) | Down => S (length actual) =? length expected end)%nat
  || negb (bool_decide (take (match d with Up => length expected | Down => (length expected - 1)%nat end) actual
                        = take (match d with Up => length expected | Down => (length expected - 1)%nat end) expected)) = false ->
  one_step d expected actual.
Proof.
  intros [Hl%negb_false_iff Ht%negb_false_iff]%orb_false_iff. apply bool_decide_eq_true in Ht.
  destruct d; apply Nat.eqb_eq in Hl; cbn [one_step].
  - rewrite (take_ge expected) in Ht by lia. destruct (drop (length expected) actual) as [|r rest] eqn:Hd.
    + apply (f_equal length) in Hd. rewrite length_drop in Hd. cbn in Hd. lia.
    + exists r. rewrite <- Ht at 1. rewrite <- (take_drop (length expected) actual) at 1. rewrite Hd. f_equal.
      apply (f_equal length) in Hd. rewrite length_drop in Hd. cbn in Hd. destruct rest; [done|cbn in Hd; lia].
  - rewrite (take_ge actual) in Ht by lia. destruct (drop (length expected - 1) expected) as [|r rest] eqn:Hd.
    + apply (f_equal length) in Hd. rewrite length_drop in Hd. cbn in Hd. lia.
    + exists r. rewrite <- (take_drop (length expected - 1) expected) at 1. rewrite Hd, <- Ht. f_equal.
      apply (f_equal length) in Hd. rewrite length_drop in Hd. cbn in Hd. destruct rest; [done|cbn in Hd; lia].
Qed.

(** What a commit of the history transaction makes durable. *)
Definition valid_history (h : list AppliedMigration) : Prop :=
  exists st, evaluate b catalog h None = Ok st /\ isValid st = true.

Definition history_change (m : Migration) (d : Direction) (expected : list AppliedMigration) (t : tables)
    (actual : list AppliedMigration) (t' : tables) : Prop :=
  history_of t = Ok expected /\ one_step d expected actual /\ valid_history actual /\ history_of t' = Ok actual /\
  (atomicity b = NonTransactional ->
     (exists sum, migrationChecksum b m = Ok sum /\ marker_of b t = Ok (Some (markerOf b m d sum))) /\
     objects t' = objects t /\ marker_of b t' = Ok None).

(** The last steps, from the change of the history on; [t0] are the tables at the
    start of the transaction. *)
Lemma history_steps_tail m d expected t0 :
  history_of t0 = Ok expected ->
  forall t, (atomicity b = NonTransactional -> objects t = objects t0 /\
     exists sum, migrationChecksum b m = Ok sum /\ marker_of b t0 = Ok (Some (markerOf b m d sum))) ->
  forall s (Q : result failure (list AppliedMigration) -> Session -> Prop), working s = Some t -> tx_fails Q s ->
    (forall a t', history_change m d expected t0 a t' -> Q (Ok a) (set_working (Some t') s)) ->
  wp (changeHistory b m d ;;
      actual ← readHistory;
      let preserved := match d with Up => length expected | Down => (length expected - 1)%nat end in
      throwIf b (negb (match d with
                 | Up => length actual =? S (length expected)
                 | Down => S (length actual) =? length expected
                 end)%nat
           || negb (bool_decide (take preserved actual = take preserved expected)))
        InvalidHistory "Migration script modified its history" (version_of m) ;;
      s ← lift (evaluate b catalog actual None);
      lift (requireValid b s) ;;
      (match atomicity b with NonTransactional => clearMarker b (version_of m) | WholeMigration => mret tt end) ;;
      mret actual) Q s.
Proof.
  intros Hexp t Hjournal s Q Hs Herr Hok.
  tx_step (changeHistory_tx b m d) t. intros [] t1 [Hj1 Ho1].
  tx_step readHistory_reads t1. intros actual Hact. cbv zeta.
  tx_step (reads_throwIf b (negb (match d with
      | Up => length actual =? S (length expected) | Down => S (length actual) =? length expected end)%nat
      || negb (bool_decide (take (match d with Up => length expected | Down => (length expected - 1)%nat end) actual
                        = take (match d with Up => length expected | Down => (length expected - 1)%nat end) expected)))
      InvalidHistory "Migration script modified its history" (version_of m)) t1.
  intros [] Hstep%one_step_guard.
  tx_step (reads_lift (evaluate b catalog actual None)) t1. intros st Hst.
  tx_step (reads_lift (requireValid b st)) t1. intros [] Hvalid.
  assert (valid_history actual) as Hv by (exists st; split; [done|]; by rewrite <- (requireValid_isValid b), Hvalid).
  destruct (atomicity b) eqn:Hat.
  - tx_step (reads_ret tt) t1. intros [] _. tx_step (reads_ret actual) t1. intros a ->.
    apply (Hok actual t1). unfold history_change. rewrite Hat. by split_and?.
  - tx_step (clearMarker_tx b (version_of m)) t1. intros [] t2 [[Hh2 Ho2] Hm2].
    tx_step (reads_ret actual) t2. intros a ->. apply (Hok actual t2).
    destruct (Hjournal eq_refl) as [Ho Hsum]. unfold history_change. rewrite Hat. split_and?; try done.
    + unfold history_of. by rewrite Hh2.
    + intros _. split_and?; [done|congruence|done].
Qed.

Context {A : Type} (preflight : M A) (validateResult : A -> M unit).
Context (preflight_tx : in_tx preflight (fun _ _ _ => True)).
Context (validate_tx : forall a, in_tx (validateResult a) (fun t _ t' => atomicity b = NonTransactional -> t' = t)).

Lemma history_steps_tx m d sql expected ran :
  (atomicity b = NonTransactional <-> is_Some ran) ->
  in_tx (history_steps b catalog m d sql expected ran preflight validateResult) (history_change m d expected).
Proof.
  intros Hran s t Q Hs Herr Hok. unfold history_steps, script_step.
  tx_step (requireHistory_reads b expected (version_of m)) t. intros [] Hh. wp_step.
  destruct ran as [captured|], (atomicity b) eqn:Hat; try by (destruct Hran as [H1 H2]; first [by destruct (H1 eq_refl)|by specialize (H2 ltac:(by eexists))]).
  - tx_step (reads_lift (migrationChecksum b m)) t. intros sum Hsum.
    tx_step (requireMarker_reads b (markerOf b m d sum) "Migration script modified its incomplete marker") t.
    intros [] Hm. wp_step. tx_step (validate_tx captured) t. intros [] t1 Ht1. rewrite (Ht1 eq_refl) in *.
    pose proof (history_steps_tail m d expected t Hh t) as Htail. rewrite Hat in Htail.
    apply Htail; [|done..]. intros _. split; [done|]. by exists sum.
  - assert (has_journal b = false) as Hj by (unfold has_journal; by rewrite Hat).
    tx_step preflight_tx t. intros captured t1 _.
    tx_step createMigrationHistory_tx t1. intros [] t2 _.
    tx_step (executeScript_tx sql Hj) t2. intros [] t3 _. wp_step.
    tx_step (validate_tx captured) t3. intros [] t4 _.
    pose proof (history_steps_tail m d expected t Hh t4) as Htail. rewrite Hat in Htail. by apply Htail.
Qed.
End transactions.

(** ** Transactions and locks are released *)
Section release.
Context `{JsonLibrary} `{Engine} (b : BackendType).

(** No transaction is open, no lock is held and no object is live. *)
Definition idle (s : Session) : Prop :=
  working s = None /\ locked s = false /\ transaction_ s = None /\ lock_ s = None.

Definition started (s : Session) : Session :=
  set_transaction (Some (MkTransaction false (active s))) (set_active true (set_working (Some (durable s)) s)).

Lemma Transaction_wp writing Q s :
  (writing = true -> atomicity b = WholeMigration) -> may_fail Q s -> Q (Ok tt) (started s) ->
  wp (Transaction b writing) Q s.
Proof.
  intros Hw Hfail HQ. unfold Transaction, beginMigration, setActive, session_begin. wp_step. wp_step. wp_step.
  assert ((if writing then match atomicity b with
      | WholeMigration => call (fun s => Ok (tt, set_working (Some (durable s)) s))
      | NonTransactional => call (fun s => Ok (tt, set_locked true s)) end
    else call (fun s => Ok (tt, set_working (Some (durable s)) s))) = call (fun s => Ok (tt, set_working (Some (durable s)) s))) as ->.
  { destruct writing; [|done]. by rewrite Hw. }
  apply wp_call; [done|]. intros [] s' _ [= <-]. do 3 wp_step. exact HQ.
Qed.

Definition uncertain (version : Z) : failure :=
  Exception (MigrationError CommitUncertain "Migration commit outcome is uncertain; reconnect and inspect history" version b None).

Definition disconnected (s : Session) : Session := set_active false (drop_connection s).

Lemma Transaction_commit_wp version (Q : result failure unit -> Session -> Prop) s :
  Q (Ok tt) (finish_transaction (committed_state s)) ->
  Q (Err (uncertain version)) (finish_transaction (disconnected s)) ->
  Q (Err (uncertain version)) (finish_transaction (disconnected (committed_state s))) ->
  wp (Transaction_commit b version) Q s.
Proof.
  intros Hok He1 He2. unfold Transaction_commit, disconnect, throwError. wp_step. wp_step.
  assert (forall f x, Q (Err (uncertain version)) (finish_transaction (disconnected x)) ->
    wp ((fun _ : failure => modify (fun s => set_active false (drop_connection s)) ;; modify finish_transaction ;;
         throw (uncertain version)) f) Q x) as Hcatch.
  { intros f x Hx. do 5 wp_step. exact Hx. }
  apply wp_commit; [intros f; split; apply Hcatch; by rewrite ?drop_connection_idemp|
    intros f; split; apply Hcatch; by rewrite ?drop_connection_idemp|].
  intros _. wp_step. exact Hok.
Qed.

(** What is left when a transaction object is destroyed. *)
Definition released (s : Session) (t : TransactionObject) : Session :=
  set_transaction None (set_active (previouslyActive t) s).

Lemma Transaction_end_wp (Q : result failure unit -> Session -> Prop) s t :
  transaction_ s = Some t ->
  (tx_finished t = true -> Q (Ok tt) (released s t)) ->
  (tx_finished t = false -> Q (Ok tt) (released (set_working None s) t) /\ Q (Ok tt) (released (drop_connection s) t)) ->
  wp Transaction_end Q s.
Proof.
  intros Ht Hfin Hun. unfold Transaction_end, setActive, disconnect, session_rollback. wp_step. wp_step. rewrite Ht.
  wp_step. destruct (tx_finished t).
  - do 4 wp_step. by apply Hfin.
  - destruct (Hun eq_refl) as [H1 H2]. wp_step.
    assert (forall x (f : failure), drop_connection x = drop_connection s ->
      wp (modify (fun s => set_active false (drop_connection s))) (fun r s' => match r with
        | Ok _ => wp (modify (set_active (previouslyActive t)) ;; modify (set_transaction None)) Q s'
        | Err f => Q (Err f) s' end) x) as Hd.
    { intros x f Hx. do 4 wp_step. rewrite Hx. exact H2. }
    apply wp_call; [intros f; split; by apply Hd|]. intros [] s' _ [= <-]. do 3 wp_step. exact H1.
Qed.

Lemma Transaction_end_none (Q : result failure unit -> Session -> Prop) s :
  transaction_ s = None -> Q (Ok tt) s -> wp Transaction_end Q s.
Proof. intros Ht HQ. unfold Transaction_end. wp_step. wp_step. rewrite Ht. by wp_step. Qed.

Lemma MigrationLock_end_none (Q : result failure unit -> Session -> Prop) s :
  lock_ s = None -> Q (Ok tt) s -> wp (MigrationLock_end b) Q s.
Proof. intros Ht HQ. unfold MigrationLock_end. wp_step. wp_step. rewrite Ht. by wp_step. Qed.

(** However a lock object is destroyed, the lock is not held afterwards. *)
Lemma MigrationLock_end_wp (Q : result failure unit -> Session -> Prop) s finished :
  atomicity b = NonTransactional -> lock_ s = Some finished -> (finished = true -> locked s = false) ->
  Q (Ok tt) (set_lock None (set_active false (set_locked false s))) ->
  Q (Ok tt) (set_lock None (set_active false (drop_connection s))) ->
  wp (MigrationLock_end b) Q s.
Proof.
  intros Hat Hl Hfin H1 H2. unfold MigrationLock_end, setActive, disconnect, endMigration. wp_step. wp_step.
  rewrite Hl, Hat. wp_step.
  assert (forall x (f : failure), drop_connection x = drop_connection s ->
    wp (modify (fun s => set_active false (drop_connection s))) (fun r s' => match r with
      | Ok _ => wp (modify (set_active false) ;; modify (set_lock None)) Q s'
      | Err f => Q (Err f) s' end) x) as Hd.
  { intros x f Hx. do 4 wp_step. rewrite Hx. exact H2. }
  destruct (connected s); cbn [negb]; [|by apply (Hd s (SociError None))]. destruct finished.
  - do 4 wp_step. assert (set_locked false s = s) as <-; [|done]. destruct s; cbn in *. by rewrite Hfin.
  - wp_step. apply wp_call; [intros f; split; by apply (Hd _ f)|]. intros [] s' _ [= <-]. do 3 wp_step. exact H1.
Qed.
End release.

(** ** Backends that roll scripts back *)
Section whole.
Context `{JsonLibrary} `{Engine} (b : BackendType) (catalog : list Migration).
Context (whole : atomicity b = WholeMigration).

(** Nothing durable changed. *)
Definition untouched (s s' : Session) : Prop := durable s' = durable s /\ trace s' = trace s.

(** The session is as it was, but perhaps for its connection. *)
Definition left_idle (s s' : Session) : Prop :=
  idle s' /\ active s' = active s /\ foreignKeys s' = foreignKeys s /\ rebuild_ s' = rebuild_ s.

Lemma HistoryWrite_end_whole {A} (Q : result failure A -> Session -> Prop) r s t :
  lock_ s = None -> transaction_ s = Some t ->
  (tx_finished t = true -> Q r (released s t)) ->
  (tx_finished t = false -> Q r (released (set_working None s) t) /\ Q r (released (drop_connection s) t)) ->
  wp (HistoryWrite_end b) (fun _ => Q r) s.
Proof.
  intros Hl Ht Hfin Hun. unfold HistoryWrite_end. wp_step. apply (Transaction_end_wp _ _ t Ht).
  - intros Hf. apply MigrationLock_end_none; auto.
  - intros Hf. destruct (Hun Hf). split; apply MigrationLock_end_none; auto.
Qed.

(** A body that runs in the transaction of a [HistoryWrite] and is then committed. *)
Lemma write_whole {A X} (ran : X) (body : X -> M A) W version s (Q : result failure A -> Session -> Prop) :
  idle s -> in_tx (body ran) W ->
  (forall f s', left_idle s s' -> untouched s s' -> Q (Err f) s') ->
  (forall a t s', W (durable s) a t -> left_idle s s' -> durable s' = t -> trace s' = t :: trace s ->
     Q (Ok a) s' /\ Q (Err (uncertain b version)) s') ->
  wp (scope (HistoryWrite b ;; c ← mret ran; write_history b (body c) version) (HistoryWrite_end b)) Q s.
Proof.
  intros (Hw & Hlk & Htr & Hl) Hbody Herr Hok. wp_step. unfold HistoryWrite. rewrite whole. wp_step.
  apply Transaction_wp; [done| |].
  { assert (forall f x, left_idle s x -> untouched s x -> wp (HistoryWrite_end b) (fun _ => Q (Err f)) x) as Hend.
    { intros f x Hx ?. pose proof Hx as [(? & ? & ? & ?) ?]. unfold HistoryWrite_end. wp_step. apply Transaction_end_none; [done|].
      apply MigrationLock_end_none; [done|]. by apply Herr. }
    intros f. split; apply Hend; done. }
  do 2 wp_step. unfold write_history, beginHistory. do 3 wp_step. cbn [started set_transaction transaction_]. wp_step.
  assert (forall f x, transaction_ x = Some (MkTransaction false (active s)) -> lock_ x = None ->
     locked x = false -> foreignKeys x = foreignKeys s -> rebuild_ x = rebuild_ s ->
     untouched s x -> wp (HistoryWrite_end b) (fun _ => Q (Err f)) x) as Hend.
  { intros f x Ht Hl' Hlk' Hfk Hrb Hu. apply (HistoryWrite_end_whole _ _ _ (MkTransaction false (active s)) Hl' Ht); [done|].
    intros _. split; apply Herr; done. }
  wp_step. apply (Hbody (started s) (durable s)); [done| |].
  { intros f. split; [|intros t']; by apply (Hend f). }
  intros a t' HW. wp_step. unfold HistoryWrite_commit. wp_step.
  destruct (Hok a t' (released (finish_transaction (committed_state (set_working (Some t') (started s)))) (MkTransaction true (active s))) HW)
    as [Hok1 _]; [done|done|done|].
  destruct (Hok a t' (released (finish_transaction (disconnected (committed_state (set_working (Some t') (started s))))) (MkTransaction true (active s))) HW)
    as [_ Hok2]; [done|done|done|].
  apply Transaction_commit_wp.
  - wp_step. wp_step. cbn [finish_transaction committed_state started set_transaction set_working set_durable set_active
      working transaction_ lock_ previouslyActive]. rewrite Hl. wp_step. wp_step.
    apply (HistoryWrite_end_whole _ _ _ (MkTransaction true (active s))); done.
  - apply (HistoryWrite_end_whole _ _ _ (MkTransaction true (active s))); [done|done| |done]. intros _. by apply Herr.
  - apply (HistoryWrite_end_whole _ _ _ (MkTransaction true (active s))); done.
Qed.
End whole.

(** The outcome of a migration applied in one transaction. *)
Definition all_or_nothing `{JsonLibrary} `{Engine} b catalog m d expected (s : Session)
    (r : result failure (list AppliedMigration)) (s' : Session) : Prop :=
  left_idle s s' /\
  ((untouched s s' /\ exists f, r = Err f) \/
   exists actual, trace s' = durable s' :: trace s /\
     history_of (durable s) = Ok expected /\ history_of (durable s') = Ok actual /\
     one_step d expected actual /\ valid_history b catalog actual /\
     (r = Ok actual \/ r = Err (uncertain b (version_of m)))).

Lemma apply_whole `{JsonLibrary} `{Engine} {A} b catalog m d expected (preflight : M A) validateResult s :
  atomicity b = WholeMigration -> idle s ->
  in_tx preflight (fun _ _ _ => True) -> (forall a, in_tx (validateResult a) (fun _ _ _ => True)) ->
  wp (apply b catalog m d expected preflight validateResult) (all_or_nothing b catalog m d expected s) s.
Proof.
  intros Hwhole Hs Hpre Hval. unfold apply, rethrow. wp_step. wp_step.
  assert (forall f s', left_idle s s' -> untouched s s' -> all_or_nothing b catalog m d expected s (Err f) s') as Hfail.
  { intros f s' Hl Hu. split; [done|]. left. split; [done|by exists f]. }
  wp_step; [intros sql _|intros e _; wp_step; by apply Hfail].
  rewrite Hwhole. apply (write_whole b Hwhole None (fun ran => history_steps b catalog m d sql expected ran preflight validateResult)
    (history_change b catalog m d expected)); [done| |..].
  - apply history_steps_tx; [done| |].
    + intros a. apply (in_tx_mono _ _ _ (Hval a)). intros t [] t' _. by rewrite Hwhole.
    + rewrite Hwhole. split; [done|by intros []].
  - intros f s' Hl Hu. wp_step. by apply Hfail.
  - intros actual t s' (He & Hone & Hv & Ha & _) Hl Ht Htr.
    assert (forall r, r = Ok actual \/ r = Err (uncertain b (version_of m)) ->
      all_or_nothing b catalog m d expected s r s') as Hdone.
    { intros r Hr. split; [done|]. right. exists actual. rewrite Ht. split_and?; try done. }
    split; [by apply Hdone; left|]. wp_step. apply Hdone. by right.
Qed.

(** C2: On a backend that rolls scripts back, applying a migration is all or nothing,
    whatever call fails and whatever the script does: either nothing durable changes
    and an exception says so, or one commit makes exactly one more history (one
    record added or taken away) durable, which was re-read and found valid for the
    catalog.  After that commit the only exception is the one that says that its
    outcome is uncertain.  No transaction or object is left behind. *)
Theorem apply_atomic `{JsonLibrary} `{Engine} {A} b catalog m d expected (preflight : M A) validateResult s :
  atomicity b = WholeMigration -> idle s ->
  in_tx preflight (fun _ _ _ => True) -> (forall a, in_tx (validateResult a) (fun _ _ _ => True)) ->
  wp (apply b catalog m d expected preflight validateResult) (all_or_nothing b catalog m d expected s) s.
Proof. apply apply_whole. Qed.
