(* ===== verification/Journal.v ===== *)
(** Journal: the protocol of backends that commit every statement, as an abstract
    machine over what the tables record, and the refinement of it by the operations
    of State. *)
From S2P Require Import Prelude Foundation Chrono Values Codec Schema Sha256 Models PhysicalSql Snapshot Diff SqlValidation Literals SchemaJson Generation Renames Catalog History Session State Protocol.
Local Open Scope string_scope.

(** ** The abstract machine

    What the tables record: the history, the marker of an interrupted script and the
    application's objects. *)
Record Recorded (Objects : Type) := MkRecorded {
  rec_history : list AppliedMigration;
  rec_marker : option IncompleteMigration;
  rec_objects : Objects
}.
Arguments MkRecorded {Objects}.
Arguments rec_history {Objects}.
Arguments rec_marker {Objects}.
Arguments rec_objects {Objects}.

Section machine.
Context `{JsonLibrary} `{Engine} (b : BackendType) (catalog : list Migration).
Abbreviation tables := (Tables Objects).
Abbreviation recorded := (Recorded Objects).

(** A migration is applied to [a] by recording its marker, running its script -- which
    may stop after any statement -- and then changing the history and clearing the
    marker at once. *)
Inductive apply_step (m : Migration) (d : Direction) (a : recorded) : recorded -> recorded -> Prop :=
| begins sum :
    rec_marker a = None -> migrationChecksum b m = Ok sum ->
    apply_step m d a a (MkRecorded (rec_history a) (Some (markerOf b m d sum)) (rec_objects a))
| runs h marker o o' :
    apply_step m d a (MkRecorded h (Some marker) o) (MkRecorded h (Some marker) o')
| completes h h' marker o :
    im_direction marker = d -> one_step d h h' -> valid_history b catalog h' ->
    apply_step m d a (MkRecorded h (Some marker) o) (MkRecorded h' None o).

(** An operator ends an interrupted migration, one way or the other. *)
Inductive resolve_step (resolution : Resolution) : recorded -> recorded -> Prop :=
| resolves_completed h h' marker o :
    resolution = Completed -> one_step (im_direction marker) h h' -> valid_history b catalog h' ->
    resolve_step resolution (MkRecorded h (Some marker) o) (MkRecorded h' None o)
| resolves_reverted h marker o :
    resolution = Reverted -> valid_history b catalog h ->
    resolve_step resolution (MkRecorded h (Some marker) o) (MkRecorded h None o).

(** What tables record, when they can be read. *)
Definition records (t : tables) (a : recorded) : Prop :=
  history_of t = Ok (rec_history a) /\ marker_of b t = Ok (rec_marker a) /\ objects t = rec_objects a.

(** The tables go through states in which the machine makes a step or none. *)
Inductive follows (R : recorded -> recorded -> Prop) (a : recorded) : list tables -> recorded -> Prop :=
| follows_nil : follows R a [] a
| follows_step l a1 t a2 :
    follows R a l a1 -> records t a2 -> (a2 = a1 \/ R a1 a2) -> follows R a (l ++ [t])%list a2.

(** The durable states since [s] follow the machine. *)
Definition refines (R : recorded -> recorded -> Prop) (s : Session) (a : recorded) (s' : Session) (a' : recorded) : Prop :=
  exists l, trace s' = (rev l ++ trace s)%list /\ durable s' = default (durable s) (last l) /\
    follows R a l a' /\ records (durable s') a'.

Lemma refines_refl R s a : records (durable s) a -> refines R s a s a.
Proof. exists []. repeat split; [constructor|apply H1..]. Qed.

Lemma refines_same R s a s' a' s'' :
  refines R s a s' a' -> durable s'' = durable s' -> trace s'' = trace s' -> refines R s a s'' a'.
Proof. intros (l & Ht & Hd & Hf & Hr) Hd' Ht'. exists l. rewrite Hd', Ht'. done. Qed.

Lemma refines_update R s a s' a' s'' a'' :
  refines R s a s' a' -> records (durable s'') a'' -> a'' = a' \/ R a' a'' ->
  trace s'' = durable s'' :: trace s' -> refines R s a s'' a''.
Proof.
  intros (l & Ht & Hd & Hf & Hr) Hr' HR Ht'. exists (l ++ [durable s''])%list.
  rewrite rev_app_distr, last_snoc, Ht', Ht. cbn. split; [done|]. split; [done|].
  split; [by eapply follows_step|done].
Qed.
End machine.

(** ** Blocks with a local transaction *)
Section blocks.
Context `{JsonLibrary} `{Engine} (b : BackendType).
Abbreviation tables := (Tables Objects).

(** The sessions a local transaction leaves. *)
Lemma released_rollback s t :
  working s = None -> transaction_ s = None ->
  released (set_working None (set_working (Some t) (started s))) (MkTransaction false (active s)) = s.
Proof. destruct s. cbn. by intros -> ->. Qed.

Lemma released_lost s :
  working s = None -> transaction_ s = None ->
  released (drop_connection (started s)) (MkTransaction false (active s)) = drop_connection s.
Proof. destruct s. cbn. by intros -> ->. Qed.

Lemma released_commit s t :
  working s = None -> transaction_ s = None ->
  released (finish_transaction (committed_state (set_working (Some t) (started s)))) (MkTransaction true (active s))
  = set_durable t s.
Proof. destruct s. cbn. by intros -> ->. Qed.

Lemma released_uncertain s t :
  working s = None -> transaction_ s = None ->
  released (finish_transaction (disconnected (set_working (Some t) (started s)))) (MkTransaction true (active s))
  = drop_connection s /\
  released (finish_transaction (disconnected (committed_state (set_working (Some t) (started s))))) (MkTransaction true (active s))
  = drop_connection (set_durable t s).
Proof. destruct s. cbn. by intros -> ->. Qed.

Lemma in_transaction_wp {A} (body : M A) (W : tables -> A -> tables -> Prop) version (Q : result failure A -> Session -> Prop) s :
  working s = None -> transaction_ s = None -> in_tx body W -> may_fail Q s ->
  (forall a t, W (durable s) a t -> Q (Ok a) (set_durable t s) /\ Q (Err (uncertain b version)) (drop_connection (set_durable t s))) ->
  wp (in_transaction b body version) Q s.
Proof.
  intros Hw Ht Hbody Herr Hok. unfold in_transaction. wp_step. wp_step.
  apply Transaction_wp; [done| |].
  { intros f. destruct (Herr f). split; by apply Transaction_end_none. }
  wp_step. apply (Hbody (started s) (durable s)); [done| |].
  - intros f. destruct (Herr f) as [Hnow Hlost].
    split; [|intros t']; apply (Transaction_end_wp _ _ (MkTransaction false (active s))); try done; intros _.
    + change (set_working None (drop_connection (started s))) with (drop_connection (started s)).
      change (drop_connection (drop_connection (started s))) with (drop_connection (started s)).
      rewrite released_lost by done. done.
    + change (drop_connection (set_working (Some t') (started s))) with (drop_connection (started s)).
      rewrite released_rollback, released_lost by done. done.
  - intros a t' HW. destruct (Hok a t' HW) as [Hdone Hunc]. destruct (released_uncertain s t' Hw Ht) as [H1 H2]. wp_step.
    apply Transaction_commit_wp; [wp_step|..]; apply (Transaction_end_wp _ _ (MkTransaction true (active s))); try done; intros _.
    + by rewrite released_commit.
    + rewrite H1. apply Herr.
    + by rewrite H2.
Qed.

(** Reading the status changes nothing; it may make the same state durable again. *)
Lemma status_wp catalog (Q : result failure Status -> Session -> Prop) s :
  working s = None -> transaction_ s = None -> may_fail Q s -> may_fail Q (set_durable (durable s) s) ->
  (forall h m st, history_of (durable s) = Ok h -> marker_of b (durable s) = Ok m -> evaluate b catalog h m = Ok st ->
     Q (Ok st) (set_durable (durable s) s)) ->
  wp (status b catalog) Q s.
Proof.
  intros Hw Ht Herr Herr' Hok. unfold status. wp_step.
  apply (in_transaction_wp _ _ _ _ s Hw Ht (reads_in_tx _ _ (inspect_reads b catalog))).
  - intros f. split; wp_step; apply Herr.
  - intros st t [(h & m & Hh & Hm & Hst) ->]. split; [by eapply Hok|]. wp_step. apply Herr'.
Qed.
End blocks.

(** ** Operations under the lock

    [R] is the machine that an operation has to follow from the session [s0] and the
    records [a0] it starts from, [good] what it promises when it returns. *)
Section under_lock.
Context `{JsonLibrary} `{Engine} (b : BackendType).
Context (nontransactional : atomicity b = NonTransactional).
Abbreviation tables := (Tables Objects).
Context (R : Recorded Objects -> Recorded Objects -> Prop).
Context (s0 : Session) (a0 : Recorded Objects).
Context (idle_s0 : idle s0) (inactive_s0 : active s0 = false) (records_s0 : records b (durable s0) a0).

Abbreviation reached := (refines b R s0 a0).

Definition journalled_post {A} (good : A -> Recorded Objects -> Prop) (r : result failure A) (s' : Session) : Prop :=
  left_idle s0 s' /\ exists a', reached s' a' /\ forall x, r = Ok x -> good x a'.

(** What no operation on the history touches. *)
Definition kept (s : Session) : Prop := foreignKeys s = foreignKeys s0 /\ rebuild_ s = rebuild_ s0.

(** The lock is held and no transaction is open. *)
Definition held (s : Session) (a : Recorded Objects) : Prop :=
  lock_ s = Some false /\ transaction_ s = None /\ working s = None /\ reached s a /\ kept s.

Lemma has_journal_true : has_journal b = true.
Proof. unfold has_journal. by rewrite bool_decide_true. Qed.

Lemma post_fails {A} (good : A -> Recorded Objects -> Prop) f s a :
  left_idle s0 s -> reached s a -> journalled_post good (Err f) s.
Proof. intros Hl Ha. split; [done|]. exists a. split; [done|by intros ?]. Qed.

Lemma lock_end {A} (good : A -> Recorded Objects -> Prop) r s a finished :
  lock_ s = Some finished -> (finished = true -> locked s = false) -> transaction_ s = None -> working s = None ->
  reached s a -> kept s -> (forall x, r = Ok x -> good x a) ->
  wp (MigrationLock_end b) (fun _ => journalled_post good r) s.
Proof.
  intros Hl Hfin Ht Hw Ha [Hfk Hrb] Hr. apply (MigrationLock_end_wp b _ s finished nontransactional Hl Hfin); split.
  - split; [by repeat split|by rewrite inactive_s0].
  - exists a. split; [by eapply refines_same|done].
  - split; [by repeat split|by rewrite inactive_s0].
  - exists a. split; [by eapply refines_same|done].
Qed.

Lemma held_drop s a : held s a -> held (drop_connection s) a.
Proof. intros (Hl & Ht & Hw & Ha & Hk). do 3 (split; [done|]). by split. Qed.

(** A failure with the lock held. *)
Lemma held_fails {A} (good : A -> Recorded Objects -> Prop) s a :
  held s a -> may_fail (fun r s' => wp (HistoryWrite_end b) (fun _ => journalled_post good r) s') s.
Proof.
  assert (forall s f, held s a -> wp (HistoryWrite_end b) (fun _ => journalled_post good (Err f)) s) as Hend.
  { intros x f (Hl & Ht & Hw & Ha & Hk). unfold HistoryWrite_end. wp_step. apply Transaction_end_none; [done|].
    by apply (lock_end good _ x a false). }
  intros Hs f. split; apply Hend; [done|by apply held_drop].
Qed.

(** A failure in the history transaction. *)
Lemma held_tx_fails {A} (good : A -> Recorded Objects -> Prop) s a :
  held s a -> tx_fails (fun r s' => wp (HistoryWrite_end b) (fun _ => journalled_post good r) s') (started s).
Proof.
  intros (Hl & Ht & Hw & Ha & Hk) f.
  assert (forall x, lock_ x = Some false -> transaction_ x = Some (MkTransaction false (active s)) -> reached x a -> kept x ->
    wp (HistoryWrite_end b) (fun _ => journalled_post good (Err f)) x) as Hend.
  { intros x Hlx Htx Hax Hkx. unfold HistoryWrite_end. wp_step. apply (Transaction_end_wp _ _ _ Htx); [done|]. intros _.
    split; apply (lock_end good _ _ a false); try done; by eapply refines_same. }
  split; [|intros t']; apply Hend; try done; by eapply refines_same.
Qed.

(** After the commit of the history transaction. *)
Lemma held_end {A} (good : A -> Recorded Objects -> Prop) r x a finished was_active :
  lock_ x = Some finished -> (finished = true -> locked x = false) ->
  transaction_ x = Some (MkTransaction true was_active) -> working x = None ->
  reached x a -> kept x -> (forall c, r = Ok c -> good c a) ->
  wp (HistoryWrite_end b) (fun _ => journalled_post good r) x.
Proof.
  intros Hl Hfin Ht Hw Ha Hk Hr. unfold HistoryWrite_end. wp_step.
  apply (Transaction_end_wp _ _ _ Ht); [|done]. intros _.
  by apply (lock_end good r _ a finished).
Qed.

Lemma held_update s a a' t : held s a -> records b t a' -> a' = a \/ R a a' -> held (set_durable t s) a'.
Proof. intros (Hl & Ht & Hw & Ha & Hk) Hr Hstep. do 3 (split; [done|]). split; [by eapply refines_update|done]. Qed.

Lemma held_records s a : held s a -> records b (durable s) a.
Proof. intros (_ & _ & _ & (l & _ & _ & _ & Hr) & _). done. Qed.

Lemma held_current s a : held s a -> current s = durable s.
Proof. intros (_ & _ & Hw & _). unfold current. by rewrite Hw. Qed.

(** The start of a [HistoryWrite]. *)
Lemma HistoryWrite_held {A} (good : A -> Recorded Objects -> Prop) (body : M A) s1 a :
  left_idle s0 s1 -> reached s1 a ->
  (forall s, held s a -> wp body (fun r s' => wp (HistoryWrite_end b) (fun _ => journalled_post good r) s') s) ->
  wp (scope (HistoryWrite b ;; body) (HistoryWrite_end b)) (journalled_post good) s1.
Proof.
  intros [(Hw & Hlk & Ht & Hl) [Hact Hk]] Ha Hbody. wp_step. unfold HistoryWrite. rewrite nontransactional.
  unfold MigrationLock, beginMigration, setActive. rewrite nontransactional. do 2 wp_step. apply wp_call.
  { assert (forall f x, reached x a -> left_idle s0 x ->
      wp (HistoryWrite_end b) (fun _ => journalled_post good (Err f)) x) as Hend.
    { intros f x ? Hx. pose proof Hx as [(? & ? & ? & ?) ?]. unfold HistoryWrite_end. wp_step. apply Transaction_end_none; [done|].
      apply MigrationLock_end_none; [done|]. by eapply post_fails. }
    intros f. split; apply Hend; try done; by eapply refines_same. }
  intros [] x _ [= <-]. do 3 wp_step. apply Hbody. do 3 (split; [done|]). split; [by eapply refines_same|apply Hk].
Qed.

(** The history transaction, from its start to the end of the scope. *)
Lemma write_held {A} (good : A -> Recorded Objects -> Prop) (body : M A) (W : tables -> A -> tables -> Prop) version s a :
  in_tx body W -> held s a ->
  (forall c t, W (durable s) c t -> exists a', records b t a' /\ (a' = a \/ R a a') /\ good c a') ->
  wp (write_history b body version) (fun r s' => wp (HistoryWrite_end b) (fun _ => journalled_post good r) s') s.
Proof.
  intros Hbody Hs HW. pose proof Hs as (Hl & Ht & Hw & Ha & Hk).
  pose proof (held_fails good s a Hs) as Herr. pose proof (held_tx_fails good s a Hs) as Htx.
  unfold write_history, beginHistory. do 3 wp_step. rewrite Ht. apply Transaction_wp; [done|done|]. wp_step.
  apply (Hbody (started s) (durable s)); [done|done|]. intros c t Hc. destruct (HW c t Hc) as (a' & Hrec & Hstep & Hgood).
  assert (forall x, durable x = t -> trace x = t :: trace s -> reached x a') as Hdone.
  { intros x Hd Htr. eapply refines_update; [exact Ha|by rewrite Hd|done|by rewrite Hd]. }
  wp_step. unfold HistoryWrite_commit. wp_step. apply Transaction_commit_wp.
  - wp_step. wp_step. cbn [finish_transaction committed_state started set_transaction set_working set_durable set_active
      working transaction_ lock_ previouslyActive]. rewrite Hl. unfold MigrationLock_finish, endMigration, setActive.
    rewrite nontransactional. wp_step.
    apply wp_call; [intros f; split; apply (held_end good (Err f) _ a' false (active s)); try done; by apply Hdone|].
    intros [] x _ [= <-]. do 4 wp_step. apply (held_end good (Ok c) _ a' true (active s)); try done; [by apply Hdone|by intros x [= <-]].
  - by apply (held_end good _ _ a false (active s)).
  - apply (held_end good _ _ a' false (active s)); try done. by apply Hdone.
Qed.
End under_lock.

(** ** Applying a migration *)
Section apply_journalled.
Context `{JsonLibrary} `{Engine} (b : BackendType) (catalog : list Migration) (m : Migration) (d : Direction).
Context (nontransactional : atomicity b = NonTransactional).
Abbreviation tables := (Tables Objects).
Context (s0 : Session) (a0 : Recorded Objects).
Context (idle_s0 : idle s0) (inactive_s0 : active s0 = false) (records_s0 : records b (durable s0) a0).

Abbreviation step := (apply_step b catalog m d a0).
Abbreviation holds := (held b step s0 a0).

(** *** The phases *)
Lemma records_same t t' (a : Recorded Objects) : records b t a -> same_records b t t' -> objects t' = objects t -> records b t' a.
Proof. intros (Hh & Hm & Ho) [Hh' Hm'] Ho'. unfold records. by rewrite Hh', Hm', Ho'. Qed.

Lemma createMigrationHistory_holds s a (Q : result failure unit -> Session -> Prop) :
  holds s a -> (forall s, holds s a -> may_fail Q s) -> (forall s, holds s a -> Q (Ok tt) s) ->
  wp (createMigrationHistory b) Q s.
Proof.
  intros Hs Hfail Hok. unfold createMigrationHistory. rewrite (has_journal_true b nontransactional).
  pose proof (Hfail s Hs) as Herr.
  read_step migrationHistoryExists_reads. intros _ _. read_step journalExists_reads. intros _ _. wp_step.
  assert (forall s t, holds s a -> same_records b (current s) t -> objects t = objects (current s) ->
    holds (update t s) a) as Hupd.
  { intros x t Hx Hsame Ho. unfold update. pose proof Hx as (_ & _ & -> & _). eapply held_update; [done| |by left].
    rewrite (held_current b step s0 a0 x a Hx) in *. eapply records_same; [by eapply held_records|done..]. }
  apply wp_call; [intros f; apply Herr|]. intros [] s1 _ [= <-].
  destruct (createHistory_records b (current s)) as [Hr1 Ho1]. specialize (Hupd s _ Hs Hr1 Ho1) as H1. clear Herr. wp_step.
  apply wp_call; [intros f; apply (Hfail _ H1)|]. intros [] s2 _ [= <-].
  destruct (createJournal_records b (current (update (createHistory (current s)) s))) as [Hr2 Ho2].
  pose proof (Hupd _ _ H1 Hr2 Ho2) as H2. pose proof (Hfail _ H2) as Herr.
  apply (requireTables_reads b "Migration history or journal was not created"); [done|]. intros [] _. by apply Hok.
Qed.

(** A script that leaves the history and the journal alone. *)
Definition polite (sql : string) : Prop :=
  forall t states e, run_script sql t = (states, e) ->
    Forall (fun u => historyTable u = historyTable t /\ journalTable u = journalTable t) states.

Lemma script_held s h marker o states :
  holds s (MkRecorded h (Some marker) o) ->
  Forall (fun u => historyTable u = historyTable (durable s) /\ journalTable u = journalTable (durable s)) states ->
  exists o', holds (foldl (fun s t => update t s) s states) (MkRecorded h (Some marker) o').
Proof.
  revert s o. induction states as [|u states IH]; intros s o Hs Hall; cbn [foldl]; [by exists o|].
  inversion Hall as [|? ? [Hh Hj] Hrest]; subst. pose proof Hs as (_ & _ & Hw & _).
  unfold update at 2. rewrite Hw.
  apply (IH (set_durable u s) (objects u)).
  - eapply held_update; [done| |right; by constructor].
    pose proof (held_records b step s0 a0 _ _ Hs) as (Hh' & Hm' & _). unfold records, history_of, marker_of in *.
    rewrite Hh, Hj. done.
  - eapply Forall_impl; [exact Hrest|]. intros x [Hx1 Hx2]. cbn. by rewrite Hh, Hj.
Qed.

Lemma executeScript_held sql s h marker o (Q : result failure unit -> Session -> Prop) :
  polite sql -> holds s (MkRecorded h (Some marker) o) ->
  (forall s o, holds s (MkRecorded h (Some marker) o) -> may_fail Q s) ->
  (forall s o, holds s (MkRecorded h (Some marker) o) -> Q (Ok tt) s) ->
  wp (executeScript b sql) Q s.
Proof.
  intros Hpolite Hs Hfail Hok. unfold executeScript, multiStatements, close, throwError.
  rewrite (has_journal_true b nontransactional).
  pose proof (Hfail s o Hs) as Herr. read_step (validateMigrationSession_reads b). intros [] _.
  read_step (requireLock_reads b). intros [] _. destruct (isEmptyScript sql); [wp_step; by apply (Hok s o)|].
  read_step reads_call_unit. intros [] _. wp_step.
  apply wp_call; [intros f; by apply Herr|]. clear Herr.
  intros [e kept] s' _. rewrite (held_current b step s0 a0 s _ Hs). destruct (run_script sql (durable s)) as [states e'] eqn:Hrun.
  intros [= <- _ <-]. destruct (script_held s h marker o states Hs (Hpolite _ _ _ Hrun)) as [o' Hs']. clear Hs.
  revert Hs'. generalize (foldl (fun s t => update t s) s states). clear Hrun. clear s. intros s Hs. pose proof (Hfail s o' Hs) as Herr.
  wp_step. wp_step. apply reads_call_unit; [|intros [] _].
  { intros f. split; do 3 wp_step; [by apply Herr|]. by apply (Herr f). }
  wp_step. destruct kept; cbn [negb]; [|do 3 wp_step; by apply Herr]. wp_step.
  read_step (requireLock_reads b). intros [] _.
  read_step (requireTables_reads b "Migration SQL removed its history or journal"). intros [] _.
  destruct e' as [f|]; cbn [raise]; wp_step; [by apply Herr|by eapply Hok].
Qed.

Lemma journalled_script_held {A} expected sql (preflight : M A) s (Q : result failure A -> Session -> Prop) :
  polite sql -> reads preflight (fun _ _ => True) -> holds s a0 ->
  (forall s a, holds s a -> may_fail Q s) ->
  (forall s o sum captured, rec_history a0 = expected -> rec_marker a0 = None ->
     holds s (MkRecorded expected (Some (markerOf b m d sum)) o) -> Q (Ok captured) s) ->
  wp (journalled_script b catalog m d sql expected preflight) Q s.
Proof.
  intros Hpolite Hpre Hs Hfail Hok. unfold journalled_script. pose proof (Hfail s a0 Hs) as Herr.
  read_step (inspect_reads b catalog). intros st (h & mk & Hh & Hm & Hst). rewrite (held_current b step s0 a0 s a0 Hs) in Hh, Hm.
  read_step (reads_lift (requireValid b st)). intros [] Hvalid.
  assert (rec_marker a0 = None) as Hnone.
  { apply requireValid_Ok_iff in Hvalid as [_ Hinc]. pose proof (held_records b step s0 a0 s a0 Hs) as (_ & Hm' & _).
    unfold evaluate in Hst. apply bind_Ok_iff in Hst as ([v found] & _ & (more & _ & [= <-])%bind_Ok_iff). cbn in Hinc. congruence. }
  read_step Hpre. intros captured _. wp_step. apply (createMigrationHistory_holds s a0); [done|intros x Hx; by apply (Hfail x a0)|].
  clear Herr Hs Hh Hm. intros x Hs. pose proof (Hfail x a0 Hs) as Herr. rewrite (has_journal_true b nontransactional).
  read_step (reads_throwIf b (negb true) UnsupportedBackend "Nontransactional migrations require a durable journal" (version_of m)).
  intros [] _. wp_step. pose proof Hs as (_ & Ht & Hw & _). pose proof (held_records b step s0 a0 x a0 Hs) as (Hh & _ & Ho).
  eapply in_transaction_wp; [done|done|apply marker_steps_tx|by apply Herr|].
  intros [] t (He & [Hht Hot] & sum & Hsum & Hmk).
  assert (expected = rec_history a0) as -> by congruence.
  assert (holds (set_durable t x) (MkRecorded (rec_history a0) (Some (markerOf b m d sum)) (rec_objects a0))) as Hmarked.
  { eapply held_update; [done| |right].
    - unfold records. cbn. split; [|split; [done|congruence]]. unfold history_of in *. by rewrite Hht.
    - by constructor. }
  split; [|apply (Hfail _ _ Hmarked)]. wp_step.
  apply (executeScript_held sql _ (rec_history a0) (markerOf b m d sum) (rec_objects a0)); [done|done| |].
  - intros y o Hy. by apply (Hfail y _ Hy).
  - intros y o Hy. wp_step. by apply (Hok y o sum).
Qed.

Abbreviation good expected := (fun (actual : list AppliedMigration) (a : Recorded Objects) =>
  rec_history a0 = expected /\ rec_marker a0 = None /\ rec_history a = actual /\ rec_marker a = None /\
  one_step d expected actual).

Lemma apply_held {A} expected (preflight : M A) validateResult :
  (forall sql, scriptOf b m d = Ok sql -> polite sql) ->
  reads preflight (fun _ _ => True) -> (forall a, reads (validateResult a) (fun _ _ => True)) ->
  wp (apply b catalog m d expected preflight validateResult) (journalled_post b step s0 a0 (good expected)) s0.
Proof.
  intros Hpolite Hpre Hval. unfold apply, rethrow. wp_step.
  apply (wp_mono _ (journalled_post b step s0 a0 (good expected))).
  2: { intros [a|f] s' Hr; [done|]. wp_step. destruct Hr as [Hl (a' & Ha & _)]. split; [done|]. exists a'. split; [done|by intros ?]. }
  wp_step. wp_step; [intros sql Hsql|intros e _; eapply post_fails; [done|by apply refines_refl]].
  rewrite nontransactional. apply (HistoryWrite_held b nontransactional step s0 a0 _ _ s0 a0); [done|by apply refines_refl|]. intros s Hs. do 2 wp_step.
  apply (journalled_script_held expected sql preflight s _ (Hpolite sql Hsql) Hpre Hs).
  { intros y a Hy. by apply (held_fails b nontransactional step s0 a0 inactive_s0 (good expected) y a). }
  intros y o sum captured He Hnone Hy.
  apply (write_held b nontransactional step s0 a0 inactive_s0 (good expected) _ (history_change b catalog m d expected) _ y
    (MkRecorded expected (Some (markerOf b m d sum)) o)); [|done|].
  - apply history_steps_tx.
    + by apply (in_tx_mono _ _ _ (reads_in_tx _ _ Hpre)).
    + intros a. apply (in_tx_mono _ _ _ (reads_in_tx _ _ (Hval a))). by intros t [] t' [_ ->].
    + split; [by eexists|done].
  - intros actual t (_ & Hone & Hvalid & Hact & Hj). destruct (Hj nontransactional) as (_ & Hobj & Hmk).
    pose proof (held_records b step s0 a0 y _ Hy) as (_ & _ & Ho). cbn [rec_objects] in Ho.
    exists (MkRecorded actual None o). split; [|split; [right; by constructor|by split_and?]].
    unfold records. cbn. split; [done|]. split; [done|congruence].
Qed.
End apply_journalled.

(** C1: On a backend that commits every statement, applying a migration refines the
    abstract machine of the journal, whatever call fails and wherever the script
    stops: every state that becomes durable on the way is reached by recording the
    marker, running the script, or changing the history by one valid record and
    clearing the marker at once; in particular the application's objects change only
    while a marker is recorded.  When the operation returns, the history is the one
    expected with one record more or less and no marker is left.  The script is
    taken to leave the history and the journal alone. *)
Theorem apply_refines `{JsonLibrary} `{Engine} {A} b catalog m d expected (preflight : M A) validateResult s a :
  atomicity b = NonTransactional -> idle s -> active s = false -> records b (durable s) a ->
  (forall sql, scriptOf b m d = Ok sql -> polite sql) ->
  reads preflight (fun _ _ => True) -> (forall x, reads (validateResult x) (fun _ _ => True)) ->
  wp (apply b catalog m d expected preflight validateResult) (fun r s' =>
    left_idle s s' /\ exists a', refines b (apply_step b catalog m d a) s a s' a' /\
      (forall actual, r = Ok actual ->
         rec_history a = expected /\ rec_marker a = None /\ rec_history a' = actual /\ rec_marker a' = None /\
         one_step d expected actual)) s.
Proof. intros. by apply apply_held. Qed.

(** *** What a crash leaves *)
Section crash.
Context `{JsonLibrary} `{Engine} (b : BackendType) (catalog : list Migration) (m : Migration) (d : Direction).

(** The states in which the application of a migration to [a] can be found. *)
Definition consistent (a a' : Recorded Objects) : Prop :=
  match rec_marker a' with
  | None => a' = a \/ one_step d (rec_history a) (rec_history a') /\ valid_history b catalog (rec_history a')
  | Some marker =>
      rec_history a' = rec_history a /\ exists sum, migrationChecksum b m = Ok sum /\ marker = markerOf b m d sum
  end.

Lemma consistent_step a a1 a2 :
  rec_marker a = None -> consistent a a1 -> apply_step b catalog m d a a1 a2 -> consistent a a2.
Proof.
  intros Ha Hc Hstep. destruct Hstep as [sum _ Hsum|h marker o o'|h h' marker o Hd Hone Hv]; unfold consistent in *; cbn in *.
  - split; [done|]. by exists sum.
  - done.
  - destruct Hc as [-> (sum & Hsum & ->)]. right. by split.
Qed.

Lemma consistent_follows a l a' :
  rec_marker a = None -> follows b (apply_step b catalog m d a) a l a' ->
  consistent a a' /\ Forall (fun t => exists a1, records b t a1 /\ consistent a a1) l.
Proof.
  intros Ha Hf. induction Hf as [|l a1 t a2 Hf IH Hr Hstep].
  - split; [|constructor]. unfold consistent. rewrite Ha. by left.
  - destruct IH as [Hc Hall]. assert (consistent a a2) as Hc2.
    { destruct Hstep as [->|Hstep]; [done|]. by eapply consistent_step. }
    split; [done|]. apply Forall_app. split; [done|]. constructor; [by exists a2|done].
Qed.
End crash.

(** C3: A migration interrupted anywhere -- by a failure or by the end of the process
    -- on a backend that commits every statement is either not begun, with every
    object as before, or complete, or recorded as incomplete under its own name,
    direction and checksum. *)
Theorem apply_crash_consistent `{JsonLibrary} `{Engine} {A} b catalog m d expected (preflight : M A) validateResult s a :
  atomicity b = NonTransactional -> idle s -> active s = false -> records b (durable s) a -> rec_marker a = None ->
  (forall sql, scriptOf b m d = Ok sql -> polite sql) ->
  reads preflight (fun _ _ => True) -> (forall x, reads (validateResult x) (fun _ _ => True)) ->
  wp (apply b catalog m d expected preflight validateResult) (fun _ s' =>
    forall l, trace s' = (l ++ trace s)%list ->
      Forall (fun t => exists a', records b t a' /\ consistent b catalog m d a a') l) s.
Proof.
  intros Hat Hs Hact Hr Hnone Hpolite Hpre Hval.
  eapply wp_mono; [by apply apply_held|]. intros r s' [_ (a' & (l & Ht & _ & Hf & _) & _)] k Hk.
  rewrite Ht in Hk. apply app_inv_tail in Hk as <-. apply Forall_rev.
  by apply (consistent_follows b catalog m d a l a').
Qed.
