(* ===== verification/Recovery.v ===== *)
(** Recovery: the operator's resolution of an interrupted migration, and the
    operations that read the state. *)
From S2P Require Import Prelude Foundation Chrono Values Codec Schema Sha256 Models PhysicalSql Snapshot Diff SqlValidation Literals SchemaJson Generation Renames Catalog History Session State Protocol Journal.
Local Open Scope string_scope.

(** ** One record more, or one less *)
Section records.
Context `{JsonLibrary} (b : BackendType) (catalog : list Migration).

(** Two histories that match one catalog and differ by one record differ by the
    last. *)
Lemma matching_last h1 r h2 :
  increasing catalog -> matching b catalog (h1 ++ h2) -> matching b catalog (h1 ++ r :: h2) -> h2 = [].
Proof.
  intros Hinc (_ & rest & recorded & Hcat & Hall) (_ & rest' & recorded' & Hcat' & Hall').
  destruct h2 as [|x h2]; [done|exfalso].
  assert (forall l h i y, catalog = (l ++ h)%list -> Forall2 (record_matches b) l i -> forall k, i !! k = Some y ->
    exists m, catalog !! k = Some m /\ am_version y = version_of m) as Hat.
  { intros l k i y Hc Hl n Hn. destruct (Forall2_lookup_r _ _ _ _ _ Hl Hn) as (m & Hm & Hv & _).
    exists m. split; [|done]. rewrite Hc. by apply lookup_app_l_Some. }
  destruct (Hat _ _ _ x Hcat Hall (length h1)) as (m & Hm & Hv); [by rewrite list_lookup_middle|].
  destruct (Hat _ _ _ x Hcat' Hall' (S (length h1))) as (m' & Hm' & Hv').
  { rewrite lookup_app_r by lia. by replace (S (length h1) - length h1) with 1 by lia. }
  apply increasing_NoDup in Hinc.
  assert (length h1 = S (length h1)); [|lia].
  apply (NoDup_lookup _ _ _ (version_of m) Hinc); [|replace (version_of m) with (version_of m') by congruence]; by apply list_lookup_fmap_Some_2.
Qed.

Lemma insertRow_split row v rows rows' :
  insertRow row v rows = Some rows' -> exists l k, rows = (l ++ k)%list /\ rows' = (l ++ row :: k)%list.
Proof.
  revert rows'. induction rows as [|r rows IH]; intros rows'; cbn [insertRow].
  - intros [= <-]. by exists [], [].
  - assert (forall o, (fun l => r :: l) <$> insertRow row v rows = Some o -> exists l k, (r :: rows) = (l ++ k)%list /\ o = (l ++ row :: k)%list) as Hin.
    { intros o (o' & (l & k & -> & ->)%IH & ->)%fmap_Some. by exists (r :: l), k. }
    destruct (row_version r) as [w|]; [|by apply Hin].
    destruct (v <? w)%Z; [intros [= <-]; by exists [], (r :: rows)|]. destruct (v =? w)%Z; [done|]. by apply Hin.
Qed.

Lemma filter_one_less {A} (f : A -> bool) l :
  S (length (List.filter f l)) = length l ->
  exists l1 x l2, l = (l1 ++ x :: l2)%list /\ List.filter f l = (l1 ++ l2)%list.
Proof.
  induction l as [|x l IH]; [done|]. cbn [List.filter length]. destruct (f x) eqn:Hx; cbn [length]; intros Hl.
  - destruct IH as (l1 & y & l2 & -> & ->); [lia|]. by exists (x :: l1), y, l2.
  - exists [], x, l. split; [done|]. cbn. apply filter_all. intros y Hy.
    assert (length (List.filter f l) = length l) as Hlen by lia. clear -Hlen Hy. revert Hlen.
    induction l as [|z l IH]; [by apply not_elem_of_nil in Hy|]. cbn [List.filter length].
    pose proof (List.filter_length_le f l). destruct (f z) eqn:Hz; cbn [length]; [|lia].
    intros [= Hlen]. apply elem_of_cons in Hy as [->|Hy]; [done|by apply IH].
Qed.

Lemma mapM_app_inv {A B} (f : A -> res B) l k y :
  mapM f (l ++ k)%list = Ok y -> exists u v, mapM f l = Ok u /\ mapM f k = Ok v /\ y = (u ++ v)%list.
Proof.
  rewrite mapM_Ok_iff. intros (u & v & Hu & Hv & ->)%Forall2_app_inv_l. exists u, v. by rewrite !mapM_Ok_iff.
Qed.
End records.

(** ** Resolution *)
Section resolution.
Context `{JsonLibrary} `{Engine} (b : BackendType) (catalog : list Migration).
Context (increasing_catalog : increasing catalog).
Abbreviation tables := (Tables Objects).

Lemma changeHistory_rows m d :
  in_tx (changeHistory b m d) (fun t _ t' => same_but_history t t' /\ exists rows rows',
    historyTable t = Some rows /\ historyTable t' = Some rows' /\
    match d with
    | Up => exists row v, insertRow row v rows = Some rows'
    | Down => rows' = List.filter (fun row => negb (has_version (version_of m) row)) rows
    end).
Proof.
  assert (forall f, in_tx (on_history f) (fun t _ t' => same_but_history t t' /\ exists rows rows',
    historyTable t = Some rows /\ historyTable t' = Some rows' /\ f rows = Some rows')) as Hon.
  { intros f s t Q Hs Herr Hok. unfold on_history. apply wp_call; [by eapply may_fail_tx|].
    intros [] s' _. cbv zeta. rewrite (current_working s t Hs). destruct (historyTable t) as [rows|] eqn:Hrows; [|done].
    cbn. destruct (f rows) as [rows'|] eqn:Hf; [|done]. intros [= <-]. unfold update. rewrite Hs. apply (Hok tt).
    split; [done|]. by exists rows, rows'. }
  destruct d; cbn [changeHistory].
  - intros s t Q Hs Herr Hok. unfold recordHistory. tx_step (reads_lift (migrationChecksum b m)) t. intros sum _.
    tx_step (Hon (insertRow (historyRow b m sum current_timestamp false) (version_of m))) t.
    intros [] t' (Hsame & rows & rows' & H1 & H2 & H3). apply Hok. split; [done|]. exists rows, rows'. split_and?; try done. by do 2 eexists.
  - apply (in_tx_mono _ _ _ (Hon _)). intros t [] t' (Hsame & rows & rows' & H1 & H2 & [= <-]). split; [done|]. by do 2 eexists.
Qed.

(** A changed history that still matches the catalog differs by its last record. *)
Lemma change_one_step d rows rows' h h' m :
  mapM decodeHistory rows = Ok h -> mapM decodeHistory rows' = Ok h' -> matching b catalog h -> matching b catalog h' ->
  match d with
  | Up => exists row v, insertRow row v rows = Some rows'
  | Down => rows' = List.filter (fun row => negb (has_version m row)) rows
  end ->
  match d with Up => length h' = S (length h) | Down => S (length h') = length h end ->
  one_step d h h'.
Proof.
  intros Hh Hh' Hm Hm' Hrows Hlen.
  assert (length h = length rows /\ length h' = length rows') as [Hl Hl'].
  { rewrite mapM_Ok_iff in Hh, Hh'. split; symmetry; by eapply Forall2_length. }
  assert (forall l x k g g', mapM decodeHistory (l ++ k)%list = Ok g -> mapM decodeHistory (l ++ x :: k)%list = Ok g' ->
    matching b catalog g -> matching b catalog g' -> exists r, g' = (g ++ [r])%list) as Hone.
  { intros l x k g g' (u & v & Hu & Hv & ->)%mapM_app_inv (u' & v' & Hu' & Hv' & ->)%mapM_app_inv Hg Hg'.
    assert (u' = u) as -> by congruence. apply mapM_Ok_iff in Hv' as Hf. inversion Hf as [|? r ? v2 Hr Hf2]; subst.
    apply mapM_Ok_iff in Hf2. assert (v2 = v) as -> by congruence.
    rewrite (matching_last b catalog u r v) by done. exists r. by rewrite app_nil_r. }
  destruct d; cbn [one_step].
  - destruct Hrows as (row & v & (l & k & -> & ->)%insertRow_split). by eapply Hone.
  - subst rows'. destruct (filter_one_less (fun row => negb (has_version m row)) rows) as (l1 & x & l2 & Hr & Hf); [lia|].
    rewrite Hf in Hh'. rewrite Hr in Hh. by eapply Hone.
Qed.

Lemma valid_history_matching h st :
  evaluate b catalog h None = Ok st -> is_Ok (requireValid b st) -> matching b catalog h /\ applied st = h /\ valid_history b catalog h.
Proof.
  intros Hst [u Hv]. pose proof (requireValid_isValid b st) as Hvalid. rewrite Hv in Hvalid. cbn in Hvalid.
  apply evaluate_Ok in Hst as Hall; [|by apply increasing_NoDup]. destruct Hall as (Ha & _ & _ & _ & _ & Hp).
  apply requireValid_Ok_iff in Hv as [Hnil _]. apply Hp in Hnil as [Hm _]. split; [done|]. split; [done|]. by exists st.
Qed.

Definition resolved_history (resolution : Resolution) (marker : IncompleteMigration) (h h' : list AppliedMigration) : Prop :=
  match resolution with Completed => one_step (im_direction marker) h h' | _ => h' = h end.

Lemma resolve_steps_tx initial marker version resolution :
  matching b catalog (applied initial) -> incomplete_ initial = Some marker ->
  resolution = Completed \/ resolution = Reverted ->
  in_tx (resolve_steps b catalog initial version resolution) (fun t _ t' => exists h',
    history_of t = Ok (applied initial) /\ history_of t' = Ok h' /\ marker_of b t' = Ok None /\ objects t' = objects t /\
    valid_history b catalog h' /\ resolved_history resolution marker (applied initial) h').
Proof.
  intros Hmatch Hmarker Hres s t Q Hs Herr Hok. unfold resolve_steps. rewrite Hmarker. cbn [directionOf].
  tx_step (requireHistory_reads b (applied initial) version) t. intros [] Hh.
  tx_step (readIncomplete_reads b) t. intros mk Hmk.
  tx_step (reads_throwIf b (negb (bool_decide (mk = Some marker))) HistoryChanged
    "Migration state changed; inspect and retry" version) t. intros [] _.
  assert (in_tx (if bool_decide (resolution = Completed)
      then m ← lift (or_throw (find_by version_of version catalog) OutOfRange); changeHistory b m (im_direction marker)
      else mret tt) (fun t _ t' => same_but_history t t' /\ (forall h h', history_of t = Ok h -> history_of t' = Ok h' ->
        matching b catalog h -> matching b catalog h' ->
        match resolution, im_direction marker with
        | Completed, Up => length h' = S (length h)
        | Completed, Down => S (length h') = length h
        | _, _ => length h' = length h
        end -> resolved_history resolution marker h h'))) as Hchange.
  { case_bool_decide as Hc.
    - subst resolution. intros s' t' Q' Hs' Herr' Hok'.
      tx_step (reads_lift (or_throw (find_by version_of version catalog) OutOfRange)) t'. intros m _.
      tx_step (changeHistory_rows m (im_direction marker)) t'. intros [] t2 (Hsame & rows & rows' & H1 & H2 & H3).
      apply Hok'. split; [done|]. unfold history_of. rewrite H1, H2. intros h h' Hd Hd' Hm1 Hm2 Hlen.
      by eapply change_one_step.
    - destruct Hres as [->| ->]; [done|]. apply (in_tx_mono _ _ _ (reads_in_tx _ _ (reads_ret tt))).
      intros t1 [] t2 [_ ->]. split; [done|]. intros h h' Hd Hd' _ _ _. cbn. congruence. }
  tx_step Hchange t. intros [] t1 [[Hj1 Ho1] Hone].
  tx_step readHistory_reads t1. intros h' Hh'.
  tx_step (reads_lift (evaluate b catalog h' None)) t1. intros st Hst.
  tx_step (reads_lift (requireValid b st)) t1. intros [] Hvalid.
  destruct (valid_history_matching h' st Hst (ex_intro _ tt Hvalid)) as (Hm' & Happ & Hv). rewrite Happ.
  tx_step (reads_throwIf b (negb (match resolution, im_direction marker with
      | Completed, Up => length h' =? S (length (applied initial))
      | Completed, Down => S (length h') =? length (applied initial)
      | _, _ => length h' =? length (applied initial)
      end)%nat) InvalidHistory "Resolution history was not recorded" version) t1.
  intros [] Hlen%negb_false_iff.
  tx_step (clearMarker_tx b version) t1. intros [] t2 [[Hh2 Ho2] Hm2]. apply Hok. exists h'.
  split; [done|]. split; [unfold history_of in *; by rewrite Hh2|]. split; [done|]. split; [congruence|]. split; [done|].
  apply Hone; try done. destruct resolution, (im_direction marker); by apply Nat.eqb_eq.
Qed.
End resolution.

Section resolve.
Context `{JsonLibrary} `{Engine} (b : BackendType) (catalog : list Migration).
Context (nontransactional : atomicity b = NonTransactional) (increasing_catalog : increasing catalog).
Context (s0 : Session) (a0 : Recorded Objects).
Context (idle_s0 : idle s0) (inactive_s0 : active s0 = false) (records_s0 : records b (durable s0) a0).
Context (version : Z) (expectedChecksum : string) (resolution : Resolution).

Abbreviation step := (resolve_step b catalog resolution).

(** What [resolve] promises when it returns. *)
Definition resolves (a0 a' : Recorded Objects) : Prop :=
  exists marker, rec_marker a0 = Some marker /\ im_version marker = version /\ im_checksum marker = expectedChecksum /\
    (resolution = Completed \/ resolution = Reverted) /\
    rec_marker a' = None /\ rec_objects a' = rec_objects a0 /\
    resolved_history resolution marker (rec_history a0) (rec_history a').

Abbreviation post := (journalled_post b step s0 a0 (fun (_ : unit) => resolves a0)).

Lemma resolve_held : wp (resolve b catalog version expectedChecksum resolution) post s0.
Proof.
  unfold resolve. wp_step. pose proof idle_s0 as (Hw & Hlk & Ht & Hl).
  set (s1 := set_durable (durable s0) s0).
  assert (forall f x, x = s0 \/ x = drop_connection s0 \/ x = s1 \/ x = drop_connection s1 -> post (Err f) x) as Herr.
  { intros f x Hx. apply (post_fails _ _ _ _ _ _ _ a0).
    - destruct Hx as [->|[->|[->| ->]]]; done.
    - assert (refines b step s0 a0 s0 a0) as H0s by (by apply refines_refl).
      assert (refines b step s0 a0 s1 a0) as H1s by (eapply refines_update; [done|done|by left|done]).
      destruct Hx as [->|[->|[->| ->]]]; try done; by eapply refines_same. }
  apply status_wp; [done|done|intros f; split; apply Herr; auto|intros f; split; apply Herr; auto|].
  intros h mk st Hh Hmk Hst. pose proof records_s0 as (Hh0 & Hm0 & Ho0).
  assert (h = rec_history a0) as -> by congruence. assert (mk = rec_marker a0) as -> by congruence.
  apply evaluate_Ok in Hst as (Happ & Hinc & _ & _ & _ & Hprob); [|by apply increasing_NoDup].
  fold s1. destruct (problems st) as [|p ps].
  2: { wp_step. unfold throwError. wp_step. apply Herr. auto. }
  destruct (proj1 Hprob eq_refl) as [Hmatch _]. do 2 wp_step. rewrite Hinc. wp_step.
  unfold throwIf, throwError. destruct (_ || _) eqn:Hguard; wp_step; [apply Herr; auto|]. bool_to_prop.
  destruct (rec_marker a0) as [marker|] eqn:Hmarker; [|done]. cbn [matches_marker] in *. bool_to_prop.
  assert (resolution = Completed \/ resolution = Reverted) as Hres.
  { destruct (decide (resolution = Completed)) as [|Hn]; [by left|]. right.
    rewrite bool_decide_false in * by done. cbn [orb] in *. by bool_to_prop. }
  wp_step. apply (wp_mono _ post).
  2: { intros [[]|f] s' Hr; [done|]. wp_step. destruct Hr as [Hl' (a' & Ha & _)]. split; [done|]. exists a'. split; [done|by intros ?]. }
  apply (HistoryWrite_held b nontransactional step s0 a0 _ _ s1 a0); [done| |].
  { eapply refines_update; [by apply refines_refl|done|by left|done]. }
  intros s Hs.
  eapply (write_held b nontransactional step s0 a0 inactive_s0 _ _ _ _ s a0); [|done|].
  - apply (resolve_steps_tx b catalog increasing_catalog st marker version resolution); [by rewrite Happ|done|done].
  - intros [] t (h' & Hh' & Hht & Hmt & Hot & Hv & Hr). rewrite Happ in *.
    exists (MkRecorded h' None (rec_objects a0)).
    pose proof (held_records b step s0 a0 s _ Hs) as (_ & _ & Ho). split.
    { unfold records. cbn. split; [done|]. split; [done|congruence]. }
    split.
    + right. destruct a0 as [h0 m0 o0]. cbn in *. subst m0.
      destruct Hres as [->| ->]; cbn in Hr; [by apply resolves_completed|subst h'; by apply resolves_reverted].
    + exists marker. by split_and?.
Qed.
End resolve.

(** C4: Resolving an interrupted migration takes at most one step of the abstract
    machine, whatever call fails: the marker is cleared in the transaction that adds
    or takes away its record (completed) or leaves the history alone (reverted), and
    the objects are not touched.  When it returns, the marker was the one named, by
    version and checksum, and it is gone. *)
Theorem resolve_refines `{JsonLibrary} `{Engine} b catalog version expectedChecksum resolution s a :
  atomicity b = NonTransactional -> increasing catalog -> idle s -> active s = false -> records b (durable s) a ->
  wp (resolve b catalog version expectedChecksum resolution) (fun r s' =>
    left_idle s s' /\ exists a', refines b (resolve_step b catalog resolution) s a s' a' /\
      forall u : unit, r = Ok u -> resolves version expectedChecksum resolution a a') s.
Proof. intros. by apply resolve_held. Qed.
