(* ===== verification/Liveness.v ===== *)
(** Liveness: when no call fails, applying the next migration succeeds.  [wp] with a
    postcondition that holds of no exception is total correctness. *)
From S2P Require Import Prelude Foundation Chrono Values Codec Schema Sha256 Models PhysicalSql Snapshot Diff SqlValidation Literals SchemaJson Generation Renames Catalog History Session State Protocol Journal Recovery.
Local Open Scope string_scope.

(** The operation returns a value in [P]. *)
Definition returns `{Engine} {A} (P : A -> Session -> Prop) (r : result failure A) (s : Session) : Prop :=
  match r with Ok a => P a s | Err _ => False end.

(** ** Histories that grow and shrink *)
Section growth.
Context `{JsonLibrary} (b : BackendType) (catalog : list Migration).

(** The migration that a direction applies to a history. *)
Definition is_next (d : Direction) (h : list AppliedMigration) (m : Migration) : Prop :=
  match d with
  | Up => catalog !! length h = Some m
  | Down => h <> [] /\ catalog !! (length h - 1)%nat = Some m
  end.

Lemma matching_grows h m r :
  matching b catalog h -> catalog !! length h = Some m -> record_matches b m r -> baseline r = false ->
  matching b catalog (h ++ [r]).
Proof.
  intros (Hs & rest & recorded & Hcat & Hall) Hm Hr Hb. pose proof (Forall2_length _ _ _ Hall) as Hl.
  assert (exists rest', rest = m :: rest') as [rest' ->].
  { rewrite Hcat, lookup_app_r, <- Hl, Nat.sub_diag in Hm by lia. destruct rest as [|x rest]; [done|].
    injection Hm as ->. by exists rest. }
  split.
  - apply StronglySorted_app. split; [|split; [done|repeat constructor]].
    intros x y Hx ->%list_elem_of_singleton. by rewrite Hb.
  - exists rest', (recorded ++ [m])%list. rewrite <- app_assoc. split; [done|]. apply Forall2_app; [done|by constructor].
Qed.

Lemma matching_shrinks h r : matching b catalog (h ++ [r]) -> matching b catalog h.
Proof.
  intros (Hs & rest & recorded & Hcat & Hall). split; [by apply StronglySorted_app in Hs as (_ & ? & _)|].
  apply Forall2_app_inv_r in Hall as (l & k & Hl & Hk & ->). exists (k ++ rest)%list, l.
  rewrite app_assoc. by split.
Qed.

Lemma matching_valid h :
  increasing catalog -> Forall (fun m => is_Ok (migrationChecksum b m)) catalog -> matching b catalog h ->
  exists st, evaluate b catalog h None = Ok st /\ requireValid b st = Ok tt /\ applied st = h /\
    problems st = [] /\ incomplete_ st = None.
Proof.
  intros Hinc Hsums Hm. destruct (evaluate_total b catalog h None Hsums) as [st Hst]. exists st.
  pose proof (evaluate_Ok b catalog h None st (increasing_NoDup _ Hinc) Hst) as (Ha & Hi & _ & _ & _ & Hp).
  assert (problems st = []) as Hnil by (apply Hp; by split). rewrite requireValid_Ok_iff. done.
Qed.

(** The rows of a history that grows. *)
Lemma insertRow_last row v rows :
  Forall (fun r => exists w, row_version r = Some w /\ (w < v)%Z) rows -> insertRow row v rows = Some (rows ++ [row])%list.
Proof.
  intros Hall. induction Hall as [|r rows (w & Hw & Hlt) _ IH]; [done|]. cbn [insertRow app]. rewrite Hw, IH.
  assert ((v <? w)%Z = false) as -> by (apply Z.ltb_ge; lia). assert ((v =? w)%Z = false) as -> by (apply Z.eqb_neq; lia).
  done.
Qed.

Lemma decodeHistory_version row r : decodeHistory row = Ok r -> row_version row = Some (am_version r).
Proof.
  unfold decodeHistory. intros (f & _ & (n & _ & Hrest)%bind_Ok_iff)%bind_Ok_iff.
  destruct (historyBackend n); [|done]. apply seq_Ok_iff in Hrest as [_ Hrest].
  apply bind_Ok_iff in Hrest as (t & _ & (v & Hv%or_throw_Ok_iff & (x & _ & (y & _ & [= <-])%bind_Ok_iff)%bind_Ok_iff)%bind_Ok_iff).
  done.
Qed.

Lemma decodeHistory_row m sum stamp isBaseline :
  historyBackend (backend_number b) = Some b ->
  decodeHistory (historyRow b m sum stamp isBaseline) = Ok (MkApplied (version_of m) (migration_name m) b sum stamp isBaseline).
Proof. intros Hb. unfold decodeHistory, historyRow. cbn. rewrite Hb. by destruct isBaseline. Qed.

Lemma rows_below h m rows :
  increasing catalog -> matching b catalog h -> catalog !! length h = Some m -> mapM decodeHistory rows = Ok h ->
  Forall (fun r => exists w, row_version r = Some w /\ (w < version_of m)%Z) rows.
Proof.
  intros Hinc (_ & rest & recorded & Hcat & Hall) Hm Hrows%mapM_Ok_iff. pose proof (Forall2_length _ _ _ Hall) as Hl.
  assert (m ∈ rest) as Hin.
  { rewrite Hcat, lookup_app_r in Hm by lia. by apply list_elem_of_lookup_2 in Hm. }
  rewrite Hcat in Hinc. apply increasing_app in Hinc as (_ & _ & Hlt).
  apply Forall_forall. intros row [i Hi]%list_elem_of_lookup_1.
  destruct (Forall2_lookup_l _ _ _ _ _ Hrows Hi) as (r & Hr & Hd). exists (am_version r).
  split; [by apply decodeHistory_version|].
  destruct (Forall2_lookup_r _ _ _ _ _ Hall Hr) as (x & Hx & Hv & _). rewrite Hv. apply Hlt; [|done].
  by apply list_elem_of_lookup_2 in Hx.
Qed.

(** The rows of a history that shrinks. *)
Lemma filter_last h r rows m :
  increasing catalog -> matching b catalog (h ++ [r]) -> catalog !! length h = Some m ->
  mapM decodeHistory rows = Ok (h ++ [r])%list ->
  mapM decodeHistory (List.filter (fun row => negb (has_version (version_of m) row)) rows) = Ok h.
Proof.
  intros Hinc Hm Hnext Hrows. pose proof (matching_shrinks h r Hm) as Hmh.
  apply mapM_Ok_iff, Forall2_app_inv_r in Hrows as (l & k & Hl & Hk & ->).
  inversion Hk as [|row ? k' ? Hrow Hk']; subst. inversion Hk'; subst.
  assert (am_version r = version_of m) as Hv.
  { destruct Hm as (_ & rest & recorded & Hcat & Hall).
    destruct (Forall2_lookup_r _ _ _ (length h) r Hall) as (x & Hx & Hv & _); [by rewrite list_lookup_middle|].
    rewrite Hcat, lookup_app_l in Hnext by (by apply lookup_lt_Some in Hx). congruence. }
  rewrite List.filter_app. cbn [List.filter]. unfold has_version at 2.
  rewrite (decodeHistory_version _ _ Hrow), Hv, bool_decide_true by done. cbn [negb]. rewrite app_nil_r.
  rewrite filter_all; [by apply mapM_Ok_iff|]. intros x Hx.
  apply mapM_Ok_iff in Hl. pose proof (rows_below h m l Hinc Hmh Hnext Hl) as Hbelow.
  rewrite Forall_forall in Hbelow. destruct (Hbelow x Hx) as (w & Hw & Hlt). unfold has_version. rewrite Hw.
  rewrite bool_decide_false; [done|]. intros [= ->]. lia.
Qed.

(** The journal. *)
Lemma decodeJournal_None rows : decodeJournal rows = Ok None -> rows = [].
Proof.
  destruct rows as [|row rest]; [done|]. cbn [decodeJournal]. intros (mk & _ & Hr)%bind_Ok_iff. destruct rest; [done|].
  by apply bind_Ok_iff in Hr as (? & _ & (? & _ & ?)%bind_Ok_iff).
Qed.

Lemma decodeJournal_row m d sum :
  journalBackend (backend_number b) = Some b ->
  decodeJournal [journalRow b m d sum] = Ok (Some (markerOf b m d sum)).
Proof. intros Hb. unfold decodeJournal, decodeMarker, journalRow. cbn. rewrite Hb. by destruct d. Qed.
End growth.

(** ** Operations without failures *)
Section fine.
Context `{JsonLibrary} `{Engine} (b : BackendType) (catalog : list Migration).
Context (fine : forall n, fault n = Fine).
Abbreviation tables := (Tables Objects).

Lemma fine_lift {A} (r : res A) a (Q : result failure A -> Session -> Prop) s : r = Ok a -> Q (Ok a) s -> wp (lift r) Q s.
Proof. intros -> HQ. apply wp_lift; [by intros ? [= <-]|done]. Qed.

Lemma fine_throwIf c code message version (Q : result failure unit -> Session -> Prop) s :
  c = false -> Q (Ok tt) s -> wp (throwIf b c code message version) Q s.
Proof. intros -> HQ. by apply wp_ret. Qed.

Lemma fine_read {A} (f : tables -> A) (Q : result failure A -> Session -> Prop) s :
  connected s = true -> Q (Ok (f (current s))) s -> wp (call (fun s => Ok (f (current s), s))) Q s.
Proof. intros Hc HQ. by eapply wp_call_fine. Qed.

Lemma fine_readHistory h (Q : result failure (list AppliedMigration) -> Session -> Prop) s :
  connected s = true -> history_of (current s) = Ok h -> Q (Ok h) s -> wp readHistory Q s.
Proof.
  intros Hc Hh HQ. unfold readHistory, migrationHistoryExists, history_of in *. wp_step.
  apply (fine_read (fun t => is_some (historyTable t))); [done|]. destruct (historyTable (current s)) as [rows|] eqn:Hr; cbn [is_some negb].
  - wp_step. apply (fine_read (fun t => default [] (historyTable t))); [done|]. rewrite Hr. by eapply fine_lift.
  - wp_step. by injection Hh as <-.
Qed.

Lemma fine_readIncomplete mk (Q : result failure (option IncompleteMigration) -> Session -> Prop) s :
  connected s = true -> marker_of b (current s) = Ok mk -> Q (Ok mk) s -> wp (readIncomplete b) Q s.
Proof.
  intros Hc Hh HQ. unfold readIncomplete, journalExists, marker_of in *. destruct (has_journal b); cbn [negb].
  - wp_step. apply (fine_read (fun t => is_some (journalTable t))); [done|].
    destruct (journalTable (current s)) as [rows|] eqn:Hr; cbn [is_some negb].
    + wp_step. apply (fine_read (fun t => default [] (journalTable t))); [done|]. rewrite Hr. by eapply fine_lift.
    + wp_step. by injection Hh as <-.
  - wp_step. by injection Hh as <-.
Qed.

Lemma fine_requireHistory h version (Q : result failure unit -> Session -> Prop) s :
  connected s = true -> history_of (current s) = Ok h -> Q (Ok tt) s -> wp (requireHistory b h version) Q s.
Proof.
  intros Hc Hh HQ. unfold requireHistory. wp_step. eapply fine_readHistory; [done..|].
  apply fine_throwIf; [by rewrite bool_decide_true|done].
Qed.

Lemma fine_requireMarker mk message (Q : result failure unit -> Session -> Prop) s :
  connected s = true -> marker_of b (current s) = Ok (Some mk) -> Q (Ok tt) s -> wp (requireMarker b mk message) Q s.
Proof.
  intros Hc Hh HQ. unfold requireMarker. wp_step. eapply fine_readIncomplete; [done..|].
  apply fine_throwIf; [by rewrite bool_decide_true|done].
Qed.

Lemma fine_inspect h mk st (Q : result failure Status -> Session -> Prop) s :
  connected s = true -> history_of (current s) = Ok h -> marker_of b (current s) = Ok mk -> evaluate b catalog h mk = Ok st ->
  Q (Ok st) s -> wp (inspect b catalog) Q s.
Proof.
  intros Hc Hh Hm Hst HQ. unfold inspect. wp_step. eapply fine_readHistory; [done..|]. wp_step.
  eapply fine_readIncomplete; [done..|]. by eapply fine_lift.
Qed.

(** Writes inside a transaction, and statements committed at once. *)
Lemma fine_on_history f rows rows' (Q : result failure unit -> Session -> Prop) s t :
  connected s = true -> working s = Some t -> historyTable t = Some rows -> f rows = Some rows' ->
  Q (Ok tt) (set_working (Some (MkTables (Some rows') (journalTable t) (objects t))) s) -> wp (on_history f) Q s.
Proof.
  intros Hc Hs Hr Hf HQ. unfold on_history. eapply wp_call_fine; [done|done| |exact HQ].
  cbv zeta. rewrite (current_working s t Hs), Hr. cbn. rewrite Hf. unfold update. by rewrite Hs.
Qed.

Lemma fine_on_journal f rows rows' (Q : result failure unit -> Session -> Prop) s t :
  connected s = true -> working s = Some t -> journalTable t = Some rows -> f rows = Some rows' ->
  Q (Ok tt) (set_working (Some (MkTables (historyTable t) (Some rows') (objects t))) s) -> wp (on_journal f) Q s.
Proof.
  intros Hc Hs Hr Hf HQ. unfold on_journal. eapply wp_call_fine; [done|done| |exact HQ].
  cbv zeta. rewrite (current_working s t Hs), Hr. cbn. rewrite Hf. unfold update. by rewrite Hs.
Qed.

(** The same session but for the tables. *)
Definition moved (s : Session) (t : tables) (s' : Session) : Prop :=
  current s' = t /\ connected s' = connected s /\ locked s' = locked s /\ active s' = active s /\
  transaction_ s' = transaction_ s /\ lock_ s' = lock_ s /\ foreignKeys s' = foreignKeys s /\ rebuild_ s' = rebuild_ s /\
  match working s with Some _ => s' = set_working (Some t) s | None => working s' = None end.

Lemma moved_update s t : moved s t (update t s).
Proof. unfold moved, update, current. by destruct (working s) eqn:Hw; cbn; rewrite ?Hw. Qed.

Lemma moved_trans s t s' t' s'' : moved s t s' -> moved s' t' s'' -> moved s t' s''.
Proof.
  unfold moved. intros (Ht & Hc & Hl & Ha & Htr & Hlk & Hfk & Hrb & Hw) (Ht' & Hc' & Hl' & Ha' & Htr' & Hlk' & Hfk' & Hrb' & Hw').
  destruct (working s).
  - subst s'. cbn in Hw'. subst s''. by split_and?.
  - rewrite Hw in Hw'. split_and?; congruence.
Qed.

Lemma moved_refl s : moved s (current s) s.
Proof. unfold moved, current. destruct (working s) eqn:Hw; [|done]. cbn. by rewrite set_working_same. Qed.

Lemma moved_updates states s : exists t, moved s t (foldl (fun s t => update t s) s states) /\ t = default (current s) (last states).
Proof.
  revert s. induction states as [|u states IH]; intros s; cbn [foldl].
  - exists (current s). split; [apply moved_refl|done].
  - destruct (IH (update u s)) as (t & Hm & Ht). exists t. split; [eapply moved_trans; [apply moved_update|done]|].
    rewrite last_cons. pose proof (moved_update s u) as (Hc & _). rewrite Hc in Ht. by destruct (last states).
Qed.

(** The tables of the history, with the journal where there is one. *)
Definition tables_exist (t : tables) : Prop :=
  is_Some (historyTable t) /\ (has_journal b = true -> is_Some (journalTable t)).

Lemma fine_requireTables message (Q : result failure unit -> Session -> Prop) s :
  connected s = true -> is_Some (historyTable (current s)) /\ is_Some (journalTable (current s)) -> Q (Ok tt) s ->
  wp (requireTables b message) Q s.
Proof.
  intros Hc [[rows Hr] [jrows Hj]] HQ. unfold requireTables, migrationHistoryExists, journalExists.
  wp_step. apply (fine_read (fun t => is_some (historyTable t))); [done|].
  wp_step. apply (fine_read (fun t => is_some (journalTable t))); [done|].
  apply fine_throwIf; [by rewrite Hr, Hj|done].
Qed.

Lemma fine_validateMigrationSession (Q : result failure unit -> Session -> Prop) s :
  connected s = true -> Q (Ok tt) s -> wp (validateMigrationSession b) Q s.
Proof.
  intros Hc HQ. unfold validateMigrationSession. destruct (bool_decide (b = Sqlite)); [by wp_step|].
  by eapply wp_call_fine.
Qed.

Lemma fine_createMigrationHistory (Q : result failure unit -> Session -> Prop) s :
  connected s = true ->
  (forall t s', same_records b (current s) t -> objects t = objects (current s) -> tables_exist t -> moved s t s' -> Q (Ok tt) s') ->
  wp (createMigrationHistory b) Q s.
Proof.
  intros Hc HQ. unfold createMigrationHistory.
  destruct (createHistory_records b (current s)) as [[Hh1 Hm1] Ho1].
  pose proof (moved_update s (createHistory (current s))) as Hm. unfold tables_exist in HQ. destruct (has_journal b) eqn:Hj.
  - pose proof Hm as (Hcur & Hcon & _). wp_step. apply (fine_read (fun t => is_some (historyTable t))); [done|].
    wp_step. apply (fine_read (fun t => is_some (journalTable t))); [done|].
    wp_step. eapply wp_call_fine; [done..|]. wp_step. eapply wp_call_fine; [done|by rewrite Hcon|done|]. rewrite Hcur.
    destruct (createJournal_records b (createHistory (current s))) as [[Hh2 Hm2] Ho2].
    pose proof (moved_trans _ _ _ _ _ Hm (moved_update (update (createHistory (current s)) s) (createJournal (createHistory (current s))))) as Hm'.
    pose proof Hm' as (Hcur' & Hcon' & _). apply fine_requireTables; [congruence|rewrite Hcur'; split; by eexists|].
    apply (HQ (createJournal (createHistory (current s)))); [split; congruence|congruence|split; [|intros _]; by eexists|done].
  - eapply wp_call_fine; [done..|].
    apply (HQ (createHistory (current s))); [by split|done|split; [by eexists|done]|exact Hm].
Qed.

(** A script that succeeds and keeps the settings. *)
Definition works (sql : string) : Prop :=
  forall t : tables, settings_kept sql t = true /\ exists states, run_script sql t = (states, None) /\
    Forall (fun u => historyTable u = historyTable t /\ journalTable u = journalTable t) states.

Lemma fine_multiStatements (Q : result failure unit -> Session -> Prop) s :
  connected s = true -> Q (Ok tt) s -> wp multiStatements Q s.
Proof. intros Hc HQ. by eapply wp_call_fine. Qed.

Lemma fine_requireLock (Q : result failure unit -> Session -> Prop) s :
  connected s = true -> locked s = true -> Q (Ok tt) s -> wp (requireLock b) Q s.
Proof.
  intros Hc Hl HQ. unfold requireLock. wp_step. eapply wp_call_fine; [done..|]. rewrite Hl. cbn [negb]. by wp_step.
Qed.

Lemma fine_runScript sql s (Q : result failure (option failure * bool) -> Session -> Prop) :
  connected s = true -> works sql ->
  (forall t s', historyTable t = historyTable (current s) -> journalTable t = journalTable (current s) -> moved s t s' ->
    Q (Ok (None, true)) s') ->
  wp (runScript sql) Q s.
Proof.
  intros Hc Hsql HQ. destruct (Hsql (current s)) as (Hk & states & Hrun & Hall).
  eapply wp_call_fine; [done|done|by rewrite Hrun, Hk|]. destruct (moved_updates states s) as (t & Hm & Ht).
  assert (historyTable t = historyTable (current s) /\ journalTable t = journalTable (current s)) as [Hh Hj].
  { subst t. destruct (last states) as [u|] eqn:Hlast; [|done]. apply last_Some_elem_of in Hlast.
    rewrite Forall_forall in Hall. by apply Hall. }
  by apply (HQ t).
Qed.

Lemma fine_executeScript sql (Q : result failure unit -> Session -> Prop) s :
  connected s = true -> works sql -> tables_exist (current s) -> (has_journal b = true -> locked s = true) ->
  (forall t s', historyTable t = historyTable (current s) -> journalTable t = journalTable (current s) -> moved s t s' -> Q (Ok tt) s') ->
  wp (executeScript b sql) Q s.
Proof.
  intros Hc Hsql [Hth Htj] Hl HQ. unfold executeScript. wp_step. apply fine_validateMigrationSession; [done|].
  destruct (has_journal b).
  - wp_step. apply fine_requireLock; [done|by apply Hl|].
    destruct (isEmptyScript sql); [wp_step; by apply (HQ (current s)); [..|apply moved_refl]|].
    wp_step. apply fine_multiStatements; [done|]. wp_step. apply fine_runScript; [done|done|].
    intros t s' Hh Hj Hm. specialize (HQ t s' Hh Hj Hm). destruct Hm as (Hcur & Hcon & Hlock & _).
    wp_step. wp_step. apply fine_multiStatements; [by rewrite Hcon|]. wp_step. cbn [negb]. wp_step.
    wp_step. apply fine_requireLock; [by rewrite Hcon|rewrite Hlock; by apply Hl|].
    wp_step. apply fine_requireTables; [by rewrite Hcon|rewrite Hcur, Hh, Hj; split; [done|by apply Htj]|].
    cbn [raise]. by wp_step.
  - wp_step. apply fine_runScript; [done|done|]. intros t s' Hh Hj Hm. specialize (HQ t s' Hh Hj Hm).
    cbn [raise]. do 2 wp_step. apply fine_throwIf; [by rewrite andb_false_r|done].
Qed.
End fine.

(** ** The next migration is applied *)
Section next.
Context `{JsonLibrary} `{Engine} (b : BackendType) (catalog : list Migration) (m : Migration) (d : Direction).
Context (fine : forall n, fault n = Fine).
Context (is_supported : supported b = true).
Context (increasing_catalog : increasing catalog).
Context (checksums : Forall (fun m => is_Ok (migrationChecksum b m)) catalog).
Abbreviation tables := (Tables Objects).

Lemma supported_numbers :
  historyBackend (backend_number b) = Some b /\ (atomicity b = NonTransactional -> journalBackend (backend_number b) = Some b).
Proof. clear checksums. destruct b; try discriminate is_supported; by split. Qed.

(** Checks that pass; in a transaction they may change the objects. *)
Definition passes {A} (rebuild : option RebuildObject) (p : M A) : Prop :=
  forall s (Q : result failure A -> Session -> Prop), connected s = true -> rebuild_ s = rebuild ->
    (forall a s', match working s with
                | Some t => exists o, s' = set_working (Some (MkTables (historyTable t) (journalTable t) o)) s
                | None => s' = s
                end -> Q (Ok a) s') -> wp p Q s.

Definition grown (h actual : list AppliedMigration) : Prop :=
  match d with
  | Up => exists r, actual = (h ++ [r])%list /\ record_matches b m r /\ baseline r = false
  | Down => exists r, h = (actual ++ [r])%list
  end.

Lemma next_in_catalog h : is_next catalog d h m -> m ∈ catalog.
Proof. destruct d; [|intros [_ Hm]; revert Hm]; apply list_elem_of_lookup_2. Qed.

Lemma next_checksum h : is_next catalog d h m -> is_Ok (migrationChecksum b m).
Proof. intros Hm%next_in_catalog. rewrite Forall_forall in checksums. by apply checksums. Qed.

Lemma fine_changeHistory h rows s t (Q : result failure unit -> Session -> Prop) :
  connected s = true -> working s = Some t -> historyTable t = Some rows -> mapM decodeHistory rows = Ok h ->
  matching b catalog h -> is_next catalog d h m ->
  (forall rows' actual, mapM decodeHistory rows' = Ok actual -> matching b catalog actual -> grown h actual ->
     Q (Ok tt) (set_working (Some (MkTables (Some rows') (journalTable t) (objects t))) s)) ->
  wp (changeHistory b m d) Q s.
Proof.
  intros Hc Hs Hrows Hh Hmatch Hnext HQ. destruct (next_checksum h Hnext) as [sum Hsum].
  destruct supported_numbers as [Hb _]. unfold changeHistory, grown, is_next in *. destruct d.
  - unfold recordHistory. wp_step. apply (fine_lift _ sum); [done|].
    set (r := MkApplied (version_of m) (migration_name m) b sum current_timestamp false).
    eapply (fine_on_history fine _ rows (rows ++ [historyRow b m sum current_timestamp false])%list); [done|done|done| |].
    { apply insertRow_last. by apply (rows_below b catalog h m). }
    assert (record_matches b m r) as Hr by done.
    apply (HQ _ (h ++ [r])%list).
    + apply mapM_Ok_iff. apply Forall2_app; [by apply mapM_Ok_iff|]. constructor; [|constructor].
      by apply decodeHistory_row.
    + by apply (matching_grows b catalog h m r).
    + by exists r.
  - destruct Hnext as [Hne Hm]. destruct (exists_last Hne) as (actual & r & ->).
    rewrite length_app, Nat.add_sub in Hm. eapply (fine_on_history fine); [done|done|done|done|].
    apply (HQ _ actual).
    + by apply (filter_last b catalog actual r).
    + by apply matching_shrinks in Hmatch.
    + by exists r.
Qed.

Lemma decodeJournal_Some rows mk : decodeJournal rows = Ok (Some mk) -> List.filter (fun row => negb (has_slot row)) rows = [].
Proof.
  destruct rows as [|row rest]; [done|]. cbn [decodeJournal]. intros (mk' & Hmk & Hr)%bind_Ok_iff. destruct rest.
  2: { by apply bind_Ok_iff in Hr as (? & _ & (? & _ & ?)%bind_Ok_iff). }
  unfold decodeMarker in Hmk. apply bind_Ok_iff in Hmk as (n & _ & (dir & _ & (sl & Hsl%or_throw_Ok_iff & (Hg%throw_if_Ok_iff & _)%seq_Ok_iff)%bind_Ok_iff)%bind_Ok_iff).
  bool_to_prop. subst sl. cbn [List.filter]. unfold has_slot. by rewrite Hsl, bool_decide_true.
Qed.

Lemma fine_clearMarker mk version s t (Q : result failure unit -> Session -> Prop) :
  has_journal b = true -> connected s = true -> working s = Some t -> is_Some (journalTable t) -> marker_of b t = Ok (Some mk) ->
  (forall t', historyTable t' = historyTable t -> marker_of b t' = Ok None -> Q (Ok tt) (set_working (Some t') s)) ->
  wp (clearMarker b version) Q s.
Proof.
  intros Hj Hc Hs [rows Hrows] Hmk HQ. unfold marker_of in Hmk. rewrite Hj, Hrows in Hmk. apply decodeJournal_Some in Hmk.
  unfold clearMarker. wp_step. eapply (fine_on_journal fine); [done|done|done|by rewrite Hmk|]. wp_step.
  assert (marker_of b (MkTables (historyTable t) (Some []) (objects t)) = Ok None) as Hnone by (unfold marker_of; by rewrite Hj).
  eapply fine_readIncomplete; [done|done|exact Hnone|]. apply fine_throwIf; [done|]. by apply HQ.
Qed.

(** The script, or its marker, ends in tables with the same history and marker. *)
Lemma fine_script_step {A} sql h s t ran (preflight : M A) :
  connected s = true -> working s = Some t -> history_of t = Ok h -> works sql -> passes (rebuild_ s) preflight ->
  (atomicity b = NonTransactional <-> is_Some ran) ->
  (atomicity b = NonTransactional -> tables_exist b t /\
     exists sum, migrationChecksum b m = Ok sum /\ marker_of b t = Ok (Some (markerOf b m d sum))) ->
  wp (script_step b m d sql ran preflight)
    (returns (fun _ s' => exists t1, s' = set_working (Some t1) s /\ history_of t1 = Ok h /\
       tables_exist b t1 /\ marker_of b t1 = marker_of b t)) s.
Proof.
  intros Hc Hs Hh Hsql Hpre Hran Hjournal. unfold script_step. destruct ran as [captured|].
  - destruct (Hjournal (proj2 Hran (ltac:(by eexists)))) as (Hex & sum & Hsum & Hmk). wp_step. apply (fine_lift _ sum); [done|].
    wp_step. apply (fine_requireMarker b fine); [done|by rewrite (current_working s t Hs)|]. wp_step. exists t. by rewrite set_working_same.
  - assert (has_journal b = false) as Hj.
    { unfold has_journal. apply bool_decide_eq_false. intros Hat. by destruct (proj1 Hran Hat). }
    wp_step. apply Hpre; [done|done|]. rewrite Hs. intros captured s1 (o & ->). wp_step.
    apply (fine_createMigrationHistory b fine); [done|].
    intros t2 s2 [Hh2 Hm2] _ Hex2 Hmv. cbn in Hmv, Hh2, Hm2.
    pose proof Hmv as (Hcur2 & Hc2 & _). wp_step.
    apply (fine_executeScript b fine); [by rewrite Hc2|done|by rewrite Hcur2|congruence|].
    intros t3 s3 Hh3 Hj3 Hmv3. rewrite Hcur2 in Hh3, Hj3. wp_step. cbn. exists t3.
    pose proof (moved_trans _ _ _ _ _ Hmv Hmv3) as Hm3.
    destruct Hm3 as (_ & _ & _ & _ & _ & _ & _ & _ & Hw3). cbn in Hw3. split; [done|].
    assert (forall t', historyTable t3 = historyTable t' -> history_of t3 = history_of t') as Hof by (unfold history_of; by intros t' ->).
    split; [rewrite (Hof _ Hh3), Hh2; done|]. split; [|unfold marker_of; by rewrite Hj].
    split; [rewrite Hh3; apply Hex2|by rewrite Hj].
Qed.

Lemma fine_history_steps {A} sql h s t ran (preflight : M A) validateResult (Q : result failure (list AppliedMigration) -> Session -> Prop) :
  connected s = true -> working s = Some t -> history_of t = Ok h -> matching b catalog h -> is_next catalog d h m ->
  works sql -> passes (rebuild_ s) preflight -> (forall a, passes (rebuild_ s) (validateResult a)) ->
  (atomicity b = NonTransactional <-> is_Some ran) ->
  (atomicity b = NonTransactional -> tables_exist b t /\
     exists sum, migrationChecksum b m = Ok sum /\ marker_of b t = Ok (Some (markerOf b m d sum))) ->
  (forall actual t', history_of t' = Ok actual -> marker_of b t' = Ok None -> matching b catalog actual -> grown h actual ->
     Q (Ok actual) (set_working (Some t') s)) ->
  wp (history_steps b catalog m d sql h ran preflight validateResult) Q s.
Proof.
  intros Hc Hs Hh Hmatch Hnext Hsql Hpre Hval Hran Hjournal HQ. unfold history_steps.
  wp_step. apply (fine_requireHistory b fine); [done|by rewrite (current_working s t Hs)|].
  wp_step. apply (wp_mono _ _ _ _ (fine_script_step sql h s t ran preflight Hc Hs Hh Hsql Hpre Hran Hjournal)).
  intros [captured|f] s' Hmid; [|done]. cbn in Hmid. destruct Hmid as (t1 & -> & Hh1 & Hex1 & Hm1).
  wp_step. apply Hval; [done|done|]. intros [] s2 (o & ->). pose proof Hex1 as [[rows Hrows] _].
  wp_step. unfold history_of in Hh1. rewrite Hrows in Hh1.
  eapply fine_changeHistory; [done|done|exact Hrows|exact Hh1|done|done|].
  intros rows' actual Hact Hmatch' Hgrown.
  wp_step. eapply (fine_readHistory fine); [done|done|]. wp_step.
  apply fine_throwIf.
  { unfold grown in Hgrown. destruct d; [destruct Hgrown as (r & -> & _)|destruct Hgrown as (r & ->)].
    - assert (length (h ++ [r])%list = S (length h)) as -> by (rewrite length_app; cbn; lia).
      by rewrite Nat.eqb_refl, take_app_length, firstn_all, bool_decide_true.
    - assert (length (actual ++ [r])%list = S (length actual)) as -> by (rewrite length_app; cbn; lia).
      by rewrite Nat.eqb_refl, Nat.sub_succ, Nat.sub_0_r, take_app_length, firstn_all, bool_decide_true. }
  destruct (matching_valid b catalog actual increasing_catalog checksums Hmatch') as (st & Hst & Hvalid & _).
  wp_step. apply (fine_lift _ st); [done|]. wp_step. apply (fine_lift _ tt); [done|]. wp_step.
  destruct (atomicity b) eqn:Hat.
  - do 2 wp_step. apply HQ; [done| |done|done]. unfold marker_of, has_journal. by rewrite Hat.
  - destruct (Hjournal eq_refl) as (_ & sum & _ & Hmk). assert (has_journal b = true) as Hj by (unfold has_journal; by rewrite Hat).
    pose proof Hex1 as [_ Hj1]. eapply fine_clearMarker; [done|done|done|by apply Hj1| |].
    + unfold marker_of in *. rewrite Hj in *. cbn. rewrite Hm1. exact Hmk.
    + intros t' Hht' Hm'. wp_step. apply HQ; [|done|done|done]. unfold history_of. by rewrite Hht'.
Qed.
End next.

(** *** Whole operations *)
Section whole_operations.
Context `{JsonLibrary} `{Engine} (b : BackendType) (catalog : list Migration) (m : Migration) (d : Direction).
Context (fine : forall n, fault n = Fine).
Abbreviation tables := (Tables Objects).

Lemma fine_Transaction writing (Q : result failure unit -> Session -> Prop) s :
  connected s = true -> (writing = true -> atomicity b = WholeMigration) -> Q (Ok tt) (started s) ->
  wp (Transaction b writing) Q s.
Proof.
  intros Hc Hw HQ. unfold Transaction, beginMigration, setActive, session_begin. do 3 wp_step.
  destruct writing; [rewrite Hw by done|]; (eapply wp_call_fine; [done|done|done|]; do 3 wp_step; exact HQ).
Qed.

Lemma fine_Transaction_commit version (Q : result failure unit -> Session -> Prop) s :
  connected s = true -> Q (Ok tt) (finish_transaction (committed_state s)) -> wp (Transaction_commit b version) Q s.
Proof. intros Hc HQ. unfold Transaction_commit. wp_step. wp_step. apply wp_commit_fine; [done|done|]. by wp_step. Qed.

Lemma fine_in_transaction {A} (body : M A) version s t (Q : result failure A -> Session -> Prop) a :
  connected s = true -> working s = None -> transaction_ s = None ->
  wp body (returns (fun a' s' => a' = a /\ s' = set_working (Some t) (started s))) (started s) ->
  Q (Ok a) (set_durable t s) -> wp (in_transaction b body version) Q s.
Proof.
  intros Hc Hw Ht Hbody HQ. unfold in_transaction. wp_step. wp_step. apply fine_Transaction; [done|done|]. wp_step.
  apply (wp_mono _ _ _ _ Hbody). intros [a'|f] s'; [|done]. intros [-> ->]. wp_step.
  apply fine_Transaction_commit; [done|]. wp_step.
  apply (Transaction_end_wp _ _ (MkTransaction true (active s))); [done| |done]. intros _. by rewrite released_commit.
Qed.

(** Reading the status. *)
Lemma fine_status h mk st s (Q : result failure Status -> Session -> Prop) :
  connected s = true -> working s = None -> transaction_ s = None ->
  history_of (durable s) = Ok h -> marker_of b (durable s) = Ok mk -> evaluate b catalog h mk = Ok st ->
  Q (Ok st) (set_durable (durable s) s) -> wp (status b catalog) Q s.
Proof.
  intros Hc Hw Ht Hh Hm Hst HQ. unfold status. wp_step.
  apply (fine_in_transaction _ _ _ (durable s) _ st); [done|done|done| |done].
  eapply (fine_inspect b catalog fine); [done|exact Hh|exact Hm|exact Hst|]. cbn. split; [done|].
  by rewrite set_working_same.
Qed.

Lemma fine_MigrationLock_end (Q : result failure unit -> Session -> Prop) s :
  connected s = true -> lock_ s = Some true -> Q (Ok tt) (set_lock None (set_active false s)) -> wp (MigrationLock_end b) Q s.
Proof. intros Hc Hl HQ. unfold MigrationLock_end, setActive. do 2 wp_step. rewrite Hl, Hc. cbn [negb]. repeat wp_step. exact HQ. Qed.
End whole_operations.

Section apply_fine.
Context `{JsonLibrary} `{Engine} (b : BackendType) (catalog : list Migration) (m : Migration) (d : Direction).
Context (fine : forall n, fault n = Fine).
Context (is_supported : supported b = true).
Context (increasing_catalog : increasing catalog).
Context (checksums : Forall (fun m => is_Ok (migrationChecksum b m)) catalog).
Abbreviation tables := (Tables Objects).

(** A session that is ready for the next migration of a history. *)
Definition waits (s : Session) (h : list AppliedMigration) : Prop :=
  connected s = true /\ idle s /\ active s = false /\
  history_of (durable s) = Ok h /\ marker_of b (durable s) = Ok None /\ matching b catalog h.

Context (s0 : Session) (h : list AppliedMigration) (waiting : waits s0 h) (next : is_next catalog d h m).
Context (sql : string) (script : scriptOf b m d = Ok sql) (sql_works : works sql).
Context {A : Type} (preflight : M A) (validateResult : A -> M unit).
Context (preflight_passes : passes (rebuild_ s0) preflight) (validate_passes : forall a, passes (rebuild_ s0) (validateResult a)).

Abbreviation done_ := (returns (fun actual s' => waits s' actual /\ left_idle s0 s' /\ grown b m d h actual)).

Lemma apply_whole_fine :
  atomicity b = WholeMigration -> wp (apply b catalog m d h preflight validateResult) done_ s0.
Proof.
  intros Hat. destruct waiting as (Hc & (Hw & Hlk & Ht & Hl) & Hact & Hh & Hm & Hmatch).
  unfold apply, rethrow. wp_step. apply (wp_mono _ done_); [|by intros [a|f] s' Hr].
  wp_step. apply (fine_lift _ sql); [done|]. rewrite Hat. wp_step. wp_step.
  unfold HistoryWrite. rewrite Hat. apply (fine_Transaction b fine); [done|done|]. do 2 wp_step.
  unfold write_history, beginHistory. do 3 wp_step. cbn [started set_transaction transaction_]. do 2 wp_step.
  apply (fine_history_steps b catalog m d fine is_supported increasing_catalog checksums sql h _ (durable s0) None); try done.
  { rewrite Hat. split; [done|by intros []]. }
  { by rewrite Hat. }
  intros actual t' Hact' Hm' Hmatch' Hgrown. wp_step. unfold HistoryWrite_commit. wp_step.
  apply (fine_Transaction_commit b fine); [done|]. wp_step. wp_step.
  cbn [finish_transaction committed_state started set_transaction set_working set_durable set_active
      working transaction_ lock_ previouslyActive]. rewrite Hl. wp_step. wp_step.
  apply (HistoryWrite_end_whole b done_ (Ok actual) _ (MkTransaction true (active s0))); try done.
Qed.

Lemma apply_journalled_fine :
  atomicity b = NonTransactional -> wp (apply b catalog m d h preflight validateResult) done_ s0.
Proof.
  intros Hat. destruct waiting as (Hc & (Hw & Hlk & Ht & Hl) & Hact & Hh & Hm & Hmatch).
  assert (has_journal b = true) as Hj by (unfold has_journal; by rewrite Hat).
  unfold apply, rethrow. wp_step. apply (wp_mono _ done_); [|by intros [a|f] s' Hr].
  wp_step. apply (fine_lift _ sql); [done|]. rewrite Hat. wp_step. wp_step.
  unfold HistoryWrite, MigrationLock, beginMigration, setActive. rewrite Hat. wp_step. eapply wp_call_fine; [done|done|done|].
  do 3 wp_step. wp_step. wp_step. unfold journalled_script.
  set (s1 := set_lock (Some false) (set_active true (set_locked true s0))).
  assert (current s1 = durable s0) as Hcur1 by (unfold s1, current; cbn; by rewrite Hw).
  destruct (matching_valid b catalog h increasing_catalog checksums Hmatch) as (st & Hst & Hvalid & _).
  wp_step. eapply (fine_inspect b catalog fine); [done|by rewrite Hcur1|by rewrite Hcur1|exact Hst|].
  wp_step. apply (fine_lift _ tt); [done|]. wp_step. apply preflight_passes; [done|done|]. intros captured s' Hs'.
  assert (s' = s1) as -> by (unfold s1 in *; cbn in Hs'; by rewrite Hw in Hs'). clear Hs'.
  wp_step. apply (fine_createMigrationHistory b fine); [done|]. intros t2 s2 [Hh2 Hm2] Ho2 [[rows Hrows] Hex] Hmv.
  rewrite Hcur1 in Hh2, Hm2. rewrite Hj in Hex. destruct (Hex eq_refl) as [jrows Hjrows].
  assert (connected s2 = true /\ working s2 = None /\ durable s2 = t2 /\ locked s2 = true /\ active s2 = true /\
    transaction_ s2 = None /\ lock_ s2 = Some false /\ foreignKeys s2 = foreignKeys s0 /\ rebuild_ s2 = rebuild_ s0)
    as (Hc2 & Hw2 & Hd2 & Hlk2 & Ha2 & Ht2 & Hl2 & Hfk2 & Hrb2).
  { destruct Hmv as (Hcur & ? & ? & ? & ? & ? & ? & ? & Hworking). cbn in Hworking. rewrite Hw in Hworking.
    unfold current in Hcur. rewrite Hworking in Hcur. cbn in *. split_and?; congruence. }
  clear Hmv. wp_step. apply (fine_throwIf b); [by rewrite Hj|].
  destruct (next_checksum b catalog m d checksums h next) as [sum Hsum].
  destruct (supported_numbers b is_supported) as [_ Hjb]. specialize (Hjb Hat).
  assert (jrows = []) as ->.
  { apply decodeJournal_None. rewrite Hm in Hm2. unfold marker_of in Hm2. by rewrite Hj, Hjrows in Hm2. }
  set (t3 := MkTables (historyTable t2) (Some [journalRow b m d sum]) (objects t2)).
  assert (marker_of b t3 = Ok (Some (markerOf b m d sum))) as Hm3.
  { unfold marker_of. rewrite Hj. cbn [t3 journalTable]. by apply decodeJournal_row. }
  wp_step. apply (fine_in_transaction b fine _ _ _ t3 _ tt); [done|done|done| |].
  { unfold marker_steps, recordIncomplete. wp_step. apply (fine_requireHistory b fine); [done|by unfold current; cbn; rewrite Hd2, Hh2|].
    wp_step. wp_step. apply (fine_lift _ sum); [done|].
    eapply (fine_on_journal fine); [done|done|by cbn; rewrite Hd2, Hjrows|done|]. wp_step. apply (fine_lift _ sum); [done|].
    apply (fine_requireMarker b fine); [done|by unfold current; cbn; rewrite Hd2|]. cbn. rewrite Hd2. done. }
  wp_step. apply (fine_executeScript b fine sql); [done|done| |done|].
  { unfold current. cbn. rewrite Hw2. cbn. split; [by exists rows|by eexists]. }
  intros t4 s4 Hh4 Hj4 Hmv. unfold current in Hh4, Hj4. cbn in Hh4, Hj4. rewrite Hw2 in Hh4, Hj4. cbn in Hh4, Hj4.
  assert (connected s4 = true /\ working s4 = None /\ durable s4 = t4 /\ locked s4 = true /\ active s4 = true /\
    transaction_ s4 = None /\ lock_ s4 = Some false /\ foreignKeys s4 = foreignKeys s0 /\ rebuild_ s4 = rebuild_ s0)
    as (Hc4 & Hw4 & Hd4 & Hlk4 & Ha4 & Ht4 & Hl4 & Hfk4 & Hrb4).
  { destruct Hmv as (Hcur & ? & ? & ? & ? & ? & ? & ? & Hworking). cbn in Hworking. rewrite Hw2 in Hworking.
    unfold current in Hcur. rewrite Hworking in Hcur. cbn in *. split_and?; congruence. }
  clear Hmv. wp_step. unfold write_history, beginHistory. do 3 wp_step. rewrite Ht4.
  apply (fine_Transaction b fine); [done|done|]. wp_step.
  apply (fine_history_steps b catalog m d fine is_supported increasing_catalog checksums sql h _ t4 (Some captured)); try done.
  { cbn. by rewrite Hd4. }
  { transitivity (history_of t2); [unfold history_of; by rewrite Hh4|by rewrite Hh2]. }
  { cbn. by rewrite Hrb4. }
  { intros a. cbn. by rewrite Hrb4. }
  { intros _. split; [split; [rewrite Hh4; by eexists|rewrite Hj4; by eexists]|]. exists sum. split; [done|].
    unfold marker_of in *. by rewrite Hj4. }
  intros actual t' Hact' Hm' Hmatch' Hgrown. wp_step. unfold HistoryWrite_commit. wp_step.
  apply (fine_Transaction_commit b fine); [done|]. wp_step. wp_step.
  cbn [finish_transaction committed_state started set_transaction set_working set_durable set_active
      working transaction_ lock_ previouslyActive]. rewrite Hl4.
  unfold MigrationLock_finish, endMigration, setActive. rewrite Hat. wp_step. eapply wp_call_fine; [done|done|done|].
  do 4 wp_step. unfold HistoryWrite_end. wp_step. apply (Transaction_end_wp _ _ (MkTransaction true (active s4))); [done| |done].
  intros _. apply (fine_MigrationLock_end b); [done|done|]. cbn.
  split; [by split_and?|]. split; [|done]. by repeat split.
Qed.
End apply_fine.

(** C5: When no call fails, the session waits for work, the migration is the next one
    of the catalog in its direction, its script runs and the checks pass, applying it
    completes on every backend: it returns the new history, one record longer or
    shorter, the database holds that history and no marker, and the session waits for
    the next migration, its lock and transaction released. *)
Theorem apply_completes `{JsonLibrary} `{Engine} {A} b catalog m d h sql (preflight : M A) validateResult s :
  (forall n, fault n = Fine) -> supported b = true -> increasing catalog ->
  Forall (fun m => is_Ok (migrationChecksum b m)) catalog ->
  waits b catalog s h -> is_next catalog d h m -> scriptOf b m d = Ok sql -> works sql ->
  passes (rebuild_ s) preflight -> (forall x, passes (rebuild_ s) (validateResult x)) ->
  wp (apply b catalog m d h preflight validateResult)
    (returns (fun actual s' => waits b catalog s' actual /\ left_idle s s' /\ grown b m d h actual)) s.
Proof.
  intros. destruct (atomicity b) eqn:Hat; [by eapply apply_whole_fine|by eapply apply_journalled_fine].
Qed.
