(* ===== verification/Preflight.v ===== *)
(** Preflight: the check before a script that the database still is what the
    migration's source snapshot says, [contextPreflight] of src/migrations/Runner.cpp.

    What the queries of the engines' catalogs return is a parameter, the class
    [Introspection]: one function of the database's objects per query.  A cell that
    may be NULL is an option. *)
From S2P Require Import Prelude Foundation Chrono Values Codec Schema Sha256 Models PhysicalSql Snapshot Diff SqlValidation Literals SchemaJson Generation Renames Catalog History Session State Protocol.
Local Open Scope string_scope.

(** ** The text of SQLite definitions *)

(** The quote that a quote character opens. *)
Definition opened_quote (c : ascii) : option ascii :=
  if bool_decide (c = "["%char) then Some "]"%char
  else if bool_decide (c = "'"%char) || bool_decide (c = DQUOTE) || bool_decide (c = "`"%char) then Some c
  else None.

(** The table options: what is left, in upper case, without white space. *)
Fixpoint tableOptions (sql : string) : string :=
  match sql with
  | EmptyString => ""
  | String c rest =>
      if negb (is_white c) && negb (bool_decide (c = ";"%char)) then String (to_upper c) (tableOptions rest)
      else tableOptions rest
  end.

(** The loop of [sqliteDefinitions]: [started] from the first parenthesis on, [quote]
    inside quotes, [current] the definition that is being read. *)
Fixpoint definitions_of (started : bool) (quote : option ascii) (depth : Z) (current : string)
    (definitions : list string) (sql : string) : list string :=
  match sql with
  | EmptyString => definitions
  | String c rest =>
      match quote with
      | Some q =>
          let current := if started then current +:+ String c "" else current in
          if bool_decide (c = q) then
            match rest with
            | String d rest' =>
                if bool_decide (d = q) then
                  definitions_of started quote depth (if started then current +:+ String d "" else current) definitions rest'
                else definitions_of started None depth current definitions rest
            | EmptyString => definitions
            end
          else definitions_of started quote depth current definitions rest
      | None =>
          let quote := opened_quote c in
          if negb started then
            if bool_decide (c = "("%char) then definitions_of true None 1 current definitions rest
            else definitions_of started quote depth current definitions rest
          else
            let depth := (if bool_decide (c = "("%char) then depth + 1
                          else if bool_decide (c = ")"%char) then depth - 1 else depth)%Z in
            if bool_decide (c = ")"%char) && (depth =? 0)%Z then (definitions ++ [current; tableOptions rest])%list
            else if bool_decide (c = ","%char) && (depth =? 1)%Z then
              definitions_of started quote depth "" (definitions ++ [current])%list rest
            else if negb (is_white c) then
              definitions_of started quote depth
                (current +:+ String (match quote with Some _ => c | None => to_upper c end) "") definitions rest
            else definitions_of started quote depth current definitions rest
      end
  end.

Definition sqliteDefinitions (sql : string) : list string :=
  merge_sort String.le (definitions_of false None 0 "" [] sql).

(** ** Type names *)

(** The text before and after the first occurrence of a character. *)
Fixpoint split_at (c : ascii) (s : string) : option (string * string) :=
  match s with
  | EmptyString => None
  | String d rest =>
      if bool_decide (d = c) then Some ("", rest)
      else '(before, after) ← split_at c rest; Some (String d before, after)
  end.

Definition nativeType (type : string) : string :=
  let type := map_char to_upper type in
  let type := match '(before, rest) ← split_at "("%char type; '(_, after) ← split_at ")"%char rest; Some (before +:+ after) with
              | Some erased => erased
              | None => type
              end in
  if bool_decide (type = "CHARACTER VARYING") then "VARCHAR"
  else if bool_decide (type = "INTEGER") then "INT"
  else if bool_decide (type = "DOUBLE PRECISION") then "DOUBLE"
  else type.

Fixpoint contains_str (part s : string) : bool :=
  starts_with part s || match s with EmptyString => false | String _ rest => contains_str part rest end.

(** ** Queries *)
Record ColumnRow := MkColumnRow {
  cell_name : string;
  cell_default : option string;
  cell_type : string;
  cell_nullable : string;
  cell_length : option Z;
  cell_identity : string;
  cell_identity_generation : string;
  cell_collation : option string;
  cell_generated : string;
  cell_precision : option Z
}.

Record ForeignKeyPart := MkForeignKeyPart {
  part_column : string;
  part_table : string;
  part_target : string;
  part_schema : string
}.

Record IndexPart := MkIndexPart {
  part_name : option string;
  part_unique : string;
  part_partial : string;
  part_standard : string
}.

Class Introspection `{Engine} := {
  (** SQLite: [sqlite_master], [pragma_index_list], [pragma_index_xinfo] and
      [pragma_foreign_key_list]. *)
  table_sql : string -> Objects -> option string;
  index_names_of : string -> Objects -> list string;
  index_flags : string -> string -> Objects -> option (Z * Z);
  index_xinfo : string -> Objects -> list (option string * string * string);
  triggers_and_views : Objects -> Z;
  table_names : Objects -> list string;
  references_of : string -> Objects -> list string;
  objects_named : string -> Objects -> Z;
  (** The information schema and the catalogs of the others. *)
  current_schema : Objects -> string;
  reserved_objects : Objects -> Z;
  engine_of : string -> Objects -> option (string * string * string);
  columns_of : string -> Objects -> list ColumnRow;
  triggers_of : string -> Objects -> Z;
  constraints_of : string -> Objects -> list (string * string * string);
  key_columns : string -> string -> Objects -> list string;
  foreign_key_parts : string -> string -> Objects -> list ForeignKeyPart;
  foreign_key_rules : string -> Objects -> option (string * string);
  native_indexes : string -> Objects -> list string;
  index_parts : string -> string -> Objects -> list IndexPart;
  views_on : string -> Objects -> Z;
  inbound_keys : string -> Objects -> list (string * string * string)
}.

(** ** The check *)
Section preflight.
Context `{Introspection} (b : BackendType).

(** One query. *)
Definition query {A} (f : Objects -> A) : M A := call (fun s => Ok (f (objects (current s)), s)).

Definition schemaFailure {A} (message : string) : M A :=
  throw (Exception (MigrationError InvalidSchema message 0 Empty None)).

Definition fails_if (c : bool) (message : string) : M unit :=
  if c then schemaFailure message else mret tt.

(** A loop. *)
Fixpoint each {A} (l : list A) (body : A -> M unit) : M unit :=
  match l with [] => mret tt | x :: l => body x ;; each l body end.

Definition postgres : bool := bool_decide (b = Postgres).

(** *** SQLite *)
Fixpoint xinfo_columns (parts : list (option string * string * string)) : option (list string) :=
  match parts with
  | [] => Some []
  | (Some name, "0", "BINARY") :: parts => cons name <$> xinfo_columns parts
  | _ => None
  end.

Definition sqlite_index (source : PhysicalTable) (name indexName : string) : M unit :=
  match find_by index_name indexName (indexes source) with
  | None => schemaFailure ("Unmanaged index blocks this migration: " +:+ indexName)
  | Some modeled =>
      flags ← query (index_flags name indexName);
      let '(unique_, partial) := default (0, 0)%Z flags in
      parts ← query (index_xinfo indexName);
      match xinfo_columns parts with
      | None => schemaFailure "Expression index differs from its snapshot"
      | Some columns_ =>
          fails_if (negb (partial =? 0)%Z || negb (Bool.eqb (negb (unique_ =? 0)%Z) (unique modeled))
                    || negb (bool_decide (columns_ = index_columns modeled)))
            ("Source index differs from its snapshot: " +:+ indexName)
      end
  end.

Definition missing_indexes (source : PhysicalTable) (seen : list string) : M unit :=
  each (indexes source) (fun index =>
    fails_if (negb (bool_decide (index_name index ∈ seen))) ("Source index is missing: " +:+ index_name index)).

Definition sqlite_table (source : PhysicalTable) (name : string) : M unit :=
  ddl ← query (table_sql name);
  expected ← lift (renderCreateTable b source true false);
  fails_if (match ddl with Some sql => negb (bool_decide (sqliteDefinitions sql = sqliteDefinitions expected)) | None => true end)
    ("Source table differs from its snapshot: " +:+ name) ;;
  names ← query (index_names_of name);
  each names (sqlite_index source name) ;;
  missing_indexes source names.

(** *** The other backends *)
Definition expectedCollation : string := if bool_decide (b = Mysql) then "utf8mb4_0900_bin" else "utf8mb4_nopad_bin".

Definition table_options (name : string) : M unit :=
  if postgres then mret tt
  else
    row ← query (engine_of name);
    let '(engine, collation, options_) := default ("", "", "") row in
    fails_if (negb (bool_decide (engine = "InnoDB")) || negb (bool_decide (collation = expectedCollation))
              || negb (bool_decide (options_ = "")))
      ("Source table options differ from its snapshot: " +:+ name).

Definition preciseTemporal (t : ColumnType) : bool :=
  match t with ColumnType.TimeOfDay | ColumnType.LocalDateTime | ColumnType.UtcTimestamp => true | _ => false end.

(** MariaDB shows the implicit default of a nullable column as the text NULL. *)
Definition unmanaged_default (row : ColumnRow) (expected : PhysicalColumn) : bool :=
  match cell_default row with
  | None => false
  | Some text =>
      negb (autoIncrement expected)
      && negb (bool_decide (b = Mariadb) && nullable expected && bool_decide (text = "NULL"))
  end.

Definition actualIdentity (row : ColumnRow) : bool :=
  if postgres then bool_decide (cell_identity row = "YES") else contains_str "auto_increment" (cell_identity row).

Definition column_differs (row : ColumnRow) (expected : PhysicalColumn) : bool :=
  negb (bool_decide (nativeType (cell_type row) = nativeType (sqlType_of expected)))
  || preciseTemporal (logicalType expected) && negb (bool_decide (cell_precision row = Some 6%Z))
  || negb (Bool.eqb (bool_decide (cell_nullable row = "YES")) (nullable expected))
  || negb (Bool.eqb (actualIdentity row) (autoIncrement expected))
  || negb (bool_decide (cell_generated row = "NEVER"))
  || postgres && actualIdentity row && negb (bool_decide (cell_identity_generation row = "BY DEFAULT"))
  || negb postgres && negb (bool_decide (cell_identity row = if autoIncrement expected then "auto_increment" else ""))
  || postgres && is_some (cell_collation row)
  || negb postgres && match cell_collation row with
                      | Some collation => negb (bool_decide (collation = expectedCollation))
                      | None => false
                      end
  || match maxStringLength expected with
     | Some length_ =>
         match cell_length row with
         | Some actual => negb (actual mod 2 ^ 64 =? Z.of_N length_)%Z
         | None => true
         end
     | None => false
     end.

Definition native_column (source : PhysicalTable) (name : string) (row : ColumnRow) : M unit :=
  let unmanaged := "Unmanaged column or default blocks this migration: " +:+ name +:+ "." +:+ cell_name row in
  match find_by col_name (cell_name row) (columns source) with
  | None => schemaFailure unmanaged
  | Some expected =>
      fails_if (unmanaged_default row expected) unmanaged ;;
      fails_if (column_differs row expected)
        ("Source column differs from its snapshot: " +:+ name +:+ "." +:+ cell_name row)
  end.

Definition native_columns (source : PhysicalTable) (name : string) : M unit :=
  rows ← query (columns_of name);
  each rows (native_column source name) ;;
  fails_if (negb (length (remove_dups (map cell_name rows)) =? length (columns source))%nat)
    ("Source table columns differ from its snapshot: " +:+ name).

(** The constraints that belong to the snapshot; PostgreSQL shows NOT NULL as one. *)
Definition known_constraint (source : PhysicalTable) (constraint_ type : string) : bool :=
  bool_decide (type = "PRIMARY KEY")
    && (bool_decide (constraint_ = primaryKeyName source) || negb postgres && bool_decide (constraint_ = "PRIMARY"))
  || bool_decide (type = "FOREIGN KEY") && is_some (find_by fk_name constraint_ (Schema.foreignKeys source))
  || postgres && bool_decide (type = "NOT NULL")
  || negb postgres && bool_decide (type = "UNIQUE")
     && match find_by index_name constraint_ (indexes source) with Some index => unique index | None => false end.

Definition native_constraints (source : PhysicalTable) (name : string) : M unit :=
  rows ← query (constraints_of name);
  each rows (fun '(constraint_, type, standard) =>
    fails_if (negb (bool_decide (standard = "standard")))
      ("Source constraint options differ from its snapshot: " +:+ name +:+ "." +:+ constraint_) ;;
    fails_if (negb (known_constraint source constraint_ type))
      ("Unmanaged constraint blocks this migration: " +:+ name +:+ "." +:+ constraint_)).

Definition native_primary (source : PhysicalTable) (name : string) : M unit :=
  if bool_decide (primaryKey source = []) then mret tt
  else
    actual ← query (key_columns name (if postgres then primaryKeyName source else "PRIMARY"));
    fails_if (negb (bool_decide (actual = primaryKey source)))
      ("Source primary key differs from its snapshot: " +:+ name).

(** The parts of a key, one by one; [columns_] and [targets] are left to see. *)
Fixpoint key_parts (key : PhysicalForeignKey) (schema : string) (columns_ targets : list string)
    (parts : list ForeignKeyPart) {struct parts} : M unit :=
  match parts with
  | [] => fails_if (negb (bool_decide (columns_ = []))) ("Source foreign key is missing: " +:+ fk_name key)
  | part :: parts =>
      let differs := schemaFailure ("Source foreign key differs from its snapshot: " +:+ fk_name key) in
      match columns_, targets with
      | column :: columns_, target :: targets =>
          if bool_decide (part_column part = column) && bool_decide (part_table part = targetTable key)
             && bool_decide (part_target part = target) && bool_decide (part_schema part = schema)
          then key_parts key schema columns_ targets parts
          else differs
      | _, _ => differs
      end
  end.

Definition rule_name (value : string) : string :=
  if negb postgres && bool_decide (value = "NO ACTION") then "RESTRICT" else value.

Definition native_foreign_key (name schema : string) (key : PhysicalForeignKey) : M unit :=
  parts ← query (foreign_key_parts name (fk_name key));
  key_parts key schema (fk_columns key) (targetColumns key) parts ;;
  rules ← query (foreign_key_rules (fk_name key));
  let '(deleteRule, updateRule) := default ("", "") rules in
  fails_if (negb (bool_decide (rule_name deleteRule = rule_name (onDelete key)))
            || negb (bool_decide (rule_name updateRule = rule_name (onUpdate key))))
    ("Source foreign key actions differ from its snapshot: " +:+ fk_name key).

(** The columns and the uniqueness that the index of a name must have. *)
Definition expected_index (source : PhysicalTable) (index : string) : option (list string * bool) :=
  if bool_decide (index = primaryKeyName source) || bool_decide (index = "PRIMARY")
  then Some (primaryKey source, true)
  else (fun modeled => (index_columns modeled, unique modeled)) <$> find_by index_name index (indexes source).

Definition known_index (source : PhysicalTable) (index : string) : bool :=
  bool_decide (index = primaryKeyName source) || negb postgres && bool_decide (index = "PRIMARY")
  || is_some (find_by index_name index (indexes source)).

Fixpoint part_columns (unique_ : bool) (parts : list IndexPart) : option (list string) :=
  match parts with
  | [] => Some []
  | part :: parts =>
      match part_name part with
      | Some name =>
          if Bool.eqb (bool_decide (part_unique part = "yes")) unique_ && bool_decide (part_partial part = "full")
             && bool_decide (part_standard part = "standard")
          then cons name <$> part_columns unique_ parts
          else None
      | None => None
      end
  end.

Definition native_index (source : PhysicalTable) (name index : string) : M unit :=
  if known_index source index then
    '(expectedColumns, unique_) ← lift (or_throw (expected_index source index) OutOfRange);
    parts ← query (index_parts name index);
    match part_columns unique_ parts with
    | None => schemaFailure ("Source index differs from its snapshot: " +:+ name +:+ "." +:+ index)
    | Some actual =>
        fails_if (negb (bool_decide (actual = expectedColumns)))
          ("Source index columns differ from its snapshot: " +:+ name +:+ "." +:+ index)
    end
  else schemaFailure ("Unmanaged index blocks this migration: " +:+ name +:+ "." +:+ index).

Definition native_table (source : PhysicalTable) (name schema : string) : M unit :=
  table_options name ;;
  native_columns source name ;;
  triggers ← query (triggers_of name);
  fails_if (negb (triggers =? 0)%Z) ("Unmanaged trigger blocks this migration: " +:+ name) ;;
  native_constraints source name ;;
  native_primary source name ;;
  each (Schema.foreignKeys source) (native_foreign_key name schema) ;;
  names ← query (native_indexes name);
  each names (native_index source name) ;;
  missing_indexes source names ;;
  views ← query (views_on name);
  fails_if (negb (views =? 0)%Z) ("Unmanaged view blocks this migration: " +:+ name).

(** The owner of an incoming foreign key is a touched table that has the key. *)
Definition managed_inbound (source : PhysicalSchema) (touched : list string) (schema name : string)
    (key : string * string * string) : bool :=
  let '(owner_schema, ownerName, constraintName) := key in
  bool_decide (owner_schema = schema)
  && match find_by table_name ownerName (tables source) with
     | Some owner =>
         bool_decide (ownerName ∈ touched)
         && existsb (fun k => bool_decide (fk_name k = constraintName) && bool_decide (targetTable k = name))
              (Schema.foreignKeys owner)
     | None => false
     end.

Definition inbound (source : PhysicalSchema) (touched : list string) (schema name : string) : M unit :=
  keys ← query (inbound_keys name);
  each keys (fun key =>
    fails_if (negb (managed_inbound source touched schema name key))
      ("Unmanaged incoming foreign key blocks this migration: " +:+ key.1.2 +:+ "." +:+ key.2)).

(** What else a rebuild of SQLite tables needs. *)
Definition rebuild_preflight (source : PhysicalSchema) (context : MigrationExecutionContext) : M unit :=
  count ← query triggers_and_views;
  fails_if (negb (count =? 0)%Z) "SQLite rebuild requires explicit handling of unmanaged triggers and views" ;;
  owners ← query table_names;
  each owners (fun owner =>
    if is_some (find_by table_name owner (tables source)) then mret tt
    else
      keys ← query (references_of owner);
      each keys (fun key =>
        fails_if (bool_decide (key ∈ ctx_tables context)) ("Unmanaged inbound foreign key blocks this rebuild: " +:+ owner))) ;;
  each (rebuildTables context) (fun mapping =>
    collision ← query (objects_named (rb_staging mapping));
    fails_if (negb (collision =? 0)%Z) ("SQLite rebuild staging name already exists: " +:+ rb_staging mapping)).

(** The schema in use; nothing of a former migration may be left in it. *)
Definition schema_preflight : M string :=
  if bool_decide (b = Sqlite) then mret ""
  else
    schema ← query current_schema;
    reserved ← query reserved_objects;
    fails_if (negb (reserved =? 0)%Z) "Reserved migration staging objects already exist in the database" ;;
    mret schema.

Definition contextPreflight (context : MigrationExecutionContext) : M unit :=
  match ctx_source context with
  | None => mret tt
  | Some source =>
      schema ← schema_preflight;
      each (ctx_tables context) (fun name =>
        table ← lift (or_throw (find_by table_name name (tables source)) OutOfRange);
        if bool_decide (b = Sqlite) then sqlite_table table name else native_table table name schema) ;;
      (if bool_decide (b = Sqlite) then mret tt
       else each (ctx_tables context) (inbound source (ctx_tables context) schema)) ;;
      (if bool_decide (b = Sqlite) && bool_decide (mode context = SqliteRebuild)
       then rebuild_preflight source context else mret tt)
  end.
End preflight.

(** ** Properties *)

(** *** Reading operations *)
Section reading.
Context `{Engine}.
Abbreviation tables := (Tables Objects).

Lemma reads_mono {A} (m : M A) (R P : tables -> A -> Prop) :
  reads m R -> (forall t a, R t a -> P t a) -> reads m P.
Proof. intros Hm Himp s Q Herr Hok. apply Hm; [done|]. intros a Ha. by apply Hok, Himp. Qed.

Lemma reads_each {A} {body : A -> M unit} {R : A -> tables -> Prop} (Hbody : forall x, reads (body x) (fun t _ => R x t)) l :
  reads (each l body) (fun t _ => Forall (fun x => R x t) l).
Proof.
  induction l as [|x l IH]; cbn [each]; intros s Q Herr Hok.
  - wp_step. apply Hok. constructor.
  - read_step (Hbody x). intros [] Hx. read_step IH. intros [] Hl. apply Hok. by constructor.
Qed.

Lemma reads_query {A} (f : Objects -> A) : reads (query f) (fun t a => a = f (objects t)).
Proof. apply (reads_call (fun t => f (objects t))). Qed.

Lemma reads_fails_if c message : reads (fails_if c message) (fun _ _ => c = false).
Proof. destruct c; [apply reads_throw|]. apply (reads_mono _ _ _ (reads_ret tt)). done. Qed.
End reading.

Ltac fail_step :=
  unfold schemaFailure; wp_step;
  match goal with Herr : may_fail _ _ |- _ => apply Herr end.

(** *** The text of a table's definition

    How SQL text falls into definitions, by rules on the text: [definition_text] reads one
    definition, or with [nested] what is inside parentheses, and gives its normal form,
    without white space and in upper case outside of quotes. *)
Section definition_texts.
Definition quotes : list (ascii * ascii) := [("["%char, "]"%char); ("'"%char, "'"%char); (DQUOTE, DQUOTE); ("`"%char, "`"%char)].

(** Inside quotes the closing one is doubled. *)
Definition doubled (q : ascii) (text : string) : string :=
  concat_map (fun c => if decide (c = q) then String c (String c "") else String c "") text.

Definition structural (c : ascii) : Prop := c ∈ ["("%char; ")"%char; ","%char] \/ c ∈ map fst quotes.

Definition begins (c : ascii) (text : string) : Prop := exists rest, text = String c rest.

Inductive definition_text : bool -> string -> string -> Prop :=
  | text_end nested : definition_text nested "" ""
  | text_white nested c s n : is_white c = true -> definition_text nested s n -> definition_text nested (String c s) n
  | text_letter nested c s n :
      is_white c = false -> ~ structural c \/ nested = true /\ c = ","%char ->
      definition_text nested s n -> definition_text nested (String c s) (String (to_upper c) n)
  | text_quote nested o q text s n :
      (o, q) ∈ quotes -> ~ begins q s -> definition_text nested s n ->
      definition_text nested (String o (doubled q text +:+ String q s)) (String o (doubled q text +:+ String q n))
  | text_group nested inner m s n :
      definition_text true inner m -> definition_text nested s n ->
      definition_text nested (String "(" (inner +:+ String ")" s)) (String "(" (m +:+ String ")" n)).

(** Definitions, with commas between them. *)
Inductive definitions_text : string -> list string -> Prop :=
  | one_definition s n : definition_text false s n -> definitions_text s [n]
  | more_definitions s n t ns :
      definition_text false s n -> definitions_text t ns -> definitions_text (s +:+ String "," t) (n :: ns).

(** What stands before the first parenthesis. *)
Inductive head_text : string -> Prop :=
  | head_end : head_text ""
  | head_letter c s : c <> "("%char -> c ∉ map fst quotes -> head_text s -> head_text (String c s)
  | head_quote o q text s : (o, q) ∈ quotes -> ~ begins q s -> head_text s ->
      head_text (String o (doubled q text +:+ String q s)).

Definition squeezed (options_ : string) : string :=
  of_chars (map to_upper (filter (fun c => is_white c = false /\ c <> ";"%char) (chars options_))).

(** A CREATE TABLE statement of these definitions and options. *)
Definition create_text (sql : string) (definitions : list string) (options_ : string) : Prop :=
  exists head body rest, sql = head +:+ String "(" (body +:+ String ")" rest) /\
    head_text head /\ definitions_text body definitions /\ options_ = squeezed rest.

(** Two statements of the same definitions, in whatever order. *)
Definition same_definitions (sql expected : string) : Prop :=
  forall definitions1 options1 definitions2 options2,
    create_text sql definitions1 options1 -> create_text expected definitions2 options2 ->
    (definitions1 ++ [options1])%list ≡ₚ (definitions2 ++ [options2])%list.

Lemma opened_quote_iff o q : opened_quote o = Some q <-> (o, q) ∈ quotes.
Proof.
  unfold opened_quote, quotes. rewrite !elem_of_cons, elem_of_nil, !pair_equal_spec.
  split.
  - repeat case_bool_decide; cbn [orb]; naive_solver.
  - by intros [[-> ->]|[[-> ->]|[[-> ->]|[[-> ->]|[]]]]].
Qed.

Lemma opened_quote_None c : c ∉ map fst quotes -> opened_quote c = None.
Proof. unfold opened_quote, quotes. cbn [map fst]. rewrite !not_elem_of_cons. intros (? & ? & ? & ? & _). by rewrite !bool_decide_false. Qed.

Lemma tableOptions_squeezed options_ : tableOptions options_ = squeezed options_.
Proof.
  unfold squeezed. induction options_ as [|c s IH]; [done|]. cbn [tableOptions chars]. rewrite filter_cons.
  destruct (is_white c); cbn [negb andb]; [by rewrite decide_False by naive_solver|].
  case_bool_decide; cbn [negb]; [by rewrite decide_False by naive_solver|]. rewrite decide_True by done. cbn. by rewrite IH.
Qed.

Lemma definitions_of_open started o q depth current definitions rest :
  (o, q) ∈ quotes ->
  definitions_of started None depth current definitions (String o rest) =
  definitions_of started (Some q) depth (if started then current +:+ String o "" else current) definitions rest.
Proof.
  unfold quotes. rewrite !elem_of_cons, elem_of_nil, !pair_equal_spec.
  intros [[-> ->]|[[-> ->]|[[-> ->]|[[-> ->]|[]]]]]; by destruct started.
Qed.

(** The loop on a quoted text after its opening quote. *)
Lemma definitions_of_quote started q depth current definitions text rest :
  rest <> "" -> ~ begins q rest ->
  definitions_of started (Some q) depth current definitions (doubled q text +:+ String q rest) =
  definitions_of started None depth (if started then current +:+ doubled q text +:+ String q "" else current) definitions rest.
Proof.
  intros Hne Hrest. revert current. induction text as [|c text IH]; intros current; cbn [doubled concat_map String.append].
  - cbn [definitions_of]. rewrite bool_decide_true by done. destruct rest as [|d rest]; [done|].
    rewrite bool_decide_false by (intros ->; apply Hrest; by eexists). done.
  - destruct (decide (c = q)) as [->|Hc]; cbn [String.append definitions_of].
    + rewrite !bool_decide_true by done. rewrite IH. destruct started; [|done]. by rewrite !app_str_assoc.
    + rewrite bool_decide_false by done. rewrite IH. destruct started; [|done]. by rewrite !app_str_assoc.
Qed.

Lemma white_plain c : is_white c = true -> opened_quote c = None /\ c <> "("%char /\ c <> ")"%char /\ c <> ","%char.
Proof. destruct c as [[] [] [] [] [] [] [] []]; by vm_compute. Qed.

Lemma separator_not_quoted o q c rest : c ∈ [")"%char; ","%char] -> (o, q) ∈ quotes -> ~ begins q (String c rest).
Proof.
  intros Hc Hq [rest' [= -> _]]. rewrite !elem_of_cons, elem_of_nil in Hc. unfold quotes in Hq.
  rewrite !elem_of_cons, elem_of_nil, !pair_equal_spec in Hq. destruct Hc as [->|[->|[]]]; intuition discriminate.
Qed.

(** One character outside of quotes that is no bracket and separates no definitions. *)
Lemma definitions_of_plain depth current definitions c rest :
  opened_quote c = None -> c <> "("%char -> c <> ")"%char -> (c = ","%char -> depth <> 1%Z) ->
  definitions_of true None depth current definitions (String c rest) =
  definitions_of true None depth (if is_white c then current else current +:+ String (to_upper c) "") definitions rest.
Proof.
  intros Hquote Hopen Hclose Hcomma. cbn [definitions_of negb]. rewrite Hquote, !(bool_decide_false (c = _)) by done. cbn [andb].
  assert (bool_decide (c = ","%char) && (depth =? 1)%Z = false) as ->.
  { apply andb_false_iff. case_bool_decide; [right; by apply Z.eqb_neq, Hcomma|by left]. }
  by destruct (is_white c).
Qed.

Lemma definitions_of_bracket depth current definitions rest :
  definitions_of true None depth current definitions (String "(" rest) =
  definitions_of true None (depth + 1) (current +:+ "(") definitions rest.
Proof. done. Qed.

Lemma definitions_of_closing depth current definitions rest : (2 <= depth)%Z ->
  definitions_of true None depth current definitions (String ")" rest) =
  definitions_of true None (depth - 1) (current +:+ ")") definitions rest.
Proof.
  intros Hdepth. transitivity (if (depth - 1 =? 0)%Z then (definitions ++ [current; tableOptions rest])%list
    else definitions_of true None (depth - 1) (current +:+ ")") definitions rest); [done|].
  by rewrite (proj2 (Z.eqb_neq _ _)) by lia.
Qed.

(** The loop on a text that a bracket or a comma follows. *)
Lemma definitions_of_text nested s n : definition_text nested s n -> forall depth current definitions c rest,
  c ∈ [")"%char; ","%char] -> (if nested then 2 <= depth else depth = 1)%Z ->
  definitions_of true None depth current definitions (s +:+ String c rest) =
  definitions_of true None depth (current +:+ n) definitions (String c rest).
Proof.
  induction 1 as [nested|nested d s n Hd _ IH|nested d s n Hd Hs _ IH|nested o q text s n Hq Hs _ IH|nested inner m s n _ IH1 _ IH2];
    intros depth current definitions c rest Hc Hdepth.
  - by rewrite app_str_nil_r.
  - destruct (white_plain d Hd) as (? & ? & ? & ?). cbn [String.append]. rewrite definitions_of_plain, Hd by done. by apply IH.
  - cbn [String.append]. assert (d = ","%char -> depth <> 1%Z) by (intros ->; destruct Hs as [Hs|[-> _]]; [by destruct Hs; left; set_solver|lia]).
    assert (opened_quote d = None /\ d <> "("%char /\ d <> ")"%char) as (? & ? & ?).
    { unfold structural in Hs. destruct Hs as [Hs|[_ ->]]; [|done]. split_and!; [apply opened_quote_None; tauto|intros ->; set_solver..]. }
    rewrite definitions_of_plain, Hd by done. rewrite IH by done. by rewrite app_str_assoc.
  - cbn [String.append]. rewrite definitions_of_open with (q := q), app_str_assoc by done. cbn [String.append].
    rewrite definitions_of_quote; [| |].
    + rewrite IH by done. by rewrite !app_str_assoc.
    + by destruct s.
    + destruct s as [|d s]; [by apply (separator_not_quoted o)|]. intros [rest' [= -> _]]. apply Hs. by eexists.
  - cbn [String.append]. rewrite definitions_of_bracket, app_str_assoc. cbn [String.append].
    rewrite IH1; [|set_solver|destruct nested; lia]. rewrite definitions_of_closing by (destruct nested; lia).
    replace (depth + 1 - 1)%Z with depth by lia. rewrite IH2 by done. by rewrite !app_str_assoc.
Qed.

Lemma definitions_of_all body ns : definitions_text body ns -> forall definitions rest,
  definitions_of true None 1 "" definitions (body +:+ String ")" rest) = (definitions ++ ns ++ [tableOptions rest])%list.
Proof.
  induction 1 as [s n Hs|s n t ns Hs _ IH]; intros definitions rest.
  - rewrite (definitions_of_text _ _ _ Hs); [done|set_solver|done].
  - rewrite app_str_assoc. cbn [String.append]. rewrite (definitions_of_text _ _ _ Hs); [|set_solver|done].
    change (definitions_of true None 1 ("" +:+ n) definitions (String "," (t +:+ String ")" rest)))
      with (definitions_of true None 1 "" (definitions ++ [n]) (t +:+ String ")" rest)).
    rewrite IH. by rewrite <- app_assoc.
Qed.

Lemma definitions_of_head head : head_text head -> forall rest,
  definitions_of false None 0 "" [] (head +:+ String "(" rest) = definitions_of true None 1 "" [] rest.
Proof.
  induction 1 as [|c s Hc Hquote _ IH|o q text s Hq Hs _ IH]; intros rest; [done| |].
  - cbn [String.append definitions_of negb]. rewrite bool_decide_false, opened_quote_None by done. apply IH.
  - cbn [String.append]. rewrite definitions_of_open with (q := q), app_str_assoc by done. cbn [String.append].
    rewrite definitions_of_quote; [apply IH|by destruct s|].
    destruct s as [|d s]; [|intros [rest' [= -> _]]; apply Hs; by eexists].
    intros [rest' [= <- _]]. unfold quotes in Hq. rewrite !elem_of_cons, elem_of_nil, !pair_equal_spec in Hq. naive_solver.
Qed.

(** [sqliteDefinitions] finds the definitions of a statement. *)
Lemma sqliteDefinitions_text sql definitions options_ :
  create_text sql definitions options_ -> sqliteDefinitions sql ≡ₚ (definitions ++ [options_])%list.
Proof.
  intros (head & body & rest & -> & Hhead & Hbody & ->). unfold sqliteDefinitions. rewrite merge_sort_Permutation.
  rewrite definitions_of_head, (definitions_of_all _ _ Hbody), tableOptions_squeezed by done. done.
Qed.

Lemma sqliteDefinitions_same sql expected : sqliteDefinitions sql = sqliteDefinitions expected -> same_definitions sql expected.
Proof.
  intros Hsame definitions1 options1 definitions2 options2 H1 H2.
  by rewrite <- (sqliteDefinitions_text _ _ _ H1), Hsame, (sqliteDefinitions_text _ _ _ H2).
Qed.

(** Order, case and white space outside of quotes make no difference; a default does. *)
Example definitions_of_statement :
  sqliteDefinitions "create table `a``(b` (x text default 'It''s, (so)' not null, primary key(x,y) ) without rowid;" =
    ["PRIMARYKEY(X,Y)"; "WITHOUTROWID"; "XTEXTDEFAULT'It''s, (so)'NOTNULL"].
Proof. by vm_compute. Qed.

Ltac read_letter :=
  first [ apply text_white; [reflexivity|]
        | apply text_letter; [reflexivity|(left; unfold structural, quotes; cbn [map fst]; rewrite !elem_of_cons, elem_of_nil; intuition discriminate) || (right; by split)|]
        | apply head_letter; [discriminate|unfold quotes; cbn [map fst]; rewrite !elem_of_cons, elem_of_nil; intuition discriminate|] ].

Example statement_text :
  create_text "create table `a``(b` (x text default 'It''s, (so)' , primary key(x,y) ) without rowid;"
    ["XTEXTDEFAULT'It''s, (so)'"; "PRIMARYKEY(X,Y)"] "WITHOUTROWID".
Proof.
  exists "create table `a``(b` ", "x text default 'It''s, (so)' , primary key(x,y) ", " without rowid;". split_and!; [done| | |done].
  - do 13 read_letter. apply (head_quote "`" "`" "a`(b" " "); [set_solver|by intros []|]. read_letter. apply head_end.
  - apply (more_definitions "x text default 'It''s, (so)' " _ " primary key(x,y) "); [|apply one_definition].
    + do 15 read_letter. apply (text_quote false "'" "'" "It's, (so)" " " ""); [set_solver|by intros []|]. read_letter. apply text_end.
    + do 12 read_letter. apply (text_group false "x,y" "X,Y" " " ""); [do 3 read_letter; apply text_end|]. read_letter. apply text_end.
Qed.

Example default_differs :
  sqliteDefinitions "create table t (x text default 'a')" <> sqliteDefinitions "CREATE TABLE t (x TEXT DEFAULT 'A')".
Proof. by vm_compute. Qed.
End definition_texts.

(** *** What a database agrees on with a snapshot

    In terms of the rows of the catalogs and of the snapshot alone. *)
Section agreement.
Context `{Introspection} (b : BackendType).

(** A snapshot's index is one of the database's. *)
Definition same_indexes (source : PhysicalTable) (names : list string) : Prop :=
  forall m, m ∈ indexes source -> index_name m ∈ names.

Definition sqlite_agrees (source : PhysicalTable) (name : string) (o : Objects) : Prop :=
  (exists sql expected, table_sql name o = Some sql /\ renderCreateTable b source true false = Ok expected /\
     sqliteDefinitions sql = sqliteDefinitions expected /\ same_definitions sql expected) /\
  same_indexes source (index_names_of name o) /\
  forall i, i ∈ index_names_of name o -> exists m, m ∈ indexes source /\ index_name m = i /\
    index_xinfo i o = map (fun c => (Some c, "0", "BINARY")) (index_columns m) /\
    exists unique_, default (0, 0)%Z (index_flags name i o) = (unique_, 0%Z) /\ (unique_ <> 0%Z <-> unique m = true).

(** A type name without the first text in parentheses, if there is one. *)
Definition parenthesized (type before_ argument after_ : string) : Prop :=
  type = before_ +:+ String "(" (argument +:+ String ")" after_) /\
  existsb_char (fun c => bool_decide (c = "("%char)) before_ = false /\
  existsb_char (fun c => bool_decide (c = ")"%char)) argument = false.

Definition erased (type plain : string) : Prop :=
  (exists before_ argument after_, parenthesized type before_ argument after_ /\ plain = before_ +:+ after_) \/
  ((forall before_ argument after_, ~ parenthesized type before_ argument after_) /\ plain = type).

Definition synonyms : list (string * string) :=
  [("CHARACTER VARYING", "VARCHAR"); ("INTEGER", "INT"); ("DOUBLE PRECISION", "DOUBLE")].

Definition canonical_name (plain name : string) : Prop :=
  (plain, name) ∈ synonyms \/ (forall other, (plain, other) ∉ synonyms) /\ name = plain.

(** Types of the same name, whatever the case and the text in parentheses. *)
Definition same_type (actual expected : string) : Prop :=
  exists plain1 plain2 name, erased (map_char to_upper actual) plain1 /\ canonical_name plain1 name /\
    erased (map_char to_upper expected) plain2 /\ canonical_name plain2 name.

Definition collation : string := if bool_decide (b = Mysql) then "utf8mb4_0900_bin" else "utf8mb4_nopad_bin".

(** A column of the database is the column of the snapshot. *)
Definition column_agrees (row : ColumnRow) (c : PhysicalColumn) : Prop :=
  col_name c = cell_name row /\
  same_type (cell_type row) (sqlType_of c) /\
  (cell_nullable row = "YES" <-> nullable c = true) /\
  (logicalType c ∈ [ColumnType.TimeOfDay; ColumnType.LocalDateTime; ColumnType.UtcTimestamp] -> cell_precision row = Some 6%Z) /\
  (forall length_, maxStringLength c = Some length_ ->
     exists actual, cell_length row = Some actual /\ (actual mod 2 ^ 64)%Z = Z.of_N length_) /\
  cell_generated row = "NEVER" /\
  (b = Postgres -> (cell_identity row = "YES" <-> autoIncrement c = true) /\
     (autoIncrement c = true -> cell_identity_generation row = "BY DEFAULT") /\ cell_collation row = None) /\
  (b <> Postgres -> cell_identity row = (if autoIncrement c then "auto_increment" else "") /\
     (cell_collation row = None \/ cell_collation row = Some collation)) /\
  (forall text, cell_default row = Some text ->
     autoIncrement c = true \/ b = Mariadb /\ nullable c = true /\ text = "NULL").

Definition columns_agree (source : PhysicalTable) (rows : list ColumnRow) : Prop :=
  (forall row, row ∈ rows -> exists c, c ∈ columns source /\ column_agrees row c) /\
  (NoDup (map col_name (columns source)) ->
     forall c, c ∈ columns source -> exists row, row ∈ rows /\ column_agrees row c).

(** The MySQL family does not tell two actions apart. *)
Definition same_action (actual expected : string) : Prop :=
  actual = expected \/ b <> Postgres /\ actual ∈ ["NO ACTION"; "RESTRICT"] /\ expected ∈ ["NO ACTION"; "RESTRICT"].

Definition key_agrees (schema : string) (key : PhysicalForeignKey) (parts : list ForeignKeyPart)
    (rules : option (string * string)) : Prop :=
  map part_column parts = fk_columns key /\ map part_target parts = take (length parts) (targetColumns key) /\
  (forall part, part ∈ parts -> part_table part = targetTable key /\ part_schema part = schema) /\
  same_action (default ("", "") rules).1 (onDelete key) /\ same_action (default ("", "") rules).2 (onUpdate key).

(** A constraint that the snapshot has, or one that follows from a column or an index. *)
Definition managed_constraint (source : PhysicalTable) (constraint_ type : string) : Prop :=
  type = "PRIMARY KEY" /\ (constraint_ = primaryKeyName source \/ b <> Postgres /\ constraint_ = "PRIMARY") \/
  type = "FOREIGN KEY" /\ (exists key, key ∈ Schema.foreignKeys source /\ fk_name key = constraint_) \/
  b = Postgres /\ type = "NOT NULL" \/
  b <> Postgres /\ type = "UNIQUE" /\ (exists index, index ∈ indexes source /\ index_name index = constraint_ /\ unique index = true).

(** The index of the primary key, or one of the snapshot. *)
Definition managed_index (source : PhysicalTable) (index : string) (columns_ : list string) (unique_ : bool) : Prop :=
  (index = primaryKeyName source \/ index = "PRIMARY" /\ (b <> Postgres \/ index ∈ map index_name (indexes source)))
    /\ columns_ = primaryKey source /\ unique_ = true \/
  exists m, m ∈ indexes source /\ index_name m = index /\ columns_ = index_columns m /\ unique_ = unique m.

Definition index_agrees (parts : list IndexPart) (columns_ : list string) (unique_ : bool) : Prop :=
  map part_name parts = map Some columns_ /\
  forall part, part ∈ parts ->
    (part_unique part = "yes" <-> unique_ = true) /\ part_partial part = "full" /\ part_standard part = "standard".

Definition native_agrees (source : PhysicalTable) (name schema : string) (o : Objects) : Prop :=
  (b <> Postgres -> engine_of name o = Some ("InnoDB", collation, "")) /\
  columns_agree source (columns_of name o) /\
  triggers_of name o = 0%Z /\ views_on name o = 0%Z /\
  (primaryKey source <> [] ->
     key_columns name (if bool_decide (b = Postgres) then primaryKeyName source else "PRIMARY") o = primaryKey source) /\
  (forall key, key ∈ Schema.foreignKeys source ->
     key_agrees schema key (foreign_key_parts name (fk_name key) o) (foreign_key_rules (fk_name key) o)) /\
  (forall constraint_ type standard, (constraint_, type, standard) ∈ constraints_of name o ->
     standard = "standard" /\ managed_constraint source constraint_ type) /\
  same_indexes source (native_indexes name o) /\
  forall i, i ∈ native_indexes name o -> exists columns_ unique_,
    managed_index source i columns_ unique_ /\ index_agrees (index_parts name i o) columns_ unique_.

(** A foreign key that refers to a touched table is one of a touched table of the snapshot. *)
Definition inbound_agrees (source : PhysicalSchema) (touched : list string) (schema name : string)
    (key : string * string * string) : Prop :=
  key.1.1 = schema /\ key.1.2 ∈ touched /\
  exists owner, owner ∈ tables source /\ table_name owner = key.1.2 /\
    exists k, k ∈ Schema.foreignKeys owner /\ fk_name k = key.2 /\ targetTable k = name.
End agreement.

(** *** Names and rows *)
Section names.
Lemma split_at_Some c s x y :
  split_at c s = Some (x, y) <-> s = x +:+ String c y /\ existsb_char (fun d => bool_decide (d = c)) x = false.
Proof.
  revert x. induction s as [|d s IH]; intros x; cbn [split_at].
  - split; [done|]. intros [Hs _]. by destruct x.
  - case_bool_decide as Hd.
    + subst d. split; [by intros [= <- <-]|]. intros [Hs Hx]. destruct x as [|e x]; [by injection Hs as ->|].
      injection Hs as -> ->. cbn in Hx. by rewrite bool_decide_true in Hx.
    + split.
      * intros ([before after] & Hsplit & [= <- <-])%bind_Some. apply IH in Hsplit as [-> Hx]. split; [done|]. cbn. by rewrite bool_decide_false.
      * intros [Hs Hx]. destruct x as [|e x]; [by injection Hs as ->|]. injection Hs as -> ->. cbn in Hx. apply orb_false_iff in Hx as [_ Hx].
        apply bind_Some. exists (x, y). split; [by apply IH|done].
Qed.

Lemma split_at_None c s : split_at c s = None <-> existsb_char (fun d => bool_decide (d = c)) s = false.
Proof.
  induction s as [|d s IH]; cbn [split_at existsb_char]; [done|]. case_bool_decide; [done|]. rewrite orb_false_l, <- IH.
  destruct (split_at c s) as [[]|]; done.
Qed.

Lemma nativeType_erased type :
  exists plain, erased (map_char to_upper type) plain /\ canonical_name plain (nativeType type).
Proof.
  unfold nativeType. set (upper := map_char to_upper type). clearbody upper.
  set (plain := match _ with Some erased => erased | None => upper end). exists plain. split.
  - subst plain. destruct (split_at "(" upper) as [[before_ rest]|] eqn:Hopen; cbn [mbind option_bind].
    + pose proof Hopen as [Hupper Hbefore]%split_at_Some. destruct (split_at ")" rest) as [[argument after_]|] eqn:Hclose; cbn [mbind option_bind].
      * apply split_at_Some in Hclose as [-> Hargument]. left. by exists before_, argument, after_.
      * right. split; [|done]. intros before' argument after_ (Hupper' & Hbefore' & _).
        assert (Hopen' : split_at "(" upper = Some (before', argument +:+ String ")" after_)) by (by apply split_at_Some).
        rewrite Hopen in Hopen'. injection Hopen' as _ ->. apply split_at_None in Hclose. rewrite existsb_char_app in Hclose.
        apply orb_false_iff in Hclose as [_ Hclose]. cbn in Hclose. discriminate Hclose.
    + right. split; [|done]. intros before' argument after_ (-> & _). apply split_at_None in Hopen. rewrite existsb_char_app in Hopen.
      apply orb_false_iff in Hopen as [_ Hopen]. cbn in Hopen. discriminate Hopen.
  - clearbody plain. unfold canonical_name, synonyms. do 3 (case_bool_decide; [subst; left; set_solver|]).
    right. split; [|done]. intros other. rewrite !elem_of_cons, elem_of_nil. naive_solver.
Qed.

Lemma nativeType_same actual expected : nativeType actual = nativeType expected -> same_type actual expected.
Proof.
  intros Heq. destruct (nativeType_erased actual) as (plain1 & ? & ?), (nativeType_erased expected) as (plain2 & ? & ?).
  exists plain1, plain2, (nativeType expected). rewrite Heq in *. done.
Qed.

Lemma xinfo_columns_rows parts columns_ :
  xinfo_columns parts = Some columns_ -> parts = map (fun c => (Some c, "0", "BINARY")) columns_.
Proof.
  revert columns_. induction parts as [|[[[name|] kind] collated] parts IH]; intros columns_ Hparts; [by injection Hparts as <-| |done].
  cbn [xinfo_columns] in Hparts. assert (kind = "0" /\ collated = "BINARY" /\ cons name <$> xinfo_columns parts = Some columns_) as (-> & -> & Hrest)
    by (repeat case_match; done).
  apply fmap_Some in Hrest as (rest & Hrest & ->). cbn [map]. f_equal. by apply IH.
Qed.

Lemma part_columns_agree unique_ parts columns_ : part_columns unique_ parts = Some columns_ -> index_agrees parts columns_ unique_.
Proof.
  revert columns_. induction parts as [|part parts IH]; intros columns_; cbn [part_columns].
  - intros [= <-]. split; [done|]. by intros ? ?%not_elem_of_nil.
  - destruct (part_name part) as [name|] eqn:Hname; [|done]. destruct (_ && _) eqn:Hpart; [|done].
    intros (rest & [Hnames Hall]%IH & ->)%fmap_Some. bool_to_prop. split; [cbn; by rewrite Hname, Hnames|].
    intros p [->|Hp]%elem_of_cons; [|by apply Hall]. split_and!; [|done..].
    match goal with He : Bool.eqb _ _ = true |- _ => apply eqb_prop in He; rewrite <- He end. by rewrite bool_decide_eq_true.
Qed.
End names.

Section rows.
Context (b : BackendType).

Lemma rule_name_same actual expected : rule_name b actual = rule_name b expected -> same_action b actual expected.
Proof.
  unfold rule_name, postgres, same_action. case_bool_decide as Hb; cbn [negb andb]; [by left|].
  repeat case_bool_decide; intros Heq; subst; try (by left); right; (split; [done|]); set_solver.
Qed.

Lemma known_constraint_managed source constraint_ type :
  known_constraint b source constraint_ type = true -> managed_constraint b source constraint_ type.
Proof.
  unfold known_constraint, managed_constraint, postgres. rewrite !orb_true_iff, !andb_true_iff, !orb_true_iff, !andb_true_iff, !negb_true_iff, !bool_decide_eq_true, !bool_decide_eq_false.
  intros [[[H|[Ht Hk]]|H]|[[Hb Ht] Hi]]; [tauto| |tauto|].
  - destruct (find_by fk_name constraint_ (Schema.foreignKeys source)) as [key|] eqn:Hkey; [|done]. apply find_by_Some in Hkey.
    right; left. split; [done|]. by exists key.
  - destruct (find_by index_name constraint_ (indexes source)) as [index|] eqn:Hindex; [|done]. apply find_by_Some in Hindex as [? ?].
    do 3 right. split; [done|]. split; [done|]. by exists index.
Qed.

Lemma known_index_managed source index columns_ unique_ :
  known_index b source index = true -> expected_index source index = Some (columns_, unique_) -> managed_index b source index columns_ unique_.
Proof.
  unfold known_index, expected_index, managed_index, postgres. intros Hknown.
  destruct (bool_decide (index = primaryKeyName source) || bool_decide (index = "PRIMARY")) eqn:Hprimary.
  - intros [= <- <-]. left. split; [|done]. apply orb_true_iff in Hprimary as [?%bool_decide_eq_true|Hp%bool_decide_eq_true]; [by left|].
    rewrite !orb_true_iff, andb_true_iff, negb_true_iff, bool_decide_eq_false in Hknown.
    destruct Hknown as [[Hn%bool_decide_eq_true|[Hb _]]|Hm]; [by left|right; by split; [|left]|].
    right. split; [done|]. right. destruct (find_by index_name index (indexes source)) as [m|] eqn:Hfind; [|done].
    apply find_by_Some in Hfind as [Hin <-]. by apply list_elem_of_In, in_map, list_elem_of_In.
  - intros (m & Hm & [= -> ->])%fmap_Some. right. apply find_by_Some in Hm as [? ?]. by exists m.
Qed.

Lemma managed_inbound_agrees source touched schema name key :
  managed_inbound source touched schema name key = true -> inbound_agrees source touched schema name key.
Proof.
  destruct key as [[owner_schema ownerName] constraintName]. unfold managed_inbound, inbound_agrees. cbn [fst snd].
  rewrite andb_true_iff. intros [->%bool_decide_eq_true Hkey]. split; [done|].
  destruct (find_by table_name ownerName (tables source)) as [owner|] eqn:Howner; [|done]. apply find_by_Some in Howner as [Hin Hname].
  apply andb_true_iff in Hkey as [?%bool_decide_eq_true (k & Hk & Hsame)%existsb_exists]. split; [done|]. exists owner. split; [done|]. split; [done|].
  exists k. rewrite list_elem_of_In. bool_to_prop. done.
Qed.

Lemma column_differs_agrees row c :
  col_name c = cell_name row -> unmanaged_default b row c = false -> column_differs b row c = false -> column_agrees b row c.
Proof.
  intros Hname Hdefault Hdiff. unfold column_differs in Hdiff.
  repeat match type of Hdiff with _ || _ = false => apply orb_false_iff in Hdiff as [Hdiff ?] end.
  unfold actualIdentity, postgres, expectedCollation in *.
  split_and!; [done| | | | | | | |].
  - apply nativeType_same. by bool_to_prop.
  - match goal with H : negb (Bool.eqb (bool_decide (cell_nullable row = "YES")) _) = false |- _ =>
      apply negb_false_iff, eqb_prop in H; rewrite <- H end. by rewrite bool_decide_eq_true.
  - intros Ht. match goal with H : preciseTemporal _ && _ = false |- _ => rename H into Hp end.
    assert (preciseTemporal (logicalType c) = true) as Hprecise.
    { rewrite !elem_of_cons in Ht. by destruct Ht as [->|[->|[->|Ht%not_elem_of_nil]]]. }
    rewrite Hprecise in Hp. cbn [andb] in Hp. by bool_to_prop.
  - intros length_ Hlength. rewrite Hlength in *. destruct (cell_length row) as [actual|]; [|done]. exists actual. split; [done|].
    match goal with H : negb (_ =? _)%Z = false |- _ => by apply negb_false_iff, Z.eqb_eq in H end.
  - by bool_to_prop.
  - intros Hb. rewrite (bool_decide_true (b = Postgres)) in * by done. cbn [negb andb orb] in *.
    match goal with H : negb (Bool.eqb (bool_decide (cell_identity row = "YES")) _) = false |- _ =>
      apply negb_false_iff, eqb_prop in H; rename H into Hidentity end.
    split_and!; [by rewrite <- Hidentity, bool_decide_eq_true| |by destruct (cell_collation row)].
    intros Hauto. rewrite Hidentity, Hauto in *. cbn [andb] in *. by bool_to_prop.
  - intros Hb. rewrite (bool_decide_false (b = Postgres)) in * by done. cbn [negb andb orb] in *. split; [by bool_to_prop|].
    destruct (cell_collation row) as [actual|]; [right|by left]. by bool_to_prop; subst.
  - intros text Htext. unfold unmanaged_default in Hdefault. rewrite Htext in Hdefault.
    apply andb_false_iff in Hdefault as [Ha|Hm]; [left; by apply negb_false_iff|right].
    apply negb_false_iff in Hm. bool_to_prop. done.
Qed.
End rows.

(** *** The check is sound *)
Section soundness.
Context `{Introspection} (b : BackendType).
Abbreviation tables := (Tables Objects).

Lemma missing_indexes_reads source seen : reads (missing_indexes source seen) (fun _ _ => same_indexes source seen).
Proof.
  eapply reads_mono; [apply (reads_each (R := fun index _ => index_name index ∈ seen))|].
  - intros index. eapply reads_mono; [apply reads_fails_if|]. intros t [] Hc. by bool_to_prop.
  - intros t [] Hall m Hm. rewrite Forall_forall in Hall. by apply Hall.
Qed.

Lemma sqlite_index_reads source name i :
  reads (sqlite_index source name i) (fun t _ => exists m, m ∈ indexes source /\ index_name m = i /\
    index_xinfo i (objects t) = map (fun c => (Some c, "0", "BINARY")) (index_columns m) /\
    exists unique_, default (0, 0)%Z (index_flags name i (objects t)) = (unique_, 0%Z) /\ (unique_ <> 0%Z <-> unique m = true)).
Proof.
  intros s Q Herr Hok. unfold sqlite_index.
  destruct (find_by index_name i (indexes source)) as [m|] eqn:Hm; [|fail_step].
  apply find_by_Some in Hm as [Hin Hname].
  read_step (reads_query (index_flags name i)). intros flags ->.
  destruct (default (0, 0)%Z (index_flags name i (objects (current s)))) as [unique_ partial] eqn:Hflags.
  read_step (reads_query (index_xinfo i)). intros parts ->.
  destruct (xinfo_columns (index_xinfo i (objects (current s)))) as [columns_|] eqn:Hx; [|fail_step].
  apply xinfo_columns_rows in Hx. apply reads_fails_if; [done|]. intros [] Hc. bool_to_prop. apply Hok. exists m.
  subst. split_and!; [done..|]. eexists. split; [done|].
  apply eqb_prop in H3. rewrite <- H3, negb_true_iff, Z.eqb_neq. done.
Qed.

Lemma sqlite_table_reads source name :
  reads (sqlite_table b source name) (fun t _ => sqlite_agrees b source name (objects t)).
Proof.
  intros s Q Herr Hok. unfold sqlite_table.
  read_step (reads_query (table_sql name)). intros ddl ->.
  read_step (reads_lift (renderCreateTable b source true false)). intros expected Hexp.
  read_step (reads_fails_if (match table_sql name (objects (current s)) with
     | Some sql => negb (bool_decide (sqliteDefinitions sql = sqliteDefinitions expected)) | None => true end)
     ("Source table differs from its snapshot: " +:+ name)). intros [] Hddl.
  read_step (reads_query (index_names_of name)). intros names ->.
  read_step (reads_each (sqlite_index_reads source name) (index_names_of name (objects (current s)))). intros [] Hall.
  apply missing_indexes_reads; [done|]. intros [] Hmissing. apply Hok. split; [|split; [done|by apply Forall_forall]].
  destruct (table_sql name (objects (current s))) as [sql|]; [|done]. bool_to_prop. exists sql, expected.
  split_and!; [done..|]. by apply sqliteDefinitions_same.
Qed.

Lemma native_column_reads source name row :
  reads (native_column b source name row) (fun _ _ => exists c, c ∈ columns source /\ column_agrees b row c).
Proof.
  intros s Q Herr Hok. unfold native_column.
  destruct (find_by col_name (cell_name row) (columns source)) as [c|] eqn:Hc; [|fail_step].
  apply find_by_Some in Hc as [Hin Hname].
  read_step (reads_fails_if (unmanaged_default b row c)
    ("Unmanaged column or default blocks this migration: " +:+ name +:+ "." +:+ cell_name row)). intros [] Hdefault.
  apply reads_fails_if; [done|]. intros [] Hdiff. apply Hok. exists c. split; [done|]. by apply column_differs_agrees.
Qed.

(** Distinct rows, as many as there are columns, are rows of all columns. *)
Lemma all_columns source rows :
  (forall row, row ∈ rows -> exists c, c ∈ columns source /\ column_agrees b row c) ->
  length (remove_dups (map cell_name rows)) = length (columns source) -> columns_agree b source rows.
Proof.
  intros Hrows Hlen. split; [done|]. intros Hnd c Hc.
  assert (remove_dups (map cell_name rows) ⊆ map col_name (columns source)) as Hsub.
  { intros n (row & Hn & Hrow)%elem_of_remove_dups%list_elem_of_In%in_map_iff. apply list_elem_of_In in Hrow.
    destruct (Hrows row Hrow) as (c' & Hc' & Hname & _). rewrite <- Hn, <- Hname. by apply list_elem_of_fmap_2. }
  assert (col_name c ∈ map cell_name rows) as (row & Hn & Hrow)%list_elem_of_In%in_map_iff.
  { apply elem_of_remove_dups. 
    assert (remove_dups (map cell_name rows) ≡ₚ map col_name (columns source)) as ->; [|by apply list_elem_of_fmap_2].
    apply submseteq_length_Permutation; [|rewrite length_map; lia]. apply NoDup_submseteq; [apply NoDup_remove_dups|exact Hsub]. }
  apply list_elem_of_In in Hrow. exists row. split; [done|]. destruct (Hrows row Hrow) as (c' & Hc' & Hag).
  enough (c' = c) as -> by done. pose proof Hag as [Hname _].
  pose proof (find_by_NoDup col_name _ _ Hnd Hc) as H1. pose proof (find_by_NoDup col_name _ _ Hnd Hc') as H2. congruence.
Qed.

Lemma native_columns_reads source name :
  reads (native_columns b source name) (fun t _ => columns_agree b source (columns_of name (objects t))).
Proof.
  intros s Q Herr Hok. unfold native_columns. read_step (reads_query (columns_of name)). intros rows ->.
  read_step (reads_each (native_column_reads source name) (columns_of name (objects (current s)))). intros [] Hall.
  apply reads_fails_if; [done|]. intros [] Hlen. apply Hok. apply all_columns; [by apply Forall_forall|].
  by apply negb_false_iff, Nat.eqb_eq in Hlen.
Qed.

Lemma native_constraints_reads source name :
  reads (native_constraints b source name) (fun t _ => forall constraint_ type standard,
    (constraint_, type, standard) ∈ constraints_of name (objects t) -> standard = "standard" /\ managed_constraint b source constraint_ type).
Proof.
  intros s Q Herr Hok. unfold native_constraints. read_step (reads_query (constraints_of name)). intros rows ->.
  eapply (reads_each (R := fun c _ => c.2 = "standard" /\ managed_constraint b source c.1.1 c.1.2)); [|done|].
  - intros [[constraint_ type] standard] s' Q' Herr' Hok'.
    read_step (reads_fails_if (negb (bool_decide (standard = "standard")))
      ("Source constraint options differ from its snapshot: " +:+ name +:+ "." +:+ constraint_)). intros [] Hstandard.
    apply reads_fails_if; [done|]. intros [] Hk%negb_false_iff%known_constraint_managed. apply Hok'. by bool_to_prop.
  - intros [] Hall. apply Hok. rewrite Forall_forall in Hall. intros constraint_ type standard Hrow.
    exact (Hall (constraint_, type, standard) Hrow).
Qed.

Lemma native_primary_reads source name :
  reads (native_primary b source name) (fun t _ => primaryKey source <> [] ->
    key_columns name (if bool_decide (b = Postgres) then primaryKeyName source else "PRIMARY") (objects t) = primaryKey source).
Proof.
  intros s Q Herr Hok. unfold native_primary. destruct (bool_decide (primaryKey source = [])) eqn:Hp.
  - wp_step. apply Hok. intros Hne. by apply bool_decide_eq_true in Hp.
  - read_step (reads_query (key_columns name (if postgres b then primaryKeyName source else "PRIMARY"))). intros actual ->.
    apply reads_fails_if; [done|]. intros [] Hc. apply Hok. intros _. by bool_to_prop.
Qed.

Lemma key_parts_reads key schema cols targets parts :
  reads (key_parts key schema cols targets parts) (fun _ _ =>
    map part_column parts = cols /\ map part_target parts = take (length parts) targets /\
    forall part, part ∈ parts -> part_table part = targetTable key /\ part_schema part = schema).
Proof.
  revert cols targets. induction parts as [|part parts IH]; intros cols targets s Q Herr Hok; cbn [key_parts].
  - apply reads_fails_if; [done|]. intros [] Hc. apply Hok. bool_to_prop. subst. split_and!; [done|done|].
    by intros part ?%not_elem_of_nil.
  - cbv zeta. destruct cols as [|column cols], targets as [|target targets]; try fail_step.
    destruct (bool_decide (part_column part = column) && bool_decide (part_table part = targetTable key)
      && bool_decide (part_target part = target) && bool_decide (part_schema part = schema)) eqn:Hc; [|fail_step].
    bool_to_prop. apply (IH cols targets); [done|]. intros [] (Hcols & Htargets & Hall). apply Hok. subst.
    cbn. split_and!; [done|by f_equal|]. intros p [->|Hp]%elem_of_cons; [done|by apply Hall].
Qed.

Lemma native_foreign_key_reads name schema key :
  reads (native_foreign_key b name schema key) (fun t _ =>
    key_agrees b schema key (foreign_key_parts name (fk_name key) (objects t)) (foreign_key_rules (fk_name key) (objects t))).
Proof.
  intros s Q Herr Hok. unfold native_foreign_key. read_step (reads_query (foreign_key_parts name (fk_name key))). intros parts ->.
  read_step (key_parts_reads key schema (fk_columns key) (targetColumns key) (foreign_key_parts name (fk_name key) (objects (current s)))).
  intros [] (Hcolumns & Htargets & Hparts). read_step (reads_query (foreign_key_rules (fk_name key))). intros rules ->.
  destruct (default ("", "") (foreign_key_rules (fk_name key) (objects (current s)))) as [deleteRule updateRule] eqn:Hrules.
  apply reads_fails_if; [done|]. intros [] Hactions. apply Hok. unfold key_agrees. rewrite Hrules. bool_to_prop.
  split_and!; [done..| |]; by apply rule_name_same.
Qed.

Lemma native_index_reads source name i :
  reads (native_index b source name i) (fun t _ => exists columns_ unique_,
    managed_index b source i columns_ unique_ /\ index_agrees (index_parts name i (objects t)) columns_ unique_).
Proof.
  intros s Q Herr Hok. unfold native_index. destruct (known_index b source i) eqn:Hknown; [|fail_step].
  read_step (reads_lift (or_throw (expected_index source i) OutOfRange)). intros [columns_ unique_] He%or_throw_Ok_iff.
  read_step (reads_query (index_parts name i)). intros parts ->.
  destruct (part_columns unique_ (index_parts name i (objects (current s)))) as [actual|] eqn:Ha; [|fail_step].
  apply reads_fails_if; [done|]. intros [] Hc. apply Hok. bool_to_prop. subst. exists columns_, unique_.
  split; [by apply known_index_managed|by apply part_columns_agree].
Qed.

Lemma table_options_reads name : reads (table_options b name) (fun t _ =>
  b <> Postgres -> engine_of name (objects t) = Some ("InnoDB", collation b, "")).
Proof.
  intros s Q Herr Hok. unfold table_options, postgres. destruct (decide (b = Postgres)) as [Hb|Hb].
  - rewrite bool_decide_true by done. wp_step. by apply Hok.
  - rewrite bool_decide_false by done. read_step (reads_query (engine_of name)). intros row ->.
    destruct (engine_of name (objects (current s))) as [[[engine actual] options_]|] ; cbn [default from_option id];
      (apply reads_fails_if; [done|]; intros [] Hsame; bool_to_prop); [|done].
    apply Hok. intros _. by subst.
Qed.

Lemma native_table_reads source name schema :
  reads (native_table b source name schema) (fun t _ => native_agrees b source name schema (objects t)).
Proof.
  intros s Q Herr Hok. unfold native_table.
  read_step (table_options_reads name). intros [] Hoptions.
  read_step (native_columns_reads source name). intros [] Hcols.
  read_step (reads_query (triggers_of name)). intros triggers ->.
  read_step (reads_fails_if (negb (triggers_of name (objects (current s)) =? 0)%Z) ("Unmanaged trigger blocks this migration: " +:+ name)).
  intros [] Ht.
  read_step (native_constraints_reads source name). intros [] Hcons.
  read_step (native_primary_reads source name). intros [] Hprimary.
  read_step (reads_each (native_foreign_key_reads name schema) (Schema.foreignKeys source)). intros [] Hkeys.
  read_step (reads_query (native_indexes name)). intros names ->.
  read_step (reads_each (native_index_reads source name) (native_indexes name (objects (current s)))). intros [] Hindexes.
  read_step (missing_indexes_reads source (native_indexes name (objects (current s)))). intros [] Hmissing.
  read_step (reads_query (views_on name)). intros views ->.
  apply reads_fails_if; [done|]. intros [] Hv. apply Hok. rewrite Forall_forall in Hkeys. rewrite Forall_forall in Hindexes.
  bool_to_prop. by split_and!.
Qed.

Lemma schema_preflight_reads :
  reads (schema_preflight b) (fun t schema => b <> Sqlite -> schema = current_schema (objects t) /\ reserved_objects (objects t) = 0%Z).
Proof.
  intros s Q Herr Hok. unfold schema_preflight. destruct (bool_decide (b = Sqlite)) eqn:Hb.
  - wp_step. apply Hok. intros Hne. by apply bool_decide_eq_true in Hb.
  - read_step (reads_query current_schema). intros schema ->. read_step (reads_query reserved_objects). intros n ->.
    read_step (reads_fails_if (negb (reserved_objects (objects (current s)) =? 0)%Z)
      "Reserved migration staging objects already exist in the database"). intros [] Hn.
    wp_step. apply Hok. intros _. bool_to_prop. done.
Qed.

Lemma inbound_reads source touched schema name :
  reads (inbound source touched schema name) (fun t _ =>
    forall key, key ∈ inbound_keys name (objects t) -> inbound_agrees source touched schema name key).
Proof.
  intros s Q Herr Hok. unfold inbound. read_step (reads_query (inbound_keys name)). intros keys ->.
  eapply (reads_each (R := fun key _ => inbound_agrees source touched schema name key)); [|done|].
  - intros key. eapply reads_mono; [apply reads_fails_if|]. intros t [] Hk%negb_false_iff. by apply managed_inbound_agrees.
  - intros [] Hall. apply Hok. by apply Forall_forall.
Qed.

(** What no rebuild may find: views, triggers, tables outside the snapshot that refer
    to a touched one, objects with a staging name. *)
Definition rebuild_safe (source : PhysicalSchema) (context : MigrationExecutionContext) (o : Objects) : Prop :=
  triggers_and_views o = 0%Z /\
  (forall owner key, owner ∈ table_names o -> find_by table_name owner (Schema.tables source) = None ->
     key ∈ references_of owner o -> key ∉ ctx_tables context) /\
  (forall mapping, mapping ∈ rebuildTables context -> objects_named (rb_staging mapping) o = 0%Z).

Lemma rebuild_preflight_reads source context :
  reads (rebuild_preflight source context) (fun t _ => rebuild_safe source context (objects t)).
Proof.
  intros s Q Herr Hok. unfold rebuild_preflight.
  read_step (reads_query triggers_and_views). intros count ->.
  read_step (reads_fails_if (negb (triggers_and_views (objects (current s)) =? 0)%Z)
    "SQLite rebuild requires explicit handling of unmanaged triggers and views"). intros [] Hcount.
  read_step (reads_query table_names). intros owners ->.
  wp_step. eapply (reads_each (R := fun owner t => find_by table_name owner (Schema.tables source) = None ->
    forall key, key ∈ references_of owner (objects t) -> key ∉ ctx_tables context)); [|done|].
  { intros owner s' Q' Herr' Hok'. destruct (find_by table_name owner (Schema.tables source)) as [t|]; cbn [is_some].
    - wp_step. by apply Hok'.
    - read_step (reads_query (references_of owner)). intros keys ->.
      eapply (reads_each (R := fun key _ => key ∉ ctx_tables context)); [|done|].
      + intros key. eapply reads_mono; [apply reads_fails_if|]. intros t [] Hk. by bool_to_prop.
      + intros [] Hall. apply Hok'. intros _. by apply Forall_forall. }
  intros [] Howners. eapply (reads_each (R := fun mapping t => objects_named (rb_staging mapping) (objects t) = 0%Z)); [|done|].
  { intros mapping s' Q' Herr' Hok'. read_step (reads_query (objects_named (rb_staging mapping))). intros n ->.
    apply reads_fails_if; [done|]. intros [] Hn. apply Hok'. by bool_to_prop. }
  intros [] Hstaging. apply Hok. rewrite Forall_forall in Howners. rewrite Forall_forall in Hstaging.
  bool_to_prop. split_and!; [done| |done]. intros owner key Ho Hnone Hk. by apply (Howners owner).
Qed.
End soundness.

(** What [contextPreflight] has found out when it returns. *)
Definition drift_free `{Introspection} (b : BackendType) (context : MigrationExecutionContext) (o : Objects) : Prop :=
  forall source, ctx_source context = Some source ->
    (forall name, name ∈ ctx_tables context -> exists table,
       table ∈ tables source /\ table_name table = name /\
       if decide (b = Sqlite) then sqlite_agrees b table name o
       else native_agrees b table name (current_schema o) o /\
            forall key, key ∈ inbound_keys name o ->
              inbound_agrees source (ctx_tables context) (current_schema o) name key) /\
    (b <> Sqlite -> reserved_objects o = 0%Z) /\
    (b = Sqlite -> mode context = SqliteRebuild -> rebuild_safe source context o).

Lemma contextPreflight_reads `{Introspection} b context :
  reads (contextPreflight b context) (fun t _ => drift_free b context (objects t)).
Proof.
  intros s Q Herr Hok. unfold contextPreflight, drift_free in *.
  destruct (ctx_source context) as [source|]; [|wp_step; by apply Hok].
  read_step (schema_preflight_reads b). intros schema Hschema.
  wp_step. eapply (reads_each (R := fun name t => exists table, table ∈ tables source /\ table_name table = name /\
      if decide (b = Sqlite) then sqlite_agrees b table name (objects t)
      else native_agrees b table name schema (objects t))); [|done|].
  { intros name s' Q' Herr' Hok'. read_step (reads_lift (or_throw (find_by table_name name (tables source)) OutOfRange)).
    intros table [Hin Hname]%or_throw_Ok_iff%find_by_Some. destruct (decide (b = Sqlite)) as [Hb|Hb].
    - rewrite bool_decide_true by done. apply sqlite_table_reads; [done|]. intros [] Hag. apply Hok'. by exists table.
    - rewrite bool_decide_false by done. apply native_table_reads; [done|]. intros [] Hag. apply Hok'. by exists table. }
  intros [] Htables. rewrite Forall_forall in Htables. destruct (decide (b = Sqlite)) as [Hb|Hb].
  - rewrite (bool_decide_true (b = Sqlite)) by done. do 2 wp_step. cbn [andb].
    destruct (bool_decide (mode context = SqliteRebuild)) eqn:Hmode.
    + apply rebuild_preflight_reads; [done|]. intros [] Hsafe. apply Hok. intros p [= <-]. by split_and!.
    + wp_step. apply Hok. intros p [= <-]. split_and!; [done|done|]. intros _ Hm. by apply bool_decide_eq_false in Hmode.
  - rewrite (bool_decide_false (b = Sqlite)) by done. destruct (Hschema Hb) as [-> Hreserved]. cbn [andb].
    read_step (reads_each (inbound_reads source (ctx_tables context) (current_schema (objects (current s)))) (ctx_tables context)).
    intros [] Hin. rewrite Forall_forall in Hin. wp_step. apply Hok. intros p [= <-]. split_and!; [|done|done].
    intros name Hname. destruct (Htables name Hname) as (table & ? & ? & ?). exists table. split_and!; [done|done|done|by apply Hin].
Qed.

(** C10: The check before a script changes nothing, and when it returns, the database is
    what the source snapshot says wherever the migration touches it, in terms of the
    catalogs' rows alone.  Every touched table is in the snapshot.  On SQLite its
    statement has the snapshot's definitions and options, in whatever order, and its
    indexes are those of the snapshot.  On the others the engine and the collation, the
    columns with types, nullability, precision, length, identity, collation and
    defaults, the primary key, the foreign keys with their targets and actions, and the
    indexes are those of the snapshot; every constraint and index, and every foreign key
    that refers to a touched table, is one of the snapshot; no trigger or view depends
    on the table.  What a SQLite rebuild would drop or collide with is absent. *)
Theorem contextPreflight_sound `{Introspection} b context :
  reads (contextPreflight b context) (fun t _ => drift_free b context (objects t)).
Proof. apply contextPreflight_reads. Qed.
