(* ===== verification/TargetValues.v ===== *)
(** TargetValues: the check after a script that every stored value is one the target
    models can hold, [validateTargetValues] of src/migrations/Runner.cpp, with
    database/ValueLimits.cpp and the capabilities of the backends.

    The values that a query returns are a parameter, the class [StoredValues]; the text
    of each query is modelled. *)
From S2P Require Import Prelude Foundation Chrono Values Codec Schema Sha256 Models PhysicalSql Snapshot Diff SqlValidation Literals SchemaJson Generation Renames Catalog History Session State Protocol Preflight.
Local Open Scope string_scope.

(** ** Limits *)

(** The members of [BackendValueLimits] that dates and times use. *)
Record BackendValueLimits := MkValueLimits {
  minDate : option Date;
  maxDate : option Date;
  minLocalDateTime : option Z;
  maxLocalDateTime : option Z;
  minUtcTimestamp : option Z;
  maxUtcTimestamp : option Z
}.

Definition valueLimits (b : BackendType) : BackendValueLimits :=
  match b with
  | Postgres =>
      MkValueLimits (Some (YMD 1 1 1)) (Some (YMD 9999 12 31))
        (Some (at_midnight 1 1 1)) (Some (at_midnight 9999 12 31 + 24 * us_per_hour - 1)%Z)
        (Some (at_midnight 1 1 1)) (Some (at_midnight 9999 12 31 + 24 * us_per_hour - 1)%Z)
  | Mysql =>
      MkValueLimits (Some (YMD 1000 1 1)) (Some (YMD 9999 12 31))
        (Some (at_midnight 1000 1 1)) (Some (at_midnight 9999 12 31 + 24 * us_per_hour - 500001)%Z)
        (Some us_per_second) (Some (2147483647 * us_per_second + 499999)%Z)
  | Mariadb =>
      MkValueLimits (Some (YMD 1000 1 1)) (Some (YMD 9999 12 31))
        (Some (at_midnight 1000 1 1)) (Some (at_midnight 9999 12 31 + 24 * us_per_hour - 500001 + 500000)%Z)
        (Some us_per_second) (Some (4294967295 * us_per_second + 999999)%Z)
  | _ => MkValueLimits None None None None None None
  end.

(** [BackendRuntimeLimits]: the range of time stamps that the server supports. *)
Record BackendRuntimeLimits := MkRuntimeLimits {
  runtime_minUtcTimestamp : option Z;
  runtime_maxUtcTimestamp : option Z
}.

Definition within (value : Z) (minimum maximum : option Z) : bool :=
  match minimum with Some m => (m <=? value)%Z | None => true end
  && match maximum with Some m => (value <=? m)%Z | None => true end.

(** A stored value of a type that is kept as text. *)
Inductive StoredValue :=
| StoredDate (value : Date)
| StoredTimeOfDay (value : TimeOfDay)
| StoredLocalDateTime (value : LocalDateTime)
| StoredUtcTimestamp (value : UtcTimestamp)
| StoredUuid (value : Uuid.t).

(** Valid dates are ordered as their day counts. *)
Definition isWithinValueLimits (value : StoredValue) (limits : BackendValueLimits) (runtime : BackendRuntimeLimits) : bool :=
  match value with
  | StoredDate d =>
      within (days_from_civil d) (days_from_civil <$> minDate limits) (days_from_civil <$> maxDate limits)
  | StoredLocalDateTime t => within t (minLocalDateTime limits) (maxLocalDateTime limits)
  | StoredUtcTimestamp t =>
      within t (minUtcTimestamp limits) (maxUtcTimestamp limits)
      && within t (runtime_minUtcTimestamp runtime) (runtime_maxUtcTimestamp runtime)
  | StoredTimeOfDay _ | StoredUuid _ => true
  end.

Definition validateNative (value : StoredValue) (b : BackendType) : res unit :=
  match value with
  | StoredDate d => validateNative_Date d b
  | StoredTimeOfDay t => validateNative_TimeOfDay t b
  | StoredLocalDateTime t => validateNative_LocalDateTime t b
  | StoredUtcTimestamp t => validateNative_UtcTimestamp t b
  | StoredUuid u => validateNative_Uuid u b
  end.

(** The parser of a column type; types that are not kept as text have none. *)
Definition parseStored (b : BackendType) (type : ColumnType) (text : string) : option (res StoredValue) :=
  match type with
  | ColumnType.Date => Some (StoredDate <$> parseDate text)
  | ColumnType.TimeOfDay => Some (StoredTimeOfDay <$> parseTimeOfDay text)
  | ColumnType.LocalDateTime => Some (StoredLocalDateTime <$> parseLocalDateTime text)
  | ColumnType.UtcTimestamp =>
      Some (StoredUtcTimestamp <$> parseUtcTimestamp (if bool_decide (b = Postgres) then text else text +:+ "+00:00"))
  | ColumnType.Uuid => Some (StoredUuid <$> Uuid.parse text)
  | _ => None
  end.

(** ** Numbers *)

(** Whether [checkedNumericCast<float>] returns: a finite value in the range of [float]
    that survives the conversion and back. *)
Definition float_cast (value : double) : bool :=
  is_finite value && negb (exceeds_float value) && SFeqb (round_to 53 1024 (to_float value)) value.

(** Whether [checkedNumericCast<double>] returns. *)
Definition double_cast (value : double) : bool := is_finite value.

(** The range of an integer column; [None] when it is not checked that way. *)
Definition value_range (b : BackendType) (type : ColumnType) : option (Z * Z) :=
  match type with
  | ColumnType.Bool => if bool_decide (b = Postgres) then None else Some (0, 1)
  | ColumnType.Char => Some (-128, 127)
  | ColumnType.UnsignedChar => Some (0, 255)
  | ColumnType.Short => Some (-32768, 32767)
  | ColumnType.UnsignedShort => Some (0, 65535)
  | ColumnType.Int => Some (-2147483648, 2147483647)
  | ColumnType.UnsignedInt => Some (0, 4294967295)
  | ColumnType.LongLong => Some (- 2 ^ 63, 2 ^ 63 - 1)
  | ColumnType.UnsignedLongLong => Some (0, if family b then 2 ^ 64 - 1 else 2 ^ 63 - 1)
  | _ => None
  end%Z.

(** ** The check *)
Class StoredValues `{Engine} := {
  (** The result of a [COUNT] query and the rows of a query of texts or numbers. *)
  counted : string -> Objects -> Z;
  texts : string -> Objects -> list string;
  numbers : string -> Objects -> list double;
  (** What the MySQL-family server said of its time stamps when it was connected. *)
  utcTimestampLimit : option Z
}.

Section values.
Context `{StoredValues} (b : BackendType).

Definition runtime_limits : BackendRuntimeLimits :=
  if family b then MkRuntimeLimits (Some us_per_second) utcTimestampLimit else MkRuntimeLimits None None.

Definition select_values (table name : string) : string :=
  "SELECT " +:+ name +:+ " FROM " +:+ table +:+ " WHERE " +:+ name +:+ " IS NOT NULL".

Definition storage_query (table name : string) : string :=
  "SELECT COUNT(*) FROM " +:+ table +:+ " WHERE " +:+ name +:+ " IS NOT NULL AND typeof(" +:+ name
  +:+ ") NOT IN ('integer','real')".

Definition range_query (table name : string) (minimum maximum : Z) : string :=
  let predicate := name +:+ " < " +:+ to_string_Z minimum +:+ " OR " +:+ name +:+ " > " +:+ to_string_Z maximum in
  let predicate := if bool_decide (b = Sqlite) then predicate +:+ " OR typeof(" +:+ name +:+ ") <> 'integer'" else predicate in
  "SELECT COUNT(*) FROM " +:+ table +:+ " WHERE " +:+ name +:+ " IS NOT NULL AND (" +:+ predicate +:+ ")".

Definition outside_domain (table column : string) : string :=
  "Migrated values are outside the target model domain: " +:+ table +:+ "." +:+ column.

(** [checkParsed] of a parsed value; [std::invalid_argument] is caught around it. *)
Definition check_stored (value : res StoredValue) : res unit :=
  v ← value;
  throw_if (negb (isWithinValueLimits v (valueLimits b) runtime_limits))
    (InvalidArgument "Migrated value exceeds the backend domain") ;;
  validateNative v b.

Definition check_text (message : string) (value : res StoredValue) : M unit :=
  match check_stored value with
  | Ok tt => mret tt
  | Err (InvalidArgument _) => schemaFailure message
  | Err e => throw (Exception e)
  end.

Definition floating (type : ColumnType) : bool :=
  match type with ColumnType.Float | ColumnType.Double => true | _ => false end.

Definition check_floating (table : PhysicalTable) (column : PhysicalColumn) (quoted name : string) : M unit :=
  (if bool_decide (b = Sqlite) then
     invalid ← query (counted (storage_query quoted name));
     fails_if (negb (invalid =? 0)%Z) "Migrated floating values have incompatible storage"
   else mret tt) ;;
  values ← query (numbers (select_values quoted name));
  each values (fun value =>
    fails_if (negb (if bool_decide (logicalType column = ColumnType.Float) then float_cast value else double_cast value))
      ("Migrated floating values are outside the target model domain: " +:+ table_name table +:+ "." +:+ col_name column)).

Definition check_range (table : PhysicalTable) (column : PhysicalColumn) (quoted name : string) (range : Z * Z) : M unit :=
  invalid ← query (counted (range_query quoted name range.1 range.2));
  fails_if (negb (invalid =? 0)%Z) (outside_domain (table_name table) (col_name column)).

Definition check_column (table : PhysicalTable) (column : PhysicalColumn) : M unit :=
  name ← lift (quoteIdentifier b (col_name column));
  match value_range b (logicalType column) with
  | Some range =>
      quoted ← lift (quoteIdentifier b (table_name table));
      check_range table column quoted name range
  | None =>
      if floating (logicalType column) then
        quoted ← lift (quoteIdentifier b (table_name table));
        check_floating table column quoted name
      else match parseStored b (logicalType column) "" with
           | None => mret tt
           | Some _ =>
               quoted ← lift (quoteIdentifier b (table_name table));
               values ← query (texts (select_values quoted name));
               each values (fun text =>
                 match parseStored b (logicalType column) text with
                 | Some value => check_text (outside_domain (table_name table) (col_name column)) value
                 | None => mret tt
                 end)
           end
  end.

Definition validateTargetValues (context : MigrationExecutionContext) : M unit :=
  match ctx_target context with
  | None => mret tt
  | Some target => each (tables target) (fun table => each (columns table) (check_column table))
  end.
End values.

(** ** Properties *)
Section soundness.
Context `{StoredValues} (b : BackendType).
Abbreviation tables := (Tables Objects).

(** A text that is a value of the type in the domain of the backend. *)
Definition text_fits (type : ColumnType) (text : string) : Prop :=
  exists v, parseStored b type text = Some (Ok v) /\ isWithinValueLimits v (valueLimits b) (runtime_limits b) = true /\
    validateNative v b = Ok tt.

(** What the queries on a column find. *)
Definition column_found (table : PhysicalTable) (column : PhysicalColumn) (o : Objects) : Prop :=
  exists name, quoteIdentifier b (col_name column) = Ok name /\
  let type := logicalType column in
  match value_range b type with
  | Some range => exists quoted, quoteIdentifier b (table_name table) = Ok quoted /\
      counted (range_query b quoted name range.1 range.2) o = 0%Z
  | None =>
      if floating type then exists quoted, quoteIdentifier b (table_name table) = Ok quoted /\
        (b = Sqlite -> counted (storage_query quoted name) o = 0%Z) /\
        forall value, value ∈ numbers (select_values quoted name) o ->
          (if bool_decide (type = ColumnType.Float) then float_cast value else double_cast value) = true
      else match parseStored b type "" with
           | None => True
           | Some _ => exists quoted, quoteIdentifier b (table_name table) = Ok quoted /\
               forall text, text ∈ texts (select_values quoted name) o -> text_fits type text
           end
  end.

Lemma check_text_reads message value :
  reads (check_text b message value) (fun _ _ => check_stored b value = Ok tt).
Proof.
  intros s Q Herr Hok. unfold check_text. destruct (check_stored b value) as [[]|e]; [wp_step; by apply Hok|].
  destruct e; first [fail_step | wp_step; by apply Herr].
Qed.

Lemma check_range_reads table column quoted name range :
  reads (check_range b table column quoted name range) (fun t _ =>
    counted (range_query b quoted name range.1 range.2) (objects t) = 0%Z).
Proof.
  intros s Q Herr Hok. unfold check_range. read_step (reads_query (counted (range_query b quoted name range.1 range.2))).
  intros n ->. apply reads_fails_if; [done|]. intros [] Hc. apply Hok. by bool_to_prop.
Qed.

Lemma check_floating_reads table column quoted name :
  reads (check_floating b table column quoted name) (fun t _ =>
    (b = Sqlite -> counted (storage_query quoted name) (objects t) = 0%Z) /\
    forall value, value ∈ numbers (select_values quoted name) (objects t) ->
      (if bool_decide (logicalType column = ColumnType.Float) then float_cast value else double_cast value) = true).
Proof.
  intros s Q Herr Hok. unfold check_floating. wp_step.
  assert ((b = Sqlite -> counted (storage_query quoted name) (objects (current s)) = 0%Z) ->
     wp (values ← query (numbers (select_values quoted name));
     each values (fun value =>
       fails_if (negb (if bool_decide (logicalType column = ColumnType.Float) then float_cast value else double_cast value))
         ("Migrated floating values are outside the target model domain: " +:+ table_name table +:+ "." +:+ col_name column))) Q s) as Hrest.
  { intros Hstorage. read_step (reads_query (numbers (select_values quoted name))). intros values ->.
    eapply (reads_each (R := fun value _ =>
      (if bool_decide (logicalType column = ColumnType.Float) then float_cast value else double_cast value) = true)); [|done|].
    - intros value. eapply reads_mono; [apply reads_fails_if|]. intros t [] Hc. by apply negb_false_iff in Hc.
    - intros [] Hall. apply Hok. split; [done|]. by apply Forall_forall. }
  destruct (bool_decide (b = Sqlite)) eqn:Hb; [|wp_step; apply Hrest; intros Hb'; by apply bool_decide_eq_false in Hb].
  read_step (reads_query (counted (storage_query quoted name))). intros n ->.
  apply reads_fails_if; [done|]. intros [] Hn. apply Hrest. intros _. by bool_to_prop.
Qed.

Lemma check_column_reads table column :
  reads (check_column b table column) (fun t _ => column_found table column (objects t)).
Proof.
  intros s Q Herr Hok. unfold check_column, column_found in *.
  read_step (reads_lift (quoteIdentifier b (col_name column))). intros name Hname.
  destruct (value_range b (logicalType column)) as [range|] eqn:Hrange.
  - read_step (reads_lift (quoteIdentifier b (table_name table))). intros quoted Hquoted.
    apply check_range_reads; [done|]. intros [] Hc. apply Hok. exists name. split; [done|]. by exists quoted.
  - destruct (floating (logicalType column)) eqn:Hfloat.
    + read_step (reads_lift (quoteIdentifier b (table_name table))). intros quoted Hquoted.
      apply check_floating_reads; [done|]. intros [] Hall. apply Hok. exists name. split; [done|]. by exists quoted.
    + destruct (parseStored b (logicalType column) "") as [p|] eqn:Hp; [|wp_step; apply Hok; by exists name].
      read_step (reads_lift (quoteIdentifier b (table_name table))). intros quoted Hquoted.
      read_step (reads_query (texts (select_values quoted name))). intros values ->.
      eapply (reads_each (R := fun text _ => text_fits (logicalType column) text)); [|done|].
      { intros text s' Q' Herr' Hok'. destruct (parseStored b (logicalType column) text) as [v|] eqn:Hv.
        - apply check_text_reads; [done|]. intros [] (x & -> & (Hw & Hn)%seq_Ok_iff)%bind_Ok_iff. apply Hok'.
          apply throw_if_Ok_iff, negb_false_iff in Hw. by exists x.
        - by destruct (logicalType column). }
      intros [] Hall. apply Hok. exists name. split; [done|]. exists quoted. split; [done|].
      intros text Ht. rewrite Forall_forall in Hall. by apply Hall.
Qed.

Lemma validateTargetValues_reads context :
  reads (validateTargetValues b context) (fun t _ =>
    forall target table column, ctx_target context = Some target -> table ∈ Schema.tables target ->
      column ∈ columns table -> column_found table column (objects t)).
Proof.
  intros s Q Herr Hok. unfold validateTargetValues. destruct (ctx_target context) as [target|]; [|wp_step; by apply Hok].
  eapply (reads_each (R := fun table t => Forall (fun column => column_found table column (objects t)) (columns table))); [|done|].
  - intros table. apply (reads_each (check_column_reads table)).
  - intros [] Hall. apply Hok. intros t table column [= <-] Ht Hc. rewrite Forall_forall in Hall.
    specialize (Hall table Ht). rewrite Forall_forall in Hall. by apply Hall.
Qed.
End soundness.
