(* ===== verification/Floats.v ===== *)
(** Floats: what rounding to [float] and back keeps, for the numbers that are stored in
    columns of that type. *)
From S2P Require Import Prelude Schema Literals.
Local Open Scope Z_scope.

(** A double is a value of the format of [float]: zero, or a significand of at most 24
    bits times a power of two of that format. *)
Definition binary32 (d : double) : Prop :=
  match d with
  | S754_zero _ => True
  | S754_finite _ m e =>
      exists f k, Z.pos m = f * 2 ^ k /\ 0 <= k /\ 0 < f < 2 ^ 24 /\ -149 <= e + k <= 104
  | _ => False
  end.

(** ** Digits *)
Lemma digits2_bounds m : 2 ^ (Z.pos (digits2_pos m) - 1) <= Z.pos m < 2 ^ Z.pos (digits2_pos m).
Proof.
  induction m as [m IH|m IH|]; cbn [digits2_pos]; [| |by cbn];
    rewrite Pos2Z.inj_succ; replace (Z.succ (Z.pos (digits2_pos m)) - 1) with (Z.succ (Z.pos (digits2_pos m) - 1)) by lia;
    rewrite !Z.pow_succ_r by lia; lia.
Qed.

Lemma digits2_unique m n : 2 ^ (n - 1) <= Z.pos m < 2 ^ n -> Z.pos (digits2_pos m) = n.
Proof.
  intros Hn. pose proof (digits2_bounds m) as Hd. set (k := Z.pos (digits2_pos m)) in *.
  assert (0 < n) by (destruct (Z.lt_ge_cases 0 n); [done|]; rewrite (Z.pow_neg_r 2 (n - 1)) in Hn by lia;
    destruct (decide (n = 0)) as [->|]; [cbn in Hn; lia|rewrite Z.pow_neg_r in Hn by lia; lia]).
  assert (n - 1 < k) by (apply (Z.pow_lt_mono_r_iff 2); lia). assert (k - 1 < n) by (apply (Z.pow_lt_mono_r_iff 2); lia). lia.
Qed.

Lemma iter_xO d m : Z.pos (Pos.iter xO m d) = Z.pos m * 2 ^ Z.pos d.
Proof.
  induction d as [|d IH] using Pos.peano_ind; [cbn; lia|].
  rewrite Pos.iter_succ, Pos2Z.inj_succ, Z.pow_succ_r by lia. rewrite Pos2Z.inj_xO, IH. lia.
Qed.

(** ** Shifting to the right *)
Lemma shr_1_m r : 0 <= shr_m r -> shr_m (shr_1 r) = shr_m r / 2.
Proof.
  destruct r as [[|[p|p|]|p] ? ?]; cbn [shr_m shr_1]; intros Hm; try done.
  - rewrite Pos2Z.inj_xI. apply Z.div_unique with 1; lia.
  - rewrite Pos2Z.inj_xO. apply Z.div_unique with 0; lia.
Qed.

Lemma iter_pos_iter {A} (f : A -> A) n x : iter_pos f n x = Pos.iter f x n.
Proof.
  revert x. induction n as [n IH|n IH|]; intros x; cbn [iter_pos Pos.iter]; [| |done];
    rewrite !IH, <- ?Pos.iter_swap; done.
Qed.

Lemma shr_iter n r : 0 <= shr_m r -> shr_m (iter_pos shr_1 n r) = shr_m r / 2 ^ Z.pos n.
Proof.
  rewrite iter_pos_iter. intros Hr. induction n as [|n IH] using Pos.peano_ind; [by apply shr_1_m|].
  rewrite Pos.iter_succ, shr_1_m, IH.
  - rewrite Z.div_div by lia. f_equal. rewrite Pos2Z.inj_succ, Z.pow_succ_r; lia.
  - rewrite IH. apply Z.div_pos; lia.
Qed.

Section formats.
Context (prec emax : Z) (Hprec : 0 < prec).

Lemma shr_fexp_exact_m m e l mrs e' :
  0 <= m -> shr_fexp prec emax m e l = (mrs, e') ->
  e' = Z.max e (fexp prec emax (Zdigits2 m + e)) /\ shr_m mrs = m / 2 ^ (e' - e).
Proof.
  intros Hm. unfold shr_fexp. set (n := fexp prec emax (Zdigits2 m + e) - e).
  assert (Hl : shr_m (shr_record_of_loc m l) = m) by (by destruct l as [|[]]).
  destruct n as [|p|p] eqn:Hn; cbn [shr]; intros [= <- <-]; subst n.
  - split; [lia|]. by rewrite Z.sub_diag, Z.div_1_r.
  - split; [lia|]. rewrite shr_iter, Hl by (by rewrite Hl). f_equal. f_equal. lia.
  - split; [lia|]. by rewrite Z.sub_diag, Z.div_1_r.
Qed.

(** What rounding gives fits the format. *)
Lemma shr_fexp_bounds m e l mrs e' :
  0 <= m -> shr_fexp prec emax m e l = (mrs, e') -> emin prec emax <= e' /\ 0 <= shr_m mrs < 2 ^ prec.
Proof.
  intros Hm Hs. apply shr_fexp_exact_m in Hs as [He' Hr]; [|done]. unfold fexp in He'. split; [lia|]. rewrite Hr.
  split; [apply Z.div_pos; [done|]; apply Z.pow_pos_nonneg; lia|]. apply Z.div_lt_upper_bound; [apply Z.pow_pos_nonneg; lia|].
  rewrite <- Z.pow_add_r by lia. destruct m as [|p|p]; [apply Z.pow_pos_nonneg; lia| |lia]. cbn [Zdigits2] in He'.
  pose proof (digits2_bounds p). eapply Z.lt_le_trans; [apply H|]. apply Z.pow_le_mono_r; lia.
Qed.

Lemma binary_round_bounds s m e s' f e' :
  binary_round prec emax s m e = S754_finite s' f e' ->
  s' = s /\ Z.pos f < 2 ^ prec /\ emin prec emax <= e' <= emax - prec.
Proof.
  unfold binary_round, binary_round_aux. destruct (shl_align _ _ _) as [mz ez].
  destruct (shr_fexp prec emax (Z.pos mz) ez loc_Exact) as [mrs e1] eqn:H1.
  set (m1 := round_nearest_even _ _). assert (Hm1 : 0 <= m1).
  { apply shr_fexp_bounds in H1 as (_ & ? & _); [|lia]. subst m1. destruct (loc_of_shr_record mrs) as [|[]]; cbn [round_nearest_even]; try case_match; lia. }
  destruct (shr_fexp prec emax m1 e1 loc_Exact) as [mrs2 e2] eqn:H2. apply shr_fexp_bounds in H2 as (Hmin & Hlow & Hhigh); [|done].
  destruct (shr_m mrs2); [done| |done]. destruct (Z.leb_spec e2 (emax - prec)); [|done]. intros [= <- <- <-]. split; [done|lia].
Qed.

(** A significand of at most [prec] bits is only moved to [prec] bits. *)
Lemma binary_round_exact s f e s' m e' :
  Z.pos f < 2 ^ prec -> emin prec emax <= e - prec + 1 -> e + prec <= emax ->
  binary_round prec emax s f e = S754_finite s' m e' -> Z.pos m = Z.pos f * 2 ^ (e - e') /\ e' <= e.
Proof.
  intros Hf Hmin Hmax. pose proof (digits2_bounds f) as Hd.
  assert (Hdigits : Z.pos (digits2_pos f) <= prec).
  { assert (Z.pos (digits2_pos f) - 1 < prec); [|lia]. apply (Z.pow_lt_mono_r_iff 2); lia. }
  unfold binary_round. set (ez := fexp prec emax (Z.pos (digits2_pos f) + e)).
  assert (Hez : ez = Z.pos (digits2_pos f) + e - prec) by (subst ez; unfold fexp; lia).
  assert (Hshift : exists mz, shl_align f e ez = (mz, ez) /\ Z.pos mz = Z.pos f * 2 ^ (e - ez)).
  { unfold shl_align. destruct (ez - e) as [|p|p] eqn:Hsub; [| lia |].
    - exists f. replace ez with e by lia. by rewrite Z.sub_diag, Z.mul_1_r.
    - eexists. split; [done|]. rewrite iter_xO. f_equal. f_equal. lia. }
  destruct Hshift as (mz & -> & Hmz).
  assert (Hfull : Z.pos (digits2_pos mz) = prec).
  { apply digits2_unique. rewrite Hmz. set (g := prec - Z.pos (digits2_pos f)). replace (e - ez) with g by lia.
    assert (2 ^ prec = 2 ^ Z.pos (digits2_pos f) * 2 ^ g) as -> by (rewrite <- Z.pow_add_r by lia; f_equal; lia).
    assert (2 ^ (prec - 1) = 2 ^ (Z.pos (digits2_pos f) - 1) * 2 ^ g) as -> by (rewrite <- Z.pow_add_r by lia; f_equal; lia).
    assert (0 < 2 ^ g) by (apply Z.pow_pos_nonneg; lia).
    split; [apply Z.mul_le_mono_nonneg_r; lia|apply Z.mul_lt_mono_pos_r; lia]. }
  assert (Hsame : shr_fexp prec emax (Z.pos mz) ez loc_Exact = (Build_shr_record (Z.pos mz) false false, ez)).
  { unfold shr_fexp. cbn [Zdigits2]. replace (fexp prec emax (Z.pos (digits2_pos mz) + ez) - ez) with 0; [done|]. unfold fexp. lia. }
  unfold binary_round_aux. rewrite Hsame. cbn [shr_m loc_of_shr_record round_nearest_even]. rewrite Hsame. cbn [shr_m].
  destruct (Z.leb_spec ez (emax - prec)); [|done]. intros [= <- <- <-]. split; [done|lia].
Qed.
End formats.

Lemma round_to_finite prec emax s m e : round_to prec emax (S754_finite s m e) = binary_round prec emax s m e.
Proof. by destruct s. Qed.

(** A conversion to [float] that loses nothing is of a value of that format. *)
Lemma float_roundtrip_binary32 d :
  is_finite d = true -> SFeqb (round_to 53 1024 (to_float d)) d = true -> binary32 d.
Proof.
  destruct d as [s| | |s m e]; try done. intros _. unfold to_float. rewrite round_to_finite.
  destruct (binary_round 24 128 s m e) as [?|?| |s1 f e1] eqn:H1; try done; [by cbn; repeat case_match|by cbn; repeat case_match|].
  rewrite round_to_finite. destruct (binary_round 53 1024 s1 f e1) as [?|?| |s2 m2 e2] eqn:H2; try done; [by cbn; repeat case_match|by cbn; repeat case_match|].
  apply binary_round_bounds in H1 as (-> & Hf & He1); [|done]. change (emin 24 128) with (-149) in He1. change (128 - 24) with 104 in He1.
  apply binary_round_exact in H2 as [Hm2 He2]; [|done|change (2 ^ 24) with 16777216 in Hf; change (2 ^ 53) with 9007199254740992; lia|change (emin 53 1024) with (-1074); lia|lia].
  intros Heq. assert (m2 = m /\ e2 = e) as [-> ->].
  { unfold SFeqb, SFcompare in Heq. destruct s2, s; try done; destruct (Z.compare_spec e2 e); try done; subst;
      change (Pos.compare_cont Eq m2 m) with (Pos.compare m2 m) in Heq; destruct (Pos.compare_spec m2 m); done. }
  exists (Z.pos f), (e1 - e). split; [done|]. change (2 ^ 24) with 16777216 in *. lia.
Qed.
