(* ===== verification/TargetDomain.v ===== *)
(** TargetDomain: what the check of stored values ([TargetValues]) guarantees of the cells
    of a column, in terms of the values that the target models can hold -- C++ integers,
    [float] and [double], dates, times and UUIDs -- and of what a database answers. *)
From S2P Require Import Prelude Foundation Chrono Values Codec Schema Sha256 Models PhysicalSql Snapshot Diff SqlValidation Literals SchemaJson Generation Renames Catalog History Session State Protocol Preflight TargetValues Floats.
Local Open Scope string_scope.

(** ** Cells *)

(** What a row stores in a column, with SQLite's storage classes; NULL is no cell. *)
Inductive StoredCell := CellInteger (z : Z) | CellReal (d : double) | CellText (s : string) | CellBlob.

Inductive StorageClass := IntegerClass | RealClass | TextClass | BlobClass.

#[export] Instance StorageClass_eq_dec : EqDecision StorageClass.
Proof. solve_decision. Defined.

Definition class_name (c : StorageClass) : string :=
  match c with IntegerClass => "integer" | RealClass => "real" | TextClass => "text" | BlobClass => "blob" end.

Definition typeof (c : StoredCell) : StorageClass :=
  match c with CellInteger _ => IntegerClass | CellReal _ => RealClass | CellText _ => TextClass | CellBlob => BlobClass end.

(** How a database compares a cell with an integer, and what a cell is when it is read as
    a number or as a text; only what is exact is fixed. *)
Class CellReading := {
  less_than : StoredCell -> Z -> bool;
  greater_than : StoredCell -> Z -> bool;
  as_number : StoredCell -> double;
  as_text : StoredCell -> string;
  less_than_integer k z : less_than (CellInteger k) z = (k <? z)%Z;
  greater_than_integer k z : greater_than (CellInteger k) z = (z <? k)%Z;
  as_number_real d : as_number (CellReal d) = d;
  as_text_text s : as_text (CellText s) = s
}.

(** The conditions on a column of the SQL that is sent, with their texts and meanings. *)
Inductive Condition :=
| Below (z : Z)
| Above (z : Z)
| TypeIsNot (type : StorageClass)
| TypeNotIn (types : list StorageClass)
| Either (c1 c2 : Condition)
| Parentheses (c : Condition).

#[export] Instance Condition_eq_dec : EqDecision Condition.
Proof. solve_decision. Defined.

Definition quoted_type (type : StorageClass) : string := "'" +:+ class_name type +:+ "'".

Fixpoint condition_text (name : string) (c : Condition) : string :=
  match c with
  | Below z => name +:+ " < " +:+ to_string_Z z
  | Above z => name +:+ " > " +:+ to_string_Z z
  | TypeIsNot type => "typeof(" +:+ name +:+ ") <> " +:+ quoted_type type
  | TypeNotIn types => "typeof(" +:+ name +:+ ") NOT IN (" +:+ join "," (map quoted_type types) +:+ ")"
  | Either c1 c2 => condition_text name c1 +:+ " OR " +:+ condition_text name c2
  | Parentheses c => "(" +:+ condition_text name c +:+ ")"
  end.

Fixpoint satisfies `{CellReading} (c : Condition) (cell : StoredCell) : bool :=
  match c with
  | Below z => less_than cell z
  | Above z => greater_than cell z
  | TypeIsNot type => negb (bool_decide (typeof cell = type))
  | TypeNotIn types => negb (bool_decide (typeof cell ∈ types))
  | Either c1 c2 => satisfies c1 cell || satisfies c2 cell
  | Parentheses c => satisfies c cell
  end.

(** ** What the target models can hold *)
Section domain.
Context (b : BackendType).

Definition signed (bits z : Z) : Prop := (- 2 ^ (bits - 1) <= z < 2 ^ (bits - 1))%Z.
Definition unsigned (bits z : Z) : Prop := (0 <= z < 2 ^ bits)%Z.

(** An integer of an integer column.  Only SQLite stores anything else there. *)
Definition whole (P : Z -> Prop) (cell : StoredCell) : Prop :=
  match cell with CellInteger z => P z | _ => b <> Sqlite end.

(** A number of a floating column. *)
Definition numeric `{CellReading} (P : double -> Prop) (cell : StoredCell) : Prop :=
  (b = Sqlite -> match cell with CellInteger _ | CellReal _ => True | _ => False end) /\ P (as_number cell).

Definition native_backend : Prop := b = Postgres \/ b = Mysql \/ b = Mariadb.

(** A date of the calendar, as it is printed, of the years the backend has. *)
Definition date_text_fits (s : string) : Prop :=
  native_backend /\
  exists d, valid_Date d = true /\ format_Date d = Ok s /\ ((if bool_decide (b = Postgres) then 1 else 1000) <= year d <= 9999)%Z.

Definition time_text_fits (s : string) : Prop :=
  native_backend /\ exists t, parseTimeOfDay s = Ok t /\ (0 <= sinceMidnight t < 86400 * 1000000)%Z.

(** Microseconds since 1970: the years 1 to 9999, for the MySQL family 1000 to 9999, less
    the last half second for MySQL, which rounds. *)
Definition local_text_fits (s : string) : Prop :=
  exists t, parseLocalDateTime s = Ok t /\
  match b with
  | Postgres => -62135596800000000 <= t <= 253402300799999999
  | Mysql => -30610224000000000 <= t <= 253402300799499999
  | Mariadb => -30610224000000000 <= t <= 253402300799999999
  | _ => False
  end%Z.

(** The same for instants; the MySQL family keeps seconds of 32 bits, and a server may
    have less. *)
Definition instant_text_fits (server_limit : option Z) (s : string) : Prop :=
  exists t, parseUtcTimestamp (if bool_decide (b = Postgres) then s else s +:+ "+00:00") = Ok t /\
  match b with
  | Postgres => -62135596800000000 <= t <= 253402300799999999
  | Mysql => 1000000 <= t <= 2147483647499999 /\ forall limit, server_limit = Some limit -> t <= limit
  | Mariadb => 1000000 <= t <= 4294967295999999 /\ forall limit, server_limit = Some limit -> t <= limit
  | _ => False
  end%Z.

(** MariaDB reorders the bytes of a UUID unless it is of a version from 8 on without the
    bit of a variant. *)
Definition uuid_text_fits (s : string) : Prop :=
  exists u, Uuid.wf u /\ Uuid.toString u = map_char Uuid.lower s /\
  (b = Postgres \/ b = Mariadb /\ (uuid_byte u 6 < 128 \/ 128 <= uuid_byte u 8)%Z).

Definition storable `{CellReading} (server_limit : option Z) (type : ColumnType) (cell : StoredCell) : Prop :=
  match type with
  | ColumnType.Bool => b = Postgres \/ whole (fun z => z = 0 \/ z = 1)%Z cell
  | ColumnType.Char => whole (signed 8) cell
  | ColumnType.UnsignedChar => whole (unsigned 8) cell
  | ColumnType.Short => whole (signed 16) cell
  | ColumnType.UnsignedShort => whole (unsigned 16) cell
  | ColumnType.Int => whole (signed 32) cell
  | ColumnType.UnsignedInt => whole (unsigned 32) cell
  | ColumnType.LongLong => whole (signed 64) cell
  | ColumnType.UnsignedLongLong => whole (if family b then unsigned 64 else unsigned 63) cell
  | ColumnType.Float => numeric binary32 cell
  | ColumnType.Double => numeric (fun d => d <> S754_nan /\ forall sign, d <> S754_infinity sign) cell
  | ColumnType.String => True
  | ColumnType.Date => date_text_fits (as_text cell)
  | ColumnType.TimeOfDay => time_text_fits (as_text cell)
  | ColumnType.LocalDateTime => local_text_fits (as_text cell)
  | ColumnType.UtcTimestamp => instant_text_fits server_limit (as_text cell)
  | ColumnType.Uuid => uuid_text_fits (as_text cell)
  end.
End domain.

(** The ranges of the integer types, by their widths, and the conditions that are asked of
    columns: what is out of such a range, or no integer, and what is no number. *)
Definition integer_ranges : list (Z * Z) :=
  (map (fun bits => (- 2 ^ (bits - 1), 2 ^ (bits - 1) - 1)) [8; 16; 32; 64]
   ++ map (fun bits => (0, 2 ^ bits - 1)) [1; 8; 16; 32; 63; 64])%Z%list.

Definition outside (range : Z * Z) : Condition := Either (Below range.1) (Above range.2).

Definition conditions : list Condition :=
  (map (fun range => Parentheses (outside range)) integer_ranges
   ++ map (fun range => Parentheses (Either (outside range) (TypeIsNot IntegerClass))) integer_ranges
   ++ [TypeNotIn [IntegerClass; RealClass]])%list.

(** What a database answers to the queries on a column that holds [cells]. *)
Definition answers `{StoredValues, !CellReading} (quoted name : string) (cells : list StoredCell) (o : Objects) : Prop :=
  let source := " FROM " +:+ quoted +:+ " WHERE " +:+ name +:+ " IS NOT NULL" in
  (forall c, c ∈ conditions -> counted ("SELECT COUNT(*)" +:+ source +:+ " AND " +:+ condition_text name c) o
             = Z.of_nat (length (List.filter (satisfies c) cells))) /\
  texts ("SELECT " +:+ name +:+ source) o = map as_text cells /\
  numbers ("SELECT " +:+ name +:+ source) o = map as_number cells.

(** ** The check *)
Section soundness.
Context `{StoredValues, !CellReading} (b : BackendType).

Lemma nothing_counted c (cells : list StoredCell) cell :
  Z.of_nat (length (List.filter (satisfies c) cells)) = 0%Z -> cell ∈ cells -> satisfies c cell = false.
Proof.
  intros Hlen Hin. destruct (satisfies c cell) eqn:Hc; [exfalso|done].
  assert (Hf : In cell (List.filter (satisfies c) cells)) by (apply filter_In; by rewrite <- list_elem_of_In).
  destruct (List.filter (satisfies c) cells); [by destruct Hf|done].
Qed.

Definition out_of_range (range : Z * Z) : Condition :=
  Parentheses (if bool_decide (b = Sqlite) then Either (outside range) (TypeIsNot IntegerClass) else outside range).

Lemma out_of_range_asked type range : value_range b type = Some range -> out_of_range range ∈ conditions.
Proof.
  intros Hrange. assert (Hin : range ∈ integer_ranges).
  { apply (bool_decide_unpack _). destruct type; cbn in Hrange; try discriminate Hrange; [destruct (bool_decide (b = Postgres)); [done|]|..];
      injection Hrange as <-; try destruct (family b); by vm_compute. }
  unfold out_of_range, conditions. rewrite !elem_of_app. destruct (bool_decide (b = Sqlite)); [right; left|left];
    apply list_elem_of_In, in_map_iff; exists range; by rewrite <- list_elem_of_In.
Qed.

Lemma storage_asked : TypeNotIn [IntegerClass; RealClass] ∈ conditions.
Proof. unfold conditions. rewrite !elem_of_app, list_elem_of_singleton. auto. Qed.

Lemma range_query_text quoted name range :
  range_query b quoted name range.1 range.2 =
  "SELECT COUNT(*)" +:+ (" FROM " +:+ quoted +:+ " WHERE " +:+ name +:+ " IS NOT NULL") +:+ " AND " +:+ condition_text name (out_of_range range).
Proof.
  unfold range_query, out_of_range, outside. destruct (bool_decide (b = Sqlite)); cbn [condition_text]; unfold quoted_type;
    by rewrite !app_str_assoc.
Qed.

Lemma storage_query_text quoted name :
  storage_query quoted name =
  "SELECT COUNT(*)" +:+ (" FROM " +:+ quoted +:+ " WHERE " +:+ name +:+ " IS NOT NULL") +:+ " AND "
  +:+ condition_text name (TypeNotIn [IntegerClass; RealClass]).
Proof. unfold storage_query. by rewrite !app_str_assoc. Qed.

Lemma select_values_text quoted name :
  select_values quoted name = "SELECT " +:+ name +:+ (" FROM " +:+ quoted +:+ " WHERE " +:+ name +:+ " IS NOT NULL").
Proof. done. Qed.

(** *** Integers *)
Lemma range_whole range (cells : list StoredCell) :
  Z.of_nat (length (List.filter (satisfies (out_of_range range)) cells)) = 0%Z ->
  Forall (whole b (fun z => range.1 <= z <= range.2)%Z) cells.
Proof.
  intros Hn. apply Forall_forall. intros cell Hin. pose proof (nothing_counted _ _ _ Hn Hin) as Hc.
  unfold out_of_range in Hc. destruct cell as [z|d|s|]; cbn [whole]; [|case_bool_decide; [|done]..].
  - assert (Hz : satisfies (outside range) (CellInteger z) = false).
    { case_bool_decide; [|exact Hc]. cbn [satisfies] in *. by apply orb_false_iff in Hc as [? _]. }
    cbn [satisfies outside] in Hz. rewrite less_than_integer, greater_than_integer in Hz. lia.
  - cbn [satisfies typeof] in Hc. by apply orb_false_iff in Hc as [_ Hc].
  - cbn [satisfies typeof] in Hc. by apply orb_false_iff in Hc as [_ Hc].
  - cbn [satisfies typeof] in Hc. by apply orb_false_iff in Hc as [_ Hc].
Qed.

Lemma whole_mono (P Q : Z -> Prop) cell : (forall z, P z -> Q z) -> whole b P cell -> whole b Q cell.
Proof. destruct cell; cbn; auto. Qed.

Lemma value_range_storable limit type range (cells : list StoredCell) :
  value_range b type = Some range -> Forall (whole b (fun z => range.1 <= z <= range.2)%Z) cells ->
  Forall (storable b limit type) cells.
Proof.
  intros Hrange Hall. eapply Forall_impl; [exact Hall|]. clear Hall. intros cell.
  destruct type; cbn in Hrange |- *; try discriminate Hrange;
    [case_bool_decide; [done|]; intros Hcell; right; revert Hcell|..]; injection Hrange as <-; apply (whole_mono _ _ cell); intros z; unfold signed, unsigned; cbn [fst snd];
    try (destruct (family b)); change (2 ^ 64)%Z with 18446744073709551616%Z; change (2 ^ 63)%Z with 9223372036854775808%Z; cbn; lia.
Qed.

(** *** Texts *)
Lemma first_year_days (lo hi : Z) d :
  valid_Date d = true -> (days_from_civil (YMD lo 1 1) <= days_from_civil d)%Z -> (hi = 9999)%Z -> (lo <= year d <= hi)%Z.
Proof.
  intros Hd Hlow ->. pose proof (valid_Date_bounds d Hd) as (Hy & _). apply valid_date_days in Hd as (Hok & _).
  apply days_from_civil_year_bounds; [done|]. split; [done|]. by apply days_from_civil_year_bounds with (lo := 1%Z).
Qed.

Lemma require_native u : requireNative b = Ok u -> native_backend b.
Proof. unfold requireNative, native_backend. destruct b; cbn; auto; discriminate. Qed.

Lemma date_fits d s :
  parseDate s = Ok d -> isWithinValueLimits (StoredDate d) (valueLimits b) (runtime_limits b) = true ->
  validateNative (StoredDate d) b = Ok tt -> date_text_fits b s.
Proof.
  intros [Hd Hs]%parseDate_iff_format Hw Hn. cbn [validateNative] in Hn. unfold validateNative_Date in Hn.
  apply seq_Ok_iff in Hn as (Hb%require_native & Hn). split; [done|]. exists d. split; [done|]. split; [done|].
  cbn [isWithinValueLimits] in Hw. apply andb_true_iff in Hw as [Hw _].
  apply first_year_days; [done| |done]. destruct Hb as [->|[->| ->]]; cbn in Hw |- *; by apply Z.leb_le in Hw.
Qed.

Lemma time_fits t s :
  parseTimeOfDay s = Ok t -> validateNative (StoredTimeOfDay t) b = Ok tt -> time_text_fits b s.
Proof.
  intros Ht Hn. cbn [validateNative] in Hn. unfold validateNative_TimeOfDay in Hn. apply seq_Ok_iff in Hn as (Hb%require_native & _).
  split; [done|]. exists t. split; [done|]. by apply parseTimeOfDay_bounds, (parseTimeOfDay_valid s).
Qed.

Lemma local_fits t s :
  parseLocalDateTime s = Ok t -> isWithinValueLimits (StoredLocalDateTime t) (valueLimits b) (runtime_limits b) = true ->
  validateNative (StoredLocalDateTime t) b = Ok tt -> local_text_fits b s.
Proof.
  intros Ht Hw Hn. cbn [validateNative] in Hn. unfold validateNative_LocalDateTime in Hn. apply seq_Ok_iff in Hn as (Hb%require_native & _).
  exists t. split; [done|]. cbn [isWithinValueLimits] in Hw. unfold within in Hw.
  destruct Hb as [->|[->| ->]]; vm_compute (valueLimits _) in Hw; cbn in Hw; apply andb_true_iff in Hw as [?%Z.leb_le ?%Z.leb_le]; done.
Qed.

Lemma instant_fits t s :
  parseUtcTimestamp (if bool_decide (b = Postgres) then s else s +:+ "+00:00") = Ok t ->
  isWithinValueLimits (StoredUtcTimestamp t) (valueLimits b) (runtime_limits b) = true ->
  validateNative (StoredUtcTimestamp t) b = Ok tt -> instant_text_fits b utcTimestampLimit s.
Proof.
  intros Ht Hw Hn%validateNative_UtcTimestamp_iff. exists t. split; [done|].
  cbn [isWithinValueLimits] in Hw. apply andb_true_iff in Hw as [_ Hw].
  unfold timestamp_domain in Hn. destruct b; try done.
  - unfold firstDay, afterLastDay in Hn. change (at_midnight 1 1 1) with (-62135596800000000)%Z in Hn.
    change (at_midnight 10000 1 1) with 253402300800000000%Z in Hn. lia.
  - split; [done|]. intros limit Hlimit. change (within t (Some us_per_second) utcTimestampLimit = true) in Hw. rewrite Hlimit in Hw. by apply andb_true_iff in Hw as [_ ?%Z.leb_le].
  - split; [done|]. intros limit Hlimit. change (within t (Some us_per_second) utcTimestampLimit = true) in Hw. rewrite Hlimit in Hw. by apply andb_true_iff in Hw as [_ ?%Z.leb_le].
Qed.

Lemma uuid_byte_range u n : (0 <= uuid_byte u n < 256)%Z.
Proof. apply byte_of_range. Qed.

Lemma high_nibble n : (0 <= n < 256)%Z -> (8 <=? Z.shiftr n 4)%Z = (128 <=? n)%Z.
Proof. intros Hn. apply eqb_prop. apply (for_bytes (fun n => Bool.eqb (8 <=? Z.shiftr n 4)%Z (128 <=? n)%Z)); [reflexivity|done]. Qed.

Lemma high_bit n : (0 <= n < 256)%Z -> (Z.land n 128 =? 0)%Z = (n <? 128)%Z.
Proof. intros Hn. apply eqb_prop. apply (for_bytes (fun n => Bool.eqb (Z.land n 128 =? 0)%Z (n <? 128)%Z)); [reflexivity|done]. Qed.

Lemma uuid_fits u s :
  Uuid.parse s = Ok u -> validateNative (StoredUuid u) b = Ok tt -> uuid_text_fits b s.
Proof.
  intros [Hwf Hs]%Uuid.parse_iff_toString Hn. exists u. split; [done|]. split; [done|].
  cbn [validateNative] in Hn. unfold validateNative_Uuid, validateNativeUuid in Hn.
  apply seq_Ok_iff in Hn as (Hb%throw_if_Ok_iff & Hn%throw_if_Ok_iff).
  rewrite high_nibble, high_bit in Hn by apply uuid_byte_range.
  destruct b; try done; [by left|right; split; [done|]]. cbn in Hn. apply andb_false_iff in Hn as [?%Z.leb_gt|?%Z.ltb_ge]; [left|right]; done.
Qed.
Lemma text_fits_storable type cell :
  value_range b type = None -> floating type = false -> text_fits b type (as_text cell) -> storable b utcTimestampLimit type cell.
Proof.
  intros Hrange Hfloat (v & Hv & Hw & Hn).
  destruct type; cbn [parseStored] in Hv; try discriminate Hv; injection Hv as Hv; apply fmap_Ok_iff in Hv as (x & Hx & ->); cbn [storable];
    solve [by eapply uuid_fits | by eapply date_fits | by eapply time_fits | by eapply local_fits | by eapply instant_fits].
Qed.

(** *** Numbers *)
Lemma numeric_storable type (cells : list StoredCell) :
  floating type = true ->
  (b = Sqlite -> Z.of_nat (length (List.filter (satisfies (TypeNotIn [IntegerClass; RealClass])) cells)) = 0%Z) ->
  (forall cell, cell ∈ cells -> (if bool_decide (type = ColumnType.Float) then float_cast (as_number cell) else double_cast (as_number cell)) = true) ->
  Forall (storable b utcTimestampLimit type) cells.
Proof.
  intros Hfloat Hstorage Hcast. apply Forall_forall. intros cell Hin. specialize (Hcast cell Hin).
  assert (Hclass : b = Sqlite -> match cell with CellInteger _ | CellReal _ => True | _ => False end).
  { intros Hb. pose proof (nothing_counted _ _ _ (Hstorage Hb) Hin) as Hc. by destruct cell; vm_compute in Hc. }
  destruct type; try done; cbn [storable]; (split; [exact Hclass|]).
  - rewrite bool_decide_true in Hcast by done. unfold float_cast in Hcast.
    apply andb_true_iff in Hcast as [[Hfinite _]%andb_true_iff Hsame]. by apply float_roundtrip_binary32.
  - rewrite bool_decide_false in Hcast by done. by destruct (as_number cell).
Qed.

Lemma column_storable table column (cells : list StoredCell) o :
  column_found b table column o ->
  (forall quoted name, quoteIdentifier b (table_name table) = Ok quoted -> quoteIdentifier b (col_name column) = Ok name ->
     answers quoted name cells o) ->
  Forall (storable b utcTimestampLimit (logicalType column)) cells.
Proof.
  intros (name & Hname & Hfound) Hanswers. cbv zeta in Hfound.
  destruct (value_range b (logicalType column)) as [range|] eqn:Hrange.
  - destruct Hfound as (quoted & Hquoted & Hcount). destruct (Hanswers quoted name Hquoted Hname) as (Hc & _).
    rewrite range_query_text, Hc in Hcount by (by eapply out_of_range_asked). by eapply value_range_storable, range_whole.
  - destruct (floating (logicalType column)) eqn:Hfloat.
    + destruct Hfound as (quoted & Hquoted & Hstorage & Hcast). destruct (Hanswers quoted name Hquoted Hname) as (Hc & _ & Hnumbers).
      rewrite storage_query_text, (Hc _ storage_asked) in Hstorage. rewrite select_values_text, Hnumbers in Hcast.
      apply numeric_storable; [done|done|]. intros cell Hin. apply Hcast, list_elem_of_In, in_map. by apply list_elem_of_In.
    + destruct (parseStored b (logicalType column) "") as [p|] eqn:Hp; [|].
      2:{ apply Forall_forall. intros cell _. destruct (logicalType column); try done. left. cbn in Hrange. by case_bool_decide. }
      destruct Hfound as (quoted & Hquoted & Hfits). destruct (Hanswers quoted name Hquoted Hname) as (_ & Htexts & _).
      rewrite select_values_text, Htexts in Hfits. apply Forall_forall. intros cell Hin.
      apply text_fits_storable; [done..|]. apply Hfits, list_elem_of_In, in_map. by apply list_elem_of_In.
Qed.

(** C11: The check after a script changes nothing, and when it returns, every column of the
    target models can be named and every cell of it holds a value of its C++ type: an
    integer of the type's width (and on SQLite nothing but an integer), a number that is
    a [float] or a finite [double] (and on SQLite no text), the printed form of a date of
    the calendar, a time of day, a date and time or an instant in the range that the
    backend and its server keep, or a UUID that the backend keeps in order -- whatever
    cells the database has, if it answers the queries by them. *)
Theorem validateTargetValues_sound context :
  reads (validateTargetValues b context) (fun t _ =>
    forall target table column, ctx_target context = Some target -> table ∈ Schema.tables target -> column ∈ columns table ->
      is_Ok (quoteIdentifier b (col_name column)) /\
      forall cells,
        (forall quoted name, quoteIdentifier b (table_name table) = Ok quoted -> quoteIdentifier b (col_name column) = Ok name ->
           answers quoted name cells (objects t)) ->
        Forall (storable b utcTimestampLimit (logicalType column)) cells).
Proof.
  eapply reads_mono; [apply validateTargetValues_reads|]. intros t [] Hall target table column Htarget Htable Hcolumn.
  specialize (Hall target table column Htarget Htable Hcolumn). split; [destruct Hall as (name & -> & _); by eexists|].
  intros cells. by apply column_storable.
Qed.
End soundness.

(** ** A database that answers

    A table of people on SQLite, whose cells answer the queries. *)
Section people.

Definition age : PhysicalColumn := MkColumn "age" ColumnType.Short "INTEGER" true None false.
Definition weight : PhysicalColumn := MkColumn "weight" ColumnType.Float "REAL" true None false.
Definition people : PhysicalTable := MkTable "people" [age; weight] [] "" [] [] "".
Definition people_context : MigrationExecutionContext :=
  MkContext Normal ["people"] [] None (Some (MkSchema Sqlite "" [people])).

(** By the quoted names of the columns; 61.5 is 123 * 2^-1. *)
Definition stored : list (string * list StoredCell) :=
  match quoteIdentifier Sqlite "age", quoteIdentifier Sqlite "weight" with
  | Ok age, Ok weight =>
      [(age, [CellInteger 7; CellInteger (-3); CellInteger 32767]);
       (weight, [CellReal (S754_finite false (123 * 2 ^ 46) (-47)); CellInteger 70])]
  | _, _ => []
  end.

#[local] Instance reading : CellReading.
Proof.
  refine {| less_than := fun c z => match c with CellInteger k => (k <? z)%Z | _ => false end;
            greater_than := fun c z => match c with CellInteger k => (z <? k)%Z | _ => true end;
            as_number := fun c => match c with CellReal d => d | CellInteger z => double_of_integer z | _ => S754_zero false end;
            as_text := fun c => match c with CellText s => s | _ => "" end |}; done.
Defined.

#[local] Instance quiet : Engine :=
  {| Objects := unit; fault := fun _ => Fine; run_script := fun _ t => ([t], None);
     settings_kept := fun _ _ => true; current_timestamp := "2024-01-01 00:00:00" |}.

Definition source_text (name : string) : string :=
  match quoteIdentifier Sqlite "people" with
  | Ok quoted => " FROM " +:+ quoted +:+ " WHERE " +:+ name +:+ " IS NOT NULL"
  | Err _ => ""
  end.

Definition count_text (item : (string * list StoredCell) * Condition) : string :=
  "SELECT COUNT(*)" +:+ source_text item.1.1 +:+ " AND " +:+ condition_text item.1.1 item.2.

Definition found_cells (text : string) : list StoredCell :=
  match List.find (fun item => bool_decide ("SELECT " +:+ item.1 +:+ source_text item.1 = text)) stored with
  | Some item => item.2
  | None => []
  end.

#[local] Instance answering : StoredValues :=
  {| counted := fun text _ =>
       match List.find (fun item => bool_decide (count_text item = text)) (list_prod stored conditions) with
       | Some item => Z.of_nat (length (List.filter (satisfies item.2) item.1.2))
       | None => 0%Z
       end;
     texts := fun text _ => map as_text (found_cells text);
     numbers := fun text _ => map as_number (found_cells text);
     utcTimestampLimit := None |}.

Definition answered (item : (string * list StoredCell) * Condition) : bool :=
  bool_decide (counted (count_text item) tt = Z.of_nat (length (List.filter (satisfies item.2) item.1.2))).

Lemma stored_answers quoted name cells :
  quoteIdentifier Sqlite "people" = Ok quoted -> (name, cells) ∈ stored -> answers quoted name cells tt.
Proof.
  intros Hquoted Hin. assert (Hsource : source_text name = " FROM " +:+ quoted +:+ " WHERE " +:+ name +:+ " IS NOT NULL")
    by (unfold source_text; by rewrite Hquoted).
  assert (Hcells : found_cells ("SELECT " +:+ name +:+ source_text name) = cells).
  { assert (Hall : Forall (fun item => found_cells ("SELECT " +:+ item.1 +:+ source_text item.1) = item.2) stored)
      by (repeat (apply Forall_cons_2; [vm_compute; reflexivity|]); apply Forall_nil_2). rewrite Forall_forall in Hall. by apply (Hall _ Hin). }
  unfold answers. rewrite <- Hsource. split; [|cbn [texts numbers answering]; by rewrite Hcells].
  assert (Hall : forallb answered (list_prod stored conditions) = true) by (vm_compute; reflexivity).
  intros c Hc. rewrite forallb_forall in Hall. specialize (Hall ((name, cells), c)). apply bool_decide_eq_true in Hall; [done|].
  apply in_prod; by apply list_elem_of_In.
Qed.

Definition idle_session : Session := MkSession (MkTables None None tt) None [] false true false None None 1 None.

Lemma validateTargetValues_sound_witness :
  (validateTargetValues Sqlite people_context 0 idle_session).1.1 = Ok tt /\
  Forall (storable Sqlite None ColumnType.Short) [CellInteger 7; CellInteger (-3); CellInteger 32767] /\
  Forall (storable Sqlite None ColumnType.Float) [CellReal (S754_finite false (123 * 2 ^ 46) (-47)); CellInteger 70].
Proof.
  assert (Hok : (validateTargetValues Sqlite people_context 0 idle_session).1.1 = Ok tt) by (vm_compute; reflexivity).
  split; [exact Hok|].
  pose proof (validateTargetValues_sound Sqlite people_context idle_session
    (fun r s => match r with Ok _ => forall column cells, column ∈ columns people ->
       (forall quoted name, quoteIdentifier Sqlite "people" = Ok quoted -> quoteIdentifier Sqlite (col_name column) = Ok name ->
          answers quoted name cells tt) -> Forall (storable Sqlite None (logicalType column)) cells
     | Err _ => True end)) as Hsound.
  assert (Hstored : forall column cells, column ∈ columns people ->
    (forall name, quoteIdentifier Sqlite (col_name column) = Ok name -> (name, cells) ∈ stored) ->
    Forall (storable Sqlite None (logicalType column)) cells).
  { intros column cells Hcolumn Hcells. unshelve epose proof (Hsound _ _ 0) as Hrun; [done| |].
    - intros [] Hall column' cells' Hcolumn' Hanswers.
      exact (proj2 (Hall _ people column' eq_refl (proj2 (list_elem_of_singleton _ _) eq_refl) Hcolumn') cells' Hanswers).
    - destruct (validateTargetValues Sqlite people_context 0 idle_session) as [[r n] s']. cbn [fst] in Hok. rewrite Hok in Hrun.
      apply Hrun; [exact Hcolumn|]. intros quoted name Hquoted Hname. apply stored_answers; [exact Hquoted|]. by apply Hcells. }
  split.
  - apply (Hstored age); [by left|]. intros name Hname. vm_compute in Hname. injection Hname as <-. vm_compute. left.
  - apply (Hstored weight); [by right; left|]. intros name Hname. vm_compute in Hname. injection Hname as <-. vm_compute. right. left.
Defined.
End people.
