(* ===== verification/Runner.v ===== *)
(** Runner: the application of a plan, [Runner] of src/migrations/Runner.cpp, with the
    session of a SQLite rebuild around every migration.

    The sequences of SQLite's AUTOINCREMENT columns and the check of foreign keys are
    the engine's, the class [SqliteObjects]. *)
From S2P Require Import Prelude Foundation Chrono Values Codec Schema Sha256 Models PhysicalSql Snapshot Diff SqlValidation Literals SchemaJson Generation Renames Catalog History Session State Protocol Journal Recovery Liveness Preflight TargetValues.
Local Open Scope string_scope.

Class SqliteObjects `{Engine} := {
  (** The rows of [sqlite_sequence], [None] while it does not exist. *)
  sqlite_sequence : Objects -> option (list (string * Z));
  with_sequences : list (string * Z) -> Objects -> Objects;
  (** [COALESCE(MAX(column),0)] of a table. *)
  maximum_of : string -> string -> Objects -> Z;
  (** [PRAGMA foreign_key_check] has rows. *)
  foreign_key_violations : Objects -> bool;
  sequences_set : forall l o, sqlite_sequence o <> None -> sqlite_sequence (with_sequences l o) = Some l;
  maximum_set : forall c t l o, t <> "sqlite_sequence" -> maximum_of c t (with_sequences l o) = maximum_of c t o
}.

(** [MAX(seq)] and [COUNT] of the rows of a name. *)
Definition rows_named (name : string) (l : list (string * Z)) : list (string * Z) :=
  List.filter (fun row => bool_decide (row.1 = name)) l.
Definition max_sequence (name : string) (l : list (string * Z)) : Z :=
  match map snd (rows_named name l) with [] => 0%Z | v :: vs => fold_left Z.max vs v end.

(** ** The session of a SQLite rebuild *)
Section rebuild.
Context `{SqliteObjects}.

(** [PRAGMA foreign_keys]; setting it does nothing in a transaction. *)
Definition read_foreign_keys : M Z := call (fun s => Ok (foreignKeys s, s)).
Definition write_foreign_keys (value : Z) : M unit :=
  call (fun s => Ok (tt, match working s with None => set_foreignKeys value s | Some _ => s end)).

Definition restoreSqliteForeignKeys (previousValue : Z) : M unit :=
  write_foreign_keys (if (previousValue =? 0)%Z then 0 else 1)%Z ;;
  actual ← read_foreign_keys;
  fails_if (negb (actual =? previousValue)%Z) "SQLite foreign_keys restoration failed".

Definition set_enabled (e : bool) (s : Session) : Session :=
  match rebuild_ s with
  | Some r => set_rebuild (Some (MkRebuildObject (rebuildPreviousActive r) (previousForeignKeys r) e)) s
  | None => s
  end.
Definition set_previous (value : Z) (s : Session) : Session :=
  match rebuild_ s with
  | Some r => set_rebuild (Some (MkRebuildObject (rebuildPreviousActive r) value true)) s
  | None => s
  end.

Definition restore (m : MigrationExecutionMode) : M unit :=
  s ← get;
  match rebuild_ s with
  | None => mret tt
  | Some r =>
      if negb (enabled r) then
        (if bool_decide (m = SqliteRebuild) then setActive (rebuildPreviousActive r) else mret tt)
      else
        modify (set_enabled false) ;;
        connected_ ← isConnected;
        (if negb connected_ then mret tt else restoreSqliteForeignKeys (previousForeignKeys r)) ;;
        setActive (rebuildPreviousActive r)
  end.

Definition restoreNoThrow (m : MigrationExecutionMode) : M unit :=
  s ← get;
  catch (restore m)
    (fun _ =>
       disconnect ;;
       match rebuild_ s with Some r => setActive (rebuildPreviousActive r) | None => mret tt end).

(** The constructor.  When it throws, there is no object to destroy. *)
Definition SqliteRebuildSession (m : MigrationExecutionMode) : M unit :=
  s ← get;
  modify (set_rebuild (Some (MkRebuildObject (active s) 0 false))) ;;
  if negb (bool_decide (m = SqliteRebuild)) then mret tt
  else
    setActive true ;;
    catch
      (previous ← read_foreign_keys;
       modify (set_previous previous) ;;
       write_foreign_keys 0 ;;
       actual ← read_foreign_keys;
       fails_if (negb (actual =? 0)%Z) "Cannot disable SQLite foreign keys before the rebuild transaction")
      (fun f =>
         restoreNoThrow m ;;
         setActive (active s) ;;
         modify (set_rebuild None) ;;
         throw f).

(** The destructor, when there is an object. *)
Definition SqliteRebuildSession_end (m : MigrationExecutionMode) : M unit :=
  restoreNoThrow m ;; modify (set_rebuild None).

Definition is_enabled : M bool := s ← get; mret (match rebuild_ s with Some r => enabled r | None => false end).

Definition identities (table : RebuildTable) : bool := is_some (sourceIdentity table) && is_some (targetIdentity table).

(** The loop of [captureSequences]; the result is [sequences_]. *)
Fixpoint capture_loop (l : list RebuildTable) (sequences : gmap string Z) : M (gmap string Z) :=
  match l with
  | [] => mret sequences
  | table :: l =>
      if identities table then
        sequence ← query (fun o => max_sequence (rb_source table) (default [] (sqlite_sequence o)));
        capture_loop l (<[rb_target table := sequence]> sequences)
      else capture_loop l sequences
  end.

Definition captureSequences (context : MigrationExecutionContext) : M (gmap string Z) :=
  enabled_ ← is_enabled;
  if negb enabled_ then mret ∅
  else
    exists_ ← query (fun o => is_some (sqlite_sequence o));
    if negb exists_ then mret ∅ else capture_loop (rebuildTables context) ∅.

(** A statement on [sqlite_sequence], which must exist. *)
Definition on_sequences {A} (f : list (string * Z) -> A * list (string * Z)) : M A :=
  call (fun s =>
    match sqlite_sequence (objects (current s)) with
    | Some rows =>
        let '(a, rows') := f rows in
        Ok (a, update (MkTables (historyTable (current s)) (journalTable (current s))
                        (with_sequences rows' (objects (current s)))) s)
    | None => Err (SociError None)
    end).

Definition read_sequence (name : string) : M (nat * Z) :=
  call (fun s =>
    match sqlite_sequence (objects (current s)) with
    | Some rows => Ok ((length (rows_named name rows), max_sequence name rows), s)
    | None => Err (SociError None)
    end).

Definition store_sequence (name : string) (rows : nat) (value : Z) (l : list (string * Z)) : list (string * Z) :=
  if (rows =? 0)%nat then (l ++ [(name, value)])%list
  else map (fun row => if bool_decide (row.1 = name) then (name, value) else row) l.

Definition restore_sequence (sequences : gmap string Z) (table : RebuildTable) : M unit :=
  match sourceIdentity table, targetIdentity table with
  | Some _, Some identity =>
      lift (quoteIdentifier Sqlite identity) ;;
      lift (quoteIdentifier Sqlite (rb_target table)) ;;
      maximum ← query (maximum_of identity (rb_target table));
      '(rows, sequence) ← read_sequence (rb_target table);
      let preserved := Z.max (Z.max maximum sequence) (default 0%Z (sequences !! rb_target table)) in
      on_sequences (fun l => (tt, store_sequence (rb_target table) rows preserved l))
  | _, _ => mret tt
  end.

Definition validateAndRestoreSequences (context : MigrationExecutionContext) (sequences : gmap string Z) : M unit :=
  enabled_ ← is_enabled;
  if negb enabled_ then mret tt
  else
    each (rebuildTables context) (restore_sequence sequences) ;;
    violations ← query foreign_key_violations;
    fails_if violations "SQLite rebuild failed foreign_key_check".

Definition restoreAfterCommit (m : MigrationExecutionMode) (version : Z) : M unit :=
  catch (restore m)
    (fun _ =>
       disconnect ;;
       throw (Exception (MigrationError SessionRestoration
         "Migration committed, but session restoration failed; reconnect and inspect history" version Sqlite None))).
End rebuild.

(** ** The runner *)
Section runner.
Context `{JsonLibrary} `{Introspection} `{!StoredValues} `{!SqliteObjects} (b : BackendType).

Definition contextOf (s : SqlMigration) (d : Direction) : MigrationExecutionContext :=
  match d with Up => upContext s | Down => downContext s end.

(** The two closures that [execute] gives to [apply]. *)
Definition preflight (context : MigrationExecutionContext) : M (gmap string Z) :=
  contextPreflight b context ;; captureSequences context.
Definition validateResult (context : MigrationExecutionContext) (sequences : gmap string Z) : M unit :=
  validateAndRestoreSequences context sequences ;; validateTargetValues b context.

Definition run_step (catalog : list Migration) (d : Direction) (expected : list AppliedMigration) (version : Z)
    : M (list AppliedMigration) :=
  rethrow b version
    (m ← lift (or_throw (find_by version_of version catalog) OutOfRange);
     s ← lift (or_throw (BackendMap.find b (scripts m)) OutOfRange);
     let context := contextOf s d in
     scope
       (SqliteRebuildSession (mode context) ;;
        actual ← apply b catalog m d expected (preflight context) (validateResult context);
        restoreAfterCommit (mode context) version ;;
        mret actual)
       (SqliteRebuildSession_end (mode context))).

(** The loop of [execute]. *)
Fixpoint run_steps (catalog : list Migration) (d : Direction) (steps : list PlannedMigration)
    (expected : list AppliedMigration) : M (list AppliedMigration) :=
  match steps with
  | [] => mret expected
  | step :: steps =>
      actual ← run_step catalog d expected (pm_version step);
      run_steps catalog d steps actual
  end.

(** The public operations; each begins with a new [MigrationState]. *)
Definition runner_status (catalog : list Migration) (busy : bool) : M Status :=
  MigrationState b catalog busy ;; status b catalog.
Definition runner_validate (catalog : list Migration) (busy : bool) : M unit :=
  MigrationState b catalog busy ;; validate b catalog.
Definition preview (catalog : list Migration) (busy : bool) (d : Direction) (target : option Z) : M Plan :=
  MigrationState b catalog busy ;; s ← status b catalog; lift (plan b catalog s d target).
Definition execute (catalog : list Migration) (busy : bool) (d : Direction) (target : option Z) : M unit :=
  MigrationState b catalog busy ;;
  initial ← status b catalog;
  p ← lift (plan b catalog initial d target);
  run_steps catalog d (plan_migrations p) (applied initial) ;;
  mret tt.
Definition runner_up (catalog : list Migration) (busy : bool) (target : option Z) : M unit := execute catalog busy Up target.
Definition runner_down (catalog : list Migration) (busy : bool) (target : Z) : M unit := execute catalog busy Down (Some target).
Definition runner_baseline (catalog : list Migration) (busy : bool) (target : Z) : M unit :=
  MigrationState b catalog busy ;; baselineHistory b catalog target.
Definition runner_resolve (catalog : list Migration) (busy : bool) (version : Z) (expectedChecksum : string)
    (resolution : Resolution) : M unit :=
  MigrationState b catalog busy ;; resolve b catalog version expectedChecksum resolution.
End runner.
