(* ===== verification/Rebuild.v ===== *)
(** Rebuild: what the session of a SQLite rebuild promises -- its settings come back or
    the connection is closed -- and what the checks around a migration may do to the
    transaction that they run in. *)
From S2P Require Import Prelude Foundation Chrono Values Codec Schema Sha256 Models PhysicalSql Snapshot Diff SqlValidation Literals SchemaJson Generation Renames Catalog History Session State Protocol Journal Recovery Liveness Preflight TargetValues Runner.
Local Open Scope string_scope.

(** ** The session of a rebuild is restored *)
Section rebuild.
Context `{SqliteObjects}.

Definition fk_ok (s : Session) : Prop := foreignKeys s = 0%Z \/ foreignKeys s = 1%Z.

Definition kept (s s' : Session) : Prop := durable s' = durable s /\ trace s' = trace s.

(** The session as before the object was made: no object is left, and foreign keys are
    as they were unless the connection is gone. *)
Definition restored (s0 s : Session) : Prop :=
  idle s /\ active s = active s0 /\ rebuild_ s = None /\ fk_ok s /\
  (connected s = true -> foreignKeys s = foreignKeys s0).

(** A live object: right after its construction, and later. *)
Definition entered (s0 : Session) (m : MigrationExecutionMode) (s : Session) : Prop :=
  idle s /\ fk_ok s /\
  match m with
  | Normal => rebuild_ s = Some (MkRebuildObject (active s0) 0 false) /\ active s = active s0 /\ foreignKeys s = foreignKeys s0
  | SqliteRebuild => rebuild_ s = Some (MkRebuildObject (active s0) (foreignKeys s0) true)
  end.

Definition live (s0 : Session) (m : MigrationExecutionMode) (s : Session) : Prop :=
  idle s /\ fk_ok s /\ exists p e, rebuild_ s = Some (MkRebuildObject (active s0) p e) /\
    (e = true -> p = foreignKeys s0) /\ (e = false -> connected s = true -> foreignKeys s = foreignKeys s0) /\
    (m = Normal -> e = false /\ active s = active s0).

Lemma entered_live s0 m s : entered s0 m s -> live s0 m s.
Proof.
  intros (Hi & Hfk & Hm). split; [done|]. split; [done|]. destruct m.
  - destruct Hm as (Hr & Ha & Hf). eexists _, _. split; [done|]. by split_and!.
  - eexists _, _. split; [done|]. by split_and!.
Qed.

Context (s0 : Session) (idle_s0 : idle s0) (none_s0 : rebuild_ s0 = None) (ok_s0 : fk_ok s0).

Lemma read_foreign_keys_wp Q s : may_fail Q s -> Q (Ok (foreignKeys s)) s -> wp read_foreign_keys Q s.
Proof. intros Herr Hok. apply wp_call; [done|]. by intros a s' _ [= <- <-]. Qed.

Lemma write_foreign_keys_wp v Q s :
  working s = None -> may_fail Q s -> Q (Ok tt) (set_foreignKeys v s) -> wp (write_foreign_keys v) Q s.
Proof. intros Hw Herr Hok. apply wp_call; [done|]. intros [] s' _ [= <-]. by rewrite Hw. Qed.

(** Restoring the setting: it succeeds, or the session is open with either setting, or
    closed. *)
Lemma restoreSqliteForeignKeys_wp (Q : result failure unit -> Session -> Prop) s :
  idle s -> fk_ok s ->
  (forall s' f, kept s s' -> idle s' -> fk_ok s' -> rebuild_ s' = rebuild_ s -> Q (Err f) s') ->
  Q (Ok tt) (set_foreignKeys (foreignKeys s0) s) -> wp (restoreSqliteForeignKeys (foreignKeys s0)) Q s.
Proof.
  intros (Hw & Hlk & Ht & Hl) Hfk Herr Hok. unfold restoreSqliteForeignKeys.
  assert ((if (foreignKeys s0 =? 0)%Z then 0 else 1)%Z = foreignKeys s0) as -> by (destruct ok_s0 as [-> | ->]; done).
  wp_step. apply write_foreign_keys_wp; [done|intros f; split; by apply Herr|].
  wp_step. apply read_foreign_keys_wp; [intros f; split; by apply Herr|]. unfold fails_if. cbn [foreignKeys set_foreignKeys].
  rewrite Z.eqb_refl. cbn [negb]. by wp_step.
Qed.

Lemma set_enabled_eq s a p e e' :
  rebuild_ s = Some (MkRebuildObject a p e) -> set_enabled e' s = set_rebuild (Some (MkRebuildObject a p e')) s.
Proof. unfold set_enabled. by intros ->. Qed.

(** The settings of [s0], or no connection. *)
Definition settled (s s' : Session) : Prop :=
  kept s s' /\ idle s' /\ fk_ok s' /\ active s' = active s0 /\ (connected s' = true -> foreignKeys s' = foreignKeys s0).

(** [restore] restores, or fails before it has; the object stays live. *)
Lemma restore_wp m (Q : result failure unit -> Session -> Prop) s :
  live s0 m s ->
  (forall s', settled s s' -> live s0 m s' -> Q (Ok tt) s') ->
  (forall s' f, kept s s' -> idle s' -> fk_ok s' -> m = SqliteRebuild ->
     rebuild_ s' = Some (MkRebuildObject (active s0) (foreignKeys s0) false) -> Q (Err f) s') ->
  wp (restore m) Q s.
Proof.
  intros ((Hw & Hlk & Ht & Hl) & Hfk & p & e & Hr & Hp & Hf & Hm) Hok Herr. unfold restore, setActive, isConnected.
  wp_step. wp_step. rewrite Hr. cbn [enabled]. destruct e; cbn [negb].
  - assert (m = SqliteRebuild) as -> by (destruct m; [by destruct (Hm eq_refl)|done]).
    rewrite (Hp eq_refl) in *. cbn [rebuildPreviousActive previousForeignKeys]. do 2 wp_step. rewrite (set_enabled_eq _ _ _ _ _ Hr).
    do 4 wp_step. cbn [connected set_rebuild]. destruct (connected s) eqn:Hc; cbn [negb]; wp_step.
    + apply restoreSqliteForeignKeys_wp; [done|done| |].
      * intros s' f Hk Hi Hfk' Hr'. by apply Herr.
      * wp_step. apply Hok; [done|]. split; [done|]. split; [done|]. eexists _, _. by split_and!.
    + do 2 wp_step. apply Hok; [by split_and!; cbn; rewrite ?Hc|]. split; [done|]. split; [done|]. eexists _, _.
      split_and!; [done..| |done]. cbn. by rewrite Hc.
  - cbn [rebuildPreviousActive]. destruct m; [rewrite bool_decide_false by done|rewrite bool_decide_true by done]; wp_step.
    + destruct (Hm eq_refl) as [_ Ha]. apply Hok; [split_and!; auto; done|]. split; [done|]. split; [done|]. exists p, false. split_and!; by auto.
    + apply Hok; [split_and!; auto; done|]. split; [done|]. split; [done|]. exists p, false. split_and!; by auto.
Qed.

Lemma restoreNoThrow_wp m (Q : result failure unit -> Session -> Prop) s :
  live s0 m s -> (forall s', settled s s' -> Q (Ok tt) s') -> wp (restoreNoThrow m) Q s.
Proof.
  intros Hlive HQ. unfold restoreNoThrow, disconnect, setActive. wp_step. wp_step. wp_step. apply restore_wp; [done|auto|].
  destruct Hlive as (_ & _ & p & e & Hr & _). intros s' f Hk (Hw & Hlk & Ht & Hl) Hfk _ _. do 2 wp_step. rewrite Hr.
  wp_step. apply HQ. by split_and!.
Qed.

Lemma SqliteRebuildSession_end_wp m (Q : result failure unit -> Session -> Prop) s :
  live s0 m s -> (forall s', kept s s' -> restored s0 s' -> Q (Ok tt) s') -> wp (SqliteRebuildSession_end m) Q s.
Proof.
  intros Hlive HQ. unfold SqliteRebuildSession_end. wp_step. apply (restoreNoThrow_wp m _ s Hlive).
  intros s' ([Hd Htr] & (Hw & Hlk & Ht & Hl) & Hfk & Ha & Hc). wp_step. by apply HQ.
Qed.

(** Between the commit and the end of the scope. *)
Lemma restoreAfterCommit_wp m version (Q : result failure unit -> Session -> Prop) s :
  live s0 m s ->
  (forall s', kept s s' -> live s0 m s' -> Q (Ok tt) s') ->
  (forall s', kept s s' -> live s0 m s' -> Q (Err (Exception (MigrationError SessionRestoration
     "Migration committed, but session restoration failed; reconnect and inspect history" version Sqlite None))) s') ->
  wp (restoreAfterCommit m version) Q s.
Proof.
  intros Hlive Hok Herr. unfold restoreAfterCommit, disconnect. wp_step. apply restore_wp; [done|by intros s' [? _]; auto|].
  intros s' f Hk (Hw & Hlk & Ht & Hl) Hfk -> Hr. do 3 wp_step. apply Herr; [done|]. split; [done|]. split; [done|].
  eexists _, false. by split_and!.
Qed.

(** No object, nothing to restore. *)
Lemma SqliteRebuildSession_end_none m (Q : result failure unit -> Session -> Prop) s :
  rebuild_ s = None -> Q (Ok tt) s -> wp (SqliteRebuildSession_end m) Q s.
Proof.
  intros Hr HQ. unfold SqliteRebuildSession_end, restoreNoThrow, restore.
  do 6 wp_step. rewrite Hr. do 2 wp_step.
  assert (set_rebuild None s = s) as -> by (destruct s; cbn in *; by rewrite Hr). done.
Qed.

(** The constructor: a live object, or none and the session as before. *)
Lemma SqliteRebuildSession_wp m (Q : result failure unit -> Session -> Prop) :
  (forall s', kept s0 s' -> entered s0 m s' -> Q (Ok tt) s') ->
  (forall s' f, kept s0 s' -> restored s0 s' -> Q (Err f) s') -> wp (SqliteRebuildSession m) Q s0.
Proof.
  intros Hok Herr. destruct idle_s0 as (Hw & Hlk & Ht & Hl). unfold SqliteRebuildSession, setActive. do 4 wp_step.
  destruct m; [rewrite bool_decide_false by done|rewrite bool_decide_true by done]; cbn [negb].
  { wp_step. apply Hok; [done|]. by split_and!. }
  do 3 wp_step.
  assert (forall s' f, kept s0 s' -> live s0 SqliteRebuild s' ->
    wp (restoreNoThrow SqliteRebuild ;; modify (set_active (active s0)) ;; modify (set_rebuild None) ;; throw f) Q s') as Hhandler.
  { intros s' f [Hd Htr] Hlive. wp_step. apply (restoreNoThrow_wp _ _ _ Hlive).
    intros s2 ([Hd2 Htr2] & (Hi1 & Hi2 & Hi3 & Hi4) & Hfk & Ha & Hc). do 5 wp_step.
    apply Herr; [split; cbn; congruence|]. by split_and!. }
  wp_step. apply read_foreign_keys_wp.
  { intros f. split; apply Hhandler; try done; split_and!; try done; eexists _, false; by split_and!. }
  do 2 wp_step. unfold set_previous. cbn [set_active set_rebuild rebuild_ rebuildPreviousActive foreignKeys].
  assert (forall x f, kept s0 x -> idle x -> fk_ok x -> rebuild_ x = Some (MkRebuildObject (active s0) (foreignKeys s0) true) ->
    wp (restoreNoThrow SqliteRebuild ;; modify (set_active (active s0)) ;; modify (set_rebuild None) ;; throw f) Q x) as Hlate.
  { intros x f Hk Hi Hfk Hr. apply Hhandler; [done|]. split_and!; [done..|]. eexists _, true. by split_and!. }
  wp_step. apply write_foreign_keys_wp; [done|intros f; split; by apply Hlate|].
  wp_step. apply read_foreign_keys_wp.
  { intros f; split; apply Hlate; try done; by left. }
  unfold fails_if. cbn [foreignKeys set_foreignKeys negb Z.eqb]. wp_step. apply Hok; [done|]. split_and!; [done..|by left|done].
Qed.
End rebuild.

(** ** The closures of a migration *)
Section closures.
Context `{JsonLibrary} `{Introspection} `{!StoredValues} `{!SqliteObjects} (b : BackendType).
Abbreviation tables := (Tables Objects).

Lemma is_enabled_reads : reads is_enabled (fun _ _ => True).
Proof. intros s Q Herr Hok. unfold is_enabled. do 3 wp_step. by apply Hok. Qed.

Lemma capture_loop_reads l sequences : reads (capture_loop l sequences) (fun _ _ => True).
Proof.
  revert sequences. induction l as [|table l IH]; intros sequences s Q Herr Hok; cbn [capture_loop].
  - wp_step. by apply Hok.
  - destruct (identities table); [|by apply IH].
    read_step (reads_query (fun o => max_sequence (rb_source table) (default [] (sqlite_sequence o)))). intros v _.
    by apply IH.
Qed.

Lemma captureSequences_reads context : reads (captureSequences context) (fun _ _ => True).
Proof.
  intros s Q Herr Hok. unfold captureSequences. read_step is_enabled_reads. intros e _.
  destruct e; cbn [negb]; [|wp_step; by apply Hok].
  read_step (reads_query (fun o => is_some (sqlite_sequence o))). intros x _.
  destruct x; cbn [negb]; [by apply capture_loop_reads|wp_step; by apply Hok].
Qed.

Lemma preflight_reads context : reads (preflight b context) (fun _ _ => True).
Proof.
  intros s Q Herr Hok. unfold preflight. read_step (contextPreflight_reads b context). intros [] _.
  by apply captureSequences_reads.
Qed.

(** A statement on the sequences changes nothing else. *)
Definition new_sequences (t : tables) (rows : list (string * Z)) : tables :=
  MkTables (historyTable t) (journalTable t) (with_sequences rows (objects t)).

Lemma on_sequences_tx f :
  in_tx (on_sequences f) (fun t (a : unit) t' => exists rows,
    sqlite_sequence (objects t) = Some rows /\ a = (f rows).1 /\ t' = new_sequences t (f rows).2).
Proof.
  intros s t Q Hs Herr Hok. unfold on_sequences. apply wp_call; [by eapply may_fail_tx|].
  intros [] s' _. rewrite (current_working s t Hs). destruct (sqlite_sequence (objects t)) as [rows|] eqn:Hrows; [|done].
  destruct (f rows) as [[] rows'] eqn:Hf. intros [= <-]. unfold update. rewrite Hs. apply Hok. exists rows. by rewrite Hf.
Qed.

Lemma read_sequence_reads name :
  reads (read_sequence name) (fun t a => exists rows, sqlite_sequence (objects t) = Some rows /\
    a = (length (rows_named name rows), max_sequence name rows)).
Proof.
  intros s Q Herr Hok. unfold read_sequence. apply wp_call; [done|]. intros a s' _.
  destruct (sqlite_sequence (objects (current s))) as [rows|] eqn:Hrows; [|done]. intros [= <- <-].
  apply Hok. by exists rows.
Qed.

(** What is stored for a table whose identity columns match. *)
Definition preserved (sequences : gmap string Z) (table : RebuildTable) (identity : string) (t : tables)
    (rows : list (string * Z)) : Z :=
  Z.max (Z.max (maximum_of identity (rb_target table) (objects t)) (max_sequence (rb_target table) rows))
    (default 0%Z (sequences !! rb_target table)).

Lemma restore_sequence_tx sequences table :
  in_tx (restore_sequence sequences table) (fun t _ t' =>
    match sourceIdentity table, targetIdentity table with
    | Some _, Some identity => exists rows, sqlite_sequence (objects t) = Some rows /\
        t' = new_sequences t (store_sequence (rb_target table) (length (rows_named (rb_target table) rows))
               (preserved sequences table identity t rows) rows)
    | _, _ => t' = t
    end).
Proof.
  intros s t Q Hs Herr Hok. unfold restore_sequence.
  destruct (sourceIdentity table) as [source|], (targetIdentity table) as [identity|];
    try (wp_step; rewrite <- (set_working_same s t Hs); by apply Hok).
  tx_step (reads_lift (quoteIdentifier Sqlite identity)) t. intros q1 _.
  tx_step (reads_lift (quoteIdentifier Sqlite (rb_target table))) t. intros q2 _.
  tx_step (reads_query (maximum_of identity (rb_target table))) t. intros v ->.
  tx_step (read_sequence_reads (rb_target table)) t. intros [n w] (rows & Hrows & [= -> ->]). cbv zeta.
  apply (on_sequences_tx _ s t Q Hs Herr). intros [] t' (rows' & Hrows' & _ & ->).
  apply Hok. exists rows. split; [done|]. by simplify_eq.
Qed.

Lemma in_tx_each {A} (body : A -> M unit) l :
  (forall x, in_tx (body x) (fun _ _ _ => True)) -> in_tx (each l body) (fun _ _ _ => True).
Proof.
  intros Hbody. induction l as [|x l IH]; cbn [each]; intros s t Q Hs Herr Hok.
  - wp_step. rewrite <- (set_working_same s t Hs). by apply Hok.
  - tx_step (Hbody x) t. intros [] t' _. apply (IH _ t'); [done|done|]. intros [] t2 _. by apply Hok.
Qed.

Lemma validateAndRestoreSequences_tx context sequences :
  in_tx (validateAndRestoreSequences context sequences) (fun _ _ _ => True).
Proof.
  intros s t Q Hs Herr Hok. unfold validateAndRestoreSequences. tx_step is_enabled_reads t. intros e _.
  destruct e; cbn [negb]; [|wp_step; rewrite <- (set_working_same s t Hs); by apply Hok].
  wp_step. apply (in_tx_each (restore_sequence sequences) (rebuildTables context)) with (t := t); [|done|done|].
  { intros table. eapply in_tx_mono; [apply restore_sequence_tx|done]. }
  intros [] t' _. tx_step (reads_query foreign_key_violations) t'. intros v ->.
  tx_step (reads_fails_if (foreign_key_violations (objects t')) "SQLite rebuild failed foreign_key_check") t'. intros [] _.
  by apply Hok.
Qed.

Lemma validateResult_tx context sequences : in_tx (validateResult b context sequences) (fun _ _ _ => True).
Proof.
  intros s t Q Hs Herr Hok. unfold validateResult. tx_step (validateAndRestoreSequences_tx context sequences) t. intros [] t' _.
  tx_step (validateTargetValues_reads b context) t'. intros [] _. by apply Hok.
Qed.

(** Without tables to rebuild, only the values are read. *)
Lemma validateResult_reads context sequences :
  rebuildTables context = [] -> reads (validateResult b context sequences) (fun _ _ => True).
Proof.
  intros Hnone s Q Herr Hok. unfold validateResult, validateAndRestoreSequences. rewrite Hnone. cbn [each]. wp_step.
  read_step is_enabled_reads. intros e _. apply (wp_mono _ (fun r s' => match r with Ok _ => s' = s | Err f => Q (Err f) s' end)).
  - destruct e; cbn [negb]; [|by wp_step]. wp_step. wp_step.
    wp_front. apply reads_query; [done|]. intros v _. apply reads_fails_if; done.
  - intros [[]|f] s' Hr; [subst s'|done]. apply validateTargetValues_reads; [done|]. intros [] _. by apply Hok.
Qed.
End closures.
