(* ===== verification/Identities.v ===== *)
(** Identities: the sequences of generated keys through a SQLite rebuild, captured and
    restored by [captureSequences] and [validateAndRestoreSequences] of
    src/migrations/Runner.cpp. *)
From S2P Require Import Prelude Foundation Chrono Values Codec Schema Sha256 Models PhysicalSql Snapshot Diff SqlValidation Literals SchemaJson Generation Renames Catalog History Session State Protocol Journal Recovery Liveness Preflight TargetValues Runner Rebuild.
Local Open Scope string_scope.

(** ** Identities survive a rebuild *)
Lemma rows_named_app name l k : rows_named name (l ++ k)%list = (rows_named name l ++ rows_named name k)%list.
Proof. apply List.filter_app. Qed.

Lemma store_named name v rows :
  rows_named name (map (fun row => if bool_decide (row.1 = name) then (name, v) else row) rows)
  = map (fun _ => (name, v)) (rows_named name rows).
Proof.
  induction rows as [|[n w] rows IH]; [done|]. cbn. destruct (decide (n = name)) as [->|Hn].
  - rewrite !(bool_decide_true (name = name)) by done. cbn. by f_equal.
  - rewrite !(bool_decide_false (n = name)) by done. done.
Qed.

Lemma store_others name other v rows :
  other <> name ->
  rows_named other (map (fun row => if bool_decide (row.1 = name) then (name, v) else row) rows) = rows_named other rows.
Proof.
  intros Ho. induction rows as [|[n w] rows IH]; [done|]. cbn. destruct (decide (n = name)) as [->|Hn].
  - rewrite !(bool_decide_true (name = name)) by done. cbn. by rewrite !(bool_decide_false (name = other)) by congruence.
  - rewrite !(bool_decide_false (n = name)) by done. cbn. destruct (bool_decide (n = other)); [by f_equal|done].
Qed.

(** The stored value is the sequence of its name, and no sequence shrinks. *)
Lemma store_sequence_at name v rows :
  max_sequence name (store_sequence name (length (rows_named name rows)) v rows) = v.
Proof.
  unfold store_sequence, max_sequence. destruct (rows_named name rows) as [|r named] eqn:Hn; cbn [length Nat.eqb].
  - rewrite rows_named_app, Hn. cbn. by rewrite bool_decide_true by done.
  - rewrite store_named, Hn. cbn [map snd]. clear Hn. induction named as [|y named IH]; [done|].
    cbn [map fold_left snd]. by rewrite Z.max_id.
Qed.

Lemma store_sequence_grows name v rows other :
  (max_sequence name rows <= v)%Z ->
  (max_sequence other rows <= max_sequence other (store_sequence name (length (rows_named name rows)) v rows))%Z.
Proof.
  intros Hv. destruct (decide (other = name)) as [->|Ho]; [by rewrite store_sequence_at|].
  apply Z.eq_le_incl. unfold max_sequence, store_sequence. destruct (length (rows_named name rows) =? 0)%nat.
  - rewrite rows_named_app. cbn. by rewrite (bool_decide_false (name = other)), app_nil_r by congruence.
  - by rewrite store_others.
Qed.

Section identities.
Context `{SqliteObjects}.
Abbreviation tables := (Tables Objects).

(** Sequences grow and the rows stay. *)
Definition grows (t t' : tables) : Prop :=
  (forall c n, n <> "sqlite_sequence" -> maximum_of c n (objects t') = maximum_of c n (objects t)) /\
  forall rows, sqlite_sequence (objects t) = Some rows -> exists rows', sqlite_sequence (objects t') = Some rows' /\
    forall name, (max_sequence name rows <= max_sequence name rows')%Z.

#[global] Instance grows_preorder : PreOrder grows.
Proof.
  split.
  - intros t. split; [done|]. intros rows Hr. by exists rows.
  - intros t1 t2 t3 [Hm Hg1] [Hm' Hg2]. split; [intros; by rewrite Hm', Hm|]. intros rows Hr.
    destruct (Hg1 rows Hr) as (rows2 & Hr2 & Hle). destruct (Hg2 rows2 Hr2) as (rows3 & Hr3 & Hle').
    exists rows3. split; [done|]. intros name. specialize (Hle name). specialize (Hle' name). lia.
Qed.

(** The next identity of a table is above its rows and above [v]. *)
Definition identity_above (table : RebuildTable) (v : Z) (t : tables) : Prop :=
  forall identity, targetIdentity table = Some identity -> is_Some (sourceIdentity table) ->
    exists rows, sqlite_sequence (objects t) = Some rows /\
      (maximum_of identity (rb_target table) (objects t) <= max_sequence (rb_target table) rows)%Z /\
      (v <= max_sequence (rb_target table) rows)%Z.

Lemma identity_above_grows table v t t' :
  rb_target table <> "sqlite_sequence" -> grows t t' -> identity_above table v t -> identity_above table v t'.
Proof.
  intros Hn [Hm Hg] Ha identity Hi Hs. destruct (Ha identity Hi Hs) as (rows & Hr & Hmax & Hv).
  destruct (Hg rows Hr) as (rows' & Hr' & Hle). specialize (Hle (rb_target table)). exists rows'. split; [done|].
  rewrite Hm by done. split; lia.
Qed.

Lemma restore_sequence_grows sequences table :
  in_tx (restore_sequence sequences table) (fun t _ t' => grows t t' /\
    (rb_target table <> "sqlite_sequence" -> identity_above table (default 0%Z (sequences !! rb_target table)) t')).
Proof.
  eapply in_tx_mono; [apply restore_sequence_tx|]. intros t [] t'. unfold identity_above.
  destruct (sourceIdentity table) as [source|], (targetIdentity table) as [identity|];
    try (intros ->; (split; [reflexivity|]); by intros _ ? ? [? ?]).
  intros (rows & Hr & ->). unfold new_sequences, preserved.
  set (v := Z.max (Z.max _ _) _).
  assert (sqlite_sequence (with_sequences (store_sequence (rb_target table) (length (rows_named (rb_target table) rows)) v rows) (objects t))
    = Some (store_sequence (rb_target table) (length (rows_named (rb_target table) rows)) v rows)) as Hset by (apply sequences_set; by rewrite Hr).
  split.
  - split; cbn [objects]; [intros c n Hn; by apply maximum_set|]. rewrite Hr. intros ? [= <-]. eexists. split; [exact Hset|].
    intros name. apply store_sequence_grows. lia.
  - intros Hn ? [= <-] _. eexists. split; [exact Hset|]. cbn [objects]. rewrite maximum_set, store_sequence_at by done. lia.
Qed.

Lemma restore_loop_grows sequences l :
  Forall (fun table => rb_target table <> "sqlite_sequence") l ->
  in_tx (each l (restore_sequence sequences)) (fun t _ t' => grows t t' /\
    Forall (fun table => identity_above table (default 0%Z (sequences !! rb_target table)) t') l).
Proof.
  induction l as [|table l IH]; intros Hall; cbn [each]; intros s t Q Hs Herr Hok.
  - wp_step. rewrite <- (set_working_same s t Hs). apply Hok. split; [reflexivity|constructor].
  - inversion Hall as [|? ? Hn Hall']; subst.
    tx_step (restore_sequence_grows sequences table) t. intros [] t1 [Hg Ha].
    apply (IH Hall' _ t1); [done|done|]. intros [] t2 [Hg' Ha']. apply Hok.
    split; [by etransitivity|]. constructor; [|done]. apply (identity_above_grows _ _ t1); auto.
Qed.

(** What [captureSequences] keeps of a table. *)
Definition source_sequence (table : RebuildTable) (t : tables) : Z :=
  max_sequence (rb_source table) (default [] (sqlite_sequence (objects t))).

Lemma capture_loop_captures l sequences :
  NoDup (map rb_target l) ->
  reads (capture_loop l sequences) (fun t a =>
    (forall name, name ∉ map rb_target l -> a !! name = sequences !! name) /\
    Forall (fun table => identities table = true -> a !! rb_target table = Some (source_sequence table t)) l).
Proof.
  revert sequences. induction l as [|table l IH]; intros sequences Hnd s Q Herr Hok; cbn [capture_loop].
  - wp_step. apply Hok. split; [done|constructor].
  - cbn [map] in Hnd. apply NoDup_cons in Hnd as [Hnot Hnd]. destruct (identities table) eqn:Hi.
    + read_step (reads_query (fun o => max_sequence (rb_source table) (default [] (sqlite_sequence o)))). intros v ->.
      apply (IH _ Hnd); [done|]. intros a [Hrest Hall]. apply Hok. split.
      * intros name [Hne Hno]%not_elem_of_cons. rewrite Hrest by done. by rewrite lookup_insert_ne.
      * constructor; [|done]. intros _. rewrite Hrest by done. by rewrite lookup_insert_eq.
    + apply (IH _ Hnd); [done|]. intros a [Hrest Hall]. apply Hok. split.
      * intros name [Hne Hno]%not_elem_of_cons. by apply Hrest.
      * constructor; [by rewrite Hi|done].
Qed.

(** A rebuild is under way. *)
Definition rebuilding (s : Session) : Prop := exists r, rebuild_ s = Some r /\ enabled r = true.

Lemma is_enabled_wp (Q : result failure bool -> Session -> Prop) s : rebuilding s -> Q (Ok true) s -> wp is_enabled Q s.
Proof. intros (r & Hr & He) HQ. unfold is_enabled. do 3 wp_step. by rewrite Hr, He. Qed.

(** What is captured for every table that keeps its identities; without a table of
    sequences nothing is, and every sequence is 0. *)
Lemma captureSequences_wp context s t (Q : result failure (gmap string Z) -> Session -> Prop) :
  rebuilding s -> working s = Some t -> tx_fails Q s -> NoDup (map rb_target (rebuildTables context)) ->
  (forall a, Forall (fun table => identities table = true -> default 0%Z (a !! rb_target table) = source_sequence table t)
               (rebuildTables context) -> Q (Ok a) s) ->
  wp (captureSequences context) Q s.
Proof.
  intros He Hs Herr Hnd Hok. unfold captureSequences. wp_step. apply is_enabled_wp; [done|]. cbn [negb].
  tx_step (reads_query (fun o => is_some (sqlite_sequence o))) t. intros x ->.
  destruct (sqlite_sequence (objects t)) as [rows|] eqn:Hrows; cbn [is_some negb].
  - apply (reads_tx _ _ s t _ (capture_loop_captures (rebuildTables context) ∅ Hnd)); [done|done|].
    intros a [_ Hall]. apply Hok. eapply Forall_impl; [exact Hall|]. intros table Ht Hi. by rewrite (Ht Hi).
  - wp_step. apply Hok. apply Forall_forall. intros table _ _. rewrite lookup_empty. unfold source_sequence. by rewrite Hrows.
Qed.

Lemma validateAndRestoreSequences_wp context sequences s t (Q : result failure unit -> Session -> Prop) :
  rebuilding s -> working s = Some t -> tx_fails Q s ->
  Forall (fun table => rb_target table <> "sqlite_sequence") (rebuildTables context) ->
  (forall t', grows t t' -> foreign_key_violations (objects t') = false ->
     Forall (fun table => identity_above table (default 0%Z (sequences !! rb_target table)) t') (rebuildTables context) ->
     Q (Ok tt) (set_working (Some t') s)) ->
  wp (validateAndRestoreSequences context sequences) Q s.
Proof.
  intros He Hs Herr Hn Hok. unfold validateAndRestoreSequences. wp_step. apply is_enabled_wp; [done|]. cbn [negb].
  tx_step (restore_loop_grows sequences (rebuildTables context) Hn) t. intros [] t' [Hg Ha].
  tx_step (reads_query foreign_key_violations) t'. intros v ->.
  tx_step (reads_fails_if (foreign_key_violations (objects t')) "SQLite rebuild failed foreign_key_check") t'. intros [] Hv.
  by apply Hok.
Qed.
End identities.

(** C9: A SQLite rebuild keeps the identities of the rows it moves, whatever call fails
    and whatever its script does to the tables: when the sequences are captured, the
    script has run and the restoration succeeds, no foreign key is violated and, for
    every rebuilt table whose key is generated before and after, the sequence of the
    new table is at least its greatest identity and at least the sequence that the old
    table had, so no identity that was ever given out is given out again. *)
Theorem rebuild_keeps_identities `{SqliteObjects} context
    (script : M unit) s t :
  rebuilding s -> working s = Some t -> in_tx script (fun _ _ _ => True) ->
  NoDup (map rb_target (rebuildTables context)) ->
  Forall (fun table => rb_target table <> "sqlite_sequence") (rebuildTables context) ->
  wp (captured ← captureSequences context; script ;; validateAndRestoreSequences context captured) (fun r s' =>
    r = Ok tt -> exists t', working s' = Some t' /\ foreign_key_violations (objects t') = false /\
      Forall (fun table => identity_above table (source_sequence table t) t') (rebuildTables context)) s.
Proof.
  intros He Hs Hscript Hnd Hn. set (Q := fun r s' => _).
  assert (forall A (f : A -> failure) (P : A -> Session -> Prop) x, tx_fails (fun r s' => match r with Ok a => P a s' | Err f => Q (Err f) s' end) x) as Herr.
  { intros A f P x g. by split. }
  wp_step. apply (captureSequences_wp context s t); [done|done|by intros f; split|done|]. intros a Hall.
  wp_step. apply (Hscript s t); [done|by intros f; split|]. intros [] t1 _.
  apply (validateAndRestoreSequences_wp context a _ t1); [done|done|by intros f; split|done|].
  intros t2 _ Hv Ha _. exists t2. split; [done|]. split; [done|].
  rewrite Forall_forall in *. intros table Ht identity Hi Hsrc. rewrite <- (Hall table Ht); [by apply Ha|].
  unfold identities. rewrite Hi. by destruct Hsrc as [? ->].
Qed.
