(* ===== verification/Execution.v ===== *)
(** Execution: plans are carried out one durable step at a time -- [Runner::execute] of
    src/migrations/Runner.cpp. *)
From S2P Require Import Prelude Foundation Chrono Values Codec Schema Sha256 Models PhysicalSql Snapshot Diff SqlValidation Literals SchemaJson Generation Renames Catalog History Session State Protocol Journal Recovery Liveness Preflight TargetValues Runner Rebuild.
Local Open Scope string_scope.

Section run.
Context `{JsonLibrary} `{Introspection} `{!StoredValues} `{!SqliteObjects} (b : BackendType) (catalog : list Migration).
Abbreviation tables := (Tables Objects).

(** The error of a commit that took place while the session's settings did not come
    back. *)
Definition unrestored (version : Z) : failure :=
  Exception (MigrationError SessionRestoration
    "Migration committed, but session restoration failed; reconnect and inspect history" version b None).

(** How a step ends when the application itself ended with [r]. *)
Definition ends {A} (version : Z) (r r' : result failure A) : Prop :=
  match r with
  | Ok a => r' = Ok a \/ r' = Err (unrestored version)
  | Err f => r' = Err (rethrown b version f)
  end.

Lemma entered_left s0 m s s' : entered s0 m s -> left_idle s s' -> live s0 m s'.
Proof.
  intros (_ & Hfk & Hm) (Hi & Ha & Hf & Hr). split; [done|]. split; [unfold fk_ok in *; by rewrite Hf|].
  rewrite Hr. destruct m.
  - destruct Hm as (-> & Ha' & Hf'). eexists _, false. split_and!; [done..|congruence|]. intros _. split; [done|congruence].
  - rewrite Hm. eexists _, true. by split_and!.
Qed.

(** A step whose application, from every session the object can leave, ends in [P]. *)
Lemma run_step_wp d expected version s0 (P : result failure (list AppliedMigration) -> tables -> list tables -> Prop) :
  idle s0 -> rebuild_ s0 = None -> fk_ok s0 ->
  (forall f, P (Err f) (durable s0) (trace s0)) ->
  (forall m x s, find_by version_of version catalog = Some m -> BackendMap.find b (scripts m) = Some x ->
     entered s0 (mode (contextOf x d)) s -> kept s0 s ->
     wp (apply b catalog m d expected (preflight b (contextOf x d)) (validateResult b (contextOf x d)))
       (fun r s' => left_idle s s' /\ P r (durable s') (trace s')) s) ->
  wp (run_step b catalog d expected version)
    (fun r s' => restored s0 s' /\ exists r0, P r0 (durable s') (trace s') /\ ends version r0 r) s0.
Proof.
  intros Hidle Hnone Hfk Hfail Happly. unfold run_step, rethrow. wp_step.
  assert (restored s0 s0) as Hrefl by (by split_and!).
  assert (forall f s', kept s0 s' -> restored s0 s' ->
    wp (throw (rethrown b version f)) (fun r s' => restored s0 s' /\ exists r0, P r0 (durable s') (trace s') /\ ends version r0 r) s') as Hthrow.
  { intros f s' [Hd Ht] Hr. wp_step. split; [done|]. exists (Err f). rewrite Hd, Ht. by split. }
  wp_step. wp_step; [intros m Hm|intros e _; by apply Hthrow].
  wp_step. wp_step; [intros x Hx|intros e _; by apply Hthrow]. cbv zeta. set (ctx := contextOf x d).
  wp_step. wp_step. apply (SqliteRebuildSession_wp s0); [done..| |].
  2: { intros s' f Hk Hr. apply SqliteRebuildSession_end_none; [by destruct Hr as (_ & _ & ? & _)|]. by apply Hthrow. }
  intros s1 Hk He. wp_step.
  apply (wp_mono _ _ _ _ (Happly m x s1 ltac:(by destruct (find_by _ _ _); [injection Hm as ->|]) ltac:(by destruct (BackendMap.find _ _); [injection Hx as ->|]) He Hk)).
  intros r s2 [Hleft HP]. pose proof (entered_left _ _ _ _ He Hleft) as Hlive.
  set (Post := fun r s' => restored s0 s' /\ exists r0, P r0 (durable s') (trace s') /\ ends version r0 r).
  assert (forall r' s3, kept s2 s3 -> live s0 (mode ctx) s3 ->
    (forall s4, kept s3 s4 -> restored s0 s4 -> match r' with Ok a => Post (Ok a) s4 | Err f => Post (Err (rethrown b version f)) s4 end) ->
    wp (SqliteRebuildSession_end (mode ctx)) (fun _ s' =>
      match r' with Ok a => Post (Ok a) s' | Err f => wp (throw (rethrown b version f)) Post s' end) s3) as Hend.
  { intros r' s3 _ Hl Hr. apply (SqliteRebuildSession_end_wp s0); [done|done|]. intros s4 Hk4 Hr4. specialize (Hr s4 Hk4 Hr4).
    destruct r'; [done|]. by wp_step. }
  destruct r as [actual|f].
  - wp_step. apply (restoreAfterCommit_wp s0); [done|done| |]; intros s3 [Hd3 Ht3] Hl3; [wp_step; apply (Hend (Ok actual))|eapply (Hend (Err _))]; try done;
      intros s4 [Hd4 Ht4] Hr4; (split; [done|]); exists (Ok actual); rewrite Hd4, Ht4, Hd3, Ht3; (split; [done|]); [by left|by right].
  - apply (Hend (Err f)); [done|done|]. intros s4 [Hd4 Ht4] Hr4. split; [done|]. exists (Err f). by rewrite Hd4, Ht4.
Qed.

(** Without a connection a step fails and leaves everything as it is. *)
Definition refused {A} (s : Session) (r : result failure A) (s' : Session) : Prop := s' = s /\ exists f, r = Err f.

Lemma wp_call_off {A} (effect : Session -> result failure (A * Session)) (Q : result failure A -> Session -> Prop) s :
  connected s = false -> Q (Err (SociError None)) s -> wp (call effect) Q s.
Proof. intros Hc HQ n. unfold call. by rewrite Hc. Qed.

Lemma refused_throw {A} (s : Session) f : wp (throw f) (@refused A s) s.
Proof. wp_step. by split; [|eexists]. Qed.

Lemma apply_off {A} m d expected (preflight : M A) validateResult s :
  connected s = false -> idle s -> wp (apply b catalog m d expected preflight validateResult) (refused s) s.
Proof.
  intros Hc (Hw & Hlk & Ht & Hl). unfold apply, rethrow. wp_step. wp_step.
  wp_step; [intros sql _|intros e _; apply refused_throw]. wp_step. wp_step.
  assert (HistoryWrite b = match atomicity b with
    | NonTransactional => call (fun s => Ok (tt, set_locked true s)) ;; setActive true ;; modify (set_lock (Some false))
    | WholeMigration => s ← get; call (fun s => Ok (tt, set_working (Some (durable s)) s)) ;; setActive true ;;
        modify (set_transaction (Some (MkTransaction false (active s)))) end) as ->.
  { unfold HistoryWrite, MigrationLock, Transaction, beginMigration, session_begin. by destruct (atomicity b). }
  destruct (atomicity b); repeat wp_step; (apply wp_call_off; [done|]); unfold HistoryWrite_end; wp_step;
    (apply Transaction_end_none; [done|]); (apply MigrationLock_end_none; [done|]); apply refused_throw.
Qed.

Lemma restoreNoThrow_disabled m a p (Q : result failure unit -> Session -> Prop) s :
  rebuild_ s = Some (MkRebuildObject a p false) ->
  Q (Ok tt) (match m with SqliteRebuild => set_active a s | Normal => s end) -> wp (restoreNoThrow m) Q s.
Proof.
  intros Hr HQ. unfold restoreNoThrow, restore, setActive. do 5 wp_step. rewrite Hr. cbn [enabled negb rebuildPreviousActive].
  destruct m; [rewrite bool_decide_false by done|rewrite bool_decide_true by done]; by wp_step.
Qed.

Lemma same_rebuild s r : rebuild_ s = None -> set_rebuild None (set_rebuild r s) = s.
Proof. intros Hr. destruct s. cbn in *. by rewrite Hr. Qed.

Lemma run_step_off d expected version s :
  connected s = false -> idle s -> rebuild_ s = None -> wp (run_step b catalog d expected version) (refused s) s.
Proof.
  intros Hc Hidle Hr. unfold run_step, rethrow. wp_step. wp_step.
  wp_step; [intros m _|intros e _; apply refused_throw]. wp_step. wp_step; [intros x _|intros e _; apply refused_throw].
  cbv zeta. set (ctx := contextOf x d). wp_step. wp_step. unfold SqliteRebuildSession, setActive. do 4 wp_step.
  destruct (mode ctx) eqn:Hmode; [rewrite bool_decide_false by done|rewrite bool_decide_true by done]; cbn [negb].
  - do 2 wp_step. set (s1 := set_rebuild _ s).
    apply (wp_mono _ (refused s1)); [by apply apply_off|]. intros r s' [-> [f ->]]. unfold SqliteRebuildSession_end. wp_step.
    eapply (restoreNoThrow_disabled Normal); [done|]. wp_step.
    unfold s1. rewrite same_rebuild by done. apply refused_throw.
  - wp_step. wp_step. wp_step. wp_step. apply wp_call_off; [done|]. wp_step.
    eapply (restoreNoThrow_disabled SqliteRebuild); [done|]. do 5 wp_step.
    match goal with |- wp _ _ ?s1 => assert (s1 = s) as -> by (destruct s; cbn in *; by subst) end.
    apply SqliteRebuildSession_end_none; [done|]. apply refused_throw.
Qed.
End run.

(** ** Histories that change one record at a time *)
Section walks.
Context `{JsonLibrary} `{Engine} (b : BackendType) (catalog : list Migration) (d : Direction).
Abbreviation tables := (Tables Objects).

(** From a history through durable states: each holds the history of the one before
    or, valid and one record away, the next. *)
Inductive walks (h : list AppliedMigration) : list tables -> list AppliedMigration -> Prop :=
| walks_nil : walks h [] h
| walks_same l h1 t : walks h l h1 -> history_of t = Ok h1 -> walks h (l ++ [t])%list h1
| walks_step l h1 t h2 :
    walks h l h1 -> history_of t = Ok h2 -> one_step d h1 h2 -> valid_history b catalog h2 -> walks h (l ++ [t])%list h2.

Definition advanced (h : list AppliedMigration) (s s' : Session) (h' : list AppliedMigration) : Prop :=
  exists l, trace s' = (rev l ++ trace s)%list /\ walks h l h' /\ history_of (durable s') = Ok h'.

Lemma advanced_refl h s : history_of (durable s) = Ok h -> advanced h s s h.
Proof. intros Hh. exists []. split; [done|]. by split; [constructor|]. Qed.

Lemma advanced_kept h s s1 h1 s2 : advanced h s s1 h1 -> durable s2 = durable s1 -> trace s2 = trace s1 -> advanced h s s2 h1.
Proof. intros (l & Ht & Hw & Hd) Hd' Ht'. exists l. by rewrite Hd', Ht'. Qed.

Lemma advanced_same h s s1 h1 s2 :
  advanced h s s1 h1 -> durable s2 = durable s1 -> trace s2 = durable s1 :: trace s1 -> advanced h s s2 h1.
Proof.
  intros (l & Ht & Hw & Hd) Hd' Ht'. exists (l ++ [durable s1])%list. rewrite rev_app_distr, Ht', Ht, Hd'. cbn.
  split; [done|]. split; [|done]. by constructor.
Qed.

Lemma advanced_step h s s1 h1 s2 h2 :
  advanced h s s1 h1 -> trace s2 = durable s2 :: trace s1 -> history_of (durable s2) = Ok h2 ->
  one_step d h1 h2 -> valid_history b catalog h2 -> advanced h s s2 h2.
Proof.
  intros (l & Ht & Hw & Hd) Ht' Hh Hone Hv. exists (l ++ [durable s2])%list. rewrite rev_app_distr, Ht', Ht. cbn.
  split; [done|]. split; [|done]. by eapply walks_step.
Qed.
End walks.

(** ** Plans on backends that roll scripts back *)
Section whole_plans.
Context `{JsonLibrary} `{Introspection} `{!StoredValues} `{!SqliteObjects} (b : BackendType) (catalog : list Migration).
Context (whole : atomicity b = WholeMigration) (d : Direction).
Abbreviation tables := (Tables Objects).

Lemma restored_trans s s1 s2 : connected s1 = true -> restored s s1 -> restored s1 s2 -> restored s s2.
Proof.
  intros Hc (_ & Ha & _ & _ & Hf) (Hi & Ha' & Hr & Hfk & Hf'). split_and!; [done|congruence|done|done|].
  intros Hc2. rewrite Hf' by done. by apply Hf.
Qed.

(** What one step leaves: what it found, or one commit with one record more or less. *)
Definition step_left (expected : list AppliedMigration) (s : Session) (r : result failure (list AppliedMigration))
    (t : tables) (l : list tables) : Prop :=
  (t = durable s /\ l = trace s /\ exists f, r = Err f) \/
  exists actual, l = t :: trace s /\ history_of (durable s) = Ok expected /\ history_of t = Ok actual /\
    one_step d expected actual /\ valid_history b catalog actual /\ forall a, r = Ok a -> a = actual.

Lemma run_step_whole expected version s :
  idle s -> rebuild_ s = None -> fk_ok s ->
  wp (run_step b catalog d expected version)
    (fun r s' => restored s s' /\ exists r0, step_left expected s r0 (durable s') (trace s') /\ ends b version r0 r) s.
Proof.
  intros Hidle Hr Hfk. apply run_step_wp; [done..| |].
  - intros f. left. split_and!; [done|done|by eexists].
  - intros m x s1 Hm Hx (Hi & _) [Hd Ht]. eapply wp_mono.
    + apply apply_whole; [done|done| |].
      * eapply in_tx_mono; [apply reads_in_tx, preflight_reads|done].
      * intros a. apply validateResult_tx.
    + intros r s2 [Hl Hcase]. split; [done|]. unfold step_left. rewrite <- Hd, <- Ht.
      destruct Hcase as [[[Hd2 Ht2] Hf]|(actual & Htr & Hh & Hh' & Hone & Hv & Hres)]; [by left|]. right. exists actual.
      split_and!; try done. intros a ->. destruct Hres as [[= ->]|]; done.
Qed.

Definition after (n : nat) (h h' : list AppliedMigration) : Prop :=
  match d with Up => length h' = (length h + n)%nat | Down => (length h' + n)%nat = length h end.

Lemma run_steps_whole steps h s h1 s1 :
  restored s s1 -> advanced b catalog d h s s1 h1 ->
  wp (run_steps b catalog d steps h1) (fun r s' => restored s s' /\ exists h', advanced b catalog d h s s' h' /\
    forall a, r = Ok a -> a = h' /\ after (length steps) h1 h') s1.
Proof.
  revert h1 s1. induction steps as [|step steps IH]; intros h1 s1 Hrest Hadv; cbn [run_steps].
  - wp_step. split; [done|]. exists h1. split; [done|]. intros a [= <-]. split; [done|]. unfold after. cbn. destruct d; lia.
  - wp_step. pose proof Hrest as (Hidle & _ & Hnone & Hfk & _). destruct (connected s1) eqn:Hc.
    + eapply wp_mono; [by apply run_step_whole|]. intros r s2 [Hr2 (r0 & Hleft & Hends)].
      apply (restored_trans s) in Hr2; [|done|done].
      destruct Hleft as [(Hd & Ht & f & ->)|(actual & Ht & _ & Hh & Hone & Hv & Ha)].
      * cbn in Hends. subst r. split; [done|]. exists h1. split; [by eapply advanced_kept|done].
      * assert (advanced b catalog d h s s2 actual) as Hadv2 by (by eapply advanced_step).
        destruct r as [a|f]; [|split; [done|]; by exists actual].
        destruct r0 as [a0|f0]; [|done]. destruct Hends as [[= ->]|]; [|done]. rewrite (Ha a0 eq_refl) in *.
        eapply wp_mono; [by apply IH|]. intros r s3 (Hr3 & h' & Hadv3 & Hok). split; [done|]. exists h'. split; [done|].
        intros x Hx. destruct (Hok x Hx) as [-> Hlen]. split; [done|]. unfold after in *. cbn [length].
        destruct d; destruct Hone as [z ->]; rewrite length_app in *; cbn in *; lia.
    + eapply wp_mono; [by apply run_step_off|]. intros r s2 [-> [f ->]]. split; [done|]. by exists h1.
Qed.
End whole_plans.

(** ** The whole operation *)
Section plans.
Context `{JsonLibrary} `{Introspection} `{!StoredValues} `{!SqliteObjects} (b : BackendType) (catalog : list Migration).
Context (increasing_catalog : increasing catalog) (d : Direction).
Abbreviation tables := (Tables Objects).

(** The version that a matching history ends with is given by its length. *)
Lemma matching_version h : matching b catalog h -> lastVersion h = versionAfter (take (length h) catalog).
Proof.
  intros (_ & rest & recorded & -> & Hall). rewrite (recorded_version b recorded) by done.
  by rewrite <- (Forall2_length _ _ _ Hall), take_app_length.
Qed.

Lemma walks_matching h l h' : matching b catalog h -> walks b catalog d h l h' -> matching b catalog h'.
Proof.
  intros Hm Hw. induction Hw as [|l h1 t Hw IH Hh|l h1 t h2 Hw IH Hh Hone [st [Hst Hv]]]; [done..|].
  apply (valid_history_matching b catalog increasing_catalog h2 st Hst).
  rewrite <- (requireValid_isValid b) in Hv. unfold is_ok in Hv. destruct (requireValid b st); [by eexists|done].
Qed.

(** A plan that is carried out leads to its target. *)
Lemma plan_target h st target p h' :
  evaluate b catalog h None = Ok st -> plan b catalog st d target = Ok p -> matching b catalog h' ->
  after d (length (plan_migrations p)) h h' -> lastVersion h' = default (defaultTarget catalog d) target.
Proof.
  intros Hst (p0 & Hp0 & [= <-])%bind_Ok_iff Hm Hlen. cbn [plan_migrations] in Hlen.
  destruct (makePlan_way b catalog h st d target p0 increasing_catalog Hst Hp0) as (_ & <- & recorded & rest & Hcat & Hall & _ & Hway).
  rewrite matching_version by done. apply Forall2_length in Hall. unfold after in Hlen. destruct d.
  - destruct Hway as (seg & later & Hrest & <- & Hseg). apply Forall2_length in Hseg. f_equal.
    rewrite Hcat, Hrest, app_assoc. apply take_app_length'. rewrite length_app. lia.
  - destruct Hway as (earlier & seg & Hrec & <- & Hseg & _). apply Forall2_length in Hseg. rewrite length_reverse in Hseg. f_equal.
    rewrite Hcat, Hrec, <- app_assoc. apply take_app_length'. rewrite Hrec, length_app in Hall. lia.
Qed.

Lemma translated_reads (m : M unit) :
  reads m (fun _ _ => True) -> reads (catch m (fun f => throw (databaseFailure b 0 f))) (fun _ _ => True).
Proof. intros Hm s Q Herr Hok. wp_step. apply Hm; [|done]. intros f. split; wp_step; apply Herr. Qed.

Lemma ready_reads busy : reads (ready b busy) (fun _ _ => True).
Proof.
  intros s Q Herr Hok. unfold ready, isConnected. do 4 wp_step.
  read_step (reads_throwIf b (negb (connected s)) NotConnected "Migrations require a connected database" 0). intros [] _.
  do 2 wp_step.
  read_step (reads_throwIf b (busy || active s) ActiveTransaction "Migrations require an idle database session" 0). intros [] _.
  read_step (reads_lift (backendName b)). intros _ _.
  by apply (translated_reads _ (validateMigrationSession_reads b)).
Qed.

Lemma MigrationState_reads busy : reads (MigrationState b catalog busy) (fun _ _ => True).
Proof.
  intros s Q Herr Hok. unfold MigrationState. read_step (ready_reads busy). intros [] _.
  read_step (reads_lift (validateCatalog b catalog)). intros [] _.
  apply translated_reads; [|done|done]. unfold migrationTable. destruct (bool_decide (b = Sqlite)); [|apply reads_call_unit].
  by apply (reads_mono _ _ _ (reads_ret tt)).
Qed.

Lemma execute_whole busy target h s :
  atomicity b = WholeMigration -> idle s -> rebuild_ s = None -> fk_ok s -> history_of (durable s) = Ok h ->
  wp (execute b catalog busy d target) (fun r s' => restored s s' /\ exists h', advanced b catalog d h s s' h' /\
    (r = Ok tt -> matching b catalog h' /\ lastVersion h' = default (defaultTarget catalog d) target)) s.
Proof.
  intros Hwhole Hidle Hnone Hfk Hh. pose proof Hidle as (Hw & Hlk & Ht & Hl). unfold execute.
  set (Q := fun r s' => restored s s' /\ _). set (s1 := set_durable (durable s) s).
  assert (restored s s1) as Hs1 by done.
  assert (advanced b catalog d h s s1 h) as Ha1 by (by eapply advanced_same; [apply advanced_refl|..]).
  assert (may_fail Q s) as Herr.
  { intros f. split; (split; [done|]); exists h; (split; [by eapply advanced_kept; [apply advanced_refl|..]|done]). }
  assert (may_fail Q s1) as Herr1.
  { intros f. split; (split; [done|]); exists h; (split; [by eapply advanced_kept|done]). }
  read_step (MigrationState_reads busy). intros [] _. wp_step.
  apply status_wp; [done|done|exact Herr|exact Herr1|]. intros h0 mk st Hh0 Hmk Hst.
  assert (h0 = h) as -> by congruence. fold s1. wp_step. wp_step; [intros p Hp|intros e _; apply Herr1]. wp_step.
  pose proof (evaluate_Ok b catalog h mk st (increasing_NoDup _ increasing_catalog) Hst) as (Happ & Hinc & _ & _ & _ & Hprob).
  rewrite Happ. eapply wp_mono; [by apply (run_steps_whole b catalog Hwhole d _ h s h s1)|].
  intros [a|f] s' (Hr & h' & Hadv & Hok); [wp_step|]; (split; [done|]); exists h'; (split; [done|]); [|done].
  intros _. destruct (Hok a eq_refl) as [_ Hlen].
  pose proof Hp as (p0 & (u & Hv & _)%bind_Ok_iff & _)%bind_Ok_iff. apply requireValid_Ok_iff in Hv as [Hnil Hi].
  apply Hprob in Hnil as [Hm _]. assert (mk = None) as -> by congruence.
  destruct Hadv as (l & _ & Hwalk & _). assert (matching b catalog h') as Hm' by (by eapply walks_matching).
  split; [done|]. by eapply plan_target.
Qed.
End plans.

(** C6: Carrying out a plan on a backend that rolls scripts back, whatever calls fail and
    whatever the scripts do: the durable states walk from the recorded history, each
    commit one record more or less and valid for the catalog, so no intermediate state
    is ever durable; when it returns, the history ends with the target, which by
    default is the end of the catalog; and however it ends, no transaction, lock or
    object is left, no migration is active and SQLite's foreign keys are as they were
    unless the connection was closed. *)
Theorem execute_atomic `{JsonLibrary} `{Introspection} `{!StoredValues} `{!SqliteObjects} b catalog busy d target h s :
  increasing catalog -> atomicity b = WholeMigration ->
  idle s -> rebuild_ s = None -> fk_ok s -> history_of (durable s) = Ok h ->
  wp (execute b catalog busy d target) (fun r s' => restored s s' /\ exists h', advanced b catalog d h s s' h' /\
    (r = Ok tt -> matching b catalog h' /\ lastVersion h' = default (defaultTarget catalog d) target)) s.
Proof. intros. by apply execute_whole. Qed.

(** ** Plans on backends that commit every statement *)
Section journeys.
Context `{JsonLibrary} `{Introspection} `{!StoredValues} `{!SqliteObjects} (b : BackendType) (catalog : list Migration).
Context (increasing_catalog : increasing catalog) (nontransactional : atomicity b = NonTransactional) (d : Direction).
Abbreviation tables := (Tables Objects).
Abbreviation recorded := (Recorded Objects).

(** From what is recorded through durable states, each a step of the journal's machine
    for the migration under way; one begins when the one before has left no marker. *)
Inductive journey (a : recorded) : list tables -> recorded -> Prop :=
| journey_nil : journey a [] a
| journey_same l a1 t : journey a l a1 -> records b t a1 -> journey a (l ++ [t])%list a1
| journey_apply l a1 m k a2 :
    journey a l a1 -> rec_marker a1 = None -> m ∈ catalog -> follows b (apply_step b catalog m d a1) a1 k a2 ->
    journey a (l ++ k)%list a2.

Definition travelled (a : recorded) (s s' : Session) (a' : recorded) : Prop :=
  exists l, trace s' = (rev l ++ trace s)%list /\ journey a l a' /\ records b (durable s') a'.

Lemma travelled_refl a s : records b (durable s) a -> travelled a s s a.
Proof. intros Hr. exists []. split; [done|]. by split; [constructor|]. Qed.

Lemma travelled_kept a s s1 a1 s2 : travelled a s s1 a1 -> durable s2 = durable s1 -> trace s2 = trace s1 -> travelled a s s2 a1.
Proof. intros (l & Ht & Hj & Hr) Hd' Ht'. exists l. by rewrite Hd', Ht'. Qed.

Lemma travelled_same a s s1 a1 s2 :
  travelled a s s1 a1 -> durable s2 = durable s1 -> trace s2 = durable s1 :: trace s1 -> travelled a s s2 a1.
Proof.
  intros (l & Ht & Hj & Hr) Hd' Ht'. exists (l ++ [durable s1])%list. rewrite rev_app_distr, Ht', Ht, Hd'. cbn.
  split; [done|]. split; [|done]. by constructor.
Qed.

Lemma travelled_apply a s s1 a1 m s2 a2 k :
  travelled a s s1 a1 -> rec_marker a1 = None -> m ∈ catalog ->
  trace s2 = (rev k ++ trace s1)%list -> follows b (apply_step b catalog m d a1) a1 k a2 -> records b (durable s2) a2 ->
  travelled a s s2 a2.
Proof.
  intros (l & Ht & Hj & Hr) Hn Hm Ht' Hf Hr'. exists (l ++ k)%list. rewrite rev_app_distr, Ht', Ht, app_assoc.
  split; [done|]. split; [|done]. by eapply journey_apply.
Qed.

(** The migrations are made for such a backend. *)
Definition plain (m : Migration) : Prop :=
  (forall sql, scriptOf b m d = Ok sql -> polite sql) /\
  forall x, BackendMap.find b (scripts m) = Some x -> mode (contextOf x d) = Normal /\ rebuildTables (contextOf x d) = [].

Context (all_plain : Forall plain catalog).

(** What one step leaves. *)
Definition step_travels (a : recorded) (expected : list AppliedMigration) (s : Session)
    (r : result failure (list AppliedMigration)) (t : tables) (l : list tables) : Prop :=
  (t = durable s /\ l = trace s /\ exists f, r = Err f) \/
  exists m k a', m ∈ catalog /\ l = (rev k ++ trace s)%list /\ follows b (apply_step b catalog m d a) a k a' /\
    records b t a' /\ forall actual, r = Ok actual ->
      rec_history a' = actual /\ rec_marker a' = None /\ one_step d expected actual /\ valid_history b catalog actual.

Lemma find_elem version m : find_by version_of version catalog = Some m -> m ∈ catalog.
Proof. unfold find_by. intros [Hm _]%find_some. by apply list_elem_of_In. Qed.

Lemma run_step_journalled a version s :
  idle s -> active s = false -> rebuild_ s = None -> fk_ok s -> records b (durable s) a -> rec_marker a = None ->
  wp (run_step b catalog d (rec_history a) version)
    (fun r s' => restored s s' /\ exists r0, step_travels a (rec_history a) s r0 (durable s') (trace s') /\ ends b version r0 r) s.
Proof.
  intros Hidle Hact Hr Hfk Hrec Hnone. apply run_step_wp; [done..| |].
  - intros f. left. split_and!; [done|done|by eexists].
  - intros m x s1 Hm%find_elem Hx (Hi & Hfk1 & Hent) [Hd Ht].
    pose proof all_plain as Hp. rewrite Forall_forall in Hp. destruct (Hp m Hm) as [Hpolite Hctx].
    destruct (Hctx x Hx) as [Hmode Hnil]. rewrite Hmode in Hent. destruct Hent as (_ & Ha1 & _).
    eapply wp_mono; [apply (apply_held b catalog m d nontransactional s1 a)|].
    + done.
    + congruence.
    + by rewrite Hd.
    + done.
    + apply preflight_reads.
    + intros c. by apply validateResult_reads.
    + intros r s2 [Hl (a' & (k & Htr & _ & Hf & Hrec') & Hgood)]. split; [done|]. right. exists m, k, a'.
      rewrite <- Ht. split_and!; [done..|]. intros actual ->.
      destruct (Hgood actual eq_refl) as (_ & _ & Hh & Hmk & Hone). split_and!; [done..|].
      destruct (consistent_follows b catalog m d a k a' Hnone Hf) as [Hc _]. unfold consistent in Hc. rewrite Hmk in Hc.
      rewrite <- Hh. destruct Hc as [->|[_ Hv]]; [|done].
      exfalso. rewrite Hh in Hone. destruct d; destruct Hone as [z Hz]; apply (f_equal length) in Hz; rewrite length_app in Hz; cbn in Hz; lia.
Qed.

Lemma run_steps_journalled steps a s a1 s1 :
  active s = false -> restored s s1 -> travelled a s s1 a1 -> rec_marker a1 = None -> matching b catalog (rec_history a1) ->
  wp (run_steps b catalog d steps (rec_history a1)) (fun r s' => restored s s' /\ exists a', travelled a s s' a' /\
    forall h, r = Ok h -> rec_marker a' = None /\ rec_history a' = h /\ matching b catalog h /\ after d (length steps) (rec_history a1) h) s1.
Proof.
  revert a1 s1. induction steps as [|step steps IH]; intros a1 s1 Hact Hrest Htrav Hnone Hmatch; cbn [run_steps].
  - wp_step. split; [done|]. exists a1. split; [done|]. intros h [= <-]. split_and!; [done..|]. unfold after. cbn. destruct d; lia.
  - wp_step. pose proof Hrest as (Hidle & Ha & Hr & Hfk & _). destruct (connected s1) eqn:Hc.
    + pose proof Htrav as (l0 & _ & _ & Hrec). eapply wp_mono; [apply run_step_journalled; [done|congruence|done..]|].
      intros r s2 [Hr2 (r0 & Hleft & Hends)]. apply (restored_trans s) in Hr2; [|done|done].
      destruct Hleft as [(Hd & Ht & f & ->)|(m & k & a2 & Hm & Ht & Hf & Hrec2 & Hgood)].
      * cbn in Hends. subst r. split; [done|]. exists a1. split; [by eapply travelled_kept|done].
      * assert (travelled a s s2 a2) as Htrav2 by (by eapply travelled_apply).
        destruct r as [h|f]; [|split; [done|]; by exists a2].
        destruct r0 as [h0|f0]; [|done]. destruct Hends as [[= ->]|]; [|done].
        destruct (Hgood h0 eq_refl) as (<- & Hnone2 & Hone & st & Hst & Hv).
        rewrite <- (requireValid_isValid b) in Hv. unfold is_ok in Hv. destruct (requireValid b st) eqn:Hvalid; [|done].
        destruct (valid_history_matching b catalog increasing_catalog _ st Hst) as [Hm2 _]; [by eexists|].
        eapply wp_mono; [by apply IH|]. intros r s3 (Hr3 & a' & Htrav3 & Hok). split; [done|]. exists a'. split; [done|].
        intros h Hh. destruct (Hok h Hh) as (? & ? & ? & Hlen). split_and!; [done..|]. unfold after in *. cbn [length].
        destruct d; destruct Hone as [z Hz]; rewrite Hz, length_app in *; cbn in *; lia.
    + eapply wp_mono; [by apply run_step_off|]. intros r s2 [-> [f ->]]. split; [done|]. by exists a1.
Qed.

Lemma execute_travels busy target a s :
  idle s -> active s = false -> rebuild_ s = None -> fk_ok s -> records b (durable s) a ->
  wp (execute b catalog busy d target) (fun r s' => restored s s' /\ exists a', travelled a s s' a' /\
    (r = Ok tt -> rec_marker a' = None /\ matching b catalog (rec_history a') /\
       lastVersion (rec_history a') = default (defaultTarget catalog d) target)) s.
Proof.
  intros Hidle Hact Hnone Hfk Hrec. pose proof Hidle as (Hw & Hlk & Ht & Hl). unfold execute.
  set (Q := fun r s' => restored s s' /\ _). set (s1 := set_durable (durable s) s).
  assert (restored s s1) as Hs1 by done.
  assert (travelled a s s1 a) as Ha1 by (by eapply travelled_same; [apply travelled_refl|..]).
  assert (may_fail Q s) as Herr.
  { intros f. split; (split; [done|]); exists a; (split; [by eapply travelled_kept; [apply travelled_refl|..]|done]). }
  assert (may_fail Q s1) as Herr1.
  { intros f. split; (split; [done|]); exists a; (split; [by eapply travelled_kept|done]). }
  read_step (MigrationState_reads b catalog busy). intros [] _. wp_step.
  apply status_wp; [done|done|exact Herr|exact Herr1|]. intros h mk st Hh Hmk Hst. pose proof Hrec as (Hh' & Hmk' & _).
  assert (h = rec_history a) as -> by congruence. assert (mk = rec_marker a) as -> by congruence.
  fold s1. wp_step. wp_step; [intros p Hp|intros e _; apply Herr1]. wp_step.
  pose proof (evaluate_Ok b catalog _ _ st (increasing_NoDup _ increasing_catalog) Hst) as (Happ & Hinc & _ & _ & _ & Hprob).
  pose proof Hp as (p0 & (u & Hv & _)%bind_Ok_iff & _)%bind_Ok_iff. apply requireValid_Ok_iff in Hv as [Hnil Hi].
  apply Hprob in Hnil as [Hm _]. assert (rec_marker a = None) as Hno by congruence. rewrite Hno in Hst.
  rewrite Happ. eapply wp_mono; [by apply (run_steps_journalled _ a s a s1)|].
  intros [h|f] s' (Hr & a' & Htrav & Hok); [wp_step|]; (split; [done|]); exists a'; (split; [done|]); [|done].
  intros _. destruct (Hok h eq_refl) as (Hno' & <- & Hm' & Hlen). split_and!; [done..|]. by eapply plan_target.
Qed.
End journeys.

(** C7: Carrying out a plan on a backend that commits every statement, whatever calls
    fail and wherever scripts stop: every durable state on the way is a step of the
    journal's machine for the one migration under way, and the next migration begins
    only when the one before has left its record and no marker; when it returns, no
    marker is left and the history ends with the target; and however it ends, no
    transaction, lock or object is left and no migration is active. *)
Theorem execute_journalled `{JsonLibrary} `{Introspection} `{!StoredValues} `{!SqliteObjects} b catalog busy d target a s :
  increasing catalog -> atomicity b = NonTransactional -> Forall (plain b d) catalog ->
  idle s -> active s = false -> rebuild_ s = None -> fk_ok s -> records b (durable s) a ->
  wp (execute b catalog busy d target) (fun r s' => restored s s' /\ exists a', travelled b catalog d a s s' a' /\
    (r = Ok tt -> rec_marker a' = None /\ matching b catalog (rec_history a') /\
       lastVersion (rec_history a') = default (defaultTarget catalog d) target)) s.
Proof. intros. by apply execute_travels. Qed.

(** ** Plans complete *)
Section complete.
Context `{JsonLibrary} `{Introspection} `{!StoredValues} `{!SqliteObjects} (b : BackendType) (catalog : list Migration).
Context (increasing_catalog : increasing catalog) (d : Direction).
Context (fine : forall n, fault n = Fine).
Context (is_supported : supported b = true).
Context (checksums : Forall (fun m => is_Ok (migrationChecksum b m)) catalog).

(** Migrations written as SQL only, with scripts that run: there is nothing to compare
    with a snapshot. *)
Definition bare (m : Migration) : Prop :=
  (forall sql, scriptOf b m d = Ok sql -> works sql) /\
  forall x, BackendMap.find b (scripts m) = Some x ->
    mode (contextOf x d) = Normal /\ ctx_source (contextOf x d) = None /\ ctx_target (contextOf x d) = None.

Context (all_bare : Forall bare catalog).

Lemma unchanged_passes (s : Session) (Q : Session -> Prop) :
  (forall s', match working s with
         | Some t => exists o, s' = set_working (Some (MkTables (historyTable t) (journalTable t) o)) s
         | None => s' = s
         end -> Q s') -> Q s.
Proof.
  intros HQ. apply HQ. destruct (working s) as [t|] eqn:Hs; [|done]. exists (objects t). destruct s, t. cbn in *. by subst.
Qed.

Lemma is_enabled_not (Q : result failure bool -> Session -> Prop) s a p :
  rebuild_ s = Some (MkRebuildObject a p false) -> Q (Ok false) s -> wp is_enabled Q s.
Proof. intros Hr HQ. unfold is_enabled. do 3 wp_step. by rewrite Hr. Qed.

Lemma preflight_passes context a p :
  ctx_source context = None -> passes (Some (MkRebuildObject a p false)) (preflight b context).
Proof.
  intros Hsource s Q Hc Hr HQ. unfold preflight, contextPreflight, captureSequences. rewrite Hsource. wp_step. wp_step.
  wp_step. eapply is_enabled_not; [done|]. cbn [negb]. wp_step. apply (unchanged_passes s). exact (HQ _).
Qed.

Lemma validateResult_passes context sequences a p :
  ctx_target context = None -> passes (Some (MkRebuildObject a p false)) (validateResult b context sequences).
Proof.
  intros Htarget s Q Hc Hr HQ. unfold validateResult, validateTargetValues, validateAndRestoreSequences. rewrite Htarget. wp_step.
  wp_step. eapply is_enabled_not; [done|]. cbn [negb]. do 2 wp_step. apply (unchanged_passes s). exact (HQ _).
Qed.

Lemma run_step_fine s h m :
  waits b catalog s h -> rebuild_ s = None -> is_next catalog d h m -> is_Ok (planned b d m) ->
  wp (run_step b catalog d h (version_of m))
    (returns (fun actual s' => waits b catalog s' actual /\ rebuild_ s' = None /\ grown b m d h actual)) s.
Proof.
  intros Hwait Hnone Hnext [q Hq]. pose proof (next_in_catalog catalog m d h Hnext) as Hin.
  pose proof all_bare as Hb. rewrite Forall_forall in Hb. destruct (Hb m Hin) as [Hworks Hctx].
  assert (exists x, BackendMap.find b (scripts m) = Some x /\ exists sql, scriptOf b m d = Ok sql) as (x & Hx & sql & Hsql).
  { unfold planned in Hq. apply bind_Ok_iff in Hq as (x & Hsc & Hq). unfold scriptOf. rewrite Hsc, bind_Ok.
    unfold scriptsFor in Hsc. destruct (BackendMap.find b (scripts m)) as [y|]; [injection Hsc as ->|done].
    exists x. split; [done|]. destruct d; [by eexists|]. destruct (down x); [by eexists|done]. }
  destruct (Hctx x Hx) as (Hmode & Hsource & Htarget). specialize (Hworks sql Hsql).
  unfold run_step, rethrow. wp_step. apply (wp_mono _ (returns (fun actual s' => waits b catalog s' actual /\ rebuild_ s' = None /\ grown b m d h actual))).
  2: by intros [a|f] s' Hr.
  wp_step. rewrite (find_by_NoDup version_of catalog m (increasing_NoDup _ increasing_catalog) Hin). apply (fine_lift _ m); [done|].
  wp_step. rewrite Hx. apply (fine_lift _ x); [done|]. cbv zeta. set (ctx := contextOf x d) in *. wp_step. wp_step.
  unfold SqliteRebuildSession. do 4 wp_step. rewrite Hmode, bool_decide_false by done. cbn [negb]. do 2 wp_step.
  set (s1 := set_rebuild _ s).
  assert (wp (apply b catalog m d h (preflight b ctx) (validateResult b ctx))
    (returns (fun actual s' => waits b catalog s' actual /\ left_idle s1 s' /\ grown b m d h actual)) s1) as Happly.
  { assert (waits b catalog s1 h) as Hwait1 by done.
    assert (passes (rebuild_ s1) (preflight b ctx)) as Hpre by (by apply preflight_passes).
    assert (forall a, passes (rebuild_ s1) (validateResult b ctx a)) as Hval by (intros a; by apply validateResult_passes).
    destruct (atomicity b) eqn:Hat; [by eapply apply_whole_fine|by eapply apply_journalled_fine]. }
  apply (wp_mono _ _ _ _ Happly). intros [actual|f] s2; [|done]. intros (Hwait2 & (_ & _ & _ & Hr2) & Hgrown). cbn in Hr2.
  wp_step. unfold restoreAfterCommit, restore. do 3 wp_step. rewrite Hr2. cbn [enabled negb]. rewrite bool_decide_false by done. do 2 wp_step.
  unfold SqliteRebuildSession_end. wp_step. eapply (restoreNoThrow_disabled Normal); [exact Hr2|]. wp_step. cbn. by split_and!.
Qed.

(** The migrations of a plan, from a history of [n] records. *)
Fixpoint route (n : nat) (ms : list Migration) : Prop :=
  match ms, d with
  | [], _ => True
  | m :: ms, Up => catalog !! n = Some m /\ route (S n) ms
  | m :: ms, Down => n <> 0 /\ catalog !! (n - 1)%nat = Some m /\ route (n - 1) ms
  end.

Lemma run_steps_fine ms qs s h :
  Forall2 (fun m q => planned b d m = Ok q) ms qs -> route (length h) ms -> waits b catalog s h -> rebuild_ s = None ->
  wp (run_steps b catalog d qs h) (returns (fun actual s' => waits b catalog s' actual /\ rebuild_ s' = None /\ after d (length qs) h actual)) s.
Proof.
  intros Hall. revert s h. induction Hall as [|m q ms qs Hq Hall IH]; intros s h Hroute Hwait Hnone; cbn [run_steps].
  - wp_step. cbn. split_and!; [done..|]. unfold after. cbn. destruct d; lia.
  - assert (is_next catalog d h m) as Hnext.
    { unfold is_next. cbn [route] in Hroute. destruct d; [by destruct Hroute|]. destruct Hroute as (Hn & Hm & _). split; [by intros ->|done]. }
    assert (pm_version q = version_of m) as ->.
    { unfold planned in Hq. apply bind_Ok_iff in Hq as (x & _ & Hq). destruct d; [by injection Hq as <-|]. destruct (down x); [by injection Hq as <-|done]. }
    wp_step. eapply wp_mono; [apply (run_step_fine s h m Hwait Hnone Hnext); by eexists|].
    intros [actual|f] s2; [|done]. intros (Hwait2 & Hnone2 & Hgrown).
    assert (route (length actual) ms /\ after d 1 h actual) as [Hroute2 Hone].
    { unfold grown, after in *. cbn [route] in Hroute. destruct d.
      - destruct Hgrown as (r & -> & _). destruct Hroute as [_ Hroute]. rewrite length_app. cbn. split; [by rewrite Nat.add_1_r|done].
      - destruct Hgrown as (r & ->). destruct Hroute as (_ & _ & Hroute). rewrite length_app in Hroute |- *. cbn in *. by rewrite Nat.add_sub in Hroute. }
    eapply wp_mono; [by apply IH|]. intros [h'|f] s3; [|done]. intros (Hwait3 & Hnone3 & Hlen). split_and!; [done..|].
    unfold after in *. cbn [length]. destruct d; lia.
Qed.

Lemma route_up recorded seg later : catalog = (recorded ++ seg ++ later)%list -> d = Up -> route (length recorded) seg.
Proof.
  intros Hcat Hd. revert recorded Hcat. induction seg as [|m seg IH]; intros recorded Hcat; cbn [route]; [done|]. rewrite Hd.
  split.
  - rewrite Hcat. by apply (list_lookup_middle recorded (seg ++ later)).
  - specialize (IH (recorded ++ [m])%list). rewrite length_app, Nat.add_1_r in IH. apply IH. by rewrite Hcat, <- app_assoc.
Qed.

Lemma route_down earlier seg later :
  catalog = ((earlier ++ seg) ++ later)%list -> d = Down -> route (length (earlier ++ seg)) (reverse seg).
Proof.
  intros Hcat Hd. revert later Hcat. induction seg as [|m seg IH] using rev_ind; intros later Hcat; [done|].
  rewrite reverse_app. cbn [route reverse rev_append app]. rewrite Hd, app_assoc, length_app, Nat.add_comm. cbn [length Nat.add].
  rewrite Nat.sub_succ, Nat.sub_0_r. split_and!; [done| |].
  - rewrite Hcat, app_assoc, <- (app_assoc _ [m] later). by apply (list_lookup_middle (earlier ++ seg) later).
  - apply (IH ([m] ++ later)%list). by rewrite Hcat, !app_assoc.
Qed.

Lemma plan_route h st target p :
  evaluate b catalog h None = Ok st -> plan b catalog st d target = Ok p ->
  exists ms, Forall2 (fun m q => planned b d m = Ok q) ms (plan_migrations p) /\ route (length h) ms.
Proof.
  intros Hst (p0 & Hp0 & [= <-])%bind_Ok_iff. cbn [plan_migrations].
  destruct (makePlan_way b catalog h st d target p0 increasing_catalog Hst Hp0) as (_ & _ & recorded & rest & Hcat & Hall & _ & Hway).
  rewrite <- (Forall2_length _ _ _ Hall). destruct d eqn:Hd.
  - destruct Hway as (seg & later & -> & _ & Hseg). exists seg. split; [done|]. by eapply route_up.
  - destruct Hway as (earlier & seg & -> & _ & Hseg & _). exists (reverse seg). split; [done|]. by eapply route_down.
Qed.

Lemma execute_fine h st target p s :
  waits b catalog s h -> rebuild_ s = None -> validateCatalog b catalog = Ok tt ->
  evaluate b catalog h None = Ok st -> plan b catalog st d target = Ok p ->
  wp (execute b catalog false d target) (returns (fun _ s' => exists h', waits b catalog s' h' /\ rebuild_ s' = None /\
    lastVersion h' = default (defaultTarget catalog d) target)) s.
Proof.
  intros Hwait Hnone Hvalid Hst Hp. pose proof Hwait as (Hc & (Hw & Hlk & Ht & Hl) & Hact & Hh & Hm & Hmatch).
  unfold execute. set (Q := returns _).
  assert (wp (MigrationState b catalog false) (fun r s' => r = Ok tt /\ s' = s) s) as Hstate.
  { unfold MigrationState, ready, isConnected. do 5 wp_step. rewrite Hc. wp_step. apply (fine_throwIf b); [done|]. do 3 wp_step.
    apply (fine_throwIf b); [by rewrite Hact|]. wp_step.
    assert (exists name, backendName b = Ok name) as [name Hname] by (clear -is_supported; destruct b; try discriminate is_supported; by eexists).
    apply (fine_lift _ name); [done|]. wp_step. apply (fine_validateMigrationSession b fine); [done|]. wp_step.
    apply (fine_lift _ tt); [done|]. wp_step. unfold migrationTable. destruct (bool_decide (b = Sqlite)); [by wp_step|]. by eapply wp_call_fine. }
  wp_step. apply (wp_mono _ _ _ _ Hstate). intros r s1 [-> ->]. clear Hstate. wp_step.
  eapply (fine_status b catalog fine); [done|done|done|exact Hh|exact Hm|exact Hst|]. wp_step. apply (fine_lift _ p); [done|]. wp_step.
  destruct (plan_route h st target p Hst Hp) as (ms & Hall & Hroute).
  pose proof (evaluate_Ok b catalog h None st (increasing_NoDup _ increasing_catalog) Hst) as (Happ & _). rewrite Happ.
  eapply wp_mono; [by apply (run_steps_fine ms)|]. intros [h'|f] s2; [|done]. intros (Hwait2 & Hnone2 & Hlen). wp_step.
  exists h'. split_and!; [done..|]. pose proof Hwait2 as (_ & _ & _ & _ & _ & Hm2). by eapply plan_target.
Qed.
End complete.

(** C8: When no call fails and the scripts, written as SQL only, run, a plan that can be
    made is carried out, up or down and on every backend: [execute] returns, the
    database holds a history of the catalog that ends with the target, no marker is
    left, and the session waits for the next plan. *)
Theorem execute_completes `{JsonLibrary} `{Introspection} `{!StoredValues} `{!SqliteObjects} b catalog d h st target p s :
  (forall n, fault n = Fine) -> supported b = true -> increasing catalog ->
  Forall (fun m => is_Ok (migrationChecksum b m)) catalog -> Forall (bare b d) catalog -> validateCatalog b catalog = Ok tt ->
  waits b catalog s h -> rebuild_ s = None ->
  evaluate b catalog h None = Ok st -> plan b catalog st d target = Ok p ->
  wp (execute b catalog false d target) (returns (fun _ s' => exists h', waits b catalog s' h' /\ rebuild_ s' = None /\
    lastVersion h' = default (defaultTarget catalog d) target)) s.
Proof. intros. by eapply execute_fine. Qed.
