(* ===== verification/Scenarios.v ===== *)
(** Scenarios: an engine that lists the scripts it ran, and the theorems on the
    migration state at concrete sessions of it. *)
From S2P Require Import Prelude Foundation Chrono Values Codec Schema Sha256 Models PhysicalSql Snapshot Diff SqlValidation Literals SchemaJson Generation Renames Catalog History Session State Protocol Journal Recovery Liveness.
Local Open Scope string_scope.
Local Open Scope nat_scope.

(** The objects are the scripts that ran; call number [n] fails as [faults] says. *)
Definition listing (faults : nat -> outcome) : Engine :=
  {| Objects := list string;
     fault := faults;
     run_script := fun sql t => ([MkTables (historyTable t) (journalTable t) (sql :: objects t)], None);
     settings_kept := fun _ _ => true;
     current_timestamp := "2024-01-01 00:00:00" |}.

#[local] Existing Instance plain_text.

Definition fresh_tables : Tables (list string) := MkTables None None [].

Definition fresh_session (faults : nat -> outcome) (t : Tables (list string)) : @Session (listing faults) :=
  @MkSession (listing faults) t None [] false true false None None 1 None.

(** The commit of a call takes effect and fails. *)
Definition lost_commit (k : nat) : nat -> outcome := fun n =>
  if (n =? k)%nat then Fails (SociError None) true true else Fine.
Definition no_faults : nat -> outcome := fun _ => Fine.

(** A migration of every backend that a test uses. *)
Definition dual_migration : Migration :=
  let sql := MkSqlMigration "SELECT 1;" (Some "SELECT 0;") empty_context empty_context "" "" in
  MkMigration 1 "first" [(Sqlite, sql); (Mysql, sql)] (MkSnapshot 1 []) (MkSnapshot 1 []).

Abbreviation applying faults b :=
  (@apply _ (listing faults) b unit [dual_migration] dual_migration Up []
    (mret (M:=@M (listing faults)) tt) (fun _ => mret (M:=@M (listing faults)) tt) 0 (fresh_session faults fresh_tables)).

Definition a_sum : string := match migrationChecksum Mysql dual_migration with Ok sum => sum | Err _ => "" end.

(** The process ended after the script of [dual_migration] ran. *)
Definition interrupted : Tables (list string) :=
  MkTables (Some []) (Some [journalRow Mysql dual_migration Up a_sum]) ["SELECT 1;"].
Definition marker : IncompleteMigration := markerOf Mysql dual_migration Up a_sum.

Abbreviation resolving faults resolution :=
  (@resolve _ (listing faults) Mysql [dual_migration] 1 a_sum resolution 0 (fresh_session faults interrupted)).

Lemma fresh_idle faults t : let _ := listing faults in idle (fresh_session faults t).
Proof. done. Qed.

Lemma listing_polite faults sql : let _ := listing faults in polite sql.
Proof. intros E t states e [= <- _]. by constructor. Qed.

Lemma listing_works faults sql : let _ := listing faults in works sql.
Proof. intros E t. split; [done|]. eexists. split; [done|]. by constructor. Qed.

Lemma nothing_passes faults : let _ := listing faults in forall r, passes r (mret tt).
Proof.
  intros E r s Q Hc _ HQ. apply wp_ret, HQ. destruct (working s) as [t|] eqn:Hs; [|done].
  exists (objects t). destruct s, t. cbn in *. by subst.
Qed.

Lemma nothing_in_tx faults : let _ := listing faults in in_tx (mret tt) (fun _ _ _ => True).
Proof. intros E. by apply (in_tx_mono _ _ _ (reads_in_tx _ _ (reads_ret tt))). Qed.

Lemma nothing_reads faults : let _ := listing faults in reads (mret tt) (fun _ (_ : unit) => True).
Proof. intros E s Q Herr Hok. by apply wp_ret, Hok. Qed.

Lemma runs `{Engine} {A} (m : M A) Q s n r n' s' : wp m Q s -> m n s = (r, n', s') -> Q r s'.
Proof. intros Hm Hr. specialize (Hm n). by rewrite Hr in Hm. Qed.

(** What the calls evaluate to. *)
Definition failed_with {A} `{Engine} (traced : nat) (out : result failure A * nat * Session) : Prop :=
  match out with
  | (Ok _, _, _) => False
  | (Err f, _, s') => length (trace s') = traced
  end.

Lemma commit_lost : failed_with 1 (applying (lost_commit 7) Sqlite).
Proof. vm_compute. reflexivity. Qed.
Lemma marker_commit_lost : failed_with 4 (applying (lost_commit 20) Mysql).
Proof. vm_compute. reflexivity. Qed.
Lemma resolved : match resolving no_faults Completed with (r, _, _) => r = Ok tt end.
Proof. vm_compute. reflexivity. Qed.
Lemma marker_durable :
  match applying (lost_commit 20) Mysql with (_, _, s') => marker_of Mysql (durable s') = Ok (Some marker) end.
Proof. vm_compute. reflexivity. Qed.

(** A commit that takes effect and fails. *)
Lemma apply_atomic_witness :
  exists f n s', applying (lost_commit 7) Sqlite = (Err f, n, s') /\ length (trace s') = 1%nat /\
    let _ := listing (lost_commit 7) in
    all_or_nothing Sqlite [dual_migration] dual_migration Up [] (fresh_session _ fresh_tables) (Err f) s'.
Proof.
  pose proof (@apply_atomic _ (listing (lost_commit 7)) unit Sqlite [dual_migration] dual_migration Up [] (mret tt) (fun _ => mret tt)
    (fresh_session _ fresh_tables) eq_refl (fresh_idle _ _) (nothing_in_tx _) (fun _ => nothing_in_tx _)) as Hall.
  pose proof commit_lost as Hf. destruct (applying (lost_commit 7) Sqlite) as [[r n] s'] eqn:Hr.
  pose proof (runs _ _ _ _ _ _ _ Hall Hr) as Hrun. clear Hall Hr. rename Hrun into Hall.
  destruct r as [l|f]; [destruct Hf|]. exists f, n, s'. split; [reflexivity|]. exact (conj Hf Hall).
Defined.

(** The marker is recorded, the script runs, the connection is lost. *)
Lemma apply_refines_witness :
  match applying (lost_commit 20) Mysql with
  | (r, _, s') => (exists f, r = Err f) /\
      let _ := listing (lost_commit 20) in
      left_idle (fresh_session _ fresh_tables) s' /\
      exists a', refines Mysql (apply_step Mysql [dual_migration] dual_migration Up (MkRecorded [] None []))
        (fresh_session _ fresh_tables) (MkRecorded [] None []) s' a' /\ rec_marker a' = Some marker
  end.
Proof.
  pose proof (@apply_refines _ (listing (lost_commit 20)) unit Mysql [dual_migration] dual_migration Up [] (mret tt) (fun _ => mret tt)
    (fresh_session _ fresh_tables) (MkRecorded [] None []) eq_refl (fresh_idle _ _) eq_refl
    ltac:(by split_and!) (fun sql _ => listing_polite _ sql) (nothing_reads _) (fun _ => nothing_reads _)) as Hall.
  pose proof marker_commit_lost as Hf. pose proof marker_durable as Hd.
  destruct (applying (lost_commit 20) Mysql) as [[r n] s'] eqn:Hr.
  pose proof (runs _ _ _ _ _ _ _ Hall Hr) as Hrun. clear Hall Hr. rename Hrun into Hall.
  destruct Hall as (Hl & a' & Href & _). split; [destruct r as [l|f]; [destruct Hf|exists f; reflexivity]|].
  split; [exact Hl|]. exists a'. split; [exact Href|]. destruct Href as (l & _ & _ & _ & _ & Hm & _).
  rewrite Hd in Hm. injection Hm as Hm. symmetry. exact Hm.
Defined.

Lemma apply_crash_consistent_witness :
  match applying (lost_commit 20) Mysql with
  | (_, _, s') => length (trace s') = 4%nat /\
      let _ := listing (lost_commit 20) in
      Forall (fun t => exists a', records Mysql t a' /\
        consistent Mysql [dual_migration] dual_migration Up (MkRecorded [] None []) a') (trace s')
  end.
Proof.
  pose proof (@apply_crash_consistent _ (listing (lost_commit 20)) unit Mysql [dual_migration] dual_migration Up []
    (mret tt) (fun _ => mret tt) (fresh_session _ fresh_tables) (MkRecorded [] None []) eq_refl (fresh_idle _ _) eq_refl
    ltac:(by split_and!) eq_refl (fun sql _ => listing_polite _ sql) (nothing_reads _) (fun _ => nothing_reads _)) as Hall.
  pose proof marker_commit_lost as Hf. destruct (applying (lost_commit 20) Mysql) as [[r n] s'] eqn:Hr.
  pose proof (runs _ _ _ _ _ _ _ Hall Hr) as Hrun. clear Hall Hr. rename Hrun into Hall.
  split; [destruct r as [l|f]; [destruct Hf|exact Hf]|].
  exact (Hall (trace s') (eq_sym (app_nil_r _))).
Defined.

Lemma resolve_refines_witness :
  match resolving no_faults Completed with
  | (r, _, s') => r = Ok tt /\
      let _ := listing no_faults in
      left_idle (fresh_session _ interrupted) s' /\
      exists a', refines Mysql (resolve_step Mysql [dual_migration] Completed)
        (fresh_session _ interrupted) (MkRecorded [] (Some marker) ["SELECT 1;"]) s' a' /\
        resolves 1 a_sum Completed (MkRecorded [] (Some marker) ["SELECT 1;"]) a'
  end.
Proof.
  assert (increasing [dual_migration]) as Hinc by (split; repeat constructor).
  pose proof (@resolve_refines _ (listing no_faults) Mysql [dual_migration] 1 a_sum Completed
    (fresh_session _ interrupted) (MkRecorded [] (Some marker) ["SELECT 1;"]) eq_refl Hinc (fresh_idle _ _) eq_refl
    ltac:(split_and!; vm_compute; reflexivity)) as Hall.
  pose proof resolved as Hok. destruct (resolving no_faults Completed) as [[r n] s'] eqn:Hr.
  pose proof (runs _ _ _ _ _ _ _ Hall Hr) as Hrun. clear Hall Hr. rename Hrun into Hall.
  subst r.
  split; [done|]. destruct Hall as (Hl & a' & Href & Hres). split; [exact Hl|]. exists a'. split; [exact Href|].
  by apply (Hres tt).
Defined.

Lemma apply_completes_witness :
  match applying no_faults Mysql with
  | (r, _, s') => let _ := listing no_faults in
      exists actual, r = Ok actual /\ waits Mysql [dual_migration] s' actual /\ grown Mysql dual_migration Up [] actual
  end.
Proof.
  assert (increasing [dual_migration]) as Hinc by (split; repeat constructor).
  assert (Forall (fun m => is_Ok (migrationChecksum Mysql m)) [dual_migration]) as Hsums
    by (constructor; [by eexists|constructor]).
  assert (@waits _ (listing no_faults) Mysql [dual_migration] (fresh_session _ fresh_tables) []) as Hw.
  { repeat split; [constructor|]. exists [dual_migration], []. split; [done|constructor]. }
  pose proof (@apply_completes _ (listing no_faults) unit Mysql [dual_migration] dual_migration Up [] "SELECT 1;"
    (mret tt) (fun _ => mret tt) (fresh_session _ fresh_tables) (fun _ => eq_refl) eq_refl Hinc
    Hsums Hw eq_refl eq_refl
    (listing_works _ _) (nothing_passes _ _) (fun _ => nothing_passes _ _)) as Hall.
  destruct (applying no_faults Mysql) as [[r n] s'] eqn:Hr.
  pose proof (runs _ _ _ _ _ _ _ Hall Hr) as Hrun. clear Hall Hr. rename Hrun into Hall.
  destruct r as [actual|f]; [|destruct Hall].
  exists actual. destruct Hall as (Hw' & _ & Hg). exact (conj eq_refl (conj Hw' Hg)).
Defined.
