(* ===== verification/Runs.v ===== *)
(** Runs: an engine with sequences, and the theorems on rebuilds and plans at concrete
    sessions of it. *)
From S2P Require Import Prelude Foundation Chrono Values Codec Schema Sha256 Models PhysicalSql Snapshot Diff SqlValidation Literals SchemaJson Generation Renames Catalog History Session State Protocol Journal Recovery Liveness Preflight TargetValues Runner Rebuild Identities Execution Scenarios.
Local Open Scope string_scope.
Local Open Scope nat_scope.

(** The scripts that ran and the rows of [sqlite_sequence]. *)
Definition sequencing (faults : nat -> outcome) : Engine :=
  {| Objects := list string * list (string * Z);
     fault := faults;
     run_script := fun sql t => ([MkTables (historyTable t) (journalTable t) (sql :: (objects t).1, (objects t).2)], None);
     settings_kept := fun _ _ => true;
     current_timestamp := "2024-01-01 00:00:00" |}.

#[local] Existing Instance plain_text.
#[local] Existing Instance sequencing.

(** A database in which nothing is found. *)
#[local] Instance nothing_found (faults : nat -> outcome) : @Introspection (sequencing faults) :=
  {| table_sql := fun _ _ => None;
     index_names_of := fun _ _ => [];
     index_flags := fun _ _ _ => None;
     index_xinfo := fun _ _ => [];
     triggers_and_views := fun _ => 0%Z;
     table_names := fun _ => [];
     references_of := fun _ _ => [];
     objects_named := fun _ _ => 0%Z;
     current_schema := fun _ => "public";
     reserved_objects := fun _ => 0%Z;
     engine_of := fun _ _ => None;
     columns_of := fun _ _ => [];
     triggers_of := fun _ _ => 0%Z;
     constraints_of := fun _ _ => [];
     key_columns := fun _ _ _ => [];
     foreign_key_parts := fun _ _ _ => [];
     foreign_key_rules := fun _ _ => None;
     native_indexes := fun _ _ => [];
     index_parts := fun _ _ _ => [];
     views_on := fun _ _ => 0%Z;
     inbound_keys := fun _ _ => [] |}.

#[local] Instance nothing_stored (faults : nat -> outcome) : @StoredValues (sequencing faults) :=
  {| counted := fun _ _ => 0%Z; texts := fun _ _ => []; numbers := fun _ _ => []; utcTimestampLimit := None |}.

(** Every table has rows up to number 5. *)
#[local] Instance sequences_of (faults : nat -> outcome) : @SqliteObjects (sequencing faults).
Proof.
  refine (@Build_SqliteObjects (sequencing faults) (fun o => Some o.2) (fun l o => (o.1, l))
    (fun _ _ _ => 5%Z) (fun _ => false) _ _); done.
Defined.

Definition two_migrations : list Migration :=
  [dual_migration;
   MkMigration 2 "second" (scripts dual_migration) (MkSnapshot 1 []) (MkSnapshot 1 [])].

Definition nothing_recorded : Recorded (list string * list (string * Z)) := MkRecorded [] None ([], []).

Definition ready_session (faults : nat -> outcome) : @Session (sequencing faults) :=
  @MkSession (sequencing faults) (MkTables None None ([], [])) None [] false true false None None 1 None.

Abbreviation executing faults b :=
  (@execute _ (sequencing faults) _ _ _ b two_migrations false Up None 0 (ready_session faults)).

(** What the calls evaluate to. *)
Lemma second_commit_lost : failed_with 3 (executing (lost_commit 19) Sqlite).
Proof. vm_compute. reflexivity. Qed.
Lemma second_marker_lost : failed_with 9 (executing (lost_commit 60) Mysql).
Proof. vm_compute. reflexivity. Qed.
Lemma second_history :
  match executing (lost_commit 19) Sqlite with (_, _, s') => length <$> history_of (durable s') = Ok 2 end.
Proof. vm_compute. reflexivity. Qed.

Lemma two_increasing : increasing two_migrations.
Proof. split; repeat constructor. Qed.

Lemma sequencing_polite faults sql : @polite (sequencing faults) sql.
Proof. intros t states e [= <- _]. by constructor. Qed.

Lemma sequencing_works faults sql : @works (sequencing faults) sql.
Proof. intros t. split; [done|]. eexists. split; [done|]. by constructor. Qed.

Lemma two_plain faults : Forall (@plain (sequencing faults) Mysql Up) two_migrations.
Proof.
  assert (forall sql, @polite (sequencing faults) sql) as Hp by (apply sequencing_polite).
  repeat (constructor; [split; [by auto|by intros x [= <-]]|]). constructor.
Qed.

Lemma two_bare faults : Forall (@bare (sequencing faults) Mysql Up) two_migrations.
Proof.
  assert (forall sql, @works (sequencing faults) sql) as Hp by (apply sequencing_works).
  repeat (constructor; [split; [by auto|by intros x [= <-]]|]). constructor.
Qed.

(** The commit of the second migration takes effect and fails. *)
Lemma execute_atomic_witness :
  exists f n s', executing (lost_commit 19) Sqlite = (Err f, n, s') /\ length (trace s') = 3 /\
    restored (ready_session (lost_commit 19)) s' /\
    exists h', advanced Sqlite two_migrations Up [] (ready_session (lost_commit 19)) s' h' /\ length h' = 2.
Proof.
  pose proof (@execute_atomic _ (sequencing (lost_commit 19)) _ _ _ Sqlite two_migrations false Up None [] (ready_session _)
    two_increasing eq_refl ltac:(by repeat split) eq_refl (or_intror eq_refl) eq_refl) as Hall.
  pose proof second_commit_lost as Hf. pose proof second_history as Hh.
  destruct (executing (lost_commit 19) Sqlite) as [[r n] s'] eqn:Hr.
  pose proof (runs _ _ _ _ _ _ _ Hall Hr) as Hrun. clear Hall Hr.
  destruct r as [l|f]; [destruct Hf|]. exists f, n, s'. split; [reflexivity|]. split; [exact Hf|].
  destruct Hrun as (Hres & h' & Hadv & _). split; [exact Hres|]. exists h'. split; [exact Hadv|].
  destruct Hadv as (l & _ & _ & Hd). rewrite Hd in Hh. injection Hh as Hh. exact Hh.
Defined.

(** The connection is lost while the second migration is under way. *)
Lemma execute_journalled_witness :
  exists f n s', executing (lost_commit 60) Mysql = (Err f, n, s') /\ length (trace s') = 9 /\
    restored (ready_session (lost_commit 60)) s' /\
    exists a', @travelled _ (sequencing (lost_commit 60)) Mysql two_migrations Up nothing_recorded (ready_session (lost_commit 60)) s' a'.
Proof.
  pose proof (@execute_journalled _ (sequencing (lost_commit 60)) _ _ _ Mysql two_migrations false Up None nothing_recorded
    (ready_session _) two_increasing eq_refl (two_plain _) ltac:(by repeat split) eq_refl eq_refl (or_intror eq_refl)
    ltac:(by split_and!)) as Hall.
  pose proof second_marker_lost as Hf. destruct (executing (lost_commit 60) Mysql) as [[r n] s'] eqn:Hr.
  pose proof (runs _ _ _ _ _ _ _ Hall Hr) as Hrun. clear Hall Hr.
  destruct r as [l|f]; [destruct Hf|]. exists f, n, s'. split; [reflexivity|]. split; [exact Hf|].
  destruct Hrun as (Hres & a' & Htrav & _). split; [exact Hres|]. exists a'. exact Htrav.
Defined.

(** Both migrations are applied. *)
Definition two_status : Status := MkStatus 0 0 [] (map summary two_migrations) None [].
Definition two_plan : Plan :=
  MkPlan Up 0 2 NonTransactional [MkPlanned 1 "first" "SELECT 1;"; MkPlanned 2 "second" "SELECT 1;"].

Lemma execute_completes_witness :
  match executing no_faults Mysql with
  | (r, _, s') => r = Ok tt /\ exists h', waits Mysql two_migrations s' h' /\ lastVersion h' = 2%Z
  end.
Proof.
  assert (Forall (fun m => is_Ok (migrationChecksum Mysql m)) two_migrations) as Hsums
    by (repeat (constructor; [by eexists|]); constructor).
  assert (@waits _ (sequencing no_faults) Mysql two_migrations (ready_session no_faults) []) as Hw.
  { repeat split; [constructor|]. exists two_migrations, []. split; [done|constructor]. }
  assert (validateCatalog Mysql two_migrations = Ok tt) as Hvalid by (vm_compute; reflexivity).
  assert (evaluate Mysql two_migrations [] None = Ok two_status) as Hst by (vm_compute; reflexivity).
  assert (plan Mysql two_migrations two_status Up None = Ok two_plan) as Hp by (vm_compute; reflexivity).
  pose proof (@execute_completes _ (sequencing no_faults) _ _ _ Mysql two_migrations Up [] two_status None two_plan (ready_session _)
    (fun _ => eq_refl) eq_refl two_increasing Hsums (two_bare _) Hvalid Hw eq_refl Hst Hp) as Hall.
  destruct (executing no_faults Mysql) as [[r n] s'] eqn:Hr.
  pose proof (runs _ _ _ _ _ _ _ Hall Hr) as Hrun. clear Hall Hr.
  destruct r as [[]|f]; [|destruct Hrun]. split; [reflexivity|].
  destruct Hrun as (h' & Hw' & _ & Hl). exists h'. exact (conj Hw' Hl).
Defined.

(** A table [users] whose sequence was at 9 while its rows end at 5: the script loses
    the sequence and the check puts 9 back. *)
Definition users_rebuild : MigrationExecutionContext :=
  MkContext SqliteRebuild [] [MkRebuild "users" "users" "users_new" (Some "id") (Some "id")] None None.

Definition rebuild_tables : Tables (list string * list (string * Z)) := MkTables None None ([], [("users", 9%Z)]).

Definition rebuild_session : @Session (sequencing no_faults) :=
  @MkSession (sequencing no_faults) rebuild_tables (Some rebuild_tables) [] false true true None None 0
    (Some (@MkRebuildObject false 1 true)).

Definition forget_sequences : @M (sequencing no_faults) unit :=
  @on_sequences (sequencing no_faults) _ unit (fun _ => (tt, [])).

Abbreviation rebuilding_run :=
  ((captured ← captureSequences users_rebuild; forget_sequences ;; validateAndRestoreSequences users_rebuild captured)
     0 rebuild_session).

Lemma users_restored : match rebuilding_run with (r, _, s') => r = Ok tt /\ (objects (current s')).2 = [("users", 9%Z)] end.
Proof. vm_compute. by split. Qed.

Lemma rebuild_keeps_identities_witness :
  match rebuilding_run with
  | (r, _, s') => r = Ok tt /\ exists t', working s' = Some t' /\
      Forall (fun table => identity_above table 9 t') (rebuildTables users_rebuild)
  end.
Proof.
  assert (NoDup (map rb_target (rebuildTables users_rebuild))) as Hnd by (repeat constructor; by apply not_elem_of_nil).
  assert (Forall (fun table => rb_target table <> "sqlite_sequence") (rebuildTables users_rebuild)) as Hn by (by repeat constructor).
  assert (@in_tx (sequencing no_faults) unit forget_sequences (fun _ _ _ => True)) as Htx
    by (eapply in_tx_mono; [apply on_sequences_tx|done]).
  pose proof (@rebuild_keeps_identities (sequencing no_faults) _ users_rebuild forget_sequences rebuild_session rebuild_tables
    (ex_intro _ _ (conj eq_refl eq_refl)) eq_refl Htx Hnd Hn) as Hall.
  pose proof users_restored as Hok. destruct rebuilding_run as [[r n] s'] eqn:Hr.
  pose proof (runs _ _ _ _ _ _ _ Hall Hr) as Hrun. clear Hall Hr. destruct Hok as [Hr _].
  split; [exact Hr|]. destruct (Hrun Hr) as (t' & Hw & _ & Ha). exists t'. split; [exact Hw|].
  constructor; [exact (Forall_inv Ha)|constructor].
Defined.
