(* ===== verification/Dialect.v ===== *)
(** Dialect: the SQL dialects of src/database/*/*Dialect.cpp with their type
    translators, the [SqlDialect] interface they implement and the standard quoting,
    bind markers and pagination of modules/orm/sql/program.cppm and emitter.cppm. *)
From S2P Require Import Prelude Foundation Schema PhysicalSql.
Local Open Scope string_scope.

(** ** The interface *)
Record PaginationSpec := MkPagination {
  limit_ : option N;
  offset_ : option N;
  hasOrderBy : bool
}.

Record InsertIfAbsentSpec := MkInsert {
  insert_table : string;
  insert_columns : list string;
  valueExpressions : list string;
  conflictColumns : list string
}.

(** [SqlDialect]: an application can supply its own. *)
Record SqlDialect := MkDialect {
  quoteIdentifier : string -> res string;
  bindMarker : string -> res string;
  toSqlType : ColumnType -> option N -> res string;
  renderStringLengthConstraint : string -> option N -> res string;
  renderCreateTablePrefix : string -> bool -> res string;
  renderCreateTableSuffix : string;
  renderDefaultInsert : string -> res string;
  renderDropTable : string -> bool -> res string;
  renderAutoIncrementPrimaryKey : string -> res string;
  renderPagination : PaginationSpec -> res string;
  renderInsertIfAbsent : InsertIfAbsentSpec -> res string;
  renderAggregateResult : string -> bool -> string
}.

(** ** Identifiers and bind names *)

(** [CompiledSqlFlavor] without [None], which no renderer is given. *)
Inductive Flavor := SQLite | PostgreSQL | MySQLFamily.
#[export] Instance Flavor_eq_dec : EqDecision Flavor.
Proof. solve_decision. Defined.

Definition flavor_of (b : BackendType) : option Flavor :=
  match b with
  | Sqlite => Some SQLite
  | Postgres => Some PostgreSQL
  | Mysql | Mariadb => Some MySQLFamily
  | _ => None
  end.

(** The UTF-8 characters of a text: its bytes that do not continue one. *)
Definition starts_character (c : ascii) : bool := negb (Z.land (byte_of c) 0xc0 =? 0x80)%Z.

Fixpoint count_char (f : ascii -> bool) (s : string) : N :=
  match s with "" => 0 | String c s => (if f c then 1 else 0) + count_char f s end%N.

Definition quote_char (flavor : Flavor) : ascii :=
  if bool_decide (flavor = MySQLFamily) then "`"%char else DQUOTE.

Definition quoteStandardIdentifier (identifier : string) (flavor : Flavor) : res string :=
  throw_if (bool_decide (identifier = "")) (InvalidArgument "SQL identifier cannot be empty") ;;
  throw_if (contains_char NUL identifier)
    (InvalidArgument "SQL identifiers must not contain an embedded NUL byte") ;;
  throw_if (bool_decide (flavor = PostgreSQL) && (63 <? size identifier)%N)
    (InvalidArgument "PostgreSQL identifiers must not exceed 63 bytes") ;;
  throw_if (bool_decide (flavor = MySQLFamily) && (64 <? count_char starts_character identifier)%N)
    (InvalidArgument "MySQL-family identifiers must not exceed 64 characters") ;;
  let quote := quote_char flavor in
  Ok (String quote (concat_map (double_char quote) identifier +:+ String quote "")).

Definition portable_char (c : ascii) : bool :=
  (is_lower c || is_upper c) || is_digit c || bool_decide (c = "_"%char).

Definition isPortableBindName (name : string) : bool :=
  negb (bool_decide (name = "")) && forallb_char portable_char name.

(** The body of each dialect's [bindMarker]; they differ in the message. *)
Definition standardBindMarker (message name : string) : res string :=
  throw_if (negb (isPortableBindName name)) (InvalidArgument message) ;; Ok (":" +:+ name).

(** ** Literal pagination: [StaticSqlPolicy::pagination] of an unbound query *)
Definition literalPagination (flavor : Flavor) (limit offset : option N) : string :=
  match limit with
  | Some n => " LIMIT " +:+ to_string n
  | None =>
      match flavor, offset with
      | SQLite, Some _ => " LIMIT -1"
      | MySQLFamily, Some _ => " LIMIT 18446744073709551615"
      | _, _ => ""
      end
  end
  +:+ match offset with Some n => " OFFSET " +:+ to_string n | None => "" end.

(** [StaticSqlPolicy::renderAggregateResult]. *)
Definition castAggregate (flavor : Flavor) (value : string) (exact : bool) : string :=
  match flavor with
  | PostgreSQL => if exact then "CAST(" +:+ value +:+ " AS TEXT)" else value
  | MySQLFamily => if exact then "CAST(" +:+ value +:+ " AS CHAR)" else value
  | SQLite => value
  end.

(** ** Column types *)
(** [SqliteTypeTranslator::toSqlType]. *)
Definition sqlite_toSqlType (type : ColumnType) (maxStringLength : option N) : res string :=
  match type with
  | ColumnType.Bool => Ok "BOOLEAN"
  | ColumnType.Char | ColumnType.UnsignedChar => Ok "TINYINT"
  | ColumnType.Short | ColumnType.UnsignedShort => Ok "SMALLINT"
  | ColumnType.Int => Ok "INTEGER"
  | ColumnType.LongLong => Ok "BIGINT"
  | ColumnType.UnsignedInt | ColumnType.UnsignedLongLong => Ok "UNSIGNED BIG INT"
  | ColumnType.Float | ColumnType.Double => Ok "REAL"
  | ColumnType.String => Ok "TEXT"
  | _ => Err (RuntimeError ("Unsupported type by sqlite " +:+ ColumnType.toString type))
  end.

(** [PostgresqlTypeTranslator::toSqlType]. *)
Definition postgresql_toSqlType (type : ColumnType) (maxStringLength : option N) : res string :=
  match type with
  | ColumnType.Bool => Ok "BOOLEAN"
  | ColumnType.Char | ColumnType.UnsignedChar | ColumnType.Short => Ok "SMALLINT"
  | ColumnType.UnsignedShort | ColumnType.Int => Ok "INTEGER"
  | ColumnType.UnsignedInt | ColumnType.LongLong | ColumnType.UnsignedLongLong => Ok "BIGINT"
  | ColumnType.Float | ColumnType.Double => Ok "DOUBLE PRECISION"
  | ColumnType.String =>
      Ok (match maxStringLength with Some n => "VARCHAR(" +:+ to_string n +:+ ")" | None => "TEXT" end)
  | ColumnType.Date => Ok "DATE"
  | ColumnType.TimeOfDay => Ok "TIME(6) WITHOUT TIME ZONE"
  | ColumnType.LocalDateTime => Ok "TIMESTAMP(6) WITHOUT TIME ZONE"
  | ColumnType.UtcTimestamp => Ok "TIMESTAMP(6) WITH TIME ZONE"
  | ColumnType.Uuid => Ok "UUID"
  end.

Module mysql_family.
Definition sqlType (type : ColumnType) (maxStringLength : option N) : res string :=
  match type with
  | ColumnType.Bool => Ok "TINYINT"
  | ColumnType.Char => Ok "SMALLINT"
  | ColumnType.UnsignedChar => Ok "TINYINT UNSIGNED"
  | ColumnType.Short => Ok "SMALLINT"
  | ColumnType.UnsignedShort => Ok "SMALLINT UNSIGNED"
  | ColumnType.Int => Ok "INT"
  | ColumnType.UnsignedInt => Ok "INT UNSIGNED"
  | ColumnType.LongLong => Ok "BIGINT"
  | ColumnType.UnsignedLongLong => Ok "BIGINT UNSIGNED"
  | ColumnType.Float | ColumnType.Double => Ok "DOUBLE"
  | ColumnType.String =>
      match maxStringLength with
      | Some n =>
          throw_if ((n =? 0)%N || (16383 <? n)%N)
            (InvalidArgument "MySQL-family VARCHAR length must be between 1 and 16383 characters") ;;
          Ok ("VARCHAR(" +:+ to_string n +:+ ")")
      | None => Ok "LONGTEXT"
      end
  | ColumnType.Date => Ok "DATE"
  | ColumnType.TimeOfDay => Ok "TIME(6)"
  | ColumnType.LocalDateTime => Ok "DATETIME(6)"
  | ColumnType.UtcTimestamp => Ok "TIMESTAMP(6)"
  | ColumnType.Uuid => Err (RuntimeError "Unsupported MySQL-family column type")
  end.

(** One pass of the loop over the columns and values. *)
Definition insertPair (texts : string * string) (item : nat * (string * string)) : res (string * string) :=
  let '(i, (column, value)) := item in
  let separator := if (i =? 0)%nat then "" else ", " in
  q ← quoteStandardIdentifier column MySQLFamily;
  Ok (texts.1 +:+ separator +:+ q, texts.2 +:+ separator +:+ value).

Definition renderInsert (insert : InsertIfAbsentSpec) : res string :=
  throw_if (bool_decide (insert_columns insert = [])
            || negb (length (insert_columns insert) =? length (valueExpressions insert))%nat
            || bool_decide (conflictColumns insert = []))
    (InvalidArgument "Insert-if-absent requires matching columns, values and a conflict key") ;;
  '(columns, values) ← foldM insertPair ("", "") (imap pair (zip (insert_columns insert) (valueExpressions insert)));
  forM_ (conflictColumns insert) (fun column =>
    throw_if (negb (bool_decide (column ∈ insert_columns insert)))
      (InvalidArgument "Conflict columns must belong to the inserted columns")) ;;
  table ← quoteStandardIdentifier (insert_table insert) MySQLFamily;
  Ok ("INSERT INTO " +:+ table +:+ " (" +:+ columns +:+ ") VALUES (" +:+ values +:+ ");").
End mysql_family.

(** [MariadbTypeTranslator::toSqlType]. *)
Definition mariadb_toSqlType (type : ColumnType) (maxStringLength : option N) : res string :=
  if bool_decide (type = ColumnType.Uuid) then Ok "UUID" else mysql_family.sqlType type maxStringLength.

(** ** The parts that the dialects share *)

(** The local [join]: the separator is skipped while the result is empty. *)
Definition join_nonempty (separator : string) (values : list string) : string :=
  fold_left (fun result value =>
    (if bool_decide (result = "") then result else result +:+ separator) +:+ value) values "".

Section common.
Variable flavor : Flavor.
Let quote (name : string) : res string := quoteStandardIdentifier name flavor.

Definition createTablePrefix (name : string) (ifNotExists : bool) : res string :=
  q ← quote name; Ok ("CREATE TABLE " +:+ (if ifNotExists then "IF NOT EXISTS " else "") +:+ q +:+ " (").

Definition dropTable (name : string) (ifExists : bool) : res string :=
  q ← quote name; Ok ("DROP TABLE " +:+ (if ifExists then "IF EXISTS " else "") +:+ q +:+ ";").

Definition autoIncrementPrimaryKey (definition name : string) : res string :=
  q ← quote name; Ok (q +:+ definition).

Definition pagination (spec : PaginationSpec) : res string :=
  Ok (literalPagination flavor (limit_ spec) (offset_ spec)).

(** SQLite's and PostgreSQL's [renderInsertIfAbsent]. *)
Definition insertOnConflict (insert : InsertIfAbsentSpec) : res string :=
  throw_if (bool_decide (insert_columns insert = []))
    (InvalidArgument "Insert-if-absent requires at least one column") ;;
  throw_if (negb (length (insert_columns insert) =? length (valueExpressions insert))%nat)
    (InvalidArgument "Insert-if-absent column and value counts must match") ;;
  throw_if (bool_decide (conflictColumns insert = []))
    (InvalidArgument "Insert-if-absent requires conflict columns") ;;
  columns ← mapM quote (insert_columns insert);
  conflicts ← mapM quote (conflictColumns insert);
  table ← quote (insert_table insert);
  Ok ("INSERT INTO " +:+ table +:+ " (" +:+ join_nonempty ", " columns +:+ ") VALUES ("
      +:+ join_nonempty ", " (valueExpressions insert) +:+ ") ON CONFLICT ("
      +:+ join_nonempty ", " conflicts +:+ ") DO NOTHING;").
End common.

(** The default of [SqlDialect::renderDefaultInsert]. *)
Definition defaultInsert (flavor : Flavor) (name : string) : res string :=
  q ← quoteStandardIdentifier name flavor; Ok ("INSERT INTO " +:+ q +:+ " DEFAULT VALUES;").

(** The one of MySQL and MariaDB. *)
Definition emptyInsert (name : string) : res string :=
  q ← quoteStandardIdentifier name MySQLFamily; Ok ("INSERT INTO " +:+ q +:+ " () VALUES ();").

Definition sqliteStringLengthConstraint (name : string) (maxStringLength : option N) : res string :=
  match maxStringLength with
  | None => Ok ""
  | Some n =>
      q ← quoteStandardIdentifier name SQLite;
      Ok (" CHECK (length(replace(" +:+ q +:+ ", char(0), char(1))) <= " +:+ to_string n +:+ ")")
  end.

(** ** The built-in dialects *)
Definition SqliteDialect : SqlDialect := {|
  quoteIdentifier name := quoteStandardIdentifier name SQLite;
  bindMarker := standardBindMarker "SQLite bind parameter names may contain only ASCII letters, digits, and '_'";
  toSqlType := sqlite_toSqlType;
  renderStringLengthConstraint := sqliteStringLengthConstraint;
  renderCreateTablePrefix := createTablePrefix SQLite;
  renderCreateTableSuffix := newline +:+ ");";
  renderDefaultInsert := defaultInsert SQLite;
  renderDropTable := dropTable SQLite;
  renderAutoIncrementPrimaryKey := autoIncrementPrimaryKey SQLite " INTEGER PRIMARY KEY AUTOINCREMENT";
  renderPagination := pagination SQLite;
  renderInsertIfAbsent := insertOnConflict SQLite;
  renderAggregateResult value _ := value
|}.

Definition PostgresqlDialect : SqlDialect := {|
  quoteIdentifier name := quoteStandardIdentifier name PostgreSQL;
  bindMarker := standardBindMarker "PostgreSQL bind parameter names may contain only ASCII letters, digits, and '_'";
  toSqlType := postgresql_toSqlType;
  renderStringLengthConstraint _ _ := Ok "";
  renderCreateTablePrefix := createTablePrefix PostgreSQL;
  renderCreateTableSuffix := newline +:+ ");";
  renderDefaultInsert := defaultInsert PostgreSQL;
  renderDropTable := dropTable PostgreSQL;
  renderAutoIncrementPrimaryKey :=
    autoIncrementPrimaryKey PostgreSQL " INTEGER GENERATED BY DEFAULT AS IDENTITY PRIMARY KEY";
  renderPagination := pagination PostgreSQL;
  renderInsertIfAbsent := insertOnConflict PostgreSQL;
  renderAggregateResult := castAggregate PostgreSQL
|}.

(** The parts MySQL and MariaDB have in common. *)
Definition familyDialect (type : ColumnType -> option N -> res string) (collation : string) : SqlDialect := {|
  quoteIdentifier name := quoteStandardIdentifier name MySQLFamily;
  bindMarker := standardBindMarker "Invalid SQL bind parameter name";
  toSqlType := type;
  renderStringLengthConstraint _ _ := Ok "";
  renderCreateTablePrefix := createTablePrefix MySQLFamily;
  renderCreateTableSuffix :=
    newline +:+ ") ENGINE=InnoDB DEFAULT CHARACTER SET utf8mb4 COLLATE " +:+ collation +:+ ";";
  renderDefaultInsert := emptyInsert;
  renderDropTable := dropTable MySQLFamily;
  renderAutoIncrementPrimaryKey := autoIncrementPrimaryKey MySQLFamily " INT NOT NULL AUTO_INCREMENT PRIMARY KEY";
  renderPagination := pagination MySQLFamily;
  renderInsertIfAbsent := mysql_family.renderInsert;
  renderAggregateResult := castAggregate MySQLFamily
|}.

Definition MysqlDialect : SqlDialect := familyDialect mysql_family.sqlType "utf8mb4_0900_bin".
Definition MariadbDialect : SqlDialect := familyDialect mariadb_toSqlType "utf8mb4_nopad_bin".

(** The dialect of each built-in backend, [BackendProvider::dialect]. *)
Definition builtin_dialect (b : BackendType) : option SqlDialect :=
  match b with
  | Sqlite => Some SqliteDialect
  | Postgres => Some PostgresqlDialect
  | Mysql => Some MysqlDialect
  | Mariadb => Some MariadbDialect
  | _ => None
  end.
