(* ===== verification/QueryValue.v ===== *)
(** QueryValue: the values bound to statements, modules/orm/query/value.cppm with
    src/query/QueryValue.cpp, their limits (src/database/ValueLimits.cpp) and the
    order of primary keys (modules/orm/database/payload.cppm). *)
From S2P Require Import Prelude Foundation Chrono Values Codec Schema Literals TargetValues.
From Stdlib Require Import SpecFloat.
Local Open Scope Z_scope.

(** [QueryValue::Value], the alternatives in their order. *)
Inductive Value :=
| IntValue (value : Z)
| LongLongValue (value : Z)
| UnsignedValue (value : Z)
| DoubleValue (value : double)
| StringValue (value : string)
| DateValue (value : Date)
| TimeOfDayValue (value : TimeOfDay)
| LocalDateTimeValue (value : LocalDateTime)
| UtcTimestampValue (value : UtcTimestamp)
| UuidValue (value : Uuid.t).

Record QueryValue := MkQueryValue {
  getLogicalType : ColumnType;
  get : Value
}.

(** ** Storage *)
Definition in_range (low value high : Z) : bool := (low <=? value) && (value <=? high).

(** The bounds of an [int] alternative and of an [unsigned long long] one. *)
Definition int_bounds (type : ColumnType) : option (Z * Z) :=
  match type with
  | ColumnType.Bool => Some (0, 1)
  | ColumnType.Char => Some (-128, 255)
  | ColumnType.UnsignedChar => Some (0, 255)
  | ColumnType.Short => Some (-32768, 32767)
  | ColumnType.UnsignedShort => Some (0, 65535)
  | ColumnType.Int => Some (-2147483648, 2147483647)
  | _ => None
  end.

Definition unsigned_bounds (type : ColumnType) : option (Z * Z) :=
  match type with
  | ColumnType.UnsignedInt => Some (0, 4294967295)
  | ColumnType.UnsignedLongLong => Some (0, 2 ^ 64 - 1)
  | _ => None
  end.

Definition within_bounds (bounds : option (Z * Z)) (value : Z) : bool :=
  match bounds with Some (low, high) => in_range low value high | None => false end.

(** [isCompatibleStorage]; the integers of a [Value] have their alternative's width. *)
Definition isCompatibleStorage (type : ColumnType) (value : Value) : bool :=
  match value with
  | IntValue z => within_bounds (int_bounds type) z
  | LongLongValue z => bool_decide (type = ColumnType.LongLong)
  | UnsignedValue z => within_bounds (unsigned_bounds type) z
  | DoubleValue d =>
      bool_decide (type = ColumnType.Float) && float_cast d
      || bool_decide (type = ColumnType.Double) && is_finite d
  | StringValue _ => bool_decide (type = ColumnType.String)
  | DateValue d => bool_decide (type = ColumnType.Date) && valid_Date d
  | TimeOfDayValue t => bool_decide (type = ColumnType.TimeOfDay) && valid_TimeOfDay t
  | LocalDateTimeValue t => bool_decide (type = ColumnType.LocalDateTime) && valid_LocalDateTime t
  | UtcTimestampValue t => bool_decide (type = ColumnType.UtcTimestamp) && valid_UtcTimestamp t
  | UuidValue _ => bool_decide (type = ColumnType.Uuid)
  end.

Definition fromStorage (type : ColumnType) (value : Value) : res QueryValue :=
  throw_if (negb (isCompatibleStorage type value))
    (InvalidArgument "Query value storage does not match its logical column type") ;;
  Ok (MkQueryValue type value).

(** ** Limits *)
Record BoundValue := MkBound {
  bound_type : ColumnType;
  bound_value : option Value
}.

(** The part of a value that [BackendValueLimits] restricts by an interval. *)
Definition stored_value (value : Value) : option StoredValue :=
  match value with
  | DateValue d => Some (StoredDate d)
  | LocalDateTimeValue t => Some (StoredLocalDateTime t)
  | UtcTimestampValue t => Some (StoredUtcTimestamp t)
  | _ => None
  end.

(** [isWithinValueLimits]; [maxUnsignedLongLong] is the first member of the limits. *)
Definition isWithinValueLimits (bound : BoundValue) (maxUnsignedLongLong : option Z)
    (limits : BackendValueLimits) (runtime : BackendRuntimeLimits) : bool :=
  match bound_value bound with
  | None => true
  | Some value =>
      isCompatibleStorage (bound_type bound) value
      && match stored_value value, value with
         | Some stored, _ => TargetValues.isWithinValueLimits stored limits runtime
         | None, UnsignedValue z =>
             match maxUnsignedLongLong with Some m => z <=? m | None => true end
         | None, _ => true
         end
  end.

(** ** Order *)
Definition alternative (value : Value) : Z :=
  match value with
  | IntValue _ => 0 | LongLongValue _ => 1 | UnsignedValue _ => 2 | DoubleValue _ => 3
  | StringValue _ => 4 | DateValue _ => 5 | TimeOfDayValue _ => 6 | LocalDateTimeValue _ => 7
  | UtcTimestampValue _ => 8 | UuidValue _ => 9
  end.

(** The next comparison decides when the first finds no difference. *)
Definition and_then (first second : option comparison) : option comparison :=
  match first with Some Eq => second | _ => first end.

Definition compare_Date (x y : Date) : comparison :=
  match year x ?= year y with
  | Eq => match month x ?= month y with Eq => day x ?= day y | c => c end
  | c => c
  end.

(** [std::variant]'s [<=>]: the alternatives' positions, then the values. *)
Definition compare_Value (x y : Value) : option comparison :=
  match x, y with
  | IntValue a, IntValue b | LongLongValue a, LongLongValue b | UnsignedValue a, UnsignedValue b
  | LocalDateTimeValue a, LocalDateTimeValue b | UtcTimestampValue a, UtcTimestampValue b => Some (a ?= b)
  | DoubleValue a, DoubleValue b => SFcompare a b
  | StringValue a, StringValue b => Some (String.compare a b)
  | DateValue a, DateValue b => Some (compare_Date a b)
  | TimeOfDayValue a, TimeOfDayValue b => Some (sinceMidnight a ?= sinceMidnight b)
  | UuidValue a, UuidValue b => Some (String.compare (of_chars (Uuid.bytes a)) (of_chars (Uuid.bytes b)))
  | _, _ => Some (alternative x ?= alternative y)
  end.

Definition compare (x y : QueryValue) : option comparison :=
  and_then (Some (ColumnType.number (getLogicalType x) ?= ColumnType.number (getLogicalType y)))
    (compare_Value (get x) (get y)).

Abbreviation PrimaryKey := (list QueryValue).

Definition value_less (x y : QueryValue) : bool := bool_decide (compare x y = Some Lt).

(** [std::lexicographical_compare] with [value_less]. *)
Fixpoint PrimaryKeyLess (l r : PrimaryKey) : bool :=
  match l, r with
  | _, [] => false
  | [], _ :: _ => true
  | x :: l, y :: r =>
      value_less x y || negb (value_less y x) && PrimaryKeyLess l r
  end.

(** ** Lexicographic comparison *)
Section lexicographic.
Context {A : Type} (cmp : A -> A -> comparison).

Fixpoint lexicographic (l k : list A) : comparison :=
  match l, k with
  | [], [] => Eq
  | [], _ :: _ => Lt
  | _ :: _, [] => Gt
  | x :: l, y :: k => match cmp x y with Eq => lexicographic l k | c => c end
  end.

Hypothesis cmp_eq : forall x y, cmp x y = Eq <-> x = y.
Hypothesis cmp_opp : forall x y, cmp y x = CompOpp (cmp x y).
Hypothesis cmp_trans : forall x y z, cmp x y = Lt -> cmp y z = Lt -> cmp x z = Lt.

Lemma lexicographic_eq l k : lexicographic l k = Eq <-> l = k.
Proof.
  revert k. induction l as [|x l IH]; intros [|y k]; simpl; [done..|].
  destruct (cmp x y) eqn:Hxy.
  - apply cmp_eq in Hxy as ->. rewrite IH. naive_solver.
  - split; [done|]. intros [= -> _]. by rewrite (proj2 (cmp_eq y y) eq_refl) in Hxy.
  - split; [done|]. intros [= -> _]. by rewrite (proj2 (cmp_eq y y) eq_refl) in Hxy.
Qed.

Lemma lexicographic_opp l k : lexicographic k l = CompOpp (lexicographic l k).
Proof.
  revert k. induction l as [|x l IH]; intros [|y k]; simpl; [done..|].
  rewrite (cmp_opp x y). destruct (cmp x y); simpl; [apply IH|done|done].
Qed.

Lemma lexicographic_trans l k j : lexicographic l k = Lt -> lexicographic k j = Lt -> lexicographic l j = Lt.
Proof.
  revert k j. induction l as [|x l IH]; intros [|y k] [|z j]; simpl; try done.
  destruct (cmp x y) eqn:Hxy; [apply cmp_eq in Hxy as ->| |done].
  - destruct (cmp y z); [apply IH|done|done].
  - intros _. destruct (cmp y z) eqn:Hyz; [apply cmp_eq in Hyz as <-| |done]; intros _; [by rewrite Hxy|].
    by rewrite (cmp_trans _ _ _ Hxy Hyz).
Qed.
End lexicographic.

Lemma Z_compare_trans x y z : (x ?= y) = Lt -> (y ?= z) = Lt -> (x ?= z) = Lt.
Proof. rewrite !Z.compare_lt_iff. lia. Qed.

Definition lex : list Z -> list Z -> comparison := lexicographic Z.compare.
Lemma lex_eq l k : lex l k = Eq <-> l = k.
Proof. apply lexicographic_eq. intros x y. apply Z.compare_eq_iff. Qed.
Lemma lex_opp l k : lex k l = CompOpp (lex l k).
Proof. apply lexicographic_opp. intros x y. apply Z.compare_antisym. Qed.
Lemma lex_trans l k j : lex l k = Lt -> lex k j = Lt -> lex l j = Lt.
Proof. apply lexicographic_trans; [intros; apply Z.compare_eq_iff|exact Z_compare_trans]. Qed.

(** ** A key that orders as the values do *)
Definition float_key (d : double) : list Z :=
  match d with
  | S754_zero _ | S754_nan => [0; 0; 0]
  | S754_infinity s => [if s then -2 else 2; 0; 0]
  | S754_finite s m e => if s then [-1; - e; Z.neg m] else [1; e; Z.pos m]
  end.

Definition bytes_key (s : string) : list Z := map byte_of (chars s).

Definition payload (value : Value) : list Z :=
  match value with
  | IntValue z | LongLongValue z | UnsignedValue z | LocalDateTimeValue z | UtcTimestampValue z => [z]
  | DoubleValue d => float_key d
  | StringValue s => bytes_key s
  | DateValue d => [year d; month d; day d]
  | TimeOfDayValue t => [sinceMidnight t]
  | UuidValue u => bytes_key (of_chars (Uuid.bytes u))
  end.

Definition value_key (v : QueryValue) : list Z :=
  ColumnType.number (getLogicalType v) :: alternative (get v) :: payload (get v).

Definition not_nan (v : QueryValue) : bool := match get v with DoubleValue S754_nan => false | _ => true end.

Lemma SFcompare_key a b : a <> S754_nan -> b <> S754_nan -> SFcompare a b = Some (lex (float_key a) (float_key b)).
Proof.
  assert (Hlast : forall c, match c with Eq => Eq | Lt => Lt | Gt => Gt end = c) by by intros [].
  destruct a as [s|s| |s m e], b as [s'|s'| |s' m' e']; try done; intros _ _;
    try (by destruct s, s'); try (by destruct s); try (by destruct s').
  unfold SFcompare, float_key, lex. f_equal. destruct s, s'; try done; cbn [lexicographic].
  - change (-1 ?= -1) with Eq. cbv iota. rewrite Z.compare_opp. rewrite (Z.compare_antisym e e').
    destruct (e ?= e'); try done. change (Pos.compare_cont Eq m m') with (m ?= m')%positive.
    simpl. by destruct (m ?= m')%positive.
  - change (1 ?= 1) with Eq. cbv iota. by destruct (e ?= e').
Qed.

Lemma ascii_compare_bytes a b : Ascii.compare a b = (byte_of a ?= byte_of b).
Proof. unfold Ascii.compare, byte_of. by rewrite N2Z.inj_compare. Qed.

Lemma string_compare_key s t : String.compare s t = lex (bytes_key s) (bytes_key t).
Proof.
  unfold lex, bytes_key. revert t. induction s as [|a s IH]; intros [|b t]; simpl; [done..|].
  rewrite <- IH, ascii_compare_bytes. done.
Qed.

Lemma compare_Value_key x y :
  (forall d, x = DoubleValue d -> d <> S754_nan) -> (forall d, y = DoubleValue d -> d <> S754_nan) ->
  compare_Value x y = Some (lex (alternative x :: payload x) (alternative y :: payload y)).
Proof.
  intros Hx Hy. destruct x as [a|a|a|a|a|a|a|a|a|a], y as [b|b|b|b|b|b|b|b|b|b]; try done; cbn [compare_Value payload alternative];
    unfold lex; cbn [lexicographic]; rewrite ?Z.compare_refl.
  - by destruct (a ?= b).
  - by destruct (a ?= b).
  - by destruct (a ?= b).
  - apply SFcompare_key; [by apply Hx|by apply Hy].
  - f_equal. apply string_compare_key.
  - unfold compare_Date. f_equal. destruct (year a ?= year b); try done. destruct (month a ?= month b); try done.
    by destruct (day a ?= day b).
  - by destruct (sinceMidnight a ?= sinceMidnight b).
  - by destruct (a ?= b).
  - by destruct (a ?= b).
  - f_equal. apply string_compare_key.
Qed.

Lemma compare_key x y :
  not_nan x = true -> not_nan y = true -> compare x y = Some (lex (value_key x) (value_key y)).
Proof.
  intros Hx Hy. unfold compare, value_key. rewrite compare_Value_key.
  - unfold lex. cbn [lexicographic]. by destruct (_ ?= _).
  - intros d Hd ->. unfold not_nan in Hx. by rewrite Hd in Hx.
  - intros d Hd ->. unfold not_nan in Hy. by rewrite Hd in Hy.
Qed.

(** The keys of two primary keys, compared. *)
Definition compare_keys (l k : PrimaryKey) : comparison := lexicographic lex (map value_key l) (map value_key k).

Lemma PrimaryKeyLess_key l k :
  Forall (fun v => not_nan v = true) l -> Forall (fun v => not_nan v = true) k ->
  PrimaryKeyLess l k = bool_decide (compare_keys l k = Lt).
Proof.
  intros Hl. revert k. induction Hl as [|x l Hx _ IH]; intros [|y k] Hk; try done.
  apply Forall_cons in Hk as [Hy Hk]. cbn [PrimaryKeyLess]. unfold value_less. rewrite !compare_key by done.
  rewrite (IH k Hk). unfold compare_keys. cbn [map lexicographic]. rewrite (lex_opp (value_key x) (value_key y)).
  by destruct (lex (value_key x) (value_key y)).
Qed.

(** the comparator of the maps keyed by a primary key is a strict weak order on the
    keys without NaN, and two keys that it does not order are made of values of the same
    types that compare equal. *)
Theorem PrimaryKeyLess_strict_weak_order l k j :
  Forall (fun v => not_nan v = true) (l ++ k ++ j) ->
  PrimaryKeyLess l l = false /\
  (PrimaryKeyLess l k = true -> PrimaryKeyLess k j = true -> PrimaryKeyLess l j = true) /\
  (PrimaryKeyLess l k = false -> PrimaryKeyLess k l = false -> map value_key l = map value_key k).
Proof.
  rewrite !Forall_app. intros (Hl & Hk & Hj). rewrite !PrimaryKeyLess_key by done. unfold compare_keys. split; [|split].
  - apply bool_decide_eq_false. by rewrite (proj2 (lexicographic_eq lex lex_eq _ _) eq_refl).
  - rewrite !bool_decide_eq_true. apply (lexicographic_trans lex lex_eq lex_trans).
  - rewrite !bool_decide_eq_false. rewrite (lexicographic_opp lex lex_opp (map value_key l) (map value_key k)).
    destruct (lexicographic lex (map value_key l) _) eqn:Hc; simpl; [|done|done].
    intros _ _. by apply (lexicographic_eq lex lex_eq) in Hc.
Qed.
