(* ===== verification/Query.v ===== *)
(** Query: the expressions of the query language
    (modules/orm/query/runtime_predicate.cppm, aggregate.cppm, projection.cppm), the
    flat program they are compiled to (modules/orm/sql/program.cppm) and the
    compilation, which collects the statement's parameters
    (src/database/defaults/SqlRenderer.cpp). *)
From S2P Require Import Prelude Foundation QueryValue Dialect.
Local Open Scope string_scope.

(** ** Expressions *)
Inductive ComparisonOperator := Equal | NotEqual | Greater | GreaterOrEqual | Less | LessOrEqual | Like | NotLike.
Inductive NullOperator := IsNull | IsNotNull.
Inductive ListOperator := In | NotIn.
Inductive BetweenOperator := Between | NotBetween.
Inductive LogicalOperator := And | Or.
Inductive CollectionOperator := Any | Exists | NoneOf.
Inductive AggregateFunction := Count | CountAll | Sum | Avg | Min | Max.
Inductive OrderDirection := Asc | Desc.

#[export] Instance AggregateFunction_eq_dec : EqDecision AggregateFunction.
Proof. solve_decision. Defined.

(** [static_cast<unsigned>] of the operators. *)
Definition comparison_number (o : ComparisonOperator) : N :=
  match o with
  | Equal => 0 | NotEqual => 1 | Greater => 2 | GreaterOrEqual => 3 | Less => 4 | LessOrEqual => 5
  | Like => 6 | NotLike => 7
  end.
Definition null_number (o : NullOperator) : N := match o with IsNull => 0 | IsNotNull => 1 end.
Definition list_number (o : ListOperator) : N := match o with In => 0 | NotIn => 1 end.
Definition between_number (o : BetweenOperator) : N := match o with Between => 0 | NotBetween => 1 end.
Definition collection_number (o : CollectionOperator) : N := match o with Any => 0 | Exists => 1 | NoneOf => 2 end.

Record QueryParameter := MkParam { param_name : string; param_value : QueryValue }.

(** [PredicateNode]; a [Column] is its path.  A missing element predicate is a null
    pointer. *)
Inductive PredicateNode :=
| ComparisonExpression (column : string) (o : ComparisonOperator) (value : QueryValue)
| NullExpression (column : string) (o : NullOperator)
| ListExpression (column : string) (o : ListOperator) (values : list QueryValue)
| BetweenExpression (column : string) (o : BetweenOperator) (lower upper : QueryValue)
| LogicalExpression (l : PredicateNode) (o : LogicalOperator) (r : PredicateNode)
| NotExpression (p : PredicateNode)
| RawExpression (sql : string) (parameters : list QueryParameter)
| CollectionExpression (relation : string) (o : CollectionOperator) (p : option PredicateNode).

Record AggregateExpression := MkAggregate { function : AggregateFunction; agg_column : option string }.

Inductive AggregatePredicateNode :=
| AggregateComparison (aggregate : AggregateExpression) (o : ComparisonOperator) (value : QueryValue)
| AggregateLogical (l : AggregatePredicateNode) (o : LogicalOperator) (r : AggregatePredicateNode)
| AggregateNot (p : AggregatePredicateNode).

Record OrderBy := MkOrderBy {
  order_column : string;
  order_direction : OrderDirection;
  order_isRaw : bool;
  order_rawSql : string
}.

Inductive ProjectionSource :=
| ColumnSource (column : string)
| AggregateSource (aggregate : AggregateExpression).

Record Projection := MkProjection { projected : ProjectionSource; resultField : string }.

Record SelectSpec := MkSelect {
  offset : option N;
  limit : option N;
  predicate : option PredicateNode;
  orderBy : list OrderBy;
  projections : list Projection;
  groupBy : list string;
  having : option AggregatePredicateNode;
  isDistinct : bool;
  shouldJoin : bool
}.

Record UpdateAssignment := MkAssignment { assigned_column : string; assigned_value : option QueryValue }.
Record UpdateSpec := MkUpdate { assignments : list UpdateAssignment; update_predicate : option PredicateNode }.

(** ** The flat program *)
Definition noSqlNode : N := 2 ^ 64 - 1.

Inductive SqlNodeKind := KComparison | KNull | KList | KBetween | KAnd | KOr | KNot | KCollection | KRaw | KInvalid.

(** [pathParts] holds the first [pathSize] parts. *)
Record SqlSource := MkSource {
  pathParts : list string;
  isAggregate : bool;
  source_function : AggregateFunction
}.
Definition no_source : SqlSource := MkSource [] false Count.

Record SqlNode := MkNode {
  kind : SqlNodeKind;
  node_source : SqlSource;
  operation : N;
  left_ : N;
  right_ : N;
  firstParameter : N;
  parameterCount : N;
  relation : string;
  rawSql : string
}.

Record SqlBindingDescriptor := MkBinding { binding_type : ColumnType; index : N; rawName : string }.
Record SqlOrder := MkOrder { ord_source : SqlSource; direction : OrderDirection; isRaw : bool; ord_rawSql : string }.
Record SqlProjection := MkSqlProjection { proj_source : SqlSource; alias : string }.
Record SqlAssignment := MkSqlAssignment { assign_source : SqlSource; parameter : N }.
Inductive SqlOperation := Select | Update | Remove.

(** The part of [SqlProgram] that predicates extend. *)
Record Code := MkCode { nodes : list SqlNode; bindings : list SqlBindingDescriptor }.

(** [SqlQueryView] without [includes], which no renderer reads. *)
Record SqlQueryView := MkQuery {
  query_operation : SqlOperation;
  code : Code;
  query_predicate : N;
  query_having : N;
  orders : list SqlOrder;
  groups : list SqlSource;
  query_projections : list SqlProjection;
  query_assignments : list SqlAssignment;
  query_isDistinct : bool;
  query_shouldJoin : bool;
  hasLimit : bool;
  hasOffset : bool;
  boundPagination : bool;
  limitParameter : N;
  offsetParameter : N;
  literalLimit : N;
  literalOffset : N
}.

Definition comparison_node (source : SqlSource) (operation first : N) : SqlNode :=
  MkNode KComparison source operation noSqlNode noSqlNode first 1 "" "".
Definition null_node (source : SqlSource) (operation : N) : SqlNode :=
  MkNode KNull source operation noSqlNode noSqlNode 0 0 "" "".
Definition list_node (source : SqlSource) (operation first count : N) : SqlNode :=
  MkNode KList source operation noSqlNode noSqlNode first count "" "".
Definition between_node (source : SqlSource) (operation first : N) : SqlNode :=
  MkNode KBetween source operation noSqlNode noSqlNode first 2 "" "".
Definition logical_node (o : LogicalOperator) (l r : N) : SqlNode :=
  MkNode (match o with And => KAnd | Or => KOr end) no_source 0 l r 0 0 "" "".
Definition not_node (l : N) : SqlNode := MkNode KNot no_source 0 l noSqlNode 0 0 "" "".
Definition raw_node (sql : string) : SqlNode := MkNode KRaw no_source 0 noSqlNode noSqlNode 0 0 "" sql.
Definition collection_node (relation : string) (operation l : N) : SqlNode :=
  MkNode KCollection no_source operation l noSqlNode 0 0 relation "".

(** The name of a binding: [orm_p] and its index, or the name of a raw parameter. *)
Definition automatic_name (i : N) : string := "orm_p" +:+ to_string i.
Definition parameterName (b : SqlBindingDescriptor) : string :=
  if bool_decide (rawName b = "") then automatic_name (index b) else rawName b.

(** ** Column paths *)

(** The parts of a text between the dots. *)
Fixpoint dot_parts (s : string) : list string :=
  match s with
  | "" => [""]
  | String c s =>
      match dot_parts s with
      | part :: rest => if bool_decide (c = "."%char) then "" :: part :: rest else String c part :: rest
      | [] => []
      end
  end.

(** The loop of [parseSqlSource] over the parts that [find('.')] delimits. *)
Fixpoint take_parts (path : string) (found parts : list string) : res (list string) :=
  match parts with
  | [] => Ok found
  | part :: parts =>
      throw_if (bool_decide (part = ""))
        (InvalidArgument ("Column path contains an empty segment: " +:+ path)) ;;
      throw_if (length found =? 2)%nat
        (InvalidArgument ("Only one level of related model paths is supported: " +:+ path)) ;;
      take_parts path (found ++ [part])%list parts
  end.

Definition parseSqlSource (path : string) : res SqlSource :=
  parts ← take_parts path [] (dot_parts path); Ok (MkSource parts false Count).

Definition aggregate_source (e : AggregateExpression) : res SqlSource :=
  throw_if (bool_decide (function e <> CountAll) && bool_decide (agg_column e = None))
    (InvalidArgument "Aggregate function requires a source column") ;;
  source ← match agg_column e with Some path => parseSqlSource path | None => Ok no_source end;
  Ok (MkSource (pathParts source) true (function e)).

Definition projection_source (p : ProjectionSource) : res SqlSource :=
  match p with ColumnSource path => parseSqlSource path | AggregateSource e => aggregate_source e end.

(** ** Compilation *)
Record StatementParameter := MkParameter {
  parameter_name : string;
  parameter_value : option QueryValue;
  nullType : option ColumnType
}.

Record Statement := MkStatement { sql : string; parameters : list StatementParameter }.

(** What the compilation changes: the program and the parameters of [RenderContext]. *)
Record Build := MkBuild {
  program : Code;
  context_parameters : list StatementParameter;
  parameterNames : gset string;
  nextParameterIndex : N
}.
Definition start : Build := MkBuild (MkCode [] []) [] ∅ 0.

Definition size_of {A} (l : list A) : N := N.of_nat (length l).

(** The [do … while] loop that looks for an unused name.  [fuel] bounds the passes. *)
Fixpoint unused_name (fuel : nat) (names : gset string) (next : N) : string * N :=
  let name := automatic_name next in
  match fuel with
  | O => (name, next + 1)%N
  | S fuel => if bool_decide (name ∈ names) then unused_name fuel names (next + 1) else (name, next + 1)%N
  end.

Section compilation.
Variable dialect : SqlDialect.

(** [addAutomaticParameter] and [addNullParameter], which differ in the parameter. *)
Definition add_parameter (s : Build) (value : option QueryValue) (nullType : option ColumnType) : res (string * Build) :=
  let '(name, next) := unused_name (base.size (parameterNames s)) (parameterNames s) (nextParameterIndex s) in
  marker ← bindMarker dialect name;
  Ok (marker, MkBuild (program s) (context_parameters s ++ [MkParameter name value nullType])%list
                ({[name]} ∪ parameterNames s) next).

Definition addAutomaticParameter (s : Build) (value : QueryValue) : res (string * Build) :=
  add_parameter s (Some value) None.
Definition addNullParameter (s : Build) (type : ColumnType) : res (string * Build) :=
  add_parameter s None (Some type).

(** [program.bindings.push_back({type, context.nextParameterIndex - 1, {}})]: the index
    of the binding. *)
Definition push_binding (s : Build) (b : SqlBindingDescriptor) : Build :=
  MkBuild (MkCode (nodes (program s)) (bindings (program s) ++ [b])%list)
    (context_parameters s) (parameterNames s) (nextParameterIndex s).

Definition bind_last (type : ColumnType) (added : string * Build) : N * Build :=
  let s := added.2 in
  (size_of (bindings (program s)), push_binding s (MkBinding type (nextParameterIndex s - 1) "")).

Definition addValue (s : Build) (value : QueryValue) : res (N * Build) :=
  bind_last (getLogicalType value) <$> addAutomaticParameter s value.
Definition addNull (s : Build) (type : ColumnType) : res (N * Build) :=
  bind_last type <$> addNullParameter s type.

Definition push_node (s : Build) (n : SqlNode) : N * Build :=
  (size_of (nodes (program s)),
   MkBuild (MkCode (nodes (program s) ++ [n])%list (bindings (program s)))
     (context_parameters s) (parameterNames s) (nextParameterIndex s)).

(** A parameter of a raw expression. *)
Definition addRaw (s : Build) (p : QueryParameter) : res Build :=
  let name := param_name p in
  throw_if (bool_decide (name = "") || starts_with ":" name)
    (InvalidArgument "Raw query parameter name must not be empty or include ':'") ;;
  throw_if (starts_with "orm_p" name)
    (InvalidArgument ("Raw query parameter cannot use reserved prefix orm_p: " +:+ name)) ;;
  _ ← bindMarker dialect name;
  throw_if (bool_decide (name ∈ parameterNames s)) (InvalidArgument ("Duplicate query parameter: " +:+ name)) ;;
  Ok (push_binding
        (MkBuild (program s) (context_parameters s ++ [MkParameter name (Some (param_value p)) None])%list
           ({[name]} ∪ parameterNames s) (nextParameterIndex s))
        (MkBinding (getLogicalType (param_value p)) 0 name)).

Fixpoint appendPredicate (s : Build) (p : PredicateNode) : res (N * Build) :=
  match p with
  | ComparisonExpression column o value =>
      source ← parseSqlSource column;
      '(first, s) ← addValue s value;
      Ok (push_node s (comparison_node source (comparison_number o) first))
  | NullExpression column o =>
      source ← parseSqlSource column; Ok (push_node s (null_node source (null_number o)))
  | ListExpression column o values =>
      source ← parseSqlSource column;
      let first := size_of (bindings (program s)) in
      s ← foldM (fun s value => snd <$> addValue s value) s values;
      Ok (push_node s (list_node source (list_number o) first (size_of values)))
  | BetweenExpression column o lower upper =>
      source ← parseSqlSource column;
      '(first, s) ← addValue s lower;
      '(_, s) ← addValue s upper;
      Ok (push_node s (between_node source (between_number o) first))
  | LogicalExpression l o r =>
      '(l', s) ← appendPredicate s l;
      '(r', s) ← appendPredicate s r;
      Ok (push_node s (logical_node o l' r'))
  | NotExpression p =>
      '(l', s) ← appendPredicate s p; Ok (push_node s (not_node l'))
  | RawExpression sql parameters =>
      s ← foldM addRaw s parameters; Ok (push_node s (raw_node sql))
  | CollectionExpression relation o p =>
      '(l', s) ← match p with Some p => appendPredicate s p | None => Ok (noSqlNode, s) end;
      Ok (push_node s (collection_node relation (collection_number o) l'))
  end.

Fixpoint appendHaving (s : Build) (p : AggregatePredicateNode) : res (N * Build) :=
  match p with
  | AggregateComparison e o value =>
      source ← aggregate_source e;
      '(first, s) ← addValue s value;
      Ok (push_node s (comparison_node source (comparison_number o) first))
  | AggregateLogical l o r =>
      '(l', s) ← appendHaving s l;
      '(r', s) ← appendHaving s r;
      Ok (push_node s (logical_node o l' r'))
  | AggregateNot p =>
      '(l', s) ← appendHaving s p; Ok (push_node s (not_node l'))
  end.
End compilation.
