(* ===== verification/Emitter.v ===== *)
(** Emitter: the SQL text of a flat program, modules/orm/sql/emitter.cppm, over the
    policy that quotes, binds and paginates: the one of a run-time dialect or the one
    of a statement compiled for a known flavor.

    The evaluation order of the arguments of [sqlConcat], which C++ leaves open and
    which decides only the exception that is thrown first, is left to right. *)
From S2P Require Import Prelude Foundation Models Dialect QueryValue Query.
Local Open Scope string_scope.

(** ** Policies *)
Class SqlPolicy := {
  p_quoteIdentifier : string -> res string;
  p_bindMarker : string -> res string;
  p_renderAggregateResult : string -> bool -> string;
  p_pagination : SqlQueryView -> res string
}.

Definition nth_N {A} (l : list A) (i : N) : res A :=
  if (i <? size_of l)%N then or_throw (l !! N.to_nat i) Undefined else Err Undefined.

Definition binding_name (c : Code) (i : N) : res string :=
  b ← nth_N (bindings c) i; Ok (parameterName b).

(** [StaticSqlPolicy::pagination]. *)
Definition staticPagination (flavor : Flavor) (marker : string -> res string) (q : SqlQueryView) : res string :=
  let number parameter literal :=
    if boundPagination q then name ← binding_name (code q) parameter; marker name else Ok (to_string literal) in
  limit ←
    (if hasLimit q then n ← number (limitParameter q) (literalLimit q); Ok (" LIMIT " +:+ n)
     else Ok (match flavor with
              | SQLite => if hasOffset q then " LIMIT -1" else ""
              | MySQLFamily => if hasOffset q then " LIMIT 18446744073709551615" else ""
              | PostgreSQL => ""
              end));
  offset ←
    (if hasOffset q then n ← number (offsetParameter q) (literalOffset q); Ok (" OFFSET " +:+ n) else Ok "");
  Ok (limit +:+ offset).

Definition StaticSqlPolicy (flavor : Flavor) : SqlPolicy :=
  let marker := standardBindMarker "Invalid SQL bind parameter name" in {|
    p_quoteIdentifier name := quoteStandardIdentifier name flavor;
    p_bindMarker := marker;
    p_renderAggregateResult := castAggregate flavor;
    p_pagination := staticPagination flavor marker
  |}.

Definition RuntimeSqlPolicy (dialect : SqlDialect) : SqlPolicy := {|
  p_quoteIdentifier := quoteIdentifier dialect;
  p_bindMarker := bindMarker dialect;
  p_renderAggregateResult := renderAggregateResult dialect;
  p_pagination q :=
    throw_if (boundPagination q) (LogicError "A runtime dialect requires literal pagination") ;;
    renderPagination dialect
      (MkPagination (if hasLimit q then Some (literalLimit q) else None)
         (if hasOffset q then Some (literalOffset q) else None) (negb (bool_decide (length (orders q) = 0%nat))))
|}.

(** ** Columns *)

(** [model->]: undefined on a handle to no model. *)
Definition deref (m : ModelView) : res ModelDataView := or_throw (arrow m) Undefined.

Definition sqlPath (s : SqlSource) : string :=
  match pathParts s with
  | [] => ""
  | [part] => part
  | part :: part' :: _ => part +:+ "." +:+ part'
  end.

Definition requireSqlColumn (m : ModelDataView) (name : string) : res ColumnView :=
  or_throw (findColumn m name) (InvalidArgument ("Unknown column path segment: " +:+ name)).

(** The target's handle, with the model it leads to. *)
Definition requireSqlTarget (m : ModelView) (c : ColumnView) : res (ModelView * ModelDataView) :=
  throw_if (bool_decide (cv_kind c <> ToOne)) (InvalidArgument ("Column is not a related model: " +:+ cv_fieldName c)) ;;
  let target := resolveColumnTarget m c in
  d ← or_throw (arrow target) (LogicError "To-one relation target is not available in the schema");
  Ok (target, d).

Definition sqlPrimaryKey (m : ModelDataView) : res (list ColumnView) :=
  let keys := List.filter cv_isPrimaryKey (mv_columns m) in
  forM_ keys (fun c =>
    throw_if (bool_decide (cv_kind c = ToOne))
      (InvalidArgument "Relations with model-valued primary-key fields are not supported")) ;;
  throw_if (bool_decide (length keys = 0%nat))
    (InvalidArgument "Collection relation endpoint must define a primary key") ;;
  Ok keys.

Record SqlColumnInfo := MkInfo {
  info_column : ColumnView;
  info_relation : option ColumnView;
  info_logicalType : ColumnType;
  info_isNotNull : bool
}.

Definition resolveSqlColumn (source : SqlSource) (model : ModelView) (write : bool) : res SqlColumnInfo :=
  match pathParts source with
  | [name] =>
      m ← deref model;
      c ← requireSqlColumn m name;
      throw_if (bool_decide (cv_kind c = ToOne))
        (InvalidArgument ((if write then "Use a related primary-key field path in write queries: "
                           else "Use a related field path instead of the related model itself: ") +:+ sqlPath source)) ;;
      type ← or_throw (cv_type c) BadOptionalAccess;
      Ok (MkInfo c None type (cv_isNotNull c))
  | [relation; name] =>
      m ← deref model;
      r ← requireSqlColumn m relation;
      '(_, target) ← requireSqlTarget model r;
      c ← requireSqlColumn target name;
      throw_if (write && negb (cv_isPrimaryKey c))
        (InvalidArgument ("Only related primary-key fields can be used in write queries: " +:+ sqlPath source)) ;;
      type ← or_throw (cv_type c) BadOptionalAccess;
      Ok (MkInfo c (Some r) type (cv_isNotNull r))
  | _ => Err (InvalidArgument ("Only one level of related model paths is supported: " +:+ sqlPath source))
  end.

Record SqlRenderScope := MkScope {
  model : ModelView;
  scope_shouldJoin : bool;
  write : bool;
  allowCollections : bool;
  tableAlias : string;
  relationAliases : list (string * string)
}.

(** The names that columns are qualified with. *)
Definition root_name (scope : SqlRenderScope) (m : ModelDataView) : string :=
  if bool_decide (tableAlias scope = "") then mv_tableName m else tableAlias scope.
Definition alias_of (scope : SqlRenderScope) (name : string) : string :=
  match find_by fst name (relationAliases scope) with Some entry => entry.2 | None => name end.

Definition sqlComparison (operation : N) : res string :=
  match operation with
  | 0%N => Ok "=" | 1%N => Ok "!=" | 2%N => Ok ">" | 3%N => Ok ">=" | 4%N => Ok "<" | 5%N => Ok "<="
  | 6%N => Ok "LIKE" | 7%N => Ok "NOT LIKE"
  | _ => Err (InvalidArgument "Unsupported comparison operator")
  end.

Definition sqlAggregateName (f : AggregateFunction) : string :=
  match f with Count | CountAll => "COUNT" | Sum => "SUM" | Avg => "AVG" | Min => "MIN" | Max => "MAX" end.

(** ** Aliases *)
Definition hasSqlAlias (names : list string) (name : string) : bool := bool_decide (name ∈ names).

(** The loop of [uniqueSqlAlias]; [fuel] bounds its passes. *)
Fixpoint next_alias (fuel : nat) (base : string) (names : list string) (suffix : N) : string :=
  let candidate := base +:+ "_" +:+ to_string suffix in
  match fuel with
  | O => candidate
  | S fuel => if hasSqlAlias names candidate then next_alias fuel base names (suffix + 1) else candidate
  end.

Definition uniqueSqlAlias (base : string) (names : list string) : string :=
  if hasSqlAlias names base then next_alias (length names) base names 1 else base.

(** The aliases of a collection's subquery: of the target, of the junction and of the
    target's relations. *)
Record SubqueryAliases := MkAliases {
  targetAlias : string;
  junctionAlias : string;
  nested_relationAliases : list (string * string)
}.

Definition to_one_names (m : ModelDataView) : list string :=
  cv_name <$> List.filter (fun c => bool_decide (cv_kind c = ToOne)) (mv_columns m).

(** The loop over the target's relations, with the names [reserved] and [assigned]. *)
Fixpoint assign_aliases (names reserved assigned : list string) : list (string * string) :=
  match names with
  | [] => []
  | name :: names =>
      let alias := if hasSqlAlias assigned name then uniqueSqlAlias name reserved else name in
      (name, alias) :: assign_aliases names (reserved ++ [alias])%list (assigned ++ [alias])%list
  end.

Definition subquery_aliases (outer : string) (target : ModelDataView) : SubqueryAliases :=
  let reserved := outer :: to_one_names target in
  let targetAlias := uniqueSqlAlias "orm_relation_target" reserved in
  let reserved := (reserved ++ [targetAlias])%list in
  let junctionAlias := uniqueSqlAlias "orm_relation_junction" reserved in
  let reserved := (reserved ++ [junctionAlias])%list in
  MkAliases targetAlias junctionAlias
    (assign_aliases (to_one_names target) reserved [outer; targetAlias; junctionAlias]).

Section emitter.
Context `{SqlPolicy}.

Definition sqlQualified (qualifier name : string) : res string :=
  q ← p_quoteIdentifier qualifier; n ← p_quoteIdentifier name; Ok (q +:+ "." +:+ n).

Definition emitSqlColumn (source : SqlSource) (scope : SqlRenderScope) (qualify : bool) : res string :=
  info ← resolveSqlColumn source (model scope) (write scope);
  m ← deref (model scope);
  let root := root_name scope m in
  let column := cv_name (info_column info) in
  match info_relation info with
  | None => if qualify then sqlQualified root column else p_quoteIdentifier column
  | Some relation =>
      if write scope || negb (scope_shouldJoin scope) then
        throw_if (negb (cv_isPrimaryKey (info_column info)))
          (InvalidArgument ("Cannot filter by non-id related field when joining is disabled: " +:+ sqlPath source)) ;;
        let name := cv_name relation +:+ "_" +:+ column in
        if qualify then sqlQualified root name else p_quoteIdentifier name
      else sqlQualified (alias_of scope (cv_name relation)) column
  end.

Definition emitSqlSource (source : SqlSource) (scope : SqlRenderScope) (projection : bool) : res string :=
  if negb (isAggregate source) then emitSqlColumn source scope true
  else
    argument ← (if bool_decide (source_function source = CountAll) then Ok "*" else emitSqlColumn source scope true);
    let result := sqlAggregateName (source_function source) +:+ "(" +:+ argument +:+ ")" in
    Ok (if projection
        then p_renderAggregateResult result
               (bool_decide (source_function source = Sum) || bool_decide (source_function source = Avg))
        else result).

(** ** Joins *)

(** The conditions that a relation's columns equal the key of its target. *)
Definition emitJoinKeys (scope : SqlRenderScope) (m target : ModelDataView) (relation : ColumnView) (alias : string) : res string :=
  join " AND " <$> mapM (fun c =>
    l ← sqlQualified alias (cv_name c);
    r ← sqlQualified (root_name scope m) (cv_name relation +:+ "_" +:+ cv_name c);
    Ok (l +:+ " = " +:+ r)) (List.filter cv_isPrimaryKey (mv_columns target)).

Definition emitSqlJoin (scope : SqlRenderScope) (m : ModelDataView) (relation : ColumnView) : res string :=
  '(_, target) ← requireSqlTarget (model scope) relation;
  let alias := alias_of scope (cv_name relation) in
  table ← p_quoteIdentifier (mv_tableName target);
  quoted ← p_quoteIdentifier alias;
  keys ← emitJoinKeys scope m target relation alias;
  Ok (" LEFT JOIN " +:+ table +:+ " AS " +:+ quoted +:+ " ON " +:+ keys
      +:+ (if allowCollections scope then " " else "")).

Definition pop_back (s : string) : string := take_str (String.length s - 1) s.

Definition emitSqlJoins (scope : SqlRenderScope) : res string :=
  m ← deref (model scope);
  parts ← mapM (emitSqlJoin scope m) (List.filter (fun c => bool_decide (cv_kind c = ToOne)) (mv_columns m));
  let result := concat_str parts in
  Ok (if allowCollections scope && negb (bool_decide (result = "")) then pop_back result else result).

(** ** Collections *)

(** Equalities between the columns of two qualified lists, joined by [AND]. *)
Definition emitEqualities (l : string) (ls : list string) (r : string) (rs : list string) : res string :=
  join " AND " <$> mapM (fun '(a, b) =>
    x ← sqlQualified l a; y ← sqlQualified r b; Ok (x +:+ " = " +:+ y)) (zip ls rs).

(** The [FROM] clause of the subquery and the predicate that ties it to the outer row. *)
Definition emitOneToMany (a : SubqueryAliases) (nested : SqlRenderScope) (outer : string)
    (relation : RelationView) (target : ModelDataView) (ownerKeys : list ColumnView) : res (string * string) :=
  mapped ← or_throw (match findRelation target (rv_mappedBy relation) with
                     | Some mapped => if bool_decide (rv_kind mapped = RelToOne) then Some mapped else None
                     | None => None
                     end)
             (InvalidArgument ("Invalid OneToMany mappedBy relation: " +:+ rv_fieldName relation));
  predicate ← emitEqualities (targetAlias a) (map (fun k => rv_columnName mapped +:+ "_" +:+ cv_name k) ownerKeys)
                outer (map cv_name ownerKeys);
  table ← p_quoteIdentifier (mv_tableName target);
  alias ← p_quoteIdentifier (targetAlias a);
  joins ← emitSqlJoins nested;
  Ok (table +:+ " AS " +:+ alias +:+ joins, predicate).

Definition emitManyToMany (a : SubqueryAliases) (nested : SqlRenderScope) (outer : string)
    (owner : ModelView) (relation : RelationView) (target : ModelDataView)
    (ownerKeys targetKeys : list ColumnView) : res (string * string) :=
  let junction := resolveJunction owner relation in
  throw_if (negb (isConfigured junction))
    (InvalidArgument ("ManyToMany relation has no junction mapping: " +:+ rv_fieldName relation)) ;;
  throw_if (negb (length (jv_ownerColumns junction) =? length ownerKeys)%nat
            || negb (length (jv_targetColumns junction) =? length targetKeys)%nat)
    (InvalidArgument ("Junction columns do not match relation endpoint keys: " +:+ jv_tableName junction)) ;;
  predicate ← emitEqualities (junctionAlias a) (jv_ownerColumns junction) outer (map cv_name ownerKeys);
  targetJoin ← emitEqualities (targetAlias a) (map cv_name targetKeys) (junctionAlias a) (jv_targetColumns junction);
  junctionTable ← p_quoteIdentifier (jv_tableName junction);
  quotedJunction ← p_quoteIdentifier (junctionAlias a);
  table ← p_quoteIdentifier (mv_tableName target);
  alias ← p_quoteIdentifier (targetAlias a);
  joins ← emitSqlJoins nested;
  Ok (junctionTable +:+ " AS " +:+ quotedJunction +:+ " JOIN " +:+ table +:+ " AS " +:+ alias
      +:+ " ON " +:+ targetJoin +:+ joins, predicate).

(** [element] renders the element predicate in the scope of the subquery, if there is one. *)
Definition emitSqlCollection (relationName : string) (operation : N) (element : option (SqlRenderScope -> res string))
    (scope : SqlRenderScope) : res string :=
  throw_if (negb (allowCollections scope)) (InvalidArgument "Nested collection predicates are not supported") ;;
  m ← deref (model scope);
  relation ← or_throw (match findRelation m relationName with
                       | Some r => if bool_decide (rv_kind r = RelToOne) then None else Some r
                       | None => None
                       end)
               (InvalidArgument ("Unknown collection relation: " +:+ relationName));
  throw_if (negb (operation =? collection_number Exists)%N && negb (bool_decide (is_Some element)))
    (InvalidArgument "Collection any/none requires an element predicate") ;;
  ownerKeys ← sqlPrimaryKey m;
  let targetView := resolveRelationTarget (model scope) relation in
  target ← or_throw (arrow targetView) (LogicError "Collection relation target is not available in the schema");
  targetKeys ← sqlPrimaryKey target;
  let outer := root_name scope m in
  let a := subquery_aliases outer target in
  let nested := MkScope targetView true false false (targetAlias a) (nested_relationAliases a) in
  '(from, tie) ←
    (if bool_decide (rv_kind relation = RelOneToMany)
     then emitOneToMany a nested outer relation target ownerKeys
     else emitManyToMany a nested outer (model scope) relation target ownerKeys targetKeys);
  extra ← match element with
          | Some emit => p ← emit nested; Ok (" AND " +:+ p)
          | None => Ok ""
          end;
  let exists_ := "EXISTS (SELECT 1 FROM " +:+ from +:+ " WHERE " +:+ tie +:+ extra +:+ ")" in
  Ok (if (operation =? collection_number NoneOf)%N then "NOT (" +:+ exists_ +:+ ")" else exists_).

(** ** Predicates *)
Definition markers (c : Code) (first : N) (count : nat) : res (list string) :=
  mapM (fun i => name ← binding_name c (first + N.of_nat i)%N; p_bindMarker name) (seq 0 count).

Definition marker_at (c : Code) (i : N) : res string := name ← binding_name c i; p_bindMarker name.

Definition emitSqlList (c : Code) (node : SqlNode) (scope : SqlRenderScope) : res string :=
  let in_ := (operation node =? list_number In)%N in
  if (parameterCount node =? 0)%N then Ok (if in_ then "(1 = 0)" else "(1 = 1)")
  else
    column ← emitSqlColumn (node_source node) scope true;
    ms ← markers c (firstParameter node) (N.to_nat (parameterCount node));
    Ok (column +:+ (if in_ then " IN (" else " NOT IN (") +:+ join ", " ms +:+ ")").

(** [fuel] bounds the depth: a node refers to nodes before it. *)
Fixpoint emitSqlPredicate (fuel : nat) (c : Code) (i : N) (scope : SqlRenderScope) : res string :=
  match fuel with
  | O => Err Undefined
  | S fuel =>
      node ← nth_N (nodes c) i;
      match kind node with
      | KComparison =>
          throw_if (isAggregate (node_source node) && (comparison_number Like <=? operation node)%N)
            (InvalidArgument "Unsupported aggregate comparison operator") ;;
          column ← emitSqlSource (node_source node) scope false;
          o ← sqlComparison (operation node);
          marker ← marker_at c (firstParameter node);
          Ok (column +:+ " " +:+ o +:+ " " +:+ marker)
      | KNull =>
          column ← emitSqlColumn (node_source node) scope true;
          Ok (column +:+ (if (operation node =? null_number IsNull)%N then " IS NULL" else " IS NOT NULL"))
      | KList => emitSqlList c node scope
      | KBetween =>
          column ← emitSqlColumn (node_source node) scope true;
          low ← marker_at c (firstParameter node);
          high ← marker_at c (firstParameter node + 1)%N;
          Ok (column +:+ (if (operation node =? between_number Between)%N then " BETWEEN " else " NOT BETWEEN ")
              +:+ low +:+ " AND " +:+ high)
      | KAnd =>
          l ← emitSqlPredicate fuel c (left_ node) scope;
          r ← emitSqlPredicate fuel c (right_ node) scope;
          Ok ("(" +:+ l +:+ " AND " +:+ r +:+ ")")
      | KOr =>
          l ← emitSqlPredicate fuel c (left_ node) scope;
          r ← emitSqlPredicate fuel c (right_ node) scope;
          Ok ("(" +:+ l +:+ " OR " +:+ r +:+ ")")
      | KNot =>
          p ← emitSqlPredicate fuel c (left_ node) scope;
          Ok ("(NOT (" +:+ p +:+ "))")
      | KRaw => Ok (rawSql node)
      | KCollection =>
          emitSqlCollection (relation node) (operation node)
            (if (left_ node =? noSqlNode)%N then None else Some (emitSqlPredicate fuel c (left_ node))) scope
      | KInvalid => Err (LogicError "Unknown SQL predicate node")
      end
  end.

(** A predicate of a query: the depth is at most the number of nodes. *)
Definition emitPredicate (c : Code) (i : N) (scope : SqlRenderScope) : res string :=
  emitSqlPredicate (length (nodes c)) c i scope.

(** ** Statements *)

(** The columns of a full model, each with its alias. *)
Definition full_fields (scope : SqlRenderScope) (m : ModelDataView) (column : ColumnView)
    : res (list (string * string * string)) :=
  if bool_decide (cv_kind column = Scalar)
  then Ok [(mv_tableName m, cv_name column, mv_tableName m +:+ "_" +:+ cv_name column)]
  else
    '(_, target) ← requireSqlTarget (model scope) column;
    Ok (if scope_shouldJoin scope
        then map (fun child => (cv_name column, cv_name child, cv_name column +:+ "_" +:+ cv_name child)) (mv_columns target)
        else map (fun child => (mv_tableName m, cv_name column +:+ "_" +:+ cv_name child,
                                mv_tableName m +:+ "_" +:+ cv_name column +:+ "_" +:+ cv_name child))
               (List.filter cv_isPrimaryKey (mv_columns target))).

Definition emitSqlFullFields (scope : SqlRenderScope) : res string :=
  m ← deref (model scope);
  foldM (fun result column =>
    fields ← full_fields scope m column;
    foldM (fun result '(qualifier, name, alias) =>
      expression ← sqlQualified qualifier name;
      quoted ← p_quoteIdentifier alias;
      Ok ((if bool_decide (result = "") then result else result +:+ ", ") +:+ expression +:+ " AS " +:+ quoted))
      result fields) "" (mv_columns m).

Definition emitProjection (scope : SqlRenderScope) (p : SqlProjection) : res string :=
  expression ← emitSqlSource (proj_source p) scope true;
  quoted ← p_quoteIdentifier (alias p);
  Ok (expression +:+ " AS " +:+ quoted).

Definition emitAssignment (c : Code) (scope : SqlRenderScope) (a : SqlAssignment) : res string :=
  column ← emitSqlColumn (assign_source a) scope false;
  marker ← marker_at c (parameter a);
  Ok (column +:+ " = " +:+ marker).

Definition emitOrder (scope : SqlRenderScope) (o : SqlOrder) : res string :=
  if isRaw o then Ok (ord_rawSql o)
  else
    column ← emitSqlColumn (ord_source o) scope true;
    Ok (column +:+ match direction o with Asc => " ASC" | Desc => " DESC" end).

(** A clause that is left out when it has no items. *)
Definition emitClause {A} (keyword : string) (emit : A -> res string) (items : list A) : res string :=
  if bool_decide (length items = 0%nat) then Ok ""
  else texts ← mapM emit items; Ok (keyword +:+ join ", " texts).

Definition emitHead (q : SqlQueryView) (scope : SqlRenderScope) (m : ModelDataView) : res string :=
  match query_operation q with
  | Select =>
      fields ← (if bool_decide (length (query_projections q) = 0%nat) then emitSqlFullFields scope
                else texts ← mapM (emitProjection scope) (query_projections q); Ok (join ", " texts));
      table ← p_quoteIdentifier (mv_tableName m);
      joins ← (if query_shouldJoin q then emitSqlJoins scope else Ok "");
      Ok ((if query_isDistinct q then "SELECT DISTINCT " else "SELECT ") +:+ fields +:+ " FROM " +:+ table +:+ joins)
  | Update =>
      throw_if (bool_decide (length (query_assignments q) = 0%nat))
        (InvalidArgument "UPDATE requires at least one assignment") ;;
      throw_if (query_predicate q =? noSqlNode)%N (InvalidArgument "UPDATE requires a WHERE predicate") ;;
      table ← p_quoteIdentifier (mv_tableName m);
      texts ← mapM (emitAssignment (code q) scope) (query_assignments q);
      Ok ("UPDATE " +:+ table +:+ " SET " +:+ join ", " texts)
  | Remove => table ← p_quoteIdentifier (mv_tableName m); Ok ("DELETE FROM " +:+ table)
  end.

(** A predicate after its keyword, if there is one. *)
Definition emitCondition (keyword : string) (c : Code) (i : N) (scope : SqlRenderScope) : res string :=
  if (i =? noSqlNode)%N then Ok "" else text ← emitPredicate c i scope; Ok (keyword +:+ text).

Definition query_scope (q : SqlQueryView) (m : ModelView) : SqlRenderScope :=
  MkScope m (query_shouldJoin q) (match query_operation q with Select => false | _ => true end) true "" [].

(** The clauses in their order; the conditions are given with their keywords. *)
Definition emitStatement (q : SqlQueryView) (m : ModelView) (where_ having_ : SqlRenderScope -> res string) : res string :=
  let scope := query_scope q m in
  d ← deref m;
  head ← emitHead q scope d;
  where_ ← where_ scope;
  group ← emitClause " GROUP BY " (fun s => emitSqlColumn s scope true) (groups q);
  having_ ← having_ scope;
  order ← emitClause " ORDER BY " (emitOrder scope) (orders q);
  page ← p_pagination q;
  Ok (head +:+ where_ +:+ group +:+ having_ +:+ order +:+ page +:+ ";").

Definition emitSql (q : SqlQueryView) (m : ModelView) : res string :=
  emitStatement q m (emitCondition " WHERE " (code q) (query_predicate q))
    (emitCondition " HAVING " (code q) (query_having q)).
End emitter.
