(* ===== verification/Render.v ===== *)
(** Render: the SELECT, UPDATE and DELETE statements of a dialect,
    [renderSelectStatement], [renderUpdateStatement] and [renderRemoveStatement] of
    src/database/defaults/SqlRenderer.cpp: a specification is compiled to a program
    with its parameters and the program to text. *)
From S2P Require Import Prelude Foundation Models Dialect QueryValue Query Emitter.
Local Open Scope string_scope.

Section render.
Variable dialect : SqlDialect.

(** A predicate of a specification; without one the index is [noSqlNode]. *)
Definition append_optional {P} (append : Build -> P -> res (N * Build)) (s : Build) (p : option P) : res (N * Build) :=
  match p with Some p => append s p | None => Ok (noSqlNode, s) end.

Definition appendSelectPredicates (s : Build) (spec : SelectSpec) : res (N * N * Build) :=
  '(p, s) ← append_optional (appendPredicate dialect) s (predicate spec);
  '(h, s) ← append_optional (appendHaving dialect) s (having spec);
  Ok (p, h, s).

Definition sql_projection (p : Projection) : res SqlProjection :=
  source ← projection_source (projected p); Ok (MkSqlProjection source (resultField p)).

Definition sql_order (o : OrderBy) : res SqlOrder :=
  source ← (if order_isRaw o then Ok no_source else parseSqlSource (order_column o));
  Ok (MkOrder source (order_direction o) (order_isRaw o) (order_rawSql o)).

Definition select_query (spec : SelectSpec) : res (SqlQueryView * Build) :=
  projections ← mapM sql_projection (projections spec);
  '(p, h, s) ← appendSelectPredicates start spec;
  groups ← mapM parseSqlSource (groupBy spec);
  orders ← mapM sql_order (orderBy spec);
  Ok (MkQuery Select (program s) p h orders groups projections [] (isDistinct spec) (shouldJoin spec)
        (bool_decide (is_Some (limit spec))) (bool_decide (is_Some (offset spec))) false 0 0
        (default 0%N (limit spec)) (default 0%N (offset spec)), s).

Definition renderSelectStatement (model : ModelView) (spec : SelectSpec) : res Statement :=
  '(q, s) ← select_query spec;
  text ← @emitSql (RuntimeSqlPolicy dialect) q model;
  Ok (MkStatement text (context_parameters s)).

(** The program of a statement that writes. *)
Definition write_query (operation : SqlOperation) (s : Build) (p : N) (assignments : list SqlAssignment) : SqlQueryView :=
  MkQuery operation (program s) p noSqlNode [] [] [] assignments false false false false false 0 0 0 0.

Definition append_assignment (model : ModelView) (state : list SqlAssignment * Build) (a : UpdateAssignment)
    : res (list SqlAssignment * Build) :=
  let '(done, s) := state in
  source ← parseSqlSource (assigned_column a);
  info ← resolveSqlColumn source model true;
  throw_if (bool_decide (assigned_value a = None) && info_isNotNull info)
    (InvalidArgument ("Cannot assign NULL to NOT NULL column: " +:+ assigned_column a)) ;;
  '(parameter, s) ← match assigned_value a with
                    | Some value => addValue dialect s value
                    | None => addNull dialect s (info_logicalType info)
                    end;
  Ok ((done ++ [MkSqlAssignment source parameter])%list, s).

Definition update_query (model : ModelView) (spec : UpdateSpec) : res (SqlQueryView * Build) :=
  throw_if (bool_decide (length (assignments spec) = 0%nat))
    (InvalidArgument "UPDATE requires at least one assignment") ;;
  p ← or_throw (update_predicate spec) (InvalidArgument "UPDATE requires a WHERE predicate");
  '(done, s) ← foldM (append_assignment model) ([], start) (assignments spec);
  '(index, s) ← appendPredicate dialect s p;
  Ok (write_query Update s index done, s).

Definition renderUpdateStatement (model : ModelView) (spec : UpdateSpec) : res Statement :=
  '(q, s) ← update_query model spec;
  text ← @emitSql (RuntimeSqlPolicy dialect) q model;
  Ok (MkStatement text (context_parameters s)).

Definition remove_query (p : PredicateNode) : res (SqlQueryView * Build) :=
  '(index, s) ← appendPredicate dialect start p; Ok (write_query Remove s index [], s).

Definition renderRemoveStatement (model : ModelView) (p : PredicateNode) : res Statement :=
  '(q, s) ← remove_query p;
  text ← @emitSql (RuntimeSqlPolicy dialect) q model;
  Ok (MkStatement text (context_parameters s)).

(** [renderWhere] of a [RenderContext], whose parts that the emitter reads are a
    scope; the program is a new one, the parameters are added to the context's. *)
Definition renderWhere (scope : SqlRenderScope) (s : Build) (p : option PredicateNode) : res (string * Build) :=
  match p with
  | None => Ok ("", s)
  | Some p =>
      let fresh := MkBuild (MkCode [] []) (context_parameters s) (parameterNames s) (nextParameterIndex s) in
      '(index, s') ← appendPredicate dialect fresh p;
      text ← @emitPredicate (RuntimeSqlPolicy dialect) (program s') index scope;
      Ok (" WHERE " +:+ text, s')
  end.

Definition renderColumn (scope : SqlRenderScope) (column : string) : res string :=
  source ← parseSqlSource column; @emitSqlColumn (RuntimeSqlPolicy dialect) source scope true.

Record WriteColumn := MkWriteColumn { write_sql : string; write_type : ColumnType; write_isNotNull : bool }.

Definition renderWriteColumn (model : ModelView) (column : string) (qualifyWithTable : bool) : res WriteColumn :=
  source ← parseSqlSource column;
  info ← resolveSqlColumn source model true;
  text ← @emitSqlColumn (RuntimeSqlPolicy dialect) source (MkScope model false true true "" []) qualifyWithTable;
  Ok (MkWriteColumn text (info_logicalType info) (info_isNotNull info)).
End render.
