(* ===== verification/Direct.v ===== *)
(** Direct: the reference rendering of a predicate, by recursion on its tree, and the
    proof that compiling the tree to a program and emitting the program gives that
    text and binds those parameters. *)
From S2P Require Import Prelude Foundation Models Dialect QueryValue Query Emitter.
Local Open Scope string_scope.

(** ** The reference rendering

    Automatic parameters are numbered from [n], from left to right. *)
Fixpoint automatic_count (p : PredicateNode) : N :=
  match p with
  | ComparisonExpression _ _ _ => 1
  | NullExpression _ _ | RawExpression _ _ => 0
  | ListExpression _ _ values => size_of values
  | BetweenExpression _ _ _ _ => 2
  | LogicalExpression l _ r => automatic_count l + automatic_count r
  | NotExpression p => automatic_count p
  | CollectionExpression _ _ p => match p with Some p => automatic_count p | None => 0 end
  end%N.

Definition automatic_parameter (n : N) (value : QueryValue) : StatementParameter :=
  MkParameter (automatic_name n) (Some value) None.

Fixpoint predicate_parameters (n : N) (p : PredicateNode) : list StatementParameter :=
  match p with
  | ComparisonExpression _ _ value => [automatic_parameter n value]
  | NullExpression _ _ => []
  | ListExpression _ _ values => imap (fun i => automatic_parameter (n + N.of_nat i)%N) values
  | BetweenExpression _ _ lower upper => [automatic_parameter n lower; automatic_parameter (n + 1)%N upper]
  | LogicalExpression l _ r => predicate_parameters n l ++ predicate_parameters (n + automatic_count l)%N r
  | NotExpression p => predicate_parameters n p
  | RawExpression _ parameters => map (fun p => MkParameter (param_name p) (Some (param_value p)) None) parameters
  | CollectionExpression _ _ p => match p with Some p => predicate_parameters n p | None => [] end
  end%list.

(** The same for a predicate on aggregates. *)
Fixpoint having_count (p : AggregatePredicateNode) : N :=
  match p with
  | AggregateComparison _ _ _ => 1
  | AggregateLogical l _ r => having_count l + having_count r
  | AggregateNot p => having_count p
  end%N.

Fixpoint having_parameters (n : N) (p : AggregatePredicateNode) : list StatementParameter :=
  match p with
  | AggregateComparison _ _ value => [automatic_parameter n value]
  | AggregateLogical l _ r => having_parameters n l ++ having_parameters (n + having_count l)%N r
  | AggregateNot p => having_parameters n p
  end%list.

Section direct.
Context `{SqlPolicy}.

Definition automatic_marker (n : N) : res string := p_bindMarker (automatic_name n).

Fixpoint render_predicate (n : N) (p : PredicateNode) (scope : SqlRenderScope) : res string :=
  match p with
  | ComparisonExpression column o _ =>
      source ← parseSqlSource column;
      text ← emitSqlColumn source scope true;
      o ← sqlComparison (comparison_number o);
      marker ← automatic_marker n;
      Ok (text +:+ " " +:+ o +:+ " " +:+ marker)
  | NullExpression column o =>
      source ← parseSqlSource column;
      text ← emitSqlColumn source scope true;
      Ok (text +:+ match o with IsNull => " IS NULL" | IsNotNull => " IS NOT NULL" end)
  | ListExpression column o values =>
      source ← parseSqlSource column;
      if bool_decide (length values = 0%nat) then Ok (match o with In => "(1 = 0)" | NotIn => "(1 = 1)" end)
      else
        text ← emitSqlColumn source scope true;
        markers ← mapM (fun i => automatic_marker (n + N.of_nat i)%N) (seq 0 (length values));
        Ok (text +:+ match o with In => " IN (" | NotIn => " NOT IN (" end +:+ join ", " markers +:+ ")")
  | BetweenExpression column o _ _ =>
      source ← parseSqlSource column;
      text ← emitSqlColumn source scope true;
      low ← automatic_marker n;
      high ← automatic_marker (n + 1)%N;
      Ok (text +:+ match o with Between => " BETWEEN " | NotBetween => " NOT BETWEEN " end +:+ low +:+ " AND " +:+ high)
  | LogicalExpression l o r =>
      l' ← render_predicate n l scope;
      r' ← render_predicate (n + automatic_count l)%N r scope;
      Ok ("(" +:+ l' +:+ match o with And => " AND " | Or => " OR " end +:+ r' +:+ ")")
  | NotExpression p => p' ← render_predicate n p scope; Ok ("(NOT (" +:+ p' +:+ "))")
  | RawExpression sql _ => Ok sql
  | CollectionExpression relation o p =>
      emitSqlCollection relation (collection_number o)
        (match p with Some p => Some (render_predicate n p) | None => None end) scope
  end.

Fixpoint render_having (n : N) (p : AggregatePredicateNode) (scope : SqlRenderScope) : res string :=
  match p with
  | AggregateComparison e o _ =>
      source ← aggregate_source e;
      throw_if (isAggregate source && (comparison_number Like <=? comparison_number o)%N)
        (InvalidArgument "Unsupported aggregate comparison operator") ;;
      text ← emitSqlSource source scope false;
      o ← sqlComparison (comparison_number o);
      marker ← automatic_marker n;
      Ok (text +:+ " " +:+ o +:+ " " +:+ marker)
  | AggregateLogical l o r =>
      l' ← render_having n l scope;
      r' ← render_having (n + having_count l)%N r scope;
      Ok ("(" +:+ l' +:+ match o with And => " AND " | Or => " OR " end +:+ r' +:+ ")")
  | AggregateNot p => p' ← render_having n p scope; Ok ("(NOT (" +:+ p' +:+ "))")
  end.
End direct.

(** ** Equal computations *)
Lemma bind_ext {E A B} (m : result E A) (f g : A -> result E B) :
  (forall a, m = Ok a -> f a = g a) -> (m ≫= f) = (m ≫= g).
Proof. destruct m; simpl; auto. Qed.

Lemma mapM_ext {E A B} (f g : A -> result E B) l :
  (forall x, x ∈ l -> f x = g x) -> mapM f l = mapM g l.
Proof.
  induction l as [|x l IH]; intros Hfg; simpl; [done|]. rewrite Hfg by apply list_elem_of_here.
  apply bind_ext. intros y _. by rewrite IH by (intros z Hz; apply Hfg; by apply list_elem_of_further).
Qed.

(** ** Names *)
Lemma automatic_name_inj i j : automatic_name i = automatic_name j -> i = j.
Proof. unfold automatic_name. simpl. intros Heq. injection Heq. apply to_string_inj. Qed.

#[export] Instance automatic_name_Inj : Inj (=) (=) automatic_name.
Proof. intros i j. apply automatic_name_inj. Qed.

Lemma automatic_name_reserved i : starts_with "orm_p" (automatic_name i) = true.
Proof. apply starts_with_app. Qed.

Lemma parameterName_automatic type i : parameterName (MkBinding type i "") = automatic_name i.
Proof. done. Qed.

Lemma parameterName_raw type name : name <> "" -> parameterName (MkBinding type 0 name) = name.
Proof. intros Hn. unfold parameterName. simpl. by rewrite bool_decide_false. Qed.

(** ** The state of a compilation *)
Record build_ok (s : Build) : Prop := {
  ok_names : parameterNames s = list_to_set (parameter_name <$> context_parameters s);
  ok_distinct : NoDup (parameter_name <$> context_parameters s);
  ok_bindings : parameterName <$> bindings (program s) = parameter_name <$> context_parameters s;
  ok_next : forall i, automatic_name i ∈ parameterNames s -> (i < nextParameterIndex s)%N
}.

Lemma start_ok : build_ok start.
Proof. split; [done|constructor|done|]. intros i Hi. simpl in Hi. set_solver. Qed.

(** A later program keeps the nodes and bindings of an earlier one. *)
Definition extends (c c' : Code) : Prop := nodes c `prefix_of` nodes c' /\ bindings c `prefix_of` bindings c'.

#[export] Instance extends_preorder : PreOrder extends.
Proof.
  split; [by intros c; split|].
  intros a b c [H1 H2] [H3 H4]. split; by etrans.
Qed.

Lemma extends_binding c c' i b : extends c c' -> bindings c !! i = Some b -> bindings c' !! i = Some b.
Proof. intros [_ Hp] Hi. by eapply prefix_lookup_Some. Qed.

Lemma extends_node c c' i n : extends c c' -> nodes c !! i = Some n -> nodes c' !! i = Some n.
Proof. intros [Hp _] Hi. by eapply prefix_lookup_Some. Qed.

Lemma nth_N_lookup {A} (l : list A) i x : l !! N.to_nat i = Some x -> nth_N l i = Ok x.
Proof.
  intros Hi. unfold nth_N, size_of. pose proof (lookup_lt_Some _ _ _ Hi).
  rewrite (proj2 (N.ltb_lt _ _)) by lia. by rewrite Hi.
Qed.

Lemma lookup_size_of {A} (l : list A) x k : (l ++ x :: k)%list !! N.to_nat (size_of l) = Some x.
Proof. unfold size_of. rewrite Nat2N.id. by apply list_lookup_middle. Qed.

(** The first name that is tried is unused. *)
Lemma unused_name_first fuel names next :
  automatic_name next ∉ names -> unused_name fuel names next = (automatic_name next, next + 1)%N.
Proof. intros Hn. destruct fuel; simpl; [done|]. by rewrite bool_decide_false. Qed.

Section compilation.
Variable dialect : SqlDialect.

(** Adding a parameter gives it the next name and leaves the invariant but for the
    binding, which the caller pushes. *)
Definition added (s : Build) (p : StatementParameter) (b : SqlBindingDescriptor) (next : N) : Build :=
  MkBuild (MkCode (nodes (program s)) (bindings (program s) ++ [b])%list)
    (context_parameters s ++ [p])%list ({[parameter_name p]} ∪ parameterNames s) next.

Lemma added_ok s p b next :
  build_ok s -> parameter_name p ∉ parameterNames s -> parameterName b = parameter_name p ->
  (forall i, automatic_name i ∈ ({[parameter_name p]} ∪ parameterNames s : gset string) -> (i < next)%N) ->
  build_ok (added s p b next).
Proof.
  intros [Hn Hd Hb Hx] Hp He Hnext. split; simpl.
  - rewrite fmap_app, list_to_set_app_L, Hn. simpl. set_solver.
  - rewrite fmap_app. apply NoDup_app. split; [done|]. split; [|apply NoDup_singleton].
    intros x Hx1 ->%list_elem_of_singleton. apply Hp. rewrite Hn. by apply elem_of_list_to_set.
  - rewrite !fmap_app, Hb. simpl. by rewrite He.
  - done.
Qed.

Lemma next_unused s : build_ok s -> automatic_name (nextParameterIndex s) ∉ parameterNames s.
Proof. intros Hok Hin. apply (ok_next _ Hok) in Hin. lia. Qed.

(** A value and a null are bound in the same way. *)
Definition added_automatic (s : Build) (value : option QueryValue) (nullType : option ColumnType) (type : ColumnType) : Build :=
  let next := nextParameterIndex s in
  added s (MkParameter (automatic_name next) value nullType) (MkBinding type next "") (next + 1).

Lemma bind_parameter s value nullType type i s' :
  build_ok s -> bind_last type <$> add_parameter dialect s value nullType = Ok (i, s') ->
  i = size_of (bindings (program s)) /\ s' = added_automatic s value nullType type /\ build_ok s' /\ exists m, bindMarker dialect (automatic_name (nextParameterIndex s)) = Ok m.
Proof.
  intros Hok Hadd. unfold add_parameter in Hadd. rewrite unused_name_first in Hadd by by apply next_unused.
  apply fmap_Ok_iff in Hadd as ([m t] & Hadd & Heq). result_inv. subst.
  unfold bind_last, push_binding in Heq. simpl in Heq. rewrite N.add_sub in Heq. injection Heq as -> ->.
  split; [done|]. split; [done|]. split; [|by eexists].
  apply (added_ok s (MkParameter _ _ _) (MkBinding _ _ "")); simpl; [done|by apply next_unused|done|].
  intros j [Hj%elem_of_singleton|Hj]%elem_of_union; [apply automatic_name_inj in Hj; lia|].
  apply (ok_next _ Hok) in Hj. lia.
Qed.

(** The parameters of a list and of a raw expression. *)
Lemma bind_values values s s' :
  build_ok s -> foldM (fun s value => snd <$> addValue dialect s value) s values = Ok s' ->
  build_ok s' /\ nodes (program s') = nodes (program s) /\
  nextParameterIndex s' = (nextParameterIndex s + size_of values)%N /\
  context_parameters s' =
    (context_parameters s ++ imap (fun i => automatic_parameter (nextParameterIndex s + N.of_nat i)%N) values)%list /\
  bindings (program s') =
    (bindings (program s)
     ++ imap (fun i v => MkBinding (getLogicalType v) (nextParameterIndex s + N.of_nat i)%N "") values)%list.
Proof.
  revert s. induction values as [|v values IH]; intros s Hok Hfold; simpl in Hfold.
  - injection Hfold as <-. simpl. rewrite !app_nil_r. unfold size_of. simpl. repeat split; try done; try apply Hok. lia.
  - apply bind_Ok_iff in Hfold as (t & Hadd & Hfold). apply fmap_Ok_iff in Hadd as ([i t'] & Hadd & ->).
    simpl in Hfold. apply bind_parameter in Hadd as (_ & -> & Hok' & _); [|done].
    destruct (IH _ Hok' Hfold) as (Hok'' & Hn & Hx & Hp & Hb). split; [done|]. split; [done|].
    unfold added_automatic, added in Hx, Hp, Hb. cbn [nextParameterIndex context_parameters program bindings] in Hx, Hp, Hb.
    split; [rewrite Hx; unfold size_of; rewrite length_cons; lia|].
    rewrite <- app_assoc in Hp, Hb. rewrite Hp, Hb. cbn [imap app]. rewrite N.add_0_r.
    split; do 2 f_equal; apply imap_ext; intros j w _; unfold compose; f_equal; lia.
Qed.

Lemma bind_raw parameters s s' :
  build_ok s -> foldM (addRaw dialect) s parameters = Ok s' ->
  build_ok s' /\ nodes (program s') = nodes (program s) /\ nextParameterIndex s' = nextParameterIndex s /\
  context_parameters s' =
    (context_parameters s ++ map (fun p => MkParameter (param_name p) (Some (param_value p)) None) parameters)%list /\
  bindings (program s) `prefix_of` bindings (program s').
Proof.
  revert s. induction parameters as [|p parameters IH]; intros s Hok Hfold; simpl in Hfold.
  - injection Hfold as <-. simpl. by rewrite app_nil_r.
  - apply bind_Ok_iff in Hfold as (t & Hadd & Hfold). unfold addRaw in Hadd. result_inv. bool_to_prop.
    assert (Hok' : build_ok t).
    { subst t. apply (added_ok s (MkParameter (param_name p) (Some (param_value p)) None)
                        (MkBinding (getLogicalType (param_value p)) 0 (param_name p))); simpl; [done|done|by apply parameterName_raw|].
      intros j [Hj%elem_of_singleton|Hj]%elem_of_union; [|by apply (ok_next _ Hok)].
      pose proof (automatic_name_reserved j). congruence. }
    destruct (IH _ Hok' Hfold) as (Hok'' & Hn & Hx & Hp & Hb). subst t. simpl in *.
    rewrite <- app_assoc in Hp. repeat split; try done; try apply Hok''.
    etrans; [by eexists|exact Hb].
Qed.
End compilation.

(** The induction on a predicate reaches a collection's element predicate. *)
Lemma PredicateNode_nested_ind (P : PredicateNode -> Prop) :
  (forall column o v, P (ComparisonExpression column o v)) ->
  (forall column o, P (NullExpression column o)) ->
  (forall column o vs, P (ListExpression column o vs)) ->
  (forall column o v w, P (BetweenExpression column o v w)) ->
  (forall l o r, P l -> P r -> P (LogicalExpression l o r)) ->
  (forall p, P p -> P (NotExpression p)) ->
  (forall sql ps, P (RawExpression sql ps)) ->
  (forall relation o p, (forall q, p = Some q -> P q) -> P (CollectionExpression relation o p)) ->
  forall p, P p.
Proof.
  intros H1 H2 H3 H4 H5 H6 H7 H8. fix IH 1.
  intros [ | | | | | | |relation o [q|]]; [apply H1|apply H2|apply H3|apply H4|by apply H5|by apply H6|apply H7| |].
  - apply H8. intros ? [= <-]. apply IH.
  - apply H8. intros ? [=].
Qed.

(** ** Compilation refines the reference rendering *)
Section refinement.
Context `{SqlPolicy} (dialect : SqlDialect).

(** The result of compiling something that renders as [render], has [count] automatic
    parameters and binds [params]. *)
Record compiled (render : SqlRenderScope -> res string) (count : N) (params : list StatementParameter)
    (s : Build) (i : N) (s' : Build) : Prop := {
  compiled_ok : build_ok s';
  compiled_extends : extends (program s) (program s');
  compiled_index : length (nodes (program s')) = S (N.to_nat i);
  compiled_next : nextParameterIndex s' = (nextParameterIndex s + count)%N;
  compiled_parameters : context_parameters s' = (context_parameters s ++ params)%list;
  compiled_emit c fuel scope :
    extends (program s') c -> (size_of (nodes c) <= noSqlNode)%N -> (N.to_nat i < fuel)%nat ->
    emitSqlPredicate fuel c i scope = render scope
}.

Lemma compiled_ext render render' count params s i s' :
  compiled render count params s i s' -> (forall scope, render' scope = render scope) ->
  compiled render' count params s i s'.
Proof. intros [] Heq. split; try done. intros. rewrite Heq. auto. Qed.

(** The state just before the last node is pushed. *)
Record prepared (count : N) (params : list StatementParameter) (s s' : Build) : Prop := {
  prepared_ok : build_ok s';
  prepared_extends : extends (program s) (program s');
  prepared_next : nextParameterIndex s' = (nextParameterIndex s + count)%N;
  prepared_parameters : context_parameters s' = (context_parameters s ++ params)%list
}.

Lemma compiled_prepared render count params s i s' :
  compiled render count params s i s' -> prepared count params s s'.
Proof. intros []. by split. Qed.

Lemma prepared_nil s : build_ok s -> prepared 0 [] s s.
Proof. intros Hok. split; [done|done|lia|by rewrite app_nil_r]. Qed.

Lemma prepared_trans n m ps qs s t u :
  prepared n ps s t -> prepared m qs t u -> prepared (n + m) (ps ++ qs) s u.
Proof.
  intros [? ? Hn Hp] [? ? Hn' Hp']. split; [done|by etrans|rewrite Hn', Hn; lia|by rewrite Hp', Hp, app_assoc].
Qed.

Lemma push_compiled node render count params s t i s' :
  prepared count params s t -> push_node t node = (i, s') ->
  (forall c fuel scope, extends (program t) c -> nodes c !! N.to_nat i = Some node ->
     (size_of (nodes c) <= noSqlNode)%N -> (N.to_nat i <= fuel)%nat ->
     N.to_nat i = length (nodes (program t)) ->
     emitSqlPredicate (S fuel) c i scope = render scope) ->
  compiled render count params s i s'.
Proof.
  intros [Hok Hx Hn Hp] Hpush Hemit. unfold push_node in Hpush. injection Hpush as <- <-.
  assert (Hst : extends (program t) (MkCode (nodes (program t) ++ [node])%list (bindings (program t)))).
  { split; [by eexists|done]. }
  split; simpl; [by destruct Hok|by etrans| |done|done|].
  - rewrite length_app. unfold size_of. simpl. lia.
  - intros c fuel scope Hc Hsize Hfuel. destruct fuel as [|fuel]; [lia|].
    apply Hemit; [by etrans| |done|lia|unfold size_of; lia].
    apply (extends_node _ _ _ _ Hc). simpl. apply (lookup_size_of _ _ []).
Qed.

Lemma prepared_value s value i t :
  build_ok s -> addValue dialect s value = Ok (i, t) ->
  prepared 1 [automatic_parameter (nextParameterIndex s) value] s t /\
  size_of (bindings (program t)) = (i + 1)%N /\ i = size_of (bindings (program s)) /\
  bindings (program t) !! N.to_nat i = Some (MkBinding (getLogicalType value) (nextParameterIndex s) "").
Proof.
  intros Hok Hadd. apply bind_parameter in Hadd as (-> & -> & Hok' & _); [|done].
  split; [|split; [simpl; unfold size_of; rewrite length_app; simpl; lia|split; [done|apply (lookup_size_of _ _ [])]]].
  split; [done|split; [done|by eexists]|done|done].
Qed.

Lemma prepared_values s values t :
  build_ok s -> foldM (fun s value => snd <$> addValue dialect s value) s values = Ok t ->
  prepared (size_of values) (imap (fun i => automatic_parameter (nextParameterIndex s + N.of_nat i)%N) values) s t /\
  bindings (program t) =
    (bindings (program s)
     ++ imap (fun i v => MkBinding (getLogicalType v) (nextParameterIndex s + N.of_nat i)%N "") values)%list.
Proof.
  intros Hok Hfold. apply bind_values in Hfold as (Hok' & Hn & Hx & Hp & Hb); [|done].
  split; [|done]. split; [done| |done|done]. split; [by rewrite Hn|rewrite Hb; by eexists].
Qed.

Lemma marker_at_binding c i type n :
  bindings c !! N.to_nat i = Some (MkBinding type n "") -> marker_at c i = automatic_marker n.
Proof. intros Hi. unfold marker_at, binding_name. by rewrite (nth_N_lookup _ _ _ Hi). Qed.

(** The markers of the values that [foldM] bound. *)
Lemma markers_imap c first n (types : list QueryValue) rest :
  drop (N.to_nat first) (bindings c) =
    (imap (fun i v => MkBinding (getLogicalType v) (n + N.of_nat i)%N "") types ++ rest)%list ->
  markers c first (length types) = mapM (fun i => automatic_marker (n + N.of_nat i)%N) (seq 0 (length types)).
Proof.
  intros Hb. unfold markers. apply mapM_ext. intros i Hi.
  apply elem_of_seq in Hi. destruct (lookup_lt_is_Some_2 types i) as [v Hv]; [lia|].
  change (marker_at c (first + N.of_nat i)%N = automatic_marker (n + N.of_nat i)%N).
  eapply (marker_at_binding _ _ (getLogicalType v)).
  replace (N.to_nat (first + N.of_nat i)) with (N.to_nat first + i)%nat by lia.
  rewrite <- lookup_drop, Hb. apply lookup_app_l_Some. by rewrite list_lookup_imap, Hv.
Qed.

Lemma emitSqlCollection_ext relation o (f g : SqlRenderScope -> res string) scope :
  (forall scope, f scope = g scope) ->
  emitSqlCollection relation o (Some f) scope = emitSqlCollection relation o (Some g) scope.
Proof.
  intros Hfg. unfold emitSqlCollection.
  repeat (apply bind_ext; intros ? _). case_match. by rewrite Hfg.
Qed.

Lemma parseSqlSource_column column source : parseSqlSource column = Ok source -> isAggregate source = false.
Proof. unfold parseSqlSource. intros Hp. result_inv. by subst. Qed.

(** Evaluates the emission of a node that is looked up by [Hnode]. *)
Ltac emit_node :=
  intros c fuel scope Hc Hnode Hsize Hfuel Hlast;
  cbn [emitSqlPredicate]; rewrite (nth_N_lookup _ _ _ Hnode), bind_Ok;
  cbn [kind node_source operation left_ right_ firstParameter parameterCount relation rawSql
       comparison_node null_node list_node between_node not_node raw_node collection_node];
  cbn [render_predicate].

Lemma compiled_child render count params s l t c i :
  compiled render count params s l t -> extends (program t) c -> (size_of (nodes c) <= noSqlNode)%N ->
  (length (nodes (program t)) <= N.to_nat i)%nat ->
  (l =? noSqlNode)%N = false /\ forall fuel scope, (N.to_nat i <= fuel)%nat -> emitSqlPredicate fuel c l scope = render scope.
Proof.
  intros [_ _ Hl _ _ Hemit] Hc Hsize Hi. split.
  - apply N.eqb_neq. intros ->. destruct Hc as [[k Hk] _]. rewrite Hk in Hsize. unfold size_of in Hsize.
    rewrite length_app in Hsize. lia.
  - intros fuel scope Hfuel. apply Hemit; [done|done|lia].
Qed.

Lemma extends_length c d : extends c d -> (length (nodes c) <= length (nodes d))%nat.
Proof. intros [Hp _]. by apply prefix_length. Qed.

(** The nodes with one and with two operands, which predicates on rows and on
    aggregates share. *)
Lemma compiled_not render count params s l t i s' :
  compiled render count params s l t -> push_node t (not_node l) = (i, s') ->
  compiled (fun scope => p' ← render scope; Ok ("(NOT (" +:+ p' +:+ "))")) count params s i s'.
Proof.
  intros Hl Hpush. eapply push_compiled; [by eapply compiled_prepared|exact Hpush|]. emit_node.
  destruct (compiled_child _ _ _ _ _ _ _ i Hl Hc Hsize) as [_ Hemit]; [lia|].
  by rewrite Hemit by lia.
Qed.

Lemma compiled_logical render render' n m ps qs s l t o r u i s' :
  compiled render n ps s l t -> compiled render' m qs t r u -> push_node u (logical_node o l r) = (i, s') ->
  compiled (fun scope =>
      l' ← render scope; r' ← render' scope;
      Ok ("(" +:+ l' +:+ match o with And => " AND " | Or => " OR " end +:+ r' +:+ ")"))
    (n + m) (ps ++ qs) s i s'.
Proof.
  intros Hl Hr Hpush.
  eapply push_compiled; [eapply prepared_trans; by eapply compiled_prepared|exact Hpush|]. emit_node.
  pose proof (compiled_extends _ _ _ _ _ _ Hr) as Htu. pose proof (extends_length _ _ Htu).
  destruct (compiled_child _ _ _ _ _ _ _ i Hl ltac:(by etrans) Hsize) as [_ Hemit]; [lia|].
  destruct (compiled_child _ _ _ _ _ _ _ i Hr Hc Hsize) as [_ Hemit']; [lia|].
  destruct o; simpl; by rewrite Hemit, Hemit' by lia.
Qed.

(** The nodes without operands. *)
Lemma compiled_comparison source o v s first t i s' render :
  build_ok s -> addValue dialect s v = Ok (first, t) ->
  push_node t (comparison_node source (comparison_number o) first) = (i, s') ->
  (forall scope, render scope = (
     throw_if (isAggregate source && (comparison_number Like <=? comparison_number o)%N)
       (InvalidArgument "Unsupported aggregate comparison operator") ;;
     text ← emitSqlSource source scope false;
     o ← sqlComparison (comparison_number o);
     marker ← automatic_marker (nextParameterIndex s);
     Ok (text +:+ " " +:+ o +:+ " " +:+ marker))) ->
  compiled render 1 [automatic_parameter (nextParameterIndex s) v] s i s'.
Proof.
  intros Hok Hadd Hpush Hrender. destruct (prepared_value _ _ _ _ Hok Hadd) as (Hp & _ & _ & Hb).
  eapply push_compiled; [exact Hp|exact Hpush|]. emit_node.
  by rewrite Hrender, (marker_at_binding _ _ _ _ (extends_binding _ _ _ _ Hc Hb)).
Qed.

Lemma compiled_list source o vs s t i s' :
  build_ok s -> foldM (fun s value => snd <$> addValue dialect s value) s vs = Ok t ->
  push_node t (list_node source (list_number o) (size_of (bindings (program s))) (size_of vs)) = (i, s') ->
  compiled (fun scope =>
      if bool_decide (length vs = 0%nat) then Ok (match o with In => "(1 = 0)" | NotIn => "(1 = 1)" end)
      else
        text ← emitSqlColumn source scope true;
        markers ← mapM (fun i => automatic_marker (nextParameterIndex s + N.of_nat i)%N) (seq 0 (length vs));
        Ok (text +:+ match o with In => " IN (" | NotIn => " NOT IN (" end +:+ join ", " markers +:+ ")"))
    (size_of vs) (imap (fun i => automatic_parameter (nextParameterIndex s + N.of_nat i)%N) vs) s i s'.
Proof.
  intros Hok Hadd Hpush. destruct (prepared_values _ _ _ Hok Hadd) as (Hp & Hb).
  eapply push_compiled; [exact Hp|exact Hpush|]. emit_node.
  unfold emitSqlList. cbn [node_source operation firstParameter parameterCount list_node].
  replace (size_of vs =? 0)%N with (bool_decide (length vs = 0%nat))
    by (unfold size_of; case_bool_decide; symmetry; [apply N.eqb_eq|apply N.eqb_neq]; lia).
  destruct (bool_decide _); [by destruct o|]. apply bind_ext. intros text _.
  unfold size_of at 2. destruct Hc as [_ [k Hk]].
  rewrite Nat2N.id, (markers_imap _ _ (nextParameterIndex s) vs k).
  - apply bind_ext. intros ms _. by destruct o.
  - unfold size_of. rewrite Nat2N.id, Hk, Hb, <- app_assoc. by rewrite drop_app_length.
Qed.

Lemma compiled_between source o v w s first second t u i s' :
  build_ok s -> addValue dialect s v = Ok (first, t) -> addValue dialect t w = Ok (second, u) ->
  push_node u (between_node source (between_number o) first) = (i, s') ->
  compiled (fun scope =>
      text ← emitSqlColumn source scope true;
      low ← automatic_marker (nextParameterIndex s);
      high ← automatic_marker (nextParameterIndex s + 1)%N;
      Ok (text +:+ match o with Between => " BETWEEN " | NotBetween => " NOT BETWEEN " end +:+ low +:+ " AND " +:+ high))
    2 [automatic_parameter (nextParameterIndex s) v; automatic_parameter (nextParameterIndex s + 1)%N w] s i s'.
Proof.
  intros Hok Hadd Hadd' Hpush.
  destruct (prepared_value _ _ _ _ Hok Hadd) as (Hp & Hnext & _ & Hb).
  destruct (prepared_value _ _ _ _ (prepared_ok _ _ _ _ Hp) Hadd') as (Hp' & _ & Hsecond & Hb').
  pose proof (prepared_trans _ _ _ _ _ _ _ Hp Hp') as Hpu. rewrite (prepared_next _ _ _ _ Hp) in *.
  eapply push_compiled; [exact Hpu|exact Hpush|]. emit_node.
  apply bind_ext. intros text _. rewrite <- Hnext, <- Hsecond.
  pose proof (extends_binding _ _ _ _ (prepared_extends _ _ _ _ Hp') Hb) as Hbu.
  rewrite (marker_at_binding _ _ _ _ (extends_binding _ _ _ _ Hc Hbu)).
  rewrite (marker_at_binding _ _ _ _ (extends_binding _ _ _ _ Hc Hb')).
  by destruct o.
Qed.

Lemma compiled_raw sql ps s t i s' :
  build_ok s -> foldM (addRaw dialect) s ps = Ok t -> push_node t (raw_node sql) = (i, s') ->
  compiled (fun _ => Ok sql) 0
    (map (fun p => MkParameter (param_name p) (Some (param_value p)) None) ps) s i s'.
Proof.
  intros Hok Hadd Hpush. apply bind_raw in Hadd as (Hok' & Hn & Hx & Hp & Hb); [|done].
  eapply push_compiled; [|exact Hpush|by emit_node].
  split; [done|by split; [rewrite Hn|]|rewrite Hx; lia|done].
Qed.

Lemma compiled_collection relation o render count params s l t i s' :
  compiled render count params s l t ->
  push_node t (collection_node relation (collection_number o) l) = (i, s') ->
  compiled (emitSqlCollection relation (collection_number o) (Some render)) count params s i s'.
Proof.
  intros Hl Hpush. eapply push_compiled; [by eapply compiled_prepared|exact Hpush|]. emit_node.
  destruct (compiled_child _ _ _ _ _ _ _ i Hl Hc Hsize) as [-> Hemit]; [lia|].
  apply emitSqlCollection_ext. intros scope'. by apply Hemit.
Qed.

(** Whatever a predicate is compiled after, emitting its node renders its tree. *)
Lemma appendPredicate_compiled p s i s' :
  build_ok s -> appendPredicate dialect s p = Ok (i, s') ->
  compiled (render_predicate (nextParameterIndex s) p) (automatic_count p)
    (predicate_parameters (nextParameterIndex s) p) s i s'.
Proof.
  revert s i s'. induction p as [column o v|column o|column o vs|column o v w|l o r IHl IHr|p IH|sql ps|relation o p IH]
    using PredicateNode_nested_ind; intros s i s' Hok Happ; cbn [appendPredicate] in Happ;
    apply bind_Ok_iff in Happ as (source & Hsource & Happ) || apply Ok_inj in Happ.
  - apply bind_Ok_iff in Happ as ([first t] & Hadd & Happ). apply Ok_inj in Happ.
    eapply compiled_comparison; [done|exact Hadd|exact Happ|]. intros scope. simpl render_predicate.
    unfold emitSqlSource. by rewrite Hsource, bind_Ok, (parseSqlSource_column _ _ Hsource).
  - apply Ok_inj in Happ. eapply push_compiled; [by apply prepared_nil|exact Happ|]. emit_node.
    rewrite Hsource, bind_Ok. by destruct o.
  - apply bind_Ok_iff in Happ as (t & Hadd & Happ). apply Ok_inj in Happ.
    eapply compiled_ext; [by eapply compiled_list|]. intros scope. simpl. by rewrite Hsource.
  - apply bind_Ok_iff in Happ as ([first t] & Hadd & Happ). apply bind_Ok_iff in Happ as ([second u] & Hadd' & Happ).
    apply Ok_inj in Happ. eapply compiled_ext; [by eapply compiled_between|]. intros scope. simpl. by rewrite Hsource.
  - destruct source as [l' t]. apply bind_Ok_iff in Happ as ([r' u] & Happ' & Happ). apply Ok_inj in Happ.
    pose proof (IHl _ _ _ Hok Hsource) as Hl. pose proof (IHr _ _ _ (compiled_ok _ _ _ _ _ _ Hl) Happ') as Hr.
    rewrite (compiled_next _ _ _ _ _ _ Hl) in Hr. by eapply compiled_logical.
  - destruct source as [l' t]. apply Ok_inj in Happ. by eapply compiled_not; [apply IH|].
  - apply Ok_inj in Happ. by eapply compiled_raw.
  - destruct source as [l' t]. apply Ok_inj in Happ. destruct p as [p|].
    + by eapply compiled_collection; [apply (IH p)|].
    + injection Hsource as <- <-. eapply push_compiled; [by apply prepared_nil|exact Happ|by emit_node].
Qed.

Lemma appendHaving_compiled p s i s' :
  build_ok s -> appendHaving dialect s p = Ok (i, s') ->
  compiled (render_having (nextParameterIndex s) p) (having_count p) (having_parameters (nextParameterIndex s) p) s i s'.
Proof.
  revert s i s'. induction p as [e o v|l IHl o r IHr|p IH]; intros s i s' Hok Happ; cbn [appendHaving] in Happ;
    apply bind_Ok_iff in Happ as (source & Hsource & Happ).
  - apply bind_Ok_iff in Happ as ([first t] & Hadd & Happ). apply Ok_inj in Happ.
    eapply compiled_comparison; [done|exact Hadd|exact Happ|]. intros scope. simpl. by rewrite Hsource.
  - destruct source as [l' t]. apply bind_Ok_iff in Happ as ([r' u] & Happ' & Happ). apply Ok_inj in Happ.
    pose proof (IHl _ _ _ Hok Hsource) as Hl. pose proof (IHr _ _ _ (compiled_ok _ _ _ _ _ _ Hl) Happ') as Hr.
    rewrite (compiled_next _ _ _ _ _ _ Hl) in Hr. by eapply compiled_logical.
  - destruct source as [l' t]. apply Ok_inj in Happ. by eapply compiled_not; [apply IH|].
Qed.

(** Emission of the node at the end of a finished program. *)
Lemma compiled_emitPredicate render count params s i s' c scope :
  compiled render count params s i s' -> extends (program s') c -> (size_of (nodes c) <= noSqlNode)%N ->
  emitPredicate c i scope = render scope.
Proof.
  intros [_ _ Hi _ _ Hemit] Hc Hsize. apply Hemit; [done|done|].
  pose proof (extends_length _ _ Hc). lia.
Qed.

(** The same after a keyword: the index is that of a node. *)
Lemma compiled_emitCondition keyword render count params s i s' c scope :
  compiled render count params s i s' -> extends (program s') c -> (size_of (nodes c) <= noSqlNode)%N ->
  emitCondition keyword c i scope = (text ← render scope; Ok (keyword +:+ text)).
Proof.
  intros Hcompiled Hc Hsize. unfold emitCondition.
  destruct (compiled_child _ _ _ _ _ _ _ (size_of (nodes c)) Hcompiled Hc Hsize) as [-> _].
  - pose proof (extends_length _ _ Hc). unfold size_of. lia.
  - by erewrite compiled_emitPredicate.
Qed.
End refinement.
