(* ===== verification/Statements.v ===== *)
(** Statements: the SELECT, UPDATE and DELETE statements of Render are the reference
    renderings of their specifications; their parameters have distinct names; their
    text does not depend on the bound values. *)
From S2P Require Import Prelude Foundation Models Dialect QueryValue Query Emitter Render Direct.
Local Open Scope string_scope.

(** ** The reference statements *)
Definition clause (keyword : string) (render : option (SqlRenderScope -> res string)) (scope : SqlRenderScope) : res string :=
  match render with
  | Some render => text ← render scope; Ok (keyword +:+ text)
  | None => Ok ""
  end.

Section statements.
Variable dialect : SqlDialect.
#[local] Instance policy : SqlPolicy := RuntimeSqlPolicy dialect.

Definition predicate_count (p : option PredicateNode) : N :=
  match p with Some p => automatic_count p | None => 0 end.
Definition optional_parameters {P} (parameters : P -> list StatementParameter) (p : option P) : list StatementParameter :=
  match p with Some p => parameters p | None => [] end.

(** [q] holds the clauses that have no parameters. *)
Definition select_reference (q : SqlQueryView) (m : ModelView) (spec : SelectSpec) : res Statement :=
  let n := predicate_count (predicate spec) in
  text ← emitStatement q m (clause " WHERE " (render_predicate 0 <$> predicate spec))
           (clause " HAVING " (render_having n <$> having spec));
  Ok (MkStatement text (optional_parameters (predicate_parameters 0) (predicate spec)
                        ++ optional_parameters (having_parameters n) (having spec))%list).

Definition remove_reference (m : ModelView) (p : PredicateNode) : res Statement :=
  d ← deref m;
  table ← quoteIdentifier dialect (mv_tableName d);
  text ← render_predicate 0 p (MkScope m false true true "" []);
  page ← renderPagination dialect (MkPagination None None false);
  Ok (MkStatement ("DELETE FROM " +:+ table +:+ " WHERE " +:+ text +:+ page +:+ ";") (predicate_parameters 0 p)).

(** The i-th assignment binds the i-th parameter; a null carries its column's type. *)
Definition reference_assignment (m : ModelView) (item : N * UpdateAssignment) : res (string * StatementParameter) :=
  let '(i, a) := item in
  source ← parseSqlSource (assigned_column a);
  info ← resolveSqlColumn source m true;
  column ← emitSqlColumn source (MkScope m false true true "" []) false;
  marker ← automatic_marker i;
  Ok (column +:+ " = " +:+ marker,
      MkParameter (automatic_name i) (assigned_value a)
        (match assigned_value a with Some _ => None | None => Some (info_logicalType info) end)).

Definition numbered {A} (first : N) (l : list A) : list (N * A) := imap (fun i x => (first + N.of_nat i, x)%N) l.

Definition update_reference (m : ModelView) (spec : UpdateSpec) (p : PredicateNode) : res Statement :=
  d ← deref m;
  table ← quoteIdentifier dialect (mv_tableName d);
  items ← mapM (reference_assignment m) (numbered 0 (assignments spec));
  let n := size_of (assignments spec) in
  text ← render_predicate n p (MkScope m false true true "" []);
  page ← renderPagination dialect (MkPagination None None false);
  Ok (MkStatement ("UPDATE " +:+ table +:+ " SET " +:+ join ", " (items.*1) +:+ " WHERE " +:+ text +:+ page +:+ ";")
        (items.*2 ++ predicate_parameters n p)%list).

(** ** Refinement *)

Lemma emitStatement_ext q m w w' h h' :
  (forall scope, w scope = w' scope) -> (forall scope, h scope = h' scope) ->
  emitStatement q m w h = emitStatement q m w' h'.
Proof.
  intros Hw Hh. unfold emitStatement. repeat (apply bind_ext; intros ? _). cbv zeta. rewrite Hw.
  repeat (apply bind_ext; intros ? _). rewrite Hh. done.
Qed.

(** What a compiled condition of a specification is. *)
Record compiled_condition {P} (render : N -> P -> SqlRenderScope -> res string) (count : P -> N)
    (params : N -> P -> list StatementParameter) (s : Build) (p : option P) (i : N) (s' : Build) : Prop := {
  condition_prepared :
    prepared (match p with Some p => count p | None => 0%N end)
      (optional_parameters (params (nextParameterIndex s)) p) s s';
  condition_emit keyword c scope :
    extends (program s') c -> (size_of (nodes c) <= noSqlNode)%N ->
    emitCondition keyword c i scope = clause keyword (render (nextParameterIndex s) <$> p) scope
}.

Lemma append_optional_compiled {P} append render count params s (p : option P) i s' :
  (forall p s i s', build_ok s -> append s p = Ok (i, s') ->
     compiled (render (nextParameterIndex s) p) (count p) (params (nextParameterIndex s) p) s i s') ->
  build_ok s -> append_optional append s p = Ok (i, s') ->
  compiled_condition render count params s p i s'.
Proof.
  intros Happend Hok. destruct p as [p|]; simpl; intros Happ.
  - apply Happend in Happ; [|done]. split; [by eapply compiled_prepared|].
    intros keyword c scope Hc Hsize. by eapply compiled_emitCondition.
  - injection Happ as <- <-. split; [by apply prepared_nil|]. done.
Qed.

Lemma select_query_spec spec q s :
  select_query dialect spec = Ok (q, s) ->
  let n := predicate_count (predicate spec) in
  build_ok s /\
  context_parameters s = (optional_parameters (predicate_parameters 0) (predicate spec)
                          ++ optional_parameters (having_parameters n) (having spec))%list /\
  ((size_of (nodes (code q)) <= noSqlNode)%N -> forall scope,
     emitCondition " WHERE " (code q) (query_predicate q) scope = clause " WHERE " (render_predicate 0 <$> predicate spec) scope /\
     emitCondition " HAVING " (code q) (query_having q) scope = clause " HAVING " (render_having n <$> having spec) scope).
Proof.
  unfold select_query, appendSelectPredicates. intros Hq.
  apply bind_Ok_iff in Hq as (ps & _ & Hq). apply bind_Ok_iff in Hq as ([[i h] t] & Happ & Hq).
  apply bind_Ok_iff in Hq as (gs & _ & Hq). apply bind_Ok_iff in Hq as (os & _ & Hq). apply Ok_inj in Hq.
  injection Hq as <- <-. cbn [code query_predicate query_having].
  apply bind_Ok_iff in Happ as ([i' u] & Hp & Happ). apply bind_Ok_iff in Happ as ([h' t'] & Hh & Happ).
  apply Ok_inj in Happ. injection Happ as -> -> ->.
  apply (append_optional_compiled _ _ _ _ _ _ _ _ (appendPredicate_compiled dialect)) in Hp as [Hp Hpe]; [|apply start_ok].
  apply (append_optional_compiled _ _ _ _ _ _ _ _ (appendHaving_compiled dialect)) in Hh as [Hh Hhe]; [|apply Hp].
  pose proof (prepared_trans _ _ _ _ _ _ _ Hp Hh) as [Hok _ _ Hparams].
  rewrite (prepared_next _ _ _ _ Hp) in *. split; [done|]. split; [done|].
  intros Hsize scope. split; [apply Hpe; [apply Hh|done]|by apply Hhe].
Qed.

(** The text of a program that writes, its condition being compiled in [s]. *)
Lemma emitSql_write operation m done p s t i :
  build_ok s -> appendPredicate dialect s p = Ok (i, t) -> (size_of (nodes (program t)) <= noSqlNode)%N ->
  let q := write_query operation t i done in
  emitSql q m =
    (d ← deref m;
     head ← emitHead q (query_scope q m) d;
     text ← render_predicate (nextParameterIndex s) p (query_scope q m);
     page ← renderPagination dialect (MkPagination None None false);
     Ok (head +:+ " WHERE " +:+ text +:+ page +:+ ";")).
Proof.
  intros Hok Happ Hsize q. pose proof (appendPredicate_compiled dialect _ _ _ _ Hok Happ) as Hc.
  assert (Hw : forall scope, emitCondition " WHERE " (code q) (query_predicate q) scope
                 = (text ← render_predicate (nextParameterIndex s) p scope; Ok (" WHERE " +:+ text))).
  { intros scope. by eapply compiled_emitCondition. }
  unfold emitSql, emitStatement. cbv zeta. apply bind_ext. intros d _. apply bind_ext. intros head _.
  rewrite Hw. destruct (render_predicate _ p _) as [text|]; [|done]. simpl.
  destruct (renderPagination dialect _) as [page|]; [|done]. simpl. by rewrite ?app_str_assoc.
Qed.

Lemma compiled_bound p s i s' :
  build_ok s -> appendPredicate dialect s p = Ok (i, s') ->
  build_ok s' /\ context_parameters s' = (context_parameters s ++ predicate_parameters (nextParameterIndex s) p)%list.
Proof. intros Hok Happ. by destruct (appendPredicate_compiled dialect _ _ _ _ Hok Happ). Qed.

Lemma remove_renders_reference m p q s :
  remove_query dialect p = Ok (q, s) -> (size_of (nodes (code q)) <= noSqlNode)%N ->
  renderRemoveStatement dialect m p = remove_reference m p.
Proof.
  intros Hq Hsize. unfold renderRemoveStatement. rewrite Hq, bind_Ok. unfold remove_query in Hq.
  apply bind_Ok_iff in Hq as ([i t] & Happ & Hq). apply Ok_inj in Hq. injection Hq as <- <-. simpl code in Hsize.
  change (@emitSql (RuntimeSqlPolicy dialect)) with (@emitSql policy). rewrite (emitSql_write _ _ _ _ _ _ _ start_ok Happ) by done.
  apply compiled_bound in Happ as [_ ->]; [|apply start_ok]. unfold remove_reference, emitHead. simpl.
  destruct (deref m) as [d|]; [|done]. simpl. destruct (quoteIdentifier dialect _) as [table|]; [|done]. simpl.
  destruct (render_predicate _ p _) as [text|]; [|done]. simpl.
  destruct (renderPagination dialect _) as [page|]; [|done]. simpl. by rewrite ?app_str_assoc.
Qed.

Lemma select_renders_reference m spec q s :
  select_query dialect spec = Ok (q, s) -> (size_of (nodes (code q)) <= noSqlNode)%N ->
  renderSelectStatement dialect m spec = select_reference q m spec.
Proof.
  intros Hq Hsize. unfold renderSelectStatement. rewrite Hq, bind_Ok.
  apply select_query_spec in Hq as (_ & -> & Hconditions). unfold select_reference, emitSql.
  erewrite emitStatement_ext; [reflexivity|..]; intros scope; by apply Hconditions.
Qed.

(** ** Assignments *)
Lemma append_assignment_spec m done s a done' s' :
  build_ok s -> append_assignment dialect m (done, s) a = Ok (done', s') ->
  exists source info type,
    parseSqlSource (assigned_column a) = Ok source /\ resolveSqlColumn source m true = Ok info /\
    prepared 1 [MkParameter (automatic_name (nextParameterIndex s)) (assigned_value a)
                  (match assigned_value a with Some _ => None | None => Some (info_logicalType info) end)] s s' /\
    done' = (done ++ [MkSqlAssignment source (size_of (bindings (program s)))])%list /\
    bindings (program s') !! N.to_nat (size_of (bindings (program s))) = Some (MkBinding type (nextParameterIndex s) "") /\
    (assigned_value a = None -> info_isNotNull info = false).
Proof.
  intros Hok Happ. unfold append_assignment in Happ.
  apply bind_Ok_iff in Happ as (source & Hsource & Happ). apply bind_Ok_iff in Happ as (info & Hinfo & Happ).
  apply bind_Ok_iff in Happ as (? & Hnull%throw_if_Ok_iff & Happ). apply bind_Ok_iff in Happ as ([i t] & Hadd & Happ).
  apply Ok_inj in Happ. injection Happ as <- <-.
  assert (Hadd' : exists type, bind_last type <$> add_parameter dialect s (assigned_value a)
      (match assigned_value a with Some _ => None | None => Some (info_logicalType info) end) = Ok (i, t)).
  { by destruct (assigned_value a); eexists. }
  destruct Hadd' as [type (-> & -> & Hok' & _)%bind_parameter]; [|done].
  exists source, info, type. split; [done|]. split; [done|].
  split; [split; [done|split; [done|by eexists]|done|done]|]. split; [done|].
  split; [apply (lookup_size_of _ _ [])|]. intros Hnone. rewrite Hnone in Hnull. by bool_to_prop.
Qed.

Lemma numbered_cons {A} first (x : A) l : numbered first (x :: l) = (first, x) :: numbered (first + 1)%N l.
Proof.
  unfold numbered. cbn [imap]. rewrite N.add_0_r. f_equal. apply imap_ext. intros i y _. unfold compose. f_equal. lia.
Qed.

Lemma emitAssignment_at c scope source i type n :
  bindings c !! N.to_nat i = Some (MkBinding type n "") ->
  emitAssignment c scope (MkSqlAssignment source i) =
    (column ← emitSqlColumn source scope false; marker ← automatic_marker n; Ok (column +:+ " = " +:+ marker)).
Proof. intros Hi. unfold emitAssignment. simpl. by rewrite (marker_at_binding _ _ _ _ Hi). Qed.

Lemma reference_assignment_at m n a source info :
  parseSqlSource (assigned_column a) = Ok source -> resolveSqlColumn source m true = Ok info ->
  reference_assignment m (n, a) =
    (column ← emitSqlColumn source (MkScope m false true true "" []) false;
     marker ← automatic_marker n;
     Ok (column +:+ " = " +:+ marker,
         MkParameter (automatic_name n) (assigned_value a)
           (match assigned_value a with Some _ => None | None => Some (info_logicalType info) end))).
Proof. intros Hs Hi. unfold reference_assignment. by rewrite Hs, bind_Ok, Hi. Qed.

Lemma append_assignments_spec m items done s done' s' :
  build_ok s -> foldM (append_assignment dialect m) (done, s) items = Ok (done', s') ->
  build_ok s' /\ extends (program s) (program s') /\
  nextParameterIndex s' = (nextParameterIndex s + size_of items)%N /\
  Forall (fun a => assigned_value a = None -> forall source info,
    parseSqlSource (assigned_column a) = Ok source -> resolveSqlColumn source m true = Ok info -> info_isNotNull info = false) items /\
  exists new, done' = (done ++ new)%list /\ length new = length items /\
    (forall c, extends (program s') c ->
       mapM (emitAssignment c (MkScope m false true true "" [])) new
       = fmap fst <$> mapM (reference_assignment m) (numbered (nextParameterIndex s) items)) /\
    (forall texts, mapM (reference_assignment m) (numbered (nextParameterIndex s) items) = Ok texts ->
       context_parameters s' = (context_parameters s ++ texts.*2)%list).
Proof.
  revert done s. induction items as [|a items IH]; intros done s Hok Hfold; cbn [foldM] in Hfold.
  - apply Ok_inj in Hfold. injection Hfold as <- <-. split; [done|]. split; [done|]. split; [unfold size_of; simpl; lia|].
    split; [done|]. exists []. rewrite !app_nil_r. split; [done|]. split; [done|]. split; [done|].
    intros texts [= <-]. by rewrite app_nil_r.
  - apply bind_Ok_iff in Hfold as ([done1 t] & Happ & Hfold).
    apply append_assignment_spec in Happ as (source & info & type & Hsource & Hinfo & Hp & -> & Hb & Hnull); [|done].
    destruct (IH _ _ (prepared_ok _ _ _ _ Hp) Hfold) as (Hok' & Hx & Hn & Hnulls & new & -> & Hlen & Hemit & Hparams).
    split; [done|]. split; [by etrans; [apply Hp|]|]. rewrite Hn, (prepared_next _ _ _ _ Hp) in *.
    split; [unfold size_of; simpl; lia|]. split.
    { constructor; [|done]. intros Hnone source' info' Hsource' Hinfo'. rewrite Hsource in Hsource'.
      injection Hsource' as <-. rewrite Hinfo in Hinfo'. injection Hinfo' as <-. by apply Hnull. }
    exists (MkSqlAssignment source (size_of (bindings (program s))) :: new).
    split; [by rewrite <- app_assoc|]. split; [simpl; by rewrite Hlen|]. rewrite numbered_cons. split.
    + intros c Hc. cbn [mapM].
      rewrite (emitAssignment_at _ _ _ _ _ _ (extends_binding _ _ _ _ (transitivity Hx Hc) Hb)), (Hemit c Hc).
      rewrite (reference_assignment_at _ _ _ _ _ Hsource Hinfo).
      destruct (emitSqlColumn source _ false); [|done]. rewrite !bind_Ok.
      destruct (automatic_marker (nextParameterIndex s)); [|done]. rewrite !bind_Ok.
      by destruct (mapM (reference_assignment m) _).
    + intros texts Htexts. cbn [mapM] in Htexts. apply bind_Ok_iff in Htexts as (item & Hitem & Htexts).
      apply bind_Ok_iff in Htexts as (rest & Hrest & Htexts). apply Ok_inj in Htexts as <-.
      rewrite (reference_assignment_at _ _ _ _ _ Hsource Hinfo) in Hitem.
      apply bind_Ok_iff in Hitem as (column & _ & Hitem). apply bind_Ok_iff in Hitem as (marker & _ & Hitem).
      apply Ok_inj in Hitem as <-. rewrite (Hparams rest Hrest), (prepared_parameters _ _ _ _ Hp). by rewrite <- app_assoc.
Qed.

Lemma update_renders_reference m spec q s p :
  update_query dialect m spec = Ok (q, s) -> (size_of (nodes (code q)) <= noSqlNode)%N ->
  update_predicate spec = Some p ->
  renderUpdateStatement dialect m spec = update_reference m spec p.
Proof.
  intros Hq Hsize Hp. unfold renderUpdateStatement. rewrite Hq, bind_Ok. unfold update_query in Hq.
  apply bind_Ok_iff in Hq as (? & Hsome%throw_if_Ok_iff & Hq). rewrite Hp in Hq. simpl in Hq.
  apply bind_Ok_iff in Hq as ([done t] & Hfold & Hq). apply bind_Ok_iff in Hq as ([i u] & Happ & Hq).
  apply Ok_inj in Hq. injection Hq as <- <-. simpl code in Hsize.
  apply append_assignments_spec in Hfold as (Hok & Hx & Hn & _ & new & -> & Hlen & Hemit & Hparams); [|apply start_ok].
  pose proof (appendPredicate_compiled dialect _ _ _ _ Hok Happ) as Hc.
  change (@emitSql (RuntimeSqlPolicy dialect)) with (@emitSql policy). rewrite (emitSql_write _ _ _ _ _ _ _ Hok Happ) by done.
  rewrite (compiled_parameters _ _ _ _ _ _ Hc), Hn. unfold update_reference. simpl nextParameterIndex. rewrite N.add_0_l.
  destruct (compiled_child _ _ _ _ _ _ _ (size_of (nodes (program u))) Hc (reflexivity _) Hsize) as [Hi _];
    [unfold size_of; lia|].
  cbn [app]. destruct (deref m) as [d|]; [|done]. rewrite !bind_Ok. unfold emitHead.
  cbn [query_operation write_query query_assignments query_predicate code].
  rewrite Hlen, Hsome, throw_false, bind_Ok, Hi, throw_false, bind_Ok.
  change (query_scope _ m) with (MkScope m false true true "" []).
  rewrite (Hemit (program u) (compiled_extends _ _ _ _ _ _ Hc)).
  simpl p_quoteIdentifier. destruct (quoteIdentifier dialect _) as [table|]; [|done]. rewrite !bind_Ok.
  simpl nextParameterIndex. destruct (mapM (reference_assignment m) _) as [items|] eqn:Hitems; [|done].
  rewrite (Hparams items eq_refl). cbn [fmap result_fmap mbind result_bind].
  destruct (render_predicate _ p _) as [text|]; [|done]. cbn [mbind result_bind].
  destruct (renderPagination dialect _) as [page|]; [|done]. cbn [mbind result_bind]. by rewrite !app_str_assoc.
Qed.

(** ** Parameters *)

(** The names that the program's markers are made of are the parameters' names, each
    given to one parameter. *)
Definition bound_once (c : Code) (st : Statement) : Prop :=
  parameterName <$> bindings c = parameter_name <$> parameters st /\ NoDup (parameter_name <$> parameters st).

Lemma build_bound_once s text : build_ok s -> bound_once (program s) (MkStatement text (context_parameters s)).
Proof. intros [_ Hd Hb _]. by split. Qed.

Lemma select_bound m spec st :
  renderSelectStatement dialect m spec = Ok st -> exists q s, select_query dialect spec = Ok (q, s) /\ bound_once (code q) st.
Proof.
  intros Hst. unfold renderSelectStatement in Hst. apply bind_Ok_iff in Hst as ([q s] & Hq & Hst).
  apply bind_Ok_iff in Hst as (text & _ & Hst). apply Ok_inj in Hst as <-. exists q, s. split; [done|].
  pose proof (proj1 (select_query_spec _ _ _ Hq)) as Hok. unfold select_query in Hq.
  do 2 (apply bind_Ok_iff in Hq as (? & _ & Hq)). destruct x0 as [[i h] t].
  do 2 (apply bind_Ok_iff in Hq as (? & _ & Hq)). apply Ok_inj in Hq. injection Hq as <- <-. by apply build_bound_once.
Qed.

Lemma update_query_ok m spec q s : update_query dialect m spec = Ok (q, s) -> build_ok s /\ code q = program s.
Proof.
  unfold update_query. intros Hq. do 2 (apply bind_Ok_iff in Hq as (? & _ & Hq)).
  apply bind_Ok_iff in Hq as ([items t] & Hfold & Hq). apply bind_Ok_iff in Hq as ([i u] & Happ & Hq).
  apply Ok_inj in Hq. injection Hq as <- <-. apply append_assignments_spec in Hfold as (Hok & _); [|apply start_ok].
  by apply compiled_bound in Happ as [Hok' _].
Qed.

Lemma update_bound m spec st :
  renderUpdateStatement dialect m spec = Ok st -> exists q s, update_query dialect m spec = Ok (q, s) /\ bound_once (code q) st.
Proof.
  intros Hst. unfold renderUpdateStatement in Hst. apply bind_Ok_iff in Hst as ([q s] & Hq & Hst).
  apply bind_Ok_iff in Hst as (text & _ & Hst). apply Ok_inj in Hst as <-. exists q, s. split; [done|].
  destruct (update_query_ok _ _ _ _ Hq) as [Hok ->]. by apply build_bound_once.
Qed.

Lemma remove_bound m p st :
  renderRemoveStatement dialect m p = Ok st -> exists q s, remove_query dialect p = Ok (q, s) /\ bound_once (code q) st.
Proof.
  intros Hst. unfold renderRemoveStatement in Hst. apply bind_Ok_iff in Hst as ([q s] & Hq & Hst).
  apply bind_Ok_iff in Hst as (text & _ & Hst). apply Ok_inj in Hst as <-. exists q, s. split; [done|].
  unfold remove_query in Hq. apply bind_Ok_iff in Hq as ([i t] & Happ & Hq). apply Ok_inj in Hq. injection Hq as <- <-.
  apply compiled_bound in Happ as [Hok _]; [|apply start_ok]. by apply build_bound_once.
Qed.

(** ** Guards of UPDATE *)
Lemma update_query_guards m spec q s :
  update_query dialect m spec = Ok (q, s) ->
  assignments spec <> [] /\
  Forall (fun a => assigned_value a = None -> forall source info,
    parseSqlSource (assigned_column a) = Ok source -> resolveSqlColumn source m true = Ok info -> info_isNotNull info = false)
    (assignments spec) /\
  exists p, update_predicate spec = Some p.
Proof.
  unfold update_query. intros Hq. apply bind_Ok_iff in Hq as (? & Hsome%throw_if_Ok_iff & Hq).
  apply bind_Ok_iff in Hq as (p & Hp%or_throw_Ok_iff & Hq). apply bind_Ok_iff in Hq as ([items t] & Hfold & _).
  apply append_assignments_spec in Hfold as (_ & _ & _ & Hnulls & _); [|apply start_ok].
  split; [intros Hnil; by rewrite Hnil in Hsome|]. split; [done|by exists p].
Qed.

(** ** The properties *)

(** C26: compiling a specification to a flat program and emitting the program gives the
    text and the parameters of the reference rendering, which follows the specification's
    trees: for SELECT, UPDATE and DELETE, in each dialect, errors included. *)
Theorem statements_render_reference m :
  (forall spec q s, select_query dialect spec = Ok (q, s) -> (size_of (nodes (code q)) <= noSqlNode)%N ->
     renderSelectStatement dialect m spec = select_reference q m spec) /\
  (forall spec q s p, update_query dialect m spec = Ok (q, s) -> (size_of (nodes (code q)) <= noSqlNode)%N ->
     update_predicate spec = Some p -> renderUpdateStatement dialect m spec = update_reference m spec p) /\
  (forall p q s, remove_query dialect p = Ok (q, s) -> (size_of (nodes (code q)) <= noSqlNode)%N ->
     renderRemoveStatement dialect m p = remove_reference m p).
Proof.
  split; [|split].
  - apply select_renders_reference.
  - intros spec q s p. apply update_renders_reference.
  - apply remove_renders_reference.
Qed.

(** C28: a rendered statement binds each parameter under a name of its own, and the names
    in its markers are exactly those: raw parameters cannot take an automatic name. *)
Theorem statement_parameters_distinct m :
  (forall spec st, renderSelectStatement dialect m spec = Ok st ->
     exists q s, select_query dialect spec = Ok (q, s) /\ bound_once (code q) st) /\
  (forall spec st, renderUpdateStatement dialect m spec = Ok st ->
     exists q s, update_query dialect m spec = Ok (q, s) /\ bound_once (code q) st) /\
  (forall p st, renderRemoveStatement dialect m p = Ok st ->
     exists q s, remove_query dialect p = Ok (q, s) /\ bound_once (code q) st).
Proof. split; [apply select_bound|]. split; [apply update_bound|apply remove_bound]. Qed.

(** The assignments give null to no column that must not be null. *)
Definition nulls_allowed (m : ModelView) (a : UpdateAssignment) : Prop :=
  assigned_value a = None -> forall source info,
  parseSqlSource (assigned_column a) = Ok source -> resolveSqlColumn source m true = Ok info -> info_isNotNull info = false.

(** an UPDATE that is rendered has an assignment and a condition, sets no column that
    must not be null to null, and its text is restricted by the condition it was given. *)
Theorem update_guarded m spec q s st :
  update_query dialect m spec = Ok (q, s) -> (size_of (nodes (code q)) <= noSqlNode)%N ->
  renderUpdateStatement dialect m spec = Ok st ->
  assignments spec <> [] /\
  Forall (nulls_allowed m) (assignments spec) /\
  exists p before text after,
    update_predicate spec = Some p /\
    render_predicate (size_of (assignments spec)) p (MkScope m false true true "" []) = Ok text /\
    sql st = before +:+ " WHERE " +:+ text +:+ after.
Proof.
  intros Hq Hsize Hst. destruct (update_query_guards _ _ _ _ Hq) as (Hne & Hnulls & p & Hp).
  rewrite (update_renders_reference _ _ _ _ _ Hq Hsize Hp) in Hst. split; [done|]. split; [done|]. exists p.
  unfold update_reference in Hst. apply bind_Ok_iff in Hst as (d & _ & Hst). apply bind_Ok_iff in Hst as (table & _ & Hst).
  apply bind_Ok_iff in Hst as (items & _ & Hst). apply bind_Ok_iff in Hst as (text & Htext & Hst).
  apply bind_Ok_iff in Hst as (page & _ & Hst). apply Ok_inj in Hst as <-.
  exists ("UPDATE " +:+ table +:+ " SET " +:+ join ", " (items.*1)), text, (page +:+ ";").
  split; [done|]. split; [done|]. simpl. by rewrite !app_str_assoc.
Qed.
End statements.
