(* ===== verification/Erasure.v ===== *)
(** Erasure: the text of a statement, its parameters' names and whether it is rendered
    at all do not depend on the values that are bound: rendering commutes with
    replacing every value by one and the same. *)
From S2P Require Import Prelude Foundation Models Dialect QueryValue Query Emitter Render Direct.
Local Open Scope string_scope.

(** ** Erasing values *)
Definition erased : QueryValue := MkQueryValue ColumnType.Int (IntValue 0).

Definition erase_parameter (p : QueryParameter) : QueryParameter := MkParam (param_name p) erased.

Fixpoint erase_predicate (p : PredicateNode) : PredicateNode :=
  match p with
  | ComparisonExpression column o _ => ComparisonExpression column o erased
  | NullExpression column o => NullExpression column o
  | ListExpression column o values => ListExpression column o (map (fun _ => erased) values)
  | BetweenExpression column o _ _ => BetweenExpression column o erased erased
  | LogicalExpression l o r => LogicalExpression (erase_predicate l) o (erase_predicate r)
  | NotExpression p => NotExpression (erase_predicate p)
  | RawExpression sql parameters => RawExpression sql (map erase_parameter parameters)
  | CollectionExpression relation o p =>
      CollectionExpression relation o (match p with Some p => Some (erase_predicate p) | None => None end)
  end.

Fixpoint erase_having (p : AggregatePredicateNode) : AggregatePredicateNode :=
  match p with
  | AggregateComparison e o _ => AggregateComparison e o erased
  | AggregateLogical l o r => AggregateLogical (erase_having l) o (erase_having r)
  | AggregateNot p => AggregateNot (erase_having p)
  end.

Definition erase_select (spec : SelectSpec) : SelectSpec :=
  MkSelect (offset spec) (limit spec) (erase_predicate <$> predicate spec) (orderBy spec) (projections spec)
    (groupBy spec) (erase_having <$> having spec) (isDistinct spec) (shouldJoin spec).

Definition erase_assignment (a : UpdateAssignment) : UpdateAssignment :=
  MkAssignment (assigned_column a) ((fun _ => erased) <$> assigned_value a).

Definition erase_update (spec : UpdateSpec) : UpdateSpec :=
  MkUpdate (map erase_assignment (assignments spec)) (erase_predicate <$> update_predicate spec).

(** The parameters keep their names and the types of their nulls. *)
Definition erase_bound (p : StatementParameter) : StatementParameter :=
  MkParameter (parameter_name p) ((fun _ => erased) <$> parameter_value p) (nullType p).

Definition erase_statement (st : Statement) : Statement := MkStatement (sql st) (map erase_bound (parameters st)).

Definition erase_binding (b : SqlBindingDescriptor) : SqlBindingDescriptor :=
  MkBinding ColumnType.Int (index b) (rawName b).
Definition erase_code (c : Code) : Code := MkCode (nodes c) (map erase_binding (bindings c)).
Definition erase_build (s : Build) : Build :=
  MkBuild (erase_code (program s)) (map erase_bound (context_parameters s)) (parameterNames s) (nextParameterIndex s).

(** The types that bindings hold are never read: a state counts up to them. *)
Definition similar (s t : Build) : Prop := erase_build s = erase_build t.

(** ** Computations that agree up to values *)
Definition agree {A} (R : A -> A -> Prop) (x y : res A) : Prop :=
  match x, y with
  | Ok a, Ok b => R a b
  | Err e, Err f => e = f
  | _, _ => False
  end.

Lemma agree_bind {A B} (R : A -> A -> Prop) (S : B -> B -> Prop) x y k l :
  agree R x y -> (forall a b, R a b -> agree S (k a) (l b)) -> agree S (x ≫= k) (y ≫= l).
Proof. destruct x, y; simpl; naive_solver. Qed.

Lemma agree_same {A B} (S : B -> B -> Prop) (x : res A) k l :
  (forall a, agree S (k a) (l a)) -> agree S (x ≫= k) (x ≫= l).
Proof. destruct x; simpl; auto. Qed.

Lemma agree_refl {A} (R : A -> A -> Prop) x : (forall a, R a a) -> agree R x x.
Proof. destruct x; simpl; auto. Qed.

Definition similar_at (x y : N * Build) : Prop := x.1 = y.1 /\ similar x.2 y.2.

Section erasure.
Variable dialect : SqlDialect.

Lemma similar_inv s t :
  similar s t ->
  nodes (program s) = nodes (program t) /\
  map erase_binding (bindings (program s)) = map erase_binding (bindings (program t)) /\
  map erase_bound (context_parameters s) = map erase_bound (context_parameters t) /\
  parameterNames s = parameterNames t /\ nextParameterIndex s = nextParameterIndex t.
Proof. unfold similar, erase_build, erase_code. by intros [= ? ? ? ? ?]. Qed.

Lemma similar_intro s t :
  nodes (program s) = nodes (program t) ->
  map erase_binding (bindings (program s)) = map erase_binding (bindings (program t)) ->
  map erase_bound (context_parameters s) = map erase_bound (context_parameters t) ->
  parameterNames s = parameterNames t -> nextParameterIndex s = nextParameterIndex t -> similar s t.
Proof. unfold similar, erase_build, erase_code. by intros -> -> -> -> ->. Qed.

Lemma similar_size s t : similar s t -> size_of (bindings (program s)) = size_of (bindings (program t)).
Proof.
  intros (_ & Hb%(f_equal length) & _)%similar_inv. rewrite !length_map in Hb. unfold size_of. by rewrite Hb.
Qed.

Lemma push_node_similar s t n : similar s t -> similar_at (push_node s n) (push_node t n).
Proof.
  intros Hst. apply similar_inv in Hst as (Hn & Hb & Hp & Hs & Hx). split; [simpl; by rewrite Hn|].
  apply similar_intro; simpl; try done. by rewrite Hn.
Qed.

(** Two values, or two nulls of one type, bind alike. *)
Lemma bind_parameter_similar s t value value' null type type' :
  similar s t -> (fun _ => erased) <$> value = (fun _ => erased) <$> value' ->
  agree similar_at (bind_last type <$> add_parameter dialect s value null)
    (bind_last type' <$> add_parameter dialect t value' null).
Proof.
  intros Hst Hv. pose proof (similar_size _ _ Hst) as Hsize.
  apply similar_inv in Hst as (Hn & Hb & Hp & Hs & Hx). unfold add_parameter. rewrite Hs, Hx.
  destruct (unused_name _ _ _) as [name next]. destruct (bindMarker dialect name); [|done]. simpl.
  split; simpl; [done|]. apply similar_intro; simpl; try done.
  - by rewrite !map_app, Hb.
  - rewrite !map_app, Hp. f_equal. cbn [map]. unfold erase_bound. cbn [parameter_name parameter_value nullType]. by rewrite Hv.
Qed.

Lemma addValue_similar s t v w : similar s t -> agree similar_at (addValue dialect s v) (addValue dialect t w).
Proof. intros Hst. by apply (bind_parameter_similar _ _ (Some v) (Some w) None). Qed.

Lemma addValues_similar s t vs ws :
  similar s t -> length vs = length ws ->
  agree similar (foldM (fun s value => snd <$> addValue dialect s value) s vs)
    (foldM (fun s value => snd <$> addValue dialect s value) t ws).
Proof.
  revert s t ws. induction vs as [|v vs IH]; intros s t [|w ws] Hst Hlen; simplify_eq; [done|]. cbn [foldM].
  apply (agree_bind similar); [|intros; by apply IH].
  pose proof (addValue_similar _ _ v w Hst) as Hvw. destruct (addValue dialect s v), (addValue dialect t w); [apply Hvw|done|done|exact Hvw].
Qed.

Lemma addRaw_similar s t p :
  similar s t -> agree similar (addRaw dialect s p) (addRaw dialect t (erase_parameter p)).
Proof.
  intros Hst. apply similar_inv in Hst as (Hn & Hb & Hp & Hs & Hx). unfold addRaw. cbn [param_name param_value erase_parameter].
  rewrite Hs. do 4 (apply agree_same; intros _). simpl. apply similar_intro; simpl; try done.
  - by rewrite !map_app, Hb.
  - by rewrite !map_app, Hp.
Qed.

Lemma addRaws_similar s t ps :
  similar s t -> agree similar (foldM (addRaw dialect) s ps) (foldM (addRaw dialect) t (map erase_parameter ps)).
Proof.
  revert s t. induction ps as [|p ps IH]; intros s t Hst; [done|]. cbn [foldM map].
  eapply agree_bind; [by apply addRaw_similar|]. intros a b. apply IH.
Qed.

Lemma appendPredicate_similar p s t :
  similar s t -> agree similar_at (appendPredicate dialect s p) (appendPredicate dialect t (erase_predicate p)).
Proof.
  revert s t. induction p as [column o v|column o|column o vs|column o v w|l o r IHl IHr|p IH|sql ps|relation o p IH]
    using PredicateNode_nested_ind; intros s t Hst; cbn [appendPredicate erase_predicate].
  - apply agree_same. intros source. eapply agree_bind; [by apply addValue_similar|].
    intros [i s'] [j t'] [Hij Hst']; simpl in *; subst. by apply push_node_similar.
  - apply agree_same. intros source. by apply push_node_similar.
  - apply agree_same. intros source. rewrite (similar_size _ _ Hst). unfold size_of at 2 4. rewrite length_map.
    eapply agree_bind; [apply addValues_similar; [done|by rewrite length_map]|]. intros a b Hab. by apply push_node_similar.
  - apply agree_same. intros source. eapply agree_bind; [by apply addValue_similar|].
    intros [i s'] [j t'] [Hij Hst']; simpl in *; subst. eapply agree_bind; [by apply addValue_similar|].
    intros [k s''] [k' t''] [_ Hst'']. by apply push_node_similar.
  - eapply agree_bind; [by apply IHl|]. intros [i s'] [j t'] [Hij Hst']; simpl in *; subst.
    eapply agree_bind; [by apply IHr|]. intros [k s''] [k' t''] [Hk Hst'']; simpl in *; subst. by apply push_node_similar.
  - eapply agree_bind; [by apply IH|]. intros [i s'] [j t'] [Hij Hst']; simpl in *; subst. by apply push_node_similar.
  - eapply agree_bind; [by apply addRaws_similar|]. intros a b Hab. by apply push_node_similar.
  - eapply (agree_bind similar_at).
    + destruct p as [p|]; [by apply IH|by split].
    + intros [i s'] [j t'] [Hij Hst']; simpl in *; subst. by apply push_node_similar.
Qed.

Lemma appendHaving_similar p s t :
  similar s t -> agree similar_at (appendHaving dialect s p) (appendHaving dialect t (erase_having p)).
Proof.
  revert s t. induction p as [e o v|l IHl o r IHr|p IH]; intros s t Hst; cbn [appendHaving erase_having].
  - apply agree_same. intros source. eapply agree_bind; [by apply addValue_similar|].
    intros [i s'] [j t'] [Hij Hst']; simpl in *; subst. by apply push_node_similar.
  - eapply agree_bind; [by apply IHl|]. intros [i s'] [j t'] [Hij Hst']; simpl in *; subst.
    eapply agree_bind; [by apply IHr|]. intros [k s''] [k' t''] [Hk Hst'']; simpl in *; subst. by apply push_node_similar.
  - eapply agree_bind; [by apply IH|]. intros [i s'] [j t'] [Hij Hst']; simpl in *; subst. by apply push_node_similar.
Qed.
End erasure.

(** ** Emission *)
Section emission.
Context `{SqlPolicy}.

Lemma nth_N_map {A B} (f : A -> B) l i : nth_N (map f l) i = f <$> nth_N l i.
Proof.
  unfold nth_N, size_of. rewrite length_map. destruct (_ <? _)%N; [|done].
  change (map f l) with (f <$> l). rewrite list_lookup_fmap. by destruct (l !! N.to_nat i).
Qed.

Lemma binding_name_erase c i : binding_name (erase_code c) i = binding_name c i.
Proof. unfold binding_name. simpl bindings. rewrite nth_N_map. by destruct (nth_N (bindings c) i). Qed.

Lemma marker_at_erase c i : marker_at (erase_code c) i = marker_at c i.
Proof. unfold marker_at. by rewrite binding_name_erase. Qed.

Lemma markers_erase c first count : markers (erase_code c) first count = markers c first count.
Proof. unfold markers. apply mapM_ext. intros i _. by rewrite binding_name_erase. Qed.

Lemma emitSqlPredicate_erase fuel c i scope :
  emitSqlPredicate fuel (erase_code c) i scope = emitSqlPredicate fuel c i scope.
Proof.
  revert i scope. induction fuel as [|fuel IH]; intros i scope; [done|]. cbn [emitSqlPredicate]. simpl nodes.
  apply bind_ext. intros node _. destruct (kind node); try done.
  - by rewrite marker_at_erase.
  - unfold emitSqlList. by rewrite markers_erase.
  - by rewrite !marker_at_erase.
  - by rewrite !IH.
  - by rewrite !IH.
  - by rewrite !IH.
  - destruct (left_ node =? noSqlNode)%N; [done|]. by apply emitSqlCollection_ext.
Qed.

Lemma emitAssignment_erase c scope a : emitAssignment (erase_code c) scope a = emitAssignment c scope a.
Proof. unfold emitAssignment. by rewrite marker_at_erase. Qed.

Lemma emitCondition_erase keyword c i scope : emitCondition keyword (erase_code c) i scope = emitCondition keyword c i scope.
Proof. unfold emitCondition, emitPredicate. by rewrite emitSqlPredicate_erase. Qed.
End emission.

Definition with_code (q : SqlQueryView) (c : Code) : SqlQueryView :=
  MkQuery (query_operation q) c (query_predicate q) (query_having q) (orders q) (groups q) (query_projections q)
    (query_assignments q) (query_isDistinct q) (query_shouldJoin q) (hasLimit q) (hasOffset q) (boundPagination q)
    (limitParameter q) (offsetParameter q) (literalLimit q) (literalOffset q).

Section statements.
Variable dialect : SqlDialect.
#[local] Instance policy : SqlPolicy := RuntimeSqlPolicy dialect.

Lemma emitSql_erase q m : emitSql (with_code q (erase_code (code q))) m = emitSql q m.
Proof.
  unfold emitSql, emitStatement. cbv zeta. apply bind_ext. intros d _.
  assert (Hhead : emitHead (with_code q (erase_code (code q))) (query_scope q m) d = emitHead q (query_scope q m) d).
  { unfold emitHead. simpl. destruct (query_operation q); try done.
    apply bind_ext. intros _ _. apply bind_ext. intros _ _. apply bind_ext. intros table _.
    erewrite mapM_ext; [done|]. intros a _. apply emitAssignment_erase. }
  assert (Hcondition : forall keyword i, emitCondition keyword (code (with_code q (erase_code (code q)))) i (query_scope q m)
                       = emitCondition keyword (code q) i (query_scope q m)).
  { intros keyword i. apply emitCondition_erase. }
  change (query_scope (with_code q _) m) with (query_scope q m). rewrite Hhead.
  cbn [query_predicate query_having groups orders with_code].
  apply bind_ext. intros head _. rewrite (Hcondition " WHERE "). apply bind_ext. intros w _.
  apply bind_ext. intros g _. by rewrite (Hcondition " HAVING ").
Qed.

(** Queries that agree but for the types of their bindings. *)
Definition same_query (x y : SqlQueryView * Build) : Prop :=
  with_code x.1 (erase_code (code x.1)) = with_code y.1 (erase_code (code y.1)) /\ similar x.2 y.2.

Lemma same_text x y m :
  agree same_query x y ->
  erase_statement <$> ('(q, s) ← x; text ← emitSql q m; Ok (MkStatement text (context_parameters s)))
  = erase_statement <$> ('(q, s) ← y; text ← emitSql q m; Ok (MkStatement text (context_parameters s))).
Proof.
  destruct x as [[q s]|], y as [[q' s']|]; simpl; try done; [|by intros ->].
  intros [Hq Hs]. simpl in *. rewrite <- (emitSql_erase q), <- (emitSql_erase q'), Hq.
  destruct (emitSql _ m); [|done]. simpl. unfold erase_statement. simpl.
  by apply similar_inv in Hs as (_ & _ & -> & _).
Qed.

Lemma append_optional_similar {P} append erase (p : option P) s t :
  (forall p s t, similar s t -> agree similar_at (append s p) (append t (erase p))) -> similar s t ->
  agree similar_at (append_optional append s p) (append_optional append t (erase <$> p)).
Proof. intros Happ Hst. destruct p as [p|]; [by apply Happ|by split]. Qed.

Lemma same_code s t : similar s t -> erase_code (program s) = erase_code (program t).
Proof. intros Hst. exact (f_equal program Hst). Qed.

Lemma select_erase m spec :
  erase_statement <$> renderSelectStatement dialect m spec
  = erase_statement <$> renderSelectStatement dialect m (erase_select spec).
Proof.
  apply same_text. unfold select_query, appendSelectPredicates. simpl.
  apply agree_same. intros ps. eapply (agree_bind (fun x y => x.1 = y.1 /\ similar x.2 y.2)).
  - eapply agree_bind; [apply append_optional_similar; [apply appendPredicate_similar|done]|].
    intros [i s] [j t] [Hij Hst]; simpl in *; subst.
    eapply agree_bind; [apply append_optional_similar; [apply appendHaving_similar|done]|].
    intros [h s'] [h' t'] [Hh Hst']; simpl in *; subst. done.
  - intros [[i h] s] [[j h'] t] [Hij Hst]. simpl in *. injection Hij as -> ->.
    apply agree_same. intros gs. apply agree_same. intros os. split; [|done]. simpl.
    unfold with_code. simpl. by rewrite (same_code _ _ Hst).
Qed.

Lemma remove_erase m p :
  erase_statement <$> renderRemoveStatement dialect m p
  = erase_statement <$> renderRemoveStatement dialect m (erase_predicate p).
Proof.
  apply same_text. unfold remove_query. eapply agree_bind; [by apply appendPredicate_similar|].
  intros [i s] [j t] [Hij Hst]; simpl in *; subst. split; [|done]. simpl.
  unfold with_code. simpl. by rewrite (same_code _ _ Hst).
Qed.

Lemma append_assignment_similar m done s t a :
  similar s t ->
  agree (fun x y => x.1 = y.1 /\ similar x.2 y.2)
    (append_assignment dialect m (done, s) a) (append_assignment dialect m (done, t) (erase_assignment a)).
Proof.
  intros Hst. unfold append_assignment. simpl assigned_column. simpl assigned_value.
  apply agree_same. intros source. apply agree_same. intros info.
  replace (bool_decide ((fun _ => erased) <$> assigned_value a = None)) with (bool_decide (assigned_value a = None))
    by (by destruct (assigned_value a)).
  apply agree_same. intros _. apply (agree_bind similar_at).
  - destruct (assigned_value a) as [v|]; [by apply addValue_similar|].
    by apply (bind_parameter_similar dialect _ _ None None (Some (info_logicalType info))).
  - intros [i s'] [j t'] [Hij Hst']; simpl in *; subst. done.
Qed.

Lemma update_erase m spec :
  erase_statement <$> renderUpdateStatement dialect m spec
  = erase_statement <$> renderUpdateStatement dialect m (erase_update spec).
Proof.
  apply same_text. unfold update_query. simpl assignments. simpl update_predicate. rewrite length_map.
  apply agree_same. intros _.
  apply (agree_bind (fun p p' => p' = erase_predicate p)); [by destruct (update_predicate spec)|].
  intros p ? ->. apply (agree_bind (fun x y => x.1 = y.1 /\ similar x.2 y.2)).
  - assert (Hst : similar start start) by done. revert Hst. generalize start at 1 3 as s. generalize start as t.
    generalize (@nil SqlAssignment) as items. induction (assignments spec) as [|a l IH]; intros items t s Hst; [done|].
    cbn [foldM map]. eapply agree_bind; [by apply append_assignment_similar|].
    intros [d s'] [d' t'] [Hd Hst']; simpl in *; subst. by apply IH.
  - intros [d s] [d' t] [Hd Hst]; simpl in *; subst. eapply agree_bind; [by apply appendPredicate_similar|].
    intros [i s'] [j t'] [Hij Hst']; simpl in *; subst. split; [|done]. simpl.
    unfold with_code. simpl. by rewrite (same_code _ _ Hst').
Qed.
End statements.

(** ** The property *)

(** C27: two specifications that differ only in the values they bind, whatever these are,
    are both refused with the same error or rendered with the same text and the same
    parameter names: no value reaches the text of a statement. *)
Theorem statement_text_ignores_values dialect m :
  (forall spec spec', erase_select spec = erase_select spec' ->
     erase_statement <$> renderSelectStatement dialect m spec = erase_statement <$> renderSelectStatement dialect m spec') /\
  (forall spec spec', erase_update spec = erase_update spec' ->
     erase_statement <$> renderUpdateStatement dialect m spec = erase_statement <$> renderUpdateStatement dialect m spec') /\
  (forall p p', erase_predicate p = erase_predicate p' ->
     erase_statement <$> renderRemoveStatement dialect m p = erase_statement <$> renderRemoveStatement dialect m p').
Proof.
  split; [|split].
  - intros spec spec' Heq. by rewrite select_erase, Heq, <- select_erase.
  - intros spec spec' Heq. by rewrite update_erase, Heq, <- update_erase.
  - intros p p' Heq. by rewrite remove_erase, Heq, <- remove_erase.
Qed.
