(* ===== verification/Policies.v ===== *)
(** Policies: a statement that is compiled for a flavor has the text that the dialect of
    a backend of that flavor renders at run time; the aliases of a collection's subquery
    are distinct from each other and from the outer query's. *)
From S2P Require Import Prelude Foundation Models Dialect QueryValue Query Emitter Direct.
Local Open Scope string_scope.

(** ** Aliases *)
Definition candidate (base : string) (suffix : N) : string := base +:+ "_" +:+ to_string suffix.

Lemma candidate_inj base i j : candidate base i = candidate base j -> i = j.
Proof. intros Heq%app_str_inj_l. injection Heq. apply to_string_inj. Qed.

Lemma candidate_not_base base i : candidate base i <> base.
Proof. intros Heq%(f_equal String.length). unfold candidate in Heq. rewrite length_app_str in Heq. simpl in Heq. lia. Qed.

(** Either the alias is unused or every candidate that was tried is used. *)
Lemma next_alias_tried fuel base names suffix :
  next_alias fuel base names suffix ∉ names \/
  forall i, (i < fuel)%nat -> candidate base (suffix + N.of_nat i) ∈ names.
Proof.
  revert suffix. induction fuel as [|fuel IH]; intros suffix; simpl; [right; lia|].
  unfold hasSqlAlias. case_bool_decide as Hin; [|by left].
  destruct (IH (suffix + 1)%N) as [Hfresh|Hall]; [by left|right].
  intros [|i] Hi; [by rewrite N.add_0_r|].
  replace (suffix + N.of_nat (S i))%N with (suffix + 1 + N.of_nat i)%N by lia. apply Hall. lia.
Qed.

Lemma uniqueSqlAlias_unused base names : uniqueSqlAlias base names ∉ names.
Proof.
  unfold uniqueSqlAlias, hasSqlAlias. case_bool_decide as Hbase; [|done].
  destruct (next_alias_tried (length names) base names 1) as [Hfresh|Hall]; [done|].
  set (tried := base :: ((fun i => candidate base (1 + N.of_nat i)) <$> seq 0 (length names))).
  assert (Hnd : NoDup tried).
  { constructor.
    - intros (i & Heq & _)%list_elem_of_fmap. by apply (candidate_not_base base (1 + N.of_nat i)).
    - apply NoDup_fmap_2; [|apply NoDup_seq]. intros i j Heq%candidate_inj. lia. }
  assert (Hsub : forall x, x ∈ tried -> x ∈ names).
  { intros x [->|(i & -> & Hi%elem_of_seq)%list_elem_of_fmap]%elem_of_cons; [done|]. apply Hall. lia. }
  pose proof (submseteq_length _ _ (NoDup_submseteq _ _ Hnd Hsub)) as Hlen. unfold tried in Hlen.
  simpl in Hlen. rewrite length_fmap, length_seq in Hlen. lia.
Qed.

(** The names that have been given are reserved, and each new one is none of them. *)
Lemma assign_aliases_distinct names reserved assigned :
  NoDup assigned -> (forall x, x ∈ assigned -> x ∈ reserved) ->
  NoDup (assigned ++ (assign_aliases names reserved assigned).*2) /\
  (assign_aliases names reserved assigned).*1 = names.
Proof.
  revert reserved assigned. induction names as [|name names IH]; intros reserved assigned Hnd Hsub;
    cbn [assign_aliases fmap list_fmap]; [by rewrite app_nil_r|].
  set (alias := if hasSqlAlias assigned name then _ else _). simpl.
  assert (Hfresh : alias ∉ assigned).
  { unfold alias, hasSqlAlias. case_bool_decide; [|done]. intros Hin%Hsub. by apply uniqueSqlAlias_unused in Hin. }
  destruct (IH (reserved ++ [alias])%list (assigned ++ [alias])%list) as [Hnd' Hnames].
  - apply NoDup_app. split; [done|]. split; [|apply NoDup_singleton]. intros x Hx ->%list_elem_of_singleton. done.
  - intros x [Hx|Hx]%elem_of_app; apply elem_of_app; [left; by apply Hsub|by right].
  - split; [|by rewrite Hnames]. by rewrite <- app_assoc in Hnd'.
Qed.

(** ** Policies that differ in the message for a bad bind name *)
Definition same_outcome {A} (x y : res A) : Prop :=
  match x, y with
  | Ok a, Ok b => a = b
  | Err _, Err _ => True
  | _, _ => False
  end.

Lemma same_outcome_refl {A} (x : res A) : same_outcome x x.
Proof. by destruct x. Qed.

Lemma same_bind {A B} (x y : res A) (k l : A -> res B) :
  same_outcome x y -> (forall a, same_outcome (k a) (l a)) -> same_outcome (x ≫= k) (y ≫= l).
Proof. destruct x, y; simpl; naive_solver. Qed.

Lemma same_outcome_Ok {A} (x y : res A) a : same_outcome x y -> x = Ok a <-> y = Ok a.
Proof. destruct x, y; simpl; intros; naive_solver. Qed.

Lemma same_mapM {A B} (f g : A -> res B) l :
  (forall x, same_outcome (f x) (g x)) -> same_outcome (mapM f l) (mapM g l).
Proof.
  intros Hfg. induction l as [|x l IH]; [done|]. cbn [mapM].
  apply same_bind; [done|]. intros y. apply same_bind; [done|]. intros k. apply same_outcome_refl.
Qed.

Section policies.
Context (P Q : SqlPolicy).
Hypothesis same_quote : @p_quoteIdentifier P = @p_quoteIdentifier Q.
Hypothesis same_aggregate : @p_renderAggregateResult P = @p_renderAggregateResult Q.
Hypothesis same_marker : forall name, same_outcome (@p_bindMarker P name) (@p_bindMarker Q name).

Ltac same_texts := rewrite ?same_quote, ?same_aggregate; reflexivity.

Lemma column_same : @emitSqlColumn P = @emitSqlColumn Q.
Proof. unfold emitSqlColumn, sqlQualified. same_texts. Qed.

Lemma source_same : @emitSqlSource P = @emitSqlSource Q.
Proof. unfold emitSqlSource. rewrite column_same. same_texts. Qed.

Lemma joins_same : @emitSqlJoins P = @emitSqlJoins Q.
Proof. unfold emitSqlJoins, emitSqlJoin, emitJoinKeys, sqlQualified. same_texts. Qed.

Lemma fields_same : @emitSqlFullFields P = @emitSqlFullFields Q.
Proof. unfold emitSqlFullFields, sqlQualified. same_texts. Qed.

Lemma collection_same relation o (f g : option (SqlRenderScope -> res string)) scope :
  match f, g with
  | Some f, Some g => forall scope, same_outcome (f scope) (g scope)
  | None, None => True
  | _, _ => False
  end ->
  same_outcome (@emitSqlCollection P relation o f scope) (@emitSqlCollection Q relation o g scope).
Proof.
  intros Hfg. unfold emitSqlCollection, emitOneToMany, emitManyToMany, emitEqualities, sqlQualified.
  rewrite joins_same, same_quote. destruct f as [f|], g as [g|]; [|done|done|apply same_outcome_refl].
  repeat (apply same_bind; [apply same_outcome_refl|intros ?]). case_match.
  apply same_bind; [|intros; apply same_outcome_refl].
  apply same_bind; [done|intros; apply same_outcome_refl].
Qed.

Lemma marker_at_same c i : same_outcome (@marker_at P c i) (@marker_at Q c i).
Proof. unfold marker_at. apply same_bind; [apply same_outcome_refl|]. intros name. apply same_marker. Qed.

Lemma list_same c node scope : same_outcome (@emitSqlList P c node scope) (@emitSqlList Q c node scope).
Proof.
  unfold emitSqlList. rewrite column_same. case_match; [done|].
  apply same_bind; [apply same_outcome_refl|]. intros column. apply same_bind; [|intros; apply same_outcome_refl].
  apply same_mapM. intros i. apply marker_at_same.
Qed.

Lemma predicate_same fuel c i scope :
  same_outcome (@emitSqlPredicate P fuel c i scope) (@emitSqlPredicate Q fuel c i scope).
Proof.
  revert i scope. induction fuel as [|fuel IH]; intros i scope; [done|]. cbn [emitSqlPredicate].
  rewrite source_same, column_same. apply same_bind; [apply same_outcome_refl|]. intros node.
  destruct (kind node).
  - apply same_bind; [apply same_outcome_refl|intros ?]. apply same_bind; [apply same_outcome_refl|intros ?].
    apply same_bind; [apply same_outcome_refl|intros ?].
    apply same_bind; [apply marker_at_same|intros ?; apply same_outcome_refl].
  - apply same_outcome_refl.
  - apply list_same.
  - apply same_bind; [apply same_outcome_refl|intros ?]. apply same_bind; [apply marker_at_same|intros ?].
    apply same_bind; [apply marker_at_same|intros ?; apply same_outcome_refl].
  - apply same_bind; [apply IH|intros ?]. apply same_bind; [apply IH|intros ?; apply same_outcome_refl].
  - apply same_bind; [apply IH|intros ?]. apply same_bind; [apply IH|intros ?; apply same_outcome_refl].
  - apply same_bind; [apply IH|intros ?; apply same_outcome_refl].
  - destruct (left_ node =? noSqlNode)%N; [by apply (collection_same _ _ None None)|].
    refine (collection_same _ _ (Some _) (Some _) _ _). intros scope'. apply IH.
  - done.
  - done.
Qed.

Lemma condition_same keyword c i scope :
  same_outcome (@emitCondition P keyword c i scope) (@emitCondition Q keyword c i scope).
Proof.
  unfold emitCondition, emitPredicate. case_match; [done|].
  apply same_bind; [apply predicate_same|intros; apply same_outcome_refl].
Qed.

Lemma head_same q scope m : same_outcome (@emitHead P q scope m) (@emitHead Q q scope m).
Proof.
  unfold emitHead, emitProjection. rewrite fields_same, joins_same, source_same, same_quote.
  destruct (query_operation q); [apply same_outcome_refl| |apply same_outcome_refl].
  do 3 (apply same_bind; [apply same_outcome_refl|intros ?]).
  apply same_bind; [|intros; apply same_outcome_refl]. apply same_mapM. intros item. unfold emitAssignment.
  rewrite column_same. apply same_bind; [apply same_outcome_refl|]. intros column.
  apply same_bind; [apply marker_at_same|intros; apply same_outcome_refl].
Qed.

Lemma emitSql_same q m :
  same_outcome (@p_pagination P q) (@p_pagination Q q) ->
  same_outcome (@emitSql P q m) (@emitSql Q q m).
Proof.
  intros Hpage. unfold emitSql, emitStatement, emitOrder. rewrite column_same. cbv zeta.
  apply same_bind; [apply same_outcome_refl|intros d]. apply same_bind; [apply head_same|intros head].
  apply same_bind; [apply condition_same|intros w]. apply same_bind; [apply same_outcome_refl|intros g].
  apply same_bind; [apply condition_same|intros h]. apply same_bind; [apply same_outcome_refl|intros o].
  apply same_bind; [exact Hpage|intros p; apply same_outcome_refl].
Qed.
End policies.

(** ** The properties *)

(** The names that a subquery gives to its tables. *)
Definition aliases_of (a : SubqueryAliases) : list string :=
  targetAlias a :: junctionAlias a :: (nested_relationAliases a).*2.

(** A query rendered for a flavor at compile time and through a dialect at run time. *)
Definition compile_time_sql (flavor : Flavor) : SqlQueryView -> ModelView -> res string := @emitSql (StaticSqlPolicy flavor).
Definition run_time_sql (dialect : SqlDialect) : SqlQueryView -> ModelView -> res string := @emitSql (RuntimeSqlPolicy dialect).

(** In the subquery of a collection predicate the alias of the outer table, of the
    target, of the junction and of each of the target's relations are all different, so
    that no column of the subquery is captured by another table. *)
Theorem subquery_aliases_distinct outer target :
  NoDup (outer :: aliases_of (subquery_aliases outer target)) /\
  (nested_relationAliases (subquery_aliases outer target)).*1 = to_one_names target.
Proof.
  unfold aliases_of, subquery_aliases. cbv zeta. cbn [targetAlias junctionAlias nested_relationAliases].
  set (reserved := outer :: to_one_names target). set (t := uniqueSqlAlias "orm_relation_target" reserved).
  set (j := uniqueSqlAlias "orm_relation_junction" (reserved ++ [t])%list).
  assert (Ht : t ∉ reserved) by apply uniqueSqlAlias_unused.
  assert (Hj : j ∉ (reserved ++ [t])%list) by apply uniqueSqlAlias_unused.
  apply (assign_aliases_distinct (to_one_names target) ((reserved ++ [t]) ++ [j])%list [outer; t; j]).
  - unfold reserved in *. rewrite !NoDup_cons. set_solver by apply NoDup_nil_2.
  - unfold reserved. intros x Hx. set_solver.
Qed.

(** A query rendered at compile time for the flavor of a built-in backend has the
    text that the backend's dialect renders at run time, and is refused exactly when
    the dialect refuses it. *)
Theorem static_policy_is_runtime b flavor dialect q m s :
  flavor_of b = Some flavor -> builtin_dialect b = Some dialect -> boundPagination q = false ->
  compile_time_sql flavor q m = Ok s <-> run_time_sql dialect q m = Ok s.
Proof.
  intros Hf Hd Hp. unfold compile_time_sql, run_time_sql. apply same_outcome_Ok. destruct b; simplify_eq; simpl in Hf, Hd; simplify_eq;
    (apply emitSql_same; [reflexivity|reflexivity| |];
     [intros name; simpl; unfold standardBindMarker; by destruct (negb _)|];
     simpl; unfold staticPagination; rewrite Hp; simpl; unfold literalPagination;
     by destruct (hasLimit q), (hasOffset q)).
Qed.
