(* ===== verification/Capabilities.v ===== *)
(** Capabilities: what the built-in backends say they can do
    (modules/orm/sql/contracts.cppm, the [*Backend.cpp] and mysql_family/MysqlFamily.cpp)
    and how their run times translate the errors of their drivers. *)
From S2P Require Import Prelude Foundation Chrono Values Codec History TargetValues.
Local Open Scope string_scope.

(** ** Capabilities *)
Inductive AffectedRowsSupport := Unavailable | Reliable.
#[export] Instance AffectedRowsSupport_eq_dec : EqDecision AffectedRowsSupport.
Proof. solve_decision. Defined.

Record SchemaCapabilities := MkSchemaCapabilities {
  sc_createTableIfNotExists : bool;
  sc_dropTableIfExists : bool;
  sc_autoIncrementPrimaryKey : bool;
  sc_compositePrimaryKeys : bool;
  sc_foreignKeys : bool;
  sc_onDeleteCascade : bool;
  sc_transactionalDdl : bool;
  sc_boundedStringKeys : bool
}.

Record QueryCapabilities := MkQueryCapabilities {
  qc_limit : bool;
  qc_offset : bool;
  qc_offsetWithoutLimit : bool;
  qc_offsetRequiresOrderBy : bool;
  qc_projections : bool;
  qc_groupBy : bool;
  qc_having : bool;
  qc_collectionPredicates : bool;
  qc_fullModelGrouping : bool;
  qc_distinctOrderByRequiresProjectedColumn : bool;
  qc_strictProjectionGrouping : bool;
  qc_maxOrderedStringLength : option N
}.

Record MutationCapabilities := MkMutationCapabilities {
  mc_insert : bool;
  mc_update : bool;
  mc_remove : bool;
  mc_atomicInsertIfAbsent : bool;
  mc_affectedRows : AffectedRowsSupport
}.

Record RelationCapabilities := MkRelationCapabilities {
  rc_toOne : bool;
  rc_oneToMany : bool;
  rc_manyToMany : bool;
  rc_collectionIncludes : bool;
  rc_collectionPredicates : bool;
  rc_junctionTables : bool;
  rc_compositeEndpointKeys : bool
}.

(** [valueLimits] is the first member of [BackendValueLimits] with the others;
    [MigrationCapabilities] has both its members here. *)
Record BackendCapabilities := MkCapabilities {
  schema_caps : SchemaCapabilities;
  query_caps : QueryCapabilities;
  mutation_caps : MutationCapabilities;
  relation_caps : RelationCapabilities;
  maxUnsignedLongLong : option Z;
  value_limits : BackendValueLimits;
  migrations_supported : bool;
  migrations_atomicity : MigrationAtomicity;
  supportedColumnTypes : list ColumnType;
  transactions : bool
}.

Definition supportsColumnType (c : BackendCapabilities) (type : ColumnType) : bool :=
  bool_decide (type ∈ supportedColumnTypes c).

Definition all_relations : RelationCapabilities := MkRelationCapabilities true true true true true true true.
Definition all_mutations : MutationCapabilities := MkMutationCapabilities true true true true Reliable.

(** The types that each built-in backend supports. *)
Definition plain_types : list ColumnType :=
  [ColumnType.Bool; ColumnType.Char; ColumnType.UnsignedChar; ColumnType.Short; ColumnType.UnsignedShort;
   ColumnType.Int; ColumnType.UnsignedInt; ColumnType.LongLong; ColumnType.UnsignedLongLong; ColumnType.Float;
   ColumnType.Double; ColumnType.String].
Definition temporal_types : list ColumnType :=
  [ColumnType.Date; ColumnType.TimeOfDay; ColumnType.LocalDateTime; ColumnType.UtcTimestamp].

Definition sqliteCapabilities : BackendCapabilities :=
  MkCapabilities (MkSchemaCapabilities true true true true true true true false)
    (MkQueryCapabilities true true true false true true true true true false false None)
    all_mutations all_relations (Some (2 ^ 63 - 1)%Z) (MkValueLimits None None None None None None)
    true WholeMigration plain_types true.

Definition postgresqlCapabilities : BackendCapabilities :=
  MkCapabilities (MkSchemaCapabilities true true true true true true true false)
    (MkQueryCapabilities true true true false true true true true false true true None)
    all_mutations all_relations (Some (2 ^ 63 - 1)%Z)
    (MkValueLimits (Some (YMD 1 1 1)) (Some (YMD 9999 12 31))
       (Some (at_midnight 1 1 1)) (Some (at_midnight 9999 12 31 + 24 * us_per_hour - 1)%Z)
       (Some (at_midnight 1 1 1)) (Some (at_midnight 9999 12 31 + 24 * us_per_hour - 1)%Z))
    true WholeMigration (plain_types ++ temporal_types ++ [ColumnType.Uuid])%list true.

(** [mysql_family::capabilities]. *)
Definition mysqlCapabilities : BackendCapabilities :=
  MkCapabilities (MkSchemaCapabilities true true true true true true false true)
    (MkQueryCapabilities true true true false true true true true false true true None)
    all_mutations all_relations None
    (MkValueLimits (Some (YMD 1000 1 1)) (Some (YMD 9999 12 31))
       (Some (at_midnight 1000 1 1)) (Some (at_midnight 9999 12 31 + 24 * us_per_hour - 500001)%Z)
       (Some us_per_second) (Some (2147483647 * us_per_second + 499999)%Z))
    true NonTransactional (plain_types ++ temporal_types)%list true.

(** The constructor of [MariadbBackend]. *)
Definition mariadbCapabilities : BackendCapabilities :=
  let c := mysqlCapabilities in
  let q := query_caps c in
  let v := value_limits c in
  MkCapabilities (schema_caps c)
    (MkQueryCapabilities (qc_limit q) (qc_offset q) (qc_offsetWithoutLimit q) (qc_offsetRequiresOrderBy q)
       (qc_projections q) (qc_groupBy q) (qc_having q) (qc_collectionPredicates q) (qc_fullModelGrouping q)
       (qc_distinctOrderByRequiresProjectedColumn q) (qc_strictProjectionGrouping q) (Some 16383%N))
    (mutation_caps c) (relation_caps c) (maxUnsignedLongLong c)
    (MkValueLimits (minDate v) (maxDate v) (minLocalDateTime v)
       ((fun t => t + 500000)%Z <$> maxLocalDateTime v) (minUtcTimestamp v)
       (Some (4294967295 * us_per_second + 999999)%Z))
    (migrations_supported c) (migrations_atomicity c) (supportedColumnTypes c ++ [ColumnType.Uuid])%list (transactions c).

Definition builtin_capabilities (b : BackendType) : option BackendCapabilities :=
  match b with
  | Sqlite => Some sqliteCapabilities
  | Postgres => Some postgresqlCapabilities
  | Mysql => Some mysqlCapabilities
  | Mariadb => Some mariadbCapabilities
  | _ => None
  end.

(** [BackendRuntimeLimits]. *)
Record RuntimeLimits := MkLimits {
  maxBindParameters : option N;
  maxIndexBytes : option N;
  timestamp_limits : BackendRuntimeLimits
}.

(** ** Errors of the drivers

    [soci::soci_error]: its category and the native code of the class it has. *)
Inductive error_category :=
| connection_error | invalid_statement | no_privilege | no_data | constraint_violation
| unknown_transaction_state | system_error | unknown.

Inductive NativeError :=
| NoNative
| SqliteResult (result : Z)
| SqlState (state : string)
| MysqlNumber (number : Z)
| LinkLock (number : option Z).

Record soci_error := MkSociError { category : error_category; native : NativeError }.

(** The code that the category gives, the same in each run time. *)
Definition category_code (c : error_category) (fallback : DatabaseErrorCode) : DatabaseErrorCode :=
  match c with
  | connection_error => Connection
  | constraint_violation => Constraint
  | unknown_transaction_state => TransactionError
  | _ => fallback
  end.

(** SQLite's [SQLITE_CONSTRAINT]. *)
Definition SQLITE_CONSTRAINT : Z := 19.

Definition sqlite_translateError (e : soci_error) (fallback : DatabaseErrorCode) (operation : string) : exn :=
  let code := category_code (category e) fallback in
  let '(code, nativeCode) :=
    match native e with
    | SqliteResult result =>
        (if (Z.land result 255 =? SQLITE_CONSTRAINT)%Z then Constraint else code, Some (to_string_Z result))
    | _ => (code, None)
    end in
  DatabaseError code Sqlite operation ("SQLite operation failed: " +:+ operation) nativeCode.

Definition codeFromSqlState (sqlState : string) (fallback : DatabaseErrorCode) : DatabaseErrorCode :=
  if starts_with "08" sqlState then Connection
  else if bool_decide (sqlState ∈ ["57P01"; "57P02"; "57P03"; "57P04"]) then Connection
  else if starts_with "23" sqlState then Constraint
  else if starts_with "22" sqlState then Conversion
  else if starts_with "25" sqlState || starts_with "40" sqlState then TransactionError
  else fallback.

Definition postgresql_translateError (e : soci_error) (fallback : DatabaseErrorCode) (operation : string) : exn :=
  let code := category_code (category e) fallback in
  let '(code, nativeCode) :=
    match native e with
    | SqlState state =>
        if (String.length state =? 5)%nat && existsb_char (fun c => negb (bool_decide (c = " "%char))) state
        then (codeFromSqlState state code, Some state) else (code, None)
    | _ => (code, None)
    end in
  let code := if bool_decide (fallback = Connection) && bool_decide (operation = "connect") then Connection else code in
  DatabaseError code Postgres operation ("PostgreSQL operation failed: " +:+ operation) nativeCode.

Definition mysql_number_code (number : Z) (code : DatabaseErrorCode) : DatabaseErrorCode :=
  if bool_decide (number ∈ [1062; 1048; 1451; 1452; 3819; 4025]%Z) then Constraint
  else if bool_decide (number ∈ [1205; 1213]%Z) then TransactionError
  else if bool_decide (number ∈ [1045; 1049; 2002; 2003; 2006; 2013]%Z) then Connection
  else if bool_decide (number ∈ [1264; 1292; 1366; 1406; 1441]%Z) then Conversion
  else code.

Definition mysql_translateError (b : BackendType) (e : soci_error) (fallback : DatabaseErrorCode) (operation : string) : exn :=
  let code := category_code (category e) fallback in
  let '(code, nativeCode) :=
    match native e with
    | MysqlNumber number => (mysql_number_code number code, Some (to_string_Z number))
    | LinkLock (Some number) => (code, Some (to_string_Z number))
    | _ => (code, None)
    end in
  DatabaseError code b operation ("Database operation failed: " +:+ operation) nativeCode.

Definition postgresql_statementErrorInvalidatesTransaction (e : soci_error) : bool :=
  match native e with SqlState _ => true | _ => false end.

Definition mysql_statementErrorInvalidatesTransaction (e : soci_error) : bool :=
  match category e with
  | connection_error => true
  | _ =>
      match native e with
      | LinkLock _ => true
      | MysqlNumber number => bool_decide (number = 1213%Z) || bool_decide (number = 1205%Z)
      | _ => false
      end
  end.

Definition normalizeAffectedRows (message : string) (affectedRows : Z) : res N :=
  throw_if (affectedRows <? 0)%Z (RuntimeError message) ;; Ok (Z.to_N affectedRows).

(** The pure operations of a run time, [BackendRuntime]. *)
Record BackendRuntime := MkRuntime {
  translateError : soci_error -> DatabaseErrorCode -> string -> exn;
  statementErrorInvalidatesTransaction : soci_error -> bool;
  runtime_normalizeAffectedRows : Z -> res N
}.

Definition SqliteRuntime : BackendRuntime :=
  MkRuntime sqlite_translateError (fun _ => false) (normalizeAffectedRows "SQLite did not report affected row count").
Definition PostgresqlRuntime : BackendRuntime :=
  MkRuntime postgresql_translateError postgresql_statementErrorInvalidatesTransaction
    (normalizeAffectedRows "PostgreSQL did not report affected row count").
Definition MysqlFamilyRuntime (b : BackendType) : BackendRuntime :=
  MkRuntime (mysql_translateError b) mysql_statementErrorInvalidatesTransaction
    (normalizeAffectedRows "MySQL-family affected-row count is unavailable").

Definition builtin_runtime (b : BackendType) : option BackendRuntime :=
  match b with
  | Sqlite => Some SqliteRuntime
  | Postgres => Some PostgresqlRuntime
  | Mysql | Mariadb => Some (MysqlFamilyRuntime b)
  | _ => None
  end.

(** ** Consistency *)

(** The limits that the check after a migration uses are those of the capabilities. *)
Lemma capabilities_valueLimits b c : builtin_capabilities b = Some c -> value_limits c = valueLimits b.
Proof. destruct b; intros [= <-]; vm_compute; reflexivity. Qed.
