(* ===== verification/Commands.v ===== *)
(** Commands: the statements that a dialect's command generator makes for a model and
    for its relations: src/database/DefaultCommandGenerator.cpp,
    defaults/RelationStatements.cpp, utils/StringUtils.cpp, CommandGeneratorFactory.cpp
    and the part of src/migrations/SchemaSnapshot.cpp that renders tables by a dialect. *)
From S2P Require Import Prelude Foundation Values Models Schema PhysicalSql Snapshot Dialect QueryValue Query Emitter Render Capabilities.
Local Open Scope string_scope.

(** ** Texts *)

(** The loop of [removeLastComma] from position [pos] down. *)
Fixpoint last_comma (pos : nat) (text : string) : nat :=
  match pos with
  | O => O
  | S pos' => if bool_decide (at_char text pos = ","%char) then pos else last_comma pos' text
  end.

Definition removeLastComma (text : string) : string :=
  if bool_decide (text = "") then text
  else
    let pos := last_comma (String.length text - 1) text in
    if bool_decide (at_char text pos = ","%char) then take_str pos text else text.

(** The position of a text in another, [std::string::find]. *)
Fixpoint find_text (needle text : string) : option nat :=
  if starts_with needle text then Some 0%nat
  else match text with "" => None | String _ text => S <$> find_text needle text end.

Definition insert_text (text : string) (position : nat) (piece : string) : string :=
  take_str position text +:+ piece +:+ drop_str position text.

(** ** Tables *)
Section tables.
Variable dialect : SqlDialect.

(** Whether the dialect is of the MySQL family, as the code tests it. *)
Definition innodb : bool := bool_decide (is_Some (find_text "ENGINE=InnoDB" (renderCreateTableSuffix dialect))).

Definition dialect_finish (t : PhysicalTable) : PhysicalTable := if innodb then foreignKeyIndexes t else t.

Definition dialect_physicalTable (model : ModelView) : res PhysicalTable :=
  dialect_finish <$> expandTable model (toSqlType dialect) innodb.

Definition dialect_physicalJunctions (model : ModelView) : res (list PhysicalTable) :=
  map dialect_finish <$> expandJunctions model (toSqlType dialect) innodb.

(** The constraint's name goes before [PRIMARY KEY]. *)
Definition nameAutoIncrement (result name : string) : res string :=
  match find_text "PRIMARY KEY" result with
  | Some position =>
      if negb (bool_decide (name = "")) && negb (bool_decide (name = "PRIMARY"))
      then q ← quoteIdentifier dialect name; Ok (insert_text result position ("CONSTRAINT " +:+ q +:+ " "))
      else Ok result
  | None => Ok result
  end.

Definition dialect_renderColumn (c : PhysicalColumn) (primary : bool) (name : string) : res string :=
  invalid_if (negb (validSqlType (sqlType_of c))) "Invalid frozen SQL column type" Empty (col_name c) ;;
  if autoIncrement c then
    result ← renderAutoIncrementPrimaryKey dialect (col_name c); nameAutoIncrement result name
  else
    q ← quoteIdentifier dialect (col_name c);
    check ← renderStringLengthConstraint dialect (col_name c) (maxStringLength c);
    Ok (q +:+ " " +:+ sqlType_of c
        +:+ (if nullable c && bool_decide (logicalType c = ColumnType.UtcTimestamp) && innodb then " NULL"
             else if nullable c then "" else " NOT NULL")
        +:+ check).

Definition dialect_renderCreateTable (t : PhysicalTable) (includeForeignKeys ifNotExists : bool) : res string :=
  prefix ← renderCreateTablePrefix dialect (table_name t) ifNotExists;
  createTableSql t prefix (renderCreateTableSuffix dialect) includeForeignKeys innodb
    (quoteIdentifier dialect) dialect_renderColumn.

(** ** [DefaultCommandGenerator] *)
Definition getInsertFields (names : list string) : res string :=
  removeLastComma <$> foldM (fun text name => q ← quoteIdentifier dialect name; Ok (text +:+ q +:+ ", ")) "" names.

Definition getInsertValues (names : list string) : res string :=
  removeLastComma <$> foldM (fun text name => m ← bindMarker dialect name; Ok (text +:+ m +:+ ", ")) "" names.

Definition getForeignModelIdsNames (foreignModelFieldName : string) (target : ModelDataView) : list string :=
  map (fun c => foreignModelFieldName +:+ "_" +:+ cv_name c) (List.filter cv_isPrimaryKey (mv_columns target)).

Definition addFieldNames (model : ModelView) (names : list string) (c : ColumnView) : res (list string) :=
  if bool_decide (cv_kind c = ToOne) then
    target ← or_throw (arrow (resolveColumnTarget model c))
               (LogicError "To-one relation target is not available in the schema");
    Ok (names ++ getForeignModelIdsNames (cv_name c) target)%list
  else if cv_isAutoIncrement c then Ok names
  else Ok (names ++ [cv_name c])%list.

Definition getFieldsNames (model : ModelView) (m : ModelDataView) : res (list string) :=
  foldM (addFieldNames model) [] (mv_columns m).

Definition insert (model : ModelView) : res string :=
  m ← deref model;
  names ← getFieldsNames model m;
  if bool_decide (length names = 0%nat) then renderDefaultInsert dialect (mv_tableName m)
  else
    table ← quoteIdentifier dialect (mv_tableName m);
    fields ← getInsertFields names;
    values ← getInsertValues names;
    Ok ("INSERT INTO " +:+ table +:+ " (" +:+ fields +:+ ") VALUES (" +:+ values +:+ ");").

Definition createTable (model : ModelView) : res string :=
  t ← dialect_physicalTable model; dialect_renderCreateTable t true true.

Definition dropTable (model : ModelView) : res string :=
  m ← deref model; renderDropTable dialect (mv_tableName m) true.

Definition select : ModelView -> SelectSpec -> res Statement := renderSelectStatement dialect.
Definition update : ModelView -> UpdateSpec -> res Statement := renderUpdateStatement dialect.
Definition remove : ModelView -> PredicateNode -> res Statement := renderRemoveStatement dialect.

(** ** Relation statements *)
Definition createTableStatements (owner : ModelView) : res (list string) :=
  ts ← dialect_physicalJunctions owner; mapM (fun t => dialect_renderCreateTable t true true) ts.

Definition dropTableStatements (owner : ModelView) : res (list string) :=
  m ← deref owner;
  mapM (fun r => renderDropTable dialect (jv_tableName (rv_junction r)) true)
    (List.filter ownsJunction (rev (mv_relations m))).

(** [getPrimaryKeyColumns] of modules/orm/database/payload.cppm. *)
Definition getPrimaryKeyColumns (m : ModelDataView) : res (list ColumnView) :=
  cs ← mapM (fun i =>
         c ← or_throw (mv_columns m !! N.to_nat i)
               (InvalidArgument "Primary-key descriptor points outside the model columns");
         throw_if (bool_decide (cv_kind c <> Scalar))
           (InvalidArgument "Relations with model-valued primary-key fields are not supported") ;;
         Ok c) (mv_primaryKeyIndices m);
  throw_if (bool_decide (length cs = 0%nat)) (InvalidArgument "Relation endpoint must define a non-empty primary key") ;;
  Ok cs.

Definition requireKeySize (key : PrimaryKey) (columns : list ColumnView) (endpoint : string) : res unit :=
  throw_if (negb (length key =? length columns)%nat)
    (InvalidArgument ("Incomplete " +:+ endpoint +:+ " relation primary key")).

Definition requireRelation (m : ModelDataView) (name : string) : res RelationView :=
  or_throw (findRelation m name) (InvalidArgument ("Unknown relation field: " +:+ name)).

Definition ownerName (i : nat) : string := "orm_rel_owner_" +:+ to_string (N.of_nat i).
Definition targetName (i : nat) : string := "orm_rel_target_" +:+ to_string (N.of_nat i).
Definition nullName (i : nat) : string := "orm_rel_null_" +:+ to_string (N.of_nat i).
Definition keyName (i j : nat) : string :=
  "orm_rel_key_" +:+ to_string (N.of_nat i) +:+ "_" +:+ to_string (N.of_nat j).

Definition value_parameter (name : string) (value : QueryValue) : StatementParameter :=
  MkParameter name (Some value) None.

(** [addValueParameter] for each part of a key, with the names that [name] gives. *)
Definition key_parameters (name : nat -> string) (key : PrimaryKey) : list StatementParameter :=
  imap (fun i value => value_parameter (name i) value) key.
Definition key_markers (name : nat -> string) (key : PrimaryKey) : res (list string) :=
  mapM (fun i => bindMarker dialect (name i)) (seq 0 (length key)).

(** Equalities of columns with the parts of a key, which are bound first. *)
Definition key_predicates (name : nat -> string) (columns : list string) (key : PrimaryKey) : res (list string) :=
  mapM (fun '(i, (column, _)) =>
    m ← bindMarker dialect (name i); q ← quoteIdentifier dialect column; Ok (q +:+ " = " +:+ m))
    (imap pair (zip columns key)).

(** What [linkStatement] and [unlinkStatement] check first. *)
Definition endpoints (owner : ModelView) (relation : RelationView) (ownerKey targetKey : PrimaryKey)
    : res (ModelDataView * list ColumnView * list ColumnView) :=
  m ← deref owner;
  ownerPrimaryKey ← getPrimaryKeyColumns m;
  target ← or_throw (arrow (resolveRelationTarget owner relation))
             (LogicError "Collection relation target is not available in the schema");
  targetPrimaryKey ← getPrimaryKeyColumns target;
  requireKeySize ownerKey ownerPrimaryKey "owner" ;;
  requireKeySize targetKey targetPrimaryKey "target" ;;
  Ok (target, ownerPrimaryKey, targetPrimaryKey).

Definition requireJunction (owner : ModelView) (relation : RelationView) (message : string) : res JunctionView :=
  let junction := resolveJunction owner relation in
  throw_if (negb (isConfigured junction)) (InvalidArgument message) ;; Ok junction.

Definition linkInsertSpec (owner : ModelView) (relation : RelationView) (ownerKey targetKey : PrimaryKey) : res InsertIfAbsentSpec :=
  target ← or_throw (if bool_decide (rv_kind relation = RelManyToMany) then arrow (resolveRelationTarget owner relation) else None)
             (InvalidArgument "Insert-if-absent requires a resolved many-to-many relation");
  junction ← requireJunction owner relation "Many-to-many relation has no junction mapping";
  m ← deref owner;
  ownerColumns ← getPrimaryKeyColumns m;
  requireKeySize ownerKey ownerColumns "owner" ;;
  targetColumns ← getPrimaryKeyColumns target;
  requireKeySize targetKey targetColumns "target" ;;
  throw_if (negb (length (jv_ownerColumns junction) =? length ownerKey)%nat
            || negb (length (jv_targetColumns junction) =? length targetKey)%nat)
    (InvalidArgument "Junction column count does not match endpoint primary keys") ;;
  let columns := (jv_ownerColumns junction ++ jv_targetColumns junction)%list in
  Ok (MkInsert (jv_tableName junction) columns
        (map (fun i => ":" +:+ ownerName i) (seq 0 (length ownerKey))
         ++ map (fun i => ":" +:+ targetName i) (seq 0 (length targetKey)))%list columns).

(** The column of the target's table that holds a part of the owner's key. *)
Definition local_column (mapped : RelationView) (c : ColumnView) : string := rv_columnName mapped +:+ "_" +:+ cv_name c.

(** One pass over the owner's key: the assignment and the test that it changes the row. *)
Definition link_column (mapped : RelationView) (item : nat * ColumnView) : res (string * string) :=
  let '(i, c) := item in
  q ← quoteIdentifier dialect (local_column mapped c);
  m ← bindMarker dialect (ownerName i);
  Ok (q +:+ " = " +:+ m, "(" +:+ q +:+ " IS NULL OR " +:+ q +:+ " != " +:+ m +:+ ")").

Definition linkStatement (owner : ModelView) (relation : RelationView) (ownerKey targetKey : PrimaryKey) : res Statement :=
  '(target, ownerPrimaryKey, targetPrimaryKey) ← endpoints owner relation ownerKey targetKey;
  let bound := (key_parameters ownerName ownerKey ++ key_parameters targetName targetKey)%list in
  if bool_decide (rv_kind relation = RelManyToMany) then
    requireJunction owner relation ("ManyToMany relation has no junction mapping: " +:+ rv_fieldName relation) ;;
    owners ← key_markers ownerName ownerKey;
    targets ← key_markers targetName targetKey;
    spec ← linkInsertSpec owner relation ownerKey targetKey;
    text ← renderInsertIfAbsent dialect
             (MkInsert (insert_table spec) (insert_columns spec) (owners ++ targets)%list (conflictColumns spec));
    Ok (MkStatement text bound)
  else
    throw_if (bool_decide (rv_kind relation <> RelOneToMany))
      (InvalidArgument ("link requires a collection relation: " +:+ rv_fieldName relation)) ;;
    mapped ← requireRelation target (rv_mappedBy relation);
    columns ← mapM (link_column mapped) (imap pair ownerPrimaryKey);
    targets ← key_predicates targetName (map cv_name targetPrimaryKey) targetKey;
    table ← quoteIdentifier dialect (mv_tableName target);
    Ok (MkStatement ("UPDATE " +:+ table +:+ " SET " +:+ join_nonempty ", " (columns.*1) +:+ " WHERE ("
                     +:+ join_nonempty " AND " targets +:+ ") AND (" +:+ join_nonempty " OR " (columns.*2) +:+ ");") bound).

(** One pass over the owner's key: the column is set to a null and compared with the key. *)
Record UnlinkColumn := MkUnlink { unlink_assignment : string; unlink_owner : string; unlink_parameters : list StatementParameter }.

Definition unlink_column (mapped : RelationView) (item : nat * (ColumnView * QueryValue)) : res UnlinkColumn :=
  let '(i, (c, value)) := item in
  q ← quoteIdentifier dialect (local_column mapped c);
  type ← or_throw (cv_type c) BadOptionalAccess;
  null ← bindMarker dialect (nullName i);
  m ← bindMarker dialect (ownerName i);
  Ok (MkUnlink (q +:+ " = " +:+ null) (q +:+ " = " +:+ m)
        [MkParameter (nullName i) None (Some type); value_parameter (ownerName i) value]).

Definition unlinkStatement (owner : ModelView) (relation : RelationView) (ownerKey targetKey : PrimaryKey) : res Statement :=
  '(target, ownerPrimaryKey, targetPrimaryKey) ← endpoints owner relation ownerKey targetKey;
  if bool_decide (rv_kind relation = RelManyToMany) then
    junction ← requireJunction owner relation ("ManyToMany relation has no junction mapping: " +:+ rv_fieldName relation);
    (* [junction.ownerColumns[i]] beyond its columns *)
    throw_if ((length (jv_ownerColumns junction) <? length ownerKey)%nat
              || (length (jv_targetColumns junction) <? length targetKey)%nat) Undefined ;;
    owners ← key_predicates ownerName (jv_ownerColumns junction) ownerKey;
    targets ← key_predicates targetName (jv_targetColumns junction) targetKey;
    table ← quoteIdentifier dialect (jv_tableName junction);
    Ok (MkStatement ("DELETE FROM " +:+ table +:+ " WHERE " +:+ join_nonempty " AND " (owners ++ targets)%list +:+ ";")
          (key_parameters ownerName ownerKey ++ key_parameters targetName targetKey)%list)
  else
    throw_if (bool_decide (rv_kind relation <> RelOneToMany))
      (InvalidArgument ("unlink requires a collection relation: " +:+ rv_fieldName relation)) ;;
    mapped ← requireRelation target (rv_mappedBy relation);
    throw_if (negb (rv_nullable mapped))
      (InvalidArgument ("Cannot unlink a non-nullable OneToMany relation: " +:+ rv_fieldName relation)) ;;
    columns ← mapM (unlink_column mapped) (imap pair (zip ownerPrimaryKey ownerKey));
    targets ← key_predicates targetName (map cv_name targetPrimaryKey) targetKey;
    table ← quoteIdentifier dialect (mv_tableName target);
    Ok (MkStatement ("UPDATE " +:+ table +:+ " SET " +:+ join_nonempty ", " (map unlink_assignment columns) +:+ " WHERE ("
                     +:+ join_nonempty " AND " targets +:+ ") AND (" +:+ join_nonempty " AND " (map unlink_owner columns) +:+ ");")
          (concat (map unlink_parameters columns) ++ key_parameters targetName targetKey)%list).

(** ** Collections of several owners *)
Definition terminator (c : ascii) : bool :=
  bool_decide (c = ";"%char) || bool_decide (c = " "%char) || bool_decide (c = LF) || bool_decide (c = CR).

Fixpoint skip_chars (f : ascii -> bool) (s : string) : string :=
  match s with
  | "" => ""
  | String c s' => if f c then skip_chars f s' else s
  end.

(** The loop pops the text's last character while it is one of these. *)
Definition stripTerminator (sql : string) : string := rev_str (skip_chars terminator (rev_str sql)).

Definition qualifiedIdentifier (qualifier identifier : string) : res string :=
  q ← quoteIdentifier dialect qualifier; i ← quoteIdentifier dialect identifier; Ok (q +:+ "." +:+ i).

Definition relationOwnerAlias (c : ColumnView) : string := "__orm_owner_" +:+ cv_name c.

(** The comparison with one owner's key. *)
Definition owner_predicate (expressions : list string) (item : nat * PrimaryKey) : res string :=
  let '(i, key) := item in
  throw_if (negb (length key =? length expressions)%nat) (InvalidArgument "Incomplete owner relation primary key") ;;
  columns ← mapM (fun '(j, e) => m ← bindMarker dialect (keyName i j); Ok (e +:+ " = " +:+ m)) (imap pair expressions);
  Ok ("(" +:+ join_nonempty " AND " columns +:+ ")").

Definition renderOwnerKeyFilter (expressions : list string) (keys : list PrimaryKey) : res string :=
  if bool_decide (length keys = 0%nat) then Ok "0 = 1"
  else
    predicates ← mapM (owner_predicate expressions) (imap pair keys);
    Ok ("(" +:+ join_nonempty " OR " predicates +:+ ")").

Definition filter_parameters (keys : list PrimaryKey) : list StatementParameter :=
  concat (imap (fun i key => key_parameters (keyName i) key) keys).

(** An expression and the field that selects it as the owner's column. *)
Definition owner_field (qualifier : string) (item : string * ColumnView) : res (string * string) :=
  e ← qualifiedIdentifier qualifier item.1;
  alias ← quoteIdentifier dialect (relationOwnerAlias item.2);
  Ok (e, e +:+ " AS " +:+ alias).

Definition target_join (target : ModelDataView) (item : ColumnView * string) : res string :=
  l ← qualifiedIdentifier "orm_relation_target" (mv_tableName target +:+ "_" +:+ cv_name item.1);
  r ← qualifiedIdentifier "orm_relation_junction" item.2;
  Ok (l +:+ " = " +:+ r).

Definition mapped_alias (target : ModelDataView) (mapped : RelationView) (joinedValues : bool) (c : ColumnView) : string :=
  (if joinedValues then "" else mv_tableName target +:+ "_") +:+ rv_columnName mapped +:+ "_" +:+ cv_name c.

Definition collectionSelectStatement (owner : ModelView) (relation : RelationView) (targetSelectSql : string)
    (ownerKeys : list PrimaryKey) (joinedValues : bool) : res Statement :=
  m ← deref owner;
  ownerPrimaryKey ← getPrimaryKeyColumns m;
  target ← or_throw (arrow (resolveRelationTarget owner relation))
             (LogicError "Collection relation target is not available in the schema");
  targetPrimaryKey ← getPrimaryKeyColumns target;
  let inner := stripTerminator targetSelectSql in
  targetAlias ← quoteIdentifier dialect "orm_relation_target";
  junctionAlias ← quoteIdentifier dialect "orm_relation_junction";
  if bool_decide (rv_kind relation = RelOneToMany) then
    mapped ← requireRelation target (rv_mappedBy relation);
    fields ← mapM (owner_field "orm_relation_target")
               (map (fun c => (mapped_alias target mapped joinedValues c, c)) ownerPrimaryKey);
    where_ ← renderOwnerKeyFilter (fields.*1) ownerKeys;
    Ok (MkStatement ("SELECT " +:+ join_nonempty ", " (fields.*2) +:+ ", " +:+ targetAlias +:+ ".* FROM (" +:+ inner
                     +:+ ") AS " +:+ targetAlias +:+ " WHERE " +:+ where_ +:+ ";") (filter_parameters ownerKeys))
  else
    let junction := resolveJunction owner relation in
    throw_if (bool_decide (rv_kind relation <> RelManyToMany) || negb (isConfigured junction))
      (InvalidArgument ("include requires a collection relation: " +:+ rv_fieldName relation)) ;;
    throw_if (negb (length (jv_ownerColumns junction) =? length ownerPrimaryKey)%nat
              || negb (length (jv_targetColumns junction) =? length targetPrimaryKey)%nat)
      (InvalidArgument ("Junction column count does not match endpoint primary keys: " +:+ jv_tableName junction)) ;;
    fields ← mapM (owner_field "orm_relation_junction") (zip (jv_ownerColumns junction) ownerPrimaryKey);
    joins ← mapM (target_join target) (zip targetPrimaryKey (jv_targetColumns junction));
    where_ ← renderOwnerKeyFilter (fields.*1) ownerKeys;
    table ← quoteIdentifier dialect (jv_tableName junction);
    Ok (MkStatement ("SELECT " +:+ join_nonempty ", " (fields.*2) +:+ ", " +:+ targetAlias +:+ ".* FROM " +:+ table
                     +:+ " AS " +:+ junctionAlias +:+ " JOIN (" +:+ inner +:+ ") AS " +:+ targetAlias +:+ " ON "
                     +:+ join_nonempty " AND " joins +:+ " WHERE " +:+ where_ +:+ ";") (filter_parameters ownerKeys)).
End tables.

(** ** [CommandGeneratorFactory] *)

(** [BackendProvider]: what a backend says of itself, its dialect and its run time; the
    command generator is made of the dialect. *)
Record BackendProvider := MkProvider {
  provider_type : BackendType;
  provider_capabilities : BackendCapabilities;
  provider_dialect : SqlDialect;
  provider_runtime : BackendRuntime
}.
Definition Factory := BackendMap.t BackendProvider.

(** A null provider is [None]. *)
Definition registerBackend (f : Factory) (backend : option BackendProvider) : res Factory :=
  p ← or_throw backend (InvalidArgument "Cannot register a null backend");
  throw_if (bool_decide (provider_type p = Empty))
    (InvalidArgument "BackendType::Empty is reserved for disconnected databases") ;;
  throw_if (BackendMap.contains (provider_type p) f) (InvalidArgument "Backend is already registered") ;;
  Ok (BackendMap.emplace (provider_type p) p f).

Definition registerBackends (providers : list (option BackendProvider)) : res Factory := foldM registerBackend [] providers.

Definition getBackend (f : Factory) (b : BackendType) : res BackendProvider := BackendMap.at_ f b.
