(* ===== verification/Generators.v ===== *)
(** Generators: what the command generator's statements promise: the tables it creates
    are the frozen DDL of the model's physical tables, its INSERT names their columns,
    its relation statements bind the keys they are given, and a factory holds each
    registered backend once. *)
From S2P Require Import Prelude Foundation Values Models Schema PhysicalSql Snapshot Dialect QueryValue Query Emitter Render Direct Commands.
Local Open Scope string_scope.

(** ** Results that persist *)

(** [y] returns whatever [x] returns. *)
Definition within {A} (x y : res A) : Prop := forall a, x = Ok a -> y = Ok a.

Lemma within_refl {A} (x : res A) : within x x.
Proof. by intros a. Qed.

Lemma within_Ok {A} (a : A) y : within (Ok a) y <-> y = Ok a.
Proof. split; [intros Hw; by apply Hw|intros -> b; done]. Qed.

Lemma within_bind {A B} (x y : res A) (k l : A -> res B) :
  within x y -> (forall a, x = Ok a -> within (k a) (l a)) -> within (x ≫= k) (y ≫= l).
Proof.
  intros Hxy Hkl b Hb. apply bind_Ok_iff in Hb as (a & Ha & Hb). rewrite (Hxy a Ha). by apply Hkl.
Qed.

Lemma within_mapM {A B} (f g : A -> res B) l :
  (forall x, x ∈ l -> within (f x) (g x)) -> within (mapM f l) (mapM g l).
Proof.
  induction l as [|x l IH]; intros Hfg; [apply within_refl|]. cbn [mapM].
  apply within_bind; [apply Hfg; left|]. intros y _.
  apply within_bind; [apply IH; intros z Hz; apply Hfg; by right|]. intros k _. apply within_refl.
Qed.

Lemma within_foldM {A S} (f g : S -> A -> res S) l s :
  (forall s x, within (f s x) (g s x)) -> within (foldM f s l) (foldM g s l).
Proof.
  intros Hfg. revert s. induction l as [|x l IH]; intros s; [apply within_refl|]. cbn [foldM].
  apply within_bind; [apply Hfg|]. intros t _. apply IH.
Qed.

Lemma within_fmap {A B} (f : A -> B) x y : within x y -> within (f <$> x) (f <$> y).
Proof. intros Hxy b (a & Ha & ->)%fmap_Ok_iff. by rewrite (Hxy a Ha). Qed.

(** A step that is the same on both sides. *)
Ltac same_step := apply within_bind; [apply within_refl|intros ? ?].

(** ** Types and quoting: the frozen and the dialect's *)
Lemma flavor_delimiter b flavor : flavor_of b = Some flavor -> quote_char flavor = delimiter b.
Proof. by destruct b; intros [= <-]. Qed.

Lemma builtin_supported b d : builtin_dialect b = Some d -> supported b = true.
Proof. by destruct b. Qed.

(** The dialect quotes fewer identifiers, each like the frozen DDL. *)
Lemma quote_within flavor b name :
  flavor_of b = Some flavor -> within (quoteStandardIdentifier name flavor) (PhysicalSql.quoteIdentifier b name).
Proof.
  intros Hf q Hq. unfold quoteStandardIdentifier in Hq. result_inv. bool_to_prop.
  rewrite (flavor_delimiter _ _ Hf) in Hq. apply quoteIdentifier_Ok_iff. split; [by destruct b|]. split; [|done].
  unfold validName. rewrite bool_decide_false by done. by rewrite Hok0.
Qed.

Lemma dialect_quote_within b d name :
  builtin_dialect b = Some d -> within (quoteIdentifier d name) (PhysicalSql.quoteIdentifier b name).
Proof. destruct b; intros [= <-]; by apply quote_within. Qed.

(** The frozen DDL has fewer types, each the dialect's. *)
Lemma family_type_within b type length s :
  family b = true -> badLength b type length = false -> familySqlType b type length = Some s ->
  type <> ColumnType.Uuid -> mysql_family.sqlType type length = Ok s.
Proof.
  intros Hf Hbad Hs Hu. destruct type; try done; try (by injection Hs as <-). simpl in *.
  destruct length as [n|]; [|by injection Hs as <-]. simpl in Hbad. rewrite Hf, andb_true_l in Hbad. bool_to_prop.
  rewrite (proj2 (N.eqb_neq n 0)), (proj2 (N.ltb_ge 16383 n)) by lia. by injection Hs as <-.
Qed.

Lemma type_within b d type length :
  builtin_dialect b = Some d -> within (sqlType b type length) (toSqlType d type length).
Proof.
  intros Hd s Hs. unfold sqlType in Hs. apply seq_Ok_iff in Hs as [_ Hs].
  apply seq_Ok_iff in Hs as [Hbad%invalid_if_Ok_iff Hs].
  destruct b; simplify_eq; injection Hd as <-; simpl in Hs; simpl.
  - by destruct type.
  - by destruct type, length.
  - destruct (familySqlType Mysql type length) as [s'|] eqn:Ht; [|done]. injection Hs as <-.
    apply (family_type_within Mysql); [done..|]. intros ->. done.
  - destruct (familySqlType Mariadb type length) as [s'|] eqn:Ht; [|done]. injection Hs as <-.
    unfold mariadb_toSqlType. case_bool_decide as Hu; [by subst; injection Ht as <-|].
    by apply (family_type_within Mariadb).
Qed.

Lemma innodb_family b d : builtin_dialect b = Some d -> innodb d = family b.
Proof. destruct b; intros [= <-]; vm_compute; reflexivity. Qed.

(** ** Tables *)
Section expansion.
Context (f g : ColumnType -> option N -> res string).
Hypothesis resolve_within : forall type length, within (f type length) (g type length).

Lemma scalarColumn_within name c nl : within (scalarColumn name c nl f) (scalarColumn name c nl g).
Proof.
  unfold scalarColumn. destruct (cv_type c) as [type|]; [|apply within_refl].
  apply within_bind; [apply resolve_within|]. intros s _. apply within_refl.
Qed.

Lemma expandTable_within model my : within (expandTable model f my) (expandTable model g my).
Proof.
  unfold expandTable. destruct (arrow model) as [m|]; [|apply within_refl]. same_step.
  apply within_foldM. intros t c. unfold expandColumn. case_bool_decide.
  - apply within_bind; [apply scalarColumn_within|]. intros p _. apply within_refl.
  - destruct (arrow (resolveColumnTarget model c)) as [target|]; [|apply within_refl].
    do 2 same_step. apply within_bind; [|intros; apply within_refl].
    apply within_foldM. intros st key. unfold expandReference.
    apply within_bind; [apply scalarColumn_within|]. intros p _. apply within_refl.
Qed.
End expansion.

(** The options do not matter before the end of the statement. *)
Lemma add_support_options o t k : add_support (with_options o t) k = with_options o (add_support t k).
Proof. unfold add_support, supported_by. simpl. by destruct (_ || _). Qed.

Lemma foreignKeyIndexes_options o t : foreignKeyIndexes (with_options o t) = with_options o (foreignKeyIndexes t).
Proof.
  unfold foreignKeyIndexes. simpl foreignKeys. generalize (merge_sort key_le (foreignKeys t)) as keys.
  intros keys. revert t. induction keys as [|k keys IH]; intros t; [done|]. simpl. by rewrite add_support_options, IH.
Qed.

(** A model's table as the dialect sees it has the frozen table's parts. *)
Lemma dialect_table b d model t :
  builtin_dialect b = Some d -> physicalTable model b = Ok t ->
  exists u, dialect_physicalTable d model = Ok u /\ t = with_options (tableOptions b) u /\
    model_table (sqlType b) (family b) model t.
Proof.
  intros Hd Ht. pose proof (proj1 (physicalTable_Ok _ _ _ Ht)) as Hm. unfold physicalTable in Ht.
  apply seq_Ok_iff in Ht as [_ Ht]. apply bind_Ok_iff in Ht as (u & Hu & Ht). injection Ht as <-.
  unfold dialect_physicalTable. rewrite (innodb_family _ _ Hd).
  rewrite (expandTable_within _ _ (fun type length => type_within b d type length Hd) _ _ _ Hu).
  exists (dialect_finish d u). split; [done|]. split; [|done]. unfold finishTable, dialect_finish. rewrite (innodb_family _ _ Hd).
  destruct (family b); [apply foreignKeyIndexes_options|done].
Qed.

(** The columns of a model's table have the types that the backend gives them. *)
Lemma expands_types model resolve name c g p :
  expands model resolve name c g -> p ∈ g.1 -> resolve (logicalType p) (maxStringLength p) = Ok (sqlType_of p).
Proof.
  unfold expands. destruct (cv_kind c).
  - intros (q & -> & _ & _ & Hr & Hl & _) ->%list_elem_of_singleton. by rewrite Hl.
  - intros (k & _ & target & keys & _ & _ & _ & _ & _ & _ & Hcols & _) Hp.
    apply list_elem_of_lookup in Hp as [i Hi]. destruct (Forall2_lookup_r _ _ _ _ _ Hcols Hi) as (key & _ & _ & _ & Hr & Hl & _).
    by rewrite Hl.
Qed.

Lemma model_table_types resolve my model t p :
  model_table resolve my model t -> p ∈ columns t -> resolve (logicalType p) (maxStringLength p) = Ok (sqlType_of p).
Proof.
  intros (m & keys & groups & _ & _ & _ & _ & _ & Hg & -> & _) Hp.
  apply list_elem_of_In, in_concat in Hp as (g & (gr & <- & Hgr)%in_map_iff & Hp).
  apply list_elem_of_In, list_elem_of_lookup in Hgr as [i Hi]. apply list_elem_of_In in Hp.
  destruct (Forall2_lookup_r _ _ _ _ _ Hg Hi) as (c & _ & Hc). by eapply expands_types.
Qed.

(** ** The name of an auto-increment key *)
Definition shift (n : nat) (position : option nat) : option nat := Nat.add n <$> position.

Lemma find_text_cons needle c text :
  starts_with needle (String c text) = false -> find_text needle (String c text) = shift 1 (find_text needle text).
Proof. intros Hs. cbn [find_text]. rewrite Hs. by destruct (find_text needle text). Qed.

Lemma shift_shift m n p : shift m (shift n p) = shift (m + n) p.
Proof. destruct p; simpl; [|done]. unfold shift. simpl. f_equal. lia. Qed.

(** A text without the delimiter is not found across the end of a quoted name. *)
Lemma starts_with_quoted d needle name rest :
  contains_char d needle = false -> needle <> "" ->
  starts_with needle (concat_map (double_char d) name +:+ String d rest) = true -> starts_with needle name = true.
Proof.
  revert name. induction needle as [|a needle IH]; intros name Hd Hne; [done|].
  unfold contains_char in Hd. simpl in Hd. apply orb_false_iff in Hd as [Ha Hd]. apply bool_decide_eq_false in Ha.
  destruct name as [|c name]; cbn [concat_map String.append starts_with]; [intros Hs; by bool_to_prop|].
  unfold double_char at 1. case_bool_decide as Hc; simpl; intros Hs; bool_to_prop; subst; [done|].
  rewrite bool_decide_true by done. destruct needle as [|a' needle]; [done|]. by apply IH.
Qed.

Lemma find_text_quoted d needle name rest :
  contains_char d needle = false -> needle <> "" -> find_text needle name = None ->
  find_text needle (concat_map (double_char d) name +:+ String d rest)
  = shift (S (String.length (concat_map (double_char d) name))) (find_text needle rest).
Proof.
  intros Hd Hne. assert (Hstart : forall text, starts_with needle (String d text) = false).
  { intros text. destruct needle as [|a needle]; [done|]. unfold contains_char in Hd. simpl in *.
    apply orb_false_iff in Hd as [Ha _]. by rewrite Ha. }
  induction name as [|c name IH]; intros Hnone.
  - cbn [concat_map String.append String.length]. by apply find_text_cons.
  - assert (Hhead : starts_with needle (concat_map (double_char d) (String c name) +:+ String d rest) = false).
    { destruct (starts_with needle (_ +:+ _)) eqn:Hs; [|done]. apply starts_with_quoted in Hs; [|done..].
      cbn [find_text] in Hnone. by rewrite Hs in Hnone. }
    assert (Hname : find_text needle name = None).
    { cbn [find_text] in Hnone. destruct (starts_with needle (String c name)); [done|]. by destruct (find_text needle name). }
    specialize (IH Hname). cbn [concat_map] in *. unfold double_char at 1 3. unfold double_char at 1 in Hhead.
    case_bool_decide as Hc; cbn [String.append String.length] in *.
    + rewrite find_text_cons by done. subst c. rewrite find_text_cons by apply Hstart. rewrite IH, !shift_shift. f_equal.
    + rewrite find_text_cons by done. rewrite IH, shift_shift. f_equal.
Qed.

Lemma take_str_add s t n : take_str (String.length s + n) (s +:+ t) = s +:+ take_str n t.
Proof. induction s as [|c s IH]; simpl; [done|]. by rewrite IH. Qed.

Lemma insert_text_app s t n piece : insert_text (s +:+ t) (String.length s + n) piece = s +:+ insert_text t n piece.
Proof. unfold insert_text. by rewrite drop_str_add, drop_str_app, take_str_add, app_str_assoc. Qed.

Lemma insert_text_nil s n : insert_text s n "" = s.
Proof. unfold insert_text. simpl. revert n. induction s as [|c s IH]; intros [|n]; simpl; [done..|]. by rewrite IH. Qed.

(** ** Columns *)
Section columns.
Variables (b : BackendType) (d : SqlDialect).
Hypothesis builtin : builtin_dialect b = Some d.

(** The first ["PRIMARY KEY"] of an auto-increment column is the constraint's. *)
Lemma nameAutoIncrement_quoted name definition position key q s :
  PhysicalSql.quoteIdentifier b name = Ok q ->
  find_text "PRIMARY KEY" name = None -> find_text "PRIMARY KEY" definition = Some position ->
  nameAutoIncrement d (q +:+ definition) key = Ok s ->
  exists constraint,
    (if negb (bool_decide (key = "")) && negb (bool_decide (key = "PRIMARY"))
     then p ← PhysicalSql.quoteIdentifier b key; Ok ("CONSTRAINT " +:+ p +:+ " ") else Ok "") = Ok constraint /\
    s = q +:+ insert_text definition position constraint.
Proof.
  intros Hq Hname Hdef Hs. apply quoteIdentifier_Ok_iff in Hq as (_ & _ & ->).
  assert (Hfind : find_text "PRIMARY KEY" (String (delimiter b) (concat_map (double_char (delimiter b)) name +:+ String (delimiter b) "") +:+ definition)
     = Some (String.length (String (delimiter b) (concat_map (double_char (delimiter b)) name +:+ String (delimiter b) "")) + position)%nat).
  { cbn [String.append]. rewrite app_str_assoc. cbn [String.append].
    rewrite find_text_cons by (by destruct b). rewrite find_text_quoted by (by destruct b || done).
    rewrite Hdef, shift_shift. simpl. rewrite length_app_str. simpl. f_equal. lia. }
  unfold nameAutoIncrement in Hs. rewrite Hfind in Hs.
  destruct (negb (bool_decide (key = "")) && negb (bool_decide (key = "PRIMARY"))).
  - apply bind_Ok_iff in Hs as (p & Hp & Hs). apply Ok_inj in Hs.
    rewrite (dialect_quote_within _ _ _ builtin _ Hp). eexists. split; [reflexivity|]. rewrite <- Hs. apply insert_text_app.
  - apply Ok_inj in Hs as <-. eexists. split; [reflexivity|]. by rewrite insert_text_nil.
Qed.

Lemma check_within c :
  within (renderStringLengthConstraint d (col_name c) (maxStringLength c))
    (match maxStringLength c with
     | Some n =>
         if bool_decide (b = Sqlite)
         then q ← PhysicalSql.quoteIdentifier b (col_name c);
              Ok (" CHECK (length(replace(" +:+ q +:+ ", char(0), char(1))) <= " +:+ to_string n +:+ ")")
         else Ok ""
     | None => Ok ""
     end).
Proof.
  intros s Hs. destruct (maxStringLength c) as [n|]; [|by destruct b; simplify_eq; injection builtin as <-].
  destruct b; simplify_eq; injection builtin as <-; try exact Hs. simpl in Hs.
  apply bind_Ok_iff in Hs as (q & Hq & Hs). rewrite bool_decide_true by done.
  by rewrite (dialect_quote_within Sqlite SqliteDialect _ eq_refl _ Hq).
Qed.

(** A column that is not the auto-increment key. *)
Lemma plain_column_within c key :
  autoIncrement c = false -> within (dialect_renderColumn d c false key) (PhysicalSql.renderColumn b c false key).
Proof.
  intros Hauto s Hs. unfold dialect_renderColumn in Hs. apply seq_Ok_iff in Hs as [Hvalid%invalid_if_Ok_iff Hs].
  rewrite Hauto in Hs. apply bind_Ok_iff in Hs as (q & Hq & Hs). apply bind_Ok_iff in Hs as (check & Hcheck & Hs).
  apply dialect_quote_within with (b := b) in Hq; [|done]. apply check_within in Hcheck. apply Ok_inj in Hs.
  unfold PhysicalSql.renderColumn. unfold requireBackend. rewrite (builtin_supported _ _ builtin). cbn [negb invalid_if mbind result_bind].
  rewrite Hvalid. cbn [invalid_if mbind result_bind]. rewrite Hq. cbn [mbind result_bind]. rewrite Hauto. cbn [mbind result_bind andb negb].
  rewrite (innodb_family _ _ builtin) in Hs. rewrite Hq in Hcheck. subst s. f_equal.
  assert (Hc : forall text, match maxStringLength c with
     | Some n => if bool_decide (b = Sqlite)
                 then text +:+ " CHECK (length(replace(" +:+ q +:+ ", char(0), char(1))) <= " +:+ to_string n +:+ ")" else text
     | None => text end = text +:+ check).
  { intros text. destruct (maxStringLength c); [|injection Hcheck as <-; by rewrite app_str_nil_r].
    case_bool_decide; [by injection Hcheck as <-|injection Hcheck as <-; by rewrite app_str_nil_r]. }
  rewrite Hc. destruct (nullable c); simpl.
  - rewrite !app_str_assoc. simpl. destruct (family b), (bool_decide (logicalType c = ColumnType.UtcTimestamp)); simpl;
      repeat (rewrite app_str_assoc; simpl); done.
  - by rewrite !app_str_assoc.
Qed.

(** The auto-increment key, which the frozen DDL renders as a column. *)
Lemma auto_column_within c key :
  autoIncrement c = true -> nullable c = false -> logicalType c = ColumnType.Int ->
  sqlType b (logicalType c) (maxStringLength c) = Ok (sqlType_of c) ->
  b <> Postgres -> find_text "PRIMARY KEY" (col_name c) = None ->
  within (dialect_renderColumn d c true key) (PhysicalSql.renderColumn b c true key).
Proof.
  intros Hauto Hnull Hint Htype Hb Hname s Hs. unfold dialect_renderColumn in Hs.
  apply seq_Ok_iff in Hs as [Hvalid%invalid_if_Ok_iff Hs]. rewrite Hauto in Hs.
  apply bind_Ok_iff in Hs as (text & Htext & Hs).
  assert (Hlen : maxStringLength c = None).
  { rewrite Hint in Htype. unfold sqlType in Htype. apply seq_Ok_iff in Htype as [_ Htype].
    apply seq_Ok_iff in Htype as [Hbad%invalid_if_Ok_iff _]. by destruct (maxStringLength c). }
  rewrite Hint, Hlen in Htype.
  assert (exists q, PhysicalSql.quoteIdentifier b (col_name c) = Ok q /\
            text = q +:+ (if family b then " INT NOT NULL AUTO_INCREMENT PRIMARY KEY" else " INTEGER PRIMARY KEY AUTOINCREMENT"))
    as (q & Hq & ->).
  { destruct b; simplify_eq; injection builtin as <-; simpl in Htext; unfold autoIncrementPrimaryKey in Htext;
      apply bind_Ok_iff in Htext as (q & Hq & Htext); exists q; (split; [by eapply quote_within|]); by apply Ok_inj in Htext. }
  apply (nameAutoIncrement_quoted _ _ (if family b then 29 else 9)%nat _ _ _ Hq Hname) in Hs as (constraint & Hconstraint & ->);
    [|by destruct (family b)].
  unfold PhysicalSql.renderColumn, requireBackend. rewrite (builtin_supported _ _ builtin), Hvalid. cbn [negb invalid_if mbind result_bind].
  rewrite Hq. cbn [mbind result_bind]. rewrite Hauto, Hnull, Hint, Hlen.
  destruct (negb (bool_decide (key = "")) && negb (bool_decide (key = "PRIMARY")));
    [apply bind_Ok_iff in Hconstraint as (p & Hp & Hconstraint); rewrite Hp|]; apply Ok_inj in Hconstraint as <-;
    destruct b; simplify_eq; simpl in Htype; injection Htype as <-; simpl;
    unfold insert_text; simpl; by repeat (rewrite app_str_assoc; simpl).
Qed.
End columns.

(** ** Whole tables *)
Section create.
Variables (f g : string -> res string) (r r' : PhysicalColumn -> bool -> string -> res string) (t : PhysicalTable).
Hypothesis quote_ok : forall name, within (f name) (g name).

Lemma quotedList_within names : within (quotedList names f) (quotedList names g).
Proof.
  apply within_foldM. intros s name. apply within_bind; [apply quote_ok|]. intros q _. apply within_refl.
Qed.

Lemma foreignKeySql_within k : within (foreignKeySql k f) (foreignKeySql k g).
Proof.
  unfold foreignKeySql. same_step. apply within_bind; [apply quote_ok|intros ? _].
  apply within_bind; [apply quotedList_within|intros ? _]. apply within_bind; [apply quote_ok|intros ? _].
  apply within_bind; [apply quotedList_within|intros ? _]. apply within_refl.
Qed.

Lemma createTableSql_within prefix suffix fks ixs :
  (forall c, c ∈ columns t -> badAutoIncrement t c = false ->
     within (r c (autoIncrement c) (primaryKeyName t)) (r' c (autoIncrement c) (primaryKeyName t))) ->
  within (createTableSql t prefix suffix fks ixs f r) (createTableSql t prefix suffix fks ixs g r').
Proof.
  intros Hcolumns. unfold createTableSql. same_step. apply within_bind.
  { apply within_mapM. intros c Hc. apply within_bind; [apply within_refl|]. intros u Hbad%invalid_if_Ok_iff. by apply Hcolumns. }
  intros definitions _. apply within_bind.
  { destruct (negb (bool_decide (primaryKey t = [])) && negb (existsb autoIncrement (columns t))); [|apply within_refl].
    apply within_bind; [|intros ? _; apply within_refl]. unfold primaryDefinition.
    apply within_bind; [destruct (bool_decide (primaryKeyName t = "PRIMARY")); [apply within_refl|];
      apply within_bind; [apply quote_ok|intros ? _; apply within_refl]|].
    intros ? _. apply within_bind; [apply quotedList_within|intros ? _; apply within_refl]. }
  intros primary _. apply within_bind.
  { destruct ixs; [|apply within_refl]. apply within_mapM. intros i _. unfold indexDefinition.
    apply within_bind; [apply quote_ok|intros ? _]. apply within_bind; [apply quotedList_within|intros ? _; apply within_refl]. }
  intros indexes _. apply within_bind; [|intros ? _; apply within_refl].
  destruct fks; [|apply within_refl]. apply within_mapM. intros k _. apply foreignKeySql_within.
Qed.
End create.

Lemma builtin_suffix b d :
  builtin_dialect b = Some d ->
  renderCreateTableSuffix d
  = newline +:+ ")" +:+ (if bool_decide (tableOptions b = "") then "" else " " +:+ tableOptions b) +:+ ";".
Proof. by destruct b; intros [= <-]. Qed.

Lemma builtin_prefix b d name ifNotExists s :
  builtin_dialect b = Some d -> renderCreateTablePrefix d name ifNotExists = Ok s ->
  exists q, PhysicalSql.quoteIdentifier b name = Ok q /\
    s = "CREATE TABLE " +:+ (if ifNotExists then "IF NOT EXISTS " else "") +:+ q +:+ " (".
Proof.
  intros Hd Hs.
  assert (createTablePrefix (match b with Sqlite => SQLite | Postgres => PostgreSQL | _ => MySQLFamily end) name ifNotExists = Ok s) as Hp.
  { destruct b; simplify_eq; by injection Hd as <-. }
  apply bind_Ok_iff in Hp as (q & Hq & Hp). apply Ok_inj in Hp as <-. exists q. split; [|done].
  eapply quote_within; [|exact Hq]. by destruct b.
Qed.

Lemma createTableSql_options o t prefix suffix fks ixs quote r :
  createTableSql (with_options o t) prefix suffix fks ixs quote r = createTableSql t prefix suffix fks ixs quote r.
Proof. done. Qed.

(** Column names without the words that name the constraint, and no generated keys on
    PostgreSQL, whose frozen DDL also says [NOT NULL]. *)
Definition plain_keys (b : BackendType) (t : PhysicalTable) : Prop :=
  forall c, c ∈ columns t -> autoIncrement c = true ->
    b <> Postgres /\ find_text "PRIMARY KEY" (col_name c) = None.

Lemma createTable_frozen b d model t s :
  builtin_dialect b = Some d -> physicalTable model b = Ok t -> plain_keys b t ->
  createTable d model = Ok s -> PhysicalSql.renderCreateTable b t true true = Ok s.
Proof.
  intros Hd Ht Hkeys Hs. destruct (dialect_table _ _ _ _ Hd Ht) as (u & Hu & -> & Hm).
  unfold createTable in Hs. rewrite Hu in Hs. unfold dialect_renderCreateTable in Hs.
  apply bind_Ok_iff in Hs as (? & [= <-] & Hs).
  apply bind_Ok_iff in Hs as (prefix & Hprefix & Hs). apply (builtin_prefix b) in Hprefix as (q & Hq & ->); [|done].
  unfold PhysicalSql.renderCreateTable, requireBackend. rewrite (builtin_supported _ _ Hd). cbn [negb invalid_if mbind result_bind].
  simpl table_name. rewrite Hq. cbn [mbind result_bind]. rewrite createTableSql_options. simpl options.
  rewrite (builtin_suffix _ _ Hd), (innodb_family _ _ Hd) in Hs.
  refine (createTableSql_within _ _ _ _ _ _ _ _ _ _ _ _ Hs); [intros name; by apply dialect_quote_within|].
  intros c Hc Hbad. pose proof (model_table_types _ _ _ _ c Hm Hc) as Htype.
  destruct (autoIncrement c) eqn:Hauto; [|by apply plain_column_within].
  destruct (Hkeys c Hc Hauto) as [Hb Hname]. unfold badAutoIncrement in Hbad. rewrite Hauto in Hbad. simpl in Hbad. bool_to_prop.
  apply auto_column_within; try done. by apply dec_stable.
Qed.

(** ** INSERT *)

(** The model's key indices are those of its key columns. *)
Definition keys_consistent (m : ModelDataView) : Prop :=
  forall keys, keyColumns m = Ok keys -> keys = List.filter cv_isPrimaryKey (mv_columns m).

Definition bound_names (ps : list PhysicalColumn) : list string :=
  map col_name (List.filter (fun p => negb (autoIncrement p)) ps).

Lemma bound_names_app ps qs : bound_names (ps ++ qs) = (bound_names ps ++ bound_names qs)%list.
Proof. unfold bound_names. by rewrite List.filter_app, map_app. Qed.

Lemma addFieldNames_expands model resolve name c g names :
  expands model resolve name c g ->
  (forall target, arrow (resolveColumnTarget model c) = Some target -> keys_consistent target) ->
  addFieldNames model names c = Ok (names ++ bound_names g.1)%list.
Proof.
  unfold expands, addFieldNames. intros Hc Hkeys. destruct (cv_kind c); decide_tests.
  - destruct Hc as (p & -> & Hn & _ & _ & _ & _ & Ha). unfold bound_names. simpl. rewrite Ha.
    destruct (cv_isAutoIncrement c); simpl; [by rewrite app_nil_r|by rewrite Hn].
  - destruct Hc as (k & _ & target & keys & Htarget & Hk & _ & _ & _ & _ & Hcols & _).
    rewrite Htarget. simpl. do 2 f_equal. unfold getForeignModelIdsNames, bound_names.
    rewrite <- (Hkeys target Htarget keys Hk). clear -Hcols.
    induction Hcols as [|key p keys ps (Hn & _ & _ & _ & _ & Ha) _ IH]; [done|].
    cbn [map List.filter]. rewrite Ha. cbn [negb map]. by rewrite IH, Hn.
Qed.

Lemma addFieldsNames_expands model resolve name cs groups names :
  Forall2 (expands model resolve name) cs groups ->
  (forall c target, c ∈ cs -> arrow (resolveColumnTarget model c) = Some target -> keys_consistent target) ->
  foldM (addFieldNames model) names cs = Ok (names ++ bound_names (concat (map fst groups)))%list.
Proof.
  intros Hg. revert names. induction Hg as [|c g cs groups Hc Hcs IH]; intros names Hkeys; simpl; [by rewrite app_nil_r|].
  rewrite (addFieldNames_expands _ _ _ _ _ _ Hc) by (intros; eapply Hkeys; [left|done]).
  rewrite bind_Ok, IH by (intros; eapply Hkeys; [by right|done]). by rewrite bound_names_app, app_assoc.
Qed.

Lemma getFieldsNames_columns b model m t :
  physicalTable model b = Ok t -> arrow model = Some m ->
  (forall c target, c ∈ mv_columns m -> arrow (resolveColumnTarget model c) = Some target -> keys_consistent target) ->
  getFieldsNames model m = Ok (bound_names (columns t)).
Proof.
  intros (Hm & _)%physicalTable_Ok Hmodel Hkeys. destruct Hm as (m' & keys & groups & Hm' & _ & _ & _ & _ & Hg & -> & _).
  rewrite Hmodel in Hm'. injection Hm' as <-. by apply (addFieldsNames_expands _ _ _ _ _ [] Hg).
Qed.

(** The comma and the space after the last item are removed. *)
Lemma at_char_last text : at_char (text +:+ ", ") (S (String.length text)) = " "%char /\ at_char (text +:+ ", ") (String.length text) = ","%char.
Proof. induction text as [|c text IH]; simpl; [done|]. exact IH. Qed.

Lemma removeLastComma_app text : removeLastComma (text +:+ ", ") = text.
Proof.
  unfold removeLastComma. rewrite bool_decide_false by (by destruct text). rewrite length_app_str. simpl String.length.
  replace (String.length text + 2 - 1)%nat with (S (String.length text)) by lia.
  destruct (at_char_last text) as [Hspace Hcomma].
  assert (Hlast : last_comma (S (String.length text)) (text +:+ ", ") = String.length text).
  { cbn [last_comma]. rewrite Hspace, bool_decide_false by done.
    destruct (String.length text) as [|n] eqn:Hn; [done|]. cbn [last_comma]. by rewrite Hcomma, bool_decide_true. }
  rewrite Hlast, Hcomma, bool_decide_true by done. apply take_str_app.
Qed.

Lemma fold_join sep l s t :
  fold_left (fun acc y => acc +:+ sep +:+ y) l (s +:+ t) = s +:+ fold_left (fun acc y => acc +:+ sep +:+ y) l t.
Proof. revert t. induction l as [|y l IH]; intros t; simpl; [done|]. by rewrite app_str_assoc, IH. Qed.

Lemma join_cons sep x y l : join sep (x :: y :: l) = x +:+ sep +:+ join sep (y :: l).
Proof. unfold join. cbn [fold_left]. by rewrite !fold_join. Qed.

Lemma listed (render : string -> res string) names text :
  names <> [] ->
  (removeLastComma <$> foldM (fun text name => q ← render name; Ok (text +:+ q +:+ ", ")) text names)
  = (fun qs => text +:+ join ", " qs) <$> mapM render names.
Proof.
  revert text. induction names as [|name names IH]; intros text Hne; [done|]. cbn [foldM mapM].
  destruct (render name) as [q|e]; [|done]. cbn [mbind result_bind].
  destruct names as [|name' names].
  - simpl. f_equal. rewrite <- app_str_assoc. apply removeLastComma_app.
  - rewrite IH by done. cbn [mapM]. destruct (render name') as [q'|e]; [|done]. cbn [mbind result_bind].
    destruct (mapM render names) as [qs|]; [|done].
    cbn [mbind result_bind fmap result_fmap mret result_ret]. f_equal. rewrite join_cons. by rewrite !app_str_assoc.
Qed.

(** An INSERT with columns and markers side by side. *)
Definition insert_reference (d : SqlDialect) (table : string) (names : list string) : res string :=
  table ← quoteIdentifier d table;
  fields ← mapM (quoteIdentifier d) names;
  values ← mapM (bindMarker d) names;
  Ok ("INSERT INTO " +:+ table +:+ " (" +:+ join ", " fields +:+ ") VALUES (" +:+ join ", " values +:+ ");").

Lemma insert_columns_eq d b model m t :
  physicalTable model b = Ok t -> arrow model = Some m ->
  (forall c target, c ∈ mv_columns m -> arrow (resolveColumnTarget model c) = Some target -> keys_consistent target) ->
  insert d model = if bool_decide (bound_names (columns t) = []) then renderDefaultInsert d (mv_tableName m)
                   else insert_reference d (mv_tableName m) (bound_names (columns t)).
Proof.
  intros Ht Hmodel Hkeys. unfold insert, deref. rewrite Hmodel. simpl.
  rewrite (getFieldsNames_columns _ _ _ _ Ht Hmodel Hkeys). cbn [mbind result_bind].
  destruct (bound_names (columns t)) as [|name names] eqn:Hnames; [done|]. rewrite (bool_decide_false (_ = [])) by done.
  rewrite bool_decide_false by done. unfold insert_reference, getInsertFields, getInsertValues.
  rewrite !listed by done. destruct (quoteIdentifier d (mv_tableName m)) as [table|]; [|done]. cbn [mbind result_bind].
  destruct (mapM (quoteIdentifier d) (name :: names)) as [fields|]; [|done]. cbn [mbind result_bind fmap result_fmap].
  by destruct (mapM (bindMarker d) (name :: names)).
Qed.

(** ** The properties *)

(** C33: for every model whose generated keys are plain -- there is none on PostgreSQL,
    whose frozen definition also says NOT NULL, and none whose name holds the words
    [PRIMARY KEY], before which the dialect would name the constraint -- the statement
    that creates its table through a built-in dialect is the one that a migration renders
    from the frozen physical table of the model, character for character. *)
Theorem createTable_is_frozen b d model t s :
  builtin_dialect b = Some d -> physicalTable model b = Ok t -> plain_keys b t ->
  createTable d model = Ok s -> PhysicalSql.renderCreateTable b t true true = Ok s.
Proof. apply createTable_frozen. Qed.

(** the INSERT of a model names exactly the columns of the model's physical table that
    the database does not generate, in their order, and gives each the marker of its own
    name; a model with no such column is inserted by the dialect's default insert. *)
Theorem insert_names_columns d b model m t :
  physicalTable model b = Ok t -> arrow model = Some m ->
  (forall c target, c ∈ mv_columns m -> arrow (resolveColumnTarget model c) = Some target -> keys_consistent target) ->
  insert d model = if bool_decide (bound_names (columns t) = []) then renderDefaultInsert d (mv_tableName m)
                   else insert_reference d (mv_tableName m) (bound_names (columns t)).
Proof. apply insert_columns_eq. Qed.
