(* ===== verification/Links.v ===== *)
(** Links: the relation statements of Commands bind every part of the keys they are
    given, once and under names of their own; a factory finds exactly the backends that
    were registered. *)
From S2P Require Import Prelude Foundation Values Models Schema PhysicalSql Snapshot Dialect QueryValue Query Emitter Render Direct Commands.
Local Open Scope string_scope.

(** ** Names *)
Lemma ownerName_inj i j : ownerName i = ownerName j -> i = j.
Proof. unfold ownerName. simpl. intros Heq. injection Heq as Heq%to_string_inj. lia. Qed.
Lemma targetName_inj i j : targetName i = targetName j -> i = j.
Proof. unfold targetName. simpl. intros Heq. injection Heq as Heq%to_string_inj. lia. Qed.
Lemma nullName_inj i j : nullName i = nullName j -> i = j.
Proof. unfold nullName. simpl. intros Heq. injection Heq as Heq%to_string_inj. lia. Qed.

Lemma digits_underscore_inj d e s t :
  forallb_char is_digit d = true -> forallb_char is_digit e = true ->
  d +:+ "_" +:+ s = e +:+ "_" +:+ t -> d = e /\ s = t.
Proof.
  revert e. induction d as [|c d IH]; intros [|c' e] Hd He; cbn [String.append]; intros Heq;
    rewrite ?forallb_char_cons in *.
  - by injection Heq as ->.
  - injection Heq as <- _. by vm_compute in He.
  - injection Heq as -> _. by vm_compute in Hd.
  - bool_to_prop. injection Heq as -> Heq. destruct (IH e) as [-> ->]; auto.
Qed.

Lemma keyName_inj i j i' j' : keyName i j = keyName i' j' -> i = i' /\ j = j'.
Proof.
  unfold keyName. intros Heq. assert (Hrest : to_string (N.of_nat i) +:+ "_" +:+ to_string (N.of_nat j)
                                             = to_string (N.of_nat i') +:+ "_" +:+ to_string (N.of_nat j')).
  { simpl in Heq. by injection Heq. }
  apply digits_underscore_inj in Hrest as [Hi%to_string_inj Hj%to_string_inj]; [lia|apply to_string_digits..].
Qed.

(** ** Bound keys *)
Lemma key_parameters_names name key : parameter_name <$> key_parameters name key = name <$> seq 0 (length key).
Proof.
  unfold key_parameters. rewrite fmap_imap. apply list_eq. intros i.
  rewrite list_lookup_imap, list_lookup_fmap. destruct (key !! i) as [value|] eqn:Hi.
  - by rewrite lookup_seq_lt by (by eapply lookup_lt_Some).
  - by rewrite lookup_seq_ge by (by apply lookup_ge_None).
Qed.

Lemma key_parameters_values name key : omap parameter_value (key_parameters name key) = key.
Proof.
  unfold key_parameters. revert name. induction key as [|value key IH]; intros name; [done|].
  cbn [imap omap list_omap value_parameter parameter_value]. f_equal. apply (IH (fun i => name (S i))).
Qed.

Lemma key_parameters_distinct name key :
  (forall i j, name i = name j -> i = j) -> NoDup (parameter_name <$> key_parameters name key).
Proof. intros Hinj. rewrite key_parameters_names. apply NoDup_fmap_2; [|apply NoDup_seq]. exact Hinj. Qed.

(** A statement binds the values of [keys], each under a name of its own. *)
Definition binds (keys : PrimaryKey) (st : Statement) : Prop :=
  omap parameter_value (parameters st) = keys /\ NoDup (parameter_name <$> parameters st).

Lemma key_name_in name key x : x ∈ parameter_name <$> key_parameters name key -> exists i, x = name i.
Proof. rewrite key_parameters_names. intros (i & -> & _)%list_elem_of_fmap. by exists i. Qed.

Lemma endpoints_bound ownerKey targetKey text :
  binds (ownerKey ++ targetKey) (MkStatement text (key_parameters ownerName ownerKey ++ key_parameters targetName targetKey)).
Proof.
  split; simpl; [by rewrite omap_app, !key_parameters_values|]. rewrite fmap_app. apply NoDup_app.
  split; [apply key_parameters_distinct, ownerName_inj|]. split; [|apply key_parameters_distinct, targetName_inj].
  intros x (i & ->)%key_name_in (j & Heq)%key_name_in. done.
Qed.

Section links.
Variable dialect : SqlDialect.

Lemma link_bound owner relation ownerKey targetKey st :
  linkStatement dialect owner relation ownerKey targetKey = Ok st -> binds (ownerKey ++ targetKey) st.
Proof.
  unfold linkStatement. intros Hst. apply bind_Ok_iff in Hst as ([[target ownerColumns] targetColumns] & _ & Hst).
  case_bool_decide.
  - apply seq_Ok_iff in Hst as [_ Hst] || apply bind_Ok_iff in Hst as (? & _ & Hst).
    do 4 (apply bind_Ok_iff in Hst as (? & _ & Hst)). apply Ok_inj in Hst as <-. apply endpoints_bound.
  - do 5 (apply bind_Ok_iff in Hst as (? & _ & Hst)). apply Ok_inj in Hst as <-. apply endpoints_bound.
Qed.

(** The owner's part of an unlinking: a null and a value for each column. *)
Lemma unlink_columns_bound mapped n items columns :
  mapM (unlink_column dialect mapped) (imap (fun i item => (n + i, item))%nat items) = Ok columns ->
  omap parameter_value (concat (map unlink_parameters columns)) = items.*2 /\
  NoDup (parameter_name <$> concat (map unlink_parameters columns)) /\
  forall x, x ∈ parameter_name <$> concat (map unlink_parameters columns) ->
    exists i, (n <= i)%nat /\ (x = nullName i \/ x = ownerName i).
Proof.
  revert n columns. induction items as [|[c value] items IH]; intros n columns; cbn [imap mapM].
  - intros [= <-]. simpl. split; [done|]. split; [constructor|]. by intros x Hx%not_elem_of_nil.
  - intros Hcols. apply bind_Ok_iff in Hcols as (column & Hcol & Hcols). apply bind_Ok_iff in Hcols as (rest & Hrest & Hcols).
    apply Ok_inj in Hcols as <-.
    assert (Hparams : exists type, unlink_parameters column =
        [MkParameter (nullName (n + 0)) None (Some type); value_parameter (ownerName (n + 0)) value]).
    { unfold unlink_column in Hcol. result_inv. subst column. by eexists. }
    destruct Hparams as [type Hparams].
    assert (Hshift : imap (fun i item => ((n + S i)%nat, item)) items = imap (fun i item => ((S n + i)%nat, item)) items).
    { apply imap_ext. intros i item _. f_equal. lia. }
    unfold compose in Hrest. rewrite Hshift in Hrest. apply IH in Hrest as (Hv & Hd & Hx). clear IH Hcol.
    cbn [map concat]. rewrite Hparams, Nat.add_0_r. cbn [app omap list_omap parameter_value value_parameter fmap list_fmap parameter_name snd].
    split; [by rewrite <- Hv|]. split.
    + apply NoDup_cons. split; [|apply NoDup_cons; split; [|done]].
      * intros [Heq|(i & Hi & [Heq|Heq])%Hx]%elem_of_cons; [done|apply nullName_inj in Heq; lia|done].
      * intros (i & Hi & [Heq|Heq])%Hx; [done|apply ownerName_inj in Heq; lia].
    + intros x [->|[->|(i & Hi & Hor)%Hx]%elem_of_cons]%elem_of_cons; [exists n; auto|exists n; auto|exists i; split; [lia|done]].
Qed.

Lemma unlink_bound owner relation ownerKey targetKey st :
  unlinkStatement dialect owner relation ownerKey targetKey = Ok st -> binds (ownerKey ++ targetKey) st.
Proof.
  unfold unlinkStatement. intros Hst. apply bind_Ok_iff in Hst as ([[target ownerColumns] targetColumns] & Hends & Hst).
  case_bool_decide.
  - do 5 (apply bind_Ok_iff in Hst as (? & _ & Hst)). apply Ok_inj in Hst as <-. apply endpoints_bound.
  - do 3 (apply bind_Ok_iff in Hst as (? & _ & Hst)). apply bind_Ok_iff in Hst as (columns & Hcols & Hst).
    do 2 (apply bind_Ok_iff in Hst as (? & _ & Hst)). apply Ok_inj in Hst as <-.
    apply (unlink_columns_bound _ 0) in Hcols as (Hv & Hd & Hx).
    assert (Hlen : length ownerKey = length ownerColumns).
    { unfold endpoints, requireKeySize in Hends. result_inv. bool_to_prop. apply Nat.eqb_eq in Hok3. congruence. }
    split; simpl.
    + rewrite omap_app, Hv, key_parameters_values. f_equal. apply snd_zip. lia.
    + rewrite fmap_app. apply NoDup_app. split; [done|]. split; [|apply key_parameters_distinct, targetName_inj].
      intros bound (i & _ & [->| ->])%Hx (j & Heq)%key_name_in; done.
Qed.

(** The keys of several owners. *)
Lemma filter_bound n keys :
  omap parameter_value (concat (imap (fun i key => key_parameters (keyName (n + i)) key) keys)) = concat keys /\
  NoDup (parameter_name <$> concat (imap (fun i key => key_parameters (keyName (n + i)) key) keys)) /\
  forall x, x ∈ parameter_name <$> concat (imap (fun i key => key_parameters (keyName (n + i)) key) keys) ->
    exists i j, (n <= i)%nat /\ x = keyName i j.
Proof.
  revert n. induction keys as [|key keys IH]; intros n; cbn [imap concat].
  - split; [done|]. split; [constructor|]. by intros x Hx%not_elem_of_nil.
  - assert (Hshift : imap ((fun i key => key_parameters (keyName (n + i)) key) ∘ S) keys
                     = imap (fun i key => key_parameters (keyName (S n + i)) key) keys).
    { apply imap_ext. intros i k _. unfold compose. by rewrite Nat.add_succ_r. }
    rewrite Hshift, Nat.add_0_r. destruct (IH (S n)) as (Hv & Hd & Hx). rewrite omap_app, key_parameters_values, Hv, fmap_app.
    split; [done|]. split.
    + apply NoDup_app. split; [apply key_parameters_distinct; intros i j Heq; by apply keyName_inj in Heq as [_ ?]|].
      split; [|done]. intros x (j & ->)%key_name_in (i' & j' & Hi & Heq)%Hx. apply keyName_inj in Heq as [-> _]. lia.
    + intros x [(j & ->)%key_name_in|(i & j & Hi & ->)%Hx]%elem_of_app; [exists n, j; split; [lia|done]|exists i, j; split; [lia|done]].
Qed.

Lemma collection_bound owner relation inner ownerKeys joinedValues st :
  collectionSelectStatement dialect owner relation inner ownerKeys joinedValues = Ok st -> binds (concat ownerKeys) st.
Proof.
  assert (Hkeys : forall text, binds (concat ownerKeys) (MkStatement text (filter_parameters ownerKeys))).
  { intros text. destruct (filter_bound 0 ownerKeys) as (Hv & Hd & _). by split. }
  unfold collectionSelectStatement. intros Hst. do 6 (apply bind_Ok_iff in Hst as (? & _ & Hst)).
  case_bool_decide.
  - do 3 (apply bind_Ok_iff in Hst as (? & _ & Hst)). by apply Ok_inj in Hst as <-.
  - do 6 (apply bind_Ok_iff in Hst as (? & _ & Hst)). by apply Ok_inj in Hst as <-.
Qed.
End links.

(** ** The factory *)
Lemma registerBackend_Ok_iff f backend f' :
  registerBackend f backend = Ok f' <->
  exists p, backend = Some p /\ provider_type p <> Empty /\ BackendMap.find (provider_type p) f = None /\
    f' = BackendMap.emplace (provider_type p) p f.
Proof.
  unfold registerBackend. split.
  - intros Hf. result_inv. exists a. subst f'. split; [done|]. bool_to_prop. split; [done|]. split; [|done].
    unfold BackendMap.contains in *. bool_to_prop. by apply eq_None_not_Some.
  - intros (p & -> & He & Hn & ->). simpl. rewrite bool_decide_false by done. simpl.
    unfold BackendMap.contains. rewrite Hn. by rewrite bool_decide_false by (by intros [? [=]]).
Qed.

Definition entry (p : BackendProvider) : BackendType * BackendProvider := (provider_type p, p).

Lemma find_perm (f : Factory) bs b :
  BackendMap.sorted f -> f ≡ₚ map entry bs -> (BackendMap.find b f = None <-> b ∉ provider_type <$> bs).
Proof.
  intros Hs Hp. split.
  - intros Hn (p & -> & Hin)%list_elem_of_fmap. apply (BackendMap.find_None_elem _ p _ Hn). rewrite Hp.
    apply (list_elem_of_fmap_2 entry _ _ Hin).
  - intros Hb. destruct (BackendMap.find b f) as [p|] eqn:Hf; [|done]. destruct Hb.
    apply BackendMap.find_Some_elem in Hf. rewrite Hp in Hf. apply list_elem_of_fmap in Hf as (q & [= -> ->] & Hin).
    by apply list_elem_of_fmap_2.
Qed.

Lemma registerBackends_from f bs0 ps f' :
  BackendMap.sorted f -> f ≡ₚ map entry bs0 -> NoDup (provider_type <$> bs0) ->
  foldM registerBackend f ps = Ok f' ->
  exists bs, ps = map Some bs /\ NoDup (provider_type <$> (bs0 ++ bs)%list) /\ (forall p, p ∈ bs -> provider_type p <> Empty) /\
    BackendMap.sorted f' /\ f' ≡ₚ map entry (bs0 ++ bs)%list.
Proof.
  revert f bs0. induction ps as [|backend ps IH]; intros f bs0 Hs Hp Hnd; cbn [foldM].
  - intros [= <-]. exists []. rewrite app_nil_r. split; [done|]. split; [done|]. split; [by intros ? ?%not_elem_of_nil|done].
  - intros Hf. apply bind_Ok_iff in Hf as (g & Hg & Hf). apply registerBackend_Ok_iff in Hg as (p & -> & He & Hn & ->).
    destruct (IH (BackendMap.emplace (provider_type p) p f) (bs0 ++ [p])%list) as (bs & -> & Hnd' & Hne & Hs' & Hp'); [..|done|].
    + by apply BackendMap.emplace_sorted.
    + rewrite BackendMap.emplace_Permutation by done. rewrite map_app, Hp. simpl. by rewrite Permutation_app_comm.
    + rewrite fmap_app. apply NoDup_app. split; [done|]. split; [|apply NoDup_singleton].
      intros b Hb ->%list_elem_of_singleton. by apply (find_perm _ _ _ Hs Hp) in Hn.
    + exists (p :: bs). rewrite <- app_assoc in Hnd', Hp'. split; [done|]. split; [done|]. split; [|done].
      by intros q [->|Hq]%elem_of_cons; [|apply Hne].
Qed.

Lemma registerBackends_accepts f bs0 bs :
  BackendMap.sorted f -> f ≡ₚ map entry bs0 -> NoDup (provider_type <$> (bs0 ++ bs)%list) ->
  (forall p, p ∈ bs -> provider_type p <> Empty) ->
  exists f', foldM registerBackend f (map Some bs) = Ok f'.
Proof.
  revert f bs0. induction bs as [|p bs IH]; intros f bs0 Hs Hp Hnd Hne; cbn [map foldM]; [by eexists|].
  assert (Hn : BackendMap.find (provider_type p) f = None).
  { apply (find_perm _ _ _ Hs Hp). rewrite fmap_app in Hnd. apply NoDup_app in Hnd as (_ & Hd & _).
    intros Hin. apply (Hd _ Hin). left. }
  rewrite (proj2 (registerBackend_Ok_iff f (Some p) _)) by (exists p; split; [done|]; split; [apply Hne; left|done]).
  apply (IH _ (bs0 ++ [p])%list); [by apply BackendMap.emplace_sorted| |by rewrite <- app_assoc|intros q Hq; apply Hne; by right].
  rewrite BackendMap.emplace_Permutation by done. rewrite map_app, Hp. simpl. by rewrite Permutation_app_comm.
Qed.

(** ** The properties *)

(** the statements that link, unlink and collect related rows bind every part of the
    owner's key and of the target's key, in order, and each parameter has its own name. *)
Theorem relation_statements_bind_keys dialect owner relation :
  (forall ownerKey targetKey st,
     linkStatement dialect owner relation ownerKey targetKey = Ok st -> binds (ownerKey ++ targetKey) st) /\
  (forall ownerKey targetKey st,
     unlinkStatement dialect owner relation ownerKey targetKey = Ok st -> binds (ownerKey ++ targetKey) st) /\
  (forall inner ownerKeys joinedValues st,
     collectionSelectStatement dialect owner relation inner ownerKeys joinedValues = Ok st -> binds (concat ownerKeys) st).
Proof.
  split; [intros *; apply link_bound|]. split; [intros *; apply unlink_bound|intros *; apply collection_bound].
Qed.

(** a factory accepts exactly the lists of providers that are not null, not of the
    reserved empty type and of different types, and then finds each provider under its
    type and nothing under any other. *)
Theorem factory_finds_registered ps :
  ((exists f, registerBackends ps = Ok f) <->
   exists bs, ps = map Some bs /\ NoDup (provider_type <$> bs) /\ forall p, p ∈ bs -> provider_type p <> Empty) /\
  (forall f b p, registerBackends ps = Ok f -> getBackend f b = Ok p <-> Some p ∈ ps /\ provider_type p = b).
Proof.
  split; [split|].
  - intros [f Hf]. destruct (registerBackends_from [] [] ps f) as (bs & -> & Hnd & Hne & _); [constructor|done|constructor|done|].
    by exists bs.
  - intros (bs & -> & Hnd & Hne). apply (registerBackends_accepts [] []); [constructor|done|done|done].
  - intros f b p Hf. destruct (registerBackends_from [] [] ps f) as (bs & -> & Hnd & Hne & Hs & Hp); [constructor|done|constructor|done|].
    unfold getBackend. rewrite BackendMap.at_Ok. split.
    + intros Hb%BackendMap.find_Some_elem. rewrite Hp in Hb. apply list_elem_of_fmap in Hb as (q & [= -> ->] & Hq).
      split; [by apply (list_elem_of_fmap_2 Some)|done].
    + intros [Hin <-]. apply list_elem_of_fmap in Hin as (q & [= <-] & Hq). apply BackendMap.elem_find_sorted; [done|].
      rewrite Hp. by apply (list_elem_of_fmap_2 entry).
Qed.
