(* ===== verification/Database.v ===== *)
(** Database: the checks that src/Database.cpp makes before an operation -- whether the
    session can be used and whether the backend supports a model, a schema, a query and
    its values. *)
From S2P Require Import Prelude Foundation Values Models Schema PhysicalSql Dialect TargetValues QueryValue Query Emitter Render Capabilities Commands.
Local Open Scope string_scope.

#[export] Instance ColumnView_eq_dec : EqDecision ColumnView.
Proof. solve_decision. Defined.

(** [Database] but for its session and its registry: the connected backend, whether a
    transaction is open and whether a statement in it failed, and whether a migration
    is active. *)
Record Database := MkDatabase {
  backend : option BackendProvider;
  backendType : BackendType;
  transaction : bool;
  transactionFailed : bool;
  migrationActive : bool
}.

Definition disconnected : Database := MkDatabase None Empty false false false.

(** ** Strings of bounded length

    [validateStringLength] of modules/orm/database/object_binding.cppm. *)
Definition invalid_utf8 {A} : res A := Err (ConversionError "A bounded string must contain valid UTF-8").

(** The bytes that follow the first one, its bits of the code point, and the least code
    point that needs so many bytes. *)
Definition first_byte (first : Z) : res (nat * Z * Z) :=
  if (first <? 0x80)%Z then Ok (0%nat, first, 0%Z)
  else if (0xc2 <=? first)%Z && (first <=? 0xdf)%Z then Ok (1%nat, Z.land first 0x1f, 0x80%Z)
  else if (0xe0 <=? first)%Z && (first <=? 0xef)%Z then Ok (2%nat, Z.land first 0x0f, 0x800%Z)
  else if (0xf0 <=? first)%Z && (first <=? 0xf4)%Z then Ok (3%nat, Z.land first 0x07, 0x10000%Z)
  else invalid_utf8.

Fixpoint continuation_bytes (codePoint : Z) (bytes : list ascii) : res Z :=
  match bytes with
  | [] => Ok codePoint
  | c :: bytes =>
      let continuation := byte_of c in
      if negb (Z.land continuation 0xc0 =? 0x80)%Z then invalid_utf8
      else continuation_bytes (Z.lor (Z.shiftl codePoint 6) (Z.land continuation 0x3f)) bytes
  end.

Fixpoint bounded_length (fuel : nat) (limit characters : N) (text : list ascii) : res unit :=
  match fuel, text with
  | S fuel, first :: rest =>
      '(remaining, codePoint, minimum) ← first_byte (byte_of first);
      if (length rest <? remaining)%nat then invalid_utf8
      else
        codePoint ← continuation_bytes codePoint (take remaining rest);
        if (codePoint <? minimum)%Z || (0x10ffff <? codePoint)%Z || ((0xd800 <=? codePoint)%Z && (codePoint <=? 0xdfff)%Z)
        then invalid_utf8
        else
          throw_if (limit <? characters + 1)%N (ConversionError "A string exceeds its declared character limit") ;;
          bounded_length fuel limit (characters + 1)%N (drop remaining rest)
  | _, _ => Ok tt
  end.

Definition validateStringLength (text : string) (limit : option N) : res unit :=
  match limit with
  | None => Ok tt
  | Some limit => bounded_length (String.length text) limit 0%N (chars text)
  end.

(** ** Identifiers of a model and of the models it leads to *)
Section identifiers.
Variable dialect : SqlDialect.

Definition accepted (r : res string) : res unit := _ ← r; Ok tt.
Definition quoted_ok (name : string) : res unit := accepted (quoteIdentifier dialect name).
Definition marker_ok (name : string) : res unit := accepted (bindMarker dialect name).

Definition requireToOneTarget (owner : ModelView) (column : ColumnView) : res (ModelView * ModelDataView) :=
  let target := resolveColumnTarget owner column in
  d ← or_throw (arrow target) (InvalidArgument "To-one column has no target model in the schema"); Ok (target, d).

Definition requireRelationTarget (owner : ModelView) (relation : RelationView) : res (ModelView * ModelDataView) :=
  let target := resolveRelationTarget owner relation in
  d ← or_throw (arrow target) (InvalidArgument "Collection relation has no target model in the schema"); Ok (target, d).

Definition scalar_names (m : ModelDataView) (column : ColumnView) : res unit :=
  quoted_ok (mv_tableName m +:+ "_" +:+ cv_name column) ;;
  (if cv_isPrimaryKey column then quoted_ok (relationOwnerAlias column) else Ok tt) ;;
  (if cv_isAutoIncrement column then Ok tt else marker_ok (cv_name column)).

Definition related_names (m : ModelDataView) (column related : ColumnView) : res unit :=
  let local := cv_name column +:+ "_" +:+ cv_name related in
  quoted_ok (cv_name related) ;;
  quoted_ok local ;;
  (if cv_isPrimaryKey related
   then quoted_ok local ;; marker_ok local ;; quoted_ok (mv_tableName m +:+ "_" +:+ cv_name column +:+ "_" +:+ cv_name related)
   else Ok tt).

Definition target_names (relation : RelationView) (column : ColumnView) : res unit :=
  quoted_ok (cv_name column) ;;
  (if cv_isPrimaryKey column then quoted_ok (rv_columnName relation +:+ "_" +:+ cv_name column) else Ok tt).

Definition junction_names (junction : JunctionView) : res unit :=
  if isConfigured junction then
    quoted_ok (jv_tableName junction) ;;
    forM_ (jv_ownerColumns junction) quoted_ok ;; forM_ (jv_targetColumns junction) quoted_ok
  else Ok tt.

(** One pass over a column or a relation; [visit] checks the model it leads to. *)
Definition column_names (visit : gset N -> ModelView -> res (gset N)) (model : ModelView) (m : ModelDataView)
    (visited : gset N) (column : ColumnView) : res (gset N) :=
  quoted_ok (cv_name column) ;;
  if bool_decide (cv_kind column = Scalar) then scalar_names m column ;; Ok visited
  else
    '(target, related) ← requireToOneTarget model column;
    quoted_ok (mv_tableName related) ;;
    forM_ (mv_columns related) (related_names m column) ;;
    visit visited target.

Definition relation_names (visit : gset N -> ModelView -> res (gset N)) (model : ModelView)
    (visited : gset N) (relation : RelationView) : res (gset N) :=
  quoted_ok (rv_columnName relation) ;;
  '(target, d) ← requireRelationTarget model relation;
  quoted_ok (mv_tableName d) ;;
  forM_ (mv_columns d) (target_names relation) ;;
  junction_names (rv_junction relation) ;;
  visit visited target.

(** [fuel] bounds the depth: each call but the last adds a model to [visited]. *)
Fixpoint visit_identifiers (fuel : nat) (visited : gset N) (model : ModelView) : res (gset N) :=
  if bool_decide (mw_modelIndex model ∈ visited) then Ok visited
  else
    match fuel with
    | O => Err Undefined
    | S fuel =>
        let visited := {[mw_modelIndex model]} ∪ visited in
        m ← deref model;
        quoted_ok (mv_tableName m) ;;
        visited ← foldM (column_names (visit_identifiers fuel) model m) visited (mv_columns m);
        foldM (relation_names (visit_identifiers fuel) model) visited (mv_relations m)
    end.

Definition schema_size (model : ModelView) : nat := match mw_schema model with Some s => length s | None => 0 end.

Definition validateModelIdentifiers (model : ModelView) : res unit :=
  _ ← visit_identifiers (S (schema_size model)) ∅ model; Ok tt.
End identifiers.

(** ** The checks

    [connected] is [sql.is_connected()], which a check takes to stay as it is. *)
Section checks.
Variable db : Database.
Variable connected : bool.

Definition throwDatabase {A} (code : DatabaseErrorCode) (operation message : string) : res A :=
  Err (DatabaseError code (backendType db) operation message None).

Definition Database_getBackend : res BackendProvider :=
  let failure := DatabaseError NotConnectedError Empty "database operation" "No database session is connected" None in
  p ← or_throw (backend db) failure; throw_if (negb connected) failure ;; Ok p.

Definition getBackendCapabilities : res BackendCapabilities := provider_capabilities <$> Database_getBackend.

Definition requireCapability (supported : bool) (operation message : string) : res unit :=
  if supported then Ok tt else throwDatabase UnsupportedFeature operation message.

Definition ensureSessionUsable (operation : string) : res unit :=
  _ ← Database_getBackend;
  if transactionFailed db
  then throwDatabase TransactionError operation "The failed transaction must be rolled back before another SQL operation"
  else Ok tt.

Definition ensureDdlSupported (operation : string) : res unit :=
  ensureSessionUsable operation ;;
  if transaction db then
    c ← getBackendCapabilities;
    if negb (sc_transactionalDdl (schema_caps c))
    then throwDatabase UnsupportedFeature operation
           "The backend cannot execute schema operations inside an application transaction"
    else Ok tt
  else Ok tt.

Definition ensureStringValueSupported (column : ColumnView) (value : option QueryValue) (operation : string) : res unit :=
  match cv_maxStringLength column, value with
  | Some limit, Some value =>
      match get value with
      | StringValue text =>
          match validateStringLength text (Some limit) with
          | Err (ConversionError _) =>
              throwDatabase Conversion operation "A string cannot be represented by its declared character limit"
          | r => r
          end
      | _ => Ok tt
      end
  | _, _ => Ok tt
  end.

Definition requireEndpointKeyColumns (descriptor : ModelDataView) (key : PrimaryKey) : res (list ColumnView) :=
  columns ← getPrimaryKeyColumns descriptor;
  throw_if (negb (length columns =? length key)%nat) (InvalidArgument "Incomplete relation endpoint primary key") ;;
  Ok columns.

Definition ensureEndpointKeySupported (descriptor : ModelDataView) (key : PrimaryKey) (operation : string) : res unit :=
  columns ← requireEndpointKeyColumns descriptor key;
  forM_ (zip columns key) (fun part => ensureStringValueSupported part.1 (Some part.2) operation).

Definition ensureAffectedRowsAvailable (operation : string) : res unit :=
  c ← getBackendCapabilities;
  if bool_decide (mc_affectedRows (mutation_caps c) <> Reliable)
  then throwDatabase AffectedRowsUnavailable operation "The backend cannot report exact affected-row counts"
  else Ok tt.

(** A type of a column, [column.type.value()]. *)
Definition column_type (c : ColumnView) : res ColumnType := or_throw (cv_type c) BadOptionalAccess.

Definition requireColumnType (caps : BackendCapabilities) (operation message : string) (c : ColumnView) : res unit :=
  type ← column_type c;
  if supportsColumnType caps type then Ok tt else throwDatabase UnsupportedFeature operation message.

(** [model->columns[index]]: undefined beyond the columns. *)
Definition column_at (m : ModelDataView) (i : N) : res ColumnView := or_throw (mv_columns m !! N.to_nat i) Undefined.

Definition requireSupportedRelatedTarget (owner : ModelView) (column : ColumnView) (operation : string) : res ModelDataView :=
  or_throw (arrow (resolveColumnTarget owner column))
    (DatabaseError UnsupportedFeature (backendType db) operation "A related model is outside the selected schema" None).

Definition supported_column (caps : BackendCapabilities) (descriptor : ModelView) (operation : string) (c : ColumnView) : res unit :=
  (if cv_isAutoIncrement c && bool_decide (operation = "create table")
   then requireCapability (sc_autoIncrementPrimaryKey (schema_caps caps)) operation "auto-increment primary keys are not supported"
   else Ok tt) ;;
  if bool_decide (cv_kind c = ToOne) then
    requireCapability (rc_toOne (relation_caps caps)) operation "to-one relations are not supported" ;;
    related ← requireSupportedRelatedTarget descriptor c operation;
    forM_ (mv_primaryKeyIndices related) (fun i =>
      key ← column_at related i;
      requireColumnType caps operation "A related primary-key column type is not supported by the backend" key)
  else requireColumnType caps operation "A model column type is not supported by the backend" c.

(** The identifiers' [std::invalid_argument] becomes a [DatabaseError]. *)
Definition supported_identifiers (dialect : SqlDialect) (descriptor : ModelView) (operation : string) : res unit :=
  match validateModelIdentifiers dialect descriptor with
  | Err (InvalidArgument _) =>
      throwDatabase UnsupportedFeature operation "A model identifier is not supported by the selected backend"
  | r => r
  end.

Definition supported_table (caps : BackendCapabilities) (m : ModelDataView) (operation : string) : res unit :=
  if bool_decide (operation = "create table") then
    (if (1 <? length (mv_primaryKeyIndices m))%nat
     then requireCapability (sc_compositePrimaryKeys (schema_caps caps)) operation "composite primary keys are not supported"
     else Ok tt) ;;
    (if existsb (fun c => bool_decide (cv_kind c = ToOne)) (mv_columns m)
     then requireCapability (sc_foreignKeys (schema_caps caps)) operation "foreign keys are not supported"
     else Ok tt)
  else Ok tt.

Definition ensureModelSupported (descriptor : ModelView) (operation : string) : res unit :=
  ensureSessionUsable operation ;;
  p ← Database_getBackend;
  supported_identifiers (provider_dialect p) descriptor operation ;;
  m ← deref descriptor;
  supported_table (provider_capabilities p) m operation ;;
  forM_ (mv_columns m) (supported_column (provider_capabilities p) descriptor operation).

(** ** Queries *)
Fixpoint containsCollectionPredicate (p : PredicateNode) : bool :=
  match p with
  | CollectionExpression _ _ _ => true
  | LogicalExpression l _ r => containsCollectionPredicate l || containsCollectionPredicate r
  | NotExpression p => containsCollectionPredicate p
  | _ => false
  end.

(** [ensurePredicateSupported(bool, operation)]. *)
Definition ensureCollectionsSupported (containsCollection : bool) (operation : string) : res unit :=
  if containsCollection then
    c ← getBackendCapabilities;
    requireCapability (qc_collectionPredicates (query_caps c)) operation "collection predicates are not supported" ;;
    requireCapability (rc_collectionPredicates (relation_caps c)) operation "collection predicates are not supported"
  else Ok tt.

Definition requireCollectionRelation (owner : ModelDataView) (fieldName : string) : res RelationView :=
  match findRelation owner fieldName with
  | Some r => if bool_decide (rv_kind r = RelToOne) then Err (InvalidArgument ("Unknown collection relation: " +:+ fieldName)) else Ok r
  | None => Err (InvalidArgument ("Unknown collection relation: " +:+ fieldName))
  end.

Section types.
Variable caps : BackendCapabilities.
Variable operation : string.

(** [checkSource]. *)
Definition checkSource (source : SqlSource) (sourceModel : ModelView) : res unit :=
  if bool_decide (length (pathParts source) = 0%nat) then Ok tt
  else
    info ← resolveSqlColumn source sourceModel false;
    requireCapability (match cv_type (info_column info) with Some type => supportsColumnType caps type | None => false end)
      operation "A query column type is not supported by the backend".

Definition checkCollectionKeys (target : ModelDataView) : res unit :=
  forM_ (mv_primaryKeyIndices target) (fun i =>
    key ← column_at target i;
    type ← or_throw (cv_type key) Undefined;
    requireCapability (supportsColumnType caps type) operation "A collection key type is not supported by the backend").

(** [checkNode]; [fuel] bounds its depth. *)
Fixpoint checkNode (fuel : nat) (c : Code) (i : N) (sourceModel : ModelView) : res unit :=
  if (i =? noSqlNode)%N || (size_of (nodes c) <=? i)%N then Ok tt
  else
    match fuel with
    | O => Err Undefined
    | S fuel =>
        node ← nth_N (nodes c) i;
        match kind node with
        | KCollection =>
            m ← deref sourceModel;
            r ← requireCollectionRelation m (relation node);
            '(target, d) ← requireRelationTarget sourceModel r;
            checkCollectionKeys d ;;
            checkNode fuel c (left_ node) target
        | KAnd | KOr | KNot =>
            checkNode fuel c (left_ node) sourceModel ;; checkNode fuel c (right_ node) sourceModel
        | KRaw => Ok tt
        | _ => checkSource (node_source node) sourceModel
        end
    end.

Definition checkRoot (c : Code) (i : N) (descriptor : ModelView) : res unit :=
  checkNode (length (nodes c)) c i descriptor.

Definition checkJoined (descriptor : ModelView) (c : ColumnView) : res unit :=
  if bool_decide (cv_kind c = ToOne) then
    related ← requireSupportedRelatedTarget descriptor c operation;
    forM_ (mv_columns related) (fun field =>
      match cv_type field with
      | Some type => requireCapability (supportsColumnType caps type) operation "A joined column type is not supported by the backend"
      | None => Ok tt
      end)
  else Ok tt.
End types.

Definition ensureQueryTypesSupported (descriptor : ModelView) (q : SqlQueryView) (operation : string) : res unit :=
  caps ← getBackendCapabilities;
  checkRoot caps operation (code q) (query_predicate q) descriptor ;;
  checkRoot caps operation (code q) (query_having q) descriptor ;;
  forM_ (query_projections q) (fun p => checkSource caps operation (proj_source p) descriptor) ;;
  forM_ (groups q) (fun g => checkSource caps operation g descriptor) ;;
  forM_ (orders q) (fun o => if isRaw o then Ok tt else checkSource caps operation (ord_source o) descriptor) ;;
  if query_shouldJoin q && bool_decide (length (query_projections q) = 0%nat) then
    m ← deref descriptor; forM_ (mv_columns m) (checkJoined caps operation descriptor)
  else Ok tt.

(** The program of a predicate alone, as [renderRemoveStatement] builds it. *)
Definition predicate_requirements (dialect : SqlDialect) (p : PredicateNode) : res SqlQueryView :=
  '(index, s) ← appendPredicate dialect start p; Ok (write_query Select s index []).

(** [ensurePredicateSupported(model, predicate, operation)]. *)
Definition ensurePredicateSupported (model : ModelView) (p : PredicateNode) (operation : string) : res unit :=
  ensureCollectionsSupported (containsCollectionPredicate p) operation ;;
  backend ← Database_getBackend;
  requirements ← predicate_requirements (provider_dialect backend) p;
  ensureQueryTypesSupported model requirements operation.

(** The relation and the column that a source leads to: in the code, their addresses. *)
Abbreviation identity := (option ColumnView * ColumnView)%type.

Definition columnIdentity (descriptor : ModelView) (shouldJoin : bool) (source : SqlSource) : res identity :=
  info ← resolveSqlColumn source descriptor false;
  throw_if (negb shouldJoin && bool_decide (is_Some (info_relation info)) && negb (cv_isPrimaryKey (info_column info)))
    (InvalidArgument ("Cannot filter by non-id related field when joining is disabled: " +:+ sqlPath source)) ;;
  Ok (info_relation info, info_column info).

(** [std::ranges::any_of] with a test that may throw: the elements up to the first hit. *)
Fixpoint any_of {A} (f : A -> res bool) (l : list A) : res bool :=
  match l with
  | [] => Ok false
  | x :: l => hit ← f x; if hit : bool then Ok true else any_of f l
  end.

Section queries.
Variable descriptor : ModelView.
Variable q : SqlQueryView.
Variable caps : QueryCapabilities.

Definition identity_of : SqlSource -> res identity := columnIdentity descriptor (query_shouldJoin q).
Definition hasHaving : bool := negb (query_having q =? noSqlNode)%N.
Definition projects : bool := negb (bool_decide (length (query_projections q) = 0%nat)).
Definition grouped : bool := negb (bool_decide (length (groups q) = 0%nat)).

Definition check_pagination : res unit :=
  (if hasLimit q then requireCapability (qc_limit caps) "select" "LIMIT is not supported" else Ok tt) ;;
  if hasOffset q then
    requireCapability (qc_offset caps) "select" "OFFSET is not supported" ;;
    (if hasLimit q then Ok tt
     else requireCapability (qc_offsetWithoutLimit caps) "select" "OFFSET without LIMIT is not supported") ;;
    if qc_offsetRequiresOrderBy caps && bool_decide (length (orders q) = 0%nat)
    then throwDatabase UnsupportedFeature "select" "This backend requires ORDER BY when OFFSET is used" else Ok tt
  else Ok tt.

Definition check_string_order (o : SqlOrder) : res unit :=
  match qc_maxOrderedStringLength caps with
  | Some maximum =>
      if isRaw o then Ok tt
      else
        id ← identity_of (ord_source o);
        if bool_decide (cv_type id.2 = Some ColumnType.String)
        then requireCapability (match cv_maxStringLength id.2 with Some n => (n <=? maximum)%N | None => false end) "select"
               "String ordering requires an explicit length within the backend sort limit"
        else Ok tt
  | None => Ok tt
  end.

Definition check_distinct_order (o : SqlOrder) : res unit :=
  projected ← (if isRaw o then Ok false
               else
                 id ← identity_of (ord_source o);
                 any_of (fun p => if isAggregate (proj_source p) then Ok false
                                  else id' ← identity_of (proj_source p); Ok (bool_decide (id' = id))) (query_projections q));
  requireCapability projected "select projection" "DISTINCT projection queries may order only by projected columns".

Definition isGrouped (source : SqlSource) : res bool :=
  id ← identity_of source; any_of (fun g => id' ← identity_of g; Ok (bool_decide (id' = id))) (groups q).

Definition isAggregateProjection : bool := existsb (fun p => isAggregate (proj_source p)) (query_projections q).

Definition check_grouping : res unit :=
  if qc_strictProjectionGrouping caps && projects && (grouped || hasHaving || isAggregateProjection) then
    forM_ (query_projections q) (fun p =>
      if isAggregate (proj_source p) then Ok tt
      else hit ← isGrouped (proj_source p);
           requireCapability hit "select projection" "Non-aggregate projected columns must appear in GROUP BY") ;;
    forM_ (orders q) (fun o =>
      if isRaw o then Ok tt
      else hit ← isGrouped (ord_source o);
           requireCapability hit "select projection" "Typed ORDER BY columns in aggregate queries must appear in GROUP BY")
  else Ok tt.

(** What [query_caps] says of the clauses of a query. *)
Definition check_clauses : res unit :=
  (if negb projects && (grouped || hasHaving)
   then requireCapability (qc_fullModelGrouping caps) "select" "GROUP BY and HAVING for full-model queries are not supported"
   else Ok tt) ;;
  check_pagination ;;
  (if projects then requireCapability (qc_projections caps) "select projection" "projections are not supported" else Ok tt) ;;
  forM_ (orders q) check_string_order ;;
  (if query_isDistinct q && projects && qc_distinctOrderByRequiresProjectedColumn caps
   then forM_ (orders q) check_distinct_order else Ok tt) ;;
  (if grouped then requireCapability (qc_groupBy caps) "select" "GROUP BY is not supported" else Ok tt) ;;
  (if hasHaving then requireCapability (qc_having caps) "select" "HAVING is not supported" else Ok tt) ;;
  check_grouping.
End queries.

(** Its [std::invalid_argument] becomes a [DatabaseError]. *)
Fixpoint supported_aliases (dialect : SqlDialect) (projections : list SqlProjection) : res unit :=
  match projections with
  | [] => Ok tt
  | p :: projections =>
      match quoteIdentifier dialect (alias p) with
      | Ok _ => supported_aliases dialect projections
      | Err (InvalidArgument _) =>
          throwDatabase UnsupportedFeature "select projection" "A projection alias is not supported by the selected backend"
      | Err e => Err e
      end
  end.

Definition supported_include (caps : RelationCapabilities) (descriptor : ModelView) (include : string) : res unit :=
  m ← deref descriptor;
  r ← requireCollectionRelation m include;
  let target := resolveRelationTarget descriptor r in
  throw_if (negb (Models.valid target))
    (DatabaseError UnsupportedFeature (backendType db) "include collection"
       "An included relation target is outside the selected schema" None) ;;
  ensureModelSupported target "include collection" ;;
  match rv_kind r with
  | RelOneToMany => requireCapability (rc_oneToMany caps) "include collection" "one-to-many relations are not supported"
  | RelManyToMany => requireCapability (rc_manyToMany caps) "include collection" "many-to-many relations are not supported"
  | RelToOne => Ok tt
  end.

Definition isCollection (n : SqlNode) : bool := match kind n with KCollection => true | _ => false end.

(** [ensureQuerySupported(descriptor, view)]; [includes] is the view's member. *)
Definition ensureViewSupported (descriptor : ModelView) (q : SqlQueryView) (includes : list string) : res unit :=
  ensureModelSupported descriptor "select" ;;
  p ← Database_getBackend;
  ensureQueryTypesSupported descriptor q "select" ;;
  supported_aliases (provider_dialect p) (query_projections q) ;;
  check_clauses descriptor q (query_caps (provider_capabilities p)) ;;
  ensureCollectionsSupported (existsb isCollection (nodes (code q))) "select" ;;
  if bool_decide (length includes = 0%nat) then Ok tt
  else
    let caps := relation_caps (provider_capabilities p) in
    requireCapability (rc_collectionIncludes caps) "include collection" "collection includes are not supported" ;;
    forM_ includes (supported_include caps descriptor).

(** The source of a projection, without the check that an aggregate has a column. *)
Definition requirement_projection (p : Projection) : res SqlProjection :=
  source ← match projected p with
           | ColumnSource column => parseSqlSource column
           | AggregateSource e =>
               source ← match agg_column e with Some column => parseSqlSource column | None => Ok no_source end;
               Ok (MkSource (pathParts source) true (function e))
           end;
  Ok (MkSqlProjection source (resultField p)).

Definition select_requirements (dialect : SqlDialect) (spec : SelectSpec) : res SqlQueryView :=
  orders ← mapM sql_order (orderBy spec);
  groups ← mapM parseSqlSource (groupBy spec);
  projections ← mapM requirement_projection (projections spec);
  '(p, h, s) ← appendSelectPredicates dialect start spec;
  Ok (MkQuery Select (program s) p h orders groups projections [] (isDistinct spec) (shouldJoin spec)
        (bool_decide (is_Some (limit spec))) (bool_decide (is_Some (offset spec))) false 0 0 0 0)%N.

(** [ensureQuerySupported(descriptor, spec)]. *)
Definition ensureQuerySupported (descriptor : ModelView) (spec : SelectSpec) (includes : list string) : res unit :=
  backend ← Database_getBackend;
  q ← select_requirements (provider_dialect backend) spec;
  ensureViewSupported descriptor q includes.
End checks.
