(* ===== verification/Binding.v ===== *)
(** Binding: how the values of parameters and of models become the values that the
    drivers are given (modules/orm/database/object_binding.cppm, result_binding.cppm,
    the [bind] of each backend, and bindModelParameters of src/Database.cpp).

    [soci::values] is a map from names to values of the types that SOCI stores; reading
    a value as another type throws. *)
From S2P Require Import Prelude Foundation Chrono Values Codec Schema Models Dialect TargetValues QueryValue Query Emitter Capabilities Commands.
From Stdlib Require Import SpecFloat.
Local Open Scope string_scope.

Inductive SociContent :=
| SociInt (value : Z)
| SociLongLong (value : Z)
| SociUnsigned (value : Z)
| SociDouble (value : double)
| SociString (value : string).

Record SociValue := MkSociValue { content : SociContent; isNullIndicator : bool }.

Abbreviation values := (gmap string SociValue).
Implicit Type vs : gmap string SociValue.

Definition set_value vs (name : string) (c : SociContent) : values := <[name := MkSociValue c false]> vs.

(** [bindTypedNull]. *)
Definition bindTypedNull vs (name : string) (c : SociContent) : values := <[name := MkSociValue c true]> vs.

(** [bindNull] and [setNullValue]. *)
Definition null_content (type : ColumnType) : SociContent :=
  match type with
  | ColumnType.Bool | ColumnType.Char | ColumnType.UnsignedChar | ColumnType.Short | ColumnType.UnsignedShort
  | ColumnType.Int => SociInt 0
  | ColumnType.UnsignedInt | ColumnType.UnsignedLongLong => SociUnsigned 0
  | ColumnType.LongLong => SociLongLong 0
  | ColumnType.Float | ColumnType.Double => SociDouble (S754_zero false)
  | _ => SociString ""
  end.

Definition bindNull vs (name : string) (type : ColumnType) : values := bindTypedNull vs name (null_content type).

(** [encodeScalarValue]. *)
Definition encoded (r : res string) : res string :=
  match r with
  | Err (InvalidArgument _) => Err (ConversionError "A value cannot be represented by its logical column type")
  | r => r
  end.

(** [setScalarFieldValue] of a stored value: what [values.set] is given. *)
Definition scalar_content (name : string) (v : Value) : res SociContent :=
  match v with
  | IntValue z => Ok (SociInt z)
  | LongLongValue z => Ok (SociLongLong z)
  | UnsignedValue z => Ok (SociUnsigned z)
  | DoubleValue d =>
      throw_if (negb (double_cast d)) (ConversionError ("Cannot convert numeric field without data loss: " +:+ name)) ;;
      Ok (SociDouble d)
  | StringValue s => Ok (SociString s)
  | DateValue d => SociString <$> encoded (validate_Date d ;; format_Date d)
  | TimeOfDayValue t => SociString <$> encoded (validate_TimeOfDay t ;; Ok (format_TimeOfDay t))
  | LocalDateTimeValue t => SociString <$> encoded (validate_LocalDateTime t ;; format_LocalDateTime t)
  | UtcTimestampValue t => SociString <$> encoded (validate_UtcTimestamp t ;; format_UtcTimestamp t true)
  | UuidValue u => Ok (SociString (Uuid.toString u))
  end.

Definition hasCompatibleStorage (value : BoundValue) : bool :=
  match bound_value value with None => true | Some v => isCompatibleStorage (bound_type value) v end.

Definition bindBoundValue vs (name : string) (value : BoundValue) : res values :=
  match bound_value value with
  | None => Ok (bindNull vs name (bound_type value))
  | Some v =>
      throw_if (negb (hasCompatibleStorage value))
        (ConversionError "Bound value storage does not match its logical column type") ;;
      c ← scalar_content name v; Ok (set_value vs name c)
  end.

(** ** [bind] of the backends *)

(** An unsigned 64-bit value as a signed one. *)
Definition signed_value (value : BoundValue) (message : string) : res BoundValue :=
  throw_if (negb (hasCompatibleStorage value))
    (ConversionError "Unsigned 64-bit value storage does not match its logical column type") ;;
  match bound_value value with
  | None => Ok (MkBound ColumnType.LongLong None)
  | Some (UnsignedValue z) =>
      throw_if (2 ^ 63 - 1 <? z)%Z (ConversionError message) ;; Ok (MkBound ColumnType.LongLong (Some (LongLongValue z)))
  | Some _ => Err Undefined
  end.

Definition sqlite_bind vs (name : string) (value : BoundValue) : res values :=
  if bool_decide (bound_type value = ColumnType.UnsignedLongLong)
  then wire ← signed_value value "SQLite cannot represent an unsigned 64-bit value above INT64_MAX"; bindBoundValue vs name wire
  else bindBoundValue vs name value.

(** The types of which the drivers have no type of their own. *)
Definition native_type (type : ColumnType) : bool :=
  match type with
  | ColumnType.Date | ColumnType.TimeOfDay | ColumnType.LocalDateTime | ColumnType.UtcTimestamp | ColumnType.Uuid => true
  | _ => false
  end.

Definition requireNativeStorage (value : BoundValue) : res unit :=
  throw_if (negb (hasCompatibleStorage value))
    (ConversionError "Native value storage does not match its logical column type").

Definition holds_NUL (value : BoundValue) : bool :=
  match bound_value value with Some (StringValue s) => contains_char NUL s | _ => false end.

Definition postgresql_bind vs (name : string) (value : BoundValue) : res values :=
  (if native_type (bound_type value) then requireNativeStorage value else Ok tt) ;;
  (if bool_decide (bound_type value = ColumnType.String) then
     throw_if (negb (hasCompatibleStorage value)) (ConversionError "String value storage does not match its logical column type") ;;
     throw_if (holds_NUL value) (ConversionError "PostgreSQL text values must not contain an embedded NUL byte")
   else Ok tt) ;;
  if bool_decide (bound_type value = ColumnType.UnsignedLongLong)
  then wire ← signed_value value "PostgreSQL cannot represent an unsigned 64-bit value above INT64_MAX"; bindBoundValue vs name wire
  else bindBoundValue vs name value.

(** [validateNative] of the alternatives that have it. *)
Definition validateNative (v : Value) (b : BackendType) : res unit :=
  match v with
  | DateValue d => validateNative_Date d b
  | TimeOfDayValue t => validateNative_TimeOfDay t b
  | LocalDateTimeValue t => validateNative_LocalDateTime t b
  | UtcTimestampValue t => validateNative_UtcTimestamp t b
  | UuidValue u => validateNative_Uuid u b
  | _ => Ok tt
  end.

Definition native_checks (b : BackendType) (value : BoundValue) : res unit :=
  throw_if (bool_decide (bound_type value = ColumnType.Uuid) && negb (bool_decide (b = Mariadb)))
    (DatabaseError UnsupportedFeature b "bind" "The backend does not support native UUID values" None) ;;
  requireNativeStorage value ;;
  match bound_value value with
  | None => Ok tt
  | Some v =>
      match validateNative v b with
      | Err (InvalidArgument _) => Err (ConversionError "Value is outside the backend's native type range")
      | r => r
      end
  end.

(** A timestamp is bound as a text without offset. *)
Definition timestamp_wire (value : BoundValue) : res BoundValue :=
  match bound_value value with
  | None => Ok (MkBound ColumnType.String None)
  | Some (UtcTimestampValue t) => text ← format_UtcTimestamp t false; Ok (MkBound ColumnType.String (Some (StringValue text)))
  | Some _ => Err Undefined
  end.

Definition mysql_bind (b : BackendType) vs (name : string) (value : BoundValue) : res values :=
  if native_type (bound_type value) then
    native_checks b value ;;
    if bool_decide (bound_type value = ColumnType.UtcTimestamp)
    then wire ← timestamp_wire value; bindBoundValue vs name wire
    else bindBoundValue vs name value
  else bindBoundValue vs name value.

(** [BackendRuntime::bind] of each built-in backend. *)
Definition bind (b : BackendType) vs (name : string) (value : BoundValue) : res values :=
  match b with
  | Sqlite => sqlite_bind vs name value
  | Postgres => postgresql_bind vs name value
  | _ => mysql_bind b vs name value
  end.

(** ** Models

    [values.get<T>(name)] of a value that was set; SOCI throws for another type. *)
Definition wrong_type {A} : res A := Err (RuntimeError "Value was set using a different type").

Definition read_content (type : ColumnType) (c : SociContent) : res Value :=
  match type with
  | ColumnType.Bool | ColumnType.Char | ColumnType.UnsignedChar | ColumnType.Short | ColumnType.UnsignedShort
  | ColumnType.Int => match c with SociInt z => Ok (IntValue z) | _ => wrong_type end
  | ColumnType.UnsignedInt | ColumnType.UnsignedLongLong =>
      match c with SociUnsigned z => Ok (UnsignedValue z) | _ => wrong_type end
  | ColumnType.LongLong => match c with SociLongLong z => Ok (LongLongValue z) | _ => wrong_type end
  | ColumnType.Float | ColumnType.Double => match c with SociDouble d => Ok (DoubleValue d) | _ => wrong_type end
  | ColumnType.String => match c with SociString s => Ok (StringValue s) | _ => wrong_type end
  | ColumnType.Date => match c with SociString s => DateValue <$> parseDate s | _ => wrong_type end
  | ColumnType.TimeOfDay => match c with SociString s => TimeOfDayValue <$> parseTimeOfDay s | _ => wrong_type end
  | ColumnType.LocalDateTime => match c with SociString s => LocalDateTimeValue <$> parseLocalDateTime s | _ => wrong_type end
  | ColumnType.UtcTimestamp => match c with SociString s => UtcTimestampValue <$> parseUtcTimestamp s | _ => wrong_type end
  | ColumnType.Uuid => match c with SociString s => UuidValue <$> Uuid.parse s | _ => wrong_type end
  end.

(** SOCI's [get_indicator] throws for a name that was not set. *)
Definition get_value vs (name : string) : res SociValue := or_throw (vs !! name) (RuntimeError "Unknown value name").

Definition serializedBoundValue vs (name : string) (type : ColumnType) : res BoundValue :=
  v ← get_value vs name;
  if isNullIndicator v then Ok (MkBound type None)
  else
    match read_content type (content v) with
    | Ok value =>
        throw_if (negb (isCompatibleStorage type value))
          (ConversionError ("Serialized model value does not match its logical column type: " +:+ name)) ;;
        Ok (MkBound type (Some value))
    | Err (ConversionError message) => Err (ConversionError message)
    | Err Undefined => Err Undefined
    | Err _ => Err (ConversionError "Serialized model value has an incompatible representation")
    end.

Section model.
Variable runtime_bind : values -> string -> BoundValue -> res values.
Variable within : BoundValue -> bool.
Variable serialized : values.

(** One parameter: it is read from the serialized model, checked and bound. *)
Definition bind_column (state : values * N) (column : string * ColumnType) : res (values * N) :=
  value ← serializedBoundValue serialized column.1 column.2;
  throw_if (negb (within value)) (ConversionError "A model value exceeds the backend value limits") ;;
  vs ← runtime_bind state.1 column.1 value; Ok (vs, (state.2 + 1)%N).

Definition related_name (column related : ColumnView) : string := cv_name column +:+ "_" +:+ cv_name related.

Definition bind_related (column : ColumnView) (state : values * N) (related : ColumnView) : res (values * N) :=
  if negb (cv_isPrimaryKey related) then Ok state
  else
    type ← or_throw (cv_type related) BadOptionalAccess;
    bind_column state (related_name column related, type).

Definition bind_model_column (descriptor : ModelView) (state : values * N) (column : ColumnView) : res (values * N) :=
  if cv_isAutoIncrement column then Ok state
  else if bool_decide (cv_kind column = ToOne) then
    related ← or_throw (arrow (resolveColumnTarget descriptor column))
                (InvalidArgument "To-one column has no target model in the schema");
    foldM (bind_related column) state (mv_columns related)
  else
    type ← or_throw (cv_type column) BadOptionalAccess;
    bind_column state (cv_name column, type).

(** [bindModelParameters]: the values that are bound, and their number. *)
Definition bindModelParameters (targetValues : values) (descriptor : ModelView) : res (values * N) :=
  m ← deref descriptor; foldM (bind_model_column descriptor) (targetValues, 0%N) (mv_columns m).
End model.
