(* ===== verification/Connection.v ===== *)
(** Connection: the session of a [Database] -- connecting, transactions and statements --
    as computations on the database's state and on the driver behind SOCI
    (src/Database.cpp).

    The driver is third-party code: the class [Driver] says what a call answers and
    what it does to the driver's world.  [events] records the calls. *)
From S2P Require Import Prelude Foundation Values Models Schema PhysicalSql Dialect TargetValues QueryValue Query Emitter Render Capabilities Commands Binding Database.
Local Open Scope string_scope.

(** What a call throws: an exception of the code, [soci::soci_error], or what is not a
    [std::exception]. *)
Inductive thrown := Thrown (e : exn) | Soci (e : soci_error) | Foreign.

(** A cell of a row that is read, with SOCI's indicator. *)
Inductive Indicator := IndicatorOk | IndicatorNull | IndicatorTruncated.
Record Cell := MkCell { cell_content : SociContent; cell_indicator : Indicator }.

(** Calls of [BackendRuntime] and of SOCI, with the type of their answers.  [OpenRows]
    answers how many rows there will be to fetch. *)
Inductive Call : Type -> Type :=
| OpenSession (b : BackendType) : Call unit
| InitializeSession : Call unit
| CloseSession : Call unit
| BeginTransaction : Call unit
| CommitTransaction : Call unit
| RollbackTransaction : Call unit
| ReadLimits : Call RuntimeLimits
| TableExists (tableName : string) : Call bool
| BindParameters (parameters : list StatementParameter) : Call unit
| RunSql (statement : string) : Call unit
| ExecuteStatement (statement : string) (parameters : list StatementParameter) : Call Z
| ExecuteInsert (statement : string) (parameters : list StatementParameter) (conflict : InsertIfAbsentSpec) : Call N
| CountRows (statement : string) (parameters : list StatementParameter) : Call Z
| RunBound (statement : string) (bound : values) : Call unit
| OpenRows (statement : string) (parameters : list StatementParameter) : Call nat
| FetchRow : Call (list Cell).

(** [release] is the destructor of [soci::transaction], which throws nothing. *)
Class Driver := {
  World : Type;
  is_connected : World -> bool;
  perform : forall A : Type, Call A -> World -> result thrown A * World;
  release : World -> World
}.
Arguments perform {_} {A}.

(** A call, without its answer, and how it ended. *)
Inductive label := LOpen (b : BackendType) | LInitialize | LClose | LBegin | LCommit | LRollback | LRelease | LRead | LSql.
Inductive ending := Answered | Failed (e : thrown).
Abbreviation event := (label * ending)%type.

Definition call_label {A} (c : Call A) : label :=
  match c with
  | OpenSession b => LOpen b
  | InitializeSession => LInitialize
  | CloseSession => LClose
  | BeginTransaction => LBegin
  | CommitTransaction => LCommit
  | RollbackTransaction => LRollback
  | ReadLimits | TableExists _ | BindParameters _ => LRead
  | RunSql _ | ExecuteStatement _ _ | ExecuteInsert _ _ _ | CountRows _ _ | RunBound _ _ | OpenRows _ _ | FetchRow => LSql
  end.

Section connection.
Context `{Driver}.
Variable commandGeneratorFactory : Factory.

(** [events] holds the latest call first. *)
Record State := MkState { database : Database; world : World; events : list event }.

(** ** The monad *)
Definition M (A : Type) : Type := State -> result thrown A * State.

#[export] Instance M_ret : MRet M := fun A a s => (Ok a, s).
#[export] Instance M_bind : MBind M :=
  fun A B k m s => match m s with (Ok a, s) => k a s | (Err e, s) => (Err e, s) end.

Definition throw {A} (e : thrown) : M A := fun s => (Err e, s).
Definition throw_exn {A} (e : exn) : M A := throw (Thrown e).
Definition get_database : M Database := fun s => (Ok (database s), s).
Definition set_database (d : Database) : M unit := fun s => (Ok tt, MkState d (world s) (events s)).

(** [try { m } catch (...)]: the handler is given what was thrown. *)
Definition catch {A} (m : M A) (handler : thrown -> M A) : M A :=
  fun s => match m s with (Ok a, s) => (Ok a, s) | (Err e, s) => handler e s end.

Definition ending_of {A} (r : result thrown A) : ending := match r with Ok _ => Answered | Err e => Failed e end.

Definition call {A} (c : Call A) : M A :=
  fun s => let '(r, w) := perform c (world s) in
           (r, MkState (database s) w ((call_label c, ending_of r) :: events s)).

(** [transaction.reset()]. *)
Definition reset_transaction : M unit :=
  fun s => (Ok tt, MkState (database s) (release (world s)) ((LRelease, Answered) :: events s)).

(** A check of [Database]; it makes no call. *)
Definition check {A} (f : Database -> bool -> res A) : M A :=
  fun s => match f (database s) (is_connected (world s)) with Ok a => (Ok a, s) | Err e => (Err (Thrown e), s) end.

Definition set_transaction (active failed : bool) : M unit :=
  d ← get_database; set_database (MkDatabase (backend d) (backendType d) active failed (migrationActive d)).

(** ** Errors *)

(** [throwTranslatedError]. *)
Definition throwTranslatedError {A} (error : soci_error) (fallback : DatabaseErrorCode) (operation : string) : M A :=
  d ← get_database;
  match backend d with
  | None => throw_exn (DatabaseError NotConnectedError Empty "database operation"
                         "No database backend is available to translate the driver error" None)
  | Some p =>
      (if transaction d && statementErrorInvalidatesTransaction (provider_runtime p) error
       then set_transaction (transaction d) true else mret tt) ;;
      throw_exn (translateError (provider_runtime p) error fallback operation)
  end.

(** [catch (const soci::soci_error&)]. *)
Definition translated {A} (m : M A) (fallback : DatabaseErrorCode) (operation : string) : M A :=
  catch m (fun e => match e with Soci error => throwTranslatedError error fallback operation | _ => throw e end).

(** ** Connecting *)
Definition closeFailedSession : M unit := catch (call CloseSession) (fun _ => mret tt).

Definition connect (requestedBackend : BackendType) : M unit :=
  d ← get_database;
  match backend d with
  | Some _ => throw_exn (DatabaseError AlreadyConnected (backendType d) "connect" "A database session is already connected" None)
  | None =>
      match getBackend commandGeneratorFactory requestedBackend with
      | Err OutOfRange =>
          throw_exn (DatabaseError UnsupportedBackendError requestedBackend "connect" "The requested backend is not registered" None)
      | Err e => throw_exn e
      | Ok p =>
          catch (call (OpenSession requestedBackend) ;; call InitializeSession) (fun e =>
            closeFailedSession ;;
            match e with
            | Thrown (DatabaseError _ _ _ _ _) => throw e
            | Soci error => throw_exn (translateError (provider_runtime p) error Connection "connect")
            | _ => throw_exn (DatabaseError Connection requestedBackend "connect" "Backend session initialization failed" None)
            end) ;;
          set_database (MkDatabase (Some p) requestedBackend (transaction d) (transactionFailed d) (migrationActive d))
      end
  end.

(** The first failure is kept. *)
Definition disconnect : M unit :=
  d ← get_database;
  match backend d with
  | None => set_database (MkDatabase None Empty (transaction d) (transactionFailed d) (migrationActive d))
  | Some p =>
      failure ← (if transaction d then
                   failure ← catch (call RollbackTransaction ;; mret None) (fun e =>
                     match e with
                     | Soci error =>
                         mret (Some (translateError (provider_runtime p) error TransactionError "rollback during disconnect"))
                     | _ => throw e
                     end);
                   reset_transaction ;; set_transaction false false ;; mret failure
                 else mret None);
      failure ← catch (call CloseSession ;; mret failure) (fun e =>
        mret (Some (match failure, e with
                    | Some first, _ => first
                    | None, Soci error => translateError (provider_runtime p) error Connection "disconnect"
                    | None, _ => DatabaseError Connection (backendType d) "disconnect" "Backend session cleanup failed" None
                    end)));
      d ← get_database;
      set_database (MkDatabase None Empty (transaction d) false false) ;;
      match failure with Some e => throw_exn e | None => mret tt end
  end.

(** [~Database]. *)
Definition Database_end : M unit := catch disconnect (fun _ => mret tt).

(** ** Transactions *)
Definition transactionError {A} (operation message : string) : M A :=
  d ← get_database; throw_exn (DatabaseError TransactionError (backendType d) operation message None).

Definition beginTransaction : M unit :=
  capabilities ← check getBackendCapabilities;
  check (fun d _ => requireCapability d (transactions capabilities) "begin transaction" "transactions are not supported") ;;
  d ← get_database;
  if transaction d || migrationActive d then transactionError "begin transaction" "A transaction is already active"
  else translated (call BeginTransaction ;; set_transaction true false) TransactionError "begin transaction".

(** The end of a transaction by [c]: the object is destroyed however the call ends,
    unless the exception is not SOCI's. *)
Definition endTransaction (c : Call unit) (operation : string) : M unit :=
  catch (call c ;; reset_transaction ;; set_transaction false false) (fun e =>
    match e with
    | Soci error =>
        reset_transaction ;; set_transaction false false ;; throwTranslatedError error TransactionError operation
    | _ => throw e
    end).

Definition commitTransaction : M unit :=
  check (fun d c => _ ← Database_getBackend d c; Ok tt) ;;
  d ← get_database;
  if negb (transaction d) then transactionError "commit transaction" "No transaction is active"
  else if transactionFailed d
  then transactionError "commit transaction" "The transaction contains a failed statement and must be rolled back"
  else endTransaction CommitTransaction "commit transaction".

Definition rollbackTransaction : M unit :=
  check (fun d c => _ ← Database_getBackend d c; Ok tt) ;;
  d ← get_database;
  if negb (transaction d) then transactionError "rollback transaction" "No transaction is active"
  else endTransaction RollbackTransaction "rollback transaction".

(** ** Limits *)
Definition getBackendRuntimeLimits : M RuntimeLimits :=
  check (fun d c => ensureSessionUsable d c "read backend limits") ;;
  translated (check Database_getBackend ;; call ReadLimits) StatementError "read backend limits".

Definition ensureStatementWithinBindLimit (parameterCount : N) (operation : string) : M unit :=
  if (parameterCount =? 0)%N then mret tt
  else
    limits ← getBackendRuntimeLimits;
    match maxBindParameters limits with
    | Some maximum =>
        if (maximum <? parameterCount)%N
        then check (fun d _ => throwDatabase d UnsupportedFeature operation "The statement exceeds the backend bind-parameter limit")
        else mret tt
    | None => mret tt
    end.

(** [StatementParameter::getBoundValue]. *)
Definition getBoundValue (p : StatementParameter) : res BoundValue :=
  match parameter_value p with
  | Some v => Ok (MkBound (getLogicalType v) (Some (get v)))
  | None =>
      type ← or_throw (nullType p) (InvalidArgument "A NULL statement parameter requires an explicit logical type");
      Ok (MkBound type None)
  end.

Definition ensureBoundValueSupported (value : BoundValue) (operation : string) : M unit :=
  capabilities ← check getBackendCapabilities;
  check (fun d _ => requireCapability d (supportsColumnType capabilities (bound_type value)) operation
                      "A bound value type is not supported by the backend") ;;
  limits ← getBackendRuntimeLimits;
  if QueryValue.isWithinValueLimits value (maxUnsignedLongLong capabilities) (value_limits capabilities) (timestamp_limits limits)
  then mret tt
  else check (fun d _ => throwDatabase d Conversion operation "A bound value exceeds the backend value limits").

Fixpoint ensureParametersSupported (parameters : list StatementParameter) (operation : string) : M unit :=
  match parameters with
  | [] => mret tt
  | p :: parameters =>
      value ← check (fun _ _ => getBoundValue p);
      ensureBoundValueSupported value operation ;; ensureParametersSupported parameters operation
  end.

(** ** Statements *)
Definition executeMutation (statement : Statement) (operation : string) : M N :=
  check (fun d c => ensureSessionUsable d c operation) ;;
  ensureStatementWithinBindLimit (size_of (parameters statement)) operation ;;
  check (fun d c => ensureAffectedRowsAvailable d c operation) ;;
  ensureParametersSupported (parameters statement) operation ;;
  catch (check Database_getBackend ;; call (BindParameters (parameters statement)) ;;
         affected ← call (ExecuteStatement (sql statement) (parameters statement));
         p ← check Database_getBackend;
         check (fun _ _ => runtime_normalizeAffectedRows (provider_runtime p) affected))
    (fun e =>
       d ← get_database;
       match e with
       | Thrown (DatabaseError _ _ _ _ _) => throw e
       | Thrown (ConversionError _) =>
           throw_exn (DatabaseError Conversion (backendType d) operation
                        "A mutation value cannot be represented by the selected backend" None)
       | Soci error => throwTranslatedError error StatementError operation
       | Thrown Undefined | Foreign => throw e
       | Thrown _ =>
           throw_exn (DatabaseError AffectedRowsUnavailable (backendType d) operation
                        "The backend did not provide a usable affected-row count" None)
       end).

Definition executeSql (statement operation : string) : M unit :=
  check (fun d c => ensureDdlSupported d c operation) ;;
  translated (call (RunSql statement)) StatementError operation.

Definition conversion_translated {A} (m : M A) (operation message : string) : M A :=
  catch m (fun e =>
    d ← get_database;
    match e with
    | Thrown (ConversionError _) => throw_exn (DatabaseError Conversion (backendType d) operation message None)
    | Soci error => throwTranslatedError error StatementError operation
    | _ => throw e
    end).

Definition executeInsertIfAbsent (statement : Statement) (conflict : InsertIfAbsentSpec) (operation : string) : M N :=
  check (fun d c => ensureSessionUsable d c operation) ;;
  ensureStatementWithinBindLimit (size_of (parameters statement)) operation ;;
  check (fun d c => ensureAffectedRowsAvailable d c operation) ;;
  ensureParametersSupported (parameters statement) operation ;;
  conversion_translated (check Database_getBackend ;; call (ExecuteInsert (sql statement) (parameters statement) conflict)) operation
    "A relation value cannot be represented by the selected backend".

Definition tableExists (tableName : string) : M bool :=
  check (fun d c => ensureSessionUsable d c "inspect schema") ;;
  translated (check Database_getBackend ;; call (TableExists tableName)) StatementError "inspect schema".

(** ** Schemas *)
Definition SIZE_MAX : N := 2 ^ 64 - 1.

(** The bytes of a key column in an index, [None] for a string whose length is not
    supported. *)
Definition key_part (c : ColumnView) (type : ColumnType) : option N :=
  match type with
  | ColumnType.String =>
      match cv_maxStringLength c with
      | Some n => if (SIZE_MAX / 4 <? n)%N then None else Some (n * 4)%N
      | None => None
      end
  | ColumnType.Bool | ColumnType.UnsignedChar => Some 1%N
  | ColumnType.Char | ColumnType.Short | ColumnType.UnsignedShort => Some 2%N
  | ColumnType.Int | ColumnType.UnsignedInt => Some 4%N
  | ColumnType.Date => Some 3%N
  | ColumnType.TimeOfDay => Some 6%N
  | ColumnType.UtcTimestamp => Some 7%N
  | ColumnType.Uuid => Some 16%N
  | _ => Some 8%N
  end.

Section budget.
Variable d : Database.
Variable operation : string.

Definition exceeds_budget {A} : res A := throwDatabase d UnsupportedFeature operation "The declared key exceeds the backend index budget".

Definition add_key_part (endpoint : ModelDataView) (bytes index : N) : res N :=
  column ← column_at endpoint index;
  type ← column_type column;
  match key_part column type with
  | None => throwDatabase d UnsupportedFeature operation "Textual keys require a supported explicit string length"
  | Some part => if (SIZE_MAX - bytes <? part)%N then exceeds_budget else Ok (bytes + part)%N
  end.

Definition keySize (endpoint : ModelView) : res N :=
  m ← deref endpoint; foldM (add_key_part m) 0%N (mv_primaryKeyIndices m).

Definition checkBudget (limits : RuntimeLimits) (bytes : N) : res unit :=
  match maxIndexBytes limits with
  | Some maximum => if (maximum <? bytes)%N then exceeds_budget else Ok tt
  | None => Ok tt
  end.

Definition check_reference (limits : RuntimeLimits) (descriptor : ModelView) (c : ColumnView) : res unit :=
  if bool_decide (cv_kind c = ToOne)
  then bytes ← keySize (resolveColumnTarget descriptor c); checkBudget limits bytes else Ok tt.

Definition check_junction (limits : RuntimeLimits) (descriptor : ModelView) (ownerBytes : N) (r : RelationView) : res unit :=
  if bool_decide (rv_kind r = RelManyToMany) && jv_owningSide (rv_junction r) then
    targetBytes ← keySize (resolveRelationTarget descriptor r);
    if (SIZE_MAX - ownerBytes <? targetBytes)%N
    then throwDatabase d UnsupportedFeature operation "The declared junction key exceeds the backend index budget"
    else checkBudget limits (ownerBytes + targetBytes)%N
  else Ok tt.

Definition check_budgets (limits : RuntimeLimits) (descriptor : ModelView) (includeJunctions : bool) : res unit :=
  m ← deref descriptor;
  ownerBytes ← keySize descriptor;
  checkBudget limits ownerBytes ;;
  forM_ (mv_columns m) (check_reference limits descriptor) ;;
  if includeJunctions then forM_ (mv_relations m) (check_junction limits descriptor ownerBytes) else Ok tt.
End budget.

Definition ensureSchemaSupported (descriptor : ModelView) (includeJunctions : bool) (operation : string) : M unit :=
  check (fun d c => ensureDdlSupported d c operation) ;;
  capabilities ← check getBackendCapabilities;
  if negb (sc_boundedStringKeys (schema_caps capabilities)) then mret tt
  else
    limits ← getBackendRuntimeLimits;
    check (fun d _ => check_budgets d operation limits descriptor includeJunctions).

(** ** Relations *)
Definition endpointName (i : nat) : string := "orm_endpoint_" +:+ to_string (N.of_nat i).

Definition endpoint_predicate (dialect : SqlDialect) (item : nat * ColumnView) : res string :=
  q ← quoteIdentifier dialect (cv_name item.2);
  m ← bindMarker dialect (endpointName item.1);
  Ok (q +:+ " = " +:+ m).

(** The statement that counts the rows of a key. *)
Definition endpointStatement (dialect : SqlDialect) (m : ModelDataView) (columns : list ColumnView) (key : PrimaryKey) : res Statement :=
  predicates ← mapM (endpoint_predicate dialect) (imap pair columns);
  table ← quoteIdentifier dialect (mv_tableName m);
  Ok (MkStatement ("SELECT COUNT(*) FROM " +:+ table +:+ " WHERE " +:+ join_nonempty " AND " predicates +:+ ";")
        (key_parameters endpointName key)).

Definition relationEndpointExists (model : ModelView) (key : PrimaryKey) : M bool :=
  statement ← check (fun d c =>
    m ← deref model;
    ensureEndpointKeySupported d m key "link relation" ;;
    columns ← requireEndpointKeyColumns m key;
    p ← Database_getBackend d c;
    endpointStatement (provider_dialect p) m columns key);
  ensureParametersSupported (parameters statement) "validate relation endpoint" ;;
  ensureStatementWithinBindLimit (size_of (parameters statement)) "validate relation endpoint" ;;
  count ← conversion_translated
            (check Database_getBackend ;; call (BindParameters (parameters statement)) ;;
             call (CountRows (sql statement) (parameters statement)))
            "validate relation endpoint" "A relation key cannot be represented by the selected backend";
  mret (0 <? count)%Z.

Definition owningJunctionRelations (owner : ModelDataView) : list RelationView :=
  List.filter (fun r => bool_decide (rv_kind r = RelManyToMany) && isConfigured (rv_junction r) && jv_owningSide (rv_junction r))
    (mv_relations owner).

(** The checks of a relation's endpoints up to their tables. *)
Definition endpoint_types (d : Database) (caps : BackendCapabilities) (owner : ModelView) (m : ModelDataView) (r : RelationView)
    : res ModelDataView :=
  target ← or_throw (arrow (resolveRelationTarget owner r))
             (InvalidArgument "ManyToMany relation target is outside the selected schema");
  ownerPrimaryKey ← getPrimaryKeyColumns m;
  targetPrimaryKey ← getPrimaryKeyColumns target;
  (if (1 <? length ownerPrimaryKey)%nat || (1 <? length targetPrimaryKey)%nat
   then requireCapability d (rc_compositeEndpointKeys (relation_caps caps)) "create relation tables"
          "composite relation endpoint keys are not supported"
   else Ok tt) ;;
  forM_ targetPrimaryKey (requireColumnType d caps "create relation tables"
                            "A target primary-key type is not supported by the backend") ;;
  Ok target.

Fixpoint endpoint_tables (owner : ModelView) (m : ModelDataView) (caps : BackendCapabilities) (relations : list RelationView) : M unit :=
  match relations with
  | [] => mret tt
  | r :: relations =>
      target ← check (fun d _ => endpoint_types d caps owner m r);
      there ← tableExists (mv_tableName m);
      there ← (if there : bool then tableExists (mv_tableName target) else mret false);
      (if there : bool then mret tt
       else throw_exn (InvalidArgument "ManyToMany endpoint tables must exist before creating relation tables")) ;;
      endpoint_tables owner m caps relations
  end.

Definition ensureRelationTableEndpointsExist (owner : ModelView) : M unit :=
  caps ← check getBackendCapabilities;
  check (fun d _ =>
    let require supported message := requireCapability d supported "create relation tables" message in
    require (sc_createTableIfNotExists (schema_caps caps)) "idempotent table creation is not supported" ;;
    require (sc_compositePrimaryKeys (schema_caps caps)) "composite primary keys are not supported" ;;
    require (sc_foreignKeys (schema_caps caps)) "foreign keys are not supported" ;;
    require (sc_onDeleteCascade (schema_caps caps)) "cascading foreign keys are not supported" ;;
    require (rc_junctionTables (relation_caps caps)) "junction tables are not supported" ;;
    require (rc_manyToMany (relation_caps caps)) "many-to-many relations are not supported") ;;
  m ← check (fun _ _ => deref owner);
  endpoint_tables owner m caps (owningJunctionRelations m).

(** [migrations::detail::DatabaseAccess] sets [migrationActive] directly. *)
Definition setMigrationActive (active : bool) : M unit :=
  d ← get_database;
  set_database (MkDatabase (backend d) (backendType d) (transaction d) (transactionFailed d) active).
End connection.
