(* ===== verification/Connections.v ===== *)
(** Connections: what the driver sees of a session.  Every sequence of calls that the
    operations of [Database] make is one that the automaton below accepts, and the
    database's own state always agrees with the automaton's. *)
From S2P Require Import Prelude Foundation Values Models Schema PhysicalSql Dialect TargetValues QueryValue Query Emitter Render Capabilities Commands Database Connection.
Local Open Scope string_scope.

(** ** The protocol *)
Inductive phase :=
| Closed
| Opening (p : BackendProvider)   (* opened, not initialized *)
| Failing                         (* opening or initializing failed *)
| Idle (p : BackendProvider)
| Active (p : BackendProvider)    (* in a transaction *)
| Poisoned (p : BackendProvider)  (* in a transaction with a failed statement *)
| Finished (p : BackendProvider). (* the transaction ended, its object lives *)

Section protocol.
Variable factory : Factory.

Definition invalidates (p : BackendProvider) : soci_error -> bool :=
  statementErrorInvalidatesTransaction (provider_runtime p).

(** The phase after an error of a statement. *)
Definition after_error (e : soci_error) (ph : phase) : phase :=
  match ph with Active p => if invalidates p e then Poisoned p else ph | _ => ph end.

(** A transaction ends with the call that ends it unless it throws what SOCI does not. *)
Definition after_end (p : BackendProvider) (ph : phase) (e : ending) : phase :=
  match e with Answered | Failed (Soci _) => Finished p | Failed _ => ph end.

Definition advance (ph : phase) (ev : event) : option phase :=
  match ph, ev with
  | Closed, (LOpen b, e) =>
      match getBackend factory b, e with
      | Ok p, Answered => Some (Opening p)
      | Ok p, Failed _ => Some Failing
      | Err _, _ => None
      end
  | Opening p, (LInitialize, e) => Some (match e with Answered => Idle p | Failed _ => Failing end)
  | Failing, (LClose, _) => Some Closed
  | Idle p, (LBegin, e) => Some (match e with Answered => Active p | Failed _ => ph end)
  | Idle p, (LClose, _) => Some Closed
  | Idle _, (LRead, _) | Idle _, (LSql, _) => Some ph
  | Active _, (LRead, e) | Active _, (LSql, e) => Some (match e with Failed (Soci e) => after_error e ph | _ => ph end)
  | Active p, (LCommit, e) => Some (after_end p ph e)
  | Active p, (LRollback, e) | Poisoned p, (LRollback, e) => Some (after_end p ph e)
  | Finished p, (LRelease, _) => Some (Idle p)
  | _, _ => None
  end.

(** The latest call is the first of the list. *)
Fixpoint phase_after (evs : list event) : option phase :=
  match evs with
  | [] => Some Closed
  | ev :: evs => ph ← phase_after evs; advance ph ev
  end.

(** The state of the database that a phase stands for, between its operations. *)
Definition agrees (ph : phase) (d : Database) : Prop :=
  match ph with
  | Closed => d = disconnected
  | Idle p => backend d = Some p /\ transaction d = false /\ transactionFailed d = false
  | Active p => backend d = Some p /\ transaction d = true /\ transactionFailed d = false
  | Poisoned p => backend d = Some p /\ transaction d = true /\ transactionFailed d = true
  | _ => False
  end.
End protocol.

(** ** Operations *)
Section operations.
Context `{Driver}.
Variable factory : Factory.

Inductive operation :=
| Connect (b : BackendType)
| Disconnect
| Begin
| Commit
| Rollback
| SetMigration (active : bool)
| ExecuteMutation (statement : Statement) (name : string)
| ExecuteSql (statement name : string)
| ExecuteInsertIfAbsent (statement : Statement) (conflict : InsertIfAbsentSpec) (name : string)
| InspectTable (name : string)
| CheckSchema (descriptor : ModelView) (includeJunctions : bool) (name : string)
| FindEndpoint (model : ModelView) (key : PrimaryKey)
| CheckRelationTables (owner : ModelView).

Definition discard {A} (m : M A) : M unit := m ;; mret tt.

Definition run (o : operation) : M unit :=
  match o with
  | Connect b => connect factory b
  | Disconnect => disconnect
  | Begin => beginTransaction
  | Commit => commitTransaction
  | Rollback => rollbackTransaction
  | SetMigration active => setMigrationActive active
  | ExecuteMutation statement name => discard (executeMutation statement name)
  | ExecuteSql statement name => executeSql statement name
  | ExecuteInsertIfAbsent statement conflict name => discard (executeInsertIfAbsent statement conflict name)
  | InspectTable name => discard (tableExists name)
  | CheckSchema descriptor includeJunctions name => ensureSchemaSupported descriptor includeJunctions name
  | FindEndpoint model key => discard (relationEndpointExists model key)
  | CheckRelationTables owner => ensureRelationTableEndpointsExist owner
  end.

(** A migration is active only on a connected session: its owner sees to that. *)
Definition allowed (o : operation) (s : State) : Prop :=
  match o with SetMigration true => backend (database s) <> None | _ => True end.

(** The states that sequences of operations lead to, whatever each ends with. *)
Inductive reachable : State -> Prop :=
| reachable_fresh w : reachable (MkState disconnected w [])
| reachable_run s o : reachable s -> allowed o s -> reachable (run o s).2.

(** ** Invariants *)
Definition at_phase (ph : phase) (s : State) : Prop := phase_after factory (events s) = Some ph /\ agrees ph (database s).
Definition inv (s : State) : Prop := exists ph, at_phase ph s.
Definition usable (s : State) : Prop := exists p, at_phase (Idle p) s \/ at_phase (Active p) s.

(** A statement failed with [e], which the database does not know yet. *)
Definition pending (e : soci_error) (s : State) : Prop :=
  exists p ph, (ph = Idle p \/ ph = Active p) /\ agrees ph (database s) /\
  phase_after factory (events s) = Some (after_error e ph).

Lemma usable_inv s : usable s -> inv s.
Proof. intros (p & [Hp|Hp]); by eexists. Qed.

(** *** Contracts

    Starting from [P], [m] gives [Q] when it returns and [E] when it throws. *)
Definition contract {A} (P : State -> Prop) (m : M A) (Q : A -> State -> Prop) (E : thrown -> State -> Prop) : Prop :=
  forall s, P s -> match m s with (Ok a, s') => Q a s' | (Err e, s') => E e s' end.

(** An operation keeps the invariant and throws no error of the driver. *)
Definition refused (e : thrown) (s : State) : Prop := match e with Soci _ => False | _ => inv s end.
Abbreviation sound P m Q := (contract P m Q refused).

(** The driver errors of a part of an operation are still to be translated. *)
Definition broken (e : thrown) (s : State) : Prop := match e with Soci e => pending e s | _ => inv s end.
Abbreviation working m := (contract usable m (fun _ => usable) broken).

Lemma contract_bind {A B} P (m : M A) Q (k : A -> M B) R E :
  contract P m Q E -> (forall a, contract (Q a) (k a) R E) -> contract P (m ≫= k) R E.
Proof. intros Hm Hk s Hs. specialize (Hm s Hs). unfold mbind, M_bind. destruct (m s) as [[a|e] s']; [by apply Hk|done]. Qed.

Lemma contract_catch {A} P (m : M A) handler Q E E' :
  contract P m Q E -> (forall e, contract (E e) (handler e) Q E') -> contract P (catch m handler) Q E'.
Proof. intros Hm Hh s Hs. specialize (Hm s Hs). unfold catch. destruct (m s) as [[a|e] s']; [done|by apply Hh]. Qed.

Lemma contract_weaken {A} (P P' : State -> Prop) (m : M A) (Q Q' : A -> State -> Prop) (E E' : thrown -> State -> Prop) :
  contract P m Q E -> (forall s, P' s -> P s) -> (forall a s, Q a s -> Q' a s) -> (forall e s, E e s -> E' e s) ->
  contract P' m Q' E'.
Proof. intros Hm HP HQ HE s Hs. specialize (Hm s (HP s Hs)). destruct (m s) as [[a|e] s']; auto. Qed.

Lemma contract_ret {A} (P : State -> Prop) (a : A) (Q : A -> State -> Prop) E : (forall s, P s -> Q a s) -> contract P (mret a) Q E.
Proof. intros HQ s Hs. by apply HQ. Qed.

Lemma contract_throw {A} (P : State -> Prop) e (Q : A -> State -> Prop) (E : thrown -> State -> Prop) :
  (forall s, P s -> E e s) -> contract P (throw e) Q E.
Proof. intros HP s Hs. by apply HP. Qed.

Lemma contract_check {A} (P : State -> Prop) (f : Database -> bool -> res A) (Q : A -> State -> Prop) (E : thrown -> State -> Prop) :
  (forall s a, P s -> f (database s) (is_connected (world s)) = Ok a -> Q a s) ->
  (forall s e, P s -> E (Thrown e) s) -> contract P (check f) Q E.
Proof. intros HQ HE s Hs. unfold check. destruct (f _ _) eqn:Hf; [by apply HQ|by apply HE]. Qed.

Lemma contract_database {A} (P : State -> Prop) (k : Database -> M A) Q E :
  (forall d, contract (fun s => P s /\ database s = d) (k d) Q E) -> contract P (get_database ≫= k) Q E.
Proof. intros Hk s Hs. exact (Hk (database s) s (conj Hs eq_refl)). Qed.

Lemma on_database {A} (k : Database -> M A) P (Q : A -> State -> Prop) E :
  (forall d, contract P (k d) Q E) -> contract P (get_database ≫= k) Q E.
Proof. intros Hk. apply contract_database. intros d s [Hs _]. exact (Hk d s Hs). Qed.

(** A call in a known phase. *)
Definition in_phase (ph : phase) (d : Database) (s : State) : Prop :=
  phase_after factory (events s) = Some ph /\ database s = d.

Lemma contract_call {A} (c : Call A) ph d next (failing : thrown -> phase) :
  advance factory ph (call_label c, Answered) = Some next ->
  (forall e, advance factory ph (call_label c, Failed e) = Some (failing e)) ->
  contract (in_phase ph d) (call c) (fun _ => in_phase next d) (fun e => in_phase (failing e) d).
Proof.
  intros Hnext Hfailing s [Hph Hd]. unfold call. destruct (perform c (world s)) as [[a|e] w]; (split; [|done]);
    simpl; rewrite Hph; simpl; auto.
Qed.

Lemma contract_set {E} ph d d' : contract (in_phase ph d) (set_database d') (fun _ => in_phase ph d') E.
Proof. intros s [Hph _]. by split. Qed.

Lemma contract_get {A} ph d (k : Database -> M A) Q E :
  contract (in_phase ph d) (k d) Q E -> contract (in_phase ph d) (get_database ≫= k) Q E.
Proof. intros Hk s Hs. pose proof Hs as [_ Hd]. unfold mbind, M_bind, get_database. rewrite Hd. by apply Hk. Qed.

Lemma in_phase_inv ph d s : agrees ph d -> in_phase ph d s -> inv s.
Proof. intros Ha [Hph Hd]. exists ph. by split; [|rewrite Hd]. Qed.

(** The first part of a computation keeps its contract. *)
Tactic Notation "run_first" open_constr(H) := eapply contract_bind; [apply H|intros ?; cbv beta].

(** Reading and statements. *)
Lemma working_call {A} (c : Call A) : call_label c = LRead \/ call_label c = LSql -> working (call c).
Proof.
  intros Hc s (p & Hs).
  assert (Hgo : forall ph, ph = Idle p \/ ph = Active p -> at_phase ph s ->
    match call c s with
    | (Ok _, s') => at_phase ph s'
    | (Err (Soci e), s') => pending e s'
    | (Err _, s') => inv s'
    end).
  { intros ph Hph [Hafter Hd].
    assert (Hok := contract_call c ph (database s) ph (fun e => match e with Soci e => after_error e ph | _ => ph end)).
    specialize (Hok ltac:(by destruct Hc as [-> | ->], Hph as [-> | ->])
                    ltac:(by intros e; destruct Hc as [-> | ->], Hph as [-> | ->], e) s (conj Hafter eq_refl)).
    destruct (call c s) as [[a|e] s'].
    - destruct Hok as [? Hsame]. split; [done|]. by rewrite Hsame.
    - destruct e as [e|e|]; [by apply (in_phase_inv ph (database s))| |by apply (in_phase_inv ph (database s))].
      destruct Hok as [? Hsame]. exists p, ph. rewrite Hsame. done. }
  destruct Hs as [Hs|Hs].
  - specialize (Hgo _ (or_introl eq_refl) Hs). destruct (call c s) as [[a|e] s']; [exists p; by left|by destruct e].
  - specialize (Hgo _ (or_intror eq_refl) Hs). destruct (call c s) as [[a|e] s']; [exists p; by right|by destruct e].
Qed.

(** What is pending is settled by the translation of the error. *)
Lemma settled {A} e fallback name (Q : A -> State -> Prop) : sound (pending e) (throwTranslatedError e fallback name) Q.
Proof.
  intros s (p & ph & Hph & Hd & Hafter). destruct s as [[bk bt tx fl mi] w evs]. simpl in *.
  unfold throwTranslatedError, mbind, M_bind, get_database. cbn [database backend].
  destruct Hph as [-> | ->]; simpl in Hd; destruct Hd as (-> & -> & ->); cbn [transaction andb].
  - change (inv (MkState (MkDatabase (Some p) bt false false mi) w evs)). by exists (Idle p).
  - simpl in Hafter. unfold invalidates in Hafter. destruct (statementErrorInvalidatesTransaction (provider_runtime p) e).
    + change (inv (MkState (MkDatabase (Some p) bt true true mi) w evs)). by exists (Poisoned p).
    + change (inv (MkState (MkDatabase (Some p) bt true false mi) w evs)). by exists (Active p).
Qed.

Lemma sound_usable {A} (m : M A) (Q : A -> State -> Prop) : sound inv m Q -> sound usable m Q.
Proof. intros Hm. eapply contract_weaken; [exact Hm|apply usable_inv|done..]. Qed.

Tactic Notation "run_usable" open_constr(H) := eapply contract_bind; [apply sound_usable, H|intros ?; cbv beta].

Lemma rethrown {A} e (Q : A -> State -> Prop) :
  match e with Soci _ => False | _ => True end -> contract (broken e) (throw e) Q refused.
Proof. intros He. apply contract_throw. by destruct e. Qed.

Lemma replaced {A} e e' (Q : A -> State -> Prop) :
  match e with Soci _ => False | _ => True end -> contract (broken e) (throw_exn e') Q refused.
Proof. intros He. apply contract_throw. by destruct e. Qed.

Ltac handled := first [done | by apply rethrown | by apply replaced | apply settled].

Lemma translated_sound {A} (m : M A) fallback name : working m -> sound usable (translated m fallback name) (fun _ => usable).
Proof. intros Hm. eapply contract_catch; [done|]. intros e. destruct e; handled. Qed.

Lemma conversion_translated_sound {A} (m : M A) name message :
  working m -> sound usable (conversion_translated m name message) (fun _ => usable).
Proof.
  intros Hm. eapply contract_catch; [done|]. intros e. apply on_database. intros d. destruct e as [[]| |]; handled.
Qed.

Lemma working_check {A} (f : Database -> bool -> res A) : working (check f).
Proof. apply contract_check; [done|]. intros s e. apply usable_inv. Qed.

(** *** Sessions that can be used *)
Lemma getBackend_Ok d c p : Database_getBackend d c = Ok p <-> backend d = Some p /\ c = true.
Proof.
  unfold Database_getBackend. destruct (backend d), c; simpl; split; try done; try (by intros [? ?]).
  - by intros [= ->].
  - by intros [[= ->] _].
Qed.

Lemma ensureSessionUsable_Ok d c name u :
  ensureSessionUsable d c name = Ok u -> exists p, backend d = Some p /\ transactionFailed d = false.
Proof.
  unfold ensureSessionUsable. intros (p & [Hp _]%getBackend_Ok & Hu)%bind_Ok_iff. exists p.
  by destruct (transactionFailed d).
Qed.

Lemma inv_usable s p : inv s -> backend (database s) = Some p -> transactionFailed (database s) = false -> usable s.
Proof.
  intros (ph & Hph & Hd) Hb Hf. destruct s as [[bk bt tx fl mi] w evs]. simpl in *. subst.
  destruct ph as [| | |q|q|q|]; simpl in Hd; try done; destruct Hd as (? & ? & ?); simplify_eq; eexists; [by left|by right].
Qed.

Lemma usable_checked {A} (f : Database -> bool -> res A) :
  (forall d c a, f d c = Ok a -> exists p, backend d = Some p /\ transactionFailed d = false) ->
  sound inv (check f) (fun _ => usable).
Proof.
  intros Hf. apply contract_check; [|done]. intros s a Hs Ha. destruct (Hf _ _ _ Ha) as (p & Hb & Hn). by apply (inv_usable s p). Qed.

Lemma usable_check {A} (f : Database -> bool -> res A) : sound usable (check f) (fun _ => usable).
Proof. apply contract_check; [done|]. intros s e. apply usable_inv. Qed.

Lemma inv_check {A} (f : Database -> bool -> res A) : sound inv (check f) (fun _ => inv).
Proof. by apply contract_check. Qed.

Lemma session_checked name : sound inv (check (fun d c => ensureSessionUsable d c name)) (fun _ => usable).
Proof. apply usable_checked. intros d c a. apply ensureSessionUsable_Ok. Qed.

Lemma ddl_checked name : sound inv (check (fun d c => ensureDdlSupported d c name)) (fun _ => usable).
Proof.
  apply usable_checked. intros d c a Ha. unfold ensureDdlSupported in Ha. apply seq_Ok_iff in Ha as [Ha _].
  by apply ensureSessionUsable_Ok in Ha.
Qed.

Lemma limits_sound : sound inv getBackendRuntimeLimits (fun _ => usable).
Proof.
  run_first session_checked. apply translated_sound.
  eapply contract_bind; [apply working_check|]. intros p. apply working_call. by left.
Qed.

Lemma bind_limit_sound count name : sound usable (ensureStatementWithinBindLimit count name) (fun _ => usable).
Proof.
  unfold ensureStatementWithinBindLimit. destruct (count =? 0)%N; [by apply contract_ret|].
  run_usable limits_sound.
  destruct (maxBindParameters _) as [m|]; [|by apply contract_ret].
  destruct (m <? count)%N; [apply usable_check|by apply contract_ret].
Qed.

Lemma bound_value_sound value name : sound inv (ensureBoundValueSupported value name) (fun _ => usable).
Proof.
  run_first inv_check. run_first inv_check.
  run_first limits_sound. destruct (QueryValue.isWithinValueLimits _ _ _ _); [by apply contract_ret|].
  apply usable_check.
Qed.

Lemma parameters_sound ps name : sound usable (ensureParametersSupported ps name) (fun _ => usable).
Proof.
  induction ps as [|p ps IH]; simpl; [by apply contract_ret|]. run_first usable_check.
  run_usable bound_value_sound. exact IH.
Qed.

Lemma some_parameters_sound ps name : ps <> [] -> sound inv (ensureParametersSupported ps name) (fun _ => usable).
Proof.
  destruct ps as [|p ps]; [done|]. intros _. simpl. run_first inv_check.
  run_first bound_value_sound. apply parameters_sound.
Qed.

(** *** Statements *)
Lemma executeMutation_sound st name : sound inv (executeMutation st name) (fun _ => usable).
Proof.
  run_first session_checked. run_first bind_limit_sound.
  run_first usable_check. run_first parameters_sound.
  eapply contract_catch.
  - run_first working_check. run_first (working_call (BindParameters _) (or_introl eq_refl)).
    run_first (working_call (ExecuteStatement _ _) (or_intror eq_refl)). run_first working_check. apply working_check.
  - intros e. apply on_database. intros d. destruct e as [[]| |]; handled.
Qed.

Lemma executeInsertIfAbsent_sound st conflict name : sound inv (executeInsertIfAbsent st conflict name) (fun _ => usable).
Proof.
  run_first session_checked. run_first bind_limit_sound.
  run_first usable_check. run_first parameters_sound.
  apply conversion_translated_sound. eapply contract_bind; [apply working_check|]. intros p. apply working_call. by right.
Qed.

Lemma executeSql_sound st name : sound inv (executeSql st name) (fun _ => usable).
Proof.
  run_first ddl_checked. apply translated_sound, working_call. by right.
Qed.

Lemma tableExists_sound name : sound inv (tableExists name) (fun _ => usable).
Proof.
  run_first session_checked. apply translated_sound.
  eapply contract_bind; [apply working_check|]. intros p. apply working_call. by left.
Qed.

Lemma ensureSchemaSupported_sound m j name : sound inv (ensureSchemaSupported m j name) (fun _ => usable).
Proof.
  run_first ddl_checked. run_first usable_check.
  destruct (negb _); [by apply contract_ret|]. run_usable limits_sound. apply usable_check.
Qed.

(** *** Connecting *)
Lemma in_phase_usable p d s : agrees (Idle p) d -> in_phase (Idle p) d s -> usable s.
Proof. intros Ha [Hph Hd]. exists p. left. split; [done|by rewrite Hd]. Qed.

(** The phases of a state of the database. *)
Lemma inv_in_phase s : inv s -> exists ph, in_phase ph (database s) s /\ agrees ph (database s).
Proof. intros (ph & Hph & Hd). by exists ph. Qed.

Lemma from_inv {A} (m : M A) Q E :
  (forall ph d, agrees ph d -> contract (in_phase ph d) m Q E) -> contract inv m Q E.
Proof. intros Hm s (ph & Hs & Hd)%inv_in_phase. by apply (Hm ph (database s)). Qed.

Lemma closed_phase ph d : agrees ph d -> backend d = None -> ph = Closed /\ d = disconnected.
Proof. destruct ph; simpl; intros Hd Hb; try done; destruct Hd as [? _]; simplify_eq. Qed.

(** However it goes, a failed session is closed. *)
Lemma closeFailedSession_contract E :
  contract (in_phase Failing disconnected) closeFailedSession (fun _ => in_phase Closed disconnected) E.
Proof.
  eapply contract_catch; [by apply (contract_call CloseSession Failing disconnected Closed (fun _ => Closed))|].
  intros e. by apply contract_ret.
Qed.

Lemma closed_inv s : in_phase Closed disconnected s -> inv s.
Proof. by apply in_phase_inv. Qed.

Lemma failed_throw {A} e (Q : A -> State -> Prop) :
  contract (in_phase Closed disconnected) (throw_exn e) Q (fun e s => refused e s /\ in_phase Closed disconnected s).
Proof. apply contract_throw. intros s Hs. split; [by apply closed_inv|done]. Qed.

(** Connecting either gives a session of the backend, idle, or leaves the database
    disconnected with no session open. *)
Lemma connect_contract b :
  contract (in_phase Closed disconnected) (connect factory b)
    (fun _ s => exists p, getBackend factory b = Ok p /\ in_phase (Idle p) (MkDatabase (Some p) b false false false) s)
    (fun e s => refused e s /\ in_phase Closed disconnected s).
Proof.
  apply contract_get. cbn [backend disconnected]. destruct (getBackend factory b) as [p|e] eqn:Hp;
    [|destruct e; apply failed_throw].
  eapply contract_bind.
  - eapply contract_catch with (E := fun _ => in_phase Failing disconnected) (Q := fun _ => in_phase (Idle p) disconnected).
    + eapply contract_bind with (Q := fun _ => in_phase (Opening p) disconnected).
      * apply (contract_call (OpenSession b) Closed disconnected (Opening p) (fun _ => Failing)); simpl; by rewrite Hp.
      * intros ?. by apply (contract_call InitializeSession (Opening p) disconnected (Idle p) (fun _ => Failing)).
    + intros e. eapply contract_bind; [apply closeFailedSession_contract|]. intros ?.
      destruct e as [[]| |]; apply failed_throw.
  - intros ?. eapply contract_weaken; [apply contract_set|intros s Hs; exact Hs| |intros ? s Hs; exact Hs]. intros ? s Hs. by exists p.
Qed.

Lemma connect_sound b : sound inv (connect factory b) (fun _ => inv).
Proof.
  apply from_inv. intros ph d Hd. destruct (backend d) as [p|] eqn:Hb.
  - apply contract_get. rewrite Hb. apply contract_throw. intros s. by apply in_phase_inv.
  - destruct (closed_phase _ _ Hd Hb) as [-> ->]. eapply contract_weaken; [apply connect_contract|done| |by intros e s []].
    intros ? s (p & _ & Hs). by eapply in_phase_inv; [|exact Hs].
Qed.

(** *** Transactions *)
Definition idled (d : Database) : Database := MkDatabase (backend d) (backendType d) false false (migrationActive d).

Lemma set_transaction_contract ph d active failed E :
  contract (in_phase ph d) (set_transaction active failed)
    (fun _ => in_phase ph (MkDatabase (backend d) (backendType d) active failed (migrationActive d))) E.
Proof. apply contract_get, contract_set. Qed.

Lemma reset_contract p d E : contract (in_phase (Finished p) d) reset_transaction (fun _ => in_phase (Idle p) d) E.
Proof. intros s [Hph Hd]. split; [|done]. simpl. by rewrite Hph. Qed.

Lemma ret_then {A B} P (a : A) (k : A -> M B) Q E : contract P (k a) Q E -> contract P (mret a ≫= k) Q E.
Proof. intros Hk s Hs. exact (Hk s Hs). Qed.

(** The transaction's object is destroyed and forgotten. *)
Lemma finish_then {A} p d (k : M A) Q E :
  contract (in_phase (Idle p) (idled d)) k Q E ->
  contract (in_phase (Finished p) d) (reset_transaction ;; set_transaction false false ;; k) Q E.
Proof.
  intros Hk. eapply contract_bind; [apply reset_contract|]. intros ?. eapply contract_bind; [apply set_transaction_contract|].
  by intros ?.
Qed.

Lemma finish_contract p d E :
  contract (in_phase (Finished p) d) (reset_transaction ;; set_transaction false false) (fun _ => in_phase (Idle p) (idled d)) E.
Proof. eapply contract_bind; [apply reset_contract|]. intros ?. apply set_transaction_contract. Qed.

(** The call that ends a transaction. What is not SOCI's leaves the transaction's object. *)
Definition foreign (e : thrown) : Prop := match e with Soci _ => False | _ => True end.

Definition escaped (l : label) (s : State) : Prop := exists e evs, events s = (l, Failed e) :: evs /\ foreign e.

Definition ends (c : Call unit) (p : BackendProvider) (ph : phase) : Prop :=
  (c = CommitTransaction /\ ph = Active p) \/ (c = RollbackTransaction /\ (ph = Active p \/ ph = Poisoned p)).

Definition unended (c : Call unit) (p : BackendProvider) (ph : phase) (d : Database) (e : thrown) (s : State) : Prop :=
  match e with Soci _ => in_phase (Finished p) d s | _ => in_phase ph d s /\ escaped (call_label c) s end.

Lemma end_call c ph p d :
  ends c p ph -> contract (in_phase ph d) (call c) (fun _ => in_phase (Finished p) d) (unended c p ph d).
Proof.
  intros Hc s Hs.
  assert (Hcall : contract (in_phase ph d) (call c) (fun _ => in_phase (Finished p) d)
                    (fun e => in_phase (match e with Soci _ => Finished p | _ => ph end) d)).
  { apply contract_call.
    - by destruct Hc as [[-> ->]|[-> [-> | ->]]].
    - intros e. by destruct Hc as [[-> ->]|[-> [-> | ->]]], e. }
  specialize (Hcall s Hs). unfold call, unended in *.
  destruct (perform c (world s)) as [[a|[e|e|]] w]; try done; (split; [done|by do 2 eexists]).
Qed.

(** The transaction ends unless an exception that is not SOCI's escapes. *)
Definition ended_or_escaped (c : Call unit) (p : BackendProvider) (d : Database) (e : thrown) (s : State) : Prop :=
  refused e s /\ (in_phase (Idle p) (idled d) s \/ escaped (call_label c) s).

Lemma endTransaction_contract c ph p d name :
  agrees ph d -> ends c p ph ->
  contract (in_phase ph d) (endTransaction c name) (fun _ => in_phase (Idle p) (idled d)) (ended_or_escaped c p d).
Proof.
  intros Ha Hc.
  assert (Hb : backend d = Some p) by (by destruct Hc as [[_ ->]|[_ [-> | ->]]]; destruct Ha).
  assert (Hrethrow : forall e, foreign e -> contract (fun s => in_phase ph d s /\ escaped (call_label c) s) (throw (A := unit) e)
                                 (fun _ => in_phase (Idle p) (idled d)) (ended_or_escaped c p d)).
  { intros e He. apply contract_throw. intros s [Hs Hescaped]. split; [|by right]. destruct e; try done; by apply (in_phase_inv ph d). }
  eapply contract_catch.
  - eapply contract_bind; [by apply (end_call c ph p d)|]. intros ?. apply finish_contract.
  - intros e. unfold unended. destruct e as [e|e|]; [by apply Hrethrow| |by apply Hrethrow].
    apply finish_then. apply contract_get. cbn [idled backend transaction].
    rewrite Hb. cbn [andb]. apply ret_then. apply contract_throw.
    intros s Hs. split; [|by left]. by apply (in_phase_inv (Idle p) (idled d)).
Qed.

Lemma idle_inv p d s : backend d = Some p -> in_phase (Idle p) (idled d) s -> inv s.
Proof. intros Hb. by apply in_phase_inv. Qed.

Lemma check_in_phase {A} ph d (f : Database -> bool -> res A) :
  agrees ph d -> sound (in_phase ph d) (check f) (fun a s => in_phase ph d s /\ f d (is_connected (world s)) = Ok a).
Proof.
  intros Ha. apply contract_check.
  - intros s a Hs Hf. split; [done|]. destruct Hs as [_ Hd]. by rewrite <- Hd.
  - intros s e. by apply in_phase_inv.
Qed.

Lemma transactionError_sound {A} ph d name message (Q : A -> State -> Prop) :
  agrees ph d -> sound (in_phase ph d) (transactionError name message) Q.
Proof. intros Ha. apply contract_get, contract_throw. intros s. by apply in_phase_inv. Qed.

(** A database whose backend answers is in one of three phases. *)
Lemma connected_phase ph d : agrees ph d -> backend d <> None -> exists p, backend d = Some p /\ (ph = Idle p \/ ph = Active p \/ ph = Poisoned p).
Proof.
  destruct ph as [|p| |p|p|p|p]; simpl; intros Hd Hb; try done; [by subst|..]; destruct Hd as (? & _); exists p; auto.
Qed.

Lemma checked_backend ph d (k : unit -> M unit) Q :
  agrees ph d ->
  (backend d <> None -> sound (in_phase ph d) (k tt) Q) ->
  sound (in_phase ph d) (check (fun d c => _ ← Database_getBackend d c; Ok tt) ≫= k) Q.
Proof.
  intros Ha Hk. eapply contract_bind; [by apply check_in_phase|]. intros [] s [Hs Hok].
  apply bind_Ok_iff in Hok as (p & [Hb _]%getBackend_Ok & _). apply Hk; [by rewrite Hb|done].
Qed.

(** What a commit or a rollback finds. *)
Lemma open_phase ph p d : agrees ph d -> backend d = Some p -> transaction d = true -> ph = Active p \/ ph = Poisoned p.
Proof.
  intros Ha Hb Ht. destruct (connected_phase _ _ Ha ltac:(by rewrite Hb)) as (q & Hq & Hph). assert (q = p) as -> by congruence.
  destruct Hph as [-> |Hph]; [|done]. destruct Ha as (_ & Ht' & _). congruence.
Qed.

Lemma commits ph p d :
  agrees ph d -> backend d = Some p -> transaction d = true -> transactionFailed d = false -> ends CommitTransaction p ph.
Proof.
  intros Ha Hb Ht Hf. left. split; [done|]. destruct (open_phase ph p d Ha Hb Ht) as [-> | ->]; [done|].
  destruct Ha as (_ & _ & Hf'). congruence.
Qed.

Lemma rolls_back ph p d : agrees ph d -> backend d = Some p -> transaction d = true -> ends RollbackTransaction p ph.
Proof. intros Ha Hb Ht. right. split; [done|by apply (open_phase ph p d)]. Qed.

Lemma ending_sound c ph p d name :
  agrees ph d -> backend d = Some p -> ends c p ph -> sound (in_phase ph d) (endTransaction c name) (fun _ => inv).
Proof.
  intros Ha Hb Hc. eapply contract_weaken; [by apply (endTransaction_contract c ph p d)|done| |by intros e s []].
  intros ? s. by apply idle_inv.
Qed.

Lemma commit_sound : sound inv commitTransaction (fun _ => inv).
Proof.
  apply from_inv. intros ph d Ha. apply checked_backend; [done|]. intros Hb. apply contract_get.
  destruct (backend d) as [p|] eqn:Hp; [|done].
  destruct (transaction d) eqn:Ht; [|by apply transactionError_sound]. cbn [negb].
  destruct (transactionFailed d) eqn:Hf; [by apply transactionError_sound|]. by eapply ending_sound, commits.
Qed.

Lemma rollback_sound : sound inv rollbackTransaction (fun _ => inv).
Proof.
  apply from_inv. intros ph d Ha. apply checked_backend; [done|]. intros Hb. apply contract_get.
  destruct (backend d) as [p|] eqn:Hp; [|done].
  destruct (transaction d) eqn:Ht; [|by apply transactionError_sound]. cbn [negb]. by eapply ending_sound, rolls_back.
Qed.

Lemma begin_sound : sound inv beginTransaction (fun _ => inv).
Proof.
  apply from_inv. intros ph d Ha. eapply contract_bind; [by apply check_in_phase|]. intros caps.
  intros s [Hs Hok]. unfold getBackendCapabilities in Hok.
  apply fmap_Ok_iff in Hok as (p & [Hb _]%getBackend_Ok & _). revert s Hs.
  change (sound (in_phase ph d) (check (fun d _ => requireCapability d (transactions caps) "begin transaction" "transactions are not supported") ;;
    d ← get_database;
    if transaction d || migrationActive d then transactionError "begin transaction" "A transaction is already active"
    else translated (call BeginTransaction ;; set_transaction true false) TransactionError "begin transaction") (fun _ => inv)).
  eapply contract_bind; [by apply check_in_phase|]. intros ? s [Hs _]. revert s Hs.
  apply contract_get. destruct (transaction d || migrationActive d) eqn:Ht; [by apply transactionError_sound|].
  apply orb_false_iff in Ht as [Ht _].
  destruct (connected_phase _ _ Ha ltac:(by rewrite Hb)) as (q & Hq & Hph). assert (q = p) as -> by congruence.
  destruct Hph as [-> |[-> | ->]]; destruct Ha as (Hb' & Ht' & Hf'); try congruence.
  eapply contract_catch with (E := fun _ => in_phase (Idle p) d) (Q := fun _ => inv).
  - eapply contract_bind; [by apply (contract_call BeginTransaction (Idle p) d (Active p) (fun _ => Idle p))|]. intros ?.
    eapply contract_weaken; [apply set_transaction_contract|intros s Hs; exact Hs| |intros ? s Hs; exact Hs]. intros ? s. by apply in_phase_inv.
  - intros e. destruct e as [e|e|]; [apply contract_throw; intros s; by apply in_phase_inv| |apply contract_throw; intros s; by apply in_phase_inv].
    apply contract_get. rewrite Hb, Ht. cbn [andb]. apply ret_then.
    apply contract_throw. intros s. by apply in_phase_inv.
Qed.

Lemma setMigrationActive_sound active :
  sound (fun s => inv s /\ (active = true -> backend (database s) <> None)) (setMigrationActive active) (fun _ => inv).
Proof.
  intros s [(ph & Hph & Hd) Hactive]. destruct s as [[bk bt tx fl mi] w evs]. simpl in *.
  exists ph. split; [done|]. destruct ph; simpl in *; try done.
  injection Hd as -> -> -> -> ->. destruct active; [by destruct (Hactive eq_refl)|done].
Qed.

(** *** Disconnecting *)

Definition disconnected_or_escaped (e : thrown) (s : State) : Prop :=
  refused e s /\ (in_phase Closed disconnected s \/ escaped LRollback s).

(** The end of [disconnect]: the session is closed whether or not that fails. *)
Lemma close_contract p d failure :
  backend d = Some p -> transaction d = false ->
  contract (in_phase (Idle p) d)
    (failure ← catch (call CloseSession ;; mret failure) (fun e =>
       mret (Some (match failure, e with
                   | Some first, _ => first
                   | None, Soci error => translateError (provider_runtime p) error Connection "disconnect"
                   | None, _ => DatabaseError Connection (backendType d) "disconnect" "Backend session cleanup failed" None
                   end)));
     d ← get_database;
     set_database (MkDatabase None Empty (transaction d) false false) ;;
     match failure with Some e => throw_exn e | None => mret tt end)
    (fun _ => in_phase Closed disconnected) disconnected_or_escaped.
Proof.
  intros Hb Ht. apply contract_bind with (Q := fun _ => in_phase Closed d).
  - eapply contract_catch with (E := fun _ => in_phase Closed d); [|intros e; by apply contract_ret].
    eapply contract_bind; [by apply (contract_call CloseSession (Idle p) d Closed (fun _ => Closed))|].
    intros ?. by apply contract_ret.
  - intros last. apply contract_get. rewrite Ht. eapply contract_bind; [apply contract_set|]. intros ?.
    destruct last as [e|]; [|by apply contract_ret]. apply contract_throw. intros s Hs. split; [by apply closed_inv|by left].
Qed.

Lemma disconnect_contract ph d :
  agrees ph d -> contract (in_phase ph d) disconnect (fun _ => in_phase Closed disconnected) disconnected_or_escaped.
Proof.
  intros Ha. apply contract_get. destruct (backend d) as [p|] eqn:Hb.
  - destruct (connected_phase ph d Ha ltac:(by rewrite Hb)) as (q & Hq & Hph). assert (q = p) as -> by congruence.
    destruct (transaction d) eqn:Ht.
    + apply contract_bind with (Q := fun _ => in_phase (Idle p) (idled d)).
      * apply contract_bind with (Q := fun _ => in_phase (Finished p) d).
        -- eapply contract_catch.
           ++ eapply contract_bind; [by apply (end_call _ ph p d), (rolls_back ph p d)|]. intros ?. by apply contract_ret.
           ++ intros e. destruct e as [e|e|]; [|by apply contract_ret|]; apply contract_throw; intros s [Hs He];
                (split; [by apply (in_phase_inv ph d)|by right]).
        -- intros failure. apply finish_then. by apply contract_ret.
      * intros failure. by apply (close_contract p (idled d)).
    + apply ret_then. destruct Hph as [-> |[-> | ->]]; try by destruct Ha as (_ & Ht' & _); congruence.
      by apply close_contract.
  - destruct (closed_phase ph d Ha Hb) as [-> ->]. apply contract_set.
Qed.

Lemma disconnect_sound : sound inv disconnect (fun _ => inv).
Proof.
  apply from_inv. intros ph d Hd. eapply contract_weaken; [by apply disconnect_contract|done| |by intros e s []].
  intros ?. apply closed_inv.
Qed.

(** *** Relation endpoints *)
Lemma contract_pure {A} (P : State -> Prop) (fact : Prop) (m : M A) Q E :
  (fact -> contract P m Q E) -> contract (fun s => P s /\ fact) m Q E.
Proof. intros Hm s [Hs Hfact]. by apply Hm. Qed.

(** A relation's endpoint has a key, so its statement has a parameter. *)
Lemma endpoint_parameters dialect m columns key st :
  requireEndpointKeyColumns m key = Ok columns -> endpointStatement dialect m columns key = Ok st -> parameters st <> [].
Proof.
  unfold requireEndpointKeyColumns, endpointStatement.
  intros (cs & (ks & _ & Hne)%bind_Ok_iff & Hlen)%bind_Ok_iff (ps & _ & (t & _ & [= <-])%bind_Ok_iff)%bind_Ok_iff.
  apply seq_Ok_iff in Hne as [Hne [= <-]]. apply seq_Ok_iff in Hlen as [Hlen _].
  apply throw_if_Ok_iff in Hne, Hlen. apply negb_false_iff, Nat.eqb_eq in Hlen. apply bool_decide_eq_false in Hne.
  simpl. intros Hnil. apply (f_equal length) in Hnil. unfold key_parameters in Hnil. rewrite length_imap in Hnil. simpl in Hnil. lia.
Qed.

Lemma relationEndpointExists_sound model key : sound inv (relationEndpointExists model key) (fun _ => inv).
Proof.
  apply contract_bind with (Q := fun st s => inv s /\ parameters st <> []).
  { apply contract_check; [|done]. intros s st Hs Hok. split; [done|].
    apply bind_Ok_iff in Hok as (m & _ & Hok). apply seq_Ok_iff in Hok as [_ Hok].
    apply bind_Ok_iff in Hok as (columns & Hcolumns & Hok). apply bind_Ok_iff in Hok as (p & _ & Hok).
    by eapply endpoint_parameters. }
  intros st. apply contract_pure. intros Hne. run_first some_parameters_sound; [done|].
  run_first bind_limit_sound. eapply contract_bind; [apply conversion_translated_sound|].
  - run_first working_check. run_first (working_call (BindParameters _) (or_introl eq_refl)).
    apply working_call. by right.
  - intros count. apply contract_ret. intros s. apply usable_inv.
Qed.

Lemma table_there name : sound inv (tableExists name) (fun _ => inv).
Proof. eapply contract_weaken; [apply tableExists_sound|done| |done]. intros ? s. apply usable_inv. Qed.

Lemma endpoint_tables_sound owner m caps relations : sound inv (endpoint_tables owner m caps relations) (fun _ => inv).
Proof.
  induction relations as [|r rs IH]; [by apply contract_ret|].
  run_first inv_check. run_first table_there. apply contract_bind with (Q := fun _ => inv).
  { destruct a0; [apply table_there|by apply contract_ret]. }
  intros there. apply contract_bind with (Q := fun _ => inv); [|by intros ?].
  destruct there; [by apply contract_ret|by apply contract_throw].
Qed.

Lemma ensureRelationTableEndpointsExist_sound owner : sound inv (ensureRelationTableEndpointsExist owner) (fun _ => inv).
Proof. run_first inv_check. run_first inv_check. run_first inv_check. apply endpoint_tables_sound. Qed.

(** ** The session *)
Lemma discard_sound {A} (m : M A) : sound inv m (fun _ => inv) -> sound inv (discard m) (fun _ => inv).
Proof. intros Hm. run_first Hm. by apply contract_ret. Qed.

Lemma usable_after {A} (m : M A) : sound inv m (fun _ => usable) -> sound inv m (fun _ => inv).
Proof. intros Hm. eapply contract_weaken; [exact Hm|done| |done]. intros ? s. apply usable_inv. Qed.

Lemma operation_sound o s : inv s -> allowed o s ->
  match run o s with (Err e, s') => refused e s' | (_, s') => inv s' end.
Proof.
  intros Hs Hallowed.
  assert (Hrun : sound (fun s' => inv s' /\ allowed o s') (run o) (fun _ => inv)).
  { assert (Hinv : sound inv (run o) (fun _ => inv) -> sound (fun s' => inv s' /\ allowed o s') (run o) (fun _ => inv)).
    { intros Hm. eapply contract_weaken; [exact Hm|by intros s' []|done..]. }
    destruct o; [apply Hinv|apply Hinv|apply Hinv|apply Hinv|apply Hinv| |apply Hinv..].
    - apply connect_sound.
    - apply disconnect_sound.
    - apply begin_sound.
    - apply commit_sound.
    - apply rollback_sound.
    - eapply contract_weaken; [apply setMigrationActive_sound| |done..]. intros s' [Hs' Ha]. split; [done|]. by intros ->.
    - apply discard_sound, usable_after, executeMutation_sound.
    - apply usable_after, executeSql_sound.
    - apply discard_sound, usable_after, executeInsertIfAbsent_sound.
    - apply discard_sound, table_there.
    - apply usable_after, ensureSchemaSupported_sound.
    - apply discard_sound, relationEndpointExists_sound.
    - apply ensureRelationTableEndpointsExist_sound. }
  specialize (Hrun s (conj Hs Hallowed)). destruct (run o s) as [[[]|e] s']; done.
Qed.

Lemma reachable_inv s : reachable s -> inv s.
Proof.
  induction 1 as [w|s o Hs IH Ho].
  - by exists Closed.
  - pose proof (operation_sound o s IH Ho) as Hrun. destruct (run o s) as [[[]|[e|e|]] s']; done.
Qed.

(** whatever operations are called on a database, and whatever each ends with, the
    calls its driver has seen are a run of the protocol -- a session is opened before it
    is used and closed once, transactions do not nest, after a statement that has broken
    a transaction nothing but its rollback reaches the driver, the transaction's object
    is destroyed before the session is closed -- and the database's own flags say which
    phase of the protocol the driver is in. *)
Theorem session_protocol s :
  reachable s -> exists ph, phase_after factory (events s) = Some ph /\ agrees ph (database s).
Proof. apply reachable_inv. Qed.

(** no operation lets an exception of SOCI escape: every driver error is translated. *)
Theorem no_driver_error_escapes s o :
  reachable s -> allowed o s -> forall e, (run o s).1 <> Err (Soci e).
Proof.
  intros Hs%reachable_inv Ho e He. pose proof (operation_sound o s Hs Ho) as Hrun.
  destruct (run o s) as [r s']. simpl in He. by subst.
Qed.

(** a database that is not connected is connected by [connect], to an idle session
    of the registered backend, or else stays disconnected, with no session left open. *)
Theorem connect_all_or_nothing s b :
  reachable s -> backend (database s) = None ->
  match run (Connect b) s with
  | (Ok _, s') => exists p, getBackend factory b = Ok p /\ database s' = MkDatabase (Some p) b false false false /\
                            phase_after factory (events s') = Some (Idle p)
  | (Err _, s') => database s' = disconnected /\ phase_after factory (events s') = Some Closed
  end.
Proof.
  intros Hs%reachable_inv Hb. apply inv_in_phase in Hs as (ph & Hph & Hd).
  destruct (closed_phase _ _ Hd Hb) as [-> Hdis]. rewrite Hdis in Hph.
  pose proof (connect_contract b s Hph) as Hrun. simpl.
  destruct (connect factory b s) as [[u|e] s'].
  - destruct Hrun as (p & Hp & Hafter & Hd'). by exists p.
  - by destruct Hrun as [_ [Hafter Hd']].
Qed.

(** [disconnect] closes the session of any database and leaves it disconnected,
    even when the rollback of its transaction or the closing fails; only an exception of
    the rollback that is not SOCI's stops it. *)
Theorem disconnect_releases s :
  reachable s ->
  let s' := (run Disconnect s).2 in
  database s' = disconnected /\ phase_after factory (events s') = Some Closed \/
  (run Disconnect s).1 <> Ok tt /\ escaped LRollback s'.
Proof.
  intros (ph & Hph & Hd)%reachable_inv%inv_in_phase. pose proof (disconnect_contract ph _ Hd s Hph) as Hrun. simpl.
  destruct (disconnect s) as [[u|e] s']; simpl.
  - left. by destruct Hrun.
  - destruct Hrun as [_ [[Hafter Hd']|Hescaped]]; [by left|by right].
Qed.

(** C21: on a connected session a transaction -- broken or not -- ends with its rollback,
    and one that is not broken ends with its commit: whether the driver's call succeeds
    or fails, the same session is idle again, so a broken session can be used again;
    only an exception that is not SOCI's leaves the transaction. *)
Theorem transaction_ends s p o :
  reachable s -> backend (database s) = Some p -> is_connected (world s) = true -> transaction (database s) = true ->
  o = Rollback \/ o = Commit /\ transactionFailed (database s) = false ->
  let s' := (run o s).2 in
  phase_after factory (events s') = Some (Idle p) /\ database s' = idled (database s) \/
  (run o s).1 <> Ok tt /\ escaped (match o with Rollback => LRollback | _ => LCommit end) s'.
Proof.
  intros (ph & Hph & Ha)%reachable_inv%inv_in_phase Hb Hc Ht Ho.
  assert (Hgo : forall c, ends c p ph -> forall name,
    let r := endTransaction c name s in
    phase_after factory (events r.2) = Some (Idle p) /\ database r.2 = idled (database s) \/
    r.1 <> Ok tt /\ escaped (call_label c) r.2).
  { intros c Hends name. pose proof (endTransaction_contract c ph p _ name Ha Hends s Hph) as Hrun. simpl.
    destruct (endTransaction c name s) as [[u|e] s']; [by left|]. destruct Hrun as [_ [Hidle|Hescaped]]; [by left|by right]. }
  destruct Ho as [-> |[-> Hf]].
  - specialize (Hgo RollbackTransaction (rolls_back ph p _ Ha Hb Ht) "rollback transaction").
    replace (run Rollback s) with (endTransaction RollbackTransaction "rollback transaction" s); [done|].
    simpl. unfold rollbackTransaction, mbind, M_bind, check, Database_getBackend, get_database.
    rewrite Hb, Hc. simpl. by rewrite Ht.
  - specialize (Hgo CommitTransaction (commits ph p _ Ha Hb Ht Hf) "commit transaction").
    replace (run Commit s) with (endTransaction CommitTransaction "commit transaction" s); [done|].
    simpl. unfold commitTransaction, mbind, M_bind, check, Database_getBackend, get_database.
    rewrite Hb, Hc. simpl. by rewrite Ht, Hf.
Qed.

End operations.
