(* ===== verification/Context.v ===== *)
(** Context: the operations on objects, [OrmContext] of modules/orm/database/context.cppm,
    composed of the checks, the statements and the session of a database, with the reading
    of rows of result_storage.cppm.

    The conversions between an object and its fields are generated by reflection for every
    model: the class [Objects].  A model's type arguments are its view here. *)
From S2P Require Import Prelude Foundation Chrono Values Codec Models Schema PhysicalSql Dialect TargetValues QueryValue Query Emitter Render Capabilities Commands Binding Database Connection.
Local Open Scope string_scope.

Abbreviation Row := (list Cell).

(** What reflection generates: the conversions [to_base] and [from_base] of a payload,
    [getPrimaryKey] of an object and of the owner in a row, the names of the collection
    fields in their order, whether a collection wraps objects of a model, and [setLoaded]
    of a collection field. *)
Class Objects := {
  Object : Type;
  to_base : ModelView -> Object -> res values;
  from_base : ModelView -> bool -> Row -> res Object;
  getPrimaryKey : ModelView -> Object -> res PrimaryKey;
  owner_key : ModelView -> Row -> res PrimaryKey;
  collection_fields : ModelView -> list string;
  wraps : ModelView -> string -> ModelDataView -> bool;
  setLoaded : string -> list Object -> Object -> Object
}.

(** ** Result columns *)
(** [result_requested] is of projections only. *)
Record ResultColumn := MkResultColumn { result_alias : string; result_type : ColumnType; result_requested : option ColumnType }.

Definition isEncodedResultType (type : ColumnType) : bool :=
  match type with
  | ColumnType.Date | ColumnType.TimeOfDay | ColumnType.LocalDateTime | ColumnType.UtcTimestamp | ColumnType.Uuid => true
  | _ => false
  end.

Definition hasEncodedResult (columns : list ResultColumn) : bool := 
  existsb (fun c => isEncodedResultType (result_type c)
                    || match result_requested c with Some type => isEncodedResultType type | None => false end) columns.

Definition related_result (m : ModelDataView) (joined : bool) (column : ColumnView) (result : list ResultColumn) (child : ColumnView)
    : res (list ResultColumn) :=
  if joined || cv_isPrimaryKey child then
    let prefix := if joined then cv_name column else mv_tableName m +:+ "_" +:+ cv_name column in
    type ← column_type child; Ok (result ++ [MkResultColumn (prefix +:+ "_" +:+ cv_name child) type None])%list
  else Ok result.

Definition add_result (model : ModelView) (m : ModelDataView) (joined : bool) (result : list ResultColumn) (column : ColumnView)
    : res (list ResultColumn) :=
  if bool_decide (cv_kind column = Scalar) then
    type ← column_type column; Ok (result ++ [MkResultColumn (mv_tableName m +:+ "_" +:+ cv_name column) type None])%list
  else
    target ← or_throw (arrow (resolveColumnTarget model column))
               (ConversionError "A related result model is not available in its schema");
    foldM (related_result m joined column) result (mv_columns target).

Definition modelResultColumns (model : ModelView) (joined : bool) : res (list ResultColumn) :=
  m ← deref model; foldM (add_result model m joined) [] (mv_columns m).

(** [resultSource] of a column and of an aggregate. *)
Definition resultSource (p : ProjectionSource) : res SqlSource :=
  match p with
  | ColumnSource path => parseSqlSource path
  | AggregateSource e =>
      source ← match agg_column e with Some path => parseSqlSource path | None => Ok no_source end;
      Ok (MkSource (pathParts source) true (function e))
  end.

Definition resultSourceType (source : SqlSource) (model : ModelView) : res ColumnType :=
  if isAggregate source && bool_decide (source_function source ∈ [Count; CountAll]) then Ok ColumnType.LongLong
  else if isAggregate source && bool_decide (source_function source ∈ [Sum; Avg]) then Ok ColumnType.String
  else info_logicalType <$> resolveSqlColumn source model false.

(** [requestedType] is the logical type of the result's field of that name, if it has one. *)
Definition projectionResultColumns (model : ModelView) (requestedType : string -> option ColumnType) (projections : list Projection)
    : res (list ResultColumn) :=
  mapM (fun p =>
    source ← resultSource (projected p);
    type ← resultSourceType source model;
    Ok (MkResultColumn (resultField p) type (requestedType (resultField p)))) projections.

(** What the constructor of [TypedResultStorage] refuses: a field of another type than the
    column's, where either is encoded.  [storageFor] has a buffer for every type. *)
Definition mismatched (column : ResultColumn) : bool :=
  match result_requested column with
  | Some requested =>
      (isEncodedResultType (result_type column) || isEncodedResultType requested)
      && negb (bool_decide (result_type column = requested))
  | None => false
  end.

Definition TypedResultStorage (columns : list ResultColumn) : res unit :=
  forM_ columns (fun column =>
    throw_if (mismatched column) (ConversionError "A projected scalar type does not match its requested result field")).

(** The storage that is there when some column is encoded. *)
Definition emplace_storage (columns : list ResultColumn) : res unit :=
  if hasEncodedResult columns then TypedResultStorage columns else Ok tt.

(** [decodedResult]. *)
Definition decodedResult (type : ColumnType) (text : string) : res Value :=
  let decoded :=
    match type with
    | ColumnType.Date => DateValue <$> parseDate text
    | ColumnType.TimeOfDay => TimeOfDayValue <$> parseTimeOfDay text
    | ColumnType.LocalDateTime => LocalDateTimeValue <$> parseLocalDateTime text
    | ColumnType.UtcTimestamp => UtcTimestampValue <$> parseUtcTimestamp text
    | _ => UuidValue <$> Uuid.parse text
    end in
  match decoded with
  | Err (InvalidArgument _) => Err (ConversionError "A database value cannot be represented by its logical column type")
  | r => r
  end.

(** The value of an encoded cell, in the range of its native type. *)
Definition encoded_value (b : BackendType) (type : ColumnType) (content : SociContent) : res Value :=
  text ← (match content with SociString text => Ok text | _ => Err Undefined end);
  value ← decodedResult type text;
  match validateNative value b with
  | Err (InvalidArgument _) => Err (ConversionError "A database result exceeds its native scalar type range")
  | Err e => Err e
  | Ok _ => Ok value
  end.

Section context.
Context `{Driver} `{Objects}.

(** [getCommandGenerator()] and [getBackend().dialect()]. *)
Definition on_dialect {A} (f : SqlDialect -> res A) : M A :=
  check (fun d c => p ← Database_getBackend d c; f (provider_dialect p)).

Definition require (supported : BackendCapabilities -> bool) (operation message : string) : M unit :=
  check (fun d c => caps ← getBackendCapabilities d c; requireCapability d (supported caps) operation message).

Definition supported_model (descriptor : ModelView) (operation : string) : M unit :=
  check (fun d c => ensureModelSupported d c descriptor operation).

Definition lift {A} (r : res A) : M A := check (fun _ _ => r).

(** ** Reading rows *)

(** One buffer of [TypedResultStorage::read]. *)
Definition check_cell (operation : string) (item : ResultColumn * Cell) : M unit :=
  let (column, cell) := item in
  match cell_indicator cell with
  | IndicatorTruncated => throw_exn (ConversionError "A database result was truncated by its transport")
  | IndicatorNull => mret tt
  | IndicatorOk =>
      if isEncodedResultType (result_type column) then
        value ← check (fun d _ => encoded_value (backendType d) (result_type column) (cell_content cell));
        ensureBoundValueSupported (MkBound (result_type column) (Some value)) operation
      else mret tt
  end.

Fixpoint check_cells (operation : string) (items : list (ResultColumn * Cell)) : M unit :=
  match items with
  | [] => mret tt
  | item :: items => check_cell operation item ;; check_cells operation items
  end.

(** [n] rows, each fetched, checked when some column is encoded, and converted. *)
Fixpoint fetch {A} (n : nat) (operation : string) (columns : list ResultColumn) (convert : Row -> res A) : M (list A) :=
  match n with
  | O => mret []
  | S n =>
      row ← call FetchRow;
      (if hasEncodedResult columns then check_cells operation (zip columns row) else mret tt) ;;
      a ← lift (convert row);
      rest ← fetch n operation columns convert;
      mret (a :: rest)
  end.

Definition bindStatementParameters (st : Statement) : M unit := check Database_getBackend ;; call (BindParameters (parameters st)).

Definition read_rows {A} (st : Statement) (operation : string) (columns : list ResultColumn) (convert : Row -> res A) : M (list A) :=
  n ← call (OpenRows (sql st) (parameters st));
  fetch n operation columns convert.

(** ** Collections *)
Definition requireCollectionTarget (owner : ModelView) (relation : RelationView) : res ModelView :=
  let target := resolveRelationTarget owner relation in
  throw_if (match arrow target with Some m => negb (wraps owner (rv_fieldName relation) m) | None => true end)
    (InvalidArgument ("Collection wrapper target does not match relation metadata: " +:+ rv_fieldName relation)) ;;
  Ok target.

(** [std::map] with [PrimaryKeyLess]: keys that are not ordered are one. *)
Abbreviation Grouped := (list (PrimaryKey * list Object)).
Definition same_key (k l : PrimaryKey) : bool := negb (PrimaryKeyLess k l) && negb (PrimaryKeyLess l k).

Fixpoint group (key : PrimaryKey) (target : Object) (grouped : Grouped) : Grouped :=
  match grouped with
  | [] => [(key, [target])]
  | (k, targets) :: grouped =>
      if same_key k key then (k, targets ++ [target])%list :: grouped else (k, targets) :: group key target grouped
  end.

Definition find_group (key : PrimaryKey) (grouped : Grouped) : option (list Object) :=
  snd <$> List.find (fun kt => same_key kt.1 key) grouped.

Definition owner_columns (owner : ModelDataView) : res (list ResultColumn) :=
  columns ← getPrimaryKeyColumns owner;
  mapM (fun c => type ← column_type c; Ok (MkResultColumn (relationOwnerAlias c) type None)) columns.

Definition collection_columns (owner target : ModelView) (joined : bool) : res (list ResultColumn) :=
  m ← deref owner; keys ← owner_columns m; columns ← modelResultColumns target joined; Ok (keys ++ columns)%list.

(** [from_base] of a [CollectionPayload]. *)
Definition related_row (owner target : ModelView) (joined : bool) (row : Row) : res (PrimaryKey * Object) :=
  o ← from_base target joined row; key ← owner_key owner row; Ok (key, o).

Definition appendCollectionRows (owner target : ModelView) (joined : bool) (st : Statement) (grouped : Grouped) : M Grouped :=
  ensureStatementWithinBindLimit (size_of (parameters st)) "include collection" ;;
  ensureParametersSupported (parameters st) "include collection" ;;
  bindStatementParameters st ;;
  columns ← lift (collection_columns owner target joined);
  lift (emplace_storage columns) ;;
  rows ← read_rows st "include collection" columns (related_row owner target joined);
  mret (fold_left (fun grouped r => group r.1 r.2 grouped) rows grouped).

(** The owners from [batchStart] on, [batchSize] at a time. *)
Fixpoint batches {A} (fuel : nat) (batchSize : nat) (owners : list A) : list (list A) :=
  match fuel, owners with
  | S fuel, _ :: _ => take batchSize owners :: batches fuel batchSize (drop batchSize owners)
  | _, _ => []
  end.

Fixpoint load_batches (owner target : ModelView) (relation : RelationView) (inner : string) (joined : bool)
    (parts : list (list Object)) (grouped : Grouped) : M Grouped :=
  match parts with
  | [] => mret grouped
  | part :: parts =>
      keys ← lift (mapM (getPrimaryKey owner) part);
      st ← on_dialect (fun dialect => collectionSelectStatement dialect owner relation inner keys joined);
      grouped ← appendCollectionRows owner target joined st grouped;
      load_batches owner target relation inner joined parts grouped
  end.

Definition set_collection (owner : ModelView) (fieldName : string) (grouped : Grouped) (o : Object) : res Object :=
  key ← getPrimaryKey owner o; Ok (setLoaded fieldName (default [] (find_group key grouped)) o).

(** [max<std::size_t>(1, parameterBudget / ownerPrimaryKey.size())]. *)
Definition batch_size (limits : RuntimeLimits) (keySize owners : nat) : nat :=
  match maxBindParameters limits with
  | Some budget => Nat.max 1 (N.to_nat budget / keySize)
  | None => owners
  end.

Definition loadCollectionField (owner : ModelView) (joined : bool) (relation : RelationView) (owners : list Object) : M (list Object) :=
  target ← lift (requireCollectionTarget owner relation);
  ownerPrimaryKey ← lift (m ← deref owner; getPrimaryKeyColumns m);
  limits ← getBackendRuntimeLimits;
  (if (default SIZE_MAX (maxBindParameters limits) <? N.of_nat (length ownerPrimaryKey))%N
   then check (fun d _ => throwDatabase d UnsupportedFeature "include collection"
                            "The backend bind-parameter limit is too small for the relation primary key")
   else mret tt) ;;
  base ← on_dialect (fun dialect => select dialect target (MkSelect None None None [] [] [] None false joined));
  grouped ← load_batches owner target relation (sql base) joined
              (batches (length owners) (batch_size limits (length ownerPrimaryKey) (length owners)) owners) [];
  lift (mapM (set_collection owner (rv_fieldName relation) grouped) owners).

(** The fields of the owner's type that were asked for. *)
Fixpoint load_fields (owner : ModelView) (m : ModelDataView) (joined : bool) (names : list string) (owners : list Object) : M (list Object) :=
  match names with
  | [] => mret owners
  | name :: names =>
      relation ← lift (or_throw (findRelation m name) Undefined);
      owners ← loadCollectionField owner joined relation owners;
      load_fields owner m joined names owners
  end.

Definition loadIncludedCollections (owner : ModelView) (joined : bool) (includes : list string) (owners : list Object) : M (list Object) :=
  if bool_decide (length includes = 0%nat) then mret owners
  else
    m ← lift (deref owner);
    lift (forM_ includes (fun name => _ ← requireCollectionRelation m name; Ok tt)) ;;
    if bool_decide (length owners = 0%nat) then mret owners
    else load_fields owner m joined (List.filter (fun name => bool_decide (name ∈ includes)) (collection_fields owner)) owners.

(** ** Queries *)
Definition executeSelectStatement {A} (projection : bool) (st : Statement) (columns : list ResultColumn)
    (convert : Row -> res A) (loadIncludes : list A -> M (list A)) : M (list A) :=
  let operation := if projection then "select projection" else "select" in
  ensureStatementWithinBindLimit (size_of (parameters st)) operation ;;
  conversion_translated
    (lift (emplace_storage columns) ;;
     ensureParametersSupported (parameters st) operation ;;
     bindStatementParameters st ;;
     rows ← read_rows st operation columns convert;
     loadIncludes rows)
    operation
    (if projection then "A database result cannot be represented by the requested projection"
     else "A database result cannot be represented by the requested model").

(** [select] of a query: its specification and what it includes. *)
Definition selectImpl (descriptor : ModelView) (spec : SelectSpec) (includes : list string) : M (list Object) :=
  check (fun d c => ensureQuerySupported d c descriptor spec includes) ;;
  st ← on_dialect (fun dialect => select dialect descriptor spec);
  columns ← lift (modelResultColumns descriptor (shouldJoin spec));
  executeSelectStatement false st columns (from_base descriptor (shouldJoin spec))
    (loadIncludedCollections descriptor (shouldJoin spec) includes).

(** [select] of a projection to a type of results, with what reflection generates for it. *)
Definition selectProjectionImpl {A} (requestedType : string -> option ColumnType) (convert : Row -> res A)
    (descriptor : ModelView) (spec : SelectSpec) (includes : list string) : M (list A) :=
  check (fun d c => ensureQuerySupported d c descriptor spec includes) ;;
  st ← on_dialect (fun dialect => select dialect descriptor spec);
  columns ← lift (projectionResultColumns descriptor requestedType (projections spec));
  executeSelectStatement true st columns convert mret.

(** ** Mutations *)

(** The [bind] of a provider's run time; [Binding.bind] is that of the built-in ones. *)
Variable runtime_bind : BackendProvider -> values -> string -> BoundValue -> res values.

Definition insertImpl (model : ModelView) (object : Object) : M unit :=
  supported_model model "insert" ;;
  require (fun c => mc_insert (mutation_caps c)) "insert" "insert is not supported" ;;
  command ← on_dialect (fun dialect => insert dialect model);
  conversion_translated
    (serialized ← lift (to_base model object);
     caps ← check getBackendCapabilities;
     limits ← getBackendRuntimeLimits;
     bound ← check (fun d c =>
       p ← Database_getBackend d c;
       bindModelParameters (runtime_bind p)
         (fun v => QueryValue.isWithinValueLimits v (maxUnsignedLongLong caps) (value_limits caps) (timestamp_limits limits))
         serialized ∅ model);
     ensureStatementWithinBindLimit bound.2 "insert" ;;
     if (bound.2 =? 0)%N then call (RunSql command) else call (RunBound command bound.1))
    "insert" "A model value cannot be represented by the selected backend".

(** [insert] of several objects. *)
Fixpoint insert_all (model : ModelView) (objects : list Object) : M unit :=
  match objects with [] => mret tt | o :: objects => insertImpl model o ;; insert_all model objects end.

Definition check_assignment (model : ModelView) (a : UpdateAssignment) : M unit :=
  check (fun d _ =>
    source ← parseSqlSource (assigned_column a);
    info ← resolveSqlColumn source model true;
    ensureStringValueSupported d (info_column info) (assigned_value a) "update").

Fixpoint check_assignments (model : ModelView) (l : list UpdateAssignment) : M unit :=
  match l with [] => mret tt | a :: l => check_assignment model a ;; check_assignments model l end.

Definition updateImpl (model : ModelView) (spec : UpdateSpec) : M N :=
  supported_model model "update" ;;
  require (fun c => mc_update (mutation_caps c)) "update" "update is not supported" ;;
  match update_predicate spec with
  | Some p => check (fun d c => ensurePredicateSupported d c model p "update")
  | None => mret tt
  end ;;
  check_assignments model (assignments spec) ;;
  st ← on_dialect (fun dialect => update dialect model spec);
  executeMutation st "update".

Definition removeImpl (model : ModelView) (p : PredicateNode) : M N :=
  supported_model model "remove" ;;
  require (fun c => mc_remove (mutation_caps c)) "remove" "remove is not supported" ;;
  check (fun d c => ensurePredicateSupported d c model p "remove") ;;
  st ← on_dialect (fun dialect => remove dialect model p);
  executeMutation st "remove".

(** ** Tables *)
Definition createTableImpl (model : ModelView) : M unit :=
  supported_model model "create table" ;;
  ensureSchemaSupported model false "create table" ;;
  require (fun c => sc_createTableIfNotExists (schema_caps c)) "create table" "idempotent table creation is not supported" ;;
  command ← on_dialect (fun dialect => createTable dialect model);
  executeSql command "create table".

Definition deleteTableImpl (model : ModelView) : M unit :=
  supported_model model "drop table" ;;
  require (fun c => sc_dropTableIfExists (schema_caps c)) "drop table" "idempotent table removal is not supported" ;;
  command ← on_dialect (fun dialect => dropTable dialect model);
  executeSql command "drop table".

Fixpoint execute_all (commands : list string) (operation : string) : M unit :=
  match commands with [] => mret tt | c :: commands => executeSql c operation ;; execute_all commands operation end.

Definition hasOwningJunction (owner : ModelView) : res bool :=
  m ← deref owner; Ok (negb (bool_decide (length (owningJunctionRelations m) = 0%nat))).

Definition createRelationTablesImpl (owner : ModelView) : M unit :=
  owns ← lift (hasOwningJunction owner);
  if negb owns then mret tt
  else
    supported_model owner "create relation tables" ;;
    ensureSchemaSupported owner true "create relation tables" ;;
    ensureRelationTableEndpointsExist owner ;;
    commands ← on_dialect (fun dialect => createTableStatements dialect owner);
    execute_all commands "create relation table".

Definition deleteRelationTablesImpl (owner : ModelView) : M unit :=
  owns ← lift (hasOwningJunction owner);
  if negb owns then mret tt
  else
    supported_model owner "drop relation tables" ;;
    require (fun c => rc_junctionTables (relation_caps c)) "drop relation tables" "junction tables are not supported" ;;
    require (fun c => sc_dropTableIfExists (schema_caps c)) "drop relation tables" "idempotent table removal is not supported" ;;
    commands ← on_dialect (fun dialect => dropTableStatements dialect owner);
    execute_all commands "drop relation table".

(** ** Links *)
Definition collection_of (owner : ModelView) (relationField : string) : res (RelationView * ModelView) :=
  m ← deref owner;
  relation ← requireCollectionRelation m relationField;
  target ← requireCollectionTarget owner relation;
  Ok (relation, target).

Definition linkImpl (owner : ModelView) (ownerObject : Object) (relationField : string) (targetObject : Object) : M N :=
  found ← lift (collection_of owner relationField);
  let '(relation, target) := found in
  let oneToMany := bool_decide (rv_kind relation = RelOneToMany) in
  supported_model owner "link relation" ;;
  supported_model target "link relation" ;;
  ownerKey ← lift (getPrimaryKey owner ownerObject);
  targetKey ← lift (getPrimaryKey target targetObject);
  (if oneToMany then
     require (fun c => rc_oneToMany (relation_caps c)) "link relation" "one-to-many relations are not supported"
   else
     require (fun c => rc_manyToMany (relation_caps c)) "link relation" "many-to-many relations are not supported" ;;
     require (fun c => mc_atomicInsertIfAbsent (mutation_caps c)) "link relation" "idempotent relation links are not supported") ;;
  require (fun c => if oneToMany then mc_update (mutation_caps c) else mc_insert (mutation_caps c))
    "link relation" "relation mutations are not supported" ;;
  there ← relationEndpointExists owner ownerKey;
  there ← (if there : bool then relationEndpointExists target targetKey else mret false);
  (if there : bool then mret tt else throw_exn (InvalidArgument "Cannot link relation endpoints that do not exist")) ;;
  st ← on_dialect (fun dialect => linkStatement dialect owner relation ownerKey targetKey);
  if bool_decide (rv_kind relation = RelManyToMany) then
    conflict ← lift (linkInsertSpec owner relation ownerKey targetKey);
    executeInsertIfAbsent st conflict "link relation"
  else executeMutation st "link relation".

Definition unlinkImpl (owner : ModelView) (ownerObject : Object) (relationField : string) (targetObject : Object) : M N :=
  found ← lift (collection_of owner relationField);
  let '(relation, target) := found in
  let oneToMany := bool_decide (rv_kind relation = RelOneToMany) in
  supported_model owner "unlink relation" ;;
  supported_model target "unlink relation" ;;
  require (fun c => if oneToMany then rc_oneToMany (relation_caps c) else rc_manyToMany (relation_caps c))
    "unlink relation" "the requested collection relation is not supported" ;;
  require (fun c => if oneToMany then mc_update (mutation_caps c) else mc_remove (mutation_caps c))
    "unlink relation" "relation mutations are not supported" ;;
  ownerKey ← lift (getPrimaryKey owner ownerObject);
  targetKey ← lift (getPrimaryKey target targetObject);
  check (fun d _ => m ← deref owner; ensureEndpointKeySupported d m ownerKey "unlink relation") ;;
  check (fun d _ => m ← deref target; ensureEndpointKeySupported d m targetKey "unlink relation") ;;
  st ← on_dialect (fun dialect => unlinkStatement dialect owner relation ownerKey targetKey);
  executeMutation st "unlink relation".
End context.
