(* ===== verification/Contexts.v ===== *)
(** Contexts: what holds of the operations on objects -- the protocol of the session under
    any sequence of them, the batches of an include and the collections that it sets. *)
From S2P Require Import Prelude Foundation Chrono Values Codec Models Schema PhysicalSql Dialect TargetValues QueryValue Query Emitter Render Capabilities Commands Links Binding Database Connection Connections Context.
Local Open Scope string_scope.

(** ** The session *)
Section operations.
Context `{Driver} `{Objects}.
Variable factory : Factory.
Variable runtime_bind : BackendProvider -> values -> string -> BoundValue -> res values.

Inductive context_operation :=
| SessionOperation (o : operation)
| SelectObjects (descriptor : ModelView) (spec : SelectSpec) (includes : list string)
| SelectProjection (Result : Type) (requestedType : string -> option ColumnType) (convert : Row -> res Result)
    (descriptor : ModelView) (spec : SelectSpec) (includes : list string)
| InsertObjects (model : ModelView) (objects : list Object)
| UpdateObjects (model : ModelView) (spec : UpdateSpec)
| RemoveObjects (model : ModelView) (p : PredicateNode)
| CreateTable (model : ModelView)
| DeleteTable (model : ModelView)
| CreateRelationTables (owner : ModelView)
| DeleteRelationTables (owner : ModelView)
| Link (owner : ModelView) (ownerObject : Object) (relationField : string) (targetObject : Object)
| Unlink (owner : ModelView) (ownerObject : Object) (relationField : string) (targetObject : Object).

Definition run_context (o : context_operation) : M unit :=
  match o with
  | SessionOperation o => run factory o
  | SelectObjects descriptor spec includes => discard (selectImpl descriptor spec includes)
  | SelectProjection _ requestedType convert descriptor spec includes =>
      discard (selectProjectionImpl requestedType convert descriptor spec includes)
  | InsertObjects model objects => insert_all runtime_bind model objects
  | UpdateObjects model spec => discard (updateImpl model spec)
  | RemoveObjects model p => discard (removeImpl model p)
  | CreateTable model => createTableImpl model
  | DeleteTable model => deleteTableImpl model
  | CreateRelationTables owner => createRelationTablesImpl owner
  | DeleteRelationTables owner => deleteRelationTablesImpl owner
  | Link owner o field t => discard (linkImpl owner o field t)
  | Unlink owner o field t => discard (unlinkImpl owner o field t)
  end.

Definition context_allowed (o : context_operation) (s : State) : Prop :=
  match o with SessionOperation o => allowed o s | _ => True end.

(** The states that sequences of operations lead to, whatever each ends with. *)
Inductive context_reachable : State -> Prop :=
| context_fresh w : context_reachable (MkState disconnected w [])
| context_run s o : context_reachable s -> context_allowed o s -> context_reachable (run_context o s).2.

#[local] Abbreviation sound P m Q := (contract P m Q (refused factory)).
#[local] Abbreviation good := (inv factory).
#[local] Abbreviation ready := (usable factory).
#[local] Abbreviation working m := (contract ready m (fun _ => ready) (broken factory)).

Tactic Notation "first_part" open_constr(H) := eapply contract_bind; [apply H|intros ?; cbv beta].

(** *** Parts of an operation on a session that can be used *)
Lemma sound_working {A} (m : M A) : sound good m (fun _ => ready) -> working m.
Proof.
  intros Hm. eapply contract_weaken; [exact Hm|apply usable_inv|done|]. intros [e|e|] s; done.
Qed.

Lemma usable_working {A} (m : M A) : sound ready m (fun _ => ready) -> working m.
Proof. intros Hm. eapply contract_weaken; [exact Hm|done|done|]. intros [e|e|] s; done. Qed.

Lemma working_bind {A B} (m : M A) (k : A -> M B) : working m -> (forall a, working (k a)) -> working (m ≫= k).
Proof. intros Hm Hk. by eapply contract_bind. Qed.

Lemma working_ret {A} (a : A) : working (mret a).
Proof. by apply contract_ret. Qed.

Lemma working_throw {A} e : working (throw_exn (A := A) e).
Proof. apply contract_throw. intros s. apply usable_inv. Qed.

Lemma working_lift {A} (r : res A) : working (lift r).
Proof. apply working_check. Qed.

Lemma working_limits : working getBackendRuntimeLimits.
Proof. apply sound_working, limits_sound. Qed.

Create HintDb session.
#[local] Hint Resolve working_bind working_ret working_throw working_lift working_check working_limits : session.

Lemma working_call_sql {A} (c : Call A) : call_label c = LSql -> working (call c).
Proof. intros Hc. apply working_call. by right. Qed.

Lemma working_bound_value v operation : working (ensureBoundValueSupported v operation).
Proof. apply sound_working, bound_value_sound. Qed.
Lemma working_limit n operation : working (ensureStatementWithinBindLimit n operation).
Proof. apply usable_working, bind_limit_sound. Qed.
Lemma working_parameters ps operation : working (ensureParametersSupported ps operation).
Proof. apply usable_working, parameters_sound. Qed.
Lemma working_bind_parameters st : working (bindStatementParameters st).
Proof. apply working_bind; [apply working_check|]. intros p. apply working_call. by left. Qed.
#[local] Hint Resolve working_bound_value working_limit working_parameters working_bind_parameters : session.

Lemma working_cells operation items : working (check_cells operation items).
Proof.
  induction items as [|[column cell] items IH]; cbn [check_cells]; [apply working_ret|].
  apply working_bind; [|auto]. unfold check_cell. destruct (cell_indicator cell); auto with session.
  destruct (isEncodedResultType _); auto with session.
Qed.

Lemma working_fetch {A} n operation columns (convert : Row -> res A) : working (fetch n operation columns convert).
Proof.
  induction n as [|n IH]; cbn [fetch]; [apply working_ret|].
  apply working_bind; [by apply working_call_sql|]. intros row.
  apply working_bind; [destruct (hasEncodedResult columns); [apply working_cells|apply working_ret]|]. auto with session.
Qed.

Lemma working_rows {A} st operation columns (convert : Row -> res A) : working (read_rows st operation columns convert).
Proof. apply working_bind; [by apply working_call_sql|]. intros n. apply working_fetch. Qed.
#[local] Hint Resolve working_rows : session.

Lemma working_append owner target joined st grouped : working (appendCollectionRows owner target joined st grouped).
Proof. unfold appendCollectionRows. auto 12 with session. Qed.

Lemma working_batches owner target relation inner joined parts grouped :
  working (load_batches owner target relation inner joined parts grouped).
Proof.
  revert grouped. induction parts as [|part parts IH]; intros grouped; cbn [load_batches]; [apply working_ret|].
  apply working_bind; [apply working_lift|]. intros keys. apply working_bind; [apply working_check|]. intros st.
  apply working_bind; [apply working_append|]. auto.
Qed.

Lemma working_collection owner joined relation owners : working (loadCollectionField owner joined relation owners).
Proof.
  unfold loadCollectionField. apply working_bind; [apply working_lift|]. intros target.
  apply working_bind; [apply working_lift|]. intros keys. apply working_bind; [apply working_limits|]. intros limits.
  apply working_bind; [destruct (_ <? _)%N; auto with session|]. intros ?. apply working_bind; [apply working_check|]. intros base.
  apply working_bind; [apply working_batches|]. auto with session.
Qed.

Lemma working_fields owner m joined names owners : working (load_fields owner m joined names owners).
Proof.
  revert owners. induction names as [|name names IH]; intros owners; cbn [load_fields]; [apply working_ret|].
  apply working_bind; [apply working_lift|]. intros relation. apply working_bind; [apply working_collection|]. auto.
Qed.

Lemma working_includes owner joined includes owners : working (loadIncludedCollections owner joined includes owners).
Proof.
  unfold loadIncludedCollections. case_bool_decide; [apply working_ret|].
  apply working_bind; [apply working_lift|]. intros m. apply working_bind; [apply working_lift|]. intros ?.
  case_bool_decide; [apply working_ret|apply working_fields].
Qed.

(** *** The operations *)
Lemma model_checked descriptor operation : sound good (supported_model descriptor operation) (fun _ => ready).
Proof.
  apply usable_checked. intros d c u Hu. unfold ensureModelSupported in Hu. apply seq_Ok_iff in Hu as [Hu _].
  by eapply ensureSessionUsable_Ok.
Qed.

Lemma query_checked descriptor spec includes :
  sound good (check (fun d c => ensureQuerySupported d c descriptor spec includes)) (fun _ => ready).
Proof.
  apply usable_checked. intros d c u Hu. unfold ensureQuerySupported in Hu.
  apply bind_Ok_iff in Hu as (p & _ & (q & _ & Hu)%bind_Ok_iff). unfold ensureViewSupported, ensureModelSupported in Hu.
  apply seq_Ok_iff in Hu as [Hu _]. apply seq_Ok_iff in Hu as [Hu _]. by eapply ensureSessionUsable_Ok.
Qed.

Lemma execute_select_sound {A} projection st columns (convert : Row -> res A) loadIncludes :
  (forall rows, working (loadIncludes rows)) ->
  sound ready (executeSelectStatement projection st columns convert loadIncludes) (fun _ => ready).
Proof.
  intros Hload. first_part bind_limit_sound.
  apply conversion_translated_sound. apply working_bind; [apply working_lift|]. intros ?.
  apply working_bind; [apply working_parameters|]. intros ?.
  apply working_bind; [apply working_bind_parameters|]. intros ?. by apply working_bind; [apply working_rows|].
Qed.

Lemma select_sound descriptor spec includes : sound good (selectImpl descriptor spec includes) (fun _ => ready).
Proof.
  first_part query_checked. first_part usable_check. first_part usable_check.
  apply execute_select_sound. intros rows. apply working_includes.
Qed.

Lemma select_projection_sound {A} requestedType (convert : Row -> res A) descriptor spec includes :
  sound good (selectProjectionImpl requestedType convert descriptor spec includes) (fun _ => ready).
Proof.
  first_part query_checked. first_part usable_check. first_part usable_check.
  apply execute_select_sound. intros rows. apply working_ret.
Qed.

Lemma insert_sound model o : sound good (insertImpl runtime_bind model o) (fun _ => ready).
Proof.
  first_part model_checked. first_part usable_check. first_part usable_check.
  apply conversion_translated_sound. apply working_bind; [apply working_lift|]. intros serialized.
  apply working_bind; [apply working_check|]. intros caps. apply working_bind; [apply working_limits|]. intros limits.
  apply working_bind; [apply working_check|]. intros bound. apply working_bind; [apply working_limit|]. intros ?.
  destruct (bound.2 =? 0)%N; by apply working_call_sql.
Qed.

Lemma insert_all_sound model os : sound good (insert_all runtime_bind model os) (fun _ => good).
Proof.
  induction os as [|o os IH]; cbn [insert_all]; [by apply contract_ret|]. first_part usable_after; [apply insert_sound|]. exact IH.
Qed.

Lemma assignments_sound model l : sound ready (check_assignments model l) (fun _ => ready).
Proof. induction l as [|a l IH]; cbn [check_assignments]; [by apply contract_ret|]. by first_part usable_check. Qed.

Lemma update_sound model spec : sound good (updateImpl model spec) (fun _ => ready).
Proof.
  first_part model_checked. first_part usable_check. apply contract_bind with (Q := fun _ => ready).
  { destruct (update_predicate spec); [apply usable_check|by apply contract_ret]. }
  intros ?. first_part assignments_sound. first_part usable_check. apply sound_usable, executeMutation_sound.
Qed.

Lemma remove_sound model p : sound good (removeImpl model p) (fun _ => ready).
Proof.
  first_part model_checked. first_part usable_check. first_part usable_check. first_part usable_check.
  apply sound_usable, executeMutation_sound.
Qed.

Lemma create_table_sound model : sound good (createTableImpl model) (fun _ => ready).
Proof.
  first_part model_checked. first_part sound_usable; [apply ensureSchemaSupported_sound|]. first_part usable_check.
  first_part usable_check. apply sound_usable, executeSql_sound.
Qed.

Lemma delete_table_sound model : sound good (deleteTableImpl model) (fun _ => ready).
Proof.
  first_part model_checked. first_part usable_check. first_part usable_check. apply sound_usable, executeSql_sound.
Qed.

Lemma execute_all_sound commands operation : sound good (execute_all commands operation) (fun _ => good).
Proof.
  induction commands as [|c cs IH]; cbn [execute_all]; [by apply contract_ret|].
  first_part usable_after; [apply executeSql_sound|]. exact IH.
Qed.

Lemma create_relations_sound owner : sound good (createRelationTablesImpl owner) (fun _ => good).
Proof.
  first_part inv_check. destruct (negb _); [by apply contract_ret|]. first_part usable_after; [apply model_checked|].
  first_part usable_after; [apply ensureSchemaSupported_sound|]. first_part ensureRelationTableEndpointsExist_sound.
  first_part inv_check. apply execute_all_sound.
Qed.

Lemma delete_relations_sound owner : sound good (deleteRelationTablesImpl owner) (fun _ => good).
Proof.
  first_part inv_check. destruct (negb _); [by apply contract_ret|]. first_part usable_after; [apply model_checked|].
  do 3 first_part inv_check. apply execute_all_sound.
Qed.

Lemma link_sound owner o field t : sound good (linkImpl owner o field t) (fun _ => good).
Proof.
  first_part inv_check. destruct a as [relation target]. do 2 (first_part usable_after; [apply model_checked|]).
  do 2 first_part inv_check. apply contract_bind with (Q := fun _ => good).
  { case_bool_decide; [apply inv_check|]. first_part inv_check. apply inv_check. }
  intros ?. first_part inv_check. eapply contract_bind; [apply relationEndpointExists_sound|]. intros first.
  apply contract_bind with (Q := fun _ => good).
  { destruct first; [apply relationEndpointExists_sound|by apply contract_ret]. }
  intros there. apply contract_bind with (Q := fun _ => good).
  { destruct there; [by apply contract_ret|by apply contract_throw]. }
  intros ?. first_part inv_check. case_bool_decide; [|apply usable_after, executeMutation_sound].
  first_part inv_check. apply usable_after, executeInsertIfAbsent_sound.
Qed.

Lemma unlink_sound owner o field t : sound good (unlinkImpl owner o field t) (fun _ => good).
Proof.
  first_part inv_check. destruct a as [relation target]. do 2 (first_part usable_after; [apply model_checked|]).
  do 7 first_part inv_check. apply usable_after, executeMutation_sound.
Qed.

Lemma context_operation_sound o s :
  good s -> context_allowed o s -> match run_context o s with (Err e, s') => refused factory e s' | (_, s') => good s' end.
Proof.
  intros Hs Ho. assert (Hrun : forall m : M unit, sound good m (fun _ => good) -> match m s with (Err e, s') => refused factory e s' | (_, s') => good s' end).
  { intros m Hm. specialize (Hm s Hs). by destruct (m s) as [[]]. }
  destruct o; [by apply operation_sound|apply Hrun..].
  - apply discard_sound, usable_after, select_sound.
  - apply discard_sound, usable_after, select_projection_sound.
  - apply insert_all_sound.
  - apply discard_sound, usable_after, update_sound.
  - apply discard_sound, usable_after, remove_sound.
  - apply usable_after, create_table_sound.
  - apply usable_after, delete_table_sound.
  - apply create_relations_sound.
  - apply delete_relations_sound.
  - apply discard_sound, link_sound.
  - apply discard_sound, unlink_sound.
Qed.

Lemma context_reachable_inv s : context_reachable s -> good s.
Proof.
  induction 1 as [w|s o Hs IH Ho]; [by exists Closed|].
  pose proof (context_operation_sound o s IH Ho) as Hrun. destruct (run_context o s) as [[[]|[e|e|]] s']; done.
Qed.

(** C19: objects are selected, inserted, changed, linked and their tables created under the
    same protocol as the session itself: after any sequence of these operations and of
    those of the session, whatever each ended with, the calls of the driver are a run of
    the session protocol, the database's flags say its phase, and the next operation --
    the hydration of rows and the loading of included collections with it -- throws no
    exception of the driver. *)
Theorem context_protocol s :
  context_reachable s ->
  (exists ph, phase_after factory (events s) = Some ph /\ agrees ph (database s)) /\
  forall o, context_allowed o s -> forall e, (run_context o s).1 <> Err (Soci e).
Proof.
  intros Hs%context_reachable_inv. split; [exact Hs|]. intros o Ho e He.
  pose proof (context_operation_sound o s Hs Ho) as Hrun. destruct (run_context o s) as [r s']. simpl in He. by subst.
Qed.
End operations.

(** ** The batches of an include *)
Section batching.
Context `{Objects}.

(** Every owner is in one batch, in order, and no batch is longer than its size. *)
Lemma batches_spec {A} fuel n (owners : list A) :
  (0 < n)%nat -> (length owners <= fuel)%nat ->
  concat (batches fuel n owners) = owners /\ Forall (fun part => (length part <= n)%nat) (batches fuel n owners).
Proof.
  intros Hn. revert owners. induction fuel as [|fuel IH]; intros [|o os] Hlen; simpl in *; try (by split; [|constructor]); [lia|].
  destruct (IH (drop n (o :: os))) as [Hc Hf]; [rewrite length_drop; simpl; lia|]. rewrite Hc, take_drop.
  split; [done|]. constructor; [rewrite length_take; lia|done].
Qed.

Lemma filter_parameters_length keys k :
  Forall (fun key : PrimaryKey => length key = k) keys -> length (filter_parameters keys) = (length keys * k)%nat.
Proof.
  unfold filter_parameters. generalize keyName. induction keys as [|key keys IH]; intros name Hk; [done|].
  apply Forall_cons in Hk as [Hkey Hk]. rewrite imap_cons. simpl. rewrite length_app. unfold key_parameters at 1.
  rewrite length_imap, Hkey. f_equal. exact (IH (fun i => name (S i)) Hk).
Qed.

Lemma owner_filter_lengths dialect expressions keys text :
  renderOwnerKeyFilter dialect expressions keys = Ok text -> Forall (fun key : PrimaryKey => length key = length expressions) keys.
Proof.
  unfold renderOwnerKeyFilter. case_bool_decide as Hnil; [by apply nil_length_inv in Hnil as ->|].
  intros (ps & Hps%mapM_Ok_iff & _)%bind_Ok_iff. clear Hnil.
  apply Forall_lookup. intros i key Hi.
  destruct (Forall2_lookup_l _ _ _ i (i, key) Hps) as (p & _ & Hp); [by rewrite list_lookup_imap, Hi|].
  unfold owner_predicate in Hp. apply seq_Ok_iff in Hp as [Hp _]. apply throw_if_Ok_iff, negb_false_iff, Nat.eqb_eq in Hp. done.
Qed.

(** The parameters of an include are the parts of its keys, which are complete. *)
Lemma collection_parameters dialect owner m cols relation inner keys joined st :
  deref owner = Ok m -> getPrimaryKeyColumns m = Ok cols ->
  collectionSelectStatement dialect owner relation inner keys joined = Ok st ->
  parameters st = filter_parameters keys /\ Forall (fun key : PrimaryKey => length key = length cols) keys.
Proof.
  intros Hm Hcols. unfold collectionSelectStatement. rewrite Hm, bind_Ok, Hcols, bind_Ok.
  intros Hst. do 4 (apply bind_Ok_iff in Hst as (? & _ & Hst)). case_bool_decide.
  - apply bind_Ok_iff in Hst as (mapped & _ & Hst). apply bind_Ok_iff in Hst as (fs & Hfs & Hst).
    apply bind_Ok_iff in Hst as (wh & Hwh%owner_filter_lengths & Hst). apply Ok_inj in Hst as <-. split; [done|].
    apply mapM_Ok_iff, Forall2_length in Hfs. rewrite length_map in Hfs. by rewrite length_fmap, <- Hfs in Hwh.
  - apply seq_Ok_iff in Hst as [_ Hst]. apply seq_Ok_iff in Hst as [Hsizes Hst]. apply bind_Ok_iff in Hst as (fs & Hfs & Hst).
    apply bind_Ok_iff in Hst as (joins & _ & Hst). apply bind_Ok_iff in Hst as (wh & Hwh%owner_filter_lengths & Hst).
    apply bind_Ok_iff in Hst as (table & _ & Hst). apply Ok_inj in Hst as <-. split; [done|].
    apply throw_if_Ok_iff, orb_false_iff in Hsizes as [Hsize%negb_false_iff%Nat.eqb_eq _].
    apply mapM_Ok_iff, Forall2_length in Hfs. rewrite length_zip in Hfs. rewrite length_fmap in Hwh.
    by replace (length cols) with (length fs) by lia.
Qed.

Lemma batch_within budget k owners n limits :
  maxBindParameters limits = Some budget -> (N.of_nat k <= budget)%N -> (0 < k)%nat ->
  (n <= batch_size limits k owners)%nat -> (N.of_nat (n * k) <= budget)%N.
Proof.
  unfold batch_size. intros -> Hk Hpos Hn.
  assert (Hbudget : (k <= N.to_nat budget)%nat) by lia.
  assert (Hone : (1 <= N.to_nat budget / k)%nat) by (apply Nat.div_le_lower_bound; lia).
  rewrite Nat.max_r in Hn by done. pose proof (Nat.Div0.mul_div_le (N.to_nat budget) k). nia.
Qed.

(** C23: an include of any number of owners asks for all of them, each once and in order,
    in statements that the backend can bind: however small its limit on bind parameters
    is -- as long as one owner's key fits -- no batch exceeds it. *)
Theorem include_within_bind_limit dialect owner m cols relation inner joined limits budget (owners : list Object) :
  deref owner = Ok m -> getPrimaryKeyColumns m = Ok cols ->
  maxBindParameters limits = Some budget -> (N.of_nat (length cols) <= budget)%N ->
  let parts := batches (length owners) (batch_size limits (length cols) (length owners)) owners in
  concat parts = owners /\
  forall part keys st, part ∈ parts -> mapM (getPrimaryKey owner) part = Ok keys ->
    collectionSelectStatement dialect owner relation inner keys joined = Ok st -> (size_of (parameters st) <= budget)%N.
Proof.
  intros Hm Hcols Hlimit Hk parts.
  assert (Hpos : (0 < length cols)%nat).
  { unfold getPrimaryKeyColumns in Hcols. apply bind_Ok_iff in Hcols as (cs & _ & Hcols). apply seq_Ok_iff in Hcols as [Hne [= ->]].
    apply throw_if_Ok_iff, bool_decide_eq_false in Hne. destruct cols; [done|simpl; lia]. }
  destruct (batches_spec (length owners) (batch_size limits (length cols) (length owners)) owners) as [Hc Hf]; [|done|].
  { unfold batch_size. rewrite Hlimit. lia. }
  split; [exact Hc|]. intros part keys st Hin Hkeys Hst. rewrite Forall_forall in Hf. specialize (Hf part Hin).
  unfold size_of. destruct (collection_parameters _ _ _ _ _ _ _ _ _ Hm Hcols Hst) as [-> Hfull].
  rewrite (filter_parameters_length _ (length cols)) by done.
  apply mapM_Ok_iff, Forall2_length in Hkeys. rewrite <- Hkeys. by eapply batch_within.
Qed.

(** ** The collections that are set *)

(** Keys without NaN are the same when their values are. *)
Definition exact_key (k : PrimaryKey) : Prop := Forall (fun v => not_nan v = true) k.

Lemma same_key_iff k l : exact_key k -> exact_key l -> same_key k l = true <-> map value_key k = map value_key l.
Proof.
  intros Hk Hl. unfold same_key. rewrite !PrimaryKeyLess_key by done. unfold compare_keys.
  rewrite (lexicographic_opp lex lex_opp (map value_key k) (map value_key l)).
  rewrite <- (lexicographic_eq lex lex_eq). by destruct (lexicographic lex (map value_key k) (map value_key l)).
Qed.

Definition targets_of (key : PrimaryKey) (rows : list (PrimaryKey * Object)) : list Object :=
  snd <$> List.filter (fun r => same_key r.1 key) rows.

Definition exact_rows {B} (rows : list (PrimaryKey * B)) : Prop := Forall (fun r => exact_key r.1) rows.

Lemma find_group_add key k t (grouped : list (PrimaryKey * list Object)) :
  exact_key key -> exact_key k -> exact_rows grouped ->
  default [] (find_group key (group k t grouped)) =
    (default [] (find_group key grouped) ++ (if same_key k key then [t] else []))%list.
Proof.
  intros Hkey Hk. unfold find_group. induction grouped as [|[l ts] grouped IH]; intros Hg; simpl.
  - by destruct (same_key k key).
  - apply Forall_cons in Hg as [Hl Hg]. simpl in Hl. specialize (IH Hg).
    assert (Hsame : same_key l k = true -> same_key l key = same_key k key).
    { intros Heq%same_key_iff; [|done..]. apply eq_bool_prop_intro. rewrite !Is_true_true. rewrite !same_key_iff by done. by rewrite Heq. }
    destruct (same_key l k) eqn:Hlk; simpl.
    + rewrite (Hsame eq_refl). destruct (same_key k key); simpl; [done|]. by rewrite app_nil_r.
    + destruct (same_key l key) eqn:Hlkey; simpl; [|exact IH].
      assert (Hno : same_key k key = false).
      { apply not_true_is_false. intros Hkk. apply same_key_iff in Hlkey, Hkk; [|done..].
        apply not_true_iff_false in Hlk. apply Hlk. apply same_key_iff; [done..|]. congruence. }
      rewrite Hno. by rewrite app_nil_r.
Qed.

Lemma group_exact k t (grouped : list (PrimaryKey * list Object)) : exact_key k -> exact_rows grouped -> exact_rows (group k t grouped).
Proof.
  intros Hk. induction 1 as [|[l ts] grouped Hl Hg IH]; simpl; [by repeat constructor|].
  destruct (same_key l k); by constructor.
Qed.

Lemma find_groups key rows (grouped : list (PrimaryKey * list Object)) :
  exact_key key -> exact_rows rows -> exact_rows grouped ->
  default [] (find_group key (fold_left (fun grouped r => group r.1 r.2 grouped) rows grouped))
  = (default [] (find_group key grouped) ++ targets_of key rows)%list.
Proof.
  intros Hkey Hrows. revert grouped. induction Hrows as [|[k t] rows Hk Hrows IH]; intros grouped Hg; [by rewrite app_nil_r|].
  cbn [fold_left fst snd]. rewrite IH by (by apply group_exact). rewrite find_group_add by done.
  rewrite <- app_assoc. f_equal. unfold targets_of. cbn [List.filter fst]. by destruct (same_key k key).
Qed.

(** The rows of some owners among all rows of a relation. *)
Definition rows_of (rows : list (PrimaryKey * Object)) (keys : list PrimaryKey) : list (PrimaryKey * Object) :=
  List.filter (fun r => existsb (same_key r.1) keys) rows.

Lemma targets_of_app key rows1 rows2 : targets_of key (rows1 ++ rows2) = (targets_of key rows1 ++ targets_of key rows2)%list.
Proof. unfold targets_of. by rewrite List.filter_app, fmap_app. Qed.

Lemma targets_of_rows key rows keys :
  exact_key key -> exact_rows rows -> Forall exact_key keys ->
  targets_of key (rows_of rows keys) = if existsb (same_key key) keys then targets_of key rows else [].
Proof.
  intros Hkey Hrows Hkeys. unfold targets_of, rows_of. induction Hrows as [|[k t] rows Hk Hrows IH]; simpl; [by destruct (existsb _ keys)|].
  simpl in Hk. assert (Hsame : same_key k key = true -> existsb (same_key k) keys = existsb (same_key key) keys).
  { intros Heq%same_key_iff; [|done..]. clear -Heq Hk Hkey Hkeys. induction Hkeys as [|l keys Hl Hkeys IH]; [done|]. simpl. rewrite IH. f_equal.
    apply eq_bool_prop_intro. rewrite !Is_true_true, !same_key_iff by done. by rewrite Heq. }
  destruct (existsb (same_key k) keys) eqn:Hin; simpl; destruct (same_key k key) eqn:Hkk; simpl; try exact IH.
  - rewrite <- (Hsame eq_refl) in IH |- *. f_equal. exact IH.
  - rewrite <- (Hsame eq_refl) in IH |- *. exact IH.
Qed.

Lemma targets_of_permutation key rows1 rows2 : rows1 ≡ₚ rows2 -> targets_of key rows1 ≡ₚ targets_of key rows2.
Proof.
  unfold targets_of. induction 1 as [|r l k _ IH|r t l|l k j _ IH1 _ IH2]; simpl; [done|..|by rewrite IH1].
  - destruct (same_key r.1 key); [|done]. by apply perm_skip.
  - destruct (same_key r.1 key), (same_key t.1 key); [by apply perm_swap|done..].
Qed.

Lemma existsb_same_key key keys :
  exact_key key -> Forall exact_key keys -> existsb (same_key key) keys = true <-> map value_key key ∈ map (map value_key) keys.
Proof.
  intros Hkey Hkeys. rewrite existsb_exists, list_elem_of_In, in_map_iff. rewrite List.Forall_forall in Hkeys.
  split; intros (l & Hl & Heq); exists l; [|split; [done|]]; rewrite ?same_key_iff in * by eauto; done.
Qed.

(** A key is in one batch, so its rows are read once. *)
Lemma targets_of_batches key rows keyss rowss :
  exact_key key -> exact_rows rows -> Forall exact_key (concat keyss) -> NoDup (map (map value_key) (concat keyss)) ->
  Forall2 (fun keys read => read ≡ₚ rows_of rows keys) keyss rowss ->
  targets_of key (concat rowss) ≡ₚ if existsb (same_key key) (concat keyss) then targets_of key rows else [].
Proof.
  intros Hkey Hrows Hexact Hdup Hread. induction Hread as [|keys read keyss rowss Hread Hrest IH]; [done|]. simpl in *.
  rewrite map_app in Hdup. apply NoDup_app in Hdup as (_ & Hdisjoint & Hdup). apply Forall_app in Hexact as [Hkeys Hexact].
  rewrite targets_of_app, existsb_app, (targets_of_permutation _ _ _ Hread), targets_of_rows, IH by done.
  destruct (existsb (same_key key) keys) eqn:Hin; [|done]. apply existsb_same_key in Hin; [|done..].
  destruct (existsb (same_key key) (concat keyss)) eqn:Hout; simpl; [|by rewrite app_nil_r].
  apply existsb_same_key in Hout; [|done..]. by destruct (Hdisjoint _ Hin).
Qed.
End batching.

(** ** Reading *)
Section reading.
Context `{Driver} `{Objects}.

Lemma M_bind_Ok {A B} (m : M A) (k : A -> M B) s b s' :
  (m ≫= k) s = (Ok b, s') -> exists a t, m s = (Ok a, t) /\ k a t = (Ok b, s').
Proof. unfold mbind, M_bind. destruct (m s) as [[a|e] t]; [eauto|done]. Qed.

Lemma check_Ok {A} (f : Database -> bool -> res A) s a s' :
  check f s = (Ok a, s') -> f (database s) (is_connected (world s)) = Ok a /\ s' = s.
Proof. unfold check. destruct (f _ _); [|done]. by intros [= -> ->]. Qed.


(** A projection to a field of another type than an encoded column's is refused before
    anything is sent: the state, and with it the calls of the driver, stays. *)
Lemma mismatched_projection_refused {A} st columns (convert : Row -> res A) loadIncludes s :
  parameters st = [] -> existsb mismatched columns = true ->
  executeSelectStatement true st columns convert loadIncludes s =
    (Err (Thrown (DatabaseError Conversion (backendType (database s)) "select projection"
                    "A database result cannot be represented by the requested projection" None)), s).
Proof.
  intros Hst Hbad. assert (Hencoded : hasEncodedResult columns = true).
  { unfold hasEncodedResult. rewrite existsb_exists in Hbad |- *. destruct Hbad as (c & Hc & Hm). exists c. split; [done|].
    unfold mismatched in Hm. destruct (result_requested c); [|done]. by apply andb_true_iff in Hm as [Hm _]. }
  assert (Hrefused : emplace_storage columns =
    Err (ConversionError "A projected scalar type does not match its requested result field")).
  { unfold emplace_storage. rewrite Hencoded. unfold TypedResultStorage. clear -Hbad. induction columns as [|c columns IH]; [done|].
    simpl in *. destruct (mismatched c); [done|]. by apply IH. }
  unfold executeSelectStatement. rewrite Hst. unfold conversion_translated, catch, mbind, M_bind, lift, check. cbn. by rewrite Hrefused.
Qed.

(** *** Reading changes nothing of the database *)
Definition steady {A} (m : M A) : Prop := forall s a s', m s = (Ok a, s') -> database s' = database s.

Lemma steady_ret {A} (a : A) : steady (mret a).
Proof. by intros s b s' [= _ ->]. Qed.
Lemma steady_bind {A B} (m : M A) (k : A -> M B) : steady m -> (forall a, steady (k a)) -> steady (m ≫= k).
Proof. intros Hm Hk s b s' (a & t & Ha & Hb)%M_bind_Ok. rewrite (Hk a _ _ _ Hb). by eapply Hm. Qed.
Lemma steady_check {A} (f : Database -> bool -> res A) : steady (check f).
Proof. by intros s a s' [_ ->]%check_Ok. Qed.
Lemma steady_lift {A} (r : res A) : steady (lift r).
Proof. apply steady_check. Qed.
Lemma steady_call {A} (c : Call A) : steady (call c).
Proof. intros s a s'. unfold call. destruct (perform c (world s)). by intros [= _ <-]. Qed.

Lemma throwTranslatedError_never {A} error fallback operation s (a : A) s' :
  throwTranslatedError error fallback operation s <> (Ok a, s').
Proof.
  unfold throwTranslatedError. intros (d & t & _ & Hd)%M_bind_Ok. destruct (backend d); [|done].
  apply M_bind_Ok in Hd as (? & ? & _ & Hd). done.
Qed.

Lemma steady_translated {A} (m : M A) fallback operation : steady m -> steady (translated m fallback operation).
Proof.
  intros Hm s a s'. unfold translated, catch. destruct (m s) as [[b|[e|e|]] t] eqn:Hs; intros Ha; try done.
  - injection Ha as <- <-. by eapply Hm.
  - by apply throwTranslatedError_never in Ha.
Qed.

Create HintDb steady.
#[local] Hint Resolve steady_ret steady_bind steady_check steady_lift steady_call steady_translated : steady.

Lemma steady_limits : steady getBackendRuntimeLimits.
Proof. apply steady_bind; auto with steady. Qed.
#[local] Hint Resolve steady_limits : steady.

Lemma steady_bind_limit n operation : steady (ensureStatementWithinBindLimit n operation).
Proof.
  unfold ensureStatementWithinBindLimit. destruct (n =? 0)%N; [auto with steady|]. apply steady_bind; [auto with steady|].
  intros limits. destruct (maxBindParameters limits); [|auto with steady]. destruct (_ <? _)%N; auto with steady.
Qed.

Lemma steady_bound_value v operation : steady (ensureBoundValueSupported v operation).
Proof.
  do 3 (apply steady_bind; [auto with steady|]; intros ?). destruct (QueryValue.isWithinValueLimits _ _ _ _); auto with steady.
Qed.
#[local] Hint Resolve steady_bind_limit steady_bound_value : steady.

Lemma steady_parameters ps operation : steady (ensureParametersSupported ps operation).
Proof. induction ps as [|p ps IH]; cbn [ensureParametersSupported]; auto 6 with steady. Qed.

Lemma steady_cells operation items : steady (check_cells operation items).
Proof.
  induction items as [|[column cell] items IH]; cbn [check_cells]; [auto with steady|].
  apply steady_bind; [|auto]. unfold check_cell. destruct (cell_indicator cell); [|auto with steady|by intros s a s' Ha].
  destruct (isEncodedResultType _); auto with steady.
Qed.

Lemma steady_fetch {A} n operation columns (convert : Row -> res A) : steady (fetch n operation columns convert).
Proof.
  induction n as [|n IH]; cbn [fetch]; [auto with steady|]. apply steady_bind; [auto with steady|]. intros row.
  apply steady_bind; [destruct (hasEncodedResult columns); [apply steady_cells|apply steady_ret]|]. auto with steady.
Qed.
#[local] Hint Resolve steady_parameters steady_fetch : steady.

Lemma steady_append owner target joined st grouped : steady (appendCollectionRows owner target joined st grouped).
Proof. unfold appendCollectionRows, bindStatementParameters, read_rows. auto 12 with steady. Qed.

Lemma lift_Ok {A} (r : res A) s a s' : lift r s = (Ok a, s') -> r = Ok a /\ s' = s.
Proof. apply check_Ok. Qed.

Definition related_query (joined : bool) : SelectSpec := MkSelect None None None [] [] [] None false joined.

(** What the database promises: a batch's statement yields the rows of the relation whose
    owners have the keys of the batch, in any order. *)
Definition answers dialect (owner target : ModelView) (relation : RelationView) (joined : bool) (rows : list (PrimaryKey * Object)) : Prop :=
  forall base keys st columns read s s',
    collection_columns owner target joined = Ok columns ->
    select dialect target (related_query joined) = Ok base ->
    collectionSelectStatement dialect owner relation (sql base) keys joined = Ok st ->
    read_rows st "include collection" columns (related_row owner target joined) s = (Ok read, s') ->
    read ≡ₚ rows_of rows keys.

#[local] Abbreviation grouped_with rows grouped := (fold_left (fun grouped r => group r.1 r.2 grouped) rows grouped).

Lemma append_reads owner target joined st grouped s grouped' s' :
  appendCollectionRows owner target joined st grouped s = (Ok grouped', s') ->
  exists columns read t, collection_columns owner target joined = Ok columns /\
    read_rows st "include collection" columns (related_row owner target joined) t = (Ok read, s') /\
    grouped' = grouped_with read grouped.
Proof.
  intros (? & ? & _ & (? & ? & _ & (? & ? & _ & (columns & t & [Hcolumns ->]%lift_Ok & (? & v & [_ ->]%lift_Ok & (read & u & Hread & Hret)%M_bind_Ok)%M_bind_Ok)%M_bind_Ok)%M_bind_Ok)%M_bind_Ok)%M_bind_Ok.
  injection Hret as <- <-. by eexists columns, read, _.
Qed.

Lemma on_dialect_Ok {A} (f : SqlDialect -> res A) p s a s' :
  backend (database s) = Some p -> on_dialect f s = (Ok a, s') -> f (provider_dialect p) = Ok a /\ s' = s.
Proof.
  intros Hp Hf. unfold on_dialect in Hf. apply check_Ok in Hf as [(q & Hq & Ha)%bind_Ok_iff ->]. unfold Database_getBackend in Hq. rewrite Hp in Hq.
  apply bind_Ok_iff in Hq as (q' & [= <-] & [_ [= <-]]%seq_Ok_iff). done.
Qed.

Lemma load_batches_reads owner target relation base p joined rows parts grouped s grouped' s' :
  answers (provider_dialect p) owner target relation joined rows ->
  select (provider_dialect p) target (related_query joined) = Ok base -> backend (database s) = Some p ->
  load_batches owner target relation (sql base) joined parts grouped s = (Ok grouped', s') ->
  exists keyss rowss, Forall2 (fun part keys => mapM (getPrimaryKey owner) part = Ok keys) parts keyss /\
    Forall2 (fun keys read => read ≡ₚ rows_of rows keys) keyss rowss /\ grouped' = grouped_with (concat rowss) grouped.
Proof.
  intros Hanswers Hbase. revert grouped s. induction parts as [|part parts IH]; intros grouped s Hp.
  - intros [= <- _]. by exists [], [].
  - intros (keys & t & [Hkeys ->]%lift_Ok & (st & u & Hst & (read & v & Hread & Hrest)%M_bind_Ok)%M_bind_Ok)%M_bind_Ok.
    apply (on_dialect_Ok _ p) in Hst as [Hst ->]; [|done]. pose proof (steady_append _ _ _ _ _ _ _ _ Hread) as Hsame.
    apply append_reads in Hread as (columns & read' & t & Hcolumns & Hread & ->).
    apply IH in Hrest as (keyss & rowss & Hparts & Hrows & ->); [|by rewrite Hsame].
    exists (keys :: keyss), (read' :: rowss). split; [by constructor|]. split.
    + constructor; [by eapply Hanswers|done].
    + simpl. by rewrite fold_left_app.
Qed.

Lemma keys_of_batches owner parts keyss :
  Forall2 (fun part keys => mapM (getPrimaryKey owner) part = Ok keys) parts keyss ->
  Forall2 (fun o key => getPrimaryKey owner o = Ok key) (concat parts) (concat keyss).
Proof.
  induction 1 as [|part keys parts keyss Hpart Hrest IH]; [done|]. simpl. apply Forall2_app; [|done]. by apply mapM_Ok_iff.
Qed.

Lemma batch_positive m cols limits (owners : list Object) :
  getPrimaryKeyColumns m = Ok cols -> owners <> [] -> (0 < batch_size limits (length cols) (length owners))%nat.
Proof. intros _ Hne. unfold batch_size. destruct (maxBindParameters limits); [lia|]. destruct owners; [done|simpl; lia]. Qed.

Lemma keys_unique owner owners keys keys' :
  Forall2 (fun o key => getPrimaryKey owner o = Ok key) owners keys ->
  Forall2 (fun o key => getPrimaryKey owner o = Ok key) owners keys' -> keys = keys'.
Proof.
  intros H1. revert keys'. induction H1 as [|o key os keys Ho _ IH]; intros keys' H2.
  - by apply Forall2_nil_inv_l in H2.
  - apply Forall2_cons_inv_l in H2 as (key' & rest & Ho' & Hrest & ->). rewrite Ho in Ho'. injection Ho' as <-. f_equal. by apply IH.
Qed.

Lemma rows_read_exact rows keyss rowss :
  exact_rows rows -> Forall2 (fun keys read => read ≡ₚ rows_of rows keys) keyss rowss -> exact_rows (B := Object) (concat rowss).
Proof.
  intros Hrows. induction 1 as [|keys read keyss rowss Hread _ IH]; [constructor|]. simpl. apply Forall_app. split; [|done].
  unfold exact_rows. rewrite Hread. apply Forall_forall. intros r Hr%list_elem_of_In. apply filter_In in Hr as [Hr%list_elem_of_In _].
  by eapply Forall_forall in Hrows.
Qed.

Lemma set_collections owner name grouped owners keys (f : PrimaryKey -> list Object) loaded :
  Forall2 (fun o key => getPrimaryKey owner o = Ok key) owners keys ->
  Forall (fun key => default [] (find_group key grouped) ≡ₚ f key) keys ->
  mapM (set_collection owner name grouped) owners = Ok loaded ->
  Forall2 (fun okey o' => exists targets, o' = setLoaded name targets okey.1 /\ targets ≡ₚ f okey.2) (zip owners keys) loaded.
Proof.
  intros Hkeys Hfind Hset%mapM_Ok_iff. revert loaded Hset. induction Hkeys as [|o key os keys Ho _ IH]; intros loaded Hset.
  - apply Forall2_nil_inv_l in Hset as ->. constructor.
  - apply Forall_cons in Hfind as [Hkey Hfind]. apply Forall2_cons_inv_l in Hset as (o' & rest & Ho' & Hrest & ->).
    simpl. constructor; [|by apply IH]. unfold set_collection in Ho'. rewrite Ho, bind_Ok in Ho'. injection Ho' as <-. by eexists.
Qed.

(** C20: an include sets, on every owner, exactly the rows of the relation that have its key
    -- all of them, once, and nothing on an owner without any -- however many owners there
    are and however few parameters a statement may bind, if the database answers each
    statement with the rows of the keys it asks for. *)
Theorem include_complete p owner target relation joined rows (owners : list Object) keys s loaded s' :
  backend (database s) = Some p -> requireCollectionTarget owner relation = Ok target ->
  answers (provider_dialect p) owner target relation joined rows ->
  Forall2 (fun o key => getPrimaryKey owner o = Ok key) owners keys ->
  Forall exact_key keys -> NoDup (map (map value_key) keys) -> exact_rows rows ->
  loadCollectionField owner joined relation owners s = (Ok loaded, s') ->
  Forall2 (fun okey o' => exists targets, o' = setLoaded (rv_fieldName relation) targets okey.1 /\
                                          targets ≡ₚ targets_of okey.2 rows) (zip owners keys) loaded.
Proof.
  intros Hp Htarget Hanswers Hkeys Hexact Hdup Hrows.
  intros (t0 & s0 & [Ht ->]%lift_Ok & Hload)%M_bind_Ok. rewrite Htarget in Ht. injection Ht as <-.
  apply M_bind_Ok in Hload as (cols & s1 & [Hcols ->]%lift_Ok & Hload). apply bind_Ok_iff in Hcols as (m & Hm & Hcols).
  apply M_bind_Ok in Hload as (limits & s2 & Hlimits%steady_limits & Hload).
  apply M_bind_Ok in Hload as (? & s3 & Hbudget & Hload). assert (Hsame : database s3 = database s2).
  { destruct (_ <? _)%N; [by apply steady_check in Hbudget|by injection Hbudget as _ <-]. }
  clear Hbudget. apply M_bind_Ok in Hload as (base & s4 & Hbase & Hload).
  apply (on_dialect_Ok _ p) in Hbase as [Hbase ->]; [|by rewrite Hsame, Hlimits].
  apply M_bind_Ok in Hload as (grouped & s5 & Hgrouped & Hload). apply lift_Ok in Hload as [Hset _].
  eapply load_batches_reads in Hgrouped as (keyss & rowss & Hparts & Hread & ->); [|done..|by rewrite Hsame, Hlimits].
  assert (Hall : concat (batches (length owners) (batch_size limits (length cols) (length owners)) owners) = owners).
  { destruct (decide (owners = [])) as [->|Hne]; [done|]. apply batches_spec; [|done]. by eapply batch_positive. }
  apply keys_of_batches in Hparts. rewrite Hall in Hparts.
  assert (Heq : concat keyss = keys) by (by eapply keys_unique). subst keys. clear Hparts Hall.
  refine (set_collections _ _ _ _ _ (fun key => targets_of key rows) _ Hkeys _ Hset). apply Forall_forall. intros key Hin.
  assert (Hkey : exact_key key) by (by eapply Forall_forall in Hexact).
  rewrite find_groups; [|done|by eapply rows_read_exact|constructor]. simpl.
  rewrite targets_of_batches by done. replace (existsb (same_key key) (concat keyss)) with true; [done|].
  symmetry. apply existsb_same_key; [done..|]. by apply list_elem_of_In, in_map, list_elem_of_In.
Qed.
End reading.
