(* ===== verification/Supported.v ===== *)
(** Supported: what the checks of a [Database] accept. *)
From S2P Require Import Prelude Foundation Values Models Schema PhysicalSql Literals Dialect TargetValues QueryValue Query Emitter Render Capabilities Commands Database Connection.
Local Open Scope string_scope.

(** ** Strings of bounded length

    The scanner of a bounded string and that of a literal of a migration. *)
Definition minimum_of (width : nat) : Z :=
  match width with 1%nat => 0 | 2%nat => 128 | 3%nat => 2048 | _ => 65536 end%Z.

Lemma first_byte_width first :
  (0 <= first)%Z ->
  first_byte first =
    let w := utf8_width first in
    if (w =? 0)%nat then invalid_utf8 else Ok ((w - 1)%nat, Z.land first (lead_mask w), minimum_of w).
Proof.
  intros Hfirst. unfold first_byte, utf8_width. cbv zeta.
  destruct (Z.ltb_spec first 128) as [H1|H1].
  { simpl. f_equal. f_equal. f_equal. change 127%Z with (2 ^ 7 - 1)%Z. rewrite low_bits by done. symmetry. apply Z.mod_small. lia. }
  change 0xc2%Z with 194%Z. change 0xdf%Z with 223%Z. change 0xe0%Z with 224%Z. change 0xef%Z with 239%Z.
  change 0xf0%Z with 240%Z. change 0xf4%Z with 244%Z.
  destruct ((194 <=? first)%Z && (first <=? 223)%Z); [done|].
  destruct ((224 <=? first)%Z && (first <=? 239)%Z); [done|].
  by destruct ((240 <=? first)%Z && (first <=? 244)%Z).
Qed.

Lemma continuation_bytes_Ok cp l v : continuation_bytes cp l = Ok v <-> continuation cp l = Ok v.
Proof.
  revert cp. induction l as [|c l IH]; intros cp; [done|]. simpl.
  change 0xc0%Z with 192%Z. change 0x80%Z with 128%Z. destruct (Z.land _ 192 =? 128)%Z; simpl; [apply IH|done].
Qed.

Lemma continuation_nonnegative cp l v : (0 <= cp)%Z -> continuation cp l = Ok v -> (0 <= v)%Z.
Proof.
  revert cp. induction l as [|c l IH]; intros cp Hcp; [by intros [= <-]|].
  intros (y & Hy & _ & H)%continuation_inv. apply IH in H; lia.
Qed.

Lemma invalid_point w cp :
  (w <= 4)%nat -> w <> 0%nat -> (0 <= cp)%Z ->
  (cp <? minimum_of w)%Z || (0x10ffff <? cp)%Z || ((0xd800 <=? cp)%Z && (cp <=? 0xdfff)%Z) = overlong w cp.
Proof.
  intros Hw Hw0 Hcp. unfold overlong.
  change 0x10ffff%Z with 1114111%Z. change 0xd800%Z with 55296%Z. change 0xdfff%Z with 57343%Z.
  destruct w as [|[|[|[|[|w]]]]]; try lia; simpl;
    [replace (cp <? 0)%Z with false by (symmetry; apply Z.ltb_ge; lia)|..]; simpl; try rewrite !orb_false_r;
    repeat destruct (_ <? _)%Z; repeat destruct (_ <=? _)%Z; done.
Qed.

Lemma utf8_width_le n : (utf8_width n <= 4)%nat.
Proof. unfold utf8_width. repeat case_match; lia. Qed.

Lemma unicode_count_grows fuel k text n : unicode_count fuel k text = Ok n -> (k <= n)%N.
Proof.
  revert k text. induction fuel as [|fuel IH]; intros k [|c text]; simpl; try by intros [= <-].
  destruct (_ || _); [done|]. intros (cp & _ & H)%bind_Ok_iff. destruct (overlong _ _); [done|]. apply IH in H. lia.
Qed.

(** One turn of each scanner. *)
Lemma bounded_length_turn fuel limit k c rest :
  bounded_length (S fuel) limit k (c :: rest) = Ok tt <->
  exists cp, let w := utf8_width (byte_of c) in
    w <> 0%nat /\ (w <= length (c :: rest))%nat /\
    continuation (Z.land (byte_of c) (lead_mask w)) (take (w - 1) rest) = Ok cp /\ overlong w cp = false /\
    (k + 1 <= limit)%N /\ bounded_length fuel limit (k + 1)%N (drop (w - 1) rest) = Ok tt.
Proof.
  cbn [bounded_length]. rewrite first_byte_width by apply byte_of_range. cbv zeta.
  assert (Hle := utf8_width_le (byte_of c)). set (w := utf8_width (byte_of c)) in *. clearbody w.
  assert (Hlead : (0 <= Z.land (byte_of c) (lead_mask w))%Z).
  { apply Z.land_nonneg. left. apply byte_of_range. }
  destruct (Nat.eqb_spec w 0) as [Hw|Hw]; [split; [done|by intros (cp & ? & _)]|]. rewrite bind_Ok. cbn [length].
  destruct (Nat.ltb_spec (length rest) (w - 1)) as [Hlen|Hlen]; [split; [done|intros (cp & _ & ? & _); lia]|].
  split.
  - intros (cp & Hcp%continuation_bytes_Ok & Hok)%bind_Ok_iff. exists cp.
    rewrite (invalid_point w cp) in Hok by (done || by eapply continuation_nonnegative).
    destruct (overlong w cp); [done|]. apply seq_Ok_iff in Hok as [Hk%throw_if_Ok_iff Hok]. apply N.ltb_ge in Hk.
    repeat split; done || lia.
  - intros (cp & _ & _ & Hcp & Hvalid & Hk & Hok). rewrite (proj2 (continuation_bytes_Ok _ _ _) Hcp), bind_Ok.
    rewrite (invalid_point w cp), Hvalid by (done || by eapply continuation_nonnegative).
    apply seq_Ok_iff. split; [|done]. apply throw_if_Ok_iff, N.ltb_ge. lia.
Qed.

Lemma unicode_count_turn_iff fuel k c rest n :
  unicode_count (S fuel) k (c :: rest) = Ok n <->
  exists cp, let w := utf8_width (byte_of c) in
    w <> 0%nat /\ (w <= length (c :: rest))%nat /\
    continuation (Z.land (byte_of c) (lead_mask w)) (take (w - 1) rest) = Ok cp /\ overlong w cp = false /\
    unicode_count fuel (k + 1)%N (drop (w - 1) rest) = Ok n.
Proof.
  cbn [unicode_count]. cbv zeta. set (w := utf8_width (byte_of c)). clearbody w.
  destruct (Nat.eqb_spec w 0) as [Hw|Hw]; [split; [done|by intros (cp & ? & _)]|].
  destruct (Nat.ltb_spec (length (c :: rest)) w) as [Hlen|Hlen]; cbn [orb];
    [split; [done|intros (cp & _ & ? & _); cbn [length] in *; lia]|].
  rewrite bind_Ok_iff. apply exist_proper. intros cp. split.
  - intros [Hcp Hok]. by destruct (overlong w cp).
  - intros (_ & _ & Hcp & Hvalid & Hok). by rewrite Hvalid.
Qed.

Lemma bounded_length_iff fuel limit k text :
  (k <= limit)%N ->
  (bounded_length fuel limit k text = Ok tt <-> exists n, unicode_count fuel k text = Ok n /\ (n <= limit)%N).
Proof.
  revert k text. induction fuel as [|fuel IH]; intros k [|c rest] Hk; try by (split; [by exists k|done]).
  rewrite bounded_length_turn. split.
  - intros (cp & Hw & Hlen & Hcp & Hvalid & Hk1 & (n & Hn & Hle)%IH); [|done]. exists n. split; [|done].
    apply unicode_count_turn_iff. by exists cp.
  - intros (n & (cp & Hw & Hlen & Hcp & Hvalid & Hn)%unicode_count_turn_iff & Hle). exists cp.
    assert (Hgrow := unicode_count_grows _ _ _ _ Hn). repeat split; try done; [lia|]. apply IH; [lia|]. by exists n.
Qed.

(** a bounded string is accepted exactly when it is the UTF-8 encoding of a sequence
    of Unicode scalar values that is no longer than the limit: the scanner of the objects
    that are stored and the one of a migration's literals accept the same texts and count
    the same characters. *)
Theorem validateStringLength_iff text limit :
  validateStringLength text (Some limit) = Ok tt <->
  exists n, unicodeLength text = Ok n /\ (n <= limit)%N.
Proof. apply bounded_length_iff. lia. Qed.

(** ** Index budgets *)

(** What a key takes in an index: the sum of the sizes of its columns, as a number of the
    machine. *)
Definition part_size (m : ModelDataView) (index part : N) : Prop :=
  exists c t, column_at m index = Ok c /\ cv_type c = Some t /\ key_part c t = Some part.

Definition key_bytes (endpoint : ModelView) (bytes : N) : Prop :=
  exists m parts, arrow endpoint = Some m /\ Forall2 (part_size m) (mv_primaryKeyIndices m) parts /\
                  bytes = foldr N.add 0%N parts /\ (bytes <= SIZE_MAX)%N.

Definition fits (limits : RuntimeLimits) (bytes : N) : Prop :=
  match maxIndexBytes limits with Some maximum => (bytes <= maximum)%N | None => True end.

Section budgets.
Variable d : Database.
Variable operation : string.

Lemma part_size_fun m i p q : part_size m i p -> part_size m i q -> p = q.
Proof. intros (c & t & Hc & Ht & Hp) (c' & t' & Hc' & Ht' & Hq). congruence. Qed.

Lemma add_key_part_Ok m bytes index n :
  (bytes <= SIZE_MAX)%N ->
  (add_key_part d operation m bytes index = Ok n <->
   exists part, part_size m index part /\ n = (bytes + part)%N /\ (n <= SIZE_MAX)%N).
Proof.
  intros Hbytes. unfold add_key_part, part_size. split.
  - intros (c & Hc & (t & Ht%or_throw_Ok_iff & H)%bind_Ok_iff)%bind_Ok_iff.
    destruct (key_part c t) as [part|] eqn:Hpart; [|done].
    destruct (N.ltb_spec (SIZE_MAX - bytes) part); [done|]. injection H as <-. exists part. split; [by exists c, t|lia].
  - intros (part & (c & t & -> & Ht & Hpart) & -> & Hn). rewrite bind_Ok. unfold column_type. rewrite Ht. simpl. rewrite Hpart.
    destruct (N.ltb_spec (SIZE_MAX - bytes) part); [lia|done].
Qed.

Lemma sum_bound l (x : N) : (x <= x + foldr N.add 0 l)%N.
Proof. lia. Qed.

Lemma add_key_parts_Ok m indices bytes n :
  (bytes <= SIZE_MAX)%N ->
  (foldM (add_key_part d operation m) bytes indices = Ok n <->
   exists parts, Forall2 (part_size m) indices parts /\ n = (bytes + foldr N.add 0%N parts)%N /\ (n <= SIZE_MAX)%N).
Proof.
  revert bytes. induction indices as [|i rest IH]; intros bytes Hbytes; simpl.
  - split.
    + intros [= <-]. exists []. split; [constructor|simpl; lia].
    + intros (parts & Hnil%Forall2_nil_inv_l & -> & _). subst. simpl. f_equal. lia.
  - rewrite bind_Ok_iff. split.
    + intros (next & (part & Hpart & -> & Hle)%add_key_part_Ok & (parts & Hparts & -> & Hn)%IH); try done.
      exists (part :: parts). split; [by constructor|simpl; lia].
    + intros (l & (part & parts & Hpart & Hparts & ->)%Forall2_cons_inv_l & -> & Hn). simpl in *.
      exists (bytes + part)%N. split; [apply add_key_part_Ok; [done|]; exists part; split_and!; [done..|lia]|].
      apply IH; [lia|]. exists parts. split_and!; [done|lia..].
Qed.

Lemma keySize_Ok endpoint n : keySize d operation endpoint = Ok n <-> key_bytes endpoint n.
Proof.
  unfold keySize, key_bytes, deref. rewrite bind_Ok_iff. split.
  - intros (m & Hm%or_throw_Ok_iff & (parts & Hparts & -> & Hle)%add_key_parts_Ok); [|done].
    by exists m, parts.
  - intros (m & parts & Hm & Hparts & -> & Hle). exists m. split; [by apply or_throw_Ok_iff|].
    apply add_key_parts_Ok; [done|]. by exists parts.
Qed.

Lemma checkBudget_Ok limits bytes : checkBudget d operation limits bytes = Ok tt <-> fits limits bytes.
Proof.
  unfold checkBudget, fits. destruct (maxIndexBytes limits) as [maximum|]; [|done].
  by destruct (N.ltb_spec maximum bytes); split; try done; try lia.
Qed.

Lemma key_bytes_bound endpoint n : key_bytes endpoint n -> (n <= SIZE_MAX)%N.
Proof. by intros (m & parts & _ & _ & _ & Hn). Qed.

Lemma check_reference_Ok limits descriptor c :
  check_reference d operation limits descriptor c = Ok tt <->
  (cv_kind c = ToOne -> exists bytes, key_bytes (resolveColumnTarget descriptor c) bytes /\ fits limits bytes).
Proof.
  unfold check_reference. case_bool_decide as Hk; [|done]. rewrite bind_Ok_iff. split.
  - intros (bytes & Hb%keySize_Ok & Hf%checkBudget_Ok) _. by exists bytes.
  - intros H. destruct (H Hk) as (bytes & Hb & Hf). exists bytes. by rewrite keySize_Ok, checkBudget_Ok.
Qed.

Lemma check_junction_Ok limits descriptor owner r :
  (owner <= SIZE_MAX)%N ->
  (check_junction d operation limits descriptor owner r = Ok tt <->
   (rv_kind r = RelManyToMany -> jv_owningSide (rv_junction r) = true ->
    exists bytes, key_bytes (resolveRelationTarget descriptor r) bytes /\
                  (owner + bytes <= SIZE_MAX)%N /\ fits limits (owner + bytes)%N)).
Proof.
  intros Howner. unfold check_junction. case_bool_decide as Hk; [|done].
  destruct (jv_owningSide (rv_junction r)); simpl; [|done]. rewrite bind_Ok_iff. split.
  - intros (bytes & Hb%keySize_Ok & H) _ _. exists bytes.
    destruct (N.ltb_spec (SIZE_MAX - owner) bytes); [done|]. apply checkBudget_Ok in H. split_and!; [done|lia|done].
  - intros H. destruct (H Hk eq_refl) as (bytes & Hb & Hle & Hf). exists bytes. rewrite keySize_Ok. split; [done|].
    destruct (N.ltb_spec (SIZE_MAX - owner) bytes); [lia|]. by apply checkBudget_Ok.
Qed.
End budgets.

(** a schema passes the check of the backend's index budget exactly when the model's
    key, the key of the model that each to-one column refers to, and, if the junction
    tables are made too, each junction's key -- the owner's key with the target's -- are
    within the budget, as sums that no machine number cut short. *)
Theorem check_budgets_iff d operation limits descriptor includeJunctions :
  check_budgets d operation limits descriptor includeJunctions = Ok tt <->
  exists m owner, arrow descriptor = Some m /\ key_bytes descriptor owner /\ fits limits owner /\
    (forall c, c ∈ mv_columns m -> cv_kind c = ToOne ->
       exists bytes, key_bytes (resolveColumnTarget descriptor c) bytes /\ fits limits bytes) /\
    (includeJunctions = true -> forall r, r ∈ mv_relations m -> rv_kind r = RelManyToMany ->
       jv_owningSide (rv_junction r) = true ->
       exists bytes, key_bytes (resolveRelationTarget descriptor r) bytes /\
                     (owner + bytes <= SIZE_MAX)%N /\ fits limits (owner + bytes)%N).
Proof.
  unfold check_budgets, deref. rewrite bind_Ok_iff. apply exist_proper. intros m.
  rewrite or_throw_Ok_iff, bind_Ok_iff. split.
  - intros (Hm & owner & Howner%keySize_Ok & [Hfits%checkBudget_Ok H]%seq_Ok_iff). exists owner.
    apply seq_Ok_iff in H as [Hcolumns Hrelations]. rewrite forM__Ok_iff, list.Forall_forall in Hcolumns. split_and!; try done.
    + intros c Hc. eapply check_reference_Ok, Hcolumns. done.
    + intros -> r Hr. rewrite forM__Ok_iff, list.Forall_forall in Hrelations.
      eapply check_junction_Ok; [by eapply key_bytes_bound|]. by apply Hrelations.
  - intros (owner & Hm & Howner & Hfits & Hcolumns & Hrelations). split; [done|]. exists owner.
    rewrite keySize_Ok. split; [done|]. apply seq_Ok_iff. rewrite checkBudget_Ok. split; [done|]. apply seq_Ok_iff.
    rewrite forM__Ok_iff, list.Forall_forall. split; [by intros c Hc; apply check_reference_Ok, Hcolumns|].
    destruct includeJunctions; [|done]. apply forM__Ok_iff, list.Forall_forall. intros r Hr.
    apply check_junction_Ok; [by eapply key_bytes_bound|]. by apply Hrelations.
Qed.

(** ** Identifiers *)
Section identifiers.
Variable dialect : SqlDialect.

(** The models that a model's columns and relations lead to. *)
Definition targets (a : ModelView) : list ModelView :=
  match arrow a with
  | None => []
  | Some m =>
      (map (resolveColumnTarget a) (List.filter (fun c => negb (bool_decide (cv_kind c = Scalar))) (mv_columns m))
       ++ map (resolveRelationTarget a) (mv_relations m))%list
  end.

Definition leads (a b : ModelView) : Prop := b ∈ targets a.

(** The names of one model: the model that a column or a relation leads to is not visited. *)
Definition stay (visited : gset N) (target : ModelView) : res (gset N) := Ok visited.

Definition own_names (a : ModelView) : res unit :=
  m ← deref a;
  quoted_ok dialect (mv_tableName m) ;;
  forM_ (mv_columns m) (fun c => _ ← column_names dialect stay a m ∅ c; Ok tt) ;;
  forM_ (mv_relations m) (fun r => _ ← relation_names dialect stay a ∅ r; Ok tt).

Lemma resolved_column a c target :
  requireToOneTarget a c = Ok target <-> exists m, arrow (resolveColumnTarget a c) = Some m /\ target = (resolveColumnTarget a c, m).
Proof.
  unfold requireToOneTarget. rewrite bind_Ok_iff. apply exist_proper. intros m. rewrite or_throw_Ok_iff.
  split; intros [? Heq]; (split; [done|]); congruence.
Qed.

Lemma resolved_relation a r target :
  requireRelationTarget a r = Ok target <-> exists m, arrow (resolveRelationTarget a r) = Some m /\ target = (resolveRelationTarget a r, m).
Proof.
  unfold requireRelationTarget. rewrite bind_Ok_iff. apply exist_proper. intros m. rewrite or_throw_Ok_iff.
  split; intros [? Heq]; (split; [done|]); congruence.
Qed.

(** The checks of a column or a relation, then the visit. *)
Lemma column_names_Ok visit a m v v' c :
  column_names dialect visit a m v c = Ok v' <->
  column_names dialect stay a m ∅ c = Ok ∅ /\
  (if bool_decide (cv_kind c = Scalar) then v' = v else visit v (resolveColumnTarget a c) = Ok v').
Proof.
  unfold column_names. rewrite !seq_Ok_iff. case_bool_decide.
  - rewrite !seq_Ok_iff. split; [intros (? & ? & [= ->]); done|intros [(? & ? & _) ->]; done].
  - rewrite !bind_Ok_iff. split.
    + intros (Hq & (target & d) & Ht & Hrest). apply seq_Ok_iff in Hrest as [Htable [Hcolumns Hvisit]%seq_Ok_iff].
      apply resolved_column in Ht as Ht'. destruct Ht' as (d' & _ & [= -> ->]). split; [|done]. split; [done|].
      eexists. split; [exact Ht|]. apply seq_Ok_iff. split; [done|]. by apply seq_Ok_iff.
    + intros [(Hq & (target & d) & Ht & Hrest) Hvisit]. apply seq_Ok_iff in Hrest as [Htable [Hcolumns _]%seq_Ok_iff].
      apply resolved_column in Ht as Ht'. destruct Ht' as (d' & _ & [= -> ->]). split; [done|].
      eexists. split; [exact Ht|]. apply seq_Ok_iff. split; [done|]. by apply seq_Ok_iff.
Qed.

Lemma relation_names_Ok visit a v v' r :
  relation_names dialect visit a v r = Ok v' <->
  relation_names dialect stay a ∅ r = Ok ∅ /\ visit v (resolveRelationTarget a r) = Ok v'.
Proof.
  unfold relation_names. rewrite !seq_Ok_iff, !bind_Ok_iff. split.
  - intros (Hq & (target & d) & Ht & Hrest).
    apply seq_Ok_iff in Hrest as [Htable [Hcolumns [Hj Hvisit]%seq_Ok_iff]%seq_Ok_iff].
    apply resolved_relation in Ht as Ht'. destruct Ht' as (d' & _ & [= -> ->]). split; [|done]. split; [done|].
    eexists. split; [exact Ht|]. by rewrite !seq_Ok_iff.
  - intros [(Hq & (target & d) & Ht & Hrest) Hvisit].
    apply seq_Ok_iff in Hrest as [Htable [Hcolumns [Hj _]%seq_Ok_iff]%seq_Ok_iff].
    apply resolved_relation in Ht as Ht'. destruct Ht' as (d' & _ & [= -> ->]). split; [done|].
    eexists. split; [exact Ht|]. by rewrite !seq_Ok_iff.
Qed.

Lemma foldM_columns visit a m v v' cs :
  foldM (column_names dialect visit a m) v cs = Ok v' <->
  Forall (fun c => column_names dialect stay a m ∅ c = Ok ∅) cs /\
  foldM visit v (map (resolveColumnTarget a) (List.filter (fun c => negb (bool_decide (cv_kind c = Scalar))) cs)) = Ok v'.
Proof.
  revert v. induction cs as [|c cs IH]; intros v; simpl; [split; [done|by intros []]|].
  rewrite bind_Ok_iff, Forall_cons. split.
  - intros (w & [Hc Hw]%column_names_Ok & [Hcs Hv]%IH). split; [done|].
    case_bool_decide; simpl; [by subst|]. by rewrite Hw.
  - intros [[Hc Hcs] H]. case_bool_decide as Hk; simpl in H.
    + exists v. rewrite IH, column_names_Ok. split; [|done]. by rewrite bool_decide_true.
    + apply bind_Ok_iff in H as (w & Hw & Hv). exists w. rewrite IH, column_names_Ok. split; [|done].
      by rewrite bool_decide_false.
Qed.

Lemma foldM_relations visit a v v' rs :
  foldM (relation_names dialect visit a) v rs = Ok v' <->
  Forall (fun r => relation_names dialect stay a ∅ r = Ok ∅) rs /\ foldM visit v (map (resolveRelationTarget a) rs) = Ok v'.
Proof.
  revert v. induction rs as [|r rs IH]; intros v; simpl; [split; [done|by intros []]|].
  rewrite !bind_Ok_iff, Forall_cons. split.
  - intros (w & [Hr Hw]%relation_names_Ok & [Hrs Hv]%IH). split; [done|]. by exists w.
  - intros [[Hr Hrs] (w & Hw & Hv)]. exists w. by rewrite IH, relation_names_Ok.
Qed.

Lemma own_column a m c :
  (_ ← column_names dialect stay a m ∅ c; Ok tt) = Ok tt <-> column_names dialect stay a m ∅ c = Ok ∅.
Proof.
  rewrite bind_Ok_iff. split; [|by exists ∅]. intros (w & Hw & _). apply column_names_Ok in Hw as Hw'. tauto.
Qed.

Lemma own_relation a r :
  (_ ← relation_names dialect stay a ∅ r; Ok tt) = Ok tt <-> relation_names dialect stay a ∅ r = Ok ∅.
Proof.
  rewrite bind_Ok_iff. split; [|by exists ∅]. intros (w & Hw & _). apply relation_names_Ok in Hw as Hw'. tauto.
Qed.

Lemma own_names_Ok a :
  own_names a = Ok tt <->
  exists m, arrow a = Some m /\ quoted_ok dialect (mv_tableName m) = Ok tt /\
    Forall (fun c => column_names dialect stay a m ∅ c = Ok ∅) (mv_columns m) /\
    Forall (fun r => relation_names dialect stay a ∅ r = Ok ∅) (mv_relations m).
Proof.
  unfold own_names, deref. rewrite bind_Ok_iff. apply exist_proper. intros m.
  rewrite or_throw_Ok_iff, !seq_Ok_iff, !forM__Ok_iff, !list.Forall_forall.
  setoid_rewrite own_column. setoid_rewrite own_relation. done.
Qed.

Lemma visit_Ok fuel v a v' :
  visit_identifiers dialect (S fuel) v a = Ok v' <->
  if bool_decide (mw_modelIndex a ∈ v) then v' = v
  else own_names a = Ok tt /\ foldM (visit_identifiers dialect fuel) ({[mw_modelIndex a]} ∪ v) (targets a) = Ok v'.
Proof.
  cbn [visit_identifiers]. case_bool_decide as Hin; [split; [by intros [= ->]|by intros ->]|].
  cbv zeta. unfold deref, targets. rewrite own_names_Ok. destruct (arrow a) as [m|]; simpl.
  - rewrite seq_Ok_iff, foldM_app, !bind_Ok_iff. setoid_rewrite foldM_columns. setoid_rewrite foldM_relations. split.
    + intros (Ht & w & [Hc Hw] & [Hr Hv]). split; [by exists m|by exists w].
    + intros [(m' & [= <-] & Ht & Hc & Hr) (w & Hw & Hv)]. split; [done|]. by exists w.
  - split; [done|by intros [(m & ? & _) _]].
Qed.

(** A model that resolves is one of the same schema. *)
Lemma resolved_schema a i m :
  arrow (resolve_index a i) = Some m -> mw_schema (resolve_index a i) = mw_schema a.
Proof. unfold resolve_index. by destruct (mw_schema a). Qed.

Lemma target_schema a b m : leads a b -> arrow b = Some m -> mw_schema b = mw_schema a.
Proof.
  unfold leads, targets. destruct (arrow a); [|by intros ?%elem_of_nil].
  rewrite elem_of_app. intros [(c & -> & _)%list_elem_of_fmap|(r & -> & _)%list_elem_of_fmap].
  - unfold resolveColumnTarget. destruct (_ || _); [done|apply resolved_schema].
  - unfold resolveRelationTarget. destruct (_ || _); [done|apply resolved_schema].
Qed.

Lemma arrow_index a m : arrow a = Some m -> exists s, mw_schema a = Some s /\ (N.to_nat (mw_modelIndex a) < length s)%nat.
Proof.
  unfold arrow. destruct (mw_schema a) as [s|]; simpl; [|done].
  destruct (nth_error s _) eqn:Hn; simpl; [|done]. intros _. exists s. split; [done|]. apply nth_error_Some. congruence.
Qed.

(** The targets of accepted models resolve. *)
Lemma own_names_targets a b : own_names a = Ok tt -> leads a b -> exists m, arrow b = Some m.
Proof.
  rewrite own_names_Ok. intros (m & Hm & _ & Hc & Hr). unfold leads, targets. rewrite Hm.
  rewrite list.Forall_forall in Hc. rewrite list.Forall_forall in Hr.
  rewrite elem_of_app. intros [(c & -> & Hin)%list_elem_of_fmap|(r & -> & Hin)%list_elem_of_fmap].
  - apply list_elem_of_In, filter_In in Hin as [Hin Hk]. apply list_elem_of_In, Hc in Hin.
    unfold column_names in Hin. apply seq_Ok_iff in Hin as [_ Hin]. apply negb_true_iff in Hk. rewrite Hk in Hin.
    apply bind_Ok_iff in Hin as (t & (d & Hd & _)%resolved_column & _). by exists d.
  - apply Hr in Hin. unfold relation_names in Hin. apply seq_Ok_iff in Hin as [_ Hin].
    apply bind_Ok_iff in Hin as (t & (d & Hd & _)%resolved_relation & _). by exists d.
Qed.

(** *** The visit *)

(** What a visit that started with [before] has made of [visited]: it has accepted every
    model it has added, and their targets are among the visited. *)
Definition accepted_since (schema : option SchemaView) (before visited : gset N) : Prop :=
  before ⊆ visited /\
  forall i, i ∈ visited -> i ∉ before ->
    own_names (MkModelView schema i) = Ok tt /\ forall t, leads (MkModelView schema i) t -> mw_modelIndex t ∈ visited.

Lemma accepted_since_refl schema v : accepted_since schema v v.
Proof. split; [done|]. intros i Hi Hn. by destruct (Hn Hi). Qed.

Lemma accepted_since_trans schema u v w : accepted_since schema u v -> accepted_since schema v w -> accepted_since schema u w.
Proof.
  intros [Huv Hv] [Hvw Hw]. split; [set_solver|]. intros i Hi Hn. destruct (decide (i ∈ v)) as [Hin|Hout]; [|by apply Hw].
  destruct (Hv i Hin Hn) as [Hown Ht]. split; [done|]. intros t Hlead. apply Hvw. by apply Ht.
Qed.

Lemma visits_sound (visit : gset N -> ModelView -> res (gset N)) schema ts v v' :
  (forall t u u', t ∈ ts -> visit u t = Ok u' -> accepted_since schema u u' /\ mw_modelIndex t ∈ u') ->
  foldM visit v ts = Ok v' -> accepted_since schema v v' /\ forall t, t ∈ ts -> mw_modelIndex t ∈ v'.
Proof.
  revert v. induction ts as [|t ts IH]; intros v Hvisit; simpl.
  { intros [= <-]. split; [apply accepted_since_refl|by intros t ?%elem_of_nil]. }
  intros (w & Hw & Hv)%bind_Ok_iff. destruct (Hvisit t v w ltac:(by left) Hw) as [Hstep Hin].
  destruct (IH w) as [Hrest Hts]; [intros t1 u1 w1 Ht1; apply Hvisit; by right|done|]. split; [by eapply accepted_since_trans|].
  intros t' [-> |Ht']%elem_of_cons; [|by apply Hts]. by apply Hrest.
Qed.

Lemma visit_sound fuel schema v a v' :
  (mw_modelIndex a ∉ v -> mw_schema a = schema) ->
  visit_identifiers dialect fuel v a = Ok v' -> accepted_since schema v v' /\ mw_modelIndex a ∈ v'.
Proof.
  revert v a v'. induction fuel as [|fuel IH]; intros v a v' Ha.
  { simpl. case_bool_decide as Hin; [|done]. intros [= <-]. split; [apply accepted_since_refl|done]. }
  rewrite visit_Ok. case_bool_decide as Hin; [intros ->; split; [apply accepted_since_refl|done]|].
  intros [Hown Hfold]. specialize (Ha Hin). destruct a as [schema' i]. simpl in *. subst schema'.
  apply (visits_sound _ schema) in Hfold as [[Hsub Hacc] Htargets].
  - split; [|apply Hsub; set_solver]. split; [set_solver|]. intros j Hj Hn. destruct (decide (j = i)) as [->|Hne].
    + split; [done|]. intros t. apply Htargets.
    + apply Hacc; [done|set_solver].
  - intros t u u' Ht. apply IH. intros _. destruct (own_names_targets _ _ Hown Ht) as [m Hm].
    by rewrite (target_schema _ _ _ Ht Hm).
Qed.

(** *** Fuel *)
Definition indices (a : ModelView) : gset N := list_to_set (N.of_nat <$> seq 0 (schema_size a)).

Lemma size_indices a : base.size (indices a) = schema_size a.
Proof.
  unfold indices. rewrite size_list_to_set by (apply NoDup_fmap_2; [intros x y; lia|apply NoDup_seq]). by rewrite length_fmap, length_seq.
Qed.

Lemma index_in a m : arrow a = Some m -> mw_modelIndex a ∈ indices a.
Proof.
  intros (s & Hs & Hlen)%arrow_index. unfold indices, schema_size. rewrite Hs.
  apply elem_of_list_to_set, list_elem_of_fmap. exists (N.to_nat (mw_modelIndex a)). split; [lia|].
  apply elem_of_seq. lia.
Qed.

(** A visit ends with a result when every model in reach is accepted and the fuel is more
    than the number of the models not yet visited. *)
Lemma visit_complete fuel v a :
  (forall b, rtc leads a b -> own_names b = Ok tt) -> (base.size (indices a ∖ v) < fuel)%nat ->
  exists v', visit_identifiers dialect fuel v a = Ok v'.
Proof.
  revert v a. induction fuel as [|fuel IH]; intros v a Hall Hfuel; [lia|]. setoid_rewrite visit_Ok.
  case_bool_decide as Hin; [by eexists|]. assert (Hown := Hall a (rtc_refl _ _)).
  assert (Hfold : forall ts u, (forall t, t ∈ ts -> leads a t) -> {[mw_modelIndex a]} ∪ v ⊆ u ->
            exists v', foldM (visit_identifiers dialect fuel) u ts = Ok v').
  { induction ts as [|t ts IHts]; intros u Hts Hu; [by eexists|]. simpl.
    assert (Hlead : leads a t) by (apply Hts; by left).
    destruct (own_names_targets _ _ Hown Hlead) as [mt Hmt].
    assert (Hschema := target_schema _ _ _ Hlead Hmt).
    destruct (IH u t) as [w Hw].
    - intros b Hb. apply Hall. by eapply rtc_l.
    - replace (indices t) with (indices a) by (unfold indices, schema_size; by rewrite Hschema).
      apply own_names_Ok in Hown as (m & Hm & _). apply index_in in Hm.
      apply Nat.lt_le_trans with (base.size (indices a ∖ v)); [|lia]. apply subset_size. set_solver.
    - rewrite Hw. simpl. apply IHts; [intros; apply Hts; by right|].
      apply (visit_sound _ (mw_schema t)) in Hw as [[Hsub _] _]; [set_solver|done]. }
  destruct (Hfold (targets a) ({[mw_modelIndex a]} ∪ v)) as [v' Hv']; [done|done|]. by exists v'.
Qed.
End identifiers.

Lemma identifiers_accepted dialect model :
  validateModelIdentifiers dialect model = Ok tt <->
  forall m, rtc leads model m -> own_names dialect m = Ok tt.
Proof.
  unfold validateModelIdentifiers. rewrite bind_Ok_iff. split.
  - intros (v & Hv & _). apply (visit_sound _ _ (mw_schema model)) in Hv as [[_ Hacc] Hin]; [|done].
    assert (Hreach : forall m, rtc leads model m -> mw_schema m = mw_schema model /\ mw_modelIndex m ∈ v).
    { apply (rtc_ind_r (fun m => mw_schema m = mw_schema model /\ mw_modelIndex m ∈ v) model); [done|].
      intros b t _ Hlead [Hschema Hb].
      destruct (Hacc _ Hb ltac:(set_solver)) as [Hown Htargets]. destruct b as [schema i]. simpl in *. subst schema.
      split; [|by apply Htargets]. destruct (own_names_targets _ _ _ Hown Hlead) as [mt Hmt].
      by rewrite (target_schema _ _ _ Hlead Hmt). }
    intros m Hm. destruct (Hreach m Hm) as [Hschema Hi]. destruct (Hacc _ Hi ltac:(set_solver)) as [Hown _].
    destruct m as [schema i]. simpl in *. by subst.
  - intros Hall. destruct (visit_complete dialect (S (schema_size model)) ∅ model Hall) as [v Hv]; [|by exists v].
    rewrite difference_empty_L, size_indices. lia.
Qed.

(** C25: the check of a model's identifiers visits every model that its columns and its
    relations lead to, over any number of steps, and accepts exactly when each of them
    resolves and each of their names is one that the dialect can quote or bind; cyclic
    schemas do not keep it from ending. *)
Theorem validateModelIdentifiers_iff dialect model :
  validateModelIdentifiers dialect model = Ok tt <->
  forall m, rtc leads model m -> own_names dialect m = Ok tt.
Proof. apply identifiers_accepted. Qed.

(** *** What acceptance is for *)
Section inserts.
Variable dialect : SqlDialect.

(** A name that an INSERT can list and bind. *)
Definition insertable (name : string) : Prop := quoted_ok dialect name = Ok tt /\ marker_ok dialect name = Ok tt.

Lemma accepted_Ok r : accepted r = Ok tt <-> exists s, r = Ok s.
Proof. unfold accepted. destruct r; naive_solver. Qed.

(** The names that a model's INSERT lists are among those that were checked. *)
Lemma column_insertable a m c names :
  column_names dialect stay a m ∅ c = Ok ∅ ->
  exists added, addFieldNames a names c = Ok (names ++ added)%list /\ Forall insertable added.
Proof.
  unfold column_names, addFieldNames. intros [Hq Hc]%seq_Ok_iff. destruct (cv_kind c) eqn:Hkind; simpl in *.
  - apply seq_Ok_iff in Hc as [Hc _]. unfold scalar_names in Hc. apply seq_Ok_iff in Hc as [_ [_ Hm]%seq_Ok_iff].
    destruct (cv_isAutoIncrement c); [exists []; by rewrite app_nil_r|]. exists [cv_name c]. split; [done|].
    by constructor.
  - apply bind_Ok_iff in Hc as (t & (d & Hd & ->)%resolved_column & Hc). apply seq_Ok_iff in Hc as [_ [Hr _]%seq_Ok_iff].
    rewrite Hd. simpl. eexists. split; [done|]. apply list.Forall_forall. intros name Hin.
    unfold getForeignModelIdsNames in Hin. apply list_elem_of_fmap in Hin as (k & -> & Hk).
    apply list_elem_of_In, filter_In in Hk as [Hk Hkey].
    apply forM__Ok_iff in Hr. rewrite list.Forall_forall in Hr. apply list_elem_of_In, Hr in Hk. unfold related_names in Hk.
    rewrite Hkey in Hk. rewrite !seq_Ok_iff in Hk. by destruct Hk as (_ & ? & _ & ? & _).
Qed.

Lemma columns_insertable a m cs names :
  Forall (fun c => column_names dialect stay a m ∅ c = Ok ∅) cs -> Forall insertable names ->
  exists all, foldM (addFieldNames a) names cs = Ok all /\ Forall insertable all.
Proof.
  intros Hcs. revert names. induction Hcs as [|c cs Hc _ IH]; intros names Hnames; [by exists names|].
  destruct (column_insertable a m c names Hc) as (added & Hadded & Hok). simpl. rewrite Hadded. simpl.
  apply IH. by apply Forall_app.
Qed.

Lemma listed_ok (f : string -> res string) names :
  Forall (fun name => accepted (f name) = Ok tt) names ->
  exists text, removeLastComma <$> foldM (fun text name => q ← f name; Ok (text +:+ q +:+ ", ")) "" names = Ok text.
Proof.
  intros Hnames. destruct (foldM_is_ok (fun text name => q ← f name; Ok (text +:+ q +:+ ", ")) names) with (s := "") as [text ->].
  - intros text name Hin. rewrite list.Forall_forall in Hnames. apply Hnames, accepted_Ok in Hin as [q ->]. by eexists.
  - by eexists.
Qed.

Lemma checked_insert model :
  (forall name, quoted_ok dialect name = Ok tt -> exists text, renderDefaultInsert dialect name = Ok text) ->
  own_names dialect model = Ok tt -> exists text, insert dialect model = Ok text.
Proof.
  intros Hdefault (m & Hm & Htable & Hcolumns & _)%own_names_Ok. unfold insert, deref, getFieldsNames. rewrite Hm. simpl.
  destruct (columns_insertable model m (mv_columns m) [] Hcolumns ltac:(done)) as (names & -> & Hnames). simpl.
  case_bool_decide; [by apply Hdefault|]. apply accepted_Ok in Htable as [table ->]. simpl.
  destruct (listed_ok (quoteIdentifier dialect) names) as [fields Hfields].
  { eapply Forall_impl; [exact Hnames|]. by intros name []. }
  destruct (listed_ok (bindMarker dialect) names) as [values Hvalues].
  { eapply Forall_impl; [exact Hnames|]. by intros name []. }
  unfold getInsertFields, getInsertValues. rewrite Hfields, Hvalues. simpl. by eexists.
Qed.
End inserts.

Lemma builtin_default b dialect name :
  builtin_dialect b = Some dialect -> quoted_ok dialect name = Ok tt -> exists text, renderDefaultInsert dialect name = Ok text.
Proof. intros Hb [q Hq]%accepted_Ok. destruct b; simplify_eq; injection Hb as <-; simpl in *; unfold defaultInsert, emptyInsert; rewrite Hq; by eexists. Qed.

(** C24: what [ensureModelSupported] accepts on a session of a built-in backend can be
    stored: the INSERT statement of the model, and of every model that its columns and
    relations lead to, is rendered without an error. *)
Theorem supported_model_inserts db connected model operation b p m :
  ensureModelSupported db connected model operation = Ok tt ->
  backend db = Some p -> builtin_dialect b = Some (provider_dialect p) ->
  rtc leads model m -> exists text, insert (provider_dialect p) m = Ok text.
Proof.
  intros Hok Hb Hbuiltin Hm. apply checked_insert; [intros name; by eapply builtin_default|].
  unfold ensureModelSupported in Hok. apply seq_Ok_iff in Hok as [_ (q & Hq & Hok)%bind_Ok_iff].
  assert (q = p) as ->.
  { unfold Database_getBackend in Hq. rewrite Hb in Hq. simpl in Hq. by apply seq_Ok_iff in Hq as [_ [= <-]]. }
  apply seq_Ok_iff in Hok as [Hnames _]. revert m Hm.
  assert (Hchecked : validateModelIdentifiers (provider_dialect p) model = Ok tt).
  { unfold supported_identifiers in Hnames. by destruct (validateModelIdentifiers _ _) as [[]|[]]. }
  by apply identifiers_accepted.
Qed.
