(* ===== verification/Samples.v ===== *)
(** Samples: a small schema, statements on it, and the properties of the query and
    relation statements applied to them. *)
From S2P Require Import Prelude Foundation Values Models Schema PhysicalSql Snapshot Dialect QueryValue Query Emitter Render Capabilities Direct Statements Erasure Policies Commands Generators Links.
Local Open Scope string_scope.

(** ** A library: books with an author and tags *)
Definition scalar (name : string) (type : ColumnType) (isKey isAuto : bool) : ColumnView :=
  MkColumnView 0 name name (Some type) Scalar noTargetModel isKey isAuto true None.
Definition reference (name : string) (target : N) : ColumnView :=
  MkColumnView 0 name name None ToOne target false false false None.

Definition book_tags : JunctionView := MkJunctionView "book_tags" ["book_id"] ["tag_id"] true.

Definition books : ModelDataView :=
  MkModelDataView 0 "Book" "books"
    [scalar "id" ColumnType.Int true true; scalar "title" ColumnType.String false false; reference "author" 1] [0%N]
    [MkRelationView 2 "author" "author" RelToOne "" true 1 no_junction;
     MkRelationView 3 "tags" "tags" RelManyToMany "" false 2 book_tags].
Definition authors : ModelDataView :=
  MkModelDataView 1 "Author" "authors" [scalar "id" ColumnType.Int true false] [0%N]
    [MkRelationView 1 "books" "books" RelOneToMany "author" false 0 no_junction].
Definition tags : ModelDataView :=
  MkModelDataView 2 "Tag" "tags" [scalar "id" ColumnType.Int true false; scalar "name" ColumnType.String false false] [0%N]
    [MkRelationView 2 "books" "books" RelManyToMany "tags" false 0 no_junction].

Definition library : SchemaView := [Some books; Some authors; Some tags].
Definition book : ModelView := at_index library 0.
Definition author : ModelView := at_index library 1.

Definition int_value (z : Z) : QueryValue := MkQueryValue ColumnType.Int (IntValue z).
Definition text_value (s : string) : QueryValue := MkQueryValue ColumnType.String (StringValue s).

(** Books of an author that are titled so or have one of the tags. *)
Definition condition (title : string) (key : Z) (names : list string) : PredicateNode :=
  LogicalExpression (ComparisonExpression "author.id" Equal (int_value key)) And
    (LogicalExpression (ComparisonExpression "title" Like (text_value title)) Or
       (CollectionExpression "tags" Any (Some (ListExpression "name" In (map text_value names))))).

Definition search (title : string) (key : Z) (names : list string) : SelectSpec :=
  MkSelect (Some 20%N) None (Some (condition title key names)) [MkOrderBy "title" Desc false ""] [] [] None true true.

Definition by_author : SelectSpec :=
  MkSelect None (Some 5%N) None [] 
    [MkProjection (ColumnSource "author.id") "author"; MkProjection (AggregateSource (MkAggregate Sum (Some "id"))) "total"]
    ["author.id"] (Some (AggregateComparison (MkAggregate CountAll None) Greater (int_value 2))) false true.

Definition rename : UpdateSpec :=
  MkUpdate [MkAssignment "title" (Some (text_value "new")); MkAssignment "author.id" None]
    (Some (ComparisonExpression "id" Equal (int_value 7))).

Definition book_author : RelationView := MkRelationView 2 "author" "author" RelToOne "" true 1 no_junction.
Definition relation_of (model : ModelDataView) (name : string) : RelationView := default book_author (findRelation model name).

(** ** The properties applied *)

(** A condition over a join, a disjunction and a many-to-many relation. *)
Lemma statements_render_reference_witness :
  exists q s st,
    select_query SqliteDialect (search "a%" 3 ["x"; "y"]) = Ok (q, s) /\
    renderSelectStatement SqliteDialect book (search "a%" 3 ["x"; "y"]) = Ok st /\
    select_reference SqliteDialect q book (search "a%" 3 ["x"; "y"]) = Ok st /\
    length (parameters st) = 4%nat.
Proof.
  destruct (select_query SqliteDialect (search "a%" 3 ["x"; "y"])) as [[q s]|e] eqn:Hq; [|vm_compute in Hq; discriminate Hq].
  destruct (renderSelectStatement SqliteDialect book (search "a%" 3 ["x"; "y"])) as [st|e] eqn:Hst;
    [|vm_compute in Hst; discriminate Hst].
  exists q, s, st. split; [done|]. split; [done|]. split.
  - rewrite <- Hst. symmetry. apply (proj1 (statements_render_reference SqliteDialect book) _ _ _ Hq).
    vm_compute in Hq. injection Hq as <- _. vm_compute. discriminate.
  - vm_compute in Hst. injection Hst as <-. reflexivity.
Defined.

Lemma statement_parameters_distinct_witness :
  exists st q s, renderSelectStatement PostgresqlDialect book by_author = Ok st /\
    select_query PostgresqlDialect by_author = Ok (q, s) /\ bound_once (code q) st.
Proof.
  destruct (renderSelectStatement PostgresqlDialect book by_author) as [st|e] eqn:E; [|vm_compute in E; discriminate E].
  destruct (proj1 (statement_parameters_distinct PostgresqlDialect book) by_author st E) as (q & s & Hq & Hst).
  by exists st, q, s.
Defined.

Lemma update_guarded_witness :
  exists st, renderUpdateStatement MysqlDialect book rename = Ok st /\ assignments rename <> [] /\
    exists before text after, sql st = before +:+ " WHERE " +:+ text +:+ after.
Proof.
  destruct (update_query MysqlDialect book rename) as [[q s]|e] eqn:Hq; [|vm_compute in Hq; discriminate Hq].
  destruct (renderUpdateStatement MysqlDialect book rename) as [st|e] eqn:Hst; [|vm_compute in Hst; discriminate Hst].
  destruct (update_guarded MysqlDialect book rename q s st Hq) as (Hne & _ & p & before & text & after & _ & _ & Hsql).
  - vm_compute in Hq. injection Hq as <- _. vm_compute. discriminate.
  - exact Hst.
  - exists st. split; [done|]. split; [exact Hne|]. by exists before, text, after.
Defined.

(** An attempt to close the statement in a value. *)
Lemma statement_text_ignores_values_witness :
  erase_statement <$> renderSelectStatement SqliteDialect book (search "' OR 1 = 1; --" 0 [""; "?"]) =
  erase_statement <$> renderSelectStatement SqliteDialect book (search "a%" 3 ["x"; "y"]).
Proof. exact (proj1 (statement_text_ignores_values SqliteDialect book) _ _ eq_refl). Defined.

Definition sample_query : SqlQueryView :=
  match remove_query SqliteDialect (condition "a%" 3 ["x"]) with
  | Ok (q, _) => q
  | Err _ => MkQuery Select (MkCode [] []) noSqlNode noSqlNode [] [] [] [] false false false false false 0 0 0 0
  end.

Lemma static_policy_is_runtime_witness :
  exists s, run_time_sql PostgresqlDialect sample_query book = Ok s /\
            compile_time_sql PostgreSQL sample_query book = Ok s.
Proof.
  destruct (run_time_sql PostgresqlDialect sample_query book) as [s|e] eqn:E; [|vm_compute in E; discriminate E].
  exists s. split; [done|].
  exact (proj2 (static_policy_is_runtime Postgres _ PostgresqlDialect sample_query book s eq_refl eq_refl eq_refl) E).
Defined.

Lemma createTable_is_frozen_witness :
  exists t s, physicalTable book Sqlite = Ok t /\ createTable SqliteDialect book = Ok s /\
    PhysicalSql.renderCreateTable Sqlite t true true = Ok s.
Proof.
  destruct (physicalTable book Sqlite) as [t|e] eqn:Ht; [|vm_compute in Ht; discriminate Ht].
  destruct (createTable SqliteDialect book) as [s|e] eqn:Hs; [|vm_compute in Hs; discriminate Hs].
  exists t, s. split; [done|]. split; [done|]. apply (createTable_is_frozen Sqlite SqliteDialect book t s eq_refl Ht); [|exact Hs].
  vm_compute in Ht. injection Ht as <-.
  unfold plain_keys. refine (proj1 (list.Forall_forall _ _) _). simpl. repeat apply Forall_cons_2; try apply Forall_nil_2; simpl; intros;
    (split; [discriminate | vm_compute; reflexivity]) || discriminate.
Defined.

Lemma insert_names_columns_witness :
  exists t, physicalTable book Postgres = Ok t /\ bound_names (columns t) = ["title"; "author_id"] /\
    insert PostgresqlDialect book = insert_reference PostgresqlDialect "books" (bound_names (columns t)).
Proof.
  destruct (physicalTable book Postgres) as [t|e] eqn:Ht; [|vm_compute in Ht; discriminate Ht].
  exists t. split; [done|]. pose proof Ht as Hcols. vm_compute in Hcols. injection Hcols as <-. split; [vm_compute; reflexivity|].
  refine (insert_names_columns PostgresqlDialect Postgres book books _ Ht eq_refl _).
  intros c target Hc. revert c Hc target. refine (proj1 (list.Forall_forall _ _) _). simpl.
  repeat apply Forall_cons_2; try apply Forall_nil_2; intros target Hresolve; vm_compute in Hresolve;
    first [discriminate Hresolve
          | injection Hresolve as <-; intros keys Hkeys; vm_compute in Hkeys; injection Hkeys as <-; reflexivity].
Defined.

Lemma relation_statements_bind_keys_witness :
  exists st, linkStatement SqliteDialect book (relation_of books "tags") [int_value 1] [int_value 2] = Ok st /\
    binds [int_value 1; int_value 2] st.
Proof.
  destruct (linkStatement SqliteDialect book (relation_of books "tags") [int_value 1] [int_value 2]) as [st|e] eqn:E;
    [|vm_compute in E; discriminate E].
  exists st. split; [done|].
  exact (proj1 (relation_statements_bind_keys SqliteDialect book (relation_of books "tags")) [int_value 1] [int_value 2] st E).
Defined.

Definition postgres_provider : BackendProvider :=
  MkProvider Postgres postgresqlCapabilities PostgresqlDialect PostgresqlRuntime.
Definition providers : list (option BackendProvider) :=
  [Some (MkProvider Sqlite sqliteCapabilities SqliteDialect SqliteRuntime); Some postgres_provider].

Lemma factory_finds_registered_witness :
  exists f, registerBackends providers = Ok f /\ getBackend f Postgres = Ok postgres_provider.
Proof.
  destruct (registerBackends providers) as [f|e] eqn:E; [|vm_compute in E; discriminate E].
  exists f. split; [done|].
  apply (proj2 (factory_finds_registered providers) f Postgres postgres_provider E).
  split; [|done]. unfold providers. set_solver.
Defined.

Lemma PrimaryKeyLess_strict_weak_order_witness :
  PrimaryKeyLess [int_value 1; text_value "b"] [int_value 2; text_value "a"] = true /\
  PrimaryKeyLess [int_value 1; text_value "b"] [int_value 1; text_value "b"] = false.
Proof.
  split; [vm_compute; reflexivity|].
  refine (proj1 (PrimaryKeyLess_strict_weak_order [int_value 1; text_value "b"] [] [] _)). repeat constructor.
Defined.

(** ** An identifier that reads as SQL

    On SQLite the constraint clause of a generated key is inserted before the first
    occurrence of the words PRIMARY KEY, wherever they are: here, inside the name. *)
Definition odd_key : SchemaView :=
  [Some (MkModelDataView 0 "Odd" "odd" [scalar "PRIMARY KEY" ColumnType.Int true true] [0%N] [])].

Lemma auto_increment_name_spliced :
  exists t q s, physicalTable (at_index odd_key 0) Sqlite = Ok t /\
    PhysicalSql.quoteIdentifier Sqlite "PRIMARY KEY" = Ok q /\
    createTable SqliteDialect (at_index odd_key 0) = Ok s /\
    find_text q s = None /\ PhysicalSql.renderCreateTable Sqlite t true true <> Ok s.
Proof.
  destruct (physicalTable (at_index odd_key 0) Sqlite) as [t|e] eqn:Ht; [|vm_compute in Ht; discriminate Ht].
  destruct (PhysicalSql.quoteIdentifier Sqlite "PRIMARY KEY") as [q|e] eqn:Hq; [|vm_compute in Hq; discriminate Hq].
  destruct (createTable SqliteDialect (at_index odd_key 0)) as [s|e] eqn:Hs; [|vm_compute in Hs; discriminate Hs].
  exists t, q, s. vm_compute in Ht, Hq, Hs. injection Ht as <-. injection Hq as <-. injection Hs as <-.
  do 4 (split; [reflexivity|]). vm_compute. discriminate.
Qed.
