(* ===== verification/Drivers.v ===== *)
(** Drivers: a driver that answers as a script says, and the properties of sessions
    applied to it. *)
From S2P Require Import Prelude Foundation Values Models Schema PhysicalSql Dialect TargetValues QueryValue Query Emitter Render Capabilities Commands Links Database Connection Connections Supported Samples.
Local Open Scope string_scope.

Definition answer {A} (c : Call A) : A :=
  match c with
  | ReadLimits => MkLimits (Some 100%N) None (MkRuntimeLimits None None)
  | TableExists _ => true
  | ExecuteStatement _ _ => 1%Z
  | ExecuteInsert _ _ _ => 1%N
  | CountRows _ _ => 1%Z
  | OpenRows _ _ => 0
  | FetchRow => []
  | _ => tt
  end.

(** Each call takes the head of the script: [None] is an answer. *)
#[export] Instance scripted : Driver := {|
  World := list (option thrown);
  is_connected := fun _ => true;
  perform := fun A c w =>
    match w with
    | Some e :: w => (Err e, w)
    | None :: w => (Ok (answer c), w)
    | [] => (Ok (answer c), [])
    end;
  release := fun w => w
|}.

Definition registered : Factory := match registerBackends providers with Ok f => f | Err _ => [] end.

Definition fresh (script : list (option thrown)) : State := MkState disconnected script [].

Fixpoint after (script : list (option thrown)) (os : list operation) : State :=
  match os with
  | [] => fresh script
  | o :: os => (run registered o (after script os)).2
  end.

(** PostgreSQL refuses a duplicate key, which breaks the transaction. *)
Definition duplicate : thrown := Soci (MkSociError constraint_violation (SqlState "23505")).
Definition lost : thrown := Soci (MkSociError connection_error NoNative).

(** A session is opened and a transaction begun; a statement fails; so does the rollback. *)
Definition story : list (option thrown) := [None; None; None; Some duplicate; Some lost].
Definition statement : operation := ExecuteSql "CREATE TABLE a (b INT)" "create table".
Definition broken_session : State := after story [statement; Begin; Connect Postgres].

Lemma reachable_broken : reachable registered broken_session.
Proof. repeat (apply reachable_run; [|done]). apply reachable_fresh. Qed.

Lemma session_protocol_witness :
  transactionFailed (database broken_session) = true /\
  exists ph, phase_after registered (events broken_session) = Some ph /\ agrees ph (database broken_session).
Proof. split; [by vm_compute|]. apply (session_protocol registered broken_session). exact reachable_broken. Defined.

Lemma no_driver_error_escapes_witness :
  reachable registered broken_session /\ (run registered Rollback broken_session).1 <> Err lost.
Proof.
  split; [exact reachable_broken|].
  exact (no_driver_error_escapes registered broken_session Rollback reachable_broken I (MkSociError connection_error NoNative)).
Defined.

(** The session is opened, but its initialization fails. *)
Lemma connect_all_or_nothing_witness :
  database (run registered (Connect Postgres) (fresh [None; Some lost])).2 = disconnected /\
  phase_after registered (events (run registered (Connect Postgres) (fresh [None; Some lost])).2) = Some Closed.
Proof.
  pose proof (connect_all_or_nothing registered (fresh [None; Some lost]) Postgres (reachable_fresh registered _) eq_refl) as Hrun.
  destruct (run registered (Connect Postgres) (fresh [None; Some lost])) as [[u|e] s'] eqn:Hs; [|exact Hrun].
  vm_compute in Hs. discriminate Hs.
Defined.

Lemma disconnect_releases_witness :
  transaction (database broken_session) = true /\
  (database (run registered Disconnect broken_session).2 = disconnected /\
   phase_after registered (events (run registered Disconnect broken_session).2) = Some Closed \/
   (run registered Disconnect broken_session).1 <> Ok tt /\ escaped LRollback (run registered Disconnect broken_session).2).
Proof. split; [by vm_compute|]. exact (disconnect_releases registered broken_session reachable_broken). Defined.

Lemma transaction_ends_witness :
  let s' := (run registered Rollback broken_session).2 in
  phase_after registered (events s') = Some (Idle postgres_provider) /\ database s' = idled (database broken_session) \/
  (run registered Rollback broken_session).1 <> Ok tt /\ escaped LRollback s'.
Proof.
  apply (transaction_ends registered broken_session postgres_provider Rollback reachable_broken); [by vm_compute..|by left].
Defined.

(** A connected database. *)
Definition connected_database : Database := MkDatabase (Some postgres_provider) Postgres false false false.

Lemma book_tags_lead : rtc leads book (at_index library 2).
Proof. apply rtc_once. unfold leads, targets. simpl. set_solver. Qed.

Lemma supported_model_inserts_witness :
  ensureModelSupported connected_database true book "insert" = Ok tt /\
  exists text, insert PostgresqlDialect (at_index library 2) = Ok text.
Proof.
  assert (Hok : ensureModelSupported connected_database true book "insert" = Ok tt) by (vm_compute; reflexivity).
  split; [exact Hok|].
  exact (supported_model_inserts connected_database true book "insert" Postgres postgres_provider _ Hok eq_refl eq_refl book_tags_lead).
Defined.
