(* ===== verification/Tokens.v ===== *)
(** Tokens: how a statement of the MySQL family is split at its bind markers, and which
    scripts hold no statement (src/database/mysql_family/MysqlFamily.cpp). *)
From S2P Require Import Prelude Foundation PhysicalSql SqlValidation Dialect.
Local Open Scope string_scope.

(** [std::isspace] in the "C" locale. *)
Definition isspace (c : ascii) : bool := (byte_of c =? 32)%Z || ((9 <=? byte_of c)%Z && (byte_of c <=? 13)%Z).

Definition starts_line_comment (sql : string) : bool :=
  head_is (is_char "#"%char) sql || (starts_with "--" sql && head_is isspace (drop_str 2 sql)).

(** The text up to the first carriage return or line feed, with it, and what follows. *)
Fixpoint take_line (sql : string) : string * string :=
  match sql with
  | "" => ("", "")
  | String c sql => if line_end c then (String c "", sql) else (String c (take_line sql).1, (take_line sql).2)
  end.

(** After ["/*"]: [!] or [M!]. *)
Definition is_executable (body : string) : bool :=
  head_is (is_char "!"%char) body || starts_with "M!" body.

(** The text up to the end of a comment, with it, and what follows. *)
Fixpoint comment_end (body : string) : option (string * string) :=
  if starts_with "*/" body then Some ("*/", drop_str 2 body)
  else match body with
       | "" => None
       | String c body => '(text, rest) ← comment_end body; Some (String c text, rest)
       end.

Fixpoint empty_from (fuel : nat) (sql : string) : bool :=
  match fuel, sql with
  | S fuel, String c rest =>
      if isspace c || is_char ";"%char c then empty_from fuel rest
      else if starts_line_comment sql then empty_from fuel (take_line sql).2
      else if starts_with "/*" sql then
        if is_executable (drop_str 2 sql) then false
        else match comment_end (drop_str 2 sql) with None => false | Some (_, rest) => empty_from fuel rest end
      else false
  | _, _ => true
  end.

Definition isEmptyScript (sql : string) : bool := empty_from (String.length sql) sql.

(** ** [tokenizeStatement] *)
Record StatementTokens := MkTokens { chunks : list string; names : list string }.

(** After an opening quote: the text up to the closing one, with it, and what follows. *)
Fixpoint quoted_text (quote : ascii) (sql : string) : option (string * string) :=
  match sql with
  | "" => None
  | String c sql1 =>
      if is_char BACKSLASH c && negb (is_char BACKTICK quote) then
        match sql1 with
        | "" => None
        | String d sql2 => '(text, rest) ← quoted_text quote sql2; Some (String c (String d text), rest)
        end
      else if is_char quote c then
        match sql1 with
        | String d sql2 =>
            if is_char quote d then '(text, rest) ← quoted_text quote sql2; Some (String c (String d text), rest)
            else Some (String c "", sql1)
        | "" => Some (String c "", "")
        end
      else '(text, rest) ← quoted_text quote sql1; Some (String c text, rest)
  end.

(** One pass of the loop: a text to append to the last chunk, or a name. *)
Inductive piece := Text (text : string) | Marker (name : string).

Definition next_piece (c : ascii) (rest : string) : res (piece * string) :=
  let sql := String c rest in
  if any_quote c then
    '(text, rest) ← or_throw (quoted_text c rest) (InvalidArgument "Unterminated MySQL-family SQL quote");
    Ok (Text (String c text), rest)
  else if starts_line_comment sql then Ok (Text (take_line sql).1, (take_line sql).2)
  else if starts_with "/*" sql then
    let body := drop_str 2 sql in
    throw_if (is_executable body) (InvalidArgument "Executable SQL comments are not supported in bound statements") ;;
    '(text, rest) ← or_throw (comment_end body) (InvalidArgument "Unterminated MySQL-family SQL comment");
    Ok (Text ("/*" +:+ text), rest)
  else if is_char ":"%char c && head_is (fun d => negb (is_char "="%char d)) rest then
    let (name, rest) := span_char portable_char rest in
    throw_if (negb (isPortableBindName name)) (InvalidArgument "Invalid MySQL-family bind marker") ;;
    Ok (Marker name, rest)
  else Ok (Text (String c ""), rest).

(** [chunks.back().append(text)]. *)
Fixpoint append_back (chunks : list string) (text : string) : list string :=
  match chunks with
  | [] => []
  | [last] => [last +:+ text]
  | chunk :: chunks => chunk :: append_back chunks text
  end.

Definition add_piece (t : StatementTokens) (p : piece) : StatementTokens :=
  match p with
  | Text text => MkTokens (append_back (chunks t) text) (names t)
  | Marker name => MkTokens (chunks t ++ [""])%list (names t ++ [name])%list
  end.

Fixpoint tokenize (fuel : nat) (sql : string) (t : StatementTokens) : res StatementTokens :=
  match sql with
  | "" => Ok t
  | String c rest =>
      match fuel with
      | O => Err Undefined
      | S fuel => '(p, rest) ← next_piece c rest; tokenize fuel rest (add_piece t p)
      end
  end.

Definition tokenizeStatement (sql : string) : res StatementTokens :=
  tokenize (String.length sql) sql (MkTokens [""] []).

(** ** The statement from its tokens *)
Fixpoint interleave (chunks names : list string) : string :=
  match chunks, names with
  | chunk :: chunks, name :: names => chunk +:+ ":" +:+ name +:+ interleave chunks names
  | chunk :: _, [] => chunk
  | [], _ => ""
  end.

Definition piece_text (p : piece) : string := match p with Text text => text | Marker name => ":" +:+ name end.

Definition piece_names (p : piece) : list string := match p with Text _ => [] | Marker name => [name] end.

Lemma take_line_app sql : (take_line sql).1 +:+ (take_line sql).2 = sql.
Proof. induction sql as [|c sql IH]; simpl; [done|]. destruct (line_end c); simpl; [done|]. by rewrite IH. Qed.

Lemma comment_end_app body text rest : comment_end body = Some (text, rest) -> text +:+ rest = body.
Proof.
  revert text rest. induction body as [|c body IH]; intros text rest; [done|]. cbn [comment_end].
  destruct (starts_with "*/" (String c body)) eqn:Hs.
  - intros [= <- <-]. apply starts_with_spec in Hs as [t Ht]. by injection Ht as -> ->.
  - destruct (comment_end body) as [[t r]|]; simpl; [|done]. intros [= <- <-]. simpl. f_equal. by apply IH.
Qed.

Section tokens.
(** The quoted text by induction on the length. *)
Lemma quoted_text_app quote n sql text rest :
  (String.length sql <= n)%nat -> quoted_text quote sql = Some (text, rest) -> text +:+ rest = sql.
Proof.
  revert sql text rest. induction n as [|n IH]; intros [|c sql] text rest Hn; simpl in *; try done; try lia.
  destruct (is_char BACKSLASH c && _).
  - destruct sql as [|d sql]; [done|]. destruct (quoted_text quote sql) as [[t r]|] eqn:Hq; simpl; [|done].
    intros [= <- <-]. simpl in *. do 2 f_equal. apply (IH sql); [lia|done].
  - destruct (is_char quote c).
    + destruct sql as [|d sql]; [by intros [= <- <-]|]. destruct (is_char quote d); [|by intros [= <- <-]].
      destruct (quoted_text quote sql) as [[t r]|] eqn:Hq; simpl; [|done].
      intros [= <- <-]. simpl in *. do 2 f_equal. apply (IH sql); [lia|done].
    + destruct (quoted_text quote sql) as [[t r]|] eqn:Hq; simpl; [|done].
      intros [= <- <-]. simpl. f_equal. apply (IH sql); [lia|done].
Qed.

(** A piece is what it consumes, and it consumes something. *)
Lemma next_piece_app c rest p rest' :
  next_piece c rest = Ok (p, rest') -> piece_text p +:+ rest' = String c rest /\ (String.length rest' <= String.length rest)%nat.
Proof.
  intros H. assert (piece_text p +:+ rest' = String c rest /\ (0 < String.length (piece_text p))%nat) as [Happ Hlen].
  { unfold next_piece in H. destruct (any_quote c).
    - apply bind_Ok_iff in H as ([t r] & Hq%or_throw_Ok_iff & [= <- <-]). simpl.
      split; [f_equal; by eapply quoted_text_app|lia].
    - destruct (starts_line_comment (String c rest)).
      + injection H as <- <-. simpl piece_text. split; [exact (take_line_app (String c rest))|]. simpl. destruct (line_end c); simpl; lia.
      + destruct (starts_with "/*" (String c rest)) eqn:Hs.
        * apply seq_Ok_iff in H as [_ ([t r] & Hc%or_throw_Ok_iff & [= <- <-])%bind_Ok_iff].
          apply starts_with_spec in Hs as [body Hbody]. rewrite Hbody in Hc |- *. simpl in Hc. apply comment_end_app in Hc.
          simpl. rewrite Hc. split; [done|lia].
        * destruct (is_char ":"%char c && _) eqn:Hm.
          -- destruct (span_char portable_char rest) as [name r] eqn:Hspan. apply seq_Ok_iff in H as [_ [= <- <-]].
             apply andb_true_iff in Hm as [Hc _]. apply bool_decide_eq_true in Hc as ->. simpl.
             destruct (span_char_spec portable_char rest) as [Happ _]. rewrite Hspan in Happ. simpl in Happ. rewrite Happ.
             split; [done|lia].
          -- injection H as <- <-. simpl. split; [done|lia]. }
  split; [done|]. apply (f_equal String.length) in Happ. rewrite length_app_str in Happ. simpl in Happ. lia.
Qed.
End tokens.

(** ** What the tokens are *)
Section reassembly.

(** One chunk before each name and one after the last. *)
Definition well_formed (t : StatementTokens) : Prop :=
  length (chunks t) = S (length (names t)) /\ Forall (fun name => isPortableBindName name = true) (names t).

Lemma interleave_back cs ns text :
  length cs = S (length ns) -> interleave (append_back cs text) ns = interleave cs ns +:+ text.
Proof.
  revert ns. induction cs as [|c cs IH]; intros ns Hlen; [done|].
  destruct cs as [|d cs], ns as [|n ns]; try (simpl in Hlen; lia); [done|].
  change (append_back (c :: d :: cs) text) with (c :: append_back (d :: cs) text).
  cbn [interleave]. rewrite IH by (simpl in *; lia). by rewrite !app_str_assoc.
Qed.

Lemma length_append_back cs text : length (append_back cs text) = length cs.
Proof. induction cs as [|c cs IH]; [done|]. destruct cs; [done|]. simpl in *. by rewrite IH. Qed.

Lemma interleave_snoc cs ns name :
  length cs = S (length ns) -> interleave (cs ++ [""]) (ns ++ [name]) = interleave cs ns +:+ ":" +:+ name.
Proof.
  revert ns. induction cs as [|c cs IH]; intros [|n ns] Hlen; cbn [app interleave length] in *; try lia.
  - destruct cs; [|simpl in Hlen; lia]. simpl. by rewrite app_str_nil_r.
  - rewrite IH by lia. by rewrite <- !app_str_assoc.
Qed.

Lemma add_piece_spec t p :
  well_formed t -> Forall (fun name => isPortableBindName name = true) (piece_names p) ->
  well_formed (add_piece t p) /\ interleave (chunks (add_piece t p)) (names (add_piece t p))
                                 = interleave (chunks t) (names t) +:+ piece_text p.
Proof.
  intros [Hlen Hnames] Hp. destruct p as [text|name]; simpl.
  - split; [split; simpl; [by rewrite length_append_back|done]|by apply interleave_back].
  - split; [split; simpl|by apply interleave_snoc].
    + rewrite !length_app. simpl. lia.
    + apply Forall_app. by split.
Qed.

Lemma next_piece_names c rest p rest' :
  next_piece c rest = Ok (p, rest') -> Forall (fun name => isPortableBindName name = true) (piece_names p).
Proof.
  unfold next_piece. destruct (any_quote c).
  { intros ([t r] & _ & [= <- _])%bind_Ok_iff. constructor. }
  destruct (starts_line_comment _); [intros [= <- _]; constructor|]. destruct (starts_with _ _).
  { intros [_ ([t r] & _ & [= <- _])%bind_Ok_iff]%seq_Ok_iff. constructor. }
  destruct (_ && _); [|intros [= <- _]; constructor]. destruct (span_char _ _) as [name r].
  intros [Hname%throw_if_Ok_iff [= <- _]]%seq_Ok_iff. constructor; [|constructor]. by apply negb_false_iff.
Qed.

Lemma next_piece_error c rest e : next_piece c rest = Err e -> exists message, e = InvalidArgument message.
Proof.
  unfold next_piece. destruct (any_quote c); [destruct (quoted_text _ _) as [[]|]; simpl; [done|intros [= <-]; by eexists]|].
  destruct (starts_line_comment _); [done|]. destruct (starts_with _ _).
  { destruct (is_executable _); simpl; [intros [= <-]; by eexists|].
    destruct (comment_end _) as [[]|]; simpl; [done|intros [= <-]; by eexists]. }
  destruct (_ && _); [|done]. destruct (span_char _ _). destruct (negb _); simpl; [intros [= <-]; by eexists|done].
Qed.

Lemma tokenize_spec fuel sql t :
  (String.length sql <= fuel)%nat -> well_formed t ->
  match tokenize fuel sql t with
  | Ok t' => well_formed t' /\ interleave (chunks t') (names t') = interleave (chunks t) (names t) +:+ sql
  | Err e => exists message, e = InvalidArgument message
  end.
Proof.
  revert sql t. induction fuel as [|fuel IH]; intros [|c rest] t Hfuel Ht; simpl in *;
    try (split; [done|by rewrite app_str_nil_r]); [lia|].
  destruct (next_piece c rest) as [[p rest']|e] eqn:Hp; simpl; [|by eapply next_piece_error].
  destruct (next_piece_app _ _ _ _ Hp) as [Happ Hlen].
  destruct (add_piece_spec t p Ht (next_piece_names _ _ _ _ Hp)) as [Hwf Htext].
  specialize (IH rest' (add_piece t p) ltac:(lia) Hwf). destruct (tokenize fuel rest' _) as [t'|e]; [|done].
  destruct IH as [Hwf' ->]. split; [done|]. by rewrite Htext, <- Happ, app_str_assoc.
Qed.
End reassembly.

Lemma tokenize_reassembles sql :
  match tokenizeStatement sql with
  | Ok t => interleave (chunks t) (names t) = sql /\ length (chunks t) = S (length (names t)) /\
            Forall (fun name => isPortableBindName name = true) (names t)
  | Err e => exists message, e = InvalidArgument message
  end.
Proof.
  pose proof (tokenize_spec (String.length sql) sql (MkTokens [""] []) (le_n _) ltac:(by split)) as H.
  unfold tokenizeStatement. destruct (tokenize _ _ _) as [t|e]; [|done]. destruct H as [[Hlen Hnames] Htext]. done.
Qed.

(** C29: splitting a statement of the MySQL family either refuses it as malformed or gives
    its texts and its bind names in order: put together again with the markers they are
    the statement, byte for byte, and every name is a portable one.  The split always
    ends. *)
Theorem tokenizeStatement_roundtrip sql :
  match tokenizeStatement sql with
  | Ok t => interleave (chunks t) (names t) = sql /\ length (chunks t) = S (length (names t)) /\
            Forall (fun name => isPortableBindName name = true) (names t)
  | Err e => exists message, e = InvalidArgument message
  end.
Proof. apply tokenize_reassembles. Qed.
