(* ===== verification/Markers.v ===== *)
(** Markers: a statement that the library renders for the MySQL family is split at its
    bind markers and nowhere else. *)
From S2P Require Import Prelude Foundation Values Models PhysicalSql SqlValidation Dialect Emitter Capabilities Commands Generators Tokens.
Local Open Scope string_scope.

(** What follows a part of a statement: nothing that a name or a quoted identifier would
    run on with. *)
Definition stops (c : ascii) : bool := negb (portable_char c) && negb (is_char BACKTICK c).
Definition follows (rest : string) : Prop := match rest with "" => True | String c _ => stops c = true end.

(** Before anything that [after] allows, [s] is read up to its end, with the names [ns]. *)
Definition scans (after : string -> Prop) (s : string) (ns : list string) : Prop :=
  forall rest fuel t, after rest -> (String.length (s +:+ rest) <= fuel)%nat ->
  exists fuel' t', (String.length rest <= fuel')%nat /\ names t' = (names t ++ ns)%list /\
                   tokenize fuel (s +:+ rest) t = tokenize fuel' rest t'.

Definition anything (rest : string) : Prop := True.

(** Characters that are read one by one. *)
Definition ordinary (c : ascii) : bool :=
  negb (any_quote c) && negb (is_char "#"%char c) && negb (is_char "-"%char c) && negb (is_char "/"%char c)
  && negb (is_char ":"%char c).

Section scans.
Lemma scans_app after1 after2 s1 s2 n1 n2 :
  scans after1 s1 n1 -> scans after2 s2 n2 -> (forall rest, after2 rest -> after1 (s2 +:+ rest)) ->
  scans after2 (s1 +:+ s2) (n1 ++ n2)%list.
Proof.
  intros H1 H2 Ho rest fuel t Hrest Hfuel. rewrite app_str_assoc in *.
  destruct (H1 (s2 +:+ rest) fuel t) as (f1 & t1 & Hf1 & Hn1 & ->); [by apply Ho|done|].
  destruct (H2 rest f1 t1 Hrest Hf1) as (f2 & t2 & Hf2 & Hn2 & ->). exists f2, t2. split; [done|]. split; [|done].
  by rewrite Hn2, Hn1, app_assoc.
Qed.

(** One pass of the loop. *)
Lemma scans_piece after c s p :
  (forall rest, after rest -> next_piece c (s +:+ rest) = Ok (p, rest)) -> scans after (String c s) (piece_names p).
Proof.
  intros Hp rest fuel t Hrest Hfuel. simpl in Hfuel. destruct fuel as [|fuel]; [lia|]. simpl. rewrite Hp by done. simpl.
  exists fuel, (add_piece t p). rewrite length_app_str in Hfuel. split; [lia|]. split; [|done].
  destruct p; simpl; [by rewrite app_nil_r|done].
Qed.

Lemma next_ordinary c rest : ordinary c = true -> next_piece c rest = Ok (Text (String c ""), rest).
Proof.
  unfold ordinary, next_piece. rewrite !andb_true_iff, !negb_true_iff. intros ((((Hq & Hh) & Hd) & Hs) & Hc).
  rewrite Hq, Hc. unfold starts_line_comment. simpl. rewrite Hh.
  unfold is_char in Hd, Hs. apply bool_decide_eq_false in Hd, Hs. by rewrite !bool_decide_false by congruence.
Qed.

Lemma ordinary_scans s : forallb_char ordinary s = true -> scans anything s [].
Proof.
  induction s as [|c s IH].
  - intros _ rest fuel t _ Hfuel. exists fuel, t. by rewrite app_nil_r.
  - rewrite forallb_char_cons, andb_true_iff. intros [Hc Hs].
    apply (scans_app anything anything (String c "") s [] []); [|by apply IH|done].
    apply (scans_piece anything c "" (Text (String c ""))). intros rest _. by apply next_ordinary.
Qed.

Lemma quoted_text_double name rest :
  follows rest ->
  quoted_text BACKTICK (concat_map (double_char BACKTICK) name +:+ String BACKTICK rest)
  = Some (concat_map (double_char BACKTICK) name +:+ String BACKTICK "", rest).
Proof.
  intros Hrest. induction name as [|c name IH].
  - cbn [concat_map String.append quoted_text]. destruct rest as [|d rest]; [done|].
    simpl in Hrest. unfold stops in Hrest. apply andb_true_iff in Hrest as [_ Hd%negb_true_iff]. simpl. by rewrite Hd.
  - cbn [concat_map]. unfold double_char at 1 3. case_bool_decide as Hc.
    + subst c. cbn [String.append quoted_text]. simpl. by rewrite IH.
    + cbn [String.append quoted_text]. rewrite andb_false_r. unfold is_char at 1. rewrite bool_decide_false by done.
      by rewrite IH.
Qed.

(** An identifier is one text, whatever its name holds. *)
Lemma quoted_scans name q : quoteStandardIdentifier name MySQLFamily = Ok q -> scans follows q [].
Proof.
  unfold quoteStandardIdentifier. rewrite !seq_Ok_iff. intros (_ & _ & _ & _ & [= <-]).
  apply (scans_piece follows _ _ (Text (String BACKTICK (concat_map (double_char BACKTICK) name +:+ String BACKTICK "")))).
  intros rest Hrest. rewrite app_str_assoc. unfold next_piece. cbn [String.append].
  change (quote_char MySQLFamily) with BACKTICK. rewrite quoted_text_double by done. done.
Qed.

Lemma span_portable name rest :
  forallb_char portable_char name = true -> follows rest -> span_char portable_char (name +:+ rest) = (name, rest).
Proof.
  intros Hname Hrest. apply span_char_app; [done|]. destruct rest as [|c rest]; [done|]. simpl in *.
  unfold stops in Hrest. by destruct (portable_char c).
Qed.

(** A marker is one name. *)
Lemma marker_scans message name q : standardBindMarker message name = Ok q -> scans follows q [name].
Proof.
  unfold standardBindMarker. intros [Hname%throw_if_Ok_iff [= <-]]%seq_Ok_iff.
  apply (scans_piece follows ":"%char name (Marker name)). intros rest Hrest. apply negb_false_iff in Hname as Hportable.
  unfold isPortableBindName in Hportable. apply andb_true_iff in Hportable as [Hne Hall].
  unfold next_piece. rewrite span_portable by done. rewrite Hname.
  assert (Hhead : head_is (fun d => negb (is_char "="%char d)) (name +:+ rest) = true).
  { destruct name as [|c name]; [done|]. simpl. rewrite forallb_char_cons in Hall. apply andb_true_iff in Hall as [Hc _].
    unfold is_char. rewrite bool_decide_false; [done|]. intros ->. by vm_compute in Hc. }
  simpl. by rewrite Hhead.
Qed.

Lemma join_scans parts nss :
  Forall2 (scans follows) parts nss -> parts <> [] -> scans follows (join ", " parts) (concat nss).
Proof.
  induction 1 as [|s ns parts nss Hs Hrest IH]; [done|]. intros _. destruct Hrest as [|s' ns' parts nss Hs' Hrest].
  - simpl. rewrite app_nil_r. exact Hs.
  - rewrite join_cons. cbn [concat]. apply (scans_app follows follows s); [done| |done].
    apply (scans_app anything follows ", " _ []); [by apply ordinary_scans|by apply IH|done].
Qed.
End scans.

(** ** The INSERT of a model *)
Definition mysql_family_dialect (d : SqlDialect) : Prop := d = MysqlDialect \/ d = MariadbDialect.

Section inserts.
Variable d : SqlDialect.
Hypothesis family : mysql_family_dialect d.

Lemma family_quoted name q : quoteIdentifier d name = Ok q -> scans follows q [].
Proof. destruct family as [-> | ->]; apply quoted_scans. Qed.

Lemma family_marker name q : bindMarker d name = Ok q -> scans follows q [name].
Proof. destruct family as [-> | ->]; apply marker_scans. Qed.

Lemma concat_nils {A B} (l : list A) : concat (map (fun _ => []) l) = @nil B.
Proof. by induction l. Qed.
Lemma concat_singletons {A} (l : list A) : concat (map (fun x => [x]) l) = l.
Proof. induction l; simpl; congruence. Qed.

Lemma scans_each (f : string -> res string) (ns : string -> list string) names parts :
  (forall name q, f name = Ok q -> scans follows q (ns name)) -> mapM f names = Ok parts ->
  Forall2 (scans follows) parts (map ns names).
Proof. intros Hf Hparts%mapM_Ok_iff. induction Hparts; simpl; constructor; auto. Qed.

Lemma list_scans (f : string -> res string) (ns : string -> list string) names text :
  (forall name q, f name = Ok q -> scans follows q (ns name)) -> names <> [] ->
  (removeLastComma <$> foldM (fun text name => q ← f name; Ok (text +:+ q +:+ ", ")) "" names) = Ok text ->
  scans follows text (concat (map ns names)).
Proof.
  intros Hf Hne. rewrite listed by done. intros (parts & Hparts & ->)%fmap_Ok_iff. apply join_scans; [by eapply scans_each|].
  intros ->. apply mapM_Ok_iff, Forall2_length in Hparts. by destruct names.
Qed.

Lemma default_scans name text : renderDefaultInsert d name = Ok text -> scans anything text [].
Proof.
  intros H. assert (Hd : renderDefaultInsert d name = emptyInsert name) by (by destruct family as [-> | ->]).
  rewrite Hd in H. apply bind_Ok_iff in H as (q & Hq & [= <-]).
  apply (scans_app anything anything "INSERT INTO " _ [] []); [by apply ordinary_scans| |done].
  apply (scans_app follows anything q _ [] []); [by eapply quoted_scans|by apply ordinary_scans|done].
Qed.

Lemma insert_scans model m bound text :
  arrow model = Some m -> getFieldsNames model m = Ok bound -> insert d model = Ok text -> scans anything text bound.
Proof.
  intros Hm Hbound. unfold insert, deref. rewrite Hm. simpl. rewrite Hbound. simpl. case_bool_decide as Hlen.
  - destruct bound; [|done]. apply default_scans.
  - assert (Hne : bound <> []) by (by intros ->).
    intros (table & Ht & (fields & Hf & (values & Hv & [= <-])%bind_Ok_iff)%bind_Ok_iff)%bind_Ok_iff.
    assert (Hfields : scans follows fields []).
    { rewrite <- (concat_nils bound). eapply list_scans; [|done|exact Hf]. apply family_quoted. }
    assert (Hvalues : scans follows values bound).
    { rewrite <- (concat_singletons bound) at 1. eapply list_scans; [|done|exact Hv]. apply family_marker. }
    apply (scans_app anything anything "INSERT INTO " _ [] bound); [by apply ordinary_scans| |done].
    apply (scans_app follows anything table _ [] bound); [by eapply family_quoted| |done].
    apply (scans_app anything anything " (" _ [] bound); [by apply ordinary_scans| |done].
    apply (scans_app follows anything fields _ [] bound); [done| |done].
    apply (scans_app anything anything ") VALUES (" _ [] bound); [by apply ordinary_scans| |done].
    rewrite <- (app_nil_r bound). apply (scans_app follows anything); [done|by apply ordinary_scans|done].
Qed.
End inserts.

(** C30: the driver of MySQL and MariaDB splits the INSERT of a model at exactly the
    markers of the columns it binds, in their order, whatever characters the names of the
    table and of the columns hold. *)
Theorem insert_split d model m bound text :
  mysql_family_dialect d -> arrow model = Some m -> getFieldsNames model m = Ok bound -> insert d model = Ok text ->
  exists t, tokenizeStatement text = Ok t /\ names t = bound /\ interleave (chunks t) (names t) = text.
Proof.
  intros Hd Hm Hbound Htext. destruct (insert_scans d Hd model m bound text Hm Hbound Htext "" (String.length text)
    (MkTokens [""] [])) as (fuel & t & _ & Hn & Heq); [done|by rewrite app_str_nil_r|].
  rewrite app_str_nil_r in Heq. exists t.
  assert (Ht : tokenizeStatement text = Ok t) by (unfold tokenizeStatement; rewrite Heq; by destruct fuel).
  split; [done|]. split; [done|]. pose proof (tokenize_reassembles text) as H. rewrite Ht in H. by destruct H.
Qed.
