(* ===== verification/Bound.v ===== *)
(** Bound: values survive being bound, a value within the limits of its backend is bound,
    and the parameters of a model are those of its INSERT. *)
From S2P Require Import Prelude Foundation Chrono Values Codec Schema Models Dialect TargetValues QueryValue Query Emitter Capabilities Commands Binding.
From Stdlib Require Import SpecFloat.
Local Open Scope string_scope.

(** A [Uuid] of the code has 16 bytes. *)
Definition uuid_wf (value : BoundValue) : Prop :=
  match bound_value value with Some (UuidValue u) => Uuid.wf u | _ => True end.

Section contents.
Lemma encoded_Ok s : encoded (Ok s) = Ok s.
Proof. done. Qed.

(** What is set for a value of a type reads back as the value. *)
Lemma scalar_content_reads name type v :
  isCompatibleStorage type v = true -> (match v with UuidValue u => Uuid.wf u | _ => True end) ->
  exists c, scalar_content name v = Ok c /\ read_content type c = Ok v.
Proof.
  intros Hv Hwf. destruct v as [z|z|z|d|s|d|t|t|t|u]; simpl in Hv.
  - exists (SociInt z). by destruct type.
  - exists (SociLongLong z). apply bool_decide_eq_true in Hv as ->. done.
  - exists (SociUnsigned z). by destruct type.
  - exists (SociDouble d). simpl. apply orb_true_iff in Hv as [[Ht%bool_decide_eq_true Hd]%andb_true_iff|[Ht%bool_decide_eq_true Hd]%andb_true_iff]; subst type.
    + unfold double_cast. unfold float_cast in Hd. apply andb_true_iff in Hd as [[-> _]%andb_true_iff _]. done.
    + unfold double_cast. by rewrite Hd.
  - exists (SociString s). apply bool_decide_eq_true in Hv as ->. done.
  - apply andb_true_iff in Hv as [->%bool_decide_eq_true Hd]. simpl. unfold validate_Date. rewrite Hd. simpl.
    rewrite format_Date_text by done. simpl. eexists. split; [done|]. simpl. by rewrite parseDate_text.
  - apply andb_true_iff in Hv as [->%bool_decide_eq_true Ht]. simpl. eexists. split; [done|]. simpl.
    by rewrite parseTimeOfDay_format.
  - apply andb_true_iff in Hv as [->%bool_decide_eq_true Ht]. simpl. unfold validate_LocalDateTime. rewrite Ht. simpl.
    pose proof (parseLocalDateTime_format t) as Hback. rewrite Ht in Hback. apply bind_Ok_iff in Hback as (text & Htext & Hback).
    rewrite Htext. simpl. eexists. split; [done|]. simpl. by rewrite Hback.
  - apply andb_true_iff in Hv as [->%bool_decide_eq_true Ht]. simpl. unfold validate_UtcTimestamp. rewrite Ht. simpl.
    pose proof (parseUtcTimestamp_format t true) as Hback. rewrite Ht in Hback. apply bind_Ok_iff in Hback as (text & Htext & Hback).
    rewrite Htext. simpl. eexists. split; [done|]. simpl. by rewrite Hback.
  - apply bool_decide_eq_true in Hv as ->. exists (SociString (Uuid.toString u)). split; [done|]. simpl.
    by rewrite Uuid.parse_toString_bytes.
Qed.

Lemma bound_compatible vs name value :
  hasCompatibleStorage value = true -> uuid_wf value ->
  exists c, bindBoundValue vs name value = Ok (<[name := c]> vs) /\
            serializedBoundValue (<[name := c]> vs) name (bound_type value) = Ok value.
Proof.
  intros Hv Hwf. unfold bindBoundValue, serializedBoundValue, get_value. rewrite Hv. destruct value as [type [v|]]; simpl in *.
  - destruct (scalar_content_reads name type v Hv Hwf) as (c & -> & Hread). exists (MkSociValue c false).
    split; [done|]. rewrite lookup_insert_eq. simpl. rewrite Hread. unfold hasCompatibleStorage in Hv. simpl in Hv. by rewrite Hv.
  - eexists. split; [done|]. by rewrite lookup_insert_eq.
Qed.
End contents.

(** a value whose storage is that of its logical type is bound without an error, and
    the driver's value under its name reads back as the same value of the same type:
    binding loses nothing. *)
Theorem bound_value_roundtrip vs name value :
  hasCompatibleStorage value = true -> uuid_wf value ->
  exists vs', bindBoundValue vs name value = Ok vs' /\ serializedBoundValue vs' name (bound_type value) = Ok value /\
              forall other, other <> name -> vs' !! other = vs !! other.
Proof.
  intros Hv Hwf. destruct (bound_compatible vs name value Hv Hwf) as (c & Hbind & Hread). eexists. split; [exact Hbind|].
  split; [done|]. intros other Hother. by apply lookup_insert_ne.
Qed.

(** ** Limits *)

(** What a backend refuses that its limits allow: PostgreSQL a text with a NUL byte,
    MariaDB some UUIDs. *)
Definition refused_text (b : BackendType) (value : BoundValue) : bool :=
  bool_decide (b = Postgres) && bool_decide (bound_type value = ColumnType.String) && holds_NUL value.

Definition refused_uuid (b : BackendType) (value : BoundValue) : bool :=
  bool_decide (b = Mariadb)
  && match bound_value value with Some (UuidValue u) => negb (is_ok (validateNative_Uuid u Mariadb)) | _ => false end.

Section limits.
Lemma bound_ok vs name value :
  hasCompatibleStorage value = true -> uuid_wf value -> is_ok (bindBoundValue vs name value) = true.
Proof. intros Hv Hwf. by destruct (bound_compatible vs name value Hv Hwf) as (c & -> & _). Qed.

Lemma within_compatible value maximum limits runtime :
  isWithinValueLimits value maximum limits runtime = true -> hasCompatibleStorage value = true.
Proof. unfold isWithinValueLimits, hasCompatibleStorage. destruct (bound_value value); [|done]. by intros [-> _]%andb_true_iff. Qed.

Lemma signed_ok value maximum limits runtime message :
  bound_type value = ColumnType.UnsignedLongLong -> maximum = Some (2 ^ 63 - 1)%Z ->
  isWithinValueLimits value maximum limits runtime = true ->
  exists wire, signed_value value message = Ok wire /\ hasCompatibleStorage wire = true /\ uuid_wf wire.
Proof.
  intros Ht -> Hw. pose proof (within_compatible _ _ _ _ Hw) as Hc. unfold signed_value. rewrite Hc. simpl.
  destruct value as [type [v|]]; simpl in *; subst type; [|by eexists].
  unfold isWithinValueLimits, hasCompatibleStorage in *. simpl in *. rewrite Hc in Hw. destruct v; try done. simpl in *.
  destruct (Z.ltb_spec (2 ^ 63 - 1) value); [apply Z.leb_le in Hw; lia|]. by eexists.
Qed.

Lemma signed_bound vs name value maximum limits runtime message :
  bound_type value = ColumnType.UnsignedLongLong -> maximum = Some (2 ^ 63 - 1)%Z ->
  isWithinValueLimits value maximum limits runtime = true ->
  is_ok (wire ← signed_value value message; bindBoundValue vs name wire) = true.
Proof.
  intros Ht Hm Hw. destruct (signed_ok _ _ _ _ message Ht Hm Hw) as (wire & -> & Hc & Hwf). by apply bound_ok.
Qed.

(** The domains of the MySQL family's types. *)
Definition family (b : BackendType) : Prop := b = Mysql \/ b = Mariadb.

Lemma family_native b : family b -> requireNative b = Ok tt.
Proof. by intros [-> | ->]. Qed.

Lemma native_Date_ok b d :
  family b -> valid_Date d = true -> (days_from_civil (YMD 1000 1 1) <= days_from_civil d)%Z -> validateNative_Date d b = Ok tt.
Proof.
  intros Hb Hd Hlow. unfold validateNative_Date, validate_Date. rewrite family_native, Hd by done.
  assert (Hpg : bool_decide (b = Postgres) = false) by (by destruct Hb as [-> | ->]). rewrite Hpg. cbn [negb andb throw_if mbind result_bind].
  pose proof (proj1 (valid_date_days d) Hd) as (Hok & _ & Hhigh).
  destruct (Z.ltb_spec (year d) 1000) as [Hy|]; [|done]. exfalso.
  assert (Hbounds : (1000 <= year d <= 9999)%Z); [|lia].
  apply (days_from_civil_year_bounds d 1000 9999 Hok). split; [done|].
  unfold afterLastDay, at_midnight in Hhigh. change (9999 + 1)%Z with 10000%Z.
  assert (0 < us_per_day)%Z by done. nia.
Qed.

Lemma native_LocalDateTime_ok b t :
  family b -> valid_LocalDateTime t = true -> (at_midnight 1000 1 1 <= t)%Z ->
  (b = Mysql -> (t <= at_midnight 9999 12 31 + 24 * us_per_hour - 500001)%Z) ->
  validateNative_LocalDateTime t b = Ok tt.
Proof.
  intros Hb Ht Hlow Hhigh. unfold validateNative_LocalDateTime, validate_LocalDateTime. rewrite family_native, Ht by done.
  cbn [negb throw_if mbind result_bind].
  destruct (floor_days_valid t) as (Hd & Hdays & _); [by apply valid_LocalDateTime_iff|].
  rewrite native_Date_ok; [|done|done|].
  - cbn [mbind result_bind]. apply throw_if_Ok_iff. case_bool_decide as Hm; [|done]. cbn [andb]. apply Z.ltb_ge.
    specialize (Hhigh Hm). change (afterLastDay - us_per_second + 499999)%Z with (at_midnight 9999 12 31 + 24 * us_per_hour - 500001)%Z.
    done.
  - rewrite Hdays. unfold floor_days. apply Z.div_le_lower_bound; [done|]. unfold at_midnight in Hlow. lia.
Qed.

Lemma native_UtcTimestamp_ok b t :
  family b -> valid_UtcTimestamp t = true -> (us_per_second <= t <= maximumTimestamp b)%Z ->
  validateNative_UtcTimestamp t b = Ok tt.
Proof.
  intros Hb Ht [Hlow Hhigh]. unfold validateNative_UtcTimestamp, validate_UtcTimestamp. rewrite family_native, Ht by done.
  assert (Hpg : bool_decide (b = Postgres) = false) by (by destruct Hb as [-> | ->]). rewrite Hpg. cbn [negb throw_if mbind result_bind].
  apply throw_if_Ok_iff. change (at_midnight 1970 1 1 + us_per_second)%Z with us_per_second.
  apply orb_false_iff. split; apply Z.ltb_ge; lia.
Qed.

Lemma native_within b caps runtime type v :
  family b -> builtin_capabilities b = Some caps ->
  isWithinValueLimits (MkBound type (Some v)) (maxUnsignedLongLong caps) (value_limits caps) runtime = true ->
  validateNative v b = match v with UuidValue u => validateNative_Uuid u b | _ => Ok tt end.
Proof.
  intros Hb Hcaps Hw. unfold isWithinValueLimits in Hw. simpl in Hw. apply andb_true_iff in Hw as [Hv Hw].
  destruct v as [z|z|z|d|s|d|t|t|t|u]; try done; simpl in Hv, Hw |- *; apply andb_true_iff in Hv as [_ Hv].
  - apply native_Date_ok; [done|done|]. unfold within in Hw.
    destruct Hb as [-> | ->]; injection Hcaps as <-; apply andb_true_iff in Hw as [Hw%Z.leb_le _]; exact Hw.
  - unfold validateNative_TimeOfDay. by rewrite family_native.
  - apply native_LocalDateTime_ok; [done|done| |]; unfold within in Hw;
      destruct Hb as [-> | ->]; injection Hcaps as <-; apply andb_true_iff in Hw as [Hlow%Z.leb_le Hhigh%Z.leb_le]; done.
  - apply native_UtcTimestamp_ok; [done|done|]. unfold within in Hw. apply andb_true_iff in Hw as [Hw _].
    destruct Hb as [-> | ->]; injection Hcaps as <-; apply andb_true_iff in Hw as [Hlow%Z.leb_le Hhigh%Z.leb_le]; done.
Qed.

Lemma is_ok_seq {A} (m : res unit) (k : res A) : is_ok (m ;; k) = is_ok m && is_ok k.
Proof. by destruct m as [[]|]. Qed.

Lemma is_ok_throw_if (c : bool) (e : exn) : is_ok (throw_if c e) = negb c.
Proof. by destruct c. Qed.

Lemma sqlite_within vs name value runtime :
  uuid_wf value -> isWithinValueLimits value (maxUnsignedLongLong sqliteCapabilities) (value_limits sqliteCapabilities) runtime = true ->
  is_ok (sqlite_bind vs name value) = true.
Proof.
  intros Hwf Hw. unfold sqlite_bind. case_bool_decide; [by eapply signed_bound|]. apply bound_ok; [by eapply within_compatible|done].
Qed.

Lemma postgresql_within vs name value runtime :
  uuid_wf value ->
  isWithinValueLimits value (maxUnsignedLongLong postgresqlCapabilities) (value_limits postgresqlCapabilities) runtime = true ->
  is_ok (postgresql_bind vs name value) = negb (refused_text Postgres value).
Proof.
  intros Hwf Hw. pose proof (within_compatible _ _ _ _ Hw) as Hc. unfold postgresql_bind, requireNativeStorage. rewrite Hc.
  assert (Hlast : is_ok (if bool_decide (bound_type value = ColumnType.UnsignedLongLong)
            then wire ← signed_value value "PostgreSQL cannot represent an unsigned 64-bit value above INT64_MAX"; bindBoundValue vs name wire
            else bindBoundValue vs name value) = true).
  { case_bool_decide; [by eapply signed_bound|by apply bound_ok]. }
  rewrite !is_ok_seq, Hlast, andb_true_r. unfold refused_text. rewrite (bool_decide_true (Postgres = Postgres)) by done. cbn [andb].
  assert (Hnative : is_ok (if native_type (bound_type value) then throw_if (negb true)
            (ConversionError "Native value storage does not match its logical column type") else Ok tt) = true)
    by (by destruct (native_type (bound_type value))).
  rewrite Hnative. destruct (bool_decide (bound_type value = ColumnType.String)); [|done]. by rewrite is_ok_seq, !is_ok_throw_if.
Qed.

(** A timestamp's text is of the type it is bound as. *)
Lemma timestamp_wire_ok value :
  bound_type value = ColumnType.UtcTimestamp -> hasCompatibleStorage value = true ->
  exists wire, timestamp_wire value = Ok wire /\ hasCompatibleStorage wire = true /\ uuid_wf wire.
Proof.
  intros Ht Hc. unfold timestamp_wire. destruct value as [type [v|]]; simpl in *; subst type; [|by eexists].
  unfold hasCompatibleStorage in Hc. simpl in Hc. destruct v; try done; try (by destruct value).
  simpl in Hc. rewrite format_UtcTimestamp_text by done. by eexists.
Qed.

Lemma mysql_last vs name value :
  hasCompatibleStorage value = true -> uuid_wf value ->
  is_ok (if bool_decide (bound_type value = ColumnType.UtcTimestamp)
         then wire ← timestamp_wire value; bindBoundValue vs name wire else bindBoundValue vs name value) = true.
Proof.
  intros Hc Hwf. case_bool_decide as Ht; [|by apply bound_ok].
  destruct (timestamp_wire_ok value Ht Hc) as (wire & -> & Hc' & Hwf'). by apply bound_ok.
Qed.

Lemma native_checks_within b caps runtime value :
  family b -> builtin_capabilities b = Some caps -> supportsColumnType caps (bound_type value) = true ->
  isWithinValueLimits value (maxUnsignedLongLong caps) (value_limits caps) runtime = true ->
  is_ok (native_checks b value) = negb (refused_uuid b value).
Proof.
  intros Hb Hcaps Hs Hw. pose proof (within_compatible _ _ _ _ Hw) as Hc. unfold native_checks, requireNativeStorage.
  rewrite !is_ok_seq, !is_ok_throw_if, Hc. cbn [negb andb].
  assert (Huuid : bool_decide (bound_type value = ColumnType.Uuid) && negb (bool_decide (b = Mariadb)) = false).
  { destruct Hb as [-> | ->]; [|by rewrite andb_false_r]. case_bool_decide as Ht; [|done]. injection Hcaps as <-. by rewrite Ht in Hs. }
  rewrite Huuid. cbn [negb andb]. unfold refused_uuid. destruct value as [type [v|]]; simpl in *; [|by rewrite andb_false_r].
  rewrite (native_within b caps runtime type v Hb Hcaps Hw).
  destruct v; try (by rewrite andb_false_r). destruct Hb as [-> | ->].
  - injection Hcaps as <-. unfold hasCompatibleStorage in Hc. simpl in Hc. apply bool_decide_eq_true in Hc as ->. done.
  - rewrite bool_decide_true by done. cbn [andb]. rewrite negb_involutive. unfold validateNative_Uuid, validateNativeUuid.
    by destruct (throw_if _ _) as [[]|[]].
Qed.

Lemma mysql_within b caps runtime vs name value :
  family b -> builtin_capabilities b = Some caps -> supportsColumnType caps (bound_type value) = true -> uuid_wf value ->
  isWithinValueLimits value (maxUnsignedLongLong caps) (value_limits caps) runtime = true ->
  is_ok (mysql_bind b vs name value) = negb (refused_uuid b value).
Proof.
  intros Hb Hcaps Hs Hwf Hw. pose proof (within_compatible _ _ _ _ Hw) as Hc. unfold mysql_bind.
  destruct (native_type (bound_type value)) eqn:Hn.
  - rewrite is_ok_seq, mysql_last by done. rewrite andb_true_r. by eapply native_checks_within.
  - rewrite bound_ok by done. unfold refused_uuid. destruct value as [type [v|]]; simpl in *; [|by rewrite andb_false_r].
    unfold hasCompatibleStorage in Hc. simpl in Hc. destruct v; try (by rewrite andb_false_r). apply bool_decide_eq_true in Hc. by subst type.
Qed.
End limits.

(** C32: a value of a type that a built-in backend supports and that is within the limits
    which are checked before a statement is bound, except for a text with a NUL byte on
    PostgreSQL and a UUID outside MariaDB's native range: binding refuses nothing else. *)
Theorem bind_within_limits b caps runtime vs name value :
  builtin_capabilities b = Some caps -> supportsColumnType caps (bound_type value) = true -> uuid_wf value ->
  isWithinValueLimits value (maxUnsignedLongLong caps) (value_limits caps) runtime = true ->
  is_ok (bind b vs name value) = negb (refused_text b value) && negb (refused_uuid b value).
Proof.
  intros Hcaps Hs Hwf Hw. destruct b; try done; cbn [bind].
  - injection Hcaps as <-. by eapply sqlite_within.
  - injection Hcaps as <-. rewrite andb_true_r. by eapply postgresql_within.
  - eapply mysql_within; [by left|done..].
  - eapply mysql_within; [by right|done..].
Qed.

(** ** Parameters of a model *)

(** From one state to another, exactly [ns] were bound. *)
Definition binds (ns : list string) (s s' : values * N) : Prop :=
  s'.2 = (s.2 + N.of_nat (length ns))%N /\
  (forall x, x ∈ ns -> is_Some (s'.1 !! x)) /\ (forall x, x ∉ ns -> s'.1 !! x = s.1 !! x).

Section parameters.
Lemma binds_nil s : binds [] s s.
Proof. split; [simpl; lia|]. split; [set_solver|done]. Qed.

Lemma binds_app ns1 ns2 s1 s2 s3 : binds ns1 s1 s2 -> binds ns2 s2 s3 -> binds (ns1 ++ ns2)%list s1 s3.
Proof.
  intros (Hn1 & Hin1 & Hout1) (Hn2 & Hin2 & Hout2). split; [rewrite length_app; lia|]. split.
  - intros x Hx. destruct (decide (x ∈ ns2)) as [|Hx2]; [auto|]. rewrite Hout2 by done. apply Hin1. set_solver.
  - intros x Hx. rewrite Hout2 by set_solver. apply Hout1. set_solver.
Qed.

(** Steps that bind what a function names. *)
Lemma binds_fold {A} (step : values * N -> A -> res (values * N)) (ns : A -> list string) l s s' :
  (forall s s' x, x ∈ l -> step s x = Ok s' -> binds (ns x) s s') ->
  foldM step s l = Ok s' -> binds (concat (map ns l)) s s'.
Proof.
  revert s. induction l as [|x l IH]; simpl; intros s Hstep H; [injection H as <-; apply binds_nil|].
  apply bind_Ok_iff in H as (t & Ht & H). eapply binds_app; [by eapply Hstep; [left|]|].
  apply IH; [|done]. intros u u' y Hy. apply Hstep. by right.
Qed.

Lemma bindBoundValue_sets vs name value vs' : bindBoundValue vs name value = Ok vs' -> exists c, vs' = <[name := c]> vs.
Proof.
  unfold bindBoundValue. destruct (bound_value value); [|intros [= <-]; by eexists].
  intros (_ & _ & (c & _ & [= <-])%bind_Ok_iff)%bind_Ok_iff. by eexists.
Qed.

Lemma wire_sets (wire : res BoundValue) vs name vs' :
  (w ← wire; bindBoundValue vs name w) = Ok vs' -> exists c, vs' = <[name := c]> vs.
Proof. intros (w & _ & H)%bind_Ok_iff. by eapply bindBoundValue_sets. Qed.

Lemma bind_sets b vs name value vs' : bind b vs name value = Ok vs' -> exists c, vs' = <[name := c]> vs.
Proof.
  assert (Hmysql : forall b, mysql_bind b vs name value = Ok vs' -> exists c, vs' = <[name := c]> vs).
  { intros b'. unfold mysql_bind. destruct (native_type _); [|apply bindBoundValue_sets].
    intros (_ & _ & H)%bind_Ok_iff. case_bool_decide; [by eapply wire_sets|by eapply bindBoundValue_sets]. }
  destruct b; try exact (Hmysql _); cbn [bind].
  - unfold sqlite_bind. case_bool_decide; [apply wire_sets|apply bindBoundValue_sets].
  - unfold postgresql_bind. intros (_ & _ & (_ & _ & H)%bind_Ok_iff)%bind_Ok_iff.
    case_bool_decide; [by eapply wire_sets|by eapply bindBoundValue_sets].
Qed.

Variable b : BackendType.
Variable within : BoundValue -> bool.
Variable serialized : values.

Lemma bind_column_binds s column s' : bind_column (bind b) within serialized s column = Ok s' -> binds [column.1] s s'.
Proof.
  destruct s as [vs n]. unfold bind_column. intros (value & _ & (_ & _ & (vs' & H & [= <-])%bind_Ok_iff)%bind_Ok_iff)%bind_Ok_iff.
  apply bind_sets in H as [c ->]. split; [done|]. simpl. split.
  - intros x ->%list_elem_of_singleton. rewrite lookup_insert_eq. by eexists.
  - intros x Hx. apply lookup_insert_ne. set_solver.
Qed.

Definition column_names (model : ModelView) (c : ColumnView) : list string :=
  match addFieldNames model [] c with Ok ns => ns | Err _ => [] end.

Lemma addFieldNames_appends model ns c ns' :
  addFieldNames model ns c = Ok ns' -> ns' = (ns ++ column_names model c)%list.
Proof.
  unfold column_names, addFieldNames. case_bool_decide.
  - destruct (or_throw _ _); simpl; [by intros [= <-]|done].
  - destruct (cv_isAutoIncrement c); intros [= <-]; [by rewrite app_nil_r|done].
Qed.

Lemma insert_names_of_columns model cs ns ns' :
  foldM (addFieldNames model) ns cs = Ok ns' -> ns' = (ns ++ concat (map (column_names model) cs))%list.
Proof.
  revert ns. induction cs as [|c cs IH]; simpl; intros ns H; [injection H as <-; by rewrite app_nil_r|].
  apply bind_Ok_iff in H as (t & ->%addFieldNames_appends & ->%IH). by rewrite <- app_assoc.
Qed.

Lemma related_binds column cs s s' :
  foldM (bind_related (bind b) within serialized column) s cs = Ok s' ->
  binds (map (fun r => cv_name column +:+ "_" +:+ cv_name r) (List.filter cv_isPrimaryKey cs)) s s'.
Proof.
  intros H. assert (Hns : forall r t t', bind_related (bind b) within serialized column t r = Ok t' ->
    binds (if cv_isPrimaryKey r then [related_name column r] else []) t t').
  { intros r t t'. unfold bind_related. destruct (cv_isPrimaryKey r); simpl; [|intros [= <-]; apply binds_nil].
    intros (type & _ & Ht)%bind_Ok_iff. by apply bind_column_binds in Ht. }
  eapply (binds_fold _ (fun r => if cv_isPrimaryKey r then [related_name column r] else [])) in H; [|eauto].
  replace (map _ _) with (concat (map (fun r => if cv_isPrimaryKey r then [related_name column r] else []) cs)); [done|].
  clear. induction cs as [|r cs IH]; simpl; [done|]. rewrite IH. by destruct (cv_isPrimaryKey r).
Qed.

Lemma column_binds model column s s' :
  (cv_kind column = ToOne -> cv_isAutoIncrement column = false) ->
  bind_model_column (bind b) within serialized model s column = Ok s' -> binds (column_names model column) s s'.
Proof.
  intros Hauto. unfold bind_model_column, column_names, addFieldNames. case_bool_decide as Hk.
  - rewrite Hauto by done. intros (related & Hr & H)%bind_Ok_iff.
    destruct (arrow (resolveColumnTarget model column)) as [m|]; [|done]. injection Hr as <-. simpl.
    apply related_binds in H. exact H.
  - destruct (cv_isAutoIncrement column); [intros [= <-]; apply binds_nil|].
    intros (type & _ & H)%bind_Ok_iff. by apply bind_column_binds in H.
Qed.
End parameters.

(** C31: what is bound of a model are the values of exactly the names that its INSERT
    lists: as many as it counts, each of them bound and no other name touched. *)
Theorem model_parameters_are_inserted b within serialized target model m bound vs n :
  arrow model = Some m ->
  (forall c, c ∈ mv_columns m -> cv_kind c = ToOne -> cv_isAutoIncrement c = false) ->
  getFieldsNames model m = Ok bound -> bindModelParameters (bind b) within serialized target model = Ok (vs, n) ->
  binds bound (target, 0%N) (vs, n).
Proof.
  intros Hm Hauto Hbound%insert_names_of_columns. unfold bindModelParameters, deref. rewrite Hm. simpl.
  intros H. eapply (binds_fold _ (column_names model)) in H; [|intros; eapply column_binds; eauto].
  simpl in Hbound. by subst bound.
Qed.
