(* ===== verification/LinkLocks.v ===== *)
(** LinkLocks: the named locks under which MySQL and MariaDB link related rows --
    [SessionBackend], [LinkLockScope] and [executeInsertIfAbsent] of
    src/database/mysql_family/MysqlFamily.cpp.

    The server holds named locks for a connection; it gives them up when they are released
    or when the connection ends.  Every call of the client library may be refused, with or
    without the loss of the connection: the class [LinkServer]. *)
From S2P Require Import Prelude Foundation Sha256 Values Codec Schema Models Dialect TargetValues QueryValue Query Emitter Capabilities Commands Binding Database Connection.
Local Open Scope string_scope.

(** What the n-th call is answered. *)
Class LinkServer := {
  refused_with : nat -> option (soci_error * bool);
  names_read : nat -> list string;
  number_read : nat -> option Z
}.

(** A statement on a junction table: the lock it should run under, the locks that the
    server held, and whether the connection was there. *)
Record Ran := MkRan { ran_under : string; ran_held : list string; ran_alive : bool }.

(** The members of [SessionBackend] -- [handle_open] says that its native connection is
    there --, what the server has of the connection, and the statements that ran. *)
Record LinkSession := MkLinkSession {
  handle_open : bool;
  transactionActive_ : bool;
  linkLocks : list string;
  alive : bool;
  held : list string;
  asked : nat;
  ran : list Ran
}.

Definition L (A : Type) : Type := LinkSession -> result thrown A * LinkSession.

#[export] Instance L_ret : MRet L := fun A a s => (Ok a, s).
#[export] Instance L_bind : MBind L := fun A B k m s =>
  match m s with (Ok a, s) => k a s | (Err e, s) => (Err e, s) end.

Definition raise {A} (e : thrown) : L A := fun s => (Err e, s).
Definition of_res {A} (r : res A) : L A := match r with Ok a => mret a | Err e => raise (Thrown e) end.

(** The handler does not throw and the exception goes on. *)
Definition on_error {A} (body : L A) (handler : L unit) : L A := fun s =>
  match body s with (Err e, s) => (Err e, (handler s).2) | r => r end.

(** The destructors run however the body ends. *)
Definition scoped {A} (body : L A) (destructors : L unit) : L A := fun s =>
  let (r, s) := body s in (r, (destructors s).2).

Definition modify (f : LinkSession -> LinkSession) : L unit := fun s => (Ok tt, f s).
Definition get_link : L LinkSession := fun s => (Ok s, s).

Definition set_handle (b : bool) (s : LinkSession) : LinkSession :=
  MkLinkSession b (transactionActive_ s) (linkLocks s) (alive s) (held s) (asked s) (ran s).
Definition set_active (b : bool) (s : LinkSession) : LinkSession :=
  MkLinkSession (handle_open s) b (linkLocks s) (alive s) (held s) (asked s) (ran s).
Definition set_locks (l : list string) (s : LinkSession) : LinkSession :=
  MkLinkSession (handle_open s) (transactionActive_ s) l (alive s) (held s) (asked s) (ran s).
Definition set_held (l : list string) (s : LinkSession) : LinkSession :=
  MkLinkSession (handle_open s) (transactionActive_ s) (linkLocks s) (alive s) l (asked s) (ran s).

(** The connection ends: the server releases its locks. *)
Definition lose (s : LinkSession) : LinkSession :=
  MkLinkSession (handle_open s) (transactionActive_ s) (linkLocks s) false [] (asked s) (ran s).

Section backend.
Context `{LinkServer}.

(** A call: it is answered with [answer] and changes the server by [effect]. *)
Definition ask {A} (answer : nat -> A) (effect : A -> LinkSession -> LinkSession) : L A := fun s =>
  let n := asked s in
  let s := MkLinkSession (handle_open s) (transactionActive_ s) (linkLocks s) (alive s) (held s) (S n) (ran s) in
  if alive s && handle_open s then
    match refused_with n with
    | Some (e, lost) => (Err (Soci e), if lost then lose s else s)
    | None => (Ok (answer n), effect (answer n) s)
    end
  else (Err (Soci (MkSociError connection_error NoNative)), s).

(** ** [SessionBackend] *)
Definition clean_up : L unit :=
  s ← get_link;
  (if handle_open s then modify lose ;; modify (set_handle false) else mret tt) ;;
  modify (set_active false) ;;
  modify (set_locks []).

Definition ownsLinkLock (name : string) : L bool := s ← get_link; mret (bool_decide (name ∈ linkLocks s)).
Definition rememberLinkLock (name : string) : L unit := modify (fun s => set_locks (linkLocks s ++ [name])%list s).
Definition transactionActive : L bool := s ← get_link; mret (transactionActive_ s).

(** The server releases one of the locks of a name. *)
Fixpoint release_one (name : string) (l : list string) : list string :=
  match l with
  | [] => []
  | x :: l => if bool_decide (x = name) then l else x :: release_one name l
  end.

(** [SELECT RELEASE_LOCK]: whether it answers 1. *)
Definition release_query (name : string) : L bool :=
  n ← ask number_read (fun n s => if bool_decide (n = Some 1%Z) then set_held (release_one name (held s)) s else s);
  mret (bool_decide (n = Some 1%Z)).

(** What fails closes the connection; nothing is thrown. *)
Definition releaseLinkLock (name : string) : L unit := fun s =>
  let forget : L unit := modify (fun s => set_locks (filter (fun x => x <> name) (linkLocks s)) s) in
  if handle_open s then
    match release_query name s with
    | (Ok true, s) => forget s
    | (_, s) => clean_up s
    end
  else forget s.

(** The loop of [finishLinkLocks]: from the last lock on. *)
Fixpoint release_all (fuel : nat) : L unit := fun s =>
  match fuel, last (linkLocks s) with
  | S fuel, Some name => release_all fuel (releaseLinkLock name s).2
  | _, _ => (Ok tt, s)
  end.

Definition finishLinkLocks : L unit := fun s => release_all (length (linkLocks s)) (set_active false s).

Definition native_call : L unit := ask (fun _ => tt) (fun _ s => s).

Definition begin_ : L unit := native_call ;; modify (set_active true).

Definition commit : L unit := native_call ;; finishLinkLocks.

Definition rollback : L unit :=
  s ← get_link;
  (if handle_open s then on_error native_call clean_up else mret tt) ;;
  finishLinkLocks.

(** ** [executeInsertIfAbsent] *)
Definition link_lock (migrationTable table : string) : string :=
  "orm:l:" +:+ take_str 58 (sha256 (migrationTable +:+ ":" +:+ table)).

Definition LinkLockError (native : option Z) : thrown := Soci (MkSociError unknown_transaction_state (LinkLock native)).

(** [GET_LOCK(name, 10)]: 1, 0 or NULL; the server holds the lock when it answers 1. *)
Definition acquire (name : string) : L unit := fun s =>
  match ask number_read (fun n s => if bool_decide (n = Some 1%Z) then set_held (name :: held s) s else s) s with
  | (Ok n, s) => if bool_decide (n = Some 1%Z) then rememberLinkLock name s else (Err (LinkLockError None), s)
  | (Err (Soci (MkSociError category (MysqlNumber number))), s) =>
      (Err (if match category with connection_error => true | _ => false end then Soci (MkSociError category (MysqlNumber number))
            else LinkLockError (Some number)), s)
  | (Err e, s) => (Err e, s)
  end.

(** [LinkLockScope]: outside a transaction the lock is released at its end. *)
Definition LinkLockScope {A} (name : string) (body : L A) : L A :=
  active ← transactionActive;
  scoped body (if (active : bool) then mret tt else releaseLinkLock name).

Definition conflict_term (spec : InsertIfAbsentSpec) (predicate column : string) : res string :=
  found ← or_throw (list_find (fun c => c = column) (insert_columns spec))
            (InvalidArgument "Invalid insert-if-absent conflict column");
  quoted ← quoteStandardIdentifier column MySQLFamily;
  value ← or_throw (valueExpressions spec !! found.1) Undefined;
  Ok (predicate +:+ (if bool_decide (predicate = "") then "" else " AND ") +:+ quoted +:+ "=" +:+ value).

Definition bind_parameters (b : BackendType) (statement : Statement) : res (gmap string SociValue) :=
  foldM (fun vs p => v ← getBoundValue p; bind b vs (parameter_name p) v) ∅ (parameters statement).

(** A statement on the junction table, which is recorded. *)
Definition run_under {A} (lock : string) (answer : nat -> A) : L A :=
  modify (fun s => MkLinkSession (handle_open s) (transactionActive_ s) (linkLocks s) (alive s) (held s) (asked s)
                     (MkRan lock (held s) (alive s && handle_open s) :: ran s)) ;;
  ask answer (fun _ s => s).

(** [SELECT DATABASE()]: no name when it is NULL. *)
Definition migrationTable (b : BackendType) : L string :=
  database ← ask names_read (fun _ s => s);
  match head database with
  | Some name =>
      if bool_decide (name = "") then raise (Thrown (MigrationError InvalidHistory "Migrations require a selected database" 0 b None))
      else q ← of_res (quoteStandardIdentifier name MySQLFamily); mret (q +:+ ".`_orm_migrations`")
  | None => raise (Thrown (MigrationError InvalidHistory "Migrations require a selected database" 0 b None))
  end.

Definition mysql_executeInsertIfAbsent (b : BackendType) (statement : Statement) (spec : InsertIfAbsentSpec) : L N :=
  of_res (bind_parameters b statement) ;;
  primaryKey ← ask names_read (fun _ s => s);
  of_res (throw_if (negb (bool_decide (primaryKey ≡ₚ conflictColumns spec))
                    || negb (length (insert_columns spec) =? length (valueExpressions spec))%nat)
            (DatabaseError UnsupportedFeature b "link relation" "The junction primary key does not match its relation mapping" None)) ;;
  table ← migrationTable b;
  let lock := link_lock table (insert_table spec) in
  owned ← ownsLinkLock lock;
  (if (owned : bool) then mret tt else acquire lock) ;;
  LinkLockScope lock
    (predicate ← of_res (foldM (conflict_term spec) "" (conflictColumns spec));
     of_res (quoteStandardIdentifier (insert_table spec) MySQLFamily) ;;
     existing ← run_under lock number_read;
     if bool_decide (existing = Some 1%Z) then mret 0%N
     else
       of_res (bind_parameters b statement) ;;
       affected ← run_under lock number_read;
       match affected with
       | Some n => if (n <? 0)%Z then raise (Thrown (RuntimeError "MySQL-family affected-row count is unavailable")) else mret (Z.to_N n)
       | None => raise (Thrown (RuntimeError "MySQL-family affected-row count is unavailable"))
       end).

(** ** The life of a session *)
Inductive link_operation :=
| Begin
| Commit
| Rollback
| Close
| Insert (b : BackendType) (statement : Statement) (spec : InsertIfAbsentSpec).

Definition run_link (o : link_operation) (s : LinkSession) : LinkSession :=
  match o with
  | Begin => (begin_ s).2
  | Commit => (commit s).2
  | Rollback => (rollback s).2
  | Close => (clean_up s).2
  | Insert b statement spec => (mysql_executeInsertIfAbsent b statement spec s).2
  end.

Definition new_session : LinkSession := MkLinkSession true false [] true [] 0 [].

(** The session after some operations, whatever they ended with. *)
Definition run_links (os : list link_operation) : LinkSession := fold_left (fun s o => run_link o s) os new_session.
End backend.

(** ** Invariants *)

(** The server holds exactly the locks that are remembered, or none when the connection
    has ended; and no statement on a junction table ran without its lock. *)
Record consistent (s : LinkSession) : Prop := {
  locks_distinct : NoDup (linkLocks s);
  server_agrees : if alive s && handle_open s then held s ≡ₚ linkLocks s else held s = [];
  all_guarded : Forall (fun r => ran_under r ∈ ran_held r \/ ran_alive r = false) (ran s)
}.

Definition keeps {A} (I : LinkSession -> Prop) (m : L A) : Prop := forall s, I s -> I (m s).2.

(** Outside a transaction no lock is remembered. *)
Definition settled (s : LinkSession) : Prop := transactionActive_ s = false -> linkLocks s = [].

(** A consistent session with the given locks. *)
Definition steady (locks : list string) (active : bool) (s : LinkSession) : Prop :=
  consistent s /\ linkLocks s = locks /\ transactionActive_ s = active.

Section invariants.
Context `{LinkServer}.

Lemma link_keeps_ret {A} I (a : A) : keeps I (mret a).
Proof. by intros s. Qed.
Lemma keeps_raise {A} I (e : thrown) : keeps (A := A) I (raise e).
Proof. by intros s. Qed.
Lemma keeps_of_res {A} I (r : res A) : keeps I (of_res r).
Proof. by destruct r; intros s. Qed.
Lemma link_keeps_bind {A B} I (m : L A) (k : A -> L B) : keeps I m -> (forall a, keeps I (k a)) -> keeps I (m ≫= k).
Proof.
  intros Hm Hk s Hs. specialize (Hm s Hs). unfold mbind, L_bind. destruct (m s) as [[a|e] s']; [by apply Hk|done].
Qed.

Lemma lost_consistent s : consistent s -> consistent (lose s).
Proof. intros [Hn _ Hg]. by constructor. Qed.

(** The state in which the n-th call is made. *)
Definition ticked (s : LinkSession) : LinkSession :=
  MkLinkSession (handle_open s) (transactionActive_ s) (linkLocks s) (alive s) (held s) (S (asked s)) (ran s).
Lemma ticked_consistent s : consistent s -> consistent (ticked s).
Proof. by intros [Hn Hh Hg]; constructor. Qed.

(** A call changes the number of the calls only, loses the connection, or has its effect. *)
Lemma ask_spec {A} (answer : nat -> A) effect s :
  (ask answer effect s).2 = ticked s /\ (exists e, (ask answer effect s).1 = Err e) \/
  (ask answer effect s).2 = lose (ticked s) /\ (exists e, (ask answer effect s).1 = Err e) \/
  alive s && handle_open s = true /\
    ask answer effect s = (Ok (answer (asked s)), effect (answer (asked s)) (ticked s)).
Proof.
  unfold ask; simpl. destruct (alive s && handle_open s); [|left; split; [reflexivity|by eexists]].
  destruct (refused_with (asked s)) as [[e [|]]|]; [right; left|left|right; right]; (split; [reflexivity|try by eexists]); reflexivity.
Qed.

Lemma ask_keeps {A} (answer : nat -> A) locks active : keeps (steady locks active) (ask answer (fun _ s => s)).
Proof.
  intros s (Hs & <- & <-). apply ticked_consistent in Hs. destruct (ask_spec answer (fun _ s => s) s) as [[-> _]|[[-> _]|[_ ->]]]; [done| |done].
  split; [by apply lost_consistent|done].
Qed.
Lemma ask_consistent {A} (answer : nat -> A) : keeps consistent (ask answer (fun _ s => s)).
Proof. intros s Hs. by destruct (ask_keeps answer (linkLocks s) (transactionActive_ s) s) as (? & _). Qed.

Lemma clean_up_clears s :
  linkLocks (clean_up s).2 = [] /\ transactionActive_ (clean_up s).2 = false /\ (handle_open s = true -> held (clean_up s).2 = []) /\
  (consistent s -> consistent (clean_up s).2 /\ held (clean_up s).2 = []).
Proof.
  unfold clean_up, mbind, L_bind, get_link. destruct (handle_open s) eqn:Ho; simpl; (split; [done|]); (split; [done|]); (split; [done|]);
    intros [Hn Hh Hg]; rewrite Ho, ?andb_false_r, ?andb_true_r in Hh.
  - split; [constructor; simpl; [constructor|done|done]|done].
  - split; [constructor; simpl; [constructor|by rewrite Ho, andb_false_r|done]|done].
Qed.

Lemma release_one_filter name l : NoDup l -> release_one name l = filter (fun x => x <> name) l.
Proof.
  induction 1 as [|x l Hx Hl IH]; simpl; [done|]. rewrite filter_cons. case_bool_decide as Heq.
  - subst x. rewrite decide_False by naive_solver. symmetry. clear -Hx. induction l as [|y l IH]; [done|].
    rewrite filter_cons, decide_True by set_solver. f_equal. apply IH. set_solver.
  - rewrite decide_True by done. by rewrite IH.
Qed.

Lemma filter_consistent name s :
  consistent s -> alive s && handle_open s = false ->
  consistent (set_locks (filter (fun x => x <> name) (linkLocks s)) s).
Proof. intros [Hn Hh Hg] Ha. rewrite Ha in Hh. constructor; simpl; [by apply NoDup_filter|by rewrite Ha|done]. Qed.

(** Releasing: consistent, without the lock, and never with more. *)
Lemma release_spec name s :
  consistent s ->
  consistent (releaseLinkLock name s).2 /\
  (linkLocks (releaseLinkLock name s).2 = filter (fun x => x <> name) (linkLocks s) \/ linkLocks (releaseLinkLock name s).2 = []) /\
  (transactionActive_ s = false -> transactionActive_ (releaseLinkLock name s).2 = false).
Proof.
  intros Hs. unfold releaseLinkLock. destruct (handle_open s) eqn:Ho; cycle 1.
  { cbn [modify snd]. split; [apply filter_consistent; [done|by rewrite Ho, andb_false_r]|]. split; [by left|done]. }
  assert (Hclean : forall s', consistent s' -> consistent (clean_up s').2 /\ (linkLocks (clean_up s').2 = filter (fun x => x <> name) (linkLocks s) \/
            linkLocks (clean_up s').2 = []) /\ (transactionActive_ s = false -> transactionActive_ (clean_up s').2 = false)).
  { intros s' Hs'. destruct (clean_up_clears s') as (Hl & Ht & _ & Hc). split; [by apply Hc|]. split; [by right|done]. }
  unfold release_query, mbind, L_bind. pose proof (ticked_consistent _ Hs) as Hk.
  destruct (ask_spec number_read (fun n s => if bool_decide (n = Some 1%Z) then set_held (release_one name (held s)) s else s) s)
    as [[Hq [e He]]|[[Hq [e He]]|[Ha ->]]].
  1-2: destruct (ask _ _ s) as [r s']; simpl in Hq, He; subst r s'; apply Hclean; try done; by apply lost_consistent.
  case_bool_decide as Hone; [|by apply Hclean]. simpl.
  split; [|split; [by left|done]]. destruct Hs as [Hn Hh Hg]. rewrite Ha in Hh.
  constructor; simpl; [by apply NoDup_filter| |done]. rewrite Ha. rewrite release_one_filter by (by rewrite Hh). by rewrite Hh.
Qed.

Lemma filter_last_length name (l : list string) : last l = Some name -> (length (filter (fun x => x <> name) l) < length l)%nat.
Proof.
  intros [k ->]%last_Some. rewrite filter_app, filter_cons, decide_False by naive_solver. rewrite filter_nil, app_nil_r, length_app.
  pose proof (length_filter (fun x => x <> name) k). simpl. lia.
Qed.

(** The loop ends with no lock. *)
Lemma release_all_clears fuel s :
  consistent s -> transactionActive_ s = false -> (length (linkLocks s) <= fuel)%nat ->
  let s' := (release_all fuel s).2 in
  consistent s' /\ linkLocks s' = [] /\ transactionActive_ s' = false /\ (release_all fuel s).1 = Ok tt.
Proof.
  revert s. induction fuel as [|fuel IH]; intros s Hs Ht Hlen; cbn [release_all]; cbv zeta.
  { destruct (linkLocks s) eqn:Hl; [done|]. simpl in Hlen. lia. }
  destruct (last (linkLocks s)) as [name|] eqn:Hlast; [|by apply last_None in Hlast].
  destruct (release_spec name s Hs) as (Hc & Hl & Ha). apply IH; [done|by apply Ha|].
  apply filter_last_length in Hlast. destruct Hl as [-> | ->]; simpl; lia.
Qed.

Lemma finish_clears s :
  consistent s ->
  let s' := (finishLinkLocks s).2 in
  consistent s' /\ linkLocks s' = [] /\ transactionActive_ s' = false /\ (finishLinkLocks s).1 = Ok tt.
Proof. intros [Hn Hh Hg]. unfold finishLinkLocks. by apply release_all_clears. Qed.

Lemma cleared_held s : consistent s -> linkLocks s = [] -> held s = [].
Proof. intros [Hn Hh Hg] Hl. destruct (alive s && handle_open s); [|done]. rewrite Hl in Hh. by apply Permutation_nil_r in Hh. Qed.

(** ** Every operation *)
Definition sound (s : LinkSession) : Prop := consistent s /\ settled s.

Lemma steady_sound locks active s : (active = false -> locks = []) -> steady locks active s -> sound s.
Proof. intros Hl (Hs & <- & <-). by split. Qed.
Lemma sound_steady s : sound s -> steady (linkLocks s) (transactionActive_ s) s.
Proof. by intros [Hs _]. Qed.
Lemma sound_weaken s : sound s -> forall s', steady (linkLocks s) (transactionActive_ s) s' -> sound s'.
Proof. intros [_ Hs] s'. by apply steady_sound. Qed.
Lemma free_sound s : consistent s -> linkLocks s = [] -> sound s.
Proof. intros Hs Hl. split; [done|by intros ?]. Qed.
Lemma finish_sound s : consistent s -> sound (finishLinkLocks s).2.
Proof. intros Hs. destruct (finish_clears s Hs) as (Hc & Hl & _). by apply free_sound. Qed.
Lemma clean_up_sound s : consistent s -> sound (clean_up s).2.
Proof. intros Hs. destruct (clean_up_clears s) as (Hl & _ & _ & Hc). apply free_sound; [by apply Hc|done]. Qed.

Lemma leads_bind {A B} (I J : LinkSession -> Prop) (m : L A) (k : A -> L B) :
  keeps I m -> (forall s, I s -> J s) -> (forall a s, I s -> J (k a s).2) -> forall s, I s -> J ((m ≫= k) s).2.
Proof.
  intros Hm HJ Hk s Hs. specialize (Hm s Hs). unfold mbind, L_bind. destruct (m s) as [[a|e] s']; [by apply Hk|by apply HJ].
Qed.

Lemma native_call_keeps locks active : keeps (steady locks active) native_call.
Proof. apply ask_keeps. Qed.

Lemma link_begin_sound : keeps sound begin_.
Proof.
  intros s Hs. apply (leads_bind (steady (linkLocks s) (transactionActive_ s)) sound);
    [apply native_call_keeps|by apply sound_weaken| |by apply sound_steady].
  intros ? s' ([Hn Hh Hg] & _). by split; [constructor|].
Qed.

Lemma link_commit_sound : keeps sound commit.
Proof.
  intros s Hs. apply (leads_bind (steady (linkLocks s) (transactionActive_ s)) sound);
    [apply native_call_keeps|by apply sound_weaken| |by apply sound_steady].
  intros ? s' (Hc & _). by apply finish_sound.
Qed.

(** A rollback ends without a lock, whether or not the server takes it. *)
Lemma rollback_frees s :
  consistent s -> consistent (rollback s).2 /\ linkLocks (rollback s).2 = [] /\ transactionActive_ (rollback s).2 = false.
Proof.
  intros Hs. assert (Hf : forall s', consistent s' -> consistent (finishLinkLocks s').2 /\ linkLocks (finishLinkLocks s').2 = [] /\
    transactionActive_ (finishLinkLocks s').2 = false) by (intros s' Hs'; destruct (finish_clears s' Hs') as (? & ? & ? & _); auto).
  unfold rollback, mbind, L_bind, get_link, on_error. destruct (handle_open s); [|by apply Hf].
  pose proof (ask_consistent (fun _ => tt) s Hs) as Hn. fold native_call in Hn. destruct (native_call s) as [[a|e] s']; [by apply Hf|].
  destruct (clean_up_clears s') as (Hl & Ht & _ & Hc). destruct (clean_up s') as [r s'']. split; [by apply Hc|done].
Qed.

(** Acquiring: the server holds what is remembered, or nothing has changed. *)
Lemma acquire_spec name locks active s :
  steady locks active s -> name ∉ locks ->
  match acquire name s with
  | (Ok _, s') => steady (locks ++ [name])%list active s'
  | (Err _, s') => steady locks active s'
  end.
Proof.
  intros Hs Hnew. unfold acquire.
  set (effect := fun n s => if bool_decide (n = Some 1%Z) then set_held (name :: held s) s else s).
  assert (Ht : steady locks active (ticked s) /\ steady locks active (lose (ticked s))).
  { destruct Hs as (Hs & <- & <-). apply ticked_consistent in Hs. split; [done|]. split; [by apply lost_consistent|done]. }
  destruct (ask_spec number_read effect s) as [[Hq [e He]]|[[Hq [e He]]|[Ha ->]]].
  1-2: destruct (ask _ _ s) as [r s']; simpl in Hq, He; subst r s'; repeat case_match; simplify_eq; apply Ht.
  unfold effect. case_bool_decide; [|by apply Ht]. destruct Ht as [([Hn Hh Hg] & <- & <-) _]. simpl in *. rewrite Ha in Hh.
  split; [|done]. constructor; simpl; [|rewrite Ha|done].
  - apply NoDup_app. split; [done|]. split; [set_solver|apply NoDup_singleton].
  - rewrite Hh. by rewrite Permutation_app_comm.
Qed.

(** A statement under a lock that is remembered is guarded. *)
Lemma run_under_keeps {A} lock (answer : nat -> A) locks active : lock ∈ locks -> keeps (steady locks active) (run_under lock answer).
Proof.
  intros Hlock s ([Hn Hh Hg] & <- & <-). unfold run_under, mbind, L_bind, modify. apply ask_keeps.
  split; [|done]. constructor; simpl; [done|done|]. constructor; [|done]. simpl.
  destruct (alive s && handle_open s); [left; by rewrite Hh|by right].
Qed.

Lemma scope_sound {A} lock (body : L A) locks active :
  (active = false -> locks = [lock]) -> keeps (steady locks active) body ->
  forall s, steady locks active s -> sound (LinkLockScope lock body s).2.
Proof.
  intros Hlocks Hbody s Hs. specialize (Hbody s Hs). destruct Hs as (_ & _ & Ha).
  unfold LinkLockScope, transactionActive, get_link, mbind, L_bind, mret, L_ret, scoped. rewrite Ha.
  destruct (body s) as [r s'], active; simpl in *; [by apply (steady_sound locks true)|].
  destruct Hbody as (Hc & Hl & _). destruct (release_spec lock s' Hc) as (Hc' & Hr & _).
  apply free_sound; [done|]. destruct Hr as [-> | ->]; [|done]. rewrite Hl, Hlocks by done.
  by rewrite filter_cons, decide_False by naive_solver.
Qed.

Lemma migrationTable_keeps b locks active : keeps (steady locks active) (migrationTable b).
Proof.
  apply link_keeps_bind; [apply ask_keeps|]. intros [|name]; simpl; [apply keeps_raise|].
  case_bool_decide; [apply keeps_raise|]. apply link_keeps_bind; [apply keeps_of_res|intros ?; apply link_keeps_ret].
Qed.

Lemma insert_from b statement spec locks active :
  (active = false -> locks = []) ->
  forall s, steady locks active s -> sound (mysql_executeInsertIfAbsent b statement spec s).2.
Proof.
  intros Hfree. assert (Hweak : forall s, steady locks active s -> sound s) by (intros s'; by apply steady_sound).
  unfold mysql_executeInsertIfAbsent.
  apply leads_bind; [apply keeps_of_res|done|intros ?]. apply leads_bind; [apply ask_keeps|done|intros primaryKey].
  apply leads_bind; [apply keeps_of_res|done|intros ?]. apply leads_bind; [apply migrationTable_keeps|done|intros table].
  intros s Hs. set (lock := link_lock _ _). pose proof Hs as (_ & Hl & _).
  unfold ownsLinkLock, get_link. unfold mbind at 1, L_bind at 1. simpl. rewrite Hl.
  set (body := fun _ : unit => LinkLockScope lock _).
  assert (Hbody : forall locks', lock ∈ locks' -> (active = false -> locks' = [lock]) ->
    forall a s', steady locks' active s' -> sound (body a s').2).
  { intros locks' Hin Hone ?. apply scope_sound; [done|].
    apply link_keeps_bind; [apply keeps_of_res|intros ?]. apply link_keeps_bind; [apply keeps_of_res|intros ?].
    apply link_keeps_bind; [by apply run_under_keeps|intros ?]. case_bool_decide; [apply link_keeps_ret|].
    apply link_keeps_bind; [apply keeps_of_res|intros ?]. apply link_keeps_bind; [by apply run_under_keeps|intros [n|]]; [|apply keeps_raise].
    destruct (n <? 0)%Z; [apply keeps_raise|apply link_keeps_ret]. }
  case_bool_decide as Hown; unfold mbind, L_bind; simpl.
  - apply (Hbody locks); [done| |done]. intros Ha. rewrite Hfree in Hown by done. set_solver.
  - pose proof (acquire_spec lock locks active s Hs Hown) as Hacq. destruct (acquire lock s) as [[?|e] s']; [|by apply Hweak].
    apply (Hbody (locks ++ [lock])%list); [set_solver| |done]. intros Ha. by rewrite Hfree.
Qed.

Lemma run_link_sound o s : sound s -> sound (run_link o s).
Proof.
  intros Hs. destruct o; simpl.
  - by apply link_begin_sound.
  - by apply link_commit_sound.
  - destruct (rollback_frees s) as (Hc & Hl & _); [apply Hs|by apply free_sound].
  - apply clean_up_sound, Hs.
  - apply insert_from with (linkLocks s) (transactionActive_ s); [apply Hs|by apply sound_steady].
Qed.

Lemma new_session_sound : sound new_session.
Proof. split; [|done]. constructor; simpl; [constructor|done|constructor]. Qed.

Lemma run_links_sound os : sound (run_links os).
Proof.
  unfold run_links. generalize new_session_sound. generalize new_session.
  induction os as [|o os IH]; intros s Hs; [done|]. by apply IH, run_link_sound.
Qed.

(** C22: Linking is serialised, whatever the server refuses and wherever the connection is
    lost: every statement that [executeInsertIfAbsent] sends to a junction table -- the
    probe and the INSERT -- runs while the server holds the lock of that table for the
    connection (or runs on no connection at all, and fails); what the session remembers is
    what the server holds; and outside a transaction it holds nothing, so that no other
    session waits for a lock that nobody will release. *)
Theorem links_run_under_their_lock (os : list link_operation) :
  let s := run_links os in
  Forall (fun r => ran_under r ∈ ran_held r \/ ran_alive r = false) (ran s) /\
  NoDup (linkLocks s) /\
  (if alive s && handle_open s then held s ≡ₚ linkLocks s else held s = []) /\
  (transactionActive_ s = false -> held s = []).
Proof.
  destruct (run_links_sound os) as [Hc Hl]. split; [apply Hc|]. split; [apply Hc|]. split; [apply Hc|].
  intros Ht. apply cleared_held; [done|by apply Hl].
Qed.

(** A transaction always gives its locks back: a rollback -- taken by the server,
    refused or cut off with the connection -- and a commit that returns leave the session
    without a lock and outside a transaction, on the server too, and so does the end of a
    connection; the loop that releases the locks one by one, or closes the connection,
    ends.  A commit that throws keeps the locks of its transaction for the rollback. *)
Theorem transactions_end_without_locks (os : list link_operation) :
  let s := run_links os in
  let free (s : LinkSession) := linkLocks s = [] /\ held s = [] /\ transactionActive_ s = false in
  free (rollback s).2 /\ free (clean_up s).2 /\
  match commit s with
  | (Ok _, s') => free s'
  | (Err _, s') => linkLocks s' = linkLocks s /\ transactionActive_ s' = transactionActive_ s
  end.
Proof.
  cbv zeta. destruct (run_links_sound os) as [Hc _]. split.
  { destruct (rollback_frees _ Hc) as (Hc' & Hl & Ht). split; [done|]. split; [by apply cleared_held|done]. }
  split. { destruct (clean_up_clears (run_links os)) as (Hl & Ht & _ & Hh). split; [done|]. split; [by apply Hh|done]. }
  unfold commit, mbind, L_bind. pose proof (native_call_keeps (linkLocks (run_links os)) (transactionActive_ (run_links os)) _ (conj Hc (conj eq_refl eq_refl))) as Hn.
  destruct (native_call _) as [[a|e] s']; [|by destruct Hn as (_ & ? & ?)]. destruct Hn as (Hc' & _).
  destruct (finish_clears s' Hc') as (Hc'' & Hl & Ht & Hr). destruct (finishLinkLocks s') as [r s'']. simpl in *. subst r.
  split; [done|]. split; [by apply cleared_held|done].
Qed.
End invariants.
