(* ===== verification/FileSystem.v ===== *)
(** FileSystem: what the migration project uses of [std::filesystem] and of file
    streams -- a directory tree, the calls that read and change it, any of which may
    fail -- and the monad its operations run in.

    A path is the list of its components below the project's directory, which is [[]].
    A symbolic link is an entry of its own; the code refuses every link it meets, so
    that what lies behind one is never looked at. *)
From S2P Require Import Prelude Foundation Chrono Values Codec Schema Sha256 Models PhysicalSql Snapshot SchemaJson.
Local Open Scope string_scope.

(** ** Disks *)
Inductive Entry := File (content : string) | Directory | Link | Special.

#[export] Instance Entry_eq_dec : EqDecision Entry.
Proof. solve_decision. Defined.

Abbreviation path := (list string).
Abbreviation disk := (@gmap (list string) (@list_eq_dec string String.eq_dec)
                        (@list_countable string String.eq_dec String.countable) Entry).
Implicit Types (d : disk) (p q : list string).

(** The names in a directory. *)
Definition child (p q : path) : option string :=
  match last q with Some name => if bool_decide (q = p ++ [name])%list then Some name else None | None => None end.

Definition children d p : list string := omap (child p) (map fst (map_to_list d)).

(** [q] is [p] or below it. *)
Definition below (p q : path) : bool := bool_decide (take (length p) q = p).

Definition parent p : path := take (length p - 1) p.

Definition is_directory_at d p : bool := bool_decide (d !! p = Some Directory).

Definition without d p : disk := filter (fun kv => below p kv.1 = false) d.

(** A renamed file or directory takes what is below it along. *)
Definition relocate (source destination q : path) : path :=
  if below source q then (destination ++ drop (length source) q)%list else q.

Definition moved d (source destination : path) : disk := kmap (relocate source destination) (without d destination).

(** [rename] replaces a file by a file and an empty directory by a directory. *)
Definition can_rename d (source destination : path) : bool :=
  match d !! source, d !! destination with
  | None, _ => false
  | Some _, None => is_directory_at d (parent destination) && negb (below source destination)
  | Some Directory, Some Directory => bool_decide (children d destination = []) && negb (below source destination)
  | Some Directory, Some _ | Some _, Some Directory => false
  | Some _, Some _ => true
  end.

(** ** Calls *)

(** A call takes place, fails without effect -- [denied]: for want of a permission --
    or fails after a part of it. *)
Inductive outcome := Succeeds | Fails (denied : bool) | FailsAfter (written : string) (kept : path -> bool).

(** [outcomes] are those of the calls to come; all calls after them succeed. *)
Record Host := MkHost { files : disk; outcomes : list outcome }.

(** [filesystem_error] with its code, [ios_base::failure] and what the code throws. *)
Inductive error := FilesystemError (denied : bool) | IosFailure | Thrown (e : exn).

Definition IO (A : Type) : Type := Host -> result error A * Host.

#[export] Instance IO_ret : MRet IO := fun A a h => (Ok a, h).
#[export] Instance IO_bind : MBind IO := fun A B k m h =>
  match m h with (Ok a, h) => k a h | (Err e, h) => (Err e, h) end.
#[export] Instance IO_fmap : FMap IO := fun A B f m => a ← m; mret (f a).

Definition throw {A} (e : error) : IO A := fun h => (Err e, h).
Definition lift {A} (r : res A) : IO A := match r with Ok a => mret a | Err e => throw (Thrown e) end.

(** [failure(message)]. *)
Definition fail_if (c : bool) (message : string) : IO unit := lift (throw_if c (invalidCatalog message)).

Definition catch {A} (body : IO A) (handler : error -> IO A) : IO A := fun h =>
  match body h with (Err e, h) => handler e h | r => r end.

(** A scope: the destructors, which do not throw, run however the body ends. *)
Definition scope {A} (body : IO A) (destructors : IO unit) : IO A := fun h =>
  let (r, h) := body h in (r, (destructors h).2).

Fixpoint foldIO {A S} (f : S -> A -> IO S) (s : S) (l : list A) : IO S :=
  match l with [] => mret s | x :: l => s' ← f s x; foldIO f s' l end.

Fixpoint forIO {A} (l : list A) (f : A -> IO unit) : IO unit :=
  match l with [] => mret tt | x :: l => f x ;; forIO l f end.

(** The outcome of the next call. *)
Definition next : IO outcome := fun h =>
  match outcomes h with
  | [] => (Ok Succeeds, h)
  | o :: os => (Ok o, MkHost (files h) os)
  end.

Definition denied (o : outcome) : bool := match o with Fails d => d | _ => false end.

Definition get_files : IO disk := fun h => (Ok (files h), h).
Definition put_files d : IO unit := fun h => (Ok tt, MkHost d (outcomes h)).

(** A call that reads. *)
Definition query {A} (f : disk -> A) : IO A :=
  o ← next;
  match o with
  | Succeeds => f <$> get_files
  | o => throw (FilesystemError (denied o))
  end.

Definition is_symlink p : IO bool := query (fun d => bool_decide (d !! p = Some Link)).
Definition is_directory p : IO bool := query (fun d => is_directory_at d p).
Definition is_regular_file p : IO bool := query (fun d => match d !! p with Some (File _) => true | _ => false end).
Definition exists_ p : IO bool := query (fun d => bool_decide (is_Some (d !! p))).

(** [directory_iterator]: the order of the names is not specified. *)
Class DirectoryOrder := {
  directory_order : list string -> list string;
  directory_order_permutation l : directory_order l ≡ₚ l
}.

Definition directory_iterator `{DirectoryOrder} p : IO (list string) :=
  listed ← query (fun d => if is_directory_at d p then Some (directory_order (children d p)) else None);
  match listed with Some names => mret names | None => throw (FilesystemError false) end.

(** [create_directory]: whether it did. *)
Definition create_directory p : IO bool :=
  o ← next;
  d ← get_files;
  match o with
  | Succeeds =>
      match d !! p with
      | Some Directory => mret false
      | Some _ => throw (FilesystemError false)
      | None => if is_directory_at d (parent p) then put_files (<[p := Directory]> d) ;; mret true else throw (FilesystemError false)
      end
  | o => throw (FilesystemError (denied o))
  end.

(** [create_directories] of the project's directory. *)
Definition create_directories : IO unit :=
  o ← next;
  d ← get_files;
  match o with
  | Succeeds =>
      match d !! [] with
      | Some Directory => mret tt
      | Some _ => throw (FilesystemError false)
      | None => put_files (<[[] := Directory]> d)
      end
  | o => throw (FilesystemError (denied o))
  end.

(** [rename]: it takes place or not. *)
Definition rename (source destination : path) : IO unit :=
  o ← next;
  d ← get_files;
  match o with
  | Succeeds => if can_rename d source destination then put_files (moved d source destination) else throw (FilesystemError false)
  | o => throw (FilesystemError (denied o))
  end.

(** [remove(path, error)] and [remove_all(path, error)]: they throw nothing. *)
Definition remove p : IO unit :=
  o ← next;
  d ← get_files;
  match o with
  | Succeeds => if bool_decide (children d p = []) then put_files (delete p d) else mret tt
  | _ => mret tt
  end.

Definition remove_all p : IO unit :=
  o ← next;
  d ← get_files;
  match o with
  | Succeeds => put_files (without d p)
  | FailsAfter _ kept => put_files (filter (fun kv => below p kv.1 = false \/ kept kv.1 = true) d)
  | _ => mret tt
  end.

(** ** Files *)
Definition createExclusiveDirectory p (code : ErrorCode) (message : string) : IO unit :=
  created ← create_directory p;
  lift (throw_if (negb created) (MigrationError code message 0 Empty None)).

Definition regularFile p : IO unit :=
  regular ← is_symlink p ≫= (fun link : bool => if link then mret false else is_regular_file p);
  fail_if (negb regular) "Migration metadata and SQL must be regular files".

Definition readFile p : IO string :=
  regularFile p ;;
  o ← next;
  d ← get_files;
  match o, d !! p with
  | Succeeds, Some (File content) => mret content
  | _, _ => lift (Err (invalidCatalog "Cannot read migration project file"))
  end.

Definition writable d p : bool :=
  match d !! p with
  | Some (File _) => true
  | Some _ => false
  | None => is_directory_at d (parent p)
  end.

Definition writeFile p (value : string) : IO unit :=
  o ← next;
  d ← get_files;
  if writable d p then
    match o with
    | Succeeds => put_files (<[p := File value]> d)
    | FailsAfter written _ => put_files (<[p := File written]> d) ;; throw IosFailure
    | Fails _ => throw IosFailure
    end
  else throw IosFailure.

(** [publishDirectory].  Windows readers can deny renaming a new tree for a moment. *)
Class Platform := { windows : bool }.

Fixpoint rename_retrying (delays : nat) (source destination : path) : IO unit :=
  catch (rename source destination) (fun e =>
    match delays, e with
    | S delays, FilesystemError true =>
        sourceExists ← catch (exists_ source) (fun _ => mret false);
        destinationExists ← catch (exists_ destination) (fun _ => mret true);
        if sourceExists && negb destinationExists then rename_retrying delays source destination else throw e
    | _, _ => throw e
    end).

Definition publishDirectory `{Platform} (source destination : path) : IO unit :=
  if windows then rename_retrying 4 source destination else rename source destination.

(** [projectOperation]. *)
Definition projectOperation {A} (function : IO A) : IO A :=
  catch function (fun e =>
    match e with
    | Thrown JsonException => lift (Err (invalidCatalog "Invalid migration project metadata"))
    | FilesystemError _ => lift (Err (invalidCatalog "Cannot access migration project files"))
    | IosFailure => lift (Err (invalidCatalog "Cannot write migration project files"))
    | e => throw e
    end).
