(* ===== verification/Disk.v ===== *)
(** Disk: reasoning about directory trees and about the operations on them, whatever
    their calls end with. *)
From S2P Require Import Prelude Foundation SchemaJson FileSystem.
Local Open Scope string_scope.
Implicit Types (d : disk) (p q : list string).

(** ** Paths *)
Section paths.
Lemma below_iff p q : below p q = true <-> exists r, q = (p ++ r)%list.
Proof.
  unfold below. rewrite bool_decide_eq_true. split.
  - intros H. exists (drop (length p) q). rewrite <- H at 1. by rewrite take_drop.
  - intros [r ->]. by rewrite take_app_length.
Qed.

Lemma below_app p r : below p (p ++ r)%list = true.
Proof. apply below_iff. by eexists. Qed.

Lemma below_refl p : below p p = true.
Proof. rewrite <- (app_nil_r p) at 2. apply below_app. Qed.

Lemma below_head x y q : x <> y -> below [x] (y :: q) = false.
Proof. intros Hxy. unfold below. apply bool_decide_eq_false. simpl. congruence. Qed.

Lemma without_lookup d p q : without d p !! q = if below p q then None else d !! q.
Proof.
  unfold without. rewrite map_lookup_filter. destruct (d !! q); simpl; [|by destruct (below p q)].
  destruct (below p q) eqn:Hb; [|by rewrite option_guard_True]. by rewrite option_guard_False by congruence.
Qed.

Lemma kmap_lookup_on (f : path -> path) d q e :
  (forall p1 p2 e1 e2, d !! p1 = Some e1 -> d !! p2 = Some e2 -> f p1 = f p2 -> p1 = p2) ->
  (kmap f d : disk) !! q = Some e <-> exists p, q = f p /\ d !! p = Some e.
Proof.
  intros Hinj. unfold kmap. rewrite <- elem_of_list_to_map.
  - rewrite list_elem_of_fmap. split.
    + intros ([p e'] & [= -> ->] & Hin%elem_of_map_to_list). by exists p.
    + intros (p & -> & Hp%elem_of_map_to_list). by exists (p, e).
  - rewrite <- list_fmap_compose. apply NoDup_fmap_2_strong; [|apply NoDup_map_to_list].
    intros [p1 e1] [p2 e2] H1%elem_of_map_to_list H2%elem_of_map_to_list Heq. simpl in Heq.
    pose proof (Hinj _ _ _ _ H1 H2 Heq) as ->. rewrite H1 in H2. by injection H2 as ->.
Qed.

(** What is where after a rename. *)
Lemma moved_lookup d source destination q :
  below source destination = false -> below destination source = false ->
  moved d source destination !! q =
    if below destination q then d !! (source ++ drop (length destination) q)%list
    else if below source q then None else d !! q.
Proof.
  intros Hsd Hds. assert (Hinj : forall p1 p2 e1 e2, without d destination !! p1 = Some e1 ->
    without d destination !! p2 = Some e2 -> relocate source destination p1 = relocate source destination p2 -> p1 = p2).
  { intros p1 p2 e1 e2. rewrite !without_lookup. unfold relocate.
    destruct (below destination p1) eqn:Hd1; [done|]. destruct (below destination p2) eqn:Hd2; [done|]. intros _ _.
    destruct (below source p1) eqn:H1, (below source p2) eqn:H2.
    - apply below_iff in H1 as [r1 ->], H2 as [r2 ->]. rewrite !drop_app_length. by intros ->%(inj _).
    - intros Heq. by rewrite <- Heq, below_app in Hd2.
    - intros Heq. by rewrite Heq, below_app in Hd1.
    - done. }
  apply option_eq. intros e. unfold moved. rewrite (kmap_lookup_on _ _ _ _ Hinj). split.
  - intros (p & -> & Hp). rewrite without_lookup in Hp. unfold relocate.
    destruct (below destination p) eqn:Hd; [done|]. destruct (below source p) eqn:Hs.
    + rewrite below_app, drop_app_length. apply below_iff in Hs as [r ->]. by rewrite drop_app_length.
    + by rewrite Hd, Hs.
  - destruct (below destination q) eqn:Hd.
    + intros Hq. apply below_iff in Hd as [r ->]. rewrite drop_app_length in Hq.
      assert (Hsr : below destination (source ++ r)%list = false).
      { destruct (below destination (source ++ r)%list) eqn:Hb; [|done]. exfalso.
        apply below_iff in Hb as [t Ht]. apply app_eq_app in Ht as [u [[-> _]|[-> _]]].
        - by rewrite below_app in Hds.
        - by rewrite below_app in Hsd. }
      exists (source ++ r)%list. unfold relocate. rewrite below_app, drop_app_length, without_lookup, Hsr. done.
    + destruct (below source q) eqn:Hs; [done|]. intros Hq. exists q. unfold relocate. by rewrite Hs, without_lookup, Hd.
Qed.

(** A disk is a tree: every entry is in a directory. *)
Definition tree d : Prop := forall p name, is_Some (d !! (p ++ [name])%list) -> d !! p = Some Directory.

Lemma tree_below d p q : tree d -> d !! p <> Some Directory -> below p q = true -> q <> p -> d !! q = None.
Proof.
  intros Ht Hp [r ->]%below_iff. induction r as [|x r IH] using rev_ind; [by rewrite app_nil_r|].
  intros _. destruct (d !! (p ++ r ++ [x])%list) eqn:Hq; [exfalso|done].
  assert (Hd : d !! (p ++ r)%list = Some Directory) by (apply (Ht _ x); rewrite <- app_assoc, Hq; by eexists).
  destruct r as [|y r]; [by rewrite app_nil_r in Hd|]. rewrite IH in Hd; [done|].
  intros Heq. apply (f_equal length) in Heq. rewrite length_app in Heq. simpl in Heq. lia.
Qed.

Lemma children_spec d p name : name ∈ children d p <-> is_Some (d !! (p ++ [name])%list).
Proof.
  unfold children. rewrite list_elem_of_omap. split.
  - intros (q & ([q' e] & -> & Hq%elem_of_map_to_list)%list_elem_of_fmap & Hc). simpl in *. unfold child in Hc.
    destruct (last q'); [|done]. case_bool_decide as Heq; [|done]. injection Hc as ->. subst q'. by eexists.
  - intros [e He]. exists (p ++ [name])%list. split.
    + apply list_elem_of_fmap. exists ((p ++ [name])%list, e). split; [done|]. by apply elem_of_map_to_list.
    + unfold child. rewrite last_snoc. by rewrite bool_decide_true.
Qed.
End paths.

(** ** Operations

    [wp m Q d]: on the files [d], whatever the calls end with, [m] ends with a result and
    files in [Q]. *)
Definition wp {A} (m : IO A) (Q : result error A -> disk -> Prop) d : Prop :=
  forall h, files h = d -> Q (m h).1 (files (m h).2).

(** [m] changes nothing. *)
Definition reads {A} (m : IO A) : Prop := forall h, files (m h).2 = files h.

Create HintDb disk discriminated.

Section rules.
Lemma io_mono {A} (m : IO A) (Q R : result error A -> disk -> Prop) d :
  wp m Q d -> (forall r d', Q r d' -> R r d') -> wp m R d.
Proof. intros Hm Himp h Hh. by apply Himp, Hm. Qed.

Lemma io_ret {A} (a : A) (Q : result error A -> disk -> Prop) d : Q (Ok a) d -> wp (mret a) Q d.
Proof. by intros ? h <-. Qed.

Lemma io_throw {A} (e : error) (Q : result error A -> disk -> Prop) d : Q (Err e) d -> wp (throw e) Q d.
Proof. by intros ? h <-. Qed.

Lemma io_lift {A} (r : res A) (Q : result error A -> disk -> Prop) d :
  (forall a, r = Ok a -> Q (Ok a) d) -> (forall e, r = Err e -> Q (Err (Thrown e)) d) -> wp (lift r) Q d.
Proof. intros Ha He. destruct r; [apply io_ret|apply io_throw]; auto. Qed.

Lemma io_bind {A B} (m : IO A) (k : A -> IO B) (Q : result error B -> disk -> Prop) d :
  wp m (fun r d' => match r with Ok a => wp (k a) Q d' | Err e => Q (Err e) d' end) d -> wp (m ≫= k) Q d.
Proof. intros Hm h Hh. specialize (Hm h Hh). unfold mbind, IO_bind. destruct (m h) as [[a|e] h']; [by apply Hm|done]. Qed.

Lemma io_catch {A} (m : IO A) (handler : error -> IO A) (Q : result error A -> disk -> Prop) d :
  wp m (fun r d' => match r with Ok a => Q (Ok a) d' | Err e => wp (handler e) Q d' end) d -> wp (catch m handler) Q d.
Proof. intros Hm h Hh. specialize (Hm h Hh). unfold catch. destruct (m h) as [[a|e] h']; [done|by apply Hm]. Qed.

Lemma io_scope {A} (m : IO A) (destructors : IO unit) (Q : result error A -> disk -> Prop) d :
  wp m (fun r d' => wp destructors (fun _ => Q r) d') d -> wp (scope m destructors) Q d.
Proof. intros Hm h Hh. specialize (Hm h Hh). unfold scope. destruct (m h) as [r h']. by apply Hm. Qed.

(** A call that changes the files, by its outcome. *)
Lemma io_call {A} (k : outcome -> disk -> IO A) (Q : result error A -> disk -> Prop) d :
  (forall o, wp (k o d) Q d) -> wp (o ← next; d ← get_files; k o d) Q d.
Proof.
  intros Hk h <-. unfold mbind, IO_bind, next, get_files. destruct (outcomes h) as [|o os] eqn:Ho; simpl.
  - by apply Hk.
  - by apply (Hk o (MkHost (files h) os)).
Qed.

Lemma wp_put d' (Q : result error unit -> disk -> Prop) d : Q (Ok tt) d' -> wp (put_files d') Q d.
Proof. by intros ? h <-. Qed.

Lemma wp_query {A} (f : disk -> A) (Q : result error A -> disk -> Prop) d :
  Q (Ok (f d)) d -> (forall c, Q (Err (FilesystemError c)) d) -> wp (query f) Q d.
Proof.
  intros Ha He h <-. unfold query, mbind, IO_bind, next. destruct (outcomes h) as [|[| |] os] eqn:Ho; simpl; auto.
Qed.

Lemma wp_reads {A} (m : IO A) (Q : result error A -> disk -> Prop) d :
  reads m -> (forall r, Q r d) -> wp m Q d.
Proof. intros Hm HQ h <-. by rewrite Hm. Qed.

Lemma reads_wp {A} (m : IO A) : (forall d, wp m (fun _ d' => d' = d) d) -> reads m.
Proof. intros Hm h. by apply (Hm (files h) h). Qed.

(** *** Operations that only read *)
Lemma io_reads_ret {A} (a : A) : reads (mret a).
Proof. done. Qed.
Lemma io_reads_throw {A} (e : error) : reads (throw (A := A) e).
Proof. done. Qed.
Lemma io_reads_lift {A} (r : res A) : reads (lift r).
Proof. by destruct r. Qed.
Lemma reads_fail_if (c : bool) (message : string) : reads (fail_if c message).
Proof. apply io_reads_lift. Qed.
Lemma io_reads_query {A} (f : disk -> A) : reads (query f).
Proof. apply reads_wp. intros d. by apply wp_query. Qed.
Lemma reads_bind {A B} (m : IO A) (k : A -> IO B) : reads m -> (forall a, reads (k a)) -> reads (m ≫= k).
Proof.
  intros Hm Hk h. specialize (Hm h). unfold mbind, IO_bind. destruct (m h) as [[a|e] h']; simpl in *; [|done].
  by rewrite Hk.
Qed.
Lemma reads_fmap {A B} (f : A -> B) (m : IO A) : reads m -> reads (f <$> m).
Proof. intros Hm. apply reads_bind; [done|]. intros a. apply io_reads_ret. Qed.
Lemma reads_foldIO {A S} (f : S -> A -> IO S) l : (forall s x, reads (f s x)) -> forall s, reads (foldIO f s l).
Proof. intros Hf. induction l as [|x l IH]; intros s; simpl; [apply io_reads_ret|]. by apply reads_bind. Qed.
Lemma reads_forIO {A} (l : list A) (f : A -> IO unit) : (forall x, reads (f x)) -> reads (forIO l f).
Proof. intros Hf. induction l as [|x l IH]; simpl; [apply io_reads_ret|]. apply reads_bind; [done|]. by intros _. Qed.
Lemma reads_if {A} (b : bool) (m n : IO A) : reads m -> reads n -> reads (if b then m else n).
Proof. by destruct b. Qed.
Lemma reads_catch {A} (m : IO A) (handler : error -> IO A) : reads m -> (forall e, reads (handler e)) -> reads (catch m handler).
Proof.
  intros Hm He h. specialize (Hm h). unfold catch. destruct (m h) as [[a|e] h']; simpl in *; [done|]. by rewrite He.
Qed.
End rules.

Section reading.
Lemma reads_next : reads next.
Proof. intros h. unfold next. by destruct (outcomes h). Qed.
Lemma reads_get : reads get_files.
Proof. done. Qed.
End reading.

(** One step of a proof that an operation only reads. *)
Ltac reads_step :=
  first
    [ apply io_reads_ret | apply io_reads_throw | apply io_reads_lift | apply reads_fail_if | apply io_reads_query
    | apply reads_next | apply reads_get | solve [eauto with disk]
    | apply reads_foldIO; intros | apply reads_forIO; intros | apply reads_fmap | apply reads_catch; [|intros]
    | apply reads_bind; [|intros] | apply reads_if
    | match goal with |- reads (match ?x with _ => _ end) => destruct x end ].
Ltac solve_reads := repeat reads_step.

Section calls.
Lemma reads_is_symlink p : reads (is_symlink p).
Proof. apply io_reads_query. Qed.
Lemma reads_is_directory p : reads (is_directory p).
Proof. apply io_reads_query. Qed.
Lemma reads_exists p : reads (exists_ p).
Proof. apply io_reads_query. Qed.
Lemma reads_iterator `{DirectoryOrder} p : reads (directory_iterator p).
Proof. unfold directory_iterator. solve_reads. Qed.
Lemma reads_regularFile p : reads (regularFile p).
Proof. unfold regularFile, is_symlink, is_regular_file. solve_reads. Qed.
Lemma reads_readFile p : reads (readFile p).
Proof. unfold readFile. pose proof reads_regularFile. solve_reads; auto. Qed.

(** *** Operations that write *)
Lemma wp_create_directory p (Q : result error bool -> disk -> Prop) d :
  (d !! p = None -> is_directory_at d (parent p) = true -> Q (Ok true) (<[p := Directory]> d)) ->
  (d !! p = Some Directory -> Q (Ok false) d) ->
  (forall e, Q (Err (FilesystemError e)) d) -> wp (create_directory p) Q d.
Proof.
  intros Hnew Hold Herr. apply io_call. intros [| |]; [|apply io_throw, Herr..].
  destruct (d !! p) as [[| | |]|] eqn:Hp; [apply io_throw, Herr|by apply io_ret, Hold|apply io_throw, Herr..|].
  destruct (is_directory_at d (parent p)) eqn:Hparent; [|apply io_throw, Herr].
  apply io_bind, wp_put, io_ret. by apply Hnew.
Qed.

Lemma wp_writeFile p (value : string) (Q : result error unit -> disk -> Prop) d :
  (writable d p = true -> Q (Ok tt) (<[p := File value]> d)) -> Q (Err IosFailure) d ->
  (forall written, Q (Err IosFailure) (<[p := File written]> d)) -> wp (writeFile p value) Q d.
Proof.
  intros Hok Herr Hpart. apply (io_call (fun o d => if writable d p then _ else _)). intros o.
  destruct (writable d p); [|apply io_throw, Herr].
  destruct o; [by apply wp_put, Hok|by apply io_throw|]. apply io_bind, wp_put, io_throw, Hpart.
Qed.

Lemma wp_rename (source destination : path) (Q : result error unit -> disk -> Prop) d :
  (can_rename d source destination = true -> Q (Ok tt) (moved d source destination)) ->
  (forall c, Q (Err (FilesystemError c)) d) -> wp (rename source destination) Q d.
Proof.
  intros Hok Herr. apply io_call. intros [| |]; [|apply io_throw, Herr..].
  destruct (can_rename d source destination); [by apply wp_put, Hok|apply io_throw, Herr].
Qed.

Lemma wp_publishDirectory `{Platform} (source destination : path) (Q : result error unit -> disk -> Prop) d :
  (can_rename d source destination = true -> Q (Ok tt) (moved d source destination)) ->
  (forall e : error, Q (Err e) d) -> wp (publishDirectory source destination) Q d.
Proof.
  intros Hok Herr. unfold publishDirectory. destruct windows; [|by apply wp_rename].
  generalize 4. intros delays. induction delays as [|delays IH]; simpl; apply io_catch, wp_rename; auto; intros c.
  - apply io_throw, Herr.
  - destruct c; [|apply io_throw, Herr].
    assert (Hexists : forall p (b : bool), reads (catch (exists_ p) (fun _ => mret b))) by (intros; solve_reads; apply reads_exists).
    apply io_bind, wp_reads; [done|]. intros [sourceExists|e]; [|apply Herr].
    apply io_bind, wp_reads; [done|]. intros [destinationExists|e]; [|apply Herr]. destruct (_ && _); [done|apply io_throw, Herr].
Qed.

(** What a destructor leaves alone. *)
Lemma wp_remove p (Q : result error unit -> disk -> Prop) d :
  Q (Ok tt) (delete p d) -> Q (Ok tt) d -> wp (remove p) Q d.
Proof.
  intros Hdel Hkeep. apply io_call. intros [| |]; [|by apply io_ret..].
  case_bool_decide; [by apply wp_put|by apply io_ret].
Qed.

Lemma wp_remove_all p (Q : result error unit -> disk -> Prop) d :
  (forall d', (forall q, below p q = false -> d' !! q = d !! q) -> Q (Ok tt) d') -> wp (remove_all p) Q d.
Proof.
  intros HQ. apply io_call. intros [| |written kept].
  - apply wp_put, HQ. intros q Hq. by rewrite without_lookup, Hq.
  - by apply io_ret, HQ.
  - apply wp_put, HQ. intros q Hq. rewrite map_lookup_filter. destruct (d !! q); simpl; [|done].
    rewrite option_guard_True; [done|]. by left.
Qed.

Lemma wp_projectOperation {A} (m : IO A) (Q : result error A -> disk -> Prop) d :
  wp m (fun r d' => match r with Ok a => Q (Ok a) d' | Err _ => forall e, Q (Err e) d' end) d ->
  wp (projectOperation m) Q d.
Proof.
  intros Hm. apply io_catch. eapply io_mono; [exact Hm|]. intros [a|e] d' Hr; [done|].
  destruct e as [c| |[]]; first [apply io_throw, Hr|apply io_lift; [done|]; intros; apply Hr].
Qed.
End calls.

#[export] Hint Resolve reads_is_symlink reads_is_directory reads_exists reads_iterator reads_regularFile reads_readFile : disk.

Section trees.
Lemma tree_child d p x r : tree d -> is_Some (d !! (p ++ x :: r)%list) -> x ∈ children d p.
Proof.
  intros Ht. rewrite children_spec. induction r as [|y r IH] using rev_ind; [done|].
  intros Hq. apply IH. exists Directory. apply (Ht _ y). by rewrite <- app_assoc.
Qed.

Lemma tree_insert_directory d p :
  tree d -> d !! p = None -> is_directory_at d (parent p) = true -> tree (<[p := Directory]> d).
Proof.
  intros Ht Hp Hparent q name Hq. destruct (decide (p = (q ++ [name])%list)) as [->|Hne].
  - unfold parent in Hparent. rewrite length_app, Nat.add_sub, take_app_length in Hparent.
    apply bool_decide_eq_true in Hparent. rewrite lookup_insert_ne; [done|].
    intros Heq%(f_equal length). rewrite length_app in Heq. simpl in Heq. lia.
  - rewrite lookup_insert_ne in Hq by done. destruct (decide (p = q)) as [->|Hpq]; [by rewrite lookup_insert_eq|].
    rewrite lookup_insert_ne by done. by eapply Ht.
Qed.

(** Nothing is overwritten by a directory that is renamed. *)
Lemma renamed_onto d source destination q :
  tree d -> d !! source = Some Directory -> can_rename d source destination = true ->
  below destination q = true -> q <> destination -> d !! q = None.
Proof.
  intros Ht Hs. unfold can_rename. rewrite Hs. destruct (d !! destination) as [[| | |]|] eqn:Hd; try done.
  - intros [Hc%bool_decide_eq_true _]%andb_true_iff [r ->]%below_iff Hne.
    destruct r as [|x r]; [by rewrite app_nil_r in Hne|]. destruct (d !! (destination ++ x :: r)%list) eqn:Hq; [exfalso|done].
    assert (Hx : x ∈ children d destination) by (apply (tree_child _ _ _ r); [done|]; rewrite Hq; by eexists).
    rewrite Hc in Hx. by apply not_elem_of_nil in Hx.
  - intros _ Hb Hne. apply (tree_below d destination); [done| |done..]. by rewrite Hd.
Qed.
End trees.

(** ** Results of reading

    [reads_to m d P]: [m] changes nothing of [d], and what it returns satisfies [P]. *)
Definition reads_to {A} (m : IO A) d (P : A -> Prop) : Prop :=
  wp m (fun r d' => d' = d /\ forall a, r = Ok a -> P a) d.

Section results.
Lemma reads_to_ret {A} (a : A) d (P : A -> Prop) : P a -> reads_to (mret a) d P.
Proof. intros Ha. apply io_ret. split; [done|]. by intros ? [= <-]. Qed.

Lemma reads_to_lift {A} (r : res A) d : reads_to (lift r) d (fun a => r = Ok a).
Proof. apply io_lift; intros x ->; (split; [done|]); by intros ? [= <-]. Qed.

Lemma reads_to_fail_if (c : bool) (message : string) d : reads_to (fail_if c message) d (fun _ => c = false).
Proof. apply io_lift; destruct c; try done; intros ? ?; split; done. Qed.

Lemma reads_to_query {A} (f : disk -> A) d : reads_to (query f) d (fun a => a = f d).
Proof. apply wp_query; [split; [done|]; by intros ? [= <-]|done]. Qed.

Lemma reads_to_any {A} (m : IO A) d : reads m -> reads_to m d (fun _ => True).
Proof. intros Hm. by apply wp_reads. Qed.

Lemma reads_to_weaken {A} (m : IO A) d (P Q : A -> Prop) : reads_to m d P -> (forall a, P a -> Q a) -> reads_to m d Q.
Proof. intros Hm HPQ. eapply io_mono; [exact Hm|]. intros r d' [-> HP]. split; [done|]. auto. Qed.

Lemma reads_to_bind {A B} (m : IO A) (k : A -> IO B) d (P : A -> Prop) (Q : B -> Prop) :
  reads_to m d P -> (forall a, P a -> reads_to (k a) d Q) -> reads_to (m ≫= k) d Q.
Proof.
  intros Hm Hk. apply io_bind. eapply io_mono; [exact Hm|]. intros [a|e] d' [-> HP]; [apply Hk; auto|]. by split.
Qed.

Lemma reads_to_fmap {A B} (f : A -> B) (m : IO A) d (P : A -> Prop) (Q : B -> Prop) :
  reads_to m d P -> (forall a, P a -> Q (f a)) -> reads_to (f <$> m) d Q.
Proof. intros Hm Hf. eapply reads_to_bind; [exact Hm|]. intros a Ha. apply reads_to_ret. auto. Qed.

(** A loop keeps what each step keeps. *)
Lemma reads_to_foldIO {A S} (f : S -> A -> IO S) d (P : list A -> S -> Prop) l s :
  P [] s -> (forall done_ s x, P done_ s -> reads_to (f s x) d (P (done_ ++ [x])%list)) ->
  reads_to (foldIO f s l) d (P l).
Proof.
  intros Hs Hstep. assert (Hgen : forall done_ s, P done_ s -> reads_to (foldIO f s l) d (P (done_ ++ l)%list)); [|by apply (Hgen [])].
  clear s Hs. induction l as [|x l IH]; intros done_ s Hs; cbn [foldIO].
  - apply reads_to_ret. by rewrite app_nil_r.
  - eapply reads_to_bind; [by apply Hstep|]. intros s' Hs'. eapply reads_to_weaken; [by apply IH|].
    intros s2. by rewrite <- app_assoc.
Qed.

(** Loops that compute what a loop on values computes. *)
Lemma reads_to_foldM {A S} (f : S -> A -> IO S) (g : S -> A -> res S) d l :
  (forall s x, reads_to (f s x) d (fun s' => g s x = Ok s')) ->
  forall s, reads_to (foldIO f s l) d (fun s' => foldM g s l = Ok s').
Proof.
  intros Hf. induction l as [|x l IH]; intros s; cbn [foldIO foldM]; [by apply reads_to_ret|].
  eapply reads_to_bind; [apply Hf|]. intros s' ->. apply IH.
Qed.

Lemma reads_to_readFile p d : reads_to (readFile p) d (fun c => d !! p = Some (File c)).
Proof.
  unfold readFile. eapply reads_to_bind; [apply reads_to_any, reads_regularFile|]. intros ? _.
  apply (io_call (fun o d => match o, d !! p with Succeeds, Some (File c) => mret c | _, _ => _ end)).
  intros [| |]; [destruct (d !! p) as [[c| | |]|]|..]; try (by apply io_lift); by apply reads_to_ret.
Qed.

Lemma reads_to_iterator `{DirectoryOrder} p d : reads_to (directory_iterator p) d (fun names => names ≡ₚ children d p).
Proof.
  unfold directory_iterator. eapply reads_to_bind; [apply reads_to_query|]. intros listed ->.
  destruct (is_directory_at d p); [|by apply io_throw]. apply reads_to_ret, directory_order_permutation.
Qed.
End results.

(** Whether a disk is a tree. *)
Definition is_tree d : bool :=
  forallb (fun kv : list string * Entry => bool_decide (kv.1 = []) || is_directory_at d (parent kv.1)) (map_to_list d).

Lemma is_tree_tree d : is_tree d = true -> tree d.
Proof.
  intros Ht p name [e He]. unfold is_tree in Ht. rewrite forallb_forall in Ht.
  specialize (Ht ((p ++ [name])%list, e)). rewrite <- list_elem_of_In, elem_of_map_to_list in Ht. specialize (Ht He).
  cbn [fst] in Ht. apply orb_true_iff in Ht as [Ht%bool_decide_eq_true|Ht%bool_decide_eq_true]; [by apply app_nil in Ht as []|].
  unfold parent in Ht. by rewrite length_app, Nat.add_sub, take_app_length in Ht.
Qed.
