(* ===== verification/Project.v ===== *)
(** Project: migration projects in a directory, from src/migrations/MigrationProject.cpp
    -- their loading, and the operations that add a draft and finalize it.

    A project directory holds project.json and a directory <version>_<name> per
    migration, with migration.json, schema.json, a directory per backend with its
    scripts and, once the migration is finalized, ready.json. *)
From S2P Require Import Prelude Foundation Chrono Values Codec Schema Sha256 Models PhysicalSql Snapshot Diff SqlValidation Literals SchemaJson Generation Catalog FileSystem.
From Stdlib Require Import DecimalString.
Local Open Scope string_scope.

(** [dump()] without indentation. *)
Class ProjectLibrary := {
  project_library :: JsonLibrary;
  dump_line : json -> res string
}.

Section project.
Context `{ProjectLibrary, DirectoryOrder, Platform}.

Definition safeProjectName (name : string) : bool :=
  negb (bool_decide (name = "")) && forallb_char portable_char name.

(** ** Metadata *)

(** The callback differs from the one of [strictJson] in its message. *)
Definition parse_project (text : string) : res json :=
  let (calls, result) := parse text in
  match foldM parse_callback ∅ calls with
  | Ok _ => result
  | Err _ => Err (invalidCatalog "Duplicate migration project JSON field")
  end.

Definition readJson (p : path) : IO json :=
  text ← readFile p;
  lift (match parse_project text with
        | Err JsonException => Err (invalidCatalog "Invalid migration project JSON")
        | r => r
        end).

Definition fields (item : json) (names : list string) : res unit :=
  throw_if (match item with JObject l => negb (length l =? length names)%nat | _ => true end)
    (invalidCatalog "Invalid migration project metadata fields") ;;
  forM_ names (fun name =>
    throw_if (negb (contains_field item name)) (invalidCatalog "Missing migration project metadata field")).

Definition backendFromName (name : string) : res BackendType :=
  or_throw
    (List.find (fun b => match backendName b with Ok n => bool_decide (n = name) | Err _ => false end)
       generationBackends)
    (invalidCatalog "Unsupported project backend").

Fixpoint adjacent_equal (names : list string) : bool :=
  match names with
  | x :: ((y :: _) as rest) => bool_decide (x = y) || adjacent_equal rest
  | _ => false
  end.

Definition backendNames (bs : list BackendType) : res (list string) :=
  names ← mapM backendName bs;
  let names := merge_sort String.le names in
  throw_if (is_empty names || adjacent_equal names) (invalidCatalog "Project requires a nonempty unique backend set") ;;
  Ok names.

(** [is_number_integer()] and equal to a constant. *)
Definition equals_integer (v : json) (z : Z) : bool := bool_decide (integer_of v = Some z).
Definition is_integer (v : json) : bool := bool_decide (is_Some (integer_of v)).
Definition equals_text (v : json) (s : string) : bool :=
  match v with JString t => bool_decide (t = s) | _ => false end.

(** [get<Version>()]: a conversion to 64 bits. *)
Definition get_version (v : json) : res Z :=
  z ← get_integer v; Ok ((z + 2 ^ 63) mod 2 ^ 64 - 2 ^ 63)%Z.

Definition number_le (b c : BackendType) : Prop := (backend_number b <= backend_number c)%Z.
#[export] Instance number_le_dec b c : Decision (number_le b c).
Proof. unfold number_le. apply _. Defined.

(** ** Reading *)
Definition configured_backends (config : json) : res (list BackendType) :=
  fields config ["formatVersion"; "backends"] ;;
  format ← at_field config "formatVersion";
  throw_if (negb (equals_integer format 1)) (invalidCatalog "Unsupported migration project format") ;;
  names ← strings_field config "backends";
  bs ← mapM backendFromName names;
  backendNames bs ;;
  Ok (merge_sort number_le bs).

Definition projectBackends : IO (list BackendType) :=
  is_project ← is_symlink [] ≫= (fun link : bool => if link then mret false else is_directory []);
  fail_if (negb is_project) "Migration project must be a directory and cannot be a symlink" ;;
  config ← readJson ["project.json"];
  lift (configured_backends config).

Definition checkSnapshotBackends (s : SchemaSnapshot) (bs : list BackendType) : res unit :=
  throw_if (negb (length (backends s) =? length bs)%nat)
    (invalidCatalog "Snapshot backend set differs from project configuration") ;;
  forM_ bs (fun b =>
    throw_if (negb (BackendMap.contains b (backends s)))
      (invalidCatalog "Snapshot backend set differs from project configuration")).

(** The digests of the files of a migration. *)
Definition script_digest (p : path) : IO string :=
  text ← readFile p; sql ← lift (normalizeSql text); mret (sha256 sql).

Definition check_backend_file (p : path) (name : string) : IO unit :=
  fail_if (negb (bool_decide (name = "up.sql")) && negb (bool_decide (name = "down.sql")))
    "Unexpected file in backend directory" ;;
  regularFile (p ++ [name])%list.

Definition sqlFiles_backend (entry : path) (found : gmap string string) (b : BackendType) : IO (gmap string string) :=
  name ← lift (backendName b);
  let dialect := (entry ++ [name])%list in
  valid ← is_directory dialect ≫= (fun directory : bool => if directory then negb <$> is_symlink dialect else mret false);
  fail_if (negb valid) "Missing or invalid project backend directory" ;;
  names ← directory_iterator dialect;
  forIO names (check_backend_file dialect) ;;
  up_ ← script_digest (dialect ++ ["up.sql"])%list;
  let found := <[name +:+ "/up.sql" := up_]> found in
  has_down ← exists_ (dialect ++ ["down.sql"])%list;
  if (has_down : bool) then
    down_ ← script_digest (dialect ++ ["down.sql"])%list;
    mret (<[name +:+ "/down.sql" := down_]> found)
  else mret found.

Definition sqlFiles (entry : path) (bs : list BackendType) : IO (gmap string string) :=
  migration ← readFile (entry ++ ["migration.json"])%list;
  schema ← readFile (entry ++ ["schema.json"])%list;
  foldIO (sqlFiles_backend entry)
    (<["schema.json" := sha256 schema]> (<["migration.json" := sha256 migration]> ∅)) bs.

Record ProjectEntry := MkEntry {
  entry_path : path;
  entry_version : Z;
  entry_name : string;
  entry_ready : bool;
  entry_migration : Migration
}.

Definition entry_le (x y : ProjectEntry) : Prop := (entry_version x <= entry_version y)%Z.
#[export] Instance entry_le_dec x y : Decision (entry_le x y).
Proof. unfold entry_le. apply _. Defined.

(** [name.find('_')]: what precedes it and what follows. *)
Fixpoint split_name (name : string) : option (string * string) :=
  match name with
  | "" => None
  | String c rest =>
      if bool_decide (c = "_"%char) then Some ("", rest)
      else match split_name rest with Some (version, name) => Some (String c version, name) | None => None end
  end.

(** [from_chars] of all the characters. *)
Definition parse_version (text : string) : option Z :=
  let (negative, digits) :=
    match text with
    | String c rest => if bool_decide (c = "-"%char) then (true, rest) else (false, text)
    | "" => (false, "")
    end in
  if bool_decide (digits = "") then None
  else
    match NilEmpty.uint_of_string digits with
    | Some n =>
        let z := (if negative then - Z.of_uint n else Z.of_uint n)%Z in
        if ((- 2 ^ 63 <=? z) && (z <? 2 ^ 63))%Z then Some z else None
    | None => None
    end.

Definition no_migration : Migration := MkMigration 0 "" [] (MkSnapshot 1 []) (MkSnapshot 1 []).

(** The version and the name of a migration directory. *)
Definition directory_identity (name : string) : res (Z * string) :=
  match split_name name with
  | None => Err (invalidCatalog "Invalid migration directory name")
  | Some (digits, rest) =>
      match parse_version digits with
      | Some version =>
          throw_if ((version <=? 0)%Z || negb (safeProjectName rest)) (invalidCatalog "Invalid migration directory name") ;;
          Ok (version, rest)
      | None => Err (invalidCatalog "Invalid migration directory name")
      end
  end.

Definition list_entry (found : list ProjectEntry) (name : string) : IO (list ProjectEntry) :=
  if bool_decide (name = "project.json") then regularFile [name] ;; mret found
  else
    is_lock ← (if bool_decide (name = ".orm-cxx-lock")
               then is_directory [name] ≫= (fun directory : bool => if directory then negb <$> is_symlink [name] else mret false)
               else mret (M := IO) false);
    if (is_lock : bool) then mret found
    else
      valid ← is_directory [name] ≫= (fun directory : bool => if directory then negb <$> is_symlink [name] else mret false);
      fail_if (negb valid) "Expected a <version>_<name> migration directory" ;;
      identity ← lift (directory_identity name);
      ready ← exists_ [name; "ready.json"];
      mret (found ++ [MkEntry [name] identity.1 identity.2 ready no_migration])%list.

Definition check_entry_file (bs : list BackendType) (entry : path) (name : string) : IO unit :=
  if bool_decide (name ∈ ["migration.json"; "schema.json"; "ready.json"]) then regularFile (entry ++ [name])%list
  else
    isBackend ← lift ((fun names => bool_decide (name ∈ names)) <$> mapM backendName bs);
    fail_if (negb isBackend) "Unexpected file in migration directory".

(** A condition of several parts, in their order. *)
Fixpoint any_of (conditions : list (res bool)) : res bool :=
  match conditions with
  | [] => Ok false
  | c :: rest => b ← c; if (b : bool) then Ok true else any_of rest
  end.

Definition differs {A} `{EqDecision A} (actual : res A) (expected : res A) : res bool :=
  x ← actual; y ← expected; Ok (negb (bool_decide (x = y))).

Definition check_metadata (metadata : json) (entry : ProjectEntry) (before_ : SchemaSnapshot) (parent : Z) : res unit :=
  fields metadata ["formatVersion"; "version"; "name"; "kind"; "parentVersion"; "parentHash"; "scripts"] ;;
  broken ← any_of [
    (fun v => negb (equals_integer v 1)) <$> at_field metadata "formatVersion";
    (fun v => negb (is_integer v)) <$> at_field metadata "version";
    (fun v => negb (is_integer v)) <$> at_field metadata "parentVersion";
    differs (at_field metadata "version" ≫= get_version) (Ok (entry_version entry));
    differs (string_field metadata "name") (Ok (entry_name entry));
    (fun v => negb (equals_text v "generated") && negb (equals_text v "manual")) <$> at_field metadata "kind";
    differs (at_field metadata "parentVersion" ≫= get_version) (Ok parent);
    differs (string_field metadata "parentHash") (sha256 <$> snapshotJson before_)];
  throw_if broken (invalidCatalog "Migration parent chain or directory identity is invalid").

(** The scripts of one backend. *)
Definition read_scripts (p : path) : IO string := text ← readFile p; lift (normalizeSql text).

Definition read_context (value : json) (name : string) : res MigrationExecutionContext :=
  context ← at_field value name; text ← dump_line context; contextFromJson text.

Definition load_scripts (entry : ProjectEntry) (scriptsMetadata : json) (before_ after_ : SchemaSnapshot)
    (found : BackendMap.t SqlMigration) (b : BackendType) : IO (BackendMap.t SqlMigration) :=
  name ← lift (backendName b);
  value ← lift (at_field scriptsMetadata name);
  lift (fields value ["beforeHash"; "afterHash"; "upContext"; "downContext"]) ;;
  up_ ← read_scripts (entry_path entry ++ [name; "up.sql"])%list;
  has_down ← exists_ (entry_path entry ++ [name; "down.sql"])%list;
  down_ ← (if (has_down : bool) then Some <$> read_scripts (entry_path entry ++ [name; "down.sql"])%list
           else mret (M := IO) None);
  beforeHash_ ← lift (string_field value "beforeHash");
  afterHash_ ← lift (string_field value "afterHash");
  upContext_ ← lift (read_context value "upContext");
  downContext_ ← lift (read_context value "downContext");
  broken ← lift (any_of [differs (Ok beforeHash_) (snapshotHash before_ b); differs (Ok afterHash_) (snapshotHash after_ b)]);
  fail_if broken "Migration schema hashes do not match the snapshot chain" ;;
  mret (BackendMap.emplace b (MkSqlMigration up_ down_ upContext_ downContext_ beforeHash_ afterHash_) found).

(** [get<std::map<std::string, std::string>>()]. *)
Definition get_string_map (v : json) : res (gmap string string) :=
  match v with
  | JObject l => foldM (fun m kv => s ← get_string kv.2; Ok (<[kv.1 := s]> m)) ∅ l
  | _ => json_throw
  end.

Definition check_checksum (checksums : json) (kv : BackendType * SqlMigration) : res unit :=
  name ← backendName kv.1;
  broken ← differs (string_field checksums name) (checksum kv.2);
  throw_if broken (invalidCatalog "Ready migration execution metadata has been modified").

Definition check_ready (ready : json) (actualFiles : gmap string string) (bs : list BackendType)
    (scripts : BackendMap.t SqlMigration) : res unit :=
  fields ready ["formatVersion"; "state"; "files"; "checksums"] ;;
  broken ← any_of [
    (fun v => negb (equals_integer v 1)) <$> at_field ready "formatVersion";
    (fun v => negb (equals_text v "ready")) <$> at_field ready "state";
    differs (at_field ready "files" ≫= get_string_map) (Ok actualFiles)];
  throw_if broken (invalidCatalog "Ready migration files have been modified") ;;
  checksums ← at_field ready "checksums";
  throw_if (match checksums with JObject l => negb (length l =? length bs)%nat | _ => true end)
    (invalidCatalog "Invalid ready migration checksum set") ;;
  forM_ scripts (check_checksum checksums).

(** [Catalog validation{migration}] and its only migration. *)
Definition validated (m : Migration) : res Migration :=
  ms ← makeCatalog [m]; or_throw (head ms) Undefined.

(** One migration, after the snapshot and the version before it, and the snapshot that
    it leads to. *)
Definition load_entry (bs : list BackendType) (before_ : SchemaSnapshot) (parent : Z) (entry : ProjectEntry)
    : IO (Migration * SchemaSnapshot) :=
  names ← directory_iterator (entry_path entry);
  forIO names (check_entry_file bs (entry_path entry)) ;;
  metadata ← readJson (entry_path entry ++ ["migration.json"])%list;
  lift (check_metadata metadata entry before_ parent) ;;
  after_ ← readFile (entry_path entry ++ ["schema.json"])%list ≫= (fun text => lift (snapshotFromJson text));
  lift (checkSnapshotBackends after_ bs) ;;
  scriptsMetadata ← lift (at_field metadata "scripts");
  fail_if (match scriptsMetadata with JObject l => negb (length l =? length bs)%nat | _ => true end)
    "Invalid migration backend metadata" ;;
  ss ← foldIO (load_scripts entry scriptsMetadata before_ after_) [] bs;
  let migration := MkMigration (entry_version entry) (entry_name entry) ss before_ after_ in
  actualFiles ← sqlFiles (entry_path entry) bs;
  if entry_ready entry then
    migration ← lift (validated migration);
    ready ← readJson (entry_path entry ++ ["ready.json"])%list;
    lift (check_ready ready actualFiles bs (scripts migration)) ;;
    mret (migration, after_)
  else mret (migration, after_).

(** What the loop carries: the snapshot and the version before, whether a draft was met
    and the entries loaded so far. *)
Record Loading := MkLoading {
  loading_before : SchemaSnapshot;
  loading_parent : Z;
  loading_draft : bool;
  loaded : list ProjectEntry
}.

Definition with_migration (entry : ProjectEntry) (m : Migration) : ProjectEntry :=
  MkEntry (entry_path entry) (entry_version entry) (entry_name entry) (entry_ready entry) m.

Definition load_next (bs : list BackendType) (state : Loading) (entry : ProjectEntry) : IO Loading :=
  fail_if ((entry_version entry <=? loading_parent state)%Z || loading_draft state)
    "Migration versions must be unique and drafts must be last" ;;
  l ← load_entry bs (loading_before state) (loading_parent state) entry;
  mret (MkLoading l.2 (entry_version entry) (loading_draft state || negb (entry_ready entry))
          (loaded state ++ [with_migration entry l.1])%list).

Definition loadEntries (bs : list BackendType) : IO (list ProjectEntry) :=
  configured ← projectBackends;
  fail_if (negb (bool_decide (configured = bs))) "Migration project backend configuration has changed" ;;
  names ← directory_iterator [];
  found ← foldIO list_entry [] names;
  before_ ← lift (emptySnapshot bs);
  loaded <$> foldIO (load_next bs) (MkLoading before_ 0 false []) (merge_sort entry_le found).

(** ** Writing *)
Definition lock_path : path := [".orm-cxx-lock"].
Definition staging_path : path := [".orm-cxx-staging"].

(** [ProjectLock]. *)
Definition with_lock {A} (body : IO A) : IO A :=
  createExclusiveDirectory lock_path LockUnavailable "Another migration project writer holds the lock" ;;
  scope body (remove lock_path).

Definition with_staging {A} (body : IO A) : IO A :=
  createExclusiveDirectory staging_path InvalidCatalog "A previous migration staging directory exists" ;;
  scope body (remove_all staging_path).

(** [Json::parse(detail::contextJson(context))]. *)
Definition context_value (c : MigrationExecutionContext) : res json :=
  text ← contextJson c; (parse text).2.

Definition stage_backend (m : Migration) (metadata : list (string * json)) (b : BackendType) : IO (list (string * json)) :=
  name ← lift (backendName b);
  script ← lift (BackendMap.at_ (scripts m) b);
  before_ ← lift (snapshotHash (migration_before m) b);
  after_ ← lift (snapshotHash (migration_after m) b);
  upText ← lift (context_value (upContext script));
  downText ← lift (context_value (downContext script));
  create_directory (staging_path ++ [name])%list ;;
  up_ ← lift (normalizeSql (up script));
  writeFile (staging_path ++ [name; "up.sql"])%list up_ ;;
  match down script with
  | Some sql => sql ← lift (normalizeSql sql); writeFile (staging_path ++ [name; "down.sql"])%list sql
  | None => mret tt
  end ;;
  mret (metadata ++ [(name, object [("beforeHash", JString before_); ("afterHash", JString after_);
                                    ("upContext", upText); ("downContext", downText)])])%list.

Definition metadata_json (m : Migration) (parent : Z) (manual : bool) (parentHash : string)
    (scripts : list (string * json)) : json :=
  object [("formatVersion", JInteger 1); ("version", JInteger (version_of m)); ("name", JString (migration_name m));
          ("kind", JString (if manual then "manual" else "generated")); ("parentVersion", JInteger parent);
          ("parentHash", JString parentHash); ("scripts", object scripts)].

Definition directory_name (m : Migration) : string := to_string_Z (version_of m) +:+ "_" +:+ migration_name m.

Definition publishDraft (bs : list BackendType) (m : Migration) (parent : Z) (manual : bool) : IO unit :=
  with_staging
    (schema ← lift (snapshotJson (migration_after m));
     writeFile (staging_path ++ ["schema.json"])%list schema ;;
     scripts ← foldIO (stage_backend m) [] bs;
     parentText ← lift (snapshotJson (migration_before m));
     text ← lift (dump (metadata_json m parent manual (sha256 parentText) scripts));
     writeFile (staging_path ++ ["migration.json"])%list (text +:+ newline) ;;
     publishDirectory staging_path [directory_name m]).

(** ** The operations of [MigrationProject] *)

(** The constructor: the backends. *)
Definition MigrationProject : IO (list BackendType) :=
  bs ← projectOperation projectBackends;
  projectOperation (loadEntries bs) ;;
  mret bs.

Definition temporary_project : path := [".project.json.tmp"].

(** [try { body } catch (...) { remove(temporary); throw; }]. *)
Definition or_remove {A} (temporary : path) (body : IO A) : IO A :=
  catch body (fun e => remove temporary ;; throw e).

Definition init (bs : list BackendType) : IO (list BackendType) :=
  projectOperation
    (names ← lift (backendNames bs);
     link ← is_symlink [];
     fail_if link "Migration project directory cannot be a symlink" ;;
     create_directories ;;
     with_lock
       (items ← directory_iterator [];
        forIO items (fun name =>
          fail_if (negb (bool_decide (name = ".orm-cxx-lock")))
            "Migration project initialization requires an empty directory") ;;
        or_remove temporary_project
          (text ← lift (dump (object [("formatVersion", JInteger 1); ("backends", strings names)]));
           writeFile temporary_project (text +:+ newline) ;;
           rename temporary_project ["project.json"]) ;;
        MigrationProject)).

(** [entries.back()] is a draft. *)
Definition ends_with_draft (entries : list ProjectEntry) : bool :=
  match last entries with Some e => negb (entry_ready e) | None => false end.

Definition last_snapshot (bs : list BackendType) (entries : list ProjectEntry) : res SchemaSnapshot :=
  match last entries with Some e => Ok (migration_after (entry_migration e)) | None => emptySnapshot bs end.

Definition last_version (entries : list ProjectEntry) : Z :=
  match last entries with Some e => entry_version e | None => 0 end.

Definition latestSnapshot (bs : list BackendType) : IO SchemaSnapshot :=
  projectOperation
    (entries ← loadEntries bs;
     fail_if (ends_with_draft entries) "Finalize the draft before using it as a source snapshot" ;;
     lift (last_snapshot bs entries)).

Definition draftVersion (bs : list BackendType) : IO (option Z) :=
  projectOperation
    (entries ← loadEntries bs;
     mret (if ends_with_draft entries then Some (last_version entries) else None)).

Definition catalog (bs : list BackendType) : IO (list Migration) :=
  projectOperation
    (entries ← loadEntries bs;
     forIO entries (fun e => fail_if (negb (entry_ready e)) "A draft migration cannot be executed; finalize it first") ;;
     lift (makeCatalog (map entry_migration entries))).

Definition compare_models (bs : list BackendType) (models : SchemaView) (decisions : GenerationDecisions) : IO SchemaDiff :=
  latest ← latestSnapshot bs;
  lift (current ← capture models bs; compare latest current decisions).

(** What [make] and [makeManual] have in common before the draft. *)
Definition new_parent (bs : list BackendType) : IO (Z * SchemaSnapshot) :=
  entries ← loadEntries bs;
  fail_if (ends_with_draft entries) "Finalize the current draft before creating another migration" ;;
  let parent := last_version entries in
  fail_if (bool_decide (parent = 2 ^ 63 - 1)%Z) "Migration version range is exhausted" ;;
  before_ ← lift (last_snapshot bs entries);
  mret (parent, before_).

Definition make (bs : list BackendType) (name : string) (models : SchemaView) (decisions : GenerationDecisions) : IO Z :=
  projectOperation
    (fail_if (negb (safeProjectName name)) "Migration name must contain only ASCII letters, digits, underscores or hyphens" ;;
     with_lock
       (source ← new_parent bs;
        let (parent, before_) := source : Z * SchemaSnapshot in
        diff ← lift (current ← capture models bs; compare before_ current decisions);
        fail_if (is_empty (changes diff)) "Models have no schema changes; use make --manual for a data migration" ;;
        generated ← lift (generate (parent + 1) name diff decisions);
        publishDraft bs generated.1 parent false ;;
        mret (parent + 1)%Z)).

Definition empty_scripts : SqlMigration :=
  MkSqlMigration ("-- Write and review the migration SQL before finalizing." +:+ newline) None empty_context empty_context "" "".

Definition makeManual (bs : list BackendType) (name : string) (models : SchemaView) : IO Z :=
  projectOperation
    (fail_if (negb (safeProjectName name)) "Invalid migration name" ;;
     with_lock
       (source ← new_parent bs;
        let (parent, before_) := source : Z * SchemaSnapshot in
        after_ ← lift (capture models bs);
        let ss := fold_left (fun ss b => BackendMap.emplace b empty_scripts ss) bs [] in
        publishDraft bs (MkMigration (parent + 1) name ss before_ after_) parent true ;;
        mret (parent + 1)%Z)).

(** The checks of one backend's scripts, and their checksum. *)
Definition finalize_scripts (version : Z) (checksums : list (string * json)) (kv : BackendType * SqlMigration)
    : res (list (string * json)) :=
  validateScript (up kv.2) kv.1 version ;;
  match down kv.2 with Some sql => validateScript sql kv.1 version | None => Ok tt end ;;
  name ← backendName kv.1;
  sum ← checksum kv.2;
  Ok (checksums ++ [(name, JString sum)])%list.

Definition ready_json (found : gmap string string) (checksums : list (string * json)) : json :=
  object [("formatVersion", JInteger 1); ("state", JString "ready");
          ("files", object (prod_map id JString <$> map_to_list found)); ("checksums", object checksums)].

Definition finalize (bs : list BackendType) (version : Z) (models : SchemaView) (acceptSchema : bool) : IO unit :=
  projectOperation
    (fail_if (negb acceptSchema) "Finalization requires explicit acceptance of the declared schema" ;;
     with_lock
       (entries ← loadEntries bs;
        match last entries with
        | Some entry =>
            fail_if (negb (bool_decide (entry_version entry = version)) || entry_ready entry)
              "Only the current draft migration can be finalized" ;;
            current ← lift (capture models bs);
            fail_if (negb (bool_decide (migration_after (entry_migration entry) = current)))
              "Current models differ from the draft target snapshot" ;;
            m ← lift (validated (entry_migration entry));
            checksums ← lift (foldM (finalize_scripts version) [] (scripts m));
            let temporary := (entry_path entry ++ [".ready.json.tmp"])%list in
            or_remove temporary
              (found ← sqlFiles (entry_path entry) bs;
               text ← lift (dump (ready_json found checksums));
               writeFile temporary (text +:+ newline) ;;
               rename temporary (entry_path entry ++ ["ready.json"])%list)
        | None => fail_if true "Only the current draft migration can be finalized"
        end)).
End project.
