(* ===== verification/Projects.v ===== *)
(** Projects: what the operations on a migration project do to its directory, whatever
    their calls end with. *)
From S2P Require Import Prelude Foundation Chrono Values Codec Schema Sha256 Models PhysicalSql Snapshot Diff SqlValidation Literals SchemaJson Generation Catalog FileSystem Project Disk.
Local Open Scope string_scope.
Implicit Types (p q : list string).

(** ** The files of a draft *)
Section draft.
Context `{ProjectLibrary, DirectoryOrder, Platform}.

(** The files of one backend, and its part of the metadata. *)
Definition draft_backend (m : Migration) (state : disk * list (string * json)) (b : BackendType)
    : res (disk * list (string * json)) :=
  let (t, metadata) := state in
  name ← backendName b;
  script ← BackendMap.at_ (scripts m) b;
  before_ ← snapshotHash (migration_before m) b;
  after_ ← snapshotHash (migration_after m) b;
  upText ← context_value (upContext script);
  downText ← context_value (downContext script);
  up_ ← normalizeSql (up script);
  down_ ← match down script with Some sql => Some <$> normalizeSql sql | None => Ok None end;
  let t := <[[name; "up.sql"] := File up_]> (<[[name] := Directory]> t) in
  Ok (match down_ with Some sql => <[[name; "down.sql"] := File sql]> t | None => t end,
      (metadata ++ [(name, object [("beforeHash", JString before_); ("afterHash", JString after_);
                                   ("upContext", upText); ("downContext", downText)])])%list).

(** The directory of a draft, by paths relative to it. *)
Definition draft_files (bs : list BackendType) (m : Migration) (parent : Z) (manual : bool)
    : res disk :=
  schema ← snapshotJson (migration_after m);
  staged ← foldM (draft_backend m) (<[["schema.json"] := File schema]> {[[] := Directory]}, []) bs;
  parentText ← snapshotJson (migration_before m);
  text ← dump (metadata_json m parent manual (sha256 parentText) staged.2);
  Ok (<[["migration.json"] := File (text +:+ newline)]> staged.1).

(** [d'] is [d] with [t] in place of what is below [p]. *)
Definition overlay (p : list string) (t d d' : disk) : Prop :=
  forall q, d' !! q = if below p q then t !! drop (length p) q else d !! q.

(** [d'] is [d] except for what is below [p]. *)
Definition outside (p : list string) (d d' : disk) : Prop :=
  forall q, below p q = false -> d' !! q = d !! q.

Lemma overlay_outside p t d d' : overlay p t d d' -> outside p d d'.
Proof. intros Ho q Hq. by rewrite Ho, Hq. Qed.

Lemma overlay_insert p t d d' r e :
  overlay p t d d' -> overlay p (<[r := e]> t) d (<[(p ++ r)%list := e]> d').
Proof.
  intros Ho q. destruct (decide (q = (p ++ r)%list)) as [->|Hne].
  - by rewrite below_app, drop_app_length, !lookup_insert_eq.
  - rewrite lookup_insert_ne by done. rewrite Ho. destruct (below p q) eqn:Hb; [|done].
    apply below_iff in Hb as [r' ->]. rewrite drop_app_length, lookup_insert_ne; congruence.
Qed.

Lemma outside_insert p d d' r e : outside p d d' -> outside p d (<[(p ++ r)%list := e]> d').
Proof.
  intros Ho q Hq. rewrite lookup_insert_ne; [by apply Ho|]. intros <-. by rewrite below_app in Hq.
Qed.

Lemma overlay_new p d : tree d -> d !! p = None -> overlay p {[[] := Directory]} d (<[p := Directory]> d).
Proof.
  intros Ht Hp q. destruct (decide (q = p)) as [->|Hne].
  - rewrite below_refl, lookup_insert_eq, drop_all. by rewrite lookup_singleton_eq.
  - rewrite lookup_insert_ne by done. destruct (below p q) eqn:Hb; [|done].
    rewrite (tree_below d p q) by (done || by rewrite Hp). apply below_iff in Hb as [r ->].
    rewrite drop_app_length, lookup_singleton_ne; [done|]. intros <-. by rewrite app_nil_r in Hne.
Qed.

(** A scratch directory: the contents are as said unless an exception ends the work. *)
Definition staging (p : list string) (d : disk) {A} (contents : A -> disk -> Prop)
    (r : result error A) (d' : disk) : Prop :=
  match r with Ok a => exists t, contents a t /\ overlay p t d d' | Err _ => outside p d d' end.

Lemma write_staged p r value (t d d' : disk) :
  overlay p t d d' ->
  wp (writeFile (p ++ r)%list value) (staging p d (fun _ t' => t' = <[r := File value]> t)) d'.
Proof.
  intros Ho. apply wp_writeFile.
  - intros _. eexists. split; [done|]. by apply overlay_insert.
  - by eapply overlay_outside.
  - intros written. apply outside_insert. by eapply overlay_outside.
Qed.

Lemma create_staged p r (t d d' : disk) :
  overlay p t d d' ->
  wp (create_directory (p ++ r)%list) (staging p d (fun _ t' => t' = <[r := Directory]> t)) d'.
Proof.
  intros Ho. apply wp_create_directory.
  - intros _ _. eexists. split; [done|]. by apply overlay_insert.
  - intros Hp. exists (<[r := Directory]> t). split; [done|].
    rewrite <- (insert_id d' (p ++ r)%list Directory) by done. by apply overlay_insert.
  - intros ?. by eapply overlay_outside.
Qed.

(** From one step of the work to the next. *)
Lemma wp_staged {A B} p d (m : IO A) (k : A -> IO B) (contents : A -> disk -> Prop) (Q : result error B -> disk -> Prop) d' :
  (forall (e : error) d', outside p d d' -> Q (Err e) d') -> wp m (staging p d contents) d' ->
  (forall a t d', contents a t -> overlay p t d d' -> wp (k a) Q d') -> wp (m ≫= k) Q d'.
Proof.
  intros HQ Hm Hk. apply io_bind. eapply io_mono; [exact Hm|]. intros [a|e] d2; [|apply HQ].
  intros (t & Hc & Ho). by eapply Hk.
Qed.

Lemma wp_staged_lift {A B} p d (r : res A) (k : A -> IO B) (Q : result error B -> disk -> Prop) t d' :
  (forall (e : error) d', outside p d d' -> Q (Err e) d') -> overlay p t d d' ->
  (forall a, r = Ok a -> wp (k a) Q d') -> wp (lift r ≫= k) Q d'.
Proof.
  intros HQ Ho Hk. apply io_bind, io_lift; [intros a Ha; by apply Hk|]. intros e _. eapply HQ. by eapply overlay_outside.
Qed.

Lemma stage_backend_wp m metadata b t d d' :
  overlay staging_path t d d' ->
  wp (stage_backend m metadata b)
    (staging staging_path d (fun metadata' t' => draft_backend m (t, metadata) b = Ok (t', metadata'))) d'.
Proof.
  intros Ho. unfold stage_backend.
  eapply wp_staged_lift; [done..|]. intros name Hname. eapply wp_staged_lift; [done..|]. intros script Hscript.
  eapply wp_staged_lift; [done..|]. intros before_ Hbefore. eapply wp_staged_lift; [done..|]. intros after_ Hafter.
  eapply wp_staged_lift; [done..|]. intros upText Hup. eapply wp_staged_lift; [done..|]. intros downText Hdown.
  eapply wp_staged; [done|by apply create_staged|]. intros ? t1 d1 -> Ho1.
  eapply wp_staged_lift; [done..|]. intros up_ Hsql.
  eapply wp_staged; [done|by apply (write_staged staging_path [name; "up.sql"])|]. intros ? t2 d2 -> Ho2.
  eapply (wp_staged _ _ _ _ (fun _ t' => exists down_,
    (match down script with Some sql => Some <$> normalizeSql sql | None => Ok None end) = Ok down_ /\
    t' = match down_ with
         | Some sql => <[[name; "down.sql"] := File sql]> (<[[name; "up.sql"] := File up_]> (<[[name] := Directory]> t))
         | None => <[[name; "up.sql"] := File up_]> (<[[name] := Directory]> t)
         end)); [done| |].
  { destruct (down script) as [sql|].
    - eapply wp_staged_lift; [done..|]. intros sql' ->.
      eapply io_mono; [by apply (write_staged staging_path [name; "down.sql"])|].
      intros [?|?] d3; [|done]. intros (t3 & -> & Ho3). eexists. split; [|done]. by exists (Some sql').
    - apply io_ret. eexists. split; [|done]. by exists None. }
  intros ? t3 d3 (down_ & Hdown_ & ->) Ho3. apply io_ret. eexists. split; [|done].
  unfold draft_backend. rewrite Hname, bind_Ok, Hscript, bind_Ok, Hbefore, bind_Ok, Hafter, bind_Ok, Hup, bind_Ok, Hdown, bind_Ok,
    Hsql, bind_Ok, Hdown_. done.
Qed.

Lemma stage_backends_wp m bs metadata t d d' :
  overlay staging_path t d d' ->
  wp (foldIO (stage_backend m) metadata bs)
    (staging staging_path d (fun metadata' t' => foldM (draft_backend m) (t, metadata) bs = Ok (t', metadata'))) d'.
Proof.
  revert metadata t d'. induction bs as [|b bs IH]; intros metadata t d' Ho; cbn [foldIO foldM].
  - apply io_ret. by exists t.
  - eapply wp_staged; [done|by apply stage_backend_wp|]. intros metadata2 t2 d2 -> Ho2. cbn [mbind result_bind]. by apply IH.
Qed.
End draft.

(** ** Publication *)
Section publication.
Context `{ProjectLibrary, DirectoryOrder, Platform}.

Lemma directory_name_scratch m name :
  contains_char "_"%char name = false -> directory_name m <> name.
Proof. intros Hn <-. unfold directory_name in Hn. rewrite !contains_char_app, orb_true_r in Hn. done. Qed.

Lemma draft_directory bs m parent manual t : draft_files bs m parent manual = Ok t -> t !! [] = Some Directory.
Proof.
  unfold draft_files. intros (schema & _ & (staged & Hs & (p & _ & (text & _ & [= <-])%bind_Ok_iff)%bind_Ok_iff)%bind_Ok_iff)%bind_Ok_iff.
  rewrite lookup_insert_ne by done.
  eapply (foldM_inv (fun st => st.1 !! [] = Some Directory)) in Hs; [done| |].
  - simpl. by rewrite lookup_insert_ne, lookup_singleton_eq by done.
  - clear. intros [t md] [t' md'] b _ Ht. simpl in *. unfold draft_backend. intros H'.
    repeat (apply bind_Ok_iff in H' as (? & _ & H')). injection H' as <- _.
    by case_match; rewrite !lookup_insert_ne by done.
Qed.

(** The draft is in its directory and nothing else but the scratch directory changed. *)
Definition published (bs : list BackendType) (m : Migration) (parent : Z) (manual : bool) (d d' : disk) : Prop :=
  exists t, draft_files bs m parent manual = Ok t /\
    (forall q, below [directory_name m] q = true -> q <> [directory_name m] -> d !! q = None) /\
    forall q, below staging_path q = false -> d' !! q = if below [directory_name m] q then t !! drop 1 q else d !! q.

Lemma published_outside bs m parent manual d d1 d2 :
  outside staging_path d1 d2 -> published bs m parent manual d d1 -> published bs m parent manual d d2.
Proof.
  intros Ho (t & Ht & Hnone & Hq). exists t. split; [done|]. split; [done|]. intros q Hb. rewrite Ho by done. by apply Hq.
Qed.

Lemma rename_staged bs m parent manual t d d' :
  tree d -> d !! staging_path = None -> draft_files bs m parent manual = Ok t -> overlay staging_path t d d' ->
  can_rename d' staging_path [directory_name m] = true ->
  published bs m parent manual d (moved d' staging_path [directory_name m]).
Proof.
  intros Ht Hnone Hdraft Ho Hren. pose proof (draft_directory _ _ _ _ _ Hdraft) as Hroot.
  assert (Hne : directory_name m <> ".orm-cxx-staging") by by apply directory_name_scratch.
  assert (Hds : forall q, below [directory_name m] q = true -> below staging_path q = false).
  { intros q [r ->]%below_iff. by apply below_head. }
  assert (Hsame : forall q, below [directory_name m] q = true -> d' !! q = d !! q) by (intros q Hq; by rewrite Ho, (Hds q)).
  exists t. split; [done|]. split.
  - intros q Hb Hq. rewrite <- (Hsame q Hb). unfold can_rename in Hren.
    rewrite (Ho staging_path), below_refl, drop_all, Hroot in Hren. rewrite (Hsame _ (below_refl _)) in Hren.
    rewrite (Hsame q Hb). destruct (d !! [directory_name m]) as [[| | |]|] eqn:Hd; try done.
    + apply andb_true_iff in Hren as [Hc%bool_decide_eq_true _]. apply below_iff in Hb as [r ->].
      destruct r as [|x r]; [by rewrite app_nil_r in Hq|]. destruct (d !! ([directory_name m] ++ x :: r)%list) eqn:He; [exfalso|done].
      assert (Hx : x ∈ children d [directory_name m]) by (apply (tree_child _ _ _ r); [done|]; rewrite He; by eexists).
      apply children_spec in Hx. rewrite <- Hsame in Hx by apply below_app. apply children_spec in Hx. rewrite Hc in Hx.
      by apply not_elem_of_nil in Hx.
    + apply (tree_below d [directory_name m]); [done| |done..]. by rewrite Hd.
  - intros q Hq. rewrite moved_lookup by (by apply below_head; congruence).
    destruct (below [directory_name m] q) eqn:Hb.
    + rewrite Ho, below_app, drop_app_length. done.
    + by rewrite Hq, Ho, Hq.
Qed.

Lemma publishDraft_wp bs m parent manual d :
  tree d ->
  wp (publishDraft bs m parent manual) (fun r d' =>
    match r with Ok _ => published bs m parent manual d d' | Err _ => outside staging_path d d' end) d.
Proof.
  intros Ht. unfold publishDraft, with_staging, createExclusiveDirectory.
  apply io_bind, io_bind, wp_create_directory; cycle 1.
  { intros _. by apply io_throw. }
  { done. }
  intros Hnone _. apply io_ret, io_scope. eapply io_mono; cycle 1.
  { intros r d1 Hr. apply wp_remove_all. intros d2 Hd2.
    instantiate (1 := fun r d1 => match r with Ok _ => published bs m parent manual d d1 | Err _ => outside staging_path d d1 end) in Hr.
    destruct r; [by eapply published_outside|]. intros q Hq. by rewrite Hd2, Hr. }
  pose proof (overlay_new staging_path d Ht Hnone) as Ho. revert Ho. generalize (<[staging_path := Directory]> d). intros d0 Ho.
  assert (HQ : forall (e : error) d1, outside staging_path d d1 -> outside staging_path d d1) by done.
  eapply wp_staged_lift; [exact HQ|done|]. intros schema Hschema.
  eapply wp_staged; [exact HQ|by apply (write_staged staging_path ["schema.json"])|]. intros ? t1 d1 -> Ho1.
  eapply wp_staged; [exact HQ|by apply stage_backends_wp|]. intros metadata t2 d2 Ht2 Ho2.
  eapply wp_staged_lift; [exact HQ|done|]. intros parentText Hparent.
  eapply wp_staged_lift; [exact HQ|done|]. intros text Htext.
  eapply wp_staged; [exact HQ|by apply (write_staged staging_path ["migration.json"])|]. intros ? t3 d3 -> Ho3.
  apply wp_publishDirectory; [|by intros; eapply overlay_outside]. intros Hren.
  eapply rename_staged; [done..| |exact Ho3|done].
  unfold draft_files. by rewrite Hschema, bind_Ok, Ht2, bind_Ok, Hparent, bind_Ok; cbn [fst snd]; rewrite Htext.
Qed.

(** *** The lock *)

(** What the operations keep to themselves while they run. *)
Definition scratch (q : list string) : bool := below lock_path q || below staging_path q.

Definition same_project (d d' : disk) : Prop := forall q, scratch q = false -> d' !! q = d !! q.

Lemma with_lock_wp {A} (body : IO A) (Q : result error A -> disk -> Prop) d :
  (forall e : error, Q (Err e) d) ->
  (d !! lock_path = None -> is_directory_at d [] = true ->
   wp body (fun r d1 => forall d2, outside lock_path d1 d2 -> Q r d2) (<[lock_path := Directory]> d)) ->
  wp (with_lock body) Q d.
Proof.
  intros Herr Hbody. unfold with_lock, createExclusiveDirectory. apply io_bind, io_bind, wp_create_directory; cycle 1.
  - intros _. by apply io_throw.
  - done.
  - intros Hnone Hroot. apply io_ret, io_scope. eapply io_mono; [by apply Hbody|]. intros r d1 HQ.
    apply wp_remove; apply HQ; [|done]. intros q Hq. apply lookup_delete_ne. intros <-. by rewrite below_refl in Hq.
Qed.

Lemma reads_loadEntries bs : reads (loadEntries bs).
Proof.
  unfold loadEntries, projectBackends, readJson, load_next, load_entry, load_scripts, sqlFiles, sqlFiles_backend,
    script_digest, check_backend_file, check_entry_file, list_entry, read_scripts.
  solve_reads.
Qed.

Lemma reads_new_parent bs : reads (new_parent bs).
Proof. pose proof reads_loadEntries. unfold new_parent. solve_reads; auto. Qed.

(** The theorem's words for what [make] and [makeManual] leave behind. *)
Definition draft_published (bs : list BackendType) (name : string) (version : Z) (manual : bool) (d d' : disk) : Prop :=
  exists m t,
    version_of m = version /\ migration_name m = name /\ draft_files bs m (version - 1) manual = Ok t /\
    (forall q, below [directory_name m] q = true -> q <> [directory_name m] -> d !! q = None) /\
    forall q, scratch q = false -> d' !! q = if below [directory_name m] q then t !! drop 1 q else d !! q.

Lemma publish_locked bs m parent manual d name :
  tree d -> d !! lock_path = None -> is_directory_at d [] = true -> migration_name m = name -> version_of m = (parent + 1)%Z ->
  wp (publishDraft bs m parent manual ;; mret (parent + 1)%Z)
    (fun r d1 => forall d2, outside lock_path d1 d2 ->
       match r with Ok v => draft_published bs name v manual d d2 | Err _ => same_project d d2 end)
    (<[lock_path := Directory]> d).
Proof.
  intros Ht Hlock Hroot Hname Hversion.
  assert (Hne : directory_name m <> ".orm-cxx-lock") by by apply directory_name_scratch.
  assert (Hlocked : forall q, below lock_path q = false -> (<[lock_path := Directory]> d : disk) !! q = d !! q).
  { intros q Hq. apply lookup_insert_ne. intros <-. by rewrite below_refl in Hq. }
  apply io_bind. eapply io_mono; [apply publishDraft_wp; by apply tree_insert_directory|]. intros [?|e] d1.
  - intros (t & Hdraft & Hnone & Hq). apply io_ret. intros d2 Ho. exists m, t. rewrite Z.add_simpl_r. split_and?; [done..| |].
    + intros q Hb Hne'. rewrite <- Hlocked; [by apply Hnone|]. apply below_iff in Hb as [r ->]. by apply below_head.
    + intros q [Hl Hs]%orb_false_iff. by rewrite Ho, Hq, Hlocked.
  - intros Ho d2 Ho2 q [Hl Hs]%orb_false_iff. by rewrite Ho2, Ho, Hlocked.
Qed.
End publication.

Lemma drafts_published `{ProjectLibrary, DirectoryOrder, Platform} bs name models decisions d :
  tree d ->
  wp (make bs name models decisions) (fun r d' =>
    match r with Ok v => draft_published bs name v false d d' | Err _ => same_project d d' end) d /\
  wp (makeManual bs name models) (fun r d' =>
    match r with Ok v => draft_published bs name v true d d' | Err _ => same_project d d' end) d.
Proof.
  intros Ht. split; apply wp_projectOperation; apply io_bind, io_lift; intros ? _; try done;
    (apply with_lock_wp; [done|]); intros Hlock Hroot; apply io_bind, wp_reads; try apply reads_new_parent.
  all: assert (Hsame : forall d2, outside lock_path (<[lock_path := Directory]> d) d2 -> same_project d d2)
    by (intros d2 Ho q [Hl Hs]%orb_false_iff; rewrite Ho by done; apply lookup_insert_ne; intros <-; by rewrite below_refl in Hl).
  all: intros [[parent before_]|e]; [|by intros d2 Ho ?; apply Hsame].
  - apply io_bind, io_lift; [|by intros e _ d2 Ho ?; apply Hsame]. intros diff _.
    apply io_bind, io_lift; [|by intros e _ d2 Ho ?; apply Hsame]. intros ? _.
    apply io_bind, io_lift; [|by intros e _ d2 Ho ?; apply Hsame]. intros [m diff'] Hgen%generate_Ok.
    destruct Hgen as (_ & _ & _ & _ & _ & _ & inverse & ss & _ & _ & ->). cbn [fst].
    eapply io_mono; [by apply publish_locked|]. intros [v|e] d1 Hr d2 Ho; [by apply Hr|intros ?; by apply Hr].
  - apply io_bind, io_lift; [|by intros e _ d2 Ho ?; apply Hsame]. intros after_ _.
    eapply io_mono; [by apply publish_locked|]. intros [v|e] d1 Hr d2 Ho; [by apply Hr|intros ?; by apply Hr].
Qed.

(** C12: whatever the calls to the file system end with, [make] and [makeManual] publish
    a whole draft or nothing: when they return the version, its directory holds exactly
    the files of a draft of that version and name, where nothing was before; when they
    throw, no file of the project has changed.  Besides, only the lock and the staging
    directory may be left behind. *)
Theorem make_all_or_nothing `{ProjectLibrary, DirectoryOrder, Platform} bs name models decisions d :
  tree d ->
  wp (make bs name models decisions) (fun r d' =>
    match r with Ok v => draft_published bs name v false d d' | Err _ => same_project d d' end) d /\
  wp (makeManual bs name models) (fun r d' =>
    match r with Ok v => draft_published bs name v true d d' | Err _ => same_project d d' end) d.
Proof. apply drafts_published. Qed.
