(* ===== verification/ProjectLoading.v ===== *)
(** ProjectLoading: what the loader of a migration project guarantees -- the chain of its
    migrations and the seal of those that are finalized. *)
From S2P Require Import Prelude Foundation Chrono Values Codec Schema Sha256 Models PhysicalSql Snapshot Diff SqlValidation Literals SchemaJson Generation Catalog FileSystem Project Disk Projects.
Local Open Scope string_scope.
Implicit Types (p q : list string).

Section specification.
Context `{ProjectLibrary}.

(** ** The digests of the files of a migration *)
Definition content (d : disk) p : res string :=
  match d !! p with Some (File c) => Ok c | _ => Err (invalidCatalog "Migration metadata and SQL must be regular files") end.

Definition script_digest_of (d : disk) p : res string :=
  text ← content d p; sql ← normalizeSql text; Ok (sha256 sql).

Definition backend_digests (d : disk) (entry : list string) (found : gmap string string) (b : BackendType)
    : res (gmap string string) :=
  name ← backendName b;
  up_ ← script_digest_of d (entry ++ [name; "up.sql"])%list;
  let found := <[name +:+ "/up.sql" := up_]> found in
  if bool_decide (is_Some (d !! (entry ++ [name; "down.sql"])%list)) then
    down_ ← script_digest_of d (entry ++ [name; "down.sql"])%list;
    Ok (<[name +:+ "/down.sql" := down_]> found)
  else Ok found.

Definition file_digests (d : disk) (entry : list string) (bs : list BackendType) : res (gmap string string) :=
  migration ← content d (entry ++ ["migration.json"])%list;
  schema ← content d (entry ++ ["schema.json"])%list;
  foldM (backend_digests d entry)
    (<["schema.json" := sha256 schema]> (<["migration.json" := sha256 migration]> ∅)) bs.

(** ready.json records the digests of the files that are there, and the checksums of the
    scripts that are loaded. *)
Definition sealed (d : disk) (bs : list BackendType) (e : ProjectEntry) : Prop :=
  exists text ready recorded checksums,
    d !! (entry_path e ++ ["ready.json"])%list = Some (File text) /\ parse_project text = Ok ready /\
    (at_field ready "files" ≫= get_string_map) = Ok recorded /\ file_digests d (entry_path e) bs = Ok recorded /\
    at_field ready "checksums" = Ok checksums /\
    forall b s, (b, s) ∈ scripts (entry_migration e) ->
      exists name sum, backendName b = Ok name /\ checksum s = Ok sum /\ string_field checksums name = Ok sum.

(** ** The chain *)

(** One entry, between the snapshots before and after it. *)
Definition linked_entry (d : disk) (bs : list BackendType) (before_ : SchemaSnapshot) (e : ProjectEntry)
    (after_ : SchemaSnapshot) : Prop :=
  let m := entry_migration e in
  (exists dir, entry_path e = [dir] /\ directory_identity dir = Ok (entry_version e, entry_name e)) /\
  version_of m = entry_version e /\ migration_name m = entry_name e /\
  migration_before m = before_ /\ migration_after m = after_ /\
  snapshot_ok after_ /\ canonicalize after_ = after_ /\
  (forall b s, (b, s) ∈ scripts m -> snapshotHash before_ b = Ok (beforeHash s) /\ snapshotHash after_ b = Ok (afterHash s)) /\
  (entry_ready e = true -> entry_ok m /\ sealed d bs e).

(** [chain es s v draft]: the entries lead from the empty schema to [s], the last one of
    version [v]. *)
Inductive chain (d : disk) (bs : list BackendType) : list ProjectEntry -> SchemaSnapshot -> Z -> bool -> Prop :=
| chain_empty s : emptySnapshot bs = Ok s -> chain d bs [] s 0 false
| chain_next es before_ parent e after_ :
    chain d bs es before_ parent false -> (parent < entry_version e)%Z -> linked_entry d bs before_ e after_ ->
    chain d bs (es ++ [e])%list after_ (entry_version e) (negb (entry_ready e)).
End specification.

(** ** Files *)
Section files.
Context `{ProjectLibrary, DirectoryOrder, Platform}.

Lemma reads_to_content p d : reads_to (readFile p) d (fun c => content d p = Ok c).
Proof. eapply reads_to_weaken; [apply reads_to_readFile|]. intros c Hc. unfold content. by rewrite Hc. Qed.

Lemma reads_to_script_digest p d : reads_to (script_digest p) d (fun s => script_digest_of d p = Ok s).
Proof.
  unfold script_digest, script_digest_of. eapply reads_to_bind; [apply reads_to_content|]. intros c ->.
  eapply reads_to_bind; [apply reads_to_lift|]. intros sql Hsql. apply reads_to_ret. by rewrite bind_Ok, Hsql.
Qed.

(** A step of which only the effect on the files matters. *)
Lemma reads_to_skip {A B} (m : IO A) (k : A -> IO B) d (P : B -> Prop) :
  reads m -> (forall a, reads_to (k a) d P) -> reads_to (m ≫= k) d P.
Proof. intros Hm Hk. eapply reads_to_bind; [by apply reads_to_any|]. auto. Qed.

Lemma reads_to_lifted {A B} (r : res A) (k : A -> IO B) d (P : B -> Prop) :
  (forall a, r = Ok a -> reads_to (k a) d P) -> reads_to (lift r ≫= k) d P.
Proof. intros Hk. eapply reads_to_bind; [apply reads_to_lift|]. auto. Qed.

Lemma reads_to_checked {A} (c : bool) (message : string) (k : unit -> IO A) d (P : A -> Prop) :
  (c = false -> reads_to (k tt) d P) -> reads_to (fail_if c message ≫= k) d P.
Proof. intros Hk. eapply reads_to_bind; [apply reads_to_fail_if|]. intros [] Hc. auto. Qed.

Lemma sqlFiles_digests entry bs d : reads_to (sqlFiles entry bs) d (fun found => file_digests d entry bs = Ok found).
Proof.
  unfold sqlFiles, file_digests. eapply reads_to_bind; [apply reads_to_content|]. intros migration ->.
  eapply reads_to_bind; [apply reads_to_content|]. intros schema Hs. rewrite bind_Ok, Hs, bind_Ok.
  apply (reads_to_foldM _ (backend_digests d entry)). intros found b. unfold sqlFiles_backend, backend_digests.
  apply reads_to_lifted. intros name ->. rewrite bind_Ok.
  apply reads_to_skip; [solve_reads|]. intros valid. apply reads_to_checked. intros _.
  apply reads_to_skip; [solve_reads|]. intros names. apply reads_to_skip; [unfold check_backend_file; solve_reads|]. intros ?.
  eapply reads_to_bind; [apply reads_to_script_digest|]. intros up_ Hup. rewrite <- app_assoc in Hup. cbn [app] in Hup. rewrite Hup, bind_Ok.
  eapply reads_to_bind; [apply reads_to_query|]. intros has_down ->. rewrite <- app_assoc. cbn [app].
  case_bool_decide; [|by apply reads_to_ret].
  eapply reads_to_bind; [apply reads_to_script_digest|]. intros down_ ->. by apply reads_to_ret.
Qed.

Lemma reads_to_readJson p d :
  reads_to (readJson p) d (fun v => exists text, d !! p = Some (File text) /\ parse_project text = Ok v).
Proof.
  unfold readJson. eapply reads_to_bind; [apply reads_to_readFile|]. intros text Htext.
  eapply reads_to_weaken; [apply reads_to_lift|]. intros v Hv. exists text. split; [done|].
  destruct (parse_project text) as [|[]]; done.
Qed.

(** *** Entries *)
Definition listed (d : disk) (e : ProjectEntry) : Prop :=
  exists dir, entry_path e = [dir] /\ directory_identity dir = Ok (entry_version e, entry_name e).

Lemma list_entry_listed found name d :
  Forall (listed d) found -> reads_to (list_entry found name) d (Forall (listed d)).
Proof.
  intros Hf. unfold list_entry. case_bool_decide.
  - apply reads_to_skip; [solve_reads|]. intros ?. by apply reads_to_ret.
  - apply reads_to_skip; [solve_reads|]. intros [|]; [by apply reads_to_ret|].
    apply reads_to_skip; [solve_reads|]. intros valid. apply reads_to_checked. intros _.
    apply reads_to_lifted. intros [version rest] Hid. apply reads_to_skip; [solve_reads|]. intros ready.
    apply reads_to_ret. apply Forall_app. split; [done|]. constructor; [|done]. by exists name.
Qed.

(** *** Ready migrations *)
Lemma validated_Ok m m' :
  validated m = Ok m' -> canonicalize (migration_before m) = migration_before m ->
  canonicalize (migration_after m) = migration_after m ->
  version_of m' = version_of m /\ migration_name m' = migration_name m /\ migration_before m' = migration_before m /\
  migration_after m' = migration_after m /\ entry_ok m'.
Proof.
  unfold validated, makeCatalog. intros (ms & (st & Hst & Hms)%bind_Ok_iff & Hm)%bind_Ok_iff Hb Ha.
  change (merge_sort version_le [m]) with [m] in Hst. cbn [foldM] in Hst. apply bind_Ok_iff in Hst as (st' & Hst & [= ->]).
  pose proof Hst as (m2 & -> & Hv & Hn & _ & _ & Hok & _)%catalogMigration_Ok. injection Hms as <-. injection Hm as <-.
  unfold catalogMigration in Hst. apply seq_Ok_iff in Hst as (_ & (snapshots & Hs & (ss & _ & Hst)%bind_Ok_iff)%bind_Ok_iff).
  destruct (hasSnapshots m).
  - apply fmap_Ok_iff in Hs as ([b a] & Hs & ->). unfold catalogSnapshots in Hs. cbv zeta in Hs.
    repeat (apply bind_Ok_iff in Hs as (? & _ & Hs)). injection Hs as <- <-. injection Hst as <- _ _. by rewrite Hb, Ha in *.
  - injection Hs as <-. injection Hst as <- _ _. done.
Qed.
End files.

(** ** The loader *)
Section loader.
Context `{ProjectLibrary, DirectoryOrder, Platform}.

Lemma differs_Ok_false {A} `{EqDecision A} (a b : res A) : differs a b = Ok false -> exists x, a = Ok x /\ b = Ok x.
Proof.
  unfold differs. intros (x & -> & (y & -> & Hxy)%bind_Ok_iff)%bind_Ok_iff. case_bool_decide; [|done]. subst y. by exists x.
Qed.

Lemma any_of_false cs : any_of cs = Ok false -> Forall (fun c => c = Ok false) cs.
Proof.
  induction cs as [|c cs IH]; cbn [any_of]; [constructor|]. intros ([|] & Hc & H')%bind_Ok_iff; [done|]. constructor; auto.
Qed.

Lemma emplace_elem {V} b (v : V) m c w : (c, w) ∈ BackendMap.emplace b v m -> (c, w) = (b, v) \/ (c, w) ∈ m.
Proof.
  induction m as [|[b' v'] m IH]; simpl; [by intros ?%list_elem_of_singleton; left|].
  destruct (_ <? _)%Z; [by intros [|]%elem_of_cons; [left|right]|].
  case_bool_decide; [by right|]. intros [->|Hin]%elem_of_cons; [right; left|].
  apply IH in Hin as [|]; [by left|by right; right].
Qed.

Definition hashed (before_ after_ : SchemaSnapshot) (ss : BackendMap.t SqlMigration) : Prop :=
  forall b s, (b, s) ∈ ss -> snapshotHash before_ b = Ok (beforeHash s) /\ snapshotHash after_ b = Ok (afterHash s).

Lemma load_scripts_hashed entry metadata before_ after_ found b d :
  hashed before_ after_ found -> reads_to (load_scripts entry metadata before_ after_ found b) d (hashed before_ after_).
Proof.
  intros Hf. unfold load_scripts. apply reads_to_lifted. intros name _. apply reads_to_lifted. intros value _.
  apply reads_to_lifted. intros ? _. apply reads_to_skip; [unfold read_scripts; solve_reads|]. intros up_.
  apply reads_to_skip; [solve_reads|]. intros has_down. apply reads_to_skip; [unfold read_scripts; solve_reads|]. intros down_.
  apply reads_to_lifted. intros beforeHash_ _. apply reads_to_lifted. intros afterHash_ _.
  apply reads_to_lifted. intros upContext_ _. apply reads_to_lifted. intros downContext_ _.
  apply reads_to_lifted. intros broken Hb. apply reads_to_checked. intros ->. apply reads_to_ret.
  apply any_of_false in Hb. apply Forall_cons in Hb as [(x & [= <-] & Hbefore)%differs_Ok_false Hb].
  apply Forall_cons in Hb as [(y & [= <-] & Hafter)%differs_Ok_false _].
  intros c s [[= -> ->]|Hin]%emplace_elem; [done|by apply Hf].
Qed.

Lemma check_ready_Ok ready actual bs ss :
  check_ready ready actual bs ss = Ok tt ->
  (at_field ready "files" ≫= get_string_map) = Ok actual /\
  exists checksums, at_field ready "checksums" = Ok checksums /\
    forall b s, (b, s) ∈ ss -> exists name sum, backendName b = Ok name /\ checksum s = Ok sum /\ string_field checksums name = Ok sum.
Proof.
  unfold check_ready. intros (_ & (broken & Hb & (->%throw_if_Ok_iff & (checksums & Hc & (_ & Hall)%seq_Ok_iff)%bind_Ok_iff)%seq_Ok_iff)%bind_Ok_iff)%seq_Ok_iff.
  apply any_of_false in Hb. do 2 apply Forall_cons in Hb as [_ Hb]. apply Forall_cons in Hb as [(x & Hx & [= <-])%differs_Ok_false _].
  split; [done|]. exists checksums. split; [done|]. intros b s Hin. apply forM__Ok_iff in Hall. rewrite Forall_forall in Hall.
  specialize (Hall _ Hin). unfold check_checksum in Hall. cbn [fst snd] in Hall.
  apply bind_Ok_iff in Hall as (name & Hn & (broken & Hd & ->%throw_if_Ok_iff)%bind_Ok_iff).
  apply differs_Ok_false in Hd as (sum & Hs & Hsum). by exists name, sum.
Qed.

Lemma snapshotFromJson_ok text s : snapshotFromJson text = Ok s -> snapshot_ok s /\ canonicalize s = s.
Proof.
  unfold snapshotFromJson, parseMetadata. intros Hs. assert (Hd : (strictJson text ≫= decodeSnapshot) = Ok s) by (by repeat case_match).
  apply bind_Ok_iff in Hd as (v & _ & Hd). unfold decodeSnapshot in Hd. repeat (apply bind_Ok_iff in Hd as (? & ? & Hd)).
  injection Hd as <-. match goal with Hv : validateSnapshot _ = Ok ?u |- _ => destruct u; apply validateSnapshot_snapshot_ok in Hv as Hok end.
  split; [done|]. apply canonicalize_idemp. exact (proj1 (canonicalize_ok _) Hok).
Qed.

Lemma emptySnapshot_canonical bs s : emptySnapshot bs = Ok s -> canonicalize s = s.
Proof.
  intros (Hf & _ & _ & Ht)%emptySnapshot_Ok. destruct s as [f bs']. unfold canonicalize. simpl in *. f_equal.
  rewrite <- (map_id bs') at 2. apply map_ext_in. intros [b [sb p ts]] Hin%list_elem_of_In. specialize (Ht _ _ Hin). simpl in Ht.
  by subst ts.
Qed.

Lemma load_entry_linked bs before_ parent entry d :
  listed d entry -> canonicalize before_ = before_ ->
  reads_to (load_entry bs before_ parent entry) d (fun l => linked_entry d bs before_ (with_migration entry l.1) l.2).
Proof.
  intros Hlisted Hcan. unfold load_entry. apply reads_to_skip; [solve_reads|]. intros names.
  apply reads_to_skip; [unfold check_entry_file; solve_reads|]. intros ?.
  apply reads_to_skip; [unfold readJson; solve_reads|]. intros metadata. apply reads_to_lifted. intros ? _.
  eapply (reads_to_bind _ _ _ (fun s => snapshot_ok s /\ canonicalize s = s)).
  { apply reads_to_skip; [solve_reads|]. intros text. eapply reads_to_weaken; [apply reads_to_lift|]. apply snapshotFromJson_ok. }
  intros after_ [Hok Hcan']. apply reads_to_lifted. intros ? _. apply reads_to_lifted. intros scriptsMetadata _.
  apply reads_to_checked. intros _.
  eapply reads_to_bind; [apply (reads_to_foldIO _ _ (fun _ => hashed before_ after_)); [by intros ? ? ?%not_elem_of_nil|]|].
  { intros done_ found b Hf. by apply load_scripts_hashed. }
  intros ss Hss. eapply reads_to_bind; [apply sqlFiles_digests|]. intros actual Hactual.
  destruct (entry_ready entry) eqn:Hready.
  - apply reads_to_lifted. intros m' Hm'. eapply reads_to_bind; [apply reads_to_readJson|]. intros ready (text & Htext & Hparse).
    apply reads_to_lifted. intros [] Hseal. apply reads_to_ret. cbn [fst snd].
    apply validated_Ok in Hm'; [|done..]. cbn [version_of migration_name migration_before migration_after] in Hm'.
    destruct Hm' as (Hv & Hn & Hb & Ha & Hentry). unfold linked_entry. cbn [entry_migration with_migration entry_version entry_name entry_ready entry_path].
    split; [done|]. split_and?; try done.
    + intros b s Hin. destruct Hentry as (_ & _ & _ & Hall). destruct (Hall b s Hin) as (_ & _ & _ & _ & _ & _ & Hhash).
      rewrite <- Hb, <- Ha. apply Hhash. unfold hasSnapshots. destruct Hok as (_ & Hne & _). rewrite Ha.
      rewrite (bool_decide_false (backends after_ = [])) by done. by rewrite orb_true_r.
    + intros _. split; [done|]. apply check_ready_Ok in Hseal as (Hfiles & checksums & Hc & Hsums).
      exists text, ready, actual, checksums. by split_and?.
  - apply reads_to_ret. unfold linked_entry. cbn [fst snd entry_migration with_migration entry_version entry_name entry_ready entry_path
      version_of migration_name migration_before migration_after scripts].
    split; [done|]. rewrite Hready. split_and?; done.
Qed.

Lemma chain_canonical d bs es s v draft : chain d bs es s v draft -> canonicalize s = s.
Proof. intros [? ?%emptySnapshot_canonical|es' before_ parent e after_ _ _ Hl]; [done|]. apply Hl. Qed.

Definition state_chained (d : disk) (bs : list BackendType) (st : Loading) : Prop :=
  chain d bs (loaded st) (loading_before st) (loading_parent st) (loading_draft st).

Lemma load_next_chained bs st entry d :
  listed d entry -> state_chained d bs st -> reads_to (load_next bs st entry) d (state_chained d bs).
Proof.
  intros Hl Hst. unfold load_next. apply reads_to_checked. intros [Hv Hd]%orb_false_iff. apply Z.leb_gt in Hv.
  eapply reads_to_bind; [by apply load_entry_linked; [|by eapply chain_canonical]|]. intros [m after_] Hlinked.
  apply reads_to_ret. unfold state_chained in *. cbn [loaded loading_before loading_parent loading_draft fst snd] in *.
  rewrite Hd in *. cbn [orb]. by eapply (chain_next d bs _ _ _ (with_migration entry m)).
Qed.

Lemma load_all_chained bs d entries st :
  Forall (listed d) entries -> state_chained d bs st -> reads_to (foldIO (load_next bs) st entries) d (state_chained d bs).
Proof.
  intros Hl. revert st. induction Hl as [|e es He _ IH]; intros st Hst; cbn [foldIO]; [by apply reads_to_ret|].
  eapply reads_to_bind; [by apply load_next_chained|]. auto.
Qed.

Lemma loadEntries_chained bs d :
  reads_to (loadEntries bs) d (fun es => exists s v draft, chain d bs es s v draft).
Proof.
  unfold loadEntries. apply reads_to_skip; [unfold projectBackends, readJson; solve_reads|]. intros configured.
  apply reads_to_checked. intros _. apply reads_to_skip; [solve_reads|]. intros names.
  eapply (reads_to_bind _ _ _ (Forall (listed d))).
  { apply (reads_to_foldIO _ _ (fun _ => Forall (listed d))); [constructor|]. intros ? ? ?. apply list_entry_listed. }
  intros found Hfound. apply reads_to_lifted. intros before_ Hbefore.
  assert (Hsorted : Forall (listed d) (merge_sort entry_le found)) by (by rewrite merge_sort_Permutation).
  eapply (reads_to_fmap _ _ _ (fun st => chain d bs (loaded st) (loading_before st) (loading_parent st) (loading_draft st)));
    [|intros st Hst; by eexists _, _, _].
  assert (Hstart : chain d bs [] before_ 0 false) by by constructor.
  eapply reads_to_weaken; [apply (load_all_chained bs d _ (MkLoading before_ 0 false [])); done|]. done.
Qed.
End loader.

(** *** Facts of chains *)
Section chains.
Context `{ProjectLibrary}.

Lemma chain_entries d bs es s v draft e :
  chain d bs es s v draft -> e ∈ es -> exists before_ after_, linked_entry d bs before_ e after_.
Proof.
  induction 1 as [|es before_ parent e' after_ Hchain IH Hlt Hl]; [by intros ?%not_elem_of_nil|].
  intros [Hin| ->%list_elem_of_singleton]%elem_of_app; [auto|]. by eexists _, _.
Qed.

Lemma chain_versions d bs es s v draft :
  chain d bs es s v draft ->
  StronglySorted Z.lt (map entry_version es) /\ Forall (fun w => w <= v)%Z (map entry_version es) /\ (0 <= v)%Z.
Proof.
  induction 1 as [|es before_ parent e after_ Hchain (Hs & Hall & Hpos) Hlt Hl]; [by repeat constructor|].
  rewrite map_app. cbn [map]. split; [|split; [|lia]].
  - clear -Hs Hall Hlt. induction Hs as [|w ws Hs IH Hw]; simpl in *; [by repeat constructor|].
    apply Forall_cons in Hall as [Hwv Hall]. constructor; [auto|]. apply Forall_app. split; [done|]. constructor; [lia|done].
  - apply Forall_app. split; [eapply Forall_impl; [exact Hall|]; simpl; lia|]. by repeat constructor.
Qed.

Lemma chain_drafts d bs es s v draft :
  chain d bs es s v draft -> Forall (fun e => entry_ready e = true) (if draft then removelast es else es).
Proof.
  induction 1 as [|es before_ parent e after_ Hchain IH Hlt Hl]; [constructor|].
  destruct (entry_ready e) eqn:He; cbn [negb].
  - apply Forall_app. split; [done|]. by repeat constructor.
  - by rewrite removelast_last.
Qed.

(** The digests of a migration depend on the files in its directory. *)
Lemma content_same (d1 d2 : disk) p : d1 !! p = d2 !! p -> content d1 p = content d2 p.
Proof. unfold content. by intros ->. Qed.

Lemma file_digests_same (d1 d2 : disk) p bs :
  (forall r, d1 !! (p ++ r)%list = d2 !! (p ++ r)%list) -> file_digests d1 p bs = file_digests d2 p bs.
Proof.
  intros Hd. unfold file_digests.
  assert (Hdigest : forall r, script_digest_of d1 (p ++ r)%list = script_digest_of d2 (p ++ r)%list)
    by (intros r; unfold script_digest_of; by rewrite (content_same d1 d2 _ (Hd r))).
  assert (Hstep : forall found b, backend_digests d1 p found b = backend_digests d2 p found b).
  { intros found b. unfold backend_digests. destruct (backendName b) as [name|]; [|done]. rewrite !bind_Ok. by rewrite !Hdigest, Hd. }
  assert (Hfold : forall found, foldM (backend_digests d1 p) found bs = foldM (backend_digests d2 p) found bs).
  { induction bs as [|b bs IH]; intros found; [done|]. cbn [foldM]. rewrite Hstep. destruct (backend_digests d2 p found b); [|done].
    cbn [mbind result_bind]. apply IH. }
  rewrite !(content_same d1 d2) by done. destruct (content d2 (p ++ ["migration.json"])%list); [|done]. rewrite !bind_Ok.
  destruct (content d2 (p ++ ["schema.json"])%list); [|done]. apply Hfold.
Qed.
End chains.

(** C14: loading a project changes nothing, and what it returns is a chain: from the empty
    schema every migration leads on from where the one before it ended, with increasing
    versions, the hashes of both of its snapshots in its scripts, the name and version of
    its directory, and none but the last a draft. *)
Theorem loadEntries_chain `{ProjectLibrary, DirectoryOrder, Platform} bs d :
  reads_to (loadEntries bs) d (fun es =>
    exists s v draft, chain d bs es s v draft /\
      StronglySorted Z.lt (map entry_version es) /\
      Forall (fun e => entry_ready e = true) (if draft then removelast es else es)).
Proof.
  eapply reads_to_weaken; [apply loadEntries_chained|]. intros es (s & v & draft & Hc). exists s, v, draft.
  split; [done|]. split; [by apply chain_versions in Hc as [Hs _]|by eapply chain_drafts].
Qed.

(** C15: a finalized migration is loaded only when its ready.json records the digests of
    exactly the files that are in its directory now and the checksums of the scripts
    that are returned. *)
Theorem ready_entries_sealed `{ProjectLibrary, DirectoryOrder, Platform} bs d :
  reads_to (loadEntries bs) d (fun es => forall e, e ∈ es -> entry_ready e = true -> entry_ok (entry_migration e) /\ sealed d bs e).
Proof.
  eapply reads_to_weaken; [apply loadEntries_chained|]. intros es (s & v & draft & Hc) e He Hready.
  destruct (chain_entries _ _ _ _ _ _ _ Hc He) as (before_ & after_ & Hl). by apply Hl.
Qed.
