(* ===== verification/ProjectFinal.v ===== *)
(** ProjectFinal: what finalizing a draft leaves behind, and that the lock keeps other
    writers away. *)
From S2P Require Import Prelude Foundation Chrono Values Codec Schema Sha256 Models PhysicalSql Snapshot Diff SqlValidation Literals SchemaJson Generation Catalog FileSystem Project Disk Projects ProjectLoading.
Local Open Scope string_scope.
Implicit Types (p q : list string).

(** ** Drafts *)
Section drafts.
Context `{ProjectLibrary, DirectoryOrder, Platform}.

(** A script that is read is that of a file: the reverse one where there is such a file. *)
Definition script_on_disk (d : disk) (dir : string) (b : BackendType) (s : SqlMigration) : Prop :=
  exists name text,
    backendName b = Ok name /\ d !! [dir; name; "up.sql"] = Some (File text) /\ normalizeSql text = Ok (up s) /\
    match d !! [dir; name; "down.sql"] with
    | None => down s = None
    | Some (File text) => exists sql, normalizeSql text = Ok sql /\ down s = Some sql
    | Some _ => False
    end.

(** The migration that is read from a directory: the snapshot of schema.json and the
    scripts of every backend. *)
Definition draft_of (d : disk) (bs : list BackendType) (dir : string) (m : Migration) : Prop :=
  (exists schema, d !! [dir; "schema.json"] = Some (File schema) /\ snapshotFromJson schema = Ok (migration_after m)) /\
  (forall b s, (b, s) ∈ scripts m -> b ∈ bs /\ script_on_disk d dir b s) /\
  (forall b, b ∈ bs -> exists s, (b, s) ∈ scripts m).

(** The directory of the last migration of a project, of that version, which is not
    finalized; all others are. *)
Definition last_draft (d : disk) (version : Z) (dir name : string) : Prop :=
  dir ∈ children d [] /\ directory_identity dir = Ok (version, name) /\ d !! [dir; "ready.json"] = None /\
  forall other v n, other ∈ children d [] -> other <> dir -> directory_identity other = Ok (v, n) ->
    (v < version)%Z /\ is_Some (d !! [other; "ready.json"]).

(** *** Entries *)
Definition entry_of (d : disk) (name : string) : option ProjectEntry :=
  match directory_identity name with
  | Ok (v, n) => Some (MkEntry [name] v n (bool_decide (is_Some (d !! [name; "ready.json"]))) no_migration)
  | Err _ => None
  end.

Lemma list_entry_found found name d :
  reads_to (list_entry found name) d (fun found' => forall e, e ∈ found' <-> e ∈ found \/ entry_of d name = Some e).
Proof.
  unfold list_entry. case_bool_decide as Hproject.
  { apply reads_to_skip; [solve_reads|]. intros ?. apply reads_to_ret. subst name. intros e. vm_compute (entry_of _ _). naive_solver. }
  eapply (reads_to_bind _ _ _ (fun is_lock => is_lock = true -> name = ".orm-cxx-lock")).
  { case_bool_decide as Hlock; [|by apply reads_to_ret]. eapply reads_to_weaken; [apply reads_to_any; solve_reads|]. done. }
  intros [|] Hlock.
  { apply reads_to_ret. rewrite Hlock by done. intros e. vm_compute (entry_of _ _). naive_solver. }
  apply reads_to_skip; [solve_reads|]. intros valid. apply reads_to_checked. intros _.
  apply reads_to_lifted. intros [v n] Hid. eapply reads_to_bind; [apply reads_to_query|]. intros ready ->.
  apply reads_to_ret. intros e. unfold entry_of. rewrite Hid, elem_of_app, list_elem_of_singleton. cbn [fst snd]. naive_solver.
Qed.

Lemma reads_load_entry bs before_ parent entry : reads (load_entry bs before_ parent entry).
Proof. unfold load_entry, check_entry_file, readJson, load_scripts, read_scripts, sqlFiles, sqlFiles_backend, check_backend_file, script_digest. solve_reads. Qed.

(** What loading adds to an entry. *)
Definition loads (d : disk) (bs : list BackendType) (e0 e : ProjectEntry) : Prop :=
  exists m, e = with_migration e0 m /\ forall dir, entry_path e0 = [dir] -> entry_ready e0 = false -> draft_of d bs dir m.

Lemma reads_to_and {A} (m : IO A) d (P Q : A -> Prop) :
  reads_to m d P -> reads_to m d Q -> reads_to m d (fun a => P a /\ Q a).
Proof. intros HP HQ h Hh. destruct (HP h Hh) as [Hd Ha]. split; [done|]. intros a Hr. split; [by apply Ha|by apply (HQ h Hh)]. Qed.

Lemma emplace_keys {V} b (v : V) m c :
  c ∈ (BackendMap.emplace b v m).*1 <-> c = b \/ c ∈ m.*1.
Proof.
  induction m as [|[b' v'] m IH]; simpl; [by rewrite list_elem_of_singleton, elem_of_nil; naive_solver|].
  destruct (_ <? _)%Z; simpl; [by rewrite !elem_of_cons|]. case_bool_decide as Hb; simpl; rewrite !elem_of_cons; [|rewrite IH]; naive_solver.
Qed.

Definition read_scripts_of (d : disk) (dir : string) (bs : list BackendType) (ss : BackendMap.t SqlMigration) : Prop :=
  (forall b s, (b, s) ∈ ss -> b ∈ bs /\ script_on_disk d dir b s) /\ forall b, b ∈ bs -> b ∈ ss.*1.

Lemma load_scripts_read d dir entry metadata before_ after_ done_ found b :
  entry_path entry = [dir] -> read_scripts_of d dir done_ found ->
  reads_to (load_scripts entry metadata before_ after_ found b) d (read_scripts_of d dir (done_ ++ [b])%list).
Proof.
  intros Hdir [Hss Hkeys]. unfold load_scripts, read_scripts. rewrite Hdir. cbn [app].
  apply reads_to_lifted. intros name Hname. apply reads_to_lifted. intros value _. apply reads_to_lifted. intros ? _.
  eapply (reads_to_bind _ _ _ (fun sql => exists text, d !! [dir; name; "up.sql"] = Some (File text) /\ normalizeSql text = Ok sql)).
  { eapply reads_to_bind; [apply reads_to_readFile|]. intros text Htext. eapply reads_to_weaken; [apply reads_to_lift|]. by exists text. }
  intros up_ (text & Htext & Hup). eapply reads_to_bind; [apply reads_to_query|]. intros has_down ->.
  eapply (reads_to_bind _ _ _ (fun down_ => match d !! [dir; name; "down.sql"] with
    | None => down_ = None | Some (File text) => exists sql, normalizeSql text = Ok sql /\ down_ = Some sql | Some _ => False end)).
  { case_bool_decide as Hdown.
    - eapply (reads_to_fmap _ _ _ (fun sql => exists text, d !! [dir; name; "down.sql"] = Some (File text) /\ normalizeSql text = Ok sql)).
      + eapply reads_to_bind; [apply reads_to_readFile|]. intros text' Htext'. eapply reads_to_weaken; [apply reads_to_lift|]. by exists text'.
      + intros sql (text' & -> & Hsql). by exists sql.
    - apply reads_to_ret. apply eq_None_not_Some in Hdown. by rewrite Hdown. }
  intros down_ Hdown. do 4 (apply reads_to_lifted; intros ? _). apply reads_to_lifted. intros broken _. apply reads_to_checked. intros _.
  apply reads_to_ret. split.
  - intros c s [[= -> ->]|Hin]%emplace_elem.
    + split; [set_solver|]. by exists name, text.
    + destruct (Hss c s Hin). split; [set_solver|done].
  - intros c Hc. apply emplace_keys. set_solver.
Qed.

Lemma load_entry_draft d dir bs before_ parent entry :
  entry_path entry = [dir] -> entry_ready entry = false ->
  reads_to (load_entry bs before_ parent entry) d (fun l => draft_of d bs dir l.1).
Proof.
  intros Hdir Hready. unfold load_entry. apply reads_to_skip; [solve_reads|]. intros names.
  apply reads_to_skip; [unfold check_entry_file; solve_reads|]. intros ?.
  apply reads_to_skip; [unfold readJson; solve_reads|]. intros metadata. apply reads_to_lifted. intros ? _.
  eapply (reads_to_bind _ _ _ (fun after_ => exists schema, d !! [dir; "schema.json"] = Some (File schema) /\ snapshotFromJson schema = Ok after_)).
  { rewrite Hdir. eapply reads_to_bind; [apply reads_to_readFile|]. intros text Htext. eapply reads_to_weaken; [apply reads_to_lift|]. by exists text. }
  intros after_ Hafter. apply reads_to_lifted. intros ? _. apply reads_to_lifted. intros scriptsMetadata _. apply reads_to_checked. intros _.
  eapply reads_to_bind; [apply (reads_to_foldIO _ _ (read_scripts_of d dir)); [by split; [intros ? ? ?%not_elem_of_nil|intros ? ?%not_elem_of_nil]|]|].
  { intros done_ found b. by apply load_scripts_read. }
  intros ss [Hss Hkeys]. eapply reads_to_bind; [apply sqlFiles_digests|]. intros actual _. rewrite Hready. apply reads_to_ret.
  split; [done|]. split; [done|]. cbn. intros b Hb. apply Hkeys, list_elem_of_fmap in Hb as ([b' s] & -> & Hin). by exists s.
Qed.

Lemma loadEntries_loads bs d :
  reads_to (loadEntries bs) d (fun es => exists found,
    (forall e, e ∈ found <-> exists name, name ∈ children d [] /\ entry_of d name = Some e) /\ Forall2 (loads d bs) found es).
Proof.
  unfold loadEntries. apply reads_to_skip; [unfold projectBackends, readJson; solve_reads|]. intros configured.
  apply reads_to_checked. intros _. eapply reads_to_bind; [apply reads_to_iterator|]. intros names Hnames.
  eapply (reads_to_bind _ _ _ (fun found => forall e, e ∈ found <-> exists name, name ∈ children d [] /\ entry_of d name = Some e)).
  { eapply reads_to_weaken; [apply (reads_to_foldIO _ _ (fun done_ found => forall e, e ∈ found <-> exists name, name ∈ done_ /\ entry_of d name = Some e))|].
    - intros e. split; [by intros ?%not_elem_of_nil|by intros (? & ?%not_elem_of_nil & _)].
    - intros done_ found name Hfound. eapply reads_to_weaken; [apply list_entry_found|]. intros found' Hfound' e. cbv beta in *.
      rewrite Hfound', Hfound. setoid_rewrite elem_of_app. setoid_rewrite list_elem_of_singleton. naive_solver.
    - intros found Hfound e. cbv beta in *. rewrite Hfound. by setoid_rewrite Hnames. }
  intros found Hfound. apply reads_to_lifted. intros before_ _.
  eapply (reads_to_fmap _ _ _ (fun st => Forall2 (loads d bs) (merge_sort entry_le found) (loaded st))).
  - apply (reads_to_foldIO _ _ (fun done_ st => Forall2 (loads d bs) done_ (loaded st))); [constructor|].
    intros done_ st e0 Hst. unfold load_next. apply reads_to_checked. intros _.
    eapply (reads_to_bind _ _ _ (fun l => forall dir, entry_path e0 = [dir] -> entry_ready e0 = false -> draft_of d bs dir l.1)).
    + intros h Hh. split; [by rewrite reads_load_entry|]. intros l Hl dir Hdir Hready.
      exact (proj2 (load_entry_draft d dir bs _ _ e0 Hdir Hready h Hh) l Hl).
    + intros l Hl. apply reads_to_ret. cbn [loaded]. apply Forall2_app; [done|]. repeat constructor. by exists l.1.
  - intros st Hst. exists (merge_sort entry_le found). split; [|done]. intros e. by rewrite merge_sort_Permutation.
Qed.

(** The last entry, when it is not ready, is the draft of the project. *)
Lemma last_entry_draft d bs es s v draft found e :
  chain d bs es s v draft -> last es = Some e -> entry_ready e = false ->
  (forall e, e ∈ found <-> exists name, name ∈ children d [] /\ entry_of d name = Some e) -> Forall2 (loads d bs) found es ->
  exists dir name, entry_path e = [dir] /\ last_draft d (entry_version e) dir name /\
    draft_of d bs dir (entry_migration e) /\ version_of (entry_migration e) = entry_version e /\ migration_name (entry_migration e) = name.
Proof.
  intros Hchain [l ->]%last_Some Hready Hfound Hloads.
  destruct (chain_entries _ _ _ _ _ _ e Hchain) as (before_ & after_ & _ & Hv & Hn & _); [set_solver|].
  assert (exists s' parent, chain d bs l s' parent false /\ (parent < entry_version e)%Z) as (s' & parent & Hl & Hlt).
  { inversion Hchain as [? ? Hnil|es' b p e' a Hc Hlt Hlink Heq]; [by destruct l|]. apply app_inj_tail in Heq as [-> ->]. by exists b, p. }
  pose proof (chain_versions _ _ _ _ _ _ Hl) as (_ & Hversions & _). pose proof (chain_drafts _ _ _ _ _ _ Hl) as Hdrafts.
  cbv iota in Hdrafts. rewrite Forall_forall in Hversions. rewrite Forall_forall in Hdrafts.
  assert (Hback : forall e', e' ∈ (l ++ [e])%list -> exists e0, e0 ∈ found /\ loads d bs e0 e').
  { intros e' [i Hi]%list_elem_of_lookup. destruct (Forall2_lookup_r _ _ _ _ _ Hloads Hi) as (e0 & Hi0 & ?). exists e0. split; [|done].
    by eapply list_elem_of_lookup_2. }
  assert (Hforth : forall e0, e0 ∈ found -> exists e', e' ∈ (l ++ [e])%list /\ loads d bs e0 e').
  { intros e0 [i Hi]%list_elem_of_lookup. destruct (Forall2_lookup_l _ _ _ _ _ Hloads Hi) as (e' & Hi0 & ?). exists e'. split; [|done].
    by eapply list_elem_of_lookup_2. }
  destruct (Hback e) as (e0 & (dir & Hdir & He0)%Hfound & (m & -> & Hdraft)); [set_solver|].
  unfold entry_of in He0. destruct (directory_identity dir) as [[version name]|] eqn:Hid; [|done]. injection He0 as <-.
  cbn [with_migration entry_path entry_version entry_name entry_ready entry_migration] in *.
  exists dir, name. split; [done|]. split; [|split_and?; try done; by apply Hdraft].
  split; [done|]. split; [done|]. split; [by apply bool_decide_eq_false, eq_None_not_Some in Hready|].
  intros other v' n Hother Hne Hid'. assert (Hin : MkEntry [other] v' n (bool_decide (is_Some (d !! [other; "ready.json"]))) no_migration ∈ found).
  { apply Hfound. exists other. split; [done|]. unfold entry_of. by rewrite Hid'. }
  apply Hforth in Hin as (e' & He' & (m' & -> & _)). apply elem_of_app in He' as [He'|He'%list_elem_of_singleton]; [|by injection He' as ->].
  split; [|by apply Hdrafts, bool_decide_eq_true in He'].
  assert (v' <= parent)%Z; [|lia]. apply Hversions, list_elem_of_fmap. eexists. split; [|exact He']. done.
Qed.
End drafts.

(** ** Finalization *)
Section finalization.
Context `{ProjectLibrary, DirectoryOrder, Platform}.

Definition temporary_name : string := ".ready.json.tmp".

(** The files of a project, but for what an interrupted operation may leave. *)
Definition unfinalized (d d' : disk) : Prop :=
  forall q, scratch q = false -> last q <> Some temporary_name -> d' !! q = d !! q.

(** What is recorded of the scripts of a backend: they pass validation, and this is
    their checksum. *)
Definition recorded (version : Z) (kv : BackendType * SqlMigration) (item : string * json) : Prop :=
  validateScript (up kv.2) kv.1 version = Ok tt /\
  (forall sql, down kv.2 = Some sql -> validateScript sql kv.1 version = Ok tt) /\
  exists name sum, backendName kv.1 = Ok name /\ checksum kv.2 = Ok sum /\ item = (name, JString sum).

(** The last draft of the project, of the version, became ready: what its directory holds
    leads to the schema of the models and passed the checks, and its ready.json, the only
    file that changed, records the digests of its files and the checksums of its scripts. *)
Definition finalized (bs : list BackendType) (version : Z) (models : SchemaView) (d d' : disk) : Prop :=
  exists dir name draft m checksums found text,
    last_draft d version dir name /\ draft_of d bs dir draft /\ version_of draft = version /\ migration_name draft = name /\
    capture models bs = Ok (migration_after draft) /\ validated draft = Ok m /\
    Forall2 (recorded version) (scripts m) checksums /\ file_digests d [dir] bs = Ok found /\
    dump (object [("formatVersion", JInteger 1); ("state", JString "ready");
                  ("files", object (prod_map id JString <$> map_to_list found)); ("checksums", object checksums)]) = Ok text /\
    forall q, scratch q = false -> last q <> Some temporary_name ->
      d' !! q = if bool_decide (q = [dir; "ready.json"]) then Some (File (text +:+ newline)) else d !! q.

Lemma unfinalized_locked d d1 d2 :
  unfinalized (<[lock_path := Directory]> d) d1 -> outside lock_path d1 d2 -> unfinalized d d2.
Proof.
  intros Hu Ho q Hs Hq. pose proof Hs as [Hl _]%orb_false_iff. rewrite Ho, Hu by done.
  apply lookup_insert_ne. intros <-. by rewrite below_refl in Hl.
Qed.

Lemma below_sibling dir x y : x <> y -> below [dir; x] [dir; y] = false.
Proof. intros Hxy. apply bool_decide_eq_false. simpl. congruence. Qed.

(** The temporary file takes the place of ready.json. *)
Lemma rename_ready d dir value q :
  tree d -> writable d [dir; temporary_name] = true ->
  can_rename (<[[dir; temporary_name] := File value]> d) [dir; temporary_name] [dir; "ready.json"] = true ->
  last q <> Some temporary_name ->
  moved (<[[dir; temporary_name] := File value]> d) [dir; temporary_name] [dir; "ready.json"] !! q =
    if bool_decide (q = [dir; "ready.json"]) then Some (File value) else d !! q.
Proof.
  intros Ht Hw Hren Hq. set (tmp := [dir; temporary_name]) in *. set (ready := [dir; "ready.json"]) in *.
  assert (Htmp : d !! tmp <> Some Directory) by (unfold writable in Hw; intros He; by rewrite He in Hw).
  assert (Hready : d !! ready <> Some Directory).
  { intros He. unfold can_rename in Hren. rewrite lookup_insert_eq, lookup_insert_ne, He in Hren; [done|]. by intros [= ]. }
  rewrite moved_lookup by (by apply below_sibling). case_bool_decide as Heq.
  - subst q. rewrite below_refl, drop_all, app_nil_r. by rewrite lookup_insert_eq.
  - destruct (below ready q) eqn:Hb.
    + rewrite (tree_below d ready q) by done. apply below_iff in Hb as [r ->]. rewrite drop_app_length.
      assert (Hr : r <> []) by (intros ->; by rewrite app_nil_r in Heq).
      rewrite lookup_insert_ne by (intros Heq'; apply Hr; by apply (app_inv_head tmp); rewrite app_nil_r).
      apply (tree_below d tmp); [done|done|by rewrite below_app|]. intros Heq'. apply Hr, (app_inv_head tmp). by rewrite app_nil_r.
    + destruct (below tmp q) eqn:Hbt.
      * apply below_iff in Hbt as [r ->]. destruct r as [|x r]; [done|].
        symmetry. apply (tree_below d tmp); [done|done|by rewrite below_app|].
        intros Heq'%(f_equal length). rewrite length_app in Heq'. simpl in Heq'. lia.
      * rewrite lookup_insert_ne; [done|]. intros <-. by rewrite below_refl in Hbt.
Qed.

Lemma finalize_scripts_recorded version ss checksums :
  foldM (finalize_scripts version) [] ss = Ok checksums -> Forall2 (recorded version) ss checksums.
Proof.
  assert (Hgen : forall before_, foldM (finalize_scripts version) before_ ss = Ok checksums ->
    exists l, checksums = (before_ ++ l)%list /\ Forall2 (recorded version) ss l);
    [|by intros (l & -> & Hl)%Hgen].
  induction ss as [|kv ss IH]; intros before_; cbn [foldM].
  - intros [= <-]. exists []. by rewrite app_nil_r.
  - intros (next & Hnext & (l & -> & Hl)%IH)%bind_Ok_iff. unfold finalize_scripts in Hnext.
    apply seq_Ok_iff in Hnext as (Hup & (Hdown & (name & Hname & (sum & Hsum & [= <-])%bind_Ok_iff)%bind_Ok_iff)%seq_Ok_iff).
    rewrite <- app_assoc. eexists. split; [done|]. constructor; [|done]. split; [done|]. split; [|by exists name, sum].
    intros sql Hsql. by rewrite Hsql in Hdown.
Qed.

(** The lock is not a migration, and what a migration holds is not in it. *)
Lemma last_draft_locked d version dir name :
  last_draft (<[lock_path := Directory]> d) version dir name -> last_draft d version dir name.
Proof.
  set (d0 := <[lock_path := Directory]> d).
  assert (Hchildren : forall x v n, directory_identity x = Ok (v, n) -> x ∈ children d0 [] <-> x ∈ children d []).
  { intros x v n Hid. rewrite !children_spec. cbn [app]. unfold d0. rewrite lookup_insert_ne; [done|].
    intros [= <-]. by vm_compute in Hid. }
  assert (Hready : forall x, d0 !! [x; "ready.json"] = d !! [x; "ready.json"]) by (intros x; by apply lookup_insert_ne).
  intros (Hin & Hid & Hnone & Hothers). split; [by eapply Hchildren|]. split; [done|]. split; [by rewrite <- Hready|].
  intros other v n Hother Hne Hid'. rewrite <- Hready. by apply (Hothers other v n); [eapply Hchildren| |].
Qed.

Lemma draft_of_same d d0 bs dir m :
  (forall q, d0 !! (dir :: q) = d !! (dir :: q)) -> draft_of d0 bs dir m -> draft_of d bs dir m.
Proof. unfold draft_of, script_on_disk. intros Hd. setoid_rewrite Hd. done. Qed.

Lemma finalize_draft bs version models d dir name draft m checksums :
  tree d -> last_draft d version dir name -> draft_of d bs dir draft -> version_of draft = version -> migration_name draft = name ->
  capture models bs = Ok (migration_after draft) -> validated draft = Ok m ->
  foldM (finalize_scripts version) [] (scripts m) = Ok checksums ->
  wp (or_remove [dir; ".ready.json.tmp"]
        (found ← sqlFiles [dir] bs;
         text ← lift (dump (ready_json found checksums));
         writeFile [dir; ".ready.json.tmp"] (text +:+ newline) ;;
         rename [dir; ".ready.json.tmp"] [dir; "ready.json"]))
    (fun r d' => match r with Ok _ => finalized bs version models d d' | Err _ => unfinalized d d' end) d.
Proof.
  intros Ht Hlast Hdraft Hv Hn Hcap Hval Hsums%finalize_scripts_recorded.
  assert (Hwrite : forall written, unfinalized d (<[[dir; ".ready.json.tmp"] := File written]> d)).
  { intros written q _ Hq. apply lookup_insert_ne. by intros <-. }
  apply io_catch. eapply (io_mono _ (fun r d' => match r with Ok _ => finalized bs version models d d' | Err _ => unfinalized d d' end)).
  - apply io_bind. eapply io_mono; [apply sqlFiles_digests|]. intros [found|e'] d' [-> Hfound]; [|by intros ? ? ?].
    apply io_bind, io_lift; [|by intros ? ? ? ? ?]. intros text Htext. apply io_bind, wp_writeFile; [|by intros ? ? ?|done].
    intros Hw. apply wp_rename; [|done]. intros Hren. exists dir, name, draft, m, checksums, found, text.
    split_and?; try done; [by apply Hfound|]. intros q _ Hq. by apply rename_ready.
  - intros [?|e'] d' Hu; [done|]. apply io_bind, wp_remove; apply io_throw; [|done].
    intros q Hs Hq. rewrite lookup_delete_ne; [by apply Hu|]. by intros <-.
Qed.

(** What was finalized while the lock was held, when it is released. *)
Lemma finalized_unlocked bs version models d d1 d2 :
  finalized bs version models (<[lock_path := Directory]> d) d1 -> outside lock_path d1 d2 -> finalized bs version models d d2.
Proof.
  intros (dir & name & draft & m & checksums & found & text & Hlast & Hdraft & Hv & Hn & Hcap & Hval & Hsums & Hfound & Htext & Hq) Ho.
  pose proof Hlast as (_ & Hid & _). assert (Hdir : lock_path <> [dir]) by (intros [= <-]; by vm_compute in Hid).
  assert (Hlocked : forall q, <[lock_path := Directory]> d !! (dir :: q) = d !! (dir :: q)).
  { intros q. apply lookup_insert_ne. destruct q; [done|]. by intros [= ]. }
  exists dir, name, draft, m, checksums, found, text. split; [by apply last_draft_locked|].
  split; [by eapply draft_of_same|]. split_and?; try done.
  - rewrite <- Hfound. apply file_digests_same. intros r. symmetry. apply Hlocked.
  - intros q Hs Hne. pose proof Hs as [Hl _]%orb_false_iff. rewrite Ho, Hq by done. case_bool_decide; [done|].
    apply lookup_insert_ne. intros <-. by rewrite below_refl in Hl.
Qed.
End finalization.

(** C13: whatever the calls to the file system end with, [finalize] makes the last draft
    ready or leaves the project as it was.  It returns only when the project's last
    migration, and no other, has no ready.json, has the version asked for and leads to
    the schema of the models, and the scripts that are in its directory passed
    validation; then ready.json, the only file that changed, records their checksums and
    the digests of the files in the directory. *)
Theorem finalize_all_or_nothing `{ProjectLibrary, DirectoryOrder, Platform} bs version models acceptSchema d :
  tree d ->
  wp (finalize bs version models acceptSchema) (fun r d' =>
    match r with
    | Ok _ => acceptSchema = true /\ finalized bs version models d d'
    | Err _ => unfinalized d d'
    end) d.
Proof.
  intros Ht. apply wp_projectOperation, io_bind, io_lift; [|done]. intros ? Haccept%throw_if_Ok_iff.
  apply negb_false_iff in Haccept. apply with_lock_wp; [done|]. intros Hlock Hroot.
  set (d0 := <[lock_path := Directory]> d). assert (Ht0 : tree d0) by by apply tree_insert_directory.
  assert (Hnothing : forall d2, outside lock_path d0 d2 -> unfinalized d d2) by (intros d2; by apply unfinalized_locked).
  apply io_bind. eapply io_mono; [apply (reads_to_and _ _ _ _ (loadEntries_chained bs d0) (loadEntries_loads bs d0))|].
  intros [es|e] d' [-> Hes]; [|intros d2 Ho ?; by apply Hnothing].
  destruct (Hes es eq_refl) as [(s & v & draft & Hchain) (found & Hfound & Hloads)]. clear Hes.
  destruct (last es) as [e|] eqn:Hlast; [|apply io_lift; [done|]; intros ? _ d2 Ho ?; by apply Hnothing].
  apply io_bind, io_lift; [|intros ? _ d2 Ho ?; by apply Hnothing]. intros ? Hdraft%throw_if_Ok_iff.
  apply orb_false_iff in Hdraft as [Hversion Hready]. apply negb_false_iff, bool_decide_eq_true in Hversion.
  apply io_bind, io_lift; [|intros ? _ d2 Ho ?; by apply Hnothing]. intros current Hcurrent.
  apply io_bind, io_lift; [|intros ? _ d2 Ho ?; by apply Hnothing]. intros ? Hsame%throw_if_Ok_iff.
  apply negb_false_iff, bool_decide_eq_true in Hsame. subst current.
  apply io_bind, io_lift; [|intros ? _ d2 Ho ?; by apply Hnothing]. intros m Hm.
  apply io_bind, io_lift; [|intros ? _ d2 Ho ?; by apply Hnothing]. intros checksums Hsums.
  destruct (last_entry_draft _ _ _ _ _ _ _ _ Hchain Hlast Hready Hfound Hloads) as (dir & name & Hdir & Hld & Hdo & Hv & Hn).
  rewrite Hdir. cbn [app]. rewrite Hversion in Hld, Hv.
  eapply io_mono; [by eapply finalize_draft|]. intros [?|?] d1 Hd1 d2 Ho; [|intros ?; by eapply unfinalized_locked].
  split; [done|]. by eapply finalized_unlocked.
Qed.

(** ** The lock *)
Section locking.
Context `{ProjectLibrary, DirectoryOrder, Platform}.

(** Refused, with nothing changed. *)
Definition refused (d : disk) {A} (r : result error A) (d' : disk) : Prop :=
  d' = d /\ exists code message,
    r = Err (Thrown (MigrationError code message 0 Empty None)) /\ (code = LockUnavailable \/ code = InvalidCatalog).

Lemma refused_operation {A} (m : IO A) d :
  wp m (fun r d' => d' = d /\ exists e, r = Err e /\
          (e = Thrown (MigrationError LockUnavailable "Another migration project writer holds the lock" 0 Empty None) \/
           (exists message, e = Thrown (invalidCatalog message)) \/ (exists c, e = FilesystemError c))) d ->
  wp (projectOperation m) (refused d) d.
Proof.
  intros Hm. apply io_catch. eapply io_mono; [exact Hm|]. intros [a|e] d' (-> & e' & He & Hcase); [done|]. injection He as <-.
  destruct Hcase as [->|[[message ->]|[c ->]]].
  - apply io_throw. split; [done|]. eexists _, _. split; [done|]. by left.
  - apply io_throw. split; [done|]. eexists _, _. split; [done|]. by right.
  - apply io_lift; [done|]. intros e [= <-]. split; [done|]. eexists _, _. split; [done|]. by right.
Qed.

Lemma locked_out {A} (c : bool) (message : string) (body : IO A) d :
  d !! lock_path = Some Directory -> wp (projectOperation (fail_if c message ;; with_lock body)) (refused d) d.
Proof.
  intros Hlock. apply refused_operation, io_bind, io_lift; cycle 1.
  { intros e. destruct c; [|done]. intros [= <-]. split; [done|]. eexists. split; [done|]. right. left. by eexists. }
  intros ? _. unfold with_lock, createExclusiveDirectory. apply io_bind, io_bind, wp_create_directory.
  - by rewrite Hlock.
  - intros _. apply io_throw. split; [done|]. eexists. split; [done|]. by left.
  - intros e. split; [done|]. eexists. split; [done|]. right. right. by eexists.
Qed.
End locking.

(** C16: while another writer holds the lock of a project no operation that writes does
    anything: it throws a migration error, and the lock and every file stay. *)
Theorem lock_excludes `{ProjectLibrary, DirectoryOrder, Platform} bs name models decisions version acceptSchema d :
  d !! lock_path = Some Directory ->
  wp (make bs name models decisions) (refused d) d /\
  wp (makeManual bs name models) (refused d) d /\
  wp (finalize bs version models acceptSchema) (refused d) d.
Proof. intros Hlock. split_and?; by apply locked_out. Qed.
