(* ===== verification/ProjectSamples.v ===== *)
(** ProjectSamples: a project that is created, drafted, finalized and loaded, with a
    concrete notation for JSON values. *)
From S2P Require Import Prelude Foundation Chrono Values Codec Schema Sha256 Models PhysicalSql Snapshot Diff SqlValidation Literals SchemaJson Generation Catalog FileSystem Project Disk Projects ProjectLoading ProjectFinal.
From Stdlib Require Import DecimalString.
Local Open Scope string_scope.

(** ** A notation for JSON: every text is preceded by its length *)
Fixpoint print_json (v : json) : string :=
  match v with
  | JNull => "n"
  | JBool b => if b then "t" else "f"
  | JInteger z | JUnsigned z => "i" +:+ sized (to_string_Z z)
  | JFloat _ => "x"
  | JString s => "s" +:+ sized s
  | JArray l => "a" +:+ sized (concat_str (map print_json l))
  | JObject l => "o" +:+ sized (concat_str (map (fun kv => sized kv.1 +:+ print_json kv.2) l))
  end.

Fixpoint digits_before_colon (s : string) : string * string :=
  match s with
  | "" => ("", "")
  | String c s => if bool_decide (c = ":"%char) then ("", s) else let (d, rest) := digits_before_colon s in (String c d, rest)
  end.

Definition read_sized (s : string) : option (string * string) :=
  let (d, rest) := digits_before_colon s in
  match NilEmpty.uint_of_string d with
  | Some n => let k := N.to_nat (N.of_uint n) in Some (take_str k rest, drop_str k rest)
  | None => None
  end.

Fixpoint read_json (fuel : nat) (s : string) : option (json * string) :=
  match fuel, s with
  | S fuel, String c s =>
      if bool_decide (c = "n"%char) then Some (JNull, s)
      else if bool_decide (c = "t"%char) then Some (JBool true, s)
      else if bool_decide (c = "f"%char) then Some (JBool false, s)
      else
        '(body, rest) ← read_sized s;
        if bool_decide (c = "i"%char) then
          z ← NilEmpty.int_of_string body;
          Some (if (0 <=? Z.of_int z)%Z then JUnsigned (Z.of_int z) else JInteger (Z.of_int z), rest)
        else if bool_decide (c = "s"%char) then Some (JString body, rest)
        else if bool_decide (c = "a"%char) then l ← read_items fuel body; Some (JArray l, rest)
        else if bool_decide (c = "o"%char) then l ← read_fields fuel body; Some (JObject l, rest)
        else None
  | _, _ => None
  end
with read_items (fuel : nat) (s : string) : option (list json) :=
  match fuel, s with
  | _, "" => Some []
  | S fuel, s => '(v, rest) ← read_json fuel s; l ← read_items fuel rest; Some (v :: l)
  | O, _ => None
  end
with read_fields (fuel : nat) (s : string) : option (list (string * json)) :=
  match fuel, s with
  | _, "" => Some []
  | S fuel, s =>
      '(key, rest) ← read_sized s; '(v, rest) ← read_json fuel rest; l ← read_fields fuel rest; Some ((key, v) :: l)
  | O, _ => None
  end.

#[export] Instance sample_library : JsonLibrary := {|
  dump := fun v => Ok (print_json v);
  parse := fun text =>
    match read_json 1000 text with Some (v, _) => (events 0 v, Ok v) | None => ([], json_throw) end
|}.

#[export] Instance sample_project_library : ProjectLibrary := {| dump_line := fun v => Ok (print_json v) |}.

#[export] Instance sample_order : DirectoryOrder.
Proof. by refine {| directory_order := fun l => l |}. Defined.

#[export] Instance sample_platform : Platform := {| windows := false |}.

(** ** A story *)
Definition no_decisions : GenerationDecisions := MkDecisions [] [] [] [] [] [] [] [].
Definition empty_host : Host := MkHost {[[] := Directory]} [].
Definition after_init : Host := (init [Sqlite] empty_host).2.
Definition start : disk := files (init [Sqlite] empty_host).2.
Definition drafted : result error Z * Host := makeManual [Sqlite] "users" sample_models (MkHost start []).
Definition draft : disk := files drafted.2.
Definition finalization : result error unit * Host := finalize [Sqlite] 1 sample_models true (MkHost draft []).

Lemma make_all_or_nothing_witness :
  drafted.1 = Ok 1%Z /\ draft_published [Sqlite] "users" 1 true start draft.
Proof.
  assert (Hr : drafted.1 = Ok 1%Z) by (vm_compute; reflexivity). split; [exact Hr|].
  assert (Ht : tree start) by (apply is_tree_tree; vm_compute; reflexivity).
  pose proof (proj2 (make_all_or_nothing [Sqlite] "users" sample_models no_decisions start Ht) (MkHost start []) eq_refl) as Hm.
  fold drafted in Hm. rewrite Hr in Hm. exact Hm.
Defined.

(** The same with a call that fails half-way: the file of a script is written in part. *)
Example interrupted :
  let h := MkHost start (replicate 12 Succeeds ++ [FailsAfter "-- Wri" (fun _ => true)])%list in
  let (r, h') := makeManual [Sqlite] "users" sample_models h in
  r = Err (Thrown (invalidCatalog "Cannot write migration project files")).
Proof. vm_compute. reflexivity. Qed.

Lemma finalize_all_or_nothing_witness :
  finalization.1 = Ok tt /\ finalized [Sqlite] 1 sample_models draft (files finalization.2).
Proof.
  assert (Hr : finalization.1 = Ok tt) by (vm_compute; reflexivity). split; [exact Hr|].
  assert (Ht : tree draft) by (apply is_tree_tree; vm_compute; reflexivity).
  pose proof (finalize_all_or_nothing [Sqlite] 1 sample_models true draft Ht (MkHost draft []) eq_refl) as Hf.
  fold finalization in Hf. rewrite Hr in Hf. by destruct Hf.
Defined.

Definition held : disk := <[lock_path := Directory]> draft.

Lemma lock_excludes_witness :
  held !! lock_path = Some Directory /\ wp (finalize [Sqlite] 1 sample_models true) (refused held) held.
Proof.
  assert (Hlock : held !! lock_path = Some Directory) by (vm_compute; reflexivity). split; [exact Hlock|].
  exact (proj2 (proj2 (lock_excludes [Sqlite] "users" sample_models no_decisions 1 true held Hlock))).
Defined.

(** Loading a finalized project, and one whose script was changed afterwards. *)
Example finalized_loads :
  (entries ← loadEntries [Sqlite]; mret (map (fun e => (entry_version e, entry_name e, entry_ready e)) entries))
    (MkHost (files finalization.2) []) = (Ok [(1%Z, "users", true)], MkHost (files finalization.2) []).
Proof. vm_compute. reflexivity. Qed.

Example tampering_is_seen :
  (loadEntries [Sqlite] (MkHost (<[["1_users"; "sqlite"; "up.sql"] := File "SELECT 1"]> (files finalization.2)) [])).1
  = Err (Thrown (invalidCatalog "Ready migration files have been modified")).
Proof. vm_compute. reflexivity. Qed.
