(* ===== verification/Environment.v ===== *)
(** Environment: the database that migrations run on, from variables of the environment
    (src/migrations/ConnectionEnvironment.cpp, the configurations of
    modules/orm/database/config.cppm). *)
From S2P Require Import Prelude Foundation.
From Stdlib Require Import DecimalString.
Local Open Scope string_scope.

(** ** Configurations.  A [path] is its text. *)
Inductive SqliteOpenMode := ReadWriteCreate | ReadWrite | ReadOnly.
Inductive SqliteDatabase := SqlitePath (path : string) | SqliteMemory.

Record SqliteConfig := MkSqliteConfig {
  sqlite_database : SqliteDatabase;
  openMode : option SqliteOpenMode;
  busyTimeout : option Z
}.

Inductive PostgresSslMode := PgDisable | PgAllow | PgPrefer | PgRequire | PgVerifyCa | PgVerifyFull.
Inductive MysqlSslMode := MyDisabled | MyPreferred | MyRequired | MyVerifyCa | MyVerifyIdentity.

(** [PostgresTls] and [MysqlTls]. *)
Record Tls (Mode : Type) := MkTls {
  tls_mode : option Mode;
  caCertificate : option string;
  clientCertificate : option string;
  clientKey : option string
}.
Arguments MkTls {Mode}.
Arguments tls_mode {Mode}.
Arguments caCertificate {Mode}.
Arguments clientCertificate {Mode}.
Arguments clientKey {Mode}.

Record PostgresConfig := MkPostgresConfig {
  pg_host : option string;
  pg_port : option Z;
  pg_database : option string;
  pg_user : option string;
  pg_password : option string;
  pg_connectTimeout : option Z;
  passfile : option string;
  pg_tls : Tls PostgresSslMode
}.

(** [MysqlConfig] and [MariadbConfig], which have the same members. *)
Record MysqlConfig := MkMysqlConfig {
  my_host : option string;
  my_port : option Z;
  my_database : option string;
  my_user : option string;
  my_password : option string;
  socket : option string;
  my_connectTimeout : option Z;
  my_tls : Tls MysqlSslMode
}.

Inductive ConnectionConfiguration :=
| SqliteConfiguration (config : SqliteConfig)
| PostgresConfiguration (config : PostgresConfig)
| MysqlConfiguration (config : MysqlConfig)
| MariadbConfiguration (config : MysqlConfig).

(** ** Reading *)
Abbreviation ConnectionEnvironment := (gmap string string).

Definition prefix : string := "ORM_CXX_DATABASE_".

Definition fields : list string :=
  ["BACKEND"; "NAME"; "HOST"; "PORT"; "USER"; "PASSWORD"; "SOCKET"; "CONNECT_TIMEOUT_SECONDS"; "BUSY_TIMEOUT_MS";
   "PASSFILE"; "SSL_MODE"; "SSL_CA"; "SSL_CERT"; "SSL_KEY"; "SQLITE_OPEN_MODE"].

Definition invalid {A} : res A := Err (InvalidArgument "Invalid migration database configuration").
Definition invalid_when (c : bool) : res unit := if c then invalid else Ok tt.

Definition INT_MAX : Z := 2 ^ 31 - 1.
Definition UINT_MAX : Z := 2 ^ 32 - 1.

(** [from_chars] of all the characters into an unsigned number; the maximum is far below
    where its 64 bits end. *)
Definition number (text : string) (maximum : Z) : res Z :=
  invalid_when (bool_decide (text = "")) ;;
  match NilEmpty.uint_of_string text with
  | Some n => invalid_when (maximum <? Z.of_uint n)%Z ;; Ok (Z.of_uint n)
  | None => invalid
  end.

(** [connectionEnvironmentFromProcess]: [getenv] is the environment of the process. *)
Definition connectionEnvironmentFromProcess (getenv : string -> option string) : ConnectionEnvironment :=
  fold_left (fun found field =>
    match getenv (prefix +:+ field) with
    | Some value => <[prefix +:+ field := value]> found
    | None => found
    end) fields ∅.

Definition has_NUL (s : string) : bool := contains_char NUL s.

Definition is_one_of (names : list string) (key : string) : bool := bool_decide (key ∈ names).

Definition allowed (backend key : string) : bool :=
  is_one_of ["BACKEND"; "NAME"] key
  || (if bool_decide (backend = "sqlite") then is_one_of ["BUSY_TIMEOUT_MS"; "SQLITE_OPEN_MODE"] key
      else is_one_of ["HOST"; "PORT"; "USER"; "PASSWORD"; "CONNECT_TIMEOUT_SECONDS"; "SSL_MODE"; "SSL_CA"; "SSL_CERT"; "SSL_KEY"] key
           || (if bool_decide (backend = "postgresql") then bool_decide (key = "PASSFILE") else bool_decide (key = "SOCKET"))).

(** One variable of the loop. *)
Definition acceptable (backend name value : string) : bool :=
  starts_with prefix name && allowed backend (drop_str (String.length prefix) name) && negb (has_NUL value).

Section configuration.
Variable environment : ConnectionEnvironment.

Definition field (name : string) : res (option string) :=
  match environment !! (prefix +:+ name) with
  | None => Ok None
  | Some value => invalid_when (has_NUL value) ;; Ok (Some value)
  end.

Definition path (name : string) : res (option string) := field name.

(** A number, and a choice among names, that may be absent. *)
Definition optional_number (name : string) (maximum : Z) : res (option Z) :=
  value ← field name;
  match value with Some text => Some <$> number text maximum | None => Ok None end.

Definition choice {A} (name : string) (options : list (string * A)) : res (option A) :=
  value ← field name;
  match value with
  | Some text =>
      match List.find (fun kv => bool_decide (kv.1 = text)) options with Some kv => Ok (Some kv.2) | None => invalid end
  | None => Ok None
  end.

Definition sqlite_modes : list (string * SqliteOpenMode) :=
  [("read-write-create", ReadWriteCreate); ("read-write", ReadWrite); ("read-only", ReadOnly)].
Definition postgres_modes : list (string * PostgresSslMode) :=
  [("disable", PgDisable); ("allow", PgAllow); ("prefer", PgPrefer); ("require", PgRequire); ("verify-ca", PgVerifyCa);
   ("verify-full", PgVerifyFull)].
Definition mysql_modes : list (string * MysqlSslMode) :=
  [("disabled", MyDisabled); ("preferred", MyPreferred); ("required", MyRequired); ("verify-ca", MyVerifyCa);
   ("verify-identity", MyVerifyIdentity)].

Definition sqlite_configuration : res ConnectionConfiguration :=
  name ← field "NAME";
  match name with
  | None => invalid
  | Some name =>
      invalid_when (bool_decide (name = "")) ;;
      let database := if bool_decide (name = ":memory:") then SqliteMemory else SqlitePath name in
      timeout ← optional_number "BUSY_TIMEOUT_MS" INT_MAX;
      mode ← choice "SQLITE_OPEN_MODE" sqlite_modes;
      Ok (SqliteConfiguration (MkSqliteConfig database mode timeout))
  end.

(** The lambda [configure], for [PostgresConfig] and for the other two. *)
Definition configure_postgres : res PostgresConfig :=
  host ← field "HOST";
  database ← field "NAME";
  user ← field "USER";
  password ← field "PASSWORD";
  port ← optional_number "PORT" 65535;
  timeout ← optional_number "CONNECT_TIMEOUT_SECONDS" INT_MAX;
  ca ← path "SSL_CA";
  certificate ← path "SSL_CERT";
  key ← path "SSL_KEY";
  file ← path "PASSFILE";
  mode ← choice "SSL_MODE" postgres_modes;
  Ok (MkPostgresConfig host port database user password timeout file (MkTls mode ca certificate key)).

Definition configure_mysql : res MysqlConfig :=
  host ← field "HOST";
  database ← field "NAME";
  user ← field "USER";
  password ← field "PASSWORD";
  port ← optional_number "PORT" 65535;
  timeout ← optional_number "CONNECT_TIMEOUT_SECONDS" UINT_MAX;
  invalid_when (bool_decide (timeout = Some 0%Z)) ;;
  ca ← path "SSL_CA";
  certificate ← path "SSL_CERT";
  key ← path "SSL_KEY";
  file ← path "SOCKET";
  mode ← choice "SSL_MODE" mysql_modes;
  Ok (MkMysqlConfig host port database user password file timeout (MkTls mode ca certificate key)).

Definition connectionConfiguration : res ConnectionConfiguration :=
  backend ← field "BACKEND";
  match backend with
  | None => invalid
  | Some backend =>
      invalid_when (negb (is_one_of ["sqlite"; "postgresql"; "mysql"; "mariadb"] backend)) ;;
      invalid_when (existsb (fun kv => negb (acceptable backend kv.1 kv.2)) (map_to_list environment)) ;;
      if bool_decide (backend = "sqlite") then sqlite_configuration
      else if bool_decide (backend = "postgresql") then PostgresConfiguration <$> configure_postgres
      else if bool_decide (backend = "mysql") then MysqlConfiguration <$> configure_mysql
      else MariadbConfiguration <$> configure_mysql
  end.
End configuration.

(** ** What a configuration says *)

(** A variable is a text or spells a number. *)
Inductive setting := Text (s : string) | Number (n : Z).

Definition mode_text {A} `{EqDecision A} (options : list (string * A)) (mode : A) : setting :=
  match List.find (fun kv => bool_decide (kv.2 = mode)) options with Some kv => Text kv.1 | None => Text "" end.

#[export] Instance SqliteOpenMode_eq_dec : EqDecision SqliteOpenMode.
Proof. solve_decision. Defined.
#[export] Instance PostgresSslMode_eq_dec : EqDecision PostgresSslMode.
Proof. solve_decision. Defined.
#[export] Instance MysqlSslMode_eq_dec : EqDecision MysqlSslMode.
Proof. solve_decision. Defined.

Definition tls_settings {A} `{EqDecision A} (options : list (string * A)) (t : Tls A) : list (string * option setting) :=
  [("SSL_MODE", mode_text options <$> tls_mode t); ("SSL_CA", Text <$> caCertificate t);
   ("SSL_CERT", Text <$> clientCertificate t); ("SSL_KEY", Text <$> clientKey t)].

Definition mysql_settings (backend : string) (c : MysqlConfig) : list (string * option setting) :=
  [("BACKEND", Some (Text backend)); ("NAME", Text <$> my_database c); ("HOST", Text <$> my_host c);
   ("PORT", Number <$> my_port c); ("USER", Text <$> my_user c); ("PASSWORD", Text <$> my_password c);
   ("SOCKET", Text <$> socket c); ("CONNECT_TIMEOUT_SECONDS", Number <$> my_connectTimeout c)]
  ++ tls_settings mysql_modes (my_tls c).

(** Every variable that may be set for the backend, with the setting. *)
Definition settings (c : ConnectionConfiguration) : list (string * option setting) :=
  match c with
  | SqliteConfiguration c =>
      [("BACKEND", Some (Text "sqlite"));
       ("NAME", Some (Text match sqlite_database c with SqlitePath p => p | SqliteMemory => ":memory:" end));
       ("BUSY_TIMEOUT_MS", Number <$> busyTimeout c); ("SQLITE_OPEN_MODE", mode_text sqlite_modes <$> openMode c)]
  | PostgresConfiguration c =>
      [("BACKEND", Some (Text "postgresql")); ("NAME", Text <$> pg_database c); ("HOST", Text <$> pg_host c);
       ("PORT", Number <$> pg_port c); ("USER", Text <$> pg_user c); ("PASSWORD", Text <$> pg_password c);
       ("PASSFILE", Text <$> passfile c); ("CONNECT_TIMEOUT_SECONDS", Number <$> pg_connectTimeout c)]
      ++ tls_settings postgres_modes (pg_tls c)
  | MysqlConfiguration c => mysql_settings "mysql" c
  | MariadbConfiguration c => mysql_settings "mariadb" c
  end.

Definition spells (text : option string) (s : option setting) : Prop :=
  match s, text with
  | None, None => True
  | Some (Text s), Some text => text = s
  | Some (Number n), Some text => exists digits, text <> "" /\ NilEmpty.uint_of_string text = Some digits /\ Z.of_uint digits = n
  | _, _ => False
  end.

(** The environment says what the configuration does and nothing else. *)
Definition represents (env : ConnectionEnvironment) (c : ConnectionConfiguration) : Prop :=
  Forall (fun kv => spells (env !! (prefix +:+ kv.1)) kv.2) (settings c) /\
  forall name, is_Some (env !! name) -> exists key, name = prefix +:+ key /\ key ∈ map fst (settings c).

Definition at_most (maximum : Z) (o : option Z) : Prop := forall n, o = Some n -> (n <= maximum)%Z.

(** The configurations that can be said. *)
Definition sayable (env : ConnectionEnvironment) (c : ConnectionConfiguration) : Prop :=
  (forall name value, env !! name = Some value -> has_NUL value = false) /\
  match c with
  | SqliteConfiguration c =>
      (forall p, sqlite_database c = SqlitePath p -> p <> "" /\ p <> ":memory:") /\ at_most INT_MAX (busyTimeout c)
  | PostgresConfiguration c => at_most 65535 (pg_port c) /\ at_most INT_MAX (pg_connectTimeout c)
  | MysqlConfiguration c | MariadbConfiguration c =>
      at_most 65535 (my_port c) /\ at_most UINT_MAX (my_connectTimeout c) /\ my_connectTimeout c <> Some 0%Z
  end.

Section correctness.
Variable env : ConnectionEnvironment.
Definition NUL_free : Prop := forall name value, env !! name = Some value -> has_NUL value = false.
Hypothesis free : NUL_free.

Lemma field_value name : field env name = Ok (env !! (prefix +:+ name)).
Proof. unfold field. destruct (env !! _) eqn:He; [|done]. by rewrite (free _ _ He). Qed.

Lemma spells_text o s : spells o (Text <$> s) <-> o = s.
Proof. destruct o, s; simpl; naive_solver. Qed.

Lemma number_Ok_iff text maximum n :
  number text maximum = Ok n <-> spells (Some text) (Some (Number n)) /\ (n <= maximum)%Z.
Proof.
  unfold number, invalid_when. case_bool_decide as Ht; simpl; [naive_solver|].
  destruct (NilEmpty.uint_of_string text) as [d|]; simpl; [|naive_solver].
  destruct (Z.ltb_spec maximum (Z.of_uint d)); simpl.
  - split; [done|]. intros [(digits & _ & [= <-] & <-) Hle]. lia.
  - split; [intros [= <-]; split; [by exists d|done]|]. intros [(digits & _ & [= <-] & <-) _]. done.
Qed.

Lemma optional_number_Ok_iff name maximum o :
  optional_number env name maximum = Ok o <-> spells (env !! (prefix +:+ name)) (Number <$> o) /\ at_most maximum o.
Proof.
  unfold optional_number. rewrite field_value, bind_Ok. destruct (env !! _) as [text|].
  - rewrite fmap_Ok_iff. split.
    + intros (n & [Hs Hm]%number_Ok_iff & ->). split; [done|]. by intros ? [= <-].
    + intros [Hs Hm]. destruct o as [n|]; [|done]. exists n. split; [|done]. apply number_Ok_iff. auto.
  - destruct o; simpl; split; try done; try naive_solver.
Qed.

(** A choice whose names and values correspond. *)
Definition corresponds {A} `{EqDecision A} (options : list (string * A)) : Prop :=
  (forall m : A, exists t, mode_text options m = Text t /\ List.find (fun kv => bool_decide (kv.1 = t)) options = Some (t, m)) /\
  forall t kv, List.find (fun kv => bool_decide (kv.1 = t)) options = Some kv -> mode_text options kv.2 = Text t.

Lemma choice_Ok_iff {A} `{EqDecision A} name (options : list (string * A)) o :
  corresponds options -> (choice env name options = Ok o <-> spells (env !! (prefix +:+ name)) (mode_text options <$> o)).
Proof.
  intros [Hto Hfrom]. unfold choice. rewrite field_value, bind_Ok. destruct (env !! _) as [text|]; cycle 1.
  { destruct o as [m|]; simpl; [|done]. destruct (Hto m) as (t & -> & _). done. }
  destruct (List.find (fun kv => bool_decide (kv.1 = text)) options) as [kv|] eqn:Hfind.
  - split.
    + intros [= <-]. simpl. by rewrite (Hfrom _ _ Hfind).
    + destruct o as [m|]; simpl; [|done]. destruct (Hto m) as (t & -> & Hm). intros ->. rewrite Hm in Hfind. by injection Hfind as <-.
  - split; [done|]. destruct o as [m|]; simpl; [|done]. destruct (Hto m) as (t & -> & Hm). intros ->. by rewrite Hm in Hfind.
Qed.

Lemma sqlite_modes_correspond : corresponds sqlite_modes.
Proof. split; [by intros []; eexists|]. intros t kv. simpl. by repeat (case_bool_decide; [intros [= <-]; subst t|]). Qed.
Lemma postgres_modes_correspond : corresponds postgres_modes.
Proof. split; [by intros []; eexists|]. intros t kv. simpl. by repeat (case_bool_decide; [intros [= <-]; subst t|]). Qed.
Lemma mysql_modes_correspond : corresponds mysql_modes.
Proof. split; [by intros []; eexists|]. intros t kv. simpl. by repeat (case_bool_decide; [intros [= <-]; subst t|]). Qed.

Definition says (kv : string * option setting) : Prop := spells (env !! (prefix +:+ kv.1)) kv.2.

Lemma invalid_when_Ok c u : invalid_when c = Ok u <-> c = false.
Proof. destruct c, u; naive_solver. Qed.

Lemma configure_postgres_iff c :
  env !! (prefix +:+ "BACKEND") = Some "postgresql" ->
  (configure_postgres env = Ok c <->
   Forall says (settings (PostgresConfiguration c)) /\ at_most 65535 (pg_port c) /\ at_most INT_MAX (pg_connectTimeout c)).
Proof.
  intros Hb. unfold configure_postgres, path. rewrite !field_value, !bind_Ok.
  destruct c as [host port database user password timeout file [mode ca certificate key]].
  unfold settings, tls_settings. cbn [app pg_database pg_host pg_port pg_user pg_password passfile pg_connectTimeout pg_tls tls_mode
    caCertificate clientCertificate clientKey].
  rewrite !Forall_cons. unfold says at 1. cbn [fst snd]. rewrite Hb.
  split.
  - intros (p & [Hp Hpm]%optional_number_Ok_iff & H)%bind_Ok_iff. apply bind_Ok_iff in H as (t & [Ht Htm]%optional_number_Ok_iff & H).
    rewrite !bind_Ok in H. apply bind_Ok_iff in H as (m & Hm & [= <- <- <- <- <- <- <- <- <- <- <-]).
    apply choice_Ok_iff in Hm; [|apply postgres_modes_correspond]. unfold says. cbn [fst snd]. rewrite !spells_text. split_and?; done || by constructor.
  - unfold says. cbn [fst snd]. rewrite !spells_text. intros [(_ & <- & <- & Hp & <- & <- & <- & Ht & Hm & <- & <- & <- & _) [Hpm Htm]].
    rewrite (proj2 (optional_number_Ok_iff "PORT" 65535 port)), bind_Ok by done.
    rewrite (proj2 (optional_number_Ok_iff _ INT_MAX timeout)), bind_Ok by done. rewrite !bind_Ok.
    by rewrite (proj2 (choice_Ok_iff _ _ mode postgres_modes_correspond)).
Qed.

Lemma configure_mysql_iff backend c :
  env !! (prefix +:+ "BACKEND") = Some backend ->
  (configure_mysql env = Ok c <->
   Forall says (mysql_settings backend c) /\ at_most 65535 (my_port c) /\ at_most UINT_MAX (my_connectTimeout c) /\
   my_connectTimeout c <> Some 0%Z).
Proof.
  intros Hb. unfold configure_mysql, path, mysql_settings. rewrite !field_value, !bind_Ok.
  destruct c as [host port database user password file timeout [mode ca certificate key]].
  unfold tls_settings. cbn [app my_database my_host my_port my_user my_password socket my_connectTimeout my_tls tls_mode
    caCertificate clientCertificate clientKey].
  rewrite !Forall_cons. unfold says at 1. cbn [fst snd]. rewrite Hb.
  split.
  - intros (p & [Hp Hpm]%optional_number_Ok_iff & H)%bind_Ok_iff. apply bind_Ok_iff in H as (t & [Ht Htm]%optional_number_Ok_iff & H).
    apply seq_Ok_iff in H as (Hzero%invalid_when_Ok & H). rewrite !bind_Ok in H.
    apply bind_Ok_iff in H as (m & Hm & [= <- <- <- <- <- <- <- <- <- <- <-]).
    apply choice_Ok_iff in Hm; [|apply mysql_modes_correspond]. apply bool_decide_eq_false in Hzero.
    unfold says. cbn [fst snd]. rewrite !spells_text. split_and?; done || by constructor.
  - unfold says. cbn [fst snd]. rewrite !spells_text. intros [(_ & <- & <- & Hp & <- & <- & <- & Ht & Hm & <- & <- & <- & _) (Hpm & Htm & Hzero)].
    rewrite (proj2 (optional_number_Ok_iff "PORT" 65535 port)), bind_Ok by done.
    rewrite (proj2 (optional_number_Ok_iff _ UINT_MAX timeout)), bind_Ok by done.
    rewrite bool_decide_false, bind_Ok by done. rewrite !bind_Ok.
    by rewrite (proj2 (choice_Ok_iff _ _ mode mysql_modes_correspond)).
Qed.

Lemma sqlite_iff c :
  env !! (prefix +:+ "BACKEND") = Some "sqlite" ->
  (sqlite_configuration env = Ok (SqliteConfiguration c) <->
   Forall says (settings (SqliteConfiguration c)) /\
   (forall p, sqlite_database c = SqlitePath p -> p <> "" /\ p <> ":memory:") /\ at_most INT_MAX (busyTimeout c)).
Proof.
  intros Hb. unfold sqlite_configuration. rewrite field_value, bind_Ok. destruct c as [database mode timeout].
  cbn [settings sqlite_database openMode busyTimeout]. rewrite !Forall_cons. unfold says at 1. cbn [fst snd]. rewrite Hb.
  unfold says. cbn [fst snd]. destruct (env !! (prefix +:+ "NAME")) as [name|]; cycle 1.
  { split; [done|]. by intros [(_ & [] & _) _]. }
  cbn [spells]. split.
  - intros (Hne%invalid_when_Ok & (t & [Ht Htm]%optional_number_Ok_iff & (m & Hm & [= <- <- <-])%bind_Ok_iff)%bind_Ok_iff)%seq_Ok_iff.
    apply choice_Ok_iff in Hm; [|apply sqlite_modes_correspond]. apply bool_decide_eq_false in Hne.
    split_and?; try done; [by case_bool_decide|]. intros p. case_bool_decide; [done|]. by intros [= <-].
  - intros [(_ & Hname & Ht & Hm & _) [Hpath Htm]].
    assert (Hne : name <> "" /\ database = if bool_decide (name = ":memory:") then SqliteMemory else SqlitePath name).
    { destruct database as [p|]; subst name; [|done]. destruct (Hpath p eq_refl) as [Hp Hmem]. by rewrite bool_decide_false. }
    destruct Hne as [Hne ->]. rewrite (bool_decide_false (name = "")) by done. cbn [invalid_when]. rewrite bind_Ok.
    rewrite (proj2 (optional_number_Ok_iff _ INT_MAX timeout)), bind_Ok by done.
    by rewrite (proj2 (choice_Ok_iff _ _ mode sqlite_modes_correspond)).
Qed.
End correctness.

(** *** The variables that are allowed *)
Section allowed.
Definition backend_of (c : ConnectionConfiguration) : string :=
  match c with
  | SqliteConfiguration _ => "sqlite"
  | PostgresConfiguration _ => "postgresql"
  | MysqlConfiguration _ => "mysql"
  | MariadbConfiguration _ => "mariadb"
  end.

Lemma allowed_iff c key : allowed (backend_of c) key = true <-> key ∈ map fst (settings c).
Proof.
  unfold allowed, is_one_of. rewrite orb_true_iff, bool_decide_eq_true.
  destruct c as [c|c|c|c]; unfold settings, mysql_settings, tls_settings; cbn [backend_of app map fst];
    rewrite ?(bool_decide_true ("sqlite" = "sqlite")), ?(bool_decide_false (_ = "sqlite")), ?orb_true_iff by done;
    rewrite ?(bool_decide_true ("postgresql" = "postgresql")), ?(bool_decide_false (_ = "postgresql")) by done;
    rewrite ?bool_decide_eq_true, ?elem_of_cons, ?elem_of_nil; tauto.
Qed.

Lemma acceptable_iff c name value :
  acceptable (backend_of c) name value = true <->
  (exists key, name = prefix +:+ key /\ key ∈ map fst (settings c)) /\ has_NUL value = false.
Proof.
  unfold acceptable. rewrite !andb_true_iff, negb_true_iff, starts_with_spec. split.
  - intros [[[key ->] Ha] Hn]. split; [|done]. exists key. split; [done|]. apply allowed_iff. by rewrite drop_str_app in Ha.
  - intros [(key & -> & Hk) Hn]. split; [|done]. split; [by exists key|]. rewrite drop_str_app. by apply allowed_iff.
Qed.

Lemma loop_iff env c :
  existsb (fun kv => negb (acceptable (backend_of c) kv.1 kv.2)) (map_to_list env) = false <->
  NUL_free env /\ forall name, is_Some (env !! name) -> exists key, name = prefix +:+ key /\ key ∈ map fst (settings c).
Proof.
  rewrite <- not_true_iff_false, existsb_exists. split.
  - intros Hno. assert (Hall : forall name value, env !! name = Some value -> acceptable (backend_of c) name value = true).
    { intros name value Hv. apply not_false_iff_true. intros Hf. apply Hno. exists (name, value). split; [|cbn [fst snd]; by rewrite Hf].
      apply list_elem_of_In. by apply elem_of_map_to_list. }
    split; [intros name value Hv|intros name [value Hv]]; apply Hall, acceptable_iff in Hv as [? ?]; done.
  - intros [Hfree Hkeys] ([name value] & Hin & Hneg). apply list_elem_of_In, elem_of_map_to_list in Hin. cbn [fst snd] in Hneg.
    rewrite (proj2 (acceptable_iff c name value)) in Hneg; [done|]. split; [by apply Hkeys|by eapply Hfree].
Qed.
End allowed.

(** C18: an environment is accepted with a configuration exactly when it says what the
    configuration does and nothing else: no variable is ignored, none that is given is
    changed but for the spelling of numbers, and numbers are within their ranges. *)
Theorem connectionConfiguration_iff env c :
  connectionConfiguration env = Ok c <-> represents env c /\ sayable env c.
Proof.
  unfold represents, sayable. split.
  - unfold connectionConfiguration. intros ([backend|] & Hb & H)%bind_Ok_iff; [|done].
    apply seq_Ok_iff in H as (Hknown%invalid_when_Ok & (Hloop%invalid_when_Ok & H)%seq_Ok_iff).
    apply negb_false_iff, bool_decide_eq_true in Hknown.
    assert (Henv : env !! (prefix +:+ "BACKEND") = Some backend).
    { unfold field in Hb. destruct (env !! _); [|done]. by apply seq_Ok_iff in Hb as (_ & [= <-]). }
    assert (Hc : backend = backend_of c).
    { repeat case_bool_decide; subst; [|by apply fmap_Ok_iff in H as (? & _ & ->)..|].
      - unfold sqlite_configuration in H. apply bind_Ok_iff in H as ([name|] & _ & H); [|done].
        repeat (apply bind_Ok_iff in H as (? & _ & H)). by injection H as <-.
      - apply fmap_Ok_iff in H as (? & _ & ->). rewrite !elem_of_cons, elem_of_nil in Hknown. naive_solver. }
    subst backend. apply loop_iff in Hloop as [Hfree Hkeys].
    destruct c as [c|c|c|c]; cbn [backend_of] in *; rewrite ?bool_decide_true, ?bool_decide_false in H by done.
    + apply sqlite_iff in H; [|done..]. destruct H as [Hs Hr]. exact (conj (conj Hs Hkeys) (conj Hfree Hr)).
    + apply fmap_Ok_iff in H as (c' & H & [= <-]). apply configure_postgres_iff in H; [|done..]. destruct H as [Hs Hr]. exact (conj (conj Hs Hkeys) (conj Hfree Hr)).
    + apply fmap_Ok_iff in H as (c' & H & [= <-]). apply (configure_mysql_iff env Hfree "mysql") in H; [|done..]. destruct H as [Hs Hr]. exact (conj (conj Hs Hkeys) (conj Hfree Hr)).
    + apply fmap_Ok_iff in H as (c' & H & [= <-]). apply (configure_mysql_iff env Hfree "mariadb") in H; [|done..]. destruct H as [Hs Hr]. exact (conj (conj Hs Hkeys) (conj Hfree Hr)).
  - intros [[Hsays Hkeys] [Hfree Hc]].
    assert (Henv : env !! (prefix +:+ "BACKEND") = Some (backend_of c)).
    { assert (Hb : spells (env !! (prefix +:+ "BACKEND")) (Some (Text (backend_of c))))
        by (destruct c; apply Forall_cons in Hsays as [Hb _]; exact Hb).
      simpl in Hb. destruct (env !! _); by subst. }
    unfold connectionConfiguration. rewrite field_value, Henv, bind_Ok by done.
    assert (Hknown : is_one_of ["sqlite"; "postgresql"; "mysql"; "mariadb"] (backend_of c) = true) by by destruct c.
    rewrite Hknown. cbn [negb invalid_when]. rewrite bind_Ok.
    rewrite (proj2 (loop_iff env c)) by done. cbn [invalid_when]. rewrite bind_Ok.
    destruct c as [c|c|c|c]; cbn [backend_of] in *; rewrite ?bool_decide_true, ?bool_decide_false by done.
    + by apply sqlite_iff.
    + rewrite (proj2 (configure_postgres_iff env Hfree c Henv)); done.
    + rewrite (proj2 (configure_mysql_iff env Hfree "mysql" c Henv)); done.
    + rewrite (proj2 (configure_mysql_iff env Hfree "mariadb" c Henv)); done.
Qed.
