(* ===== verification/CommandLine.v ===== *)
(** CommandLine: the program that works on a migration project and runs its migrations,
    from src/migrations/CommandLine.cpp: the arguments, what each command does to the
    project's directory and to the database, what it prints and its exit code. *)
From S2P Require Import Prelude Foundation Chrono Values Codec Schema Sha256 Models PhysicalSql Snapshot Diff SqlValidation Literals SchemaJson Generation Renames Catalog History Session State Preflight TargetValues Runner Environment FileSystem Project Disk.
Local Open Scope string_scope.

(** ** Arguments *)
Definition catalog_usage : string :=
  "Usage: status | validate | preview up|down [--to N] | up [--to N] | down --to "
  +:+ "N | baseline --to N | resolve --version N --checksum SHA256 "
  +:+ "--resolution completed|reverted" +:+ newline
  +:+ "Connection: ORM_CXX_DATABASE_BACKEND and ORM_CXX_DATABASE_* fields" +:+ newline.

Definition usage : string :=
  "Usage: init [--backends sqlite,postgresql,mysql,mariadb] | compare [--check] [--decisions FILE] | "
  +:+ "make NAME [--decisions FILE | --manual] | finalize VERSION --accept-schema | status | validate | "
  +:+ "preview up|down [--to N] | up [--to N] | down --to N | baseline --to N | "
  +:+ "resolve --version N --checksum SHA256 --resolution completed|reverted" +:+ newline
  +:+ "Generation is offline. Execution uses ORM_CXX_DATABASE_BACKEND and ORM_CXX_DATABASE_* fields." +:+ newline.

Definition catalog_commands : list string := ["status"; "validate"; "preview"; "up"; "down"; "baseline"; "resolve"].
Definition project_commands : list string := ["init"; "compare"; "make"; "finalize"].

(** [args[i]]; the size is checked before. *)
Definition argument (args : list string) (i : nat) : string := nth i args "".

Definition asks_help (args : list string) : bool :=
  match args with [] => true | [a] => bool_decide (a = "--help") || bool_decide (a = "help") | _ => false end.

(** The variables of a catalog command after its arguments are read. *)
Record CatalogArguments := MkArguments {
  command : string;
  direction : Direction;
  target : option Z;
  expectedChecksum : string;
  resolution : Resolution
}.

Definition lower_hex (c : ascii) : bool := is_digit c || ((97 <=? byte_of c) && (byte_of c <=? 102))%Z.

Definition read_resolve (args : list string) : option CatalogArguments :=
  if negb (length args =? 7)%nat || negb (bool_decide (argument args 1 = "--version"))
     || negb (bool_decide (argument args 3 = "--checksum")) || negb (bool_decide (argument args 5 = "--resolution"))
     || negb (bool_decide (argument args 6 = "completed") || bool_decide (argument args 6 = "reverted"))
  then None
  else
    match parse_version (argument args 2) with
    | Some value =>
        let sum := argument args 4 in
        if (value <=? 0)%Z || negb (String.length sum =? 64)%nat || negb (forallb_char lower_hex sum) then None
        else Some (MkArguments "resolve" Up (Some value) sum
               (if bool_decide (argument args 6 = "completed") then Completed else Reverted))
    | None => None
    end.

(** [--to N] after the first arguments. *)
Definition read_target (args : list string) (name : string) (consumed : nat) : option (option Z) :=
  if (length args =? consumed)%nat then Some None
  else if bool_decide (name = "status") || bool_decide (name = "validate") || negb (length args =? consumed + 2)%nat
          || negb (bool_decide (argument args consumed = "--to")) then None
  else
    match parse_version (argument args (consumed + 1)) with
    | Some value => if (value <? 0)%Z then None else Some (Some value)
    | None => None
    end.

Definition read_catalog_arguments (args : list string) : option CatalogArguments :=
  let name := argument args 0 in
  if negb (bool_decide (name ∈ catalog_commands)) then None
  else if bool_decide (name = "resolve") then read_resolve args
  else if bool_decide (name = "preview") && ((length args <? 2)%nat || negb (bool_decide (argument args 1 ∈ ["up"; "down"]))) then None
  else
    let preview := bool_decide (name = "preview") in
    let direction := if preview then (if bool_decide (argument args 1 = "up") then Up else Down)
                     else if bool_decide (name = "down") then Down else Up in
    match read_target args name (if preview then 2 else 1) with
    | Some target =>
        if (bool_decide (name = "down") || bool_decide (name = "baseline")) && negb (is_some target) then None
        else Some (MkArguments name direction target "" Completed)
    | None => None
    end.

(** [--backends]: the names up to each comma. *)
Fixpoint cut_comma (names : string) : string * option string :=
  match names with
  | "" => ("", None)
  | String c rest =>
      if bool_decide (c = ","%char) then ("", Some rest) else let (name, more) := cut_comma rest in (String c name, more)
  end.

Definition backend_named (name : string) : option BackendType :=
  List.find (fun b => match backendName b with Ok n => bool_decide (n = name) | Err _ => false end) generationBackends.

Fixpoint read_backends (fuel : nat) (names : string) : option (list BackendType) :=
  match fuel with
  | O => None
  | S fuel =>
      if bool_decide (names = "") then Some []
      else
        let (name, more) := cut_comma names in
        match backend_named name with
        | None => None
        | Some b =>
            match more with
            | None => Some [b]
            | Some rest => if bool_decide (rest = "") then None else cons b <$> read_backends fuel rest
            end
        end
  end.

Definition init_backends (args : list string) : option (list BackendType) :=
  if (length args =? 1)%nat then Some generationBackends
  else if (length args =? 3)%nat && bool_decide (argument args 1 = "--backends") then
    match read_backends (S (String.length (argument args 2))) (argument args 2) with
    | Some [] => None
    | bs => bs
    end
  else None.

(** The options of [compare] and [make]. *)
Record Options := MkOptions { check_ : bool; manual_ : bool; decisionsFile : option string }.

Fixpoint read_options (making : bool) (o : Options) (args : list string) : option Options :=
  match args with
  | [] => Some o
  | a :: rest =>
      if bool_decide (a = "--check") && negb making && negb (check_ o)
      then read_options making (MkOptions true (manual_ o) (decisionsFile o)) rest
      else if bool_decide (a = "--manual") && making && negb (manual_ o)
      then read_options making (MkOptions (check_ o) true (decisionsFile o)) rest
      else if bool_decide (a = "--decisions") && negb (is_some (decisionsFile o)) then
        match rest with
        | file :: rest => read_options making (MkOptions (check_ o) (manual_ o) (Some file)) rest
        | [] => None
        end
      else None
  end.

Definition no_options : Options := MkOptions false false None.

(** The name of a new migration and the options. *)
Definition read_generation_arguments (args : list string) : option (string * Options) :=
  let making := bool_decide (argument args 0 = "make") in
  let name := argument args 1 in
  if making && ((length args <? 2)%nat || starts_with "--" name) then None
  else
    match read_options making no_options (drop (if making then 2 else 1) args) with
    | Some o => if manual_ o && is_some (decisionsFile o) then None else Some (if making then name else "", o)
    | None => None
    end.

Definition read_finalize_arguments (args : list string) : option Z :=
  if negb (length args =? 3)%nat || negb (bool_decide (argument args 2 = "--accept-schema")) then None
  else
    match parse_version (argument args 1) with
    | Some version => if (version <=? 0)%Z then None else Some version
    | None => None
    end.

(** ** The world of a command *)
Section commands.
Context `{ProjectLibrary} `{DirectoryOrder} `{Platform} `{Introspection} `{!StoredValues} `{!SqliteObjects}.

(** Generation decisions are read from a file anywhere; [getenv] is the environment. *)
Variable decision_text : string -> option string.
Variable getenv : string -> option string.
Variable models : SchemaView.

Record World := MkWorld {
  host : Host;
  calls : nat;
  session : Session;
  output : string;
  errors : string
}.

(** Every exception of the program is a [std::exception]; only what the handlers tell
    apart is kept of it. *)
Definition Cmd (A : Type) : Type := World -> result failure A * World.

#[local] Instance Cmd_ret : MRet Cmd := fun A a w => (Ok a, w).
#[local] Instance Cmd_bind : MBind Cmd := fun A B k m w =>
  match m w with (Ok a, w) => k a w | (Err e, w) => (Err e, w) end.

Definition handled {A} (body : Cmd A) (handler : failure -> Cmd A) : Cmd A := fun w =>
  match body w with (Err e, w) => handler e w | r => r end.

Definition of_error (e : error) : failure :=
  match e with FileSystem.Thrown e => Exception e | _ => SociError None end.

Definition on_project {A} (m : IO A) : Cmd A := fun w =>
  let (r, h) := m (host w) in
  (match r with Ok a => Ok a | Err e => Err (of_error e) end, MkWorld h (calls w) (session w) (output w) (errors w)).

Definition on_database {A} (m : M A) : Cmd A := fun w =>
  let '(r, n, s) := m (calls w) (session w) in (r, MkWorld (host w) n s (output w) (errors w)).

Definition pure {A} (r : res A) : Cmd A := fun w => (match r with Ok a => Ok a | Err e => Err (Exception e) end, w).

Definition print (text : string) : Cmd unit := fun w =>
  (Ok tt, MkWorld (host w) (calls w) (session w) (output w +:+ text) (errors w)).
Definition print_error (text : string) : Cmd unit := fun w =>
  (Ok tt, MkWorld (host w) (calls w) (session w) (output w) (errors w +:+ text)).

Fixpoint each {A} (l : list A) (f : A -> Cmd unit) : Cmd unit :=
  match l with [] => mret tt | x :: l => f x ;; each l f end.

Definition badArguments (text : string) : Cmd Z := print_error text ;; mret 2%Z.

(** ** Execution *)

(** [Database{config}]: the connection is opened or fails. *)
Definition opened (s : Session) : Session :=
  MkSession (durable s) None (trace s) false true false None None (foreignKeys s) None.

Definition open_database : M unit := fun n s =>
  match fault n with
  | Fine => (Ok tt, S n, opened s)
  | Session.Fails f _ _ => (Err f, S n, s)
  end.

Definition configured_backend (c : ConnectionConfiguration) : BackendType :=
  match c with
  | SqliteConfiguration _ => Sqlite
  | PostgresConfiguration _ => Postgres
  | MysqlConfiguration _ => Mysql
  | MariadbConfiguration _ => Mariadb
  end.

Definition version_name (version : Z) (name : string) : string := to_string_Z version +:+ " " +:+ name.

Definition print_status (s : Status) : Cmd Z :=
  print ("Current: " +:+ to_string_Z (currentVersion s) +:+ "; baseline: " +:+ to_string_Z (baselineVersion s) +:+ newline) ;;
  each (applied s) (fun m => print (version_name (am_version m) (am_name m) +:+ (if baseline m then " baseline" else " applied") +:+ newline)) ;;
  each (pending s) (fun m => print (version_name (ms_version m) (ms_name m) +:+ " pending" +:+ newline)) ;;
  match incomplete_ s with
  | Some marker =>
      print ("Incomplete: " +:+ version_name (im_version marker) (im_name marker) +:+ " "
             +:+ (match im_direction marker with Up => "up" | Down => "down" end)
             +:+ " checksum " +:+ im_checksum marker +:+ newline) ;;
      print_error ("Inspect and repair the database before resolving the incomplete migration" +:+ newline)
  | None => mret tt
  end ;;
  each (problems s) (fun issue => print_error ("Migration " +:+ to_string_Z (pr_version issue) +:+ ": " +:+ pr_message issue +:+ newline)) ;;
  mret (if isValid s then 0%Z else 1%Z).

Definition print_plan (p : Plan) : Cmd Z :=
  print ("From " +:+ to_string_Z (plan_from p) +:+ " to " +:+ to_string_Z (plan_to p) +:+ "; atomicity: "
         +:+ (if bool_decide (plan_atomicity p = WholeMigration) then "whole migration" else "nontransactional") +:+ newline) ;;
  each (plan_migrations p) (fun m => print ("-- " +:+ version_name (pm_version m) (pm_name m) +:+ newline +:+ pm_sql m +:+ newline)) ;;
  mret 0%Z.

(** The command on an open database. *)
Definition run_catalog_command (b : BackendType) (catalog : list Migration) (a : CatalogArguments) : Cmd Z :=
  if bool_decide (command a = "status") then s ← on_database (runner_status b catalog false); print_status s
  else if bool_decide (command a = "preview") then
    p ← on_database (preview b catalog false (direction a) (target a)); print_plan p
  else
    (if bool_decide (command a = "validate") then on_database (runner_validate b catalog false)
     else if bool_decide (command a = "up") then on_database (runner_up b catalog false (target a))
     else
       match target a with
       | None => pure (Err Undefined)
       | Some version =>
           if bool_decide (command a = "down") then on_database (runner_down b catalog false version)
           else if bool_decide (command a = "resolve")
           then on_database (runner_resolve b catalog false version (expectedChecksum a) (resolution a))
           else on_database (runner_baseline b catalog false version)
       end) ;;
    print ("Migration command completed" +:+ newline) ;;
    mret 0%Z.

(** The database is closed however the command ends. *)
Definition with_database {A} (body : Cmd A) : Cmd A := fun w =>
  let (r, w) := body w in (r, (on_database Session.disconnect w).2).

Definition migration_failure (version : Z) (message : string) (native : option string) : string :=
  "Migration " +:+ to_string_Z version +:+ ": " +:+ message
  +:+ (match native with Some code => " (" +:+ code +:+ ")" | None => "" end) +:+ newline.

Definition database_failed (e : failure) : Cmd Z :=
  match e with
  | Exception (MigrationError _ message version _ native) =>
      print_error (migration_failure version message native) ;; mret 1%Z
  | _ => print_error ("Cannot connect to or operate on the migration database" +:+ newline) ;; mret 1%Z
  end.

Definition runCatalogCommandWithConnection (args : list string) (catalog : list Migration)
    (connection : ConnectionEnvironment) : Cmd Z :=
  if asks_help args then print catalog_usage ;; mret 0%Z
  else
    match read_catalog_arguments args with
    | None => badArguments catalog_usage
    | Some a =>
        handled
          (config ← pure (connectionConfiguration connection);
           on_database open_database ;;
           with_database (run_catalog_command (configured_backend config) catalog a))
          database_failed
    end.

(** ** Generation *)
Definition run_init (args : list string) : Cmd Z :=
  match init_backends args with
  | None => badArguments usage
  | Some bs =>
      on_project (init bs) ;;
      print ("Migration project initialized" +:+ newline) ;;
      mret 0%Z
  end.

Definition no_decisions : GenerationDecisions := MkDecisions [] [] [] [] [] [] [] [].

Definition read_decisions (file : option string) : res GenerationDecisions :=
  match file with
  | None => Ok no_decisions
  | Some file =>
      text ← or_throw (decision_text file)
               (MigrationError InvalidCatalog "Cannot read generation decisions file" 0 Empty None);
      decisionsFromJson text
  end.

Definition print_change (c : SchemaChange) : Cmd unit :=
  name ← pure (backendName (change_backend c));
  print (name +:+ " " +:+ change_id c +:+ ": " +:+ description c
         +:+ (if unresolved c then " [decision required]" else "") +:+ newline).

Definition print_diff (o : Options) (d : SchemaDiff) : Cmd Z :=
  each (changes d) print_change ;;
  each (diagnostics d) (fun i => print_error (diag_code i +:+ ": " +:+ diag_message i +:+ newline)) ;;
  (if is_empty (changes d) then print ("Models match the latest ready snapshot" +:+ newline) else mret tt) ;;
  mret (if existsb diag_error (diagnostics d) || (check_ o && negb (is_empty (changes d))) then 1%Z else 0%Z).

Definition run_generation (args : list string) : Cmd Z :=
  match read_generation_arguments args with
  | None => badArguments usage
  | Some (name, o) =>
      decisions ← pure (read_decisions (decisionsFile o));
      bs ← on_project MigrationProject;
      if bool_decide (argument args 0 = "make") then
        version ← on_project (if manual_ o then makeManual bs name models else make bs name models decisions);
        print ("Draft migration " +:+ to_string_Z version +:+ " created; review SQL and finalize with --accept-schema" +:+ newline) ;;
        mret 0%Z
      else
        d ← on_project (compare_models bs models decisions);
        print_diff o d
  end.

Definition run_finalize (args : list string) : Cmd Z :=
  match read_finalize_arguments args with
  | None => badArguments usage
  | Some version =>
      bs ← on_project MigrationProject;
      on_project (finalize bs version models true) ;;
      print ("Migration " +:+ to_string_Z version +:+ " finalized and immutable" +:+ newline) ;;
      mret 0%Z
  end.

(** [Catalog::fromDirectory]. *)
Definition fromDirectory : IO (list Migration) := bs ← MigrationProject; catalog bs.

Definition print_diagnostics (ds : list GenerationDiagnostic) : Cmd unit :=
  each ds (fun i => print_error (diag_code i +:+ ": " +:+ diag_message i +:+ newline)).

Definition project_failed (e : failure) : Cmd Z :=
  match e with
  | Exception (GenerationError message ds) => print_error (message +:+ newline) ;; print_diagnostics ds ;; mret 1%Z
  | Exception (MigrationError _ message version _ _) => print_error (migration_failure version message None) ;; mret 1%Z
  | _ => print_error ("Cannot operate on the migration project" +:+ newline) ;; mret 1%Z
  end.

Definition runCommandLine (args : list string) : Cmd Z :=
  if asks_help args then print usage ;; mret 0%Z
  else
    let name := argument args 0 in
    if negb (bool_decide (name ∈ project_commands ++ catalog_commands)%list) then badArguments usage
    else
      handled
        (if bool_decide (name = "init") then run_init args
         else if bool_decide (name = "compare") || bool_decide (name = "make") then run_generation args
         else if bool_decide (name = "finalize") then run_finalize args
         else
           catalog ← on_project fromDirectory;
           runCatalogCommandWithConnection args catalog (connectionEnvironmentFromProcess getenv))
        project_failed.
End commands.
