(* ===== verification/CommandLines.v ===== *)
(** CommandLines: what the commands leave alone, and what their exit codes say. *)
From S2P Require Import Prelude Foundation Chrono Values Codec Schema Sha256 Models PhysicalSql Snapshot Diff SqlValidation Literals SchemaJson Generation Renames Catalog History Session State Preflight TargetValues Runner Environment FileSystem Project Disk Projects ProjectLoading ProjectFinal CommandLine.
Local Open Scope string_scope.

Section commands.
Context `{ProjectLibrary} `{DirectoryOrder} `{Platform} `{Introspection} `{!StoredValues} `{!SqliteObjects}.
#[local] Existing Instance Cmd_ret.
#[local] Existing Instance Cmd_bind.

(** ** What commands leave alone *)

(** A relation between the world before and after, that composes. *)
Definition keeps {A} (R : World -> World -> Prop) (m : Cmd A) : Prop := forall w, R w (m w).2.

Section composition.
Variable R : World -> World -> Prop.
Context {refl : Reflexive R} {trans : Transitive R}.

Lemma keeps_ret {A} (a : A) : keeps R (mret a).
Proof. intros w. reflexivity. Qed.
Lemma keeps_pure {A} (r : res A) : keeps R (pure r).
Proof. intros w. reflexivity. Qed.
Lemma keeps_bind {A B} (m : Cmd A) (k : A -> Cmd B) : keeps R m -> (forall a, keeps R (k a)) -> keeps R (m ≫= k).
Proof.
  intros Hm Hk w. specialize (Hm w). unfold mbind, Cmd_bind. destruct (m w) as [[a|e] w']; simpl in *; [|done].
  by transitivity w'; [|apply Hk].
Qed.
Lemma keeps_handled {A} (m : Cmd A) (handler : failure -> Cmd A) :
  keeps R m -> (forall e, keeps R (handler e)) -> keeps R (handled m handler).
Proof.
  intros Hm He w. specialize (Hm w). unfold handled. destruct (m w) as [[a|e] w']; simpl in *; [done|].
  by transitivity w'; [|apply He].
Qed.
Lemma keeps_each {A} (l : list A) (f : A -> Cmd unit) : (forall x, keeps R (f x)) -> keeps R (each l f).
Proof. intros Hf. induction l as [|x l IH]; simpl; [apply keeps_ret|]. by apply keeps_bind. Qed.
Lemma keeps_with_database {A} (m : Cmd A) :
  keeps R m -> keeps R (on_database Session.disconnect) -> keeps R (with_database m).
Proof. intros Hm Hd w. unfold with_database. specialize (Hm w). destruct (m w) as [r w']. simpl in *. by transitivity w'; [|apply Hd]. Qed.
End composition.

(** The database and the counter of its calls. *)
Definition offline (w w' : World) : Prop := calls w' = calls w /\ session w' = session w.
#[local] Instance offline_refl : Reflexive offline.
Proof. done. Qed.
#[local] Instance offline_trans : Transitive offline.
Proof. intros x y z [] []. split; congruence. Qed.

(** The files of the project. *)
Definition project_kept (w w' : World) : Prop := files (host w') = files (host w).
#[local] Instance project_kept_refl : Reflexive project_kept.
Proof. done. Qed.
#[local] Instance project_kept_trans : Transitive project_kept.
Proof. intros x y z. unfold project_kept. congruence. Qed.

Lemma offline_print text : keeps offline (print text).
Proof. done. Qed.
Lemma offline_print_error text : keeps offline (print_error text).
Proof. done. Qed.
Lemma offline_on_project {A} (m : IO A) : keeps offline (on_project m).
Proof. intros w. unfold on_project. by destruct (m (host w)). Qed.

Lemma kept_print text : keeps project_kept (print text).
Proof. done. Qed.
Lemma kept_print_error text : keeps project_kept (print_error text).
Proof. done. Qed.
Lemma kept_on_database {A} (m : M A) : keeps project_kept (on_database m).
Proof. intros w. unfold on_database. by destruct (m (calls w) (session w)) as [[r n] s]. Qed.
Lemma kept_on_project {A} (m : IO A) : reads m -> keeps project_kept (on_project m).
Proof. intros Hm w. unfold on_project. specialize (Hm (host w)). by destruct (m (host w)). Qed.

Lemma reads_projectOperation {A} (m : IO A) : reads m -> reads (projectOperation m).
Proof. intros Hm. unfold projectOperation. apply reads_catch; [done|]. intros e. repeat case_match; solve_reads. Qed.

Lemma reads_projectBackends : reads projectBackends.
Proof. unfold projectBackends, readJson. solve_reads. Qed.

Lemma reads_MigrationProject : reads MigrationProject.
Proof.
  unfold MigrationProject. apply reads_bind; [apply reads_projectOperation, reads_projectBackends|]. intros bs.
  apply reads_bind; [apply reads_projectOperation, reads_loadEntries|]. intros es. apply io_reads_ret.
Qed.

Lemma reads_catalog bs : reads (catalog bs).
Proof. apply reads_projectOperation. pose proof (reads_loadEntries bs). solve_reads. Qed.

Lemma reads_fromDirectory : reads fromDirectory.
Proof. apply reads_bind; [apply reads_MigrationProject|apply reads_catalog]. Qed.

Ltac keeps_step :=
  first
    [ apply keeps_ret; exact _ | apply keeps_pure; exact _ | apply offline_print | apply offline_print_error
    | apply offline_on_project | apply kept_print | apply kept_print_error | apply kept_on_database
    | apply keeps_each; [exact _..|]; intros | apply keeps_handled; [exact _..| |intros]
    | apply keeps_with_database; [exact _..| |] | apply keeps_bind; [exact _..| |intros]
    | match goal with |- keeps _ (match ?x with _ => _ end) => destruct x end ].
Ltac solve_keeps := repeat keeps_step.

Variable decision_text : string -> option string.
Variable getenv : string -> option string.
Variable models : SchemaView.

Lemma generation_offline args :
  keeps offline (run_init args) /\ keeps offline (run_generation decision_text models args) /\ keeps offline (run_finalize models args).
Proof.
  unfold run_init, run_generation, run_finalize, print_diff, print_change, badArguments. split_and?; solve_keeps.
Qed.

Lemma execution_keeps args catalog connection :
  keeps project_kept (runCatalogCommandWithConnection args catalog connection).
Proof.
  unfold runCatalogCommandWithConnection, database_failed, run_catalog_command, print_status, print_plan, badArguments. solve_keeps.
Qed.

(** ** Exit codes *)
Definition returns {A} (m : Cmd A) (P : A -> Prop) : Prop := forall w a, (m w).1 = Ok a -> P a.

Lemma returns_ret {A} (a : A) (P : A -> Prop) : P a -> returns (mret a) P.
Proof. by intros Ha w ? [= <-]. Qed.
Lemma returns_bind {A B} (m : Cmd A) (k : A -> Cmd B) P : (forall a, returns (k a) P) -> returns (m ≫= k) P.
Proof. intros Hk w b. unfold mbind, Cmd_bind. destruct (m w) as [[a|e] w']; [apply Hk|done]. Qed.
Lemma returns_with_database {A} (m : Cmd A) P : returns m P -> returns (with_database m) P.
Proof. intros Hm w a. unfold with_database. specialize (Hm w). destruct (m w). apply Hm. Qed.
Lemma returns_error {A} (e : exn) (P : A -> Prop) : returns (pure (Err e)) P.
Proof. by intros w a. Qed.

Definition succeeds_or_fails (code : Z) : Prop := code = 0%Z \/ code = 1%Z.

Ltac returns_step :=
  first
    [ apply returns_ret; unfold succeeds_or_fails; first [by left|by right|repeat case_match; auto; fail] | apply returns_bind; intros
    | apply returns_with_database | match goal with |- returns (match ?x with _ => _ end) _ => destruct x end ].

Lemma run_catalog_codes b catalog a : returns (run_catalog_command b catalog a) succeeds_or_fails.
Proof. unfold run_catalog_command, print_status, print_plan. repeat returns_step. Qed.

(** A handler that always returns. *)
Lemma handled_total {A} (m : Cmd A) (handler : failure -> Cmd A) w :
  (forall e w, exists a, (handler e w).1 = Ok a) -> exists a, (handled m handler w).1 = Ok a.
Proof. intros Hh. unfold handled. destruct (m w) as [[a|e] w']; [by exists a|apply Hh]. Qed.

Lemma each_prints {A} (l : list A) (f : A -> Cmd unit) w : (forall x w, (f x w).1 = Ok tt) -> (each l f w).1 = Ok tt.
Proof.
  intros Hf. revert w. induction l as [|x l IH]; intros w; simpl; [done|]. unfold mbind, Cmd_bind. specialize (Hf x w).
  destruct (f x w) as [r w']. simpl in Hf. by subst r.
Qed.

(** *** The whole program *)
Abbreviation program := (runCommandLine decision_text getenv models).

Definition is_code (code : Z) : Prop := (code = 0 \/ code = 1 \/ code = 2)%Z.

Lemma returns_handled {A} (m : Cmd A) (handler : failure -> Cmd A) P :
  returns m P -> (forall e, returns (handler e) P) -> returns (handled m handler) P.
Proof.
  intros Hm Hh w a. unfold handled. specialize (Hm w). destruct (m w) as [[b|e] w']; simpl in *; [apply Hm|apply Hh].
Qed.

Lemma returns_code {m : Cmd Z} : returns m succeeds_or_fails -> returns m is_code.
Proof. intros Hm w a Ha. destruct (Hm w a Ha) as [-> | ->]; unfold is_code; auto. Qed.

Ltac codes :=
  repeat first
    [ apply returns_handled; [|intros] | apply returns_code, run_catalog_codes | apply returns_with_database
    | apply returns_bind; intros
    | apply returns_ret; unfold is_code; repeat case_match; auto; fail
    | match goal with |- returns (match ?x with _ => _ end) _ => destruct x end ].

Lemma program_codes args : returns (program args) is_code.
Proof.
  unfold runCommandLine, run_init, run_generation, run_finalize, print_diff, runCatalogCommandWithConnection, project_failed, database_failed,
    badArguments.
  codes.
Qed.

Lemma project_failed_fails e w : (project_failed e w).1 = Ok 1%Z /\ files (host (project_failed e w).2) = files (host w).
Proof.
  assert (Hkept : keeps project_kept (project_failed e)) by (unfold project_failed, print_diagnostics; solve_keeps).
  split; [|apply Hkept]. destruct e as [[]|]; try done. unfold project_failed, print_diagnostics.
  pose proof (each_prints diagnostics (fun i => print_error (diag_code i +:+ ": " +:+ diag_message i +:+ newline))
    (print_error (message +:+ newline) w).2 (fun _ _ => eq_refl)) as Hp.
  unfold mbind, Cmd_bind. simpl in *. by destruct (each _ _ _) as [r w']; simpl in *; subst r.
Qed.

Lemma program_returns args w : exists code, (program args w).1 = Ok code.
Proof.
  unfold runCommandLine. destruct (asks_help args); [by eexists|]. destruct (negb _); [by eexists|].
  apply handled_total. clear w. intros e w. eexists. apply project_failed_fails.
Qed.

(** *** Refusals *)
Definition silent (w w' : World) : Prop :=
  offline w w' /\ project_kept w w' /\ output w' = output w /\ errors w' = errors w.

Definition refusal (w w' : World) : Prop :=
  offline w w' /\ project_kept w w' /\ output w' = output w /\
  exists text, (text = usage \/ text = catalog_usage) /\ errors w' = errors w +:+ text.

(** An exit code of 2 comes with nothing but the usage. *)
Definition refuses (m : Cmd Z) : Prop := forall w, (m w).1 = Ok 2%Z -> refusal w (m w).2.

Lemma refuses_bad text : text = usage \/ text = catalog_usage -> refuses (badArguments text).
Proof. intros Ht w _. split; [done|]. split; [done|]. split; [done|]. by exists text. Qed.

Lemma refuses_code (m : Cmd Z) : returns m succeeds_or_fails -> refuses m.
Proof. intros Hm w Hw. by destruct (Hm w 2%Z Hw). Qed.

Lemma refuses_bind {A} (m : Cmd A) (k : A -> Cmd Z) : keeps silent m -> (forall a, refuses (k a)) -> refuses (m ≫= k).
Proof.
  intros Hm Hk w. specialize (Hm w). unfold mbind, Cmd_bind. destruct (m w) as [[a|e] w']; simpl in *; [|done].
  intros Hw. destruct Hm as ((Hc & Hs) & Hp & Ho & He), (Hk a w' Hw) as ((Hc' & Hs') & Hp' & Ho' & text & Ht & He').
  split; [split; congruence|]. split; [unfold project_kept in *; congruence|]. split; [congruence|]. exists text.
  split; [done|]. congruence.
Qed.

Lemma refuses_handled (m : Cmd Z) (handler : failure -> Cmd Z) :
  refuses m -> (forall e, returns (handler e) succeeds_or_fails) -> refuses (handled m handler).
Proof.
  intros Hm Hh w. specialize (Hm w). unfold handled. destruct (m w) as [[b|e] w'] eqn:Hw; simpl in *; [done|].
  intros Htwo. by destruct (Hh e w' 2%Z Htwo).
Qed.

Lemma silent_on_project {A} (m : IO A) : reads m -> keeps silent (on_project m).
Proof. intros Hm w. unfold on_project. specialize (Hm (host w)). by destruct (m (host w)). Qed.

Ltac zero_or_one := repeat returns_step.

Lemma program_refuses args : refuses (program args).
Proof.
  assert (Hout : refuses (print usage ;; mret 0%Z)) by (apply refuses_code; zero_or_one).
  unfold runCommandLine. destruct (asks_help args); [done|]. destruct (negb _); [apply refuses_bad; by left|].
  apply refuses_handled; [|intros e; unfold project_failed, database_failed; zero_or_one].
  destruct (bool_decide _); [unfold run_init; destruct (init_backends args); [apply refuses_code; zero_or_one|apply refuses_bad; by left]|].
  destruct (_ || _).
  { unfold run_generation, print_diff. destruct (read_generation_arguments args) as [[name o]|]; [apply refuses_code; zero_or_one|apply refuses_bad; by left]. }
  destruct (bool_decide _).
  { unfold run_finalize. destruct (read_finalize_arguments args); [apply refuses_code; zero_or_one|apply refuses_bad; by left]. }
  apply refuses_bind; [apply silent_on_project, reads_fromDirectory|]. intros catalog.
  unfold runCatalogCommandWithConnection. destruct (asks_help args); [apply refuses_code; zero_or_one|].
  destruct (read_catalog_arguments args); [|apply refuses_bad; by right].
  apply refuses_handled; [|intros e; unfold project_failed, database_failed; zero_or_one]. apply refuses_code, returns_bind. intros config. apply returns_bind. intros ?.
  apply returns_with_database, run_catalog_codes.
Qed.

(** *** Two halves *)
Lemma program_offline args : argument args 0 ∈ project_commands -> keeps offline (program args).
Proof.
  intros Hname. unfold runCommandLine. destruct (generation_offline args) as (Hi & Hg & Hf).
  assert (Hcmd : bool_decide (argument args 0 = "init") || (bool_decide (argument args 0 = "compare") || bool_decide (argument args 0 = "make"))
                 || bool_decide (argument args 0 = "finalize") = true).
  { rewrite !orb_true_iff, !bool_decide_eq_true. unfold project_commands in Hname. rewrite !elem_of_cons, elem_of_nil in Hname. tauto. }
  unfold badArguments, project_failed, print_diagnostics.
  destruct (bool_decide (argument args 0 = "init")), (bool_decide (argument args 0 = "compare") || bool_decide (argument args 0 = "make")),
    (bool_decide (argument args 0 = "finalize")); try done; solve_keeps; first [apply Hi|apply Hg|apply Hf].
Qed.

Lemma compare_keeps bs decisions : reads (compare_models bs models decisions).
Proof.
  unfold compare_models, latestSnapshot. apply reads_bind; [|intros; apply io_reads_lift]. apply reads_projectOperation.
  pose proof (reads_loadEntries bs). solve_reads.
Qed.

Lemma program_keeps args : argument args 0 ∉ ["init"; "make"; "finalize"] -> keeps project_kept (program args).
Proof.
  rewrite !not_elem_of_cons. intros (Hi & Hm & Hf & _). unfold runCommandLine, badArguments, project_failed, print_diagnostics.
  rewrite !(bool_decide_false (argument args 0 = "init")), !(bool_decide_false (argument args 0 = "make")),
    !(bool_decide_false (argument args 0 = "finalize")), orb_false_r by done.
  unfold run_generation, print_diff, print_change, badArguments. rewrite (bool_decide_false (argument args 0 = "make")) by done.
  assert (Hlib : reads MigrationProject /\ reads fromDirectory) by (split; [apply reads_MigrationProject|apply reads_fromDirectory]).
  destruct Hlib. repeat first [apply kept_on_project; first [done|apply compare_keeps]|apply execution_keeps|keeps_step].
Qed.

(** *** [make] *)
Definition drafted_by (bs : list BackendType) (d d' : disk) : Prop :=
  exists name version manual, draft_published bs name version manual d d'.

(** What a result of [make] says of the files before and after. *)
Definition made (w : World) (r : result failure Z) (w' : World) : Prop :=
  match r with
  | Ok 0%Z => exists bs, drafted_by bs (files (host w)) (files (host w'))
  | _ => same_project (files (host w)) (files (host w'))
  end.

Lemma run_make args w :
  argument args 0 = "make" -> tree (files (host w)) ->
  made w (run_generation decision_text models args w).1 (run_generation decision_text models args w).2.
Proof.
  intros Hname Ht. destruct (run_generation decision_text models args w) as [r w'] eqn:Hrun. cbn [fst snd].
  unfold run_generation in Hrun. destruct (read_generation_arguments args) as [[name o]|]; [|by injection Hrun as <- <-].
  rewrite Hname, (bool_decide_true ("make" = "make")) in Hrun by done. unfold mbind, Cmd_bind, pure in Hrun.
  destruct (read_decisions decision_text (decisionsFile o)) as [decisions|e]; [|by injection Hrun as <- <-].
  unfold on_project in Hrun. pose proof (reads_MigrationProject (host w)) as Hproject.
  destruct (MigrationProject (host w)) as [[bs|e] h]; simpl in Hproject, Hrun;
    [|injection Hrun as <- <-; unfold made, same_project; simpl; by rewrite Hproject].
  assert (Hdraft : wp (if manual_ o then makeManual bs name models else make bs name models decisions)
            (fun r d' => match r with Ok v => drafted_by bs (files (host w)) d' | Err _ => same_project (files (host w)) d' end) (files (host w))).
  { destruct (drafts_published bs name models decisions _ Ht) as [Hmake Hmanual].
    destruct (manual_ o); [eapply io_mono; [exact Hmanual|]|eapply io_mono; [exact Hmake|]]; intros [v|e] d' Hd; try done;
      by eexists _, _, _. }
  specialize (Hdraft h Hproject).
  destruct ((if manual_ o then makeManual bs name models else make bs name models decisions) h) as [[v|e] h'];
    simpl in Hdraft, Hrun; injection Hrun as <- <-; unfold made; simpl; [by exists bs|done].
Qed.

Lemma program_make args w :
  argument args 0 = "make" -> tree (files (host w)) -> made w (program args w).1 (program args w).2.
Proof.
  intros Hname Ht. pose proof (run_make args w Hname Ht) as Hmake. unfold runCommandLine.
  assert (Hhelp : asks_help args = false).
  { clear -Hname. destruct args as [|a [|]]; [done| |done]. unfold argument in Hname. cbn [nth] in Hname. subst a. reflexivity. }
  rewrite Hhelp, Hname. change (bool_decide ("make" ∈ project_commands ++ catalog_commands)%list) with true.
  change (bool_decide ("make" = "init")) with false. change (bool_decide ("make" = "compare") || bool_decide ("make" = "make")) with true.
  cbn [negb]. unfold handled. destruct (run_generation decision_text models args w) as [[code|e] w'] eqn:Hrun; [done|].
  cbn [fst snd] in Hmake. destruct (project_failed_fails e w') as [-> Hkept]. unfold made in *. by rewrite Hkept.
Qed.
End commands.

(** C17: every run of the program ends with the exit code 0, 1 or 2: no exception escapes.
    Generation is offline -- its commands never call the database -- and no command but
    init, make and finalize changes the files of the project. *)
Theorem commands_separate `{ProjectLibrary} `{DirectoryOrder} `{Platform} `{Introspection} `{!StoredValues} `{!SqliteObjects}
    decision_text getenv models args w :
  (exists code, (runCommandLine decision_text getenv models args w).1 = Ok code /\ is_code code) /\
  (argument args 0 ∈ project_commands -> offline w (runCommandLine decision_text getenv models args w).2) /\
  (argument args 0 ∉ ["init"; "make"; "finalize"] -> project_kept w (runCommandLine decision_text getenv models args w).2).
Proof.
  split; [|split; intros Hname; [by apply program_offline|by apply program_keeps]].
  destruct (program_returns decision_text getenv models args w) as [code Hcode]. exists code. split; [done|].
  by eapply program_codes.
Qed.

(** an exit code of 2 means that nothing was done: no file of the project changed, the
    database was not called, and all that was printed is the usage, as an error. *)
Theorem usage_errors_do_nothing `{ProjectLibrary} `{DirectoryOrder} `{Platform} `{Introspection} `{!StoredValues} `{!SqliteObjects}
    decision_text getenv models args w :
  (runCommandLine decision_text getenv models args w).1 = Ok 2%Z ->
  refusal w (runCommandLine decision_text getenv models args w).2.
Proof. apply program_refuses. Qed.

(** the exit code of make says what became of the project: 0 means that a whole draft
    was published and any other code that no file of the project changed, whatever the
    calls to the file system end with. *)
Theorem make_exit_code `{ProjectLibrary} `{DirectoryOrder} `{Platform} `{Introspection} `{!StoredValues} `{!SqliteObjects}
    decision_text getenv models args w :
  argument args 0 = "make" -> tree (files (host w)) ->
  made w (runCommandLine decision_text getenv models args w).1 (runCommandLine decision_text getenv models args w).2.
Proof. apply program_make. Qed.
