(* ===== verification/CommandSamples.v ===== *)
(** CommandSamples: the program run on a sample project, with a database that finds and
    stores nothing. *)
From S2P Require Import Prelude Foundation Chrono Values Codec Schema Sha256 Models PhysicalSql Snapshot Diff SqlValidation Literals SchemaJson Generation Catalog History Session State Preflight TargetValues Runner Recovery Runs Environment FileSystem Disk Project Projects ProjectLoading ProjectFinal ProjectSamples CommandLine CommandLines.
Local Open Scope string_scope.

#[local] Existing Instance sequencing.
#[local] Existing Instance nothing_found.
#[local] Existing Instance nothing_stored.
#[local] Existing Instance sequences_of.

(** A database whose calls succeed, and a project on a disk whose calls do what [outcomes] says. *)
Definition idle_world (d : disk) (outcomes : list FileSystem.outcome) : @World (sequencing (fun _ => Session.Fine)) :=
  @MkWorld (sequencing (fun _ => Session.Fine)) (MkHost d outcomes) 0 (ready_session (fun _ => Session.Fine)) "" "".

Definition no_text (name : string) : option string := None.
Abbreviation program args w := (runCommandLine no_text no_text sample_models args w).

Lemma usage_errors_do_nothing_witness :
  (program ["make"; "--oops"] (idle_world start [])).1 = Ok 2%Z /\
  refusal (idle_world start []) (program ["make"; "--oops"] (idle_world start [])).2.
Proof.
  assert (Hcode : (program ["make"; "--oops"] (idle_world start [])).1 = Ok 2%Z) by (vm_compute; reflexivity).
  split; [exact Hcode|]. exact (usage_errors_do_nothing no_text no_text sample_models ["make"; "--oops"] (idle_world start []) Hcode).
Defined.

Lemma make_exit_code_witness :
  (program ["make"; "users"; "--manual"] (idle_world start [])).1 = Ok 0%Z /\
  exists bs, drafted_by bs start (files (host (program ["make"; "users"; "--manual"] (idle_world start [])).2)).
Proof.
  assert (Hcode : (program ["make"; "users"; "--manual"] (idle_world start [])).1 = Ok 0%Z) by (vm_compute; reflexivity).
  split; [exact Hcode|].
  assert (Ht : tree start) by (apply is_tree_tree; vm_compute; reflexivity).
  pose proof (make_exit_code no_text no_text sample_models ["make"; "users"; "--manual"] (idle_world start []) eq_refl Ht) as Hm.
  rewrite Hcode in Hm. exact Hm.
Defined.

(** The draft is printed, and status reports the finalized migration as pending. *)
Example make_prints :
  output (program ["make"; "users"; "--manual"] (idle_world start [])).2
  = "Draft migration 1 created; review SQL and finalize with --accept-schema" +:+ newline.
Proof. vm_compute. reflexivity. Qed.

Example commands_need_a_connection :
  (program ["status"] (idle_world (files finalization.2) [])).1 = Ok 1%Z.
Proof. vm_compute. reflexivity. Qed.
