(* ===== verification/BindingSamples.v ===== *)
(** BindingSamples: the properties of statements and values that are given to the drivers,
    applied to the books of [Samples], and a link between two rows under its lock. *)
From S2P Require Import Prelude Foundation Chrono Values Codec Models Schema PhysicalSql Dialect TargetValues QueryValue Query Emitter Capabilities Commands Binding Bound Generators Tokens Markers Samples Database Connection LinkLocks.
Local Open Scope string_scope.

(** ** A statement of the MySQL family *)
Definition inserted (d : SqlDialect) : string := default "" (match insert d book with Ok s => Some s | Err _ => None end).
Definition book_names : list string :=
  default [] (m ← arrow book; match getFieldsNames book m with Ok ns => Some ns | Err _ => None end).

Lemma insert_split_witness :
  book_names <> [] /\
  exists t, tokenizeStatement (inserted MysqlDialect) = Ok t /\ names t = book_names /\ interleave (chunks t) (names t) = inserted MysqlDialect.
Proof.
  split; [by vm_compute|].
  exact (insert_split MysqlDialect book books book_names (inserted MysqlDialect) (or_introl eq_refl) eq_refl
    ltac:(vm_compute; reflexivity) ltac:(vm_compute; reflexivity)).
Defined.

(** A marker in a literal or a comment is text. *)
Example quoted_markers :
  names <$> tokenizeStatement "SELECT ':a', `:b` /* :c */ FROM t WHERE x = :d -- :e" = Ok ["d"].
Proof. vm_compute. reflexivity. Qed.

(** ** Values *)
Definition title : BoundValue := MkBound ColumnType.String (Some (StringValue "a title")).

Lemma bound_value_roundtrip_witness :
  hasCompatibleStorage title = true /\
  exists vs, bindBoundValue ∅ "title" title = Ok vs /\ serializedBoundValue vs "title" ColumnType.String = Ok title.
Proof.
  split; [reflexivity|]. destruct (bound_value_roundtrip ∅ "title" title eq_refl I) as (vs & Hb & Hs & _).
  exists vs. by split.
Defined.

Lemma bind_within_limits_witness :
  is_ok (bind Postgres ∅ "title" title) = true /\
  is_ok (bind Postgres ∅ "title" (MkBound ColumnType.String (Some (StringValue (String "000"%char ""))))) = false.
Proof.
  split.
  - exact (bind_within_limits Postgres _ (MkRuntimeLimits None None) ∅ "title" title eq_refl eq_refl I ltac:(vm_compute; reflexivity)).
  - exact (bind_within_limits Postgres _ (MkRuntimeLimits None None) ∅ "title"
      (MkBound ColumnType.String (Some (StringValue (String "000"%char "")))) eq_refl eq_refl I ltac:(vm_compute; reflexivity)).
Defined.

(** ** A model *)
Definition serialized_book : values :=
  <["title" := MkSociValue (SociString "a title") false]> (<["author_id" := MkSociValue (SociInt 7) false]> ∅).

Definition bound_book : values * N :=
  default (∅, 0%N) (match bindModelParameters (bind Sqlite) (fun _ => true) serialized_book ∅ book with Ok r => Some r | Err _ => None end).

Lemma model_parameters_are_inserted_witness :
  book_names = ["title"; "author_id"] /\ bound_book.2 = 2%N /\ (forall name, name ∈ book_names -> is_Some (bound_book.1 !! name)).
Proof.
  split; [by vm_compute|].
  assert (Hb : bindModelParameters (bind Sqlite) (fun _ => true) serialized_book ∅ book = Ok bound_book) by (vm_compute; reflexivity).
  destruct bound_book as [vs n] eqn:Hbound. 
  destruct (model_parameters_are_inserted Sqlite (fun _ => true) serialized_book ∅ book books book_names vs n eq_refl) as (Hn & Hin & _).
  - intros c Hc Hk. simpl in Hc. rewrite !elem_of_cons in Hc. destruct Hc as [->|[->|[->|Hc]]]; [done..|by apply elem_of_nil in Hc].
  - vm_compute. reflexivity.
  - exact Hb.
  - split; [|exact Hin]. exact Hn.
Defined.

(** ** A link *)
Definition link_statement : Statement := MkStatement "INSERT INTO `book_tags` (`book_id`, `tag_id`) VALUES (1, 2)" [].
Definition link_spec : InsertIfAbsentSpec := MkInsert "book_tags" ["book_id"; "tag_id"] ["1"; "2"] ["book_id"; "tag_id"].

(** The server gives the lock at the third call and does not find the row. *)
#[local] Instance linking_server : LinkServer := {|
  refused_with := fun _ => None;
  names_read := fun n => if bool_decide (n ∈ [0; 7])%nat then ["book_id"; "tag_id"] else ["library"];
  number_read := fun n => Some (if bool_decide (n = 3)%nat then 0 else 1)%Z
|}.

Example linked_outside_a_transaction :
  let (r, s) := mysql_executeInsertIfAbsent Mysql link_statement link_spec new_session in
  r = Ok 1%N /\ length (ran s) = 2 /\ linkLocks s = [] /\ held s = [].
Proof. vm_compute. repeat split. Qed.
