(* ===== verification/ContextSamples.v ===== *)
(** ContextSamples: a bookshop behind a driver that answers from its shelf, and the
    properties of the operations on objects applied to it. *)
From S2P Require Import Prelude Foundation Values Models Schema PhysicalSql Dialect TargetValues QueryValue Query Emitter Render Capabilities Commands Links Binding Database Connection Connections Samples Drivers Context Contexts.
Local Open Scope string_scope.

(** An object is its key and what its collection holds. *)
Inductive Entity := MkEntity (key : Z) (loaded : list Entity).
Definition entity_key (e : Entity) : Z := match e with MkEntity k _ => k end.

Definition int_cell (row : Row) (i : nat) : res Z :=
  match row !! i with Some (MkCell (SociInt z) IndicatorOk) => Ok z | _ => Err Undefined end.

(** A related row is the owner's key and the columns of the target, its key first. *)
#[export] Instance entities : Objects := {|
  Object := Entity;
  to_base := fun _ e => Ok (set_value ∅ "id" (SociInt (entity_key e)));
  from_base := fun _ _ row => k ← int_cell row (length row - 3); Ok (MkEntity k []);
  getPrimaryKey := fun _ e => Ok [int_value (entity_key e)];
  owner_key := fun _ row => k ← int_cell row 0; Ok [int_value k];
  collection_fields := fun _ => ["books"];
  wraps := fun _ _ _ => true;
  setLoaded := fun _ targets e => MkEntity (entity_key e) targets
|}.

(** Authors and their books. *)
Definition shelf : list (Z * Z) := [(1, 10); (2, 20); (1, 11); (4, 40); (2, 21)]%Z.

Definition shelf_row (r : Z * Z) : Row :=
  let cell c := MkCell c IndicatorOk in [cell (SociInt r.1); cell (SociInt r.2); cell (SociString "title"); cell (SociInt r.1)].
Definition shelf_related (r : Z * Z) : PrimaryKey * Entity := ([int_value r.1], MkEntity r.2 []).

(** A query selects the rows of the keys that are bound; a statement binds two at most. *)
Definition selected (parameters : list StatementParameter) : list (Z * Z) :=
  List.filter (fun r => existsb (fun v => same_key [int_value r.1] [v]) (omap parameter_value parameters)) shelf.

Definition serve {A} (c : Call A) (pending : list Row) : A * list Row :=
  match c with
  | ReadLimits => (MkLimits (Some 2%N) None (MkRuntimeLimits None None), pending)
  | OpenRows _ parameters => (length (selected parameters), map shelf_row (selected parameters))
  | FetchRow => (match pending with row :: _ => row | [] => [] end, tail pending)
  | c => (answer c, pending)
  end.

#[local] Instance bookshop : Driver := {|
  World := list Row;
  is_connected := fun _ => true;
  perform := fun A c w => let '(a, w) := serve c w in (Ok a, w);
  release := fun w => w
|}.

Definition opened : State (H := bookshop) := MkState (H := bookshop) connected_database [] [].
Definition author_books : RelationView := relation_of authors "books".
Definition customers : list Entity := map (fun k => MkEntity k []) [1; 2; 3; 4; 5]%Z.

Lemma fetched operation columns convert (rows : list Row) (s : State) (read : list (PrimaryKey * Entity)) s' :
  hasEncodedResult columns = false -> world s = rows ->
  fetch (length rows) operation columns convert s = (Ok read, s') -> mapM convert rows = Ok read.
Proof.
  intros Hplain. revert s read. induction rows as [|row rows IH]; intros s read Hs Hread; [by injection Hread as <- _|].
  cbn [length fetch] in Hread. rewrite Hplain in Hread. apply M_bind_Ok in Hread as (row' & t & Hrow & Hread).
  unfold call in Hrow. simpl in Hrow. rewrite Hs in Hrow. simpl in Hrow. injection Hrow as <- <-.
  apply M_bind_Ok in Hread as (? & t & Ht & Hread). injection Ht as _ <-.
  apply M_bind_Ok in Hread as (a & t & [Ha ->]%lift_Ok & Hread).
  apply M_bind_Ok in Hread as (rest & t & Hrest & Hret). injection Hret as <- <-.
  apply IH in Hrest; [|done]. simpl. by rewrite Ha, bind_Ok, Hrest.
Qed.

Lemma filter_values keys : omap parameter_value (filter_parameters keys) = concat keys.
Proof.
  unfold filter_parameters. generalize keyName. induction keys as [|key keys IH]; intros name; [done|].
  rewrite imap_cons. simpl. rewrite omap_app, key_parameters_values. f_equal. exact (IH (fun i => name (S i))).
Qed.

Lemma single_keys f keys :
  Forall (fun key : PrimaryKey => length key = 1%nat) keys -> existsb (fun v => f [v]) (concat keys) = existsb f keys.
Proof.
  induction 1 as [|key keys Hkey _ IH]; [done|]. destruct key as [|v [|]]; try done. simpl. by rewrite IH.
Qed.

Definition shelf_rows : list (PrimaryKey * Entity) := map shelf_related shelf.

Lemma rows_of_shelf keys :
  rows_of shelf_rows keys = map shelf_related (List.filter (fun r => existsb (same_key [int_value r.1]) keys) shelf).
Proof.
  unfold rows_of, shelf_rows. induction shelf as [|r l IH]; [done|]. simpl in IH |- *. rewrite IH. by destruct (existsb _ keys).
Qed.

Lemma converted owner target joined rows : mapM (related_row owner target joined) (map shelf_row rows) = Ok (map shelf_related rows).
Proof. induction rows as [|r rows IH]; [done|]. simpl in *. by rewrite IH. Qed.

Lemma shelf_answers : answers PostgresqlDialect author book author_books false shelf_rows.
Proof.
  intros base keys st columns read s s' Hcolumns Hbase Hst Hread.
  destruct (collection_parameters _ author authors [scalar "id" ColumnType.Int true false] _ _ _ _ _ eq_refl eq_refl Hst) as [Hps Hkeys].
  apply M_bind_Ok in Hread as (n & t & Hn & Hread). unfold call in Hn. simpl in Hn. injection Hn as <- <-.
  rewrite <- (length_map shelf_row) in Hread.
  apply fetched in Hread; [|vm_compute in Hcolumns; by injection Hcolumns as <-|done].
  rewrite converted in Hread. injection Hread as <-. rewrite rows_of_shelf. unfold selected. rewrite Hps, filter_values.
  by rewrite (List.filter_ext _ _ (fun r => single_keys (same_key [int_value r.1]) keys Hkeys)).
Qed.

Lemma customer_keys : Forall2 (fun o key => getPrimaryKey author o = Ok key) customers (map (fun k => [int_value k]) [1; 2; 3; 4; 5]%Z).
Proof. repeat constructor. Qed.

(** Five owners, two to a statement. *)
Definition included := loadCollectionField author false author_books customers opened.
Definition stocked : list Entity :=
  let e k books := MkEntity k (map (fun b => MkEntity b []) books) in [e 1 [10; 11]; e 2 [20; 21]; e 3 []; e 4 [40]; e 5 []]%Z.

Lemma include_complete_witness :
  included.1 = Ok stocked /\
  Forall2 (fun okey o' => exists targets, o' = setLoaded "books" targets okey.1 /\ targets ≡ₚ targets_of okey.2 shelf_rows)
    (zip customers (map (fun k => [int_value k]) [1; 2; 3; 4; 5]%Z)) stocked.
Proof.
  assert (Hincluded : included.1 = Ok stocked) by (vm_compute; reflexivity). split; [exact Hincluded|].
  apply (@include_complete bookshop entities postgres_provider author book author_books false shelf_rows customers _ opened _ included.2);
    [reflexivity|vm_compute; reflexivity|exact shelf_answers|exact customer_keys|repeat constructor| |repeat constructor|].
  - apply (bool_decide_unpack _). vm_compute. exact I.
  - transitivity (included.1, included.2); [apply surjective_pairing|by f_equal].
Defined.

Lemma include_within_bind_limit_witness :
  let limits := MkLimits (Some 2%N) None (MkRuntimeLimits None None) in
  concat (batches 5 (batch_size limits 1 5) customers) = customers /\
  forall part keys st, part ∈ batches 5 (batch_size limits 1 5) customers -> mapM (getPrimaryKey author) part = Ok keys ->
    collectionSelectStatement PostgresqlDialect author author_books "SELECT * FROM books" keys false = Ok st -> (size_of (parameters st) <= 2)%N.
Proof.
  intros limits.
  exact (include_within_bind_limit PostgresqlDialect author authors [scalar "id" ColumnType.Int true false] author_books "SELECT * FROM books" false
           limits 2%N customers eq_refl eq_refl eq_refl ltac:(simpl; lia)).
Defined.

(** In a transaction an author is inserted that is there already, which breaks the
    transaction for what follows. *)
Definition everything : SelectSpec := MkSelect None None None [] [] [] None false true.
Definition dealings : list (context_operation (H0 := entities)) :=
  [SelectObjects author everything ["books"]; Link author (MkEntity 1 []) "books" (MkEntity 10 []);
   InsertObjects author [MkEntity 1 []]; SessionOperation Begin; SessionOperation (Connect Postgres)].
Definition script : list (option thrown) := repeat None 5 ++ [Some duplicate].
Definition traded : State (H := scripted) :=
  fold_right (fun o s => (run_context registered (fun p => bind (provider_type p)) o s).2) (fresh script) dealings.

Lemma context_protocol_witness :
  transactionFailed (database traded) = true /\
  (exists ph, phase_after registered (events traded) = Some ph /\ agrees ph (database traded)) /\
  (run_context registered (fun p => bind (provider_type p)) (SessionOperation Rollback) traded).1 <> Err lost.
Proof.
  split; [vm_compute; reflexivity|].
  assert (Hs : context_reachable registered (fun p => bind (provider_type p)) traded).
  { repeat (apply context_run; [|exact I]). apply context_fresh. }
  destruct (context_protocol registered (fun p => bind (provider_type p)) traded Hs) as [Hph Hsafe].
  split; [exact Hph|]. exact (Hsafe (SessionOperation Rollback) I (MkSociError connection_error NoNative)).
Defined.

(** A date is not read into a number. *)
Example date_into_number_refused :
  executeSelectStatement true (MkStatement "SELECT born FROM authors" [])
    [MkResultColumn "born" ColumnType.Date (Some ColumnType.Int)] (fun row => int_cell row 0) mret opened =
  (Err (Thrown (DatabaseError Conversion Postgres "select projection"
                  "A database result cannot be represented by the requested projection" None)), opened).
Proof. vm_compute. reflexivity. Qed.
